(* ===== verification/_CoqProject ===== *)
-Q . S2P
Prelude.v
Text.v
Bits.v
Status.v
MpmcArray.v
RhandlerRegistry.v
MatchSpec.v
MatchQueue.v
MatchMap.v
Matching.v
ImmTagArchive.v
Deque.v
MpmcSet.v
PacketPool.v
Comp.v
Memory.v
Net.v
Endpoint.v
Backlog.v
Frames.v
Requests.v
Process.v
Rendezvous.v
Progress.v
Communicate.v
Protocol.v
Demo.v
PostComm.v
ProcessLaws.v
EagerDelivery.v
EagerSend.v
EagerEndToEnd.v
RdvMessages.v
RdvWrites.v
RdvLaws.v
RdvRecv.v
RdvMatch.v
RdvSend.v
RdvFinish.v
RdvEndToEnd.v
Graph.v
GraphRuns.v
GraphBuild.v
Collective.v
World.v
WorldRuns.v
CollectiveBuild.v
Barrier.v
Tree.v
BroadcastTree.v
Broadcast.v
Exchange.v
Allreduce.v
Alltoall.v
ReduceTree.v
Reduce.v
ShmRing.v
ShmRingRuns.v
ShmPosix.v
ShmTransport.v
Bootstrap.v
IbvQps.v
IbvPost.v
IbvSlots.v
IbvSetup.v
LctQueue.v
Tbarrier.v
PmiTcp.v
PmiFence.v
PmiFile.v
PmiArchive.v
OfiPost.v
OfiSetup.v
