(* ===== verification/Prelude.v ===== *)
(** * LCI, the Lightweight Communication Interface: a verification development

    LCI is a communication library for multithreaded programs on clusters. A
    process posts operations ([post_comm]: send, receive, active message, put, get)
    on an endpoint; the network backend takes them or they are parked in a backlog;
    [progress] polls the backend and hands each completion to its handler, which
    copies, matches, answers or signals a completion object.

    ** Configuration

    The default build in release mode: no CUDA or HIP, no shared-memory transport,
    no registration cache. For the endpoint and the protocols the network backend is
    a parameter ([post_impl], [poll_comp_impl], [post_recvs_impl], [get_rkey]); what a
    theorem needs of it is a named hypothesis ([backend_codes]), which the libibverbs
    and the libfabric backend are proved to satisfy. The C library's allocator gives
    fresh addresses ([ns_brk], [ns_blocks]); memory is a map from addresses to bytes.

    ** Conventions

    Fallible code returns [result]: a failed [LCI_Assert], a C++ exception, undefined
    behaviour, a self-deadlock and exhausted fuel are different failures. Stateful
    code is a function in the state monad [ST] over an explicit record. Machine
    integers are [Z] with their wrap-around written out ([u32], [u64], [i32],
    [i64]). Code that several threads run at once is modelled twice where the
    interleaving matters: as a sequential function, and as a step relation with one
    step per atomic access. Atomic accesses are sequentially consistent.

    ** Files and sources (under src/)

    Foundations
    - Prelude: failures, results, the state monad, wrap-around, tactics.
    - Bits: [set_bits32], [get_bits32] and the 64-bit versions (src/util/misc.hpp).
    - Status: error codes and statuses (src/api/lci.hpp, src/core/protocol.hpp).

    Data structures
    - MpmcArray: the growing array with lock-free reads (data_structure/mpmc_array.hpp);
      against a writer an element is copied word by word.
    - ImmTagArchive: tags for immediate data (data_structure/imm_tag_archive.hpp).
    - Deque, MpmcSet: the per-thread deques of packets and stealing among them
      (data_structure/mpmc_set.hpp).
    - PacketPool: packets in a heap, get, put, user packets (packet_pool/).

    Matching
    - RhandlerRegistry: remote handlers (rhandler_registry/).
    - MatchSpec: keys, policies, the abstract engine and the class
      [MatchingEngine] that the engines implement (matching_engine.hpp, .cpp).
    - MatchQueue, MatchMap, Matching: the two engines (matching_engine_queue.hpp,
      matching_engine_map.hpp) and their instances of the class. The queue engine reads a
      list node after it has freed it; what such a read gives is a parameter.

    Completion
    - Comp: synchronizer, counter, queue, handler (comp/).

    Network
    - Memory, Net: bytes, contexts, operations, the state below an endpoint.
    - Endpoint: all posts and the backlog queue (network/endpoint_inline.hpp,
      backlog_queue/).
    - Backlog, Frames, Requests: what the endpoint guarantees.

    Protocols
    - Process: the state of a process, registration, contexts (core/protocol.hpp,
      network/network_inline.hpp, network/device_inline.hpp).
    - Rendezvous: matched messages, RTS, RTR, writes, FIN (core/rendezvous.hpp).
    - Progress: completions, batches, receive refill, [progress] (core/progress.cpp).
    - Communicate: [post_comm] step by step (core/communicate.cpp).
    - Protocol, PostComm: encoding of eager messages, what a post may return.
    - ProcessLaws, Demo: equations of the operations; concrete processes.
    - EagerDelivery, EagerSend, EagerEndToEnd: eager messages.
    - RdvMessages, RdvWrites, RdvLaws, RdvRecv, RdvMatch, RdvSend, RdvFinish,
      RdvEndToEnd: the rendezvous.

    Graphs and collectives
    - Graph: the completion graph (comp/graph.hpp). GraphRuns: any number of threads
      that mark and trigger nodes, one atomic access at a time. GraphBuild: graphs
      from their nodes and edges.
    - Collective: what each rank builds or posts (collective/). CollectiveBuild: the
      shape of these graphs.
    - World, WorldRuns: all ranks with their memories, messages in flight and posted
      receives; a collective whose sends and receives match comes to its end.
    - Barrier, Tree, BroadcastTree, Broadcast, Exchange, Allreduce, Alltoall,
      ReduceTree, Reduce: the collectives one by one. A user's reduction is a parameter
      that combines its operands as documented ([op_documented], in Exchange): [right] and
      [dst] may be the same pointer, and [left] and [dst] may not.

    Shared memory (the transport between ranks of a host, src/shm/; an option of the
    build, modelled on its own)
    - ShmRing: the ring in shared memory: layout, and post, poll and release as agents
      that make one atomic access at a time (ring.hpp, ring.cpp). ShmRingRuns: any
      number of agents on one ring.
    - ShmPosix: names, handles, and the mappings of owner and peer over a model of the
      POSIX calls, each of which may fail (posix_ring.hpp, posix_ring.cpp).
    - ShmTransport: which ranks share a host, the encoding of records for the process
      manager, the set-up of contexts and devices and their release (transport.hpp,
      transport.cpp).

    Backend and start-up
    - Text: numbers as text, as [snprintf] and [sscanf] write and read them.
    - Bootstrap: the exchange of records at start-up (bootstrap/bootstrap.cpp).
    - IbvQps: from queue pairs to ranks, and completions; IbvPost: posts, receives and
      send slots; IbvSlots: the slots of all queue pairs of a device with many threads
      that post and poll, and endpoints that come and go; IbvSetup: choice of port and GID, connection of endpoints, what an endpoint owns, contexts, registration
      (network/ibv/). The verbs library is a parameter, or its answers are data.
    - OfiPost: posts, receives and completions of the libfabric backend; OfiSetup: choice
      of a provider, limits, opening of a device, exchange of addresses, registration
      (network/ofi/). Libfabric is a parameter that may fail any call.

    The runtime's own library (src/lct/)
    - LctQueue: the array queue, and the two array queues with tags for many threads
      (data_structure/queue/).
    - Tbarrier: the barrier of threads (tbarrier/tbarrier.cpp).
    - PmiTcp: environment, sockets and messages of the TCP rendezvous; PmiFence: joining,
      and publish, barrier and getname of all ranks (pmi/pmi_wrapper_tcp.cpp).
    - PmiFile: the rendezvous through files, one step for each section of the code between
      two accesses to a file (pmi/pmi_wrapper_file.cpp).
    - PmiArchive: archives of entries, one process and MPI, which is a parameter
      (pmi/pmii_archive.hpp, pmi_wrapper_local.cpp, pmi_wrapper_mpi.cpp), the choice of the
      backend and the count of initialisations (pmi/pmi_wrapper.cpp).

    ** What the theorems show

    - End to end: eager and rendezvous messages arrive with the data, rank, tag and
      size of the send, whoever comes first, and leave nothing behind; for eager messages
      with the default split of the immediate data or a smaller one ([imm_config]).
    - Ordering: requests to a rank reach the backend in the order of the posts,
      through any history of refusals, and the backlog drains as long as no put with
      immediate data is parked on a backend without support for it.
    - Matching: both engines are first come first served for each key, and agree as
      far as freed nodes still read as they were.
    - Resources: packets are neither lost nor duplicated by pool, set and deque;
      tags of the archive are exclusive under every interleaving; each word that a
      lock-free read of the array returns is one that the element held.
    - Graphs: each node runs once, after its predecessors, under every interleaving.
    - Collectives: when a rank is through, its buffer holds what the collective
      promises, whatever the network and the threads do, and every rank gets
      through; for the reduction to a root the user's function must also work in the calls
      that pass [left] as [dst]. For the ring broadcast, when the pieces stay in the buffer.
    - Shared memory: the ring delivers every message once and in order under every
      interleaving, its operations are wait-free, its layout is sound; a failed set-up leaves nothing
      behind but what [munmap] and [shm_unlink] refuse, and a device reaches exactly the
      ranks of its host.
    - Backends: both keep the contract of the endpoint; a post hands over one request or
      nothing; with libibverbs a poll gives every slot back to its queue pair and the send
      queue is not overrun, both up to the requests in flight when an endpoint is removed,
      and endpoints are connected in pairs and give back what they own; with libfabric the
      context of an operation is given to the library or completed at once, and a rank's
      device knows the address of every rank.
    - Process management: messages survive sockets that split them anywhere; after a
      barrier every rank reads what every rank had published before it, with TCP, files and
      MPI, and a barrier that all ranks have entered does not get stuck (with files while
      tag and count fit in fifteen bytes, and for keys and values that fit in a line);
      process management is up exactly while it is used, with the first backend that is available.
    - Threads: no thread leaves the thread barrier early; the tagged queues are first in
      first out as long as cells are not reused too early.
    - Encodings: bit fields, keys, immediate data and message structs round-trip.
    - Errors: what the flags of a post exclude; and the places where the code does
      not do what it means to, each with a concrete run.

    ** Bounds and fuel

    Loops that the code bounds by data take that bound as fuel (pieces of a message:
    its size; probes of the archive: its size; deque doubling: structural; rounds of a
    collective: the number of ranks), and the theorems prove that it suffices. Loops that wait for another party ([wait],
    blocking [get]) are given a schedule or a number of attempts.

    ** Not modelled

    The accelerator code, the allocation of the runtime's objects, logging and
    performance counters only call other libraries or the operating system. The
    API classes are generated at build time. PROJECT.json lists every part with
    its status. *)
From stdpp Require Import base numbers list gmap strings.
From Stdlib Require Import ZArith Lia.

Declare Scope lci_scope.
Delimit Scope lci_scope with lci.
Open Scope Z_scope.

(** ** Fallible code *)

(** What ends a computation without a result. [AssertFailed] is a failed
    [LCI_Assert] (the process aborts), [Thrown] a [std::runtime_error],
    [PeerFailure] a [peer_failure_error], [Undefined] a step the C++ standard
    leaves undefined, [Deadlock] a thread that waits for a lock it holds, and
    [OutOfFuel] a bound of the model that was reached. *)
Inductive failure : Type :=
  | AssertFailed (cond : string)
  | Thrown (what : string)
  | PeerFailure (rank : Z)
  | Undefined (what : string)
  | Deadlock (what : string)
  | OutOfFuel.

Inductive result (A : Type) : Type :=
  | Ok (a : A)
  | Err (f : failure).
Arguments Ok {A} a.
Arguments Err {A} f.

#[export] Instance result_ret : MRet result := fun A a => Ok a.
#[export] Instance result_bind : MBind result := fun A B k m =>
  match m with Ok a => k a | Err f => Err f end.

(** [LCI_Assert(cond, ...)]. *)
Definition LCI_Assert (b : bool) (cond : string) : result unit :=
  if b then Ok tt else Err (AssertFailed cond).

Definition is_ok {A} (r : result A) : bool :=
  match r with Ok _ => true | Err _ => false end.

Lemma bind_Ok {A B} (m : result A) (k : A -> result B) (b : B) :
  (m ≫= k) = Ok b <-> exists a, m = Ok a /\ k a = Ok b.
Proof. destruct m; simpl; naive_solver. Qed.

Lemma LCI_Assert_Ok b c u : LCI_Assert b c = Ok u <-> b = true.
Proof. destruct b, u; simpl; naive_solver. Qed.

Lemma LCI_Assert_true b c : b = true -> LCI_Assert b c = Ok tt.
Proof. by intros ->. Qed.

(** ** Code that also threads a state *)

Definition ST (S A : Type) : Type := S -> result (A * S).

#[export] Instance st_ret {S} : MRet (ST S) := fun A a s => Ok (a, s).
#[export] Instance st_bind {S} : MBind (ST S) := fun A B k m s =>
  match m s with Ok (a, s) => k a s | Err f => Err f end.

Definition get_st {S} : ST S S := fun s => Ok (s, s).
Definition gets {S A} (f : S -> A) : ST S A := fun s => Ok (f s, s).
Definition modify {S} (f : S -> S) : ST S unit := fun s => Ok (tt, f s).
Definition lift {S A} (r : result A) : ST S A := fun s =>
  match r with Ok a => Ok (a, s) | Err f => Err f end.
Definition fail_with {S A} (f : failure) : ST S A := fun _ => Err f.

(** [LCI_Assert] inside such code. *)
Definition assert_st {S} (b : bool) (cond : string) : ST S unit := lift (LCI_Assert b cond).

Lemma st_bind_Ok {S A B} (m : ST S A) (k : A -> ST S B) s x :
  (m ≫= k) s = Ok x <-> exists a s', m s = Ok (a, s') /\ k a s' = Ok x.
Proof.
  unfold mbind, st_bind. destruct (m s) as [[a s']|f]; naive_solver.
Qed.

Lemma st_bind_eq {S A B} (m : ST S A) (k : A -> ST S B) s a s' :
  m s = Ok (a, s') -> (m ≫= k) s = k a s'.
Proof. unfold mbind, st_bind. by intros ->. Qed.

(** Inverts a chain of binds that returned a value. *)
Ltac inv_ok :=
  repeat match goal with
  | H : (_ ≫= _) = Ok _ |- _ => apply bind_Ok in H; destruct H as (? & ? & ?)
  | H : LCI_Assert _ _ = Ok _ |- _ => apply LCI_Assert_Ok in H
  | H : (_ ≫= _) _ = Ok _ |- _ => apply st_bind_Ok in H; destruct H as (? & ? & ? & ?)
  | H : Ok _ = Ok _ |- _ => injection H as H; subst
  | H : mret _ = Ok _ |- _ => injection H as H; subst
  | H : Err _ = Ok _ |- _ => discriminate H
  | x : _ * _ |- _ => destruct x
  end; simplify_eq/=.

(** ** Machine integers

    A machine integer is its value in [Z]; an operation that can leave the
    range of its C++ type is followed by the conversion of that type. *)
Definition u16 (z : Z) : Z := z mod 2 ^ 16.
Definition u32 (z : Z) : Z := z mod 2 ^ 32.
Definition u64 (z : Z) : Z := z mod 2 ^ 64.
Definition i32 (z : Z) : Z := (z + 2 ^ 31) mod 2 ^ 32 - 2 ^ 31.

Definition is_u32 (z : Z) : Prop := 0 <= z < 2 ^ 32.
Definition is_u64 (z : Z) : Prop := 0 <= z < 2 ^ 64.

Lemma u32_id z : is_u32 z -> u32 z = z.
Proof. intros. apply Z.mod_small. assumption. Qed.
Lemma u64_id z : is_u64 z -> u64 z = z.
Proof. intros. apply Z.mod_small. assumption. Qed.
Lemma u32_range z : is_u32 (u32 z).
Proof. apply Z.mod_pos_bound. lia. Qed.
Lemma u64_range z : is_u64 (u64 z).
Proof. apply Z.mod_pos_bound. lia. Qed.

Lemma u32_i32 z : u32 (i32 z) = u32 z.
Proof. unfold u32, i32. rewrite Zminus_mod_idemp_l. f_equal. lia. Qed.

Lemma i32_u32 x : - 2 ^ 31 <= x < 2 ^ 31 -> i32 (u32 x) = x.
Proof. intros H. unfold i32, u32. Z.to_euclidean_division_equations. lia. Qed.

Create HintDb word discriminated.
#[export] Hint Resolve u32_range u64_range u32_id u64_id : word.

(** ** Counting the elements of a list *)

Definition tally {A} (f : A -> Z) (l : list A) : Z := foldr (fun a n => f a + n) 0 l.
Lemma tally_cons {A} (f : A -> Z) a l : tally f (a :: l) = f a + tally f l.
Proof. done. Qed.
Lemma tally_insert {A} (f : A -> Z) l i a b : l !! i = Some a -> tally f (<[i := b]> l) = tally f l - f a + f b.
Proof.
  revert i. induction l as [|c l IH]; intros [|i] H; [done|done| |].
  - injection H as ->. change (tally f (b :: l) = tally f (a :: l) - f a + f b). rewrite !tally_cons. lia.
  - change (<[S i:=b]> (c :: l)) with (c :: <[i:=b]> l). rewrite !tally_cons. pose proof (IH i H). lia.
Qed.
Lemma tally_range {A} (f : A -> Z) l : (forall a, 0 <= f a <= 1) -> 0 <= tally f l <= Z.of_nat (length l).
Proof. intros H. induction l as [|a l IH]; [done|]. change (0 <= f a + tally f l <= Z.of_nat (S (length l))). pose proof (H a). lia. Qed.
Lemma tally_one {A} (f : A -> Z) l i a : (forall a, 0 <= f a <= 1) -> l !! i = Some a -> f a <= tally f l.
Proof.
  intros Hf. revert i. induction l as [|c l IH]; intros [|i] H; [done|done| |]; rewrite tally_cons.
  - injection H as ->. pose proof (tally_range f l Hf). lia.
  - apply IH in H. pose proof (Hf c). lia.
Qed.
Lemma tally_two {A} (f : A -> Z) l i j a b : (forall a, 0 <= f a <= 1) -> l !! i = Some a -> l !! j = Some b -> i <> j -> f a + f b <= tally f l.
Proof.
  intros Hf. revert i j. induction l as [|c l IH]; intros [|i] [|j] Ha Hb Hij; try done; rewrite tally_cons.
  - injection Ha as ->. apply (tally_one f l j _ Hf) in Hb. lia.
  - injection Hb as ->. apply (tally_one f l i _ Hf) in Ha. lia.
  - pose proof (IH i j Ha Hb ltac:(congruence)). pose proof (Hf c). lia.
Qed.
Lemma tally_replicate {A} (f : A -> Z) n a : tally f (replicate n a) = Z.of_nat n * f a.
Proof. induction n as [|n IH]; [done|]. change (f a + tally f (replicate n a) = Z.of_nat (S n) * f a). lia. Qed.
Lemma tally_full {A} (f : A -> Z) l : (forall a, 0 <= f a <= 1) -> tally f l = Z.of_nat (length l) -> forall i a, l !! i = Some a -> f a = 1.
Proof.
  intros Hf. induction l as [|c l IH]; intros H [|i] a Ha; [done|done| |]; rewrite tally_cons in H; cbn [length] in H;
    pose proof (tally_range f l Hf); pose proof (Hf c).
  - injection Ha as ->. lia.
  - apply (IH ltac:(lia) i a Ha).
Qed.
Lemma tally_zero {A} (f : A -> Z) l : (forall i a, l !! i = Some a -> f a = 0) -> tally f l = 0.
Proof.
  induction l as [|c l IH]; intros H; [done|]. rewrite tally_cons, (H 0%nat c eq_refl), IH; [done|]. intros i a Ha. by apply (H (S i)).
Qed.
