(* ===== verification/Text.v ===== *)
(** * Text

    Strings of C code are lists of character codes without the terminator. What the
    sources use of [snprintf] and [sscanf]: decimal and hexadecimal numbers. *)
From stdpp Require Import base numbers functions list strings.
From Stdlib Require Import ZArith Lia.
From S2P Require Import Prelude.

(** The characters of a literal. *)
Definition chars (s : string) : list Z :=
  (fun a => Z.of_nat (Ascii.nat_of_ascii a)) <$> String.list_ascii_of_string s.

(** ** Numbers in a base *)

Definition digit (d : Z) : Z := if d <? 10 then 48 + d else 87 + d.
Definition is_dec_digit (c : Z) : bool := (48 <=? c) && (c <=? 57).
Definition is_hex_digit (c : Z) : bool :=
  is_dec_digit c || ((97 <=? c) && (c <=? 102)) || ((65 <=? c) && (c <=? 70)).
Definition digit_value (c : Z) : Z :=
  if c <=? 57 then c - 48 else if c <=? 70 then c - 55 else c - 87.

(** The digits of [n], the last one first; a number has no more digits than bits. *)
Fixpoint digits_rev (base : Z) (fuel : nat) (n : Z) : list Z :=
  match fuel with
  | O => []
  | S fuel => digit (n mod base) :: (if n <? base then [] else digits_rev base fuel (n / base))
  end.
Definition digits (base n : Z) : list Z := rev (digits_rev base (S (Z.to_nat (Z.log2 n))) n).
Definition read_digits (base : Z) (l : list Z) : Z := foldl (fun acc c => acc * base + digit_value c) 0 l.

(** "%d". *)
Definition print_d (n : Z) : list Z := if n <? 0 then 45 :: digits 10 (- n) else digits 10 n.
(** "%0<width>x" of an unsigned number. *)
Definition print_x (width : nat) (n : Z) : list Z :=
  let d := digits 16 n in replicate (width - length d) 48 ++ d.

(** "%x": spaces, an optional prefix, then as many digits as there are. *)
Fixpoint take_while (p : Z -> bool) (l : list Z) : list Z :=
  match l with c :: l => if p c then c :: take_while p l else [] | [] => [] end.
Fixpoint drop_while (p : Z -> bool) (l : list Z) : list Z :=
  match l with c :: l' => if p c then drop_while p l' else l | [] => [] end.
Definition is_space (c : Z) : bool := (c =? 32) || ((9 <=? c) && (c <=? 13)).
Definition skip_0x (l : list Z) : list Z :=
  match l with
  | 48 :: x :: c :: l' => if ((x =? 120) || (x =? 88)) && is_hex_digit c then c :: l' else l
  | _ => l
  end.
Definition scan_x (l : list Z) : option Z :=
  match take_while is_hex_digit (skip_0x (drop_while is_space l)) with
  | [] => None
  | d => Some (u32 (read_digits 16 d))
  end.

(** ** Reading back what was printed *)

Lemma digit_dec d : 0 <= d < 10 -> is_dec_digit (digit d) = true /\ digit_value (digit d) = d.
Proof.
  intros H. unfold is_dec_digit, digit, digit_value. rewrite (proj2 (Z.ltb_lt d 10)) by lia. split; [lia|].
  rewrite (proj2 (Z.leb_le _ _)); lia.
Qed.
Lemma digit_hex d : 0 <= d < 16 -> is_hex_digit (digit d) = true /\ digit_value (digit d) = d.
Proof.
  intros H. unfold is_hex_digit, is_dec_digit, digit, digit_value. destruct (Z.ltb_spec d 10); [split; [lia|]|].
  - rewrite (proj2 (Z.leb_le _ _)); lia.
  - split; [lia|]. rewrite (proj2 (Z.leb_gt _ _)) by lia. rewrite (proj2 (Z.leb_gt _ _)) by lia. lia.
Qed.

Lemma foldl_rev {A B} (f : A -> B -> A) a l : foldl f a (rev l) = foldr (fun b acc => f acc b) a l.
Proof. induction l as [|b l IH]; cbn; [done|]. by rewrite foldl_app, IH. Qed.

(** The two halves of a byte. *)
Lemma nibbles b : 0 <= b < 256 ->
  0 <= Z.shiftr b 4 < 16 /\ 0 <= Z.land b 0xf < 16 /\ Z.lor (Z.shiftl (Z.shiftr b 4) 4) (Z.land b 0xf) = b.
Proof.
  intros Hb. rewrite Z.shiftr_div_pow2 by lia. change 0xf with (Z.ones 4). rewrite Z.land_ones by lia. change (2 ^ 4) with 16.
  pose proof (Z.div_mod b 16 ltac:(lia)). pose proof (Z.mod_pos_bound b 16 ltac:(lia)).
  split; [split; [apply Z.div_pos; lia|apply Z.div_lt_upper_bound; lia]|]. split; [done|].
  change 16 with (2 ^ 4). rewrite <- Z.shiftr_div_pow2, <- Z.land_ones by lia. apply Z.bits_inj'. intros n Hn.
  rewrite Z.lor_spec, Z.shiftl_spec, Z.land_spec, Z.testbit_ones_nonneg by lia. destruct (Z.ltb_spec n 4).
  - rewrite (Z.testbit_neg_r (Z.shiftr b 4)) by lia. by rewrite andb_true_r.
  - rewrite Z.shiftr_spec by lia. rewrite andb_false_r, orb_false_r. f_equal. lia.
Qed.

Section Base.
Variables (base : Z) (ok : Z -> bool).
Hypothesis Hbase : 2 <= base.
Hypothesis Hok : forall d, 0 <= d < base -> ok (digit d) = true /\ digit_value (digit d) = d.

Lemma digits_rev_value fuel n :
  0 <= n < 2 ^ Z.of_nat fuel -> foldr (fun c acc => acc * base + digit_value c) 0 (digits_rev base fuel n) = n.
Proof.
  revert n. induction fuel as [|fuel IH]; intros n Hn; [cbn in *; lia|].
  cbn [digits_rev foldr]. rewrite (proj2 (Hok _ (Z.mod_pos_bound n base ltac:(lia)))).
  destruct (Z.ltb_spec n base); [cbn; rewrite Z.mod_small; lia|].
  rewrite IH; [pose proof (Z.div_mod n base); lia|]. rewrite Nat2Z.inj_succ, Z.pow_succ_r in Hn by lia.
  split; [apply Z.div_pos; lia|]. apply Z.div_lt_upper_bound; nia.
Qed.
Lemma digits_rev_ok fuel n : Forall (fun c => ok c = true) (digits_rev base fuel n).
Proof.
  revert n. induction fuel as [|fuel IH]; intros n; cbn [digits_rev]; [done|]. constructor.
  - apply Hok. apply Z.mod_pos_bound. lia.
  - by destruct (_ <? _).
Qed.
Lemma log2_fuel n : 0 <= n -> 0 <= n < 2 ^ Z.of_nat (S (Z.to_nat (Z.log2 n))).
Proof.
  intros Hn. split; [done|]. rewrite Nat2Z.inj_succ, Z2Nat.id by apply Z.log2_nonneg.
  destruct (Z.eq_dec n 0) as [->|]; [done|]. apply Z.log2_spec. lia.
Qed.
Lemma read_digits_digits n : 0 <= n -> read_digits base (digits base n) = n.
Proof.
  intros Hn. unfold read_digits, digits. rewrite foldl_rev. apply digits_rev_value. by apply log2_fuel.
Qed.
Lemma digits_ok n : Forall (fun c => ok c = true) (digits base n).
Proof. apply List.Forall_rev, digits_rev_ok. Qed.
Lemma digits_nonempty n : digits base n <> [].
Proof. unfold digits. cbn [digits_rev rev]. intros E. apply app_eq_nil in E as [_ E]. done. Qed.
Lemma digits_rev_length fuel n k : 0 <= n < base ^ Z.of_nat k -> (0 < k)%nat -> (length (digits_rev base fuel n) <= k)%nat.
Proof.
  revert n k. induction fuel as [|fuel IH]; intros n k Hn Hk; cbn [digits_rev]; [cbn; lia|].
  destruct (Z.ltb_spec n base); [cbn; lia|]. cbn [length]. destruct k as [|[|k]]; [lia|rewrite Z.pow_1_r in Hn; lia|].
  apply le_n_S, IH; [|lia]. split; [apply Z.div_pos; lia|]. apply Z.div_lt_upper_bound; [lia|].
  rewrite (Nat2Z.inj_succ (S k)), Z.pow_succ_r in Hn by lia. lia.
Qed.
Lemma digits_length n k : 0 <= n < base ^ Z.of_nat k -> (0 < k)%nat -> (length (digits base n) <= k)%nat.
Proof. intros. unfold digits. rewrite length_rev. by apply digits_rev_length. Qed.
End Base.

Lemma print_d_digits n : 0 <= n -> Forall (fun c => is_dec_digit c = true) (print_d n).
Proof. intros H. unfold print_d. rewrite (proj2 (Z.ltb_ge n 0)) by done. apply digits_ok; [lia|]. apply digit_dec. Qed.
Lemma read_print_d n : 0 <= n -> read_digits 10 (print_d n) = n.
Proof.
  intros H. unfold print_d. rewrite (proj2 (Z.ltb_ge n 0)) by done. eapply read_digits_digits; [lia|apply digit_dec|done].
Qed.
Lemma print_d_inj n m : 0 <= n -> 0 <= m -> print_d n = print_d m -> n = m.
Proof. intros Hn Hm E. by rewrite <- (read_print_d n Hn), E, read_print_d. Qed.

Lemma read_digits_zeros base k l : read_digits base (replicate k 48 ++ l) = read_digits base l.
Proof. unfold read_digits. induction k as [|k IH]; [done|]. by rewrite <- IH. Qed.
Lemma read_print_x w n : 0 <= n -> read_digits 16 (print_x w n) = n.
Proof. intros H. unfold print_x. rewrite read_digits_zeros. eapply read_digits_digits; [lia|apply digit_hex|done]. Qed.
Lemma print_x_digits w n : Forall (fun c => is_hex_digit c = true) (print_x w n).
Proof.
  unfold print_x. apply Forall_app; split; [by apply Forall_replicate|]. apply digits_ok; [lia|]. apply digit_hex.
Qed.
Lemma print_x_length w n : (0 < w)%nat -> 0 <= n < 16 ^ Z.of_nat w -> length (print_x w n) = w.
Proof.
  intros Hw Hn. unfold print_x. rewrite length_app, length_replicate. pose proof (digits_length 16 ltac:(lia) n w Hn Hw). lia.
Qed.

Lemma take_while_all p l : Forall (fun c => p c = true) l -> take_while p l = l.
Proof. induction 1 as [|c l Hc _ IH]; cbn; [done|]. by rewrite Hc, IH. Qed.
Lemma scan_digits l : l <> [] -> Forall (fun c => is_hex_digit c = true) l -> scan_x l = Some (u32 (read_digits 16 l)).
Proof.
  intros Hne Hl. unfold scan_x. assert (drop_while is_space l = l) as ->.
  { destruct Hl as [|c l Hc _]; [done|]. cbn. replace (is_space c) with false; [done|]. unfold is_hex_digit, is_dec_digit in Hc. unfold is_space. lia. }
  assert (skip_0x l = l) as ->.
  { destruct Hl as [|c l Hc Hl]; [done|]. destruct Hl as [|x l Hx Hl]; [by destruct c as [|[]|]; try done; cbn; repeat case_match|].
    unfold skip_0x. repeat (case_match; try done). subst. unfold is_hex_digit, is_dec_digit in Hx. lia. }
  rewrite take_while_all by done. by destruct l.
Qed.
(** Fields with a separator between them. *)
Lemma fields_inj (p : Z -> bool) sep l1 l2 r1 r2 :
  Forall (fun c => p c = true) l1 -> Forall (fun c => p c = true) l2 -> p sep = false ->
  l1 ++ sep :: r1 = l2 ++ sep :: r2 -> l1 = l2 /\ r1 = r2.
Proof.
  intros H1 H2 Hs. revert l2 H2. induction H1 as [|c l1 Hc _ IH]; intros l2 H2 E; destruct H2 as [|c' l2 Hc' H2].
  - by injection E.
  - injection E as -> _. congruence.
  - injection E as -> _. congruence.
  - injection E as -> E. by destruct (IH l2 H2 E) as [-> ->].
Qed.
