(* ===== verification/Bits.v ===== *)
(** * Bit fields of 32- and 64-bit words

    The four routines of src/src/util/misc.hpp that pack and unpack fields of
    immediate data and of matching keys, at their widths and with their
    assertions. Both widths are proved equal to one mathematical field update
    ([field_set], [field_get]), and the laws are proved of that once. *)
From stdpp Require Import base numbers strings.
From Stdlib Require Import ZArith Lia.
From S2P Require Import Prelude.

(** [x << n] and [x >> n] on an unsigned type of [w] bits; a shift by [w] or
    more, or by a negative count, is undefined. *)
Definition shl_w (w x n : Z) : result Z :=
  if (0 <=? n) && (n <? w) then Ok (Z.shiftl x n mod 2 ^ w)
  else Err (Undefined "shift count out of range").
Definition shr_w (w x n : Z) : result Z :=
  if (0 <=? n) && (n <? w) then Ok (Z.shiftr x n)
  else Err (Undefined "shift count out of range").

Definition set_bits32 (flag val width offset : Z) : result Z :=
  LCI_Assert (0 <=? width) "width >= 0" ;;
  LCI_Assert (width <=? 32) "width <= 32" ;;
  LCI_Assert (0 <=? offset) "offset >= 0" ;;
  LCI_Assert (offset <=? 32) "offset <= 32" ;;
  LCI_Assert (offset + width <=? 32) "offset + width <= 32" ;;
  one ← shl_w 64 1 width ;
  let val_mask := u32 (u64 (one - 1)) in
  flag_mask ← shl_w 32 val_mask offset ;
  LCI_Assert (val <=? val_mask) "val <= val_mask" ;;
  let flag := Z.land flag (u32 (Z.lnot flag_mask)) in
  bits ← shl_w 32 (Z.land val val_mask) offset ;
  Ok (Z.lor flag bits).

Definition get_bits32 (flag width offset : Z) : result Z :=
  LCI_Assert (0 <=? width) "width >= 0" ;;
  LCI_Assert (width <=? 32) "width <= 32" ;;
  LCI_Assert (0 <=? offset) "offset >= 0" ;;
  LCI_Assert (offset <=? 32) "offset <= 32" ;;
  LCI_Assert (offset + width <=? 32) "offset + width <= 32" ;;
  shifted ← shr_w 32 flag offset ;
  one ← shl_w 64 1 width ;
  Ok (u32 (Z.land shifted (u64 (one - 1)))).

Definition set_bits64 (flag val width offset : Z) : result Z :=
  LCI_Assert (0 <=? width) "width >= 0" ;;
  LCI_Assert (width <=? 64) "width <= 64" ;;
  LCI_Assert (0 <=? offset) "offset >= 0" ;;
  LCI_Assert (offset <=? 64) "offset <= 64" ;;
  LCI_Assert (offset + width <=? 64) "offset + width <= 64" ;;
  one ← shl_w 64 1 width ;
  let val_mask := u64 (one - 1) in
  flag_mask ← shl_w 64 val_mask offset ;
  LCI_Assert (val <=? val_mask) "val <= val_mask" ;;
  let flag := Z.land flag (u64 (Z.lnot flag_mask)) in
  bits ← shl_w 64 (Z.land val val_mask) offset ;
  Ok (Z.lor flag bits).

Definition get_bits64 (flag width offset : Z) : result Z :=
  LCI_Assert (0 <=? width) "width >= 0" ;;
  LCI_Assert (width <=? 64) "width <= 64" ;;
  LCI_Assert (0 <=? offset) "offset >= 0" ;;
  LCI_Assert (offset <=? 64) "offset <= 64" ;;
  LCI_Assert (offset + width <=? 64) "offset + width <= 64" ;;
  shifted ← shr_w 64 flag offset ;
  one ← shl_w 64 1 width ;
  Ok (Z.land shifted (u64 (one - 1))).

(** ** The field update the routines compute *)

Definition field_mask (width offset : Z) : Z := Z.shiftl (Z.ones width) offset.
Definition field_set (flag val width offset : Z) : Z :=
  Z.lor (Z.land flag (Z.lnot (field_mask width offset))) (Z.shiftl val offset).
Definition field_get (flag width offset : Z) : Z :=
  Z.land (Z.shiftr flag offset) (Z.ones width).

(** A field that lies inside a word of [w] bits and whose mask the C++ shifts
    can compute. *)
Definition valid_field (w width offset : Z) : Prop :=
  0 <= width < 64 /\ 0 <= offset < w /\ offset + width <= w.

Definition disjoint_fields (w1 o1 w2 o2 : Z) : Prop :=
  o1 + w1 <= o2 \/ o2 + w2 <= o1.

(** ** Laws of the field update *)

Lemma testbit_field_mask width offset n :
  0 <= width -> 0 <= offset -> 0 <= n ->
  Z.testbit (field_mask width offset) n
  = (offset <=? n) && (n <? offset + width).
Proof.
  intros. unfold field_mask. rewrite Z.shiftl_spec, Z.testbit_ones by lia.
  destruct (offset <=? n) eqn:?; destruct (n <? offset + width) eqn:?; lia.
Qed.

Lemma testbit_above val width n :
  0 <= val < 2 ^ width -> width <= n -> Z.testbit val n = false.
Proof.
  intros [H0 Hv] Hn. destruct (decide (val = 0)) as [->|]; [apply Z.bits_0|].
  apply Z.bits_above_log2; [lia|].
  apply Z.log2_lt_pow2; [lia|]. pose proof (Z.pow_le_mono_r 2 width n). lia.
Qed.

Lemma testbit_field_set flag val width offset n :
  0 <= width -> 0 <= offset -> 0 <= n -> 0 <= val < 2 ^ width ->
  Z.testbit (field_set flag val width offset) n
  = if (offset <=? n) && (n <? offset + width)
    then Z.testbit val (n - offset) else Z.testbit flag n.
Proof.
  intros. unfold field_set.
  rewrite Z.lor_spec, Z.land_spec, Z.lnot_spec, testbit_field_mask, Z.shiftl_spec
    by lia.
  destruct (offset <=? n) eqn:?, (n <? offset + width) eqn:?; simpl;
    rewrite ?andb_true_r, ?andb_false_r; try done.
  - rewrite (testbit_above val width) by lia. apply orb_false_r.
  - rewrite (Z.testbit_neg_r val) by lia. apply orb_false_r.
  - rewrite (Z.testbit_neg_r val) by lia. apply orb_false_r.
Qed.

Lemma testbit_field_get flag width offset n :
  0 <= width -> 0 <= offset -> 0 <= n ->
  Z.testbit (field_get flag width offset) n
  = (n <? width) && Z.testbit flag (n + offset).
Proof.
  intros. unfold field_get.
  rewrite Z.land_spec, Z.shiftr_spec, Z.testbit_ones by lia.
  destruct (n <? width) eqn:?; destruct (Z.testbit flag _); lia.
Qed.

Lemma field_get_set_same flag val width offset :
  0 <= width -> 0 <= offset -> 0 <= val < 2 ^ width ->
  field_get (field_set flag val width offset) width offset = val.
Proof.
  intros. apply Z.bits_inj'. intros n Hn.
  rewrite testbit_field_get, testbit_field_set by lia.
  destruct (n <? width) eqn:?; simpl.
  - replace (_ && _) with true by lia. f_equal. lia.
  - symmetry. apply (testbit_above val width); lia.
Qed.

Lemma field_get_set_disjoint flag val width offset width' offset' :
  0 <= width -> 0 <= offset -> 0 <= width' -> 0 <= offset' ->
  0 <= val < 2 ^ width -> disjoint_fields width offset width' offset' ->
  field_get (field_set flag val width offset) width' offset'
  = field_get flag width' offset'.
Proof.
  intros ????? Hd. apply Z.bits_inj'. intros n Hn.
  rewrite !testbit_field_get, testbit_field_set by lia.
  destruct (n <? width') eqn:?; simpl; [|done].
  unfold disjoint_fields in Hd. by replace (_ && _) with false by lia.
Qed.

Lemma field_set_range w flag val width offset :
  0 <= flag < 2 ^ w -> 0 <= val < 2 ^ width -> 0 <= width -> 0 <= offset ->
  offset + width <= w -> 0 <= field_set flag val width offset < 2 ^ w.
Proof.
  intros Hf Hv ???.
  assert (Hpos : 0 <= field_set flag val width offset).
  { unfold field_set. apply Z.lor_nonneg. split.
    - apply Z.land_nonneg. by left; lia.
    - apply Z.shiftl_nonneg. lia. }
  split; [done|].
  replace (field_set flag val width offset)
    with (field_set flag val width offset mod 2 ^ w); [apply Z.mod_pos_bound; lia|].
  apply Z.bits_inj'. intros n Hn.
  destruct (decide (n < w)); [by rewrite Z.mod_pow2_bits_low by lia|].
  rewrite Z.mod_pow2_bits_high, testbit_field_set by lia.
  replace (_ && _) with false by lia. symmetry. apply (testbit_above flag w); lia.
Qed.

Lemma field_get_range flag width offset :
  0 <= width -> 0 <= field_get flag width offset < 2 ^ width.
Proof.
  intros. unfold field_get. rewrite Z.land_ones by lia.
  apply Z.mod_pos_bound. lia.
Qed.

(** ** The routines compute it *)

Lemma mask_of_width width :
  0 <= width < 64 -> u64 (Z.shiftl 1 width mod 2 ^ 64 - 1) = Z.ones width.
Proof.
  intros. unfold u64. rewrite Z.ones_equiv, Z.shiftl_1_l.
  pose proof (Z.pow_lt_mono_r 2 width 64). pose proof (Z.pow_pos_nonneg 2 width).
  rewrite (Z.mod_small (2 ^ width)) by lia. rewrite Z.mod_small; lia.
Qed.

Lemma ones_bound width w : 0 <= width <= w -> 0 <= Z.ones width < 2 ^ w.
Proof.
  intros. rewrite Z.ones_equiv. pose proof (Z.pow_le_mono_r 2 width w).
  pose proof (Z.pow_pos_nonneg 2 width). lia.
Qed.

Lemma shiftl_bound w val width offset :
  0 <= val < 2 ^ width -> 0 <= width -> 0 <= offset -> offset + width <= w ->
  0 <= Z.shiftl val offset < 2 ^ w.
Proof.
  intros. rewrite Z.shiftl_mul_pow2 by lia.
  pose proof (Z.pow_le_mono_r 2 (offset + width) w).
  rewrite Z.pow_add_r in * by lia. pose proof (Z.pow_pos_nonneg 2 offset). nia.
Qed.

Lemma land_word w flag m :
  0 <= w -> 0 <= flag < 2 ^ w -> Z.land flag (Z.lnot m mod 2 ^ w) = Z.land flag (Z.lnot m).
Proof.
  intros. apply Z.bits_inj'. intros n Hn. rewrite !Z.land_spec.
  destruct (decide (n < w)); [by rewrite Z.mod_pow2_bits_low by lia|].
  by rewrite (testbit_above flag w) by lia.
Qed.

Lemma land_val_mask val width :
  0 <= width -> 0 <= val < 2 ^ width -> Z.land val (Z.ones width) = val.
Proof. intros. rewrite Z.land_ones by lia. apply Z.mod_small. lia. Qed.

Lemma val_le_mask val width c :
  0 <= val < 2 ^ width -> LCI_Assert (val <=? Z.ones width) c = Ok tt.
Proof.
  intros. apply LCI_Assert_true, Z.leb_le. rewrite Z.ones_equiv. lia.
Qed.

Ltac ok_guard :=
  match goal with
  | |- context [LCI_Assert ?b _] => rewrite (LCI_Assert_true b) by lia; simpl
  end.

Lemma set_bits32_field flag val width offset :
  valid_field 32 width offset -> is_u32 flag -> 0 <= val < 2 ^ width ->
  set_bits32 flag val width offset = Ok (field_set flag val width offset).
Proof.
  intros (?&?&?) Hf Hv. unfold set_bits32, shl_w. do 5 ok_guard.
  replace ((0 <=? width) && (width <? 64)) with true by lia. simpl.
  replace ((0 <=? offset) && (offset <? 32)) with true by lia. simpl.
  pose proof (ones_bound width 32).
  rewrite mask_of_width, (u32_id (Z.ones width)) by (unfold is_u32; lia).
  rewrite val_le_mask by lia. simpl.
  rewrite land_val_mask by lia.
  pose proof (shiftl_bound 32 (Z.ones width) width offset).
  pose proof (ones_bound width width).
  pose proof (shiftl_bound 32 val width offset).
  rewrite !(Z.mod_small (Z.shiftl _ _)) by lia.
  unfold u32. rewrite land_word by (unfold is_u32 in *; lia). done.
Qed.

Lemma set_bits64_field flag val width offset :
  valid_field 64 width offset -> is_u64 flag -> 0 <= val < 2 ^ width ->
  set_bits64 flag val width offset = Ok (field_set flag val width offset).
Proof.
  intros (?&?&?) Hf Hv. unfold set_bits64, shl_w. do 5 ok_guard.
  replace ((0 <=? width) && (width <? 64)) with true by lia. simpl.
  replace ((0 <=? offset) && (offset <? 64)) with true by lia. simpl.
  rewrite mask_of_width by lia.
  rewrite val_le_mask by lia. simpl.
  rewrite land_val_mask by lia.
  pose proof (shiftl_bound 64 (Z.ones width) width offset).
  pose proof (ones_bound width width).
  pose proof (shiftl_bound 64 val width offset).
  rewrite !(Z.mod_small (Z.shiftl _ _)) by lia.
  unfold u64. rewrite land_word by (unfold is_u64 in *; lia). done.
Qed.

Lemma get_bits32_field flag width offset :
  valid_field 32 width offset ->
  get_bits32 flag width offset = Ok (field_get flag width offset).
Proof.
  intros (?&?&?). unfold get_bits32, shl_w, shr_w. do 5 ok_guard.
  replace ((0 <=? offset) && (offset <? 32)) with true by lia. simpl.
  replace ((0 <=? width) && (width <? 64)) with true by lia. simpl.
  rewrite mask_of_width by lia. f_equal. apply u32_id.
  pose proof (field_get_range flag width offset).
  pose proof (Z.pow_le_mono_r 2 width 32). unfold is_u32, field_get in *. lia.
Qed.

Lemma get_bits64_field flag width offset :
  valid_field 64 width offset ->
  get_bits64 flag width offset = Ok (field_get flag width offset).
Proof.
  intros (?&?&?). unfold get_bits64, shl_w, shr_w. do 5 ok_guard.
  replace ((0 <=? offset) && (offset <? 64)) with true by lia. simpl.
  replace ((0 <=? width) && (width <? 64)) with true by lia. simpl.
  by rewrite mask_of_width by lia.
Qed.

(** A one-bit flag and the two fields of the fast-path immediate data. *)
Example fast_path_bits :
  (f1 ← set_bits32 0 1 1 31; f2 ← set_bits32 f1 7 16 0; set_bits32 f2 5 15 16)
  = Ok 2147811335.
Proof. vm_compute. reflexivity. Qed.

(** ** Round trip and non-interference *)

(** On a 32-bit word, [set_bits32] of a value that fits its field succeeds,
    stays a 32-bit word, reads back as that value through [get_bits32], and
    leaves every disjoint field as it was. *)
Theorem set_get_bits32 flag val width offset :
  valid_field 32 width offset -> is_u32 flag -> 0 <= val < 2 ^ width ->
  exists flag', set_bits32 flag val width offset = Ok flag'
    /\ is_u32 flag'
    /\ get_bits32 flag' width offset = Ok val
    /\ forall width' offset', valid_field 32 width' offset' ->
         disjoint_fields width offset width' offset' ->
         get_bits32 flag' width' offset' = get_bits32 flag width' offset'.
Proof.
  intros Hvf Hf Hv. exists (field_set flag val width offset).
  pose proof Hvf as (?&?&?). split_and!.
  - by apply set_bits32_field.
  - apply field_set_range; unfold is_u32 in *; lia.
  - rewrite get_bits32_field, field_get_set_same by (done || lia). done.
  - intros w' o' Hvf' Hd. pose proof Hvf' as (?&?&?).
    rewrite !get_bits32_field, field_get_set_disjoint by (done || lia). done.
Qed.

Lemma set_get_bits32_witness :
  exists flag', set_bits32 5 9 4 16 = Ok flag'
    /\ is_u32 flag'
    /\ get_bits32 flag' 4 16 = Ok 9
    /\ forall width' offset', valid_field 32 width' offset' ->
         disjoint_fields 4 16 width' offset' ->
         get_bits32 flag' width' offset' = get_bits32 5 width' offset'.
Proof.
  apply (set_get_bits32 5 9 4 16); unfold valid_field, is_u32; lia.
Defined.

(** The same for the 64-bit routines, for every field narrower than the
    whole word. *)
Theorem set_get_bits64 flag val width offset :
  valid_field 64 width offset -> is_u64 flag -> 0 <= val < 2 ^ width ->
  exists flag', set_bits64 flag val width offset = Ok flag'
    /\ is_u64 flag'
    /\ get_bits64 flag' width offset = Ok val
    /\ forall width' offset', valid_field 64 width' offset' ->
         disjoint_fields width offset width' offset' ->
         get_bits64 flag' width' offset' = get_bits64 flag width' offset'.
Proof.
  intros Hvf Hf Hv. exists (field_set flag val width offset).
  pose proof Hvf as (?&?&?). split_and!.
  - by apply set_bits64_field.
  - apply field_set_range; unfold is_u64 in *; lia.
  - rewrite get_bits64_field, field_get_set_same by (done || lia). done.
  - intros w' o' Hvf' Hd. pose proof Hvf' as (?&?&?).
    rewrite !get_bits64_field, field_get_set_disjoint by (done || lia). done.
Qed.

Lemma set_get_bits64_witness :
  exists flag', set_bits64 5 9 32 32 = Ok flag'
    /\ is_u64 flag'
    /\ get_bits64 flag' 32 32 = Ok 9
    /\ forall width' offset', valid_field 64 width' offset' ->
         disjoint_fields 32 32 width' offset' ->
         get_bits64 flag' width' offset' = get_bits64 5 width' offset'.
Proof.
  apply (set_get_bits64 5 9 32 32); unfold valid_field, is_u64; lia.
Defined.
