(* ===== verification/Status.v ===== *)
(** * Error codes, completion descriptors and the basic types of the API

    The enumerations and structs of src/src/api/lci.hpp that every component
    shares. A pointer is its address in [Z], [nullptr] is [0]. *)
From stdpp Require Import base numbers strings.
From Stdlib Require Import ZArith Lia.
From S2P Require Import Prelude.

Inductive errorcode_t : Type :=
  | ec_done_min | ec_done | ec_done_backlog | ec_done_max
  | ec_posted_min | ec_posted | ec_posted_backlog | ec_posted_max
  | ec_retry_min | ec_retry | ec_retry_init | ec_retry_lock
  | ec_retry_nopacket | ec_retry_nomem | ec_retry_backlog | ec_retry_max
  | ec_fatal.

#[export] Instance errorcode_eq_dec : EqDecision errorcode_t.
Proof. solve_decision. Defined.

(** The value of an enumerator, in declaration order. *)
Definition errorcode_val (e : errorcode_t) : Z :=
  match e with
  | ec_done_min => 0 | ec_done => 1 | ec_done_backlog => 2 | ec_done_max => 3
  | ec_posted_min => 4 | ec_posted => 5 | ec_posted_backlog => 6
  | ec_posted_max => 7 | ec_retry_min => 8 | ec_retry => 9
  | ec_retry_init => 10 | ec_retry_lock => 11 | ec_retry_nopacket => 12
  | ec_retry_nomem => 13 | ec_retry_backlog => 14 | ec_retry_max => 15
  | ec_fatal => 16
  end.

(** [error_t] wraps one error code; its three category tests compare with the
    boundary markers. *)
Definition is_done (e : errorcode_t) : bool :=
  (errorcode_val ec_done_min <? errorcode_val e)
  && (errorcode_val e <? errorcode_val ec_done_max).
Definition is_posted (e : errorcode_t) : bool :=
  (errorcode_val ec_posted_min <? errorcode_val e)
  && (errorcode_val e <? errorcode_val ec_posted_max).
Definition is_retry (e : errorcode_t) : bool :=
  (errorcode_val ec_retry_min <? errorcode_val e)
  && (errorcode_val e <? errorcode_val ec_retry_max).

(** The codes that are not boundary markers. *)
Definition is_marker (e : errorcode_t) : bool :=
  match e with
  | ec_done_min | ec_done_max | ec_posted_min | ec_posted_max
  | ec_retry_min | ec_retry_max => true
  | _ => false
  end.

(** A reported code is in exactly one category. *)
Lemma category_exclusive e :
  (is_done e = true -> is_posted e = false /\ is_retry e = false)
  /\ (is_posted e = true -> is_done e = false /\ is_retry e = false)
  /\ (is_retry e = true -> is_done e = false /\ is_posted e = false).
Proof. destruct e; vm_compute; naive_solver. Qed.

Lemma category_total e :
  is_done e || is_posted e || is_retry e
  = negb (is_marker e || bool_decide (e = ec_fatal)).
Proof. destruct e; vm_compute; reflexivity. Qed.

(** Special values of [mr_t] and [comp_t] (the address of the implementation)
    and of ranks and tags. *)
Definition MR_HOST : Z := 0.
Definition MR_DEVICE : Z := 1.
Definition MR_UNKNOWN : Z := 2.
Definition mr_is_empty (mr : Z) : bool := mr <? 3.

Definition COMP_NULL : Z := 0.
Definition COMP_NULL_RETRY : Z := 1.
Definition comp_is_empty (comp : Z) : bool := comp <=? 1.

Definition ANY_SOURCE : Z := -1.
Definition ANY_TAG : Z := u64 (-1).

Record rmr_t : Type := mk_rmr { rmr_base : Z; rmr_mr_base : Z; rmr_opaque_rkey : Z }.
Definition RMR_NULL : rmr_t := mk_rmr 0 0 0.
Definition rmr_is_empty (r : rmr_t) : bool :=
  (rmr_base r =? 0) && (rmr_mr_base r =? 0) && (rmr_opaque_rkey r =? 0).

#[export] Instance rmr_eq_dec : EqDecision rmr_t.
Proof. solve_decision. Defined.

Inductive direction_t : Type := OUT | IN.
Inductive comp_semantic_t : Type := sem_memory | sem_network.
#[export] Instance direction_eq_dec : EqDecision direction_t.
Proof. solve_decision. Defined.
#[export] Instance comp_semantic_eq_dec : EqDecision comp_semantic_t.
Proof. solve_decision. Defined.

(** The completion descriptor of a posted communication. *)
Record status_t : Type := mk_status {
  st_error : errorcode_t;
  st_rank : Z;
  st_buffer : Z;
  st_size : Z;
  st_tag : Z;
  st_user_context : Z
}.
Definition status_init : status_t := mk_status ec_retry_init (-1) 0 0 0 0.
Definition st_with_error (e : errorcode_t) (s : status_t) : status_t :=
  mk_status e (st_rank s) (st_buffer s) (st_size s) (st_tag s) (st_user_context s).
Definition set_done : status_t -> status_t := st_with_error ec_done.
Definition set_posted : status_t -> status_t := st_with_error ec_posted.
Definition set_retry : status_t -> status_t := st_with_error ec_retry.

#[export] Instance status_eq_dec : EqDecision status_t.
Proof. solve_decision. Defined.

(** What the backend reports of a finished network operation. *)
Inductive net_opcode_t : Type :=
  | op_SEND | op_RECV | op_WRITE | op_REMOTE_WRITE | op_READ | op_ERROR.
#[export] Instance net_opcode_eq_dec : EqDecision net_opcode_t.
Proof. solve_decision. Defined.

Record net_status_t : Type := mk_net_status {
  ns_opcode : net_opcode_t;
  ns_rank : Z;
  ns_user_context : Z;
  ns_length : Z;
  ns_imm_data : Z
}.
