(* ===== verification/MpmcArray.v ===== *)
(** * The growable array (src/src/data_structure/mpmc_array.hpp)

    [mpmc_array_t<T>] is a vector whose writers hold a spinlock and whose
    readers hold nothing. The first part models the operations one at a time
    ([put], [get], [resize_nolock]) and relates them to a total map of indices.
    The second part, [Module Concurrent], splits [put] and [get] at their
    atomic accesses and interleaves them: arrays that were replaced stay in
    the store, a reader may still hold one of them. Indices are [nat]: every
    access is below the length of an allocated array. *)
From stdpp Require Import base numbers list strings.
From Stdlib Require Import ZArith Lia.
From S2P Require Import Prelude.

Local Open Scope nat_scope.

Section Array.
Context {T : Type}.
(** [entry_t()] and an entry whose bytes are all zero. *)
Variables (dflt zeroed : T).

Record mpmc_array_t : Type := mk_array {
  ptr : list T;
  old_ptrs : list (list T)
}.

(** The constructor. *)
Definition mpmc_array_new (default_length : nat) : mpmc_array_t :=
  mk_array (replicate default_length zeroed) [].

Definition get_size (a : mpmc_array_t) : nat := length (ptr a).

Definition resize_nolock (new_length : nat) (a : mpmc_array_t) : result mpmc_array_t :=
  LCI_Assert (get_size a <? new_length) "new_length > length" ;;
  let new_ptr := ptr a ++ replicate (new_length - get_size a) dflt in
  Ok (mk_array new_ptr (old_ptrs a ++ [ptr a])).

Definition put (idx : nat) (val : T) (a : mpmc_array_t) : result mpmc_array_t :=
  a ← (if get_size a <=? idx then resize_nolock ((idx + 1) * 2) a else Ok a) ;
  Ok (mk_array (<[idx := val]> (ptr a)) (old_ptrs a)).

Definition get (idx : nat) (a : mpmc_array_t) : T :=
  if get_size a <=? idx then dflt
  else default dflt (ptr a !! idx).

(** ** Functional behaviour *)

Lemma get_lookup idx a : get idx a = default dflt (ptr a !! idx).
Proof.
  unfold get, get_size. destruct (Nat.leb_spec (length (ptr a)) idx) as [H|H]; [|done].
  by rewrite (lookup_ge_None_2 _ _ H).
Qed.

Lemma put_ok idx val a :
  exists a', put idx val a = Ok a' /\ idx < get_size a'
    /\ get_size a <= get_size a'
    /\ forall i, get i a' = if decide (i = idx) then val else get i a.
Proof.
  unfold put, resize_nolock, get_size at 1 2 3.
  destruct (Nat.leb_spec (length (ptr a)) idx) as [Hle|Hlt].
  - rewrite LCI_Assert_true by (apply Nat.ltb_lt; lia). eexists. split; [done|].
    unfold get_size; simpl. rewrite length_insert, length_app, length_replicate.
    split_and!; [lia..|]. intros i. rewrite !get_lookup. simpl.
    destruct (decide (i = idx)) as [->|].
    + rewrite list_lookup_insert_eq; [done|]. rewrite length_app, length_replicate. lia.
    + rewrite list_lookup_insert_ne by done.
      destruct (decide (i < length (ptr a))).
      * by rewrite lookup_app_l.
      * rewrite lookup_app_r by lia. rewrite (lookup_ge_None_2 (ptr a)) by lia.
        simpl. destruct (replicate _ _ !! _) eqn:E; [|done].
        apply lookup_replicate in E. naive_solver.
  - eexists. split; [done|]. unfold get_size; simpl. rewrite length_insert.
    split_and!; [lia..|]. intros i. rewrite !get_lookup. simpl.
    destruct (decide (i = idx)) as [->|].
    + by rewrite list_lookup_insert_eq.
    + by rewrite list_lookup_insert_ne.
Qed.

Lemma get_new n i : zeroed = dflt -> get i (mpmc_array_new n) = dflt.
Proof.
  intros Hz. rewrite get_lookup. simpl.
  destruct (_ !! _) eqn:E; [|done]. apply lookup_replicate in E. naive_solver.
Qed.
End Array.
Arguments mpmc_array_t T : clear implicits.

(** ** Readers without a lock

    One reader of a fixed index [k] runs against any number of writers. The
    steps are the memory accesses of the code: a writer locks, may allocate a
    longer copy, publishes [ptr], publishes [length], stores the words of the
    element in any order and unlocks; the reader loads [length], loads [ptr] and
    copies the words of the element in any order. No step removes an array from
    the store, as the code keeps replaced arrays in [old_ptrs]. [seen] is a ghost:
    every content that the element had since the read started. *)
Module Concurrent.
Section Concurrent.
Context {W : Type}.
(** An element is a list of words, as many as [entry_t()] has. *)
Variables (dflt zeroed : list W) (k : nat).
#[local] Abbreviation T := (list W).
#[local] Abbreviation width := (length dflt).
Hypothesis Hzeroed : length zeroed = width.

(** [todo] are the words that are not stored yet. *)
Inductive writer : Type :=
  | WIdle
  | WLocked (idx : nat) (val : T)
  | WAlloc (idx : nat) (val : T) (new_ptr : nat)
  | WPtr (idx : nat) (val : T)
  | WReady (idx : nat) (val : T)
  | WStore (idx : nat) (val : T) (todo : list nat).

Inductive reader : Type :=
  | RIdle
  | RStart
  | RLen
  | RCopy (p : nat) (copied : list (option W))
  | RDone (v : T).

Record cstate : Type := mk_cstate {
  arrays : list (list T);
  cur : nat;
  len : nat;
  wr : writer;
  rd : reader;
  seen : list T
}.

Definition array_at (s : cstate) (p : nat) : list T := default [] (arrays s !! p).
Definition current (s : cstate) : list T := array_at s (cur s).

(** The value a lock-holding reader of index [i] would get. *)
Definition value (s : cstate) (i : nat) : T := default dflt (current s !! i).

Definition observe (s : cstate) : cstate :=
  mk_cstate (arrays s) (cur s) (len s) (wr s) (rd s) (value s k :: seen s).

Definition set_wr (w : writer) (s : cstate) : cstate :=
  mk_cstate (arrays s) (cur s) (len s) w (rd s) (seen s).
Definition set_rd (r : reader) (s : cstate) : cstate :=
  mk_cstate (arrays s) (cur s) (len s) (wr s) r (seen s).
Definition set_word (idx j : nat) (x : W) (s : cstate) : list (list T) :=
  <[cur s := alter (fun e => <[j := x]> e) idx (current s)]> (arrays s).

(** The writer's steps, in the order of [put] and [resize_nolock]. *)
Inductive wstep : cstate -> cstate -> Prop :=
  | w_lock s idx val :
      wr s = WIdle -> length val = width -> wstep s (set_wr (WLocked idx val) s)
  | w_fits s idx val :
      wr s = WLocked idx val -> idx < len s -> wstep s (set_wr (WReady idx val) s)
  | w_alloc s idx val :
      wr s = WLocked idx val -> len s <= idx ->
      wstep s (mk_cstate
        (arrays s ++ [take (len s) (current s)
                      ++ replicate ((idx + 1) * 2 - len s) dflt])
        (cur s) (len s) (WAlloc idx val (length (arrays s))) (rd s) (seen s))
  | w_publish_ptr s idx val new_ptr :
      wr s = WAlloc idx val new_ptr ->
      wstep s (mk_cstate (arrays s) new_ptr (len s) (WPtr idx val) (rd s) (seen s))
  | w_publish_len s idx val :
      wr s = WPtr idx val ->
      wstep s (mk_cstate (arrays s) (cur s) ((idx + 1) * 2) (WReady idx val)
                         (rd s) (seen s))
  | w_assign s idx val :
      wr s = WReady idx val -> wstep s (set_wr (WStore idx val (seq 0 width)) s)
  | w_word s idx val l1 j l2 x :
      wr s = WStore idx val (l1 ++ j :: l2) -> val !! j = Some x ->
      wstep s (mk_cstate (set_word idx j x s) (cur s) (len s) (WStore idx val (l1 ++ l2))
                         (rd s) (seen s))
  | w_unlock s idx val :
      wr s = WStore idx val [] -> wstep s (set_wr WIdle s).

(** The reader's steps, in the order of [get]. *)
Inductive rstep : cstate -> cstate -> Prop :=
  | r_begin s :
      rd s = RIdle ->
      rstep s (mk_cstate (arrays s) (cur s) (len s) (wr s) RStart [])
  | r_len_out s :
      rd s = RStart -> len s <= k -> rstep s (set_rd (RDone dflt) s)
  | r_len_in s :
      rd s = RStart -> k < len s -> rstep s (set_rd RLen s)
  | r_ptr s :
      rd s = RLen -> rstep s (set_rd (RCopy (cur s) (replicate width None)) s)
  | r_word s p copied j e x :
      rd s = RCopy p copied -> copied !! j = Some None -> array_at s p !! k = Some e -> e !! j = Some x ->
      rstep s (set_rd (RCopy p (<[j := Some x]> copied)) s)
  | r_copied s p v :
      rd s = RCopy p (Some <$> v) -> rstep s (set_rd (RDone v) s)
  | r_end s v :
      rd s = RDone v -> rstep s (set_rd RIdle s).

Inductive reachable (n : nat) : cstate -> Prop :=
  | reach_init : reachable n (mk_cstate [replicate n zeroed] 0 n WIdle RIdle [])
  | reach_wstep s s' : reachable n s -> wstep s s' -> reachable n (observe s')
  | reach_rstep s s' : reachable n s -> rstep s s' -> reachable n (observe s').

(** Between operations the published length is that of the current array; a
    writer that grows the array has published the array before the length. *)
Definition writer_inv (s : cstate) : Prop :=
  match wr s with
  | WIdle | WLocked _ _ => length (current s) = len s
  | WReady idx _ | WStore idx _ _ => length (current s) = len s /\ idx < len s
  | WAlloc idx _ p =>
      length (current s) = len s /\ len s <= idx
      /\ p < length (arrays s)
      /\ array_at s p = current s ++ replicate ((idx + 1) * 2 - len s) dflt
  | WPtr idx _ => length (current s) = (idx + 1) * 2 /\ len s <= idx
  end.

(** A word that the element had at this place during the read. *)
Definition word_seen (s : cstate) (j : nat) (x : W) : Prop := exists t, t ∈ seen s /\ t !! j = Some x.
Definition reader_inv (s : cstate) : Prop :=
  match rd s with
  | RIdle | RStart => True
  | RLen => k < len s
  | RCopy p copied =>
      p < length (arrays s) /\ (exists e, array_at s p !! k = Some e /\ e ∈ seen s)
      /\ length copied = width /\ forall j x, copied !! j = Some (Some x) -> word_seen s j x
  | RDone v => length v = width /\ forall j x, v !! j = Some x -> word_seen s j x
  end.

Record inv (s : cstate) : Prop := mk_inv {
  inv_cur : cur s < length (arrays s);
  inv_wr : writer_inv s;
  inv_tail : forall i, len s <= i -> value s i = dflt;
  inv_width : Forall (Forall (fun e => length e = width)) (arrays s);
  inv_seen_width : Forall (fun e => length e = width) (seen s);
  inv_seen : rd s <> RIdle -> value s k ∈ seen s;
  inv_rd : reader_inv s
}.

Lemma inv_len_le s : inv s -> len s <= length (current s).
Proof. intros [_ Hw _ _ _ _ _]. unfold writer_inv in Hw. destruct (wr s); lia. Qed.
Lemma width_at s p i e : Forall (Forall (fun e => length e = width)) (arrays s) -> array_at s p !! i = Some e -> length e = width.
Proof.
  intros Hw He. unfold array_at in He. destruct (arrays s !! p) as [a|] eqn:E; [|done].
  rewrite Forall_forall in Hw. apply list_elem_of_lookup_2, Hw in E. rewrite Forall_forall in E.
  by eapply E, list_elem_of_lookup_2.
Qed.

(** The element is part of what the reader has seen. *)
Lemma seen_width s : Forall (Forall (fun e => length e = width)) (arrays s) -> Forall (fun e => length e = width) (seen s) ->
  Forall (fun e => length e = width) (value s k :: seen s).
Proof.
  intros Ha Hs. constructor; [|done]. unfold value. destruct (current s !! k) as [e|] eqn:E; [|done]. cbn. by eapply (width_at s (cur s)).
Qed.

Lemma array_at_app s s' p l :
  arrays s' = arrays s ++ l -> p < length (arrays s) -> array_at s' p = array_at s p.
Proof. intros E Hp. unfold array_at. by rewrite E, lookup_app_l. Qed.

Lemma lookup_app_replicate (l : list T) m i :
  default dflt ((l ++ replicate m dflt) !! i) = default dflt (l !! i).
Proof.
  destruct (decide (i < length l)); [by rewrite lookup_app_l|].
  rewrite lookup_app_r, (lookup_ge_None_2 l) by lia.
  destruct (replicate _ _ !! _) eqn:E; [|done]. apply lookup_replicate in E. naive_solver.
Qed.
Lemma word_seen_cons s s' v j x : seen s' = v :: seen s -> word_seen s j x -> word_seen s' j x.
Proof. intros E (t & Ht & Hx). exists t. rewrite E. split; [by right|done]. Qed.

(** A writer's step other than the store leaves every published array alone,
    so it cannot disturb a reader. *)
Lemma reader_inv_frame s s' :
  reader_inv s -> rd s' = rd s -> len s <= len s' ->
  (exists l, arrays s' = arrays s ++ l) -> reader_inv (mk_cstate (arrays s') (cur s')
    (len s') (wr s') (rd s') (value s' k :: seen s)).
Proof.
  intros Hr Er Hl [l El]. unfold reader_inv in *; simpl. rewrite Er.
  destruct (rd s) as [| | |p copied|v]; try done; [lia| |].
  - destruct Hr as (Hp & (e & He & Hs) & Hlen & Hc). rewrite El, length_app. split_and!; [lia| |done|].
    + exists e. split; [|by right]. rewrite <-He. f_equal. by apply (array_at_app s _ p l).
    + intros j x Hj. by eapply word_seen_cons, Hc.
  - destruct Hr as [Hlen Hc]. split; [done|]. intros j x Hj. by eapply word_seen_cons, Hc.
Qed.

Lemma set_word_current s w' idx j x : cur s < length (arrays s) ->
  array_at (mk_cstate (set_word idx j x s) (cur s) (len s) w' (rd s) (seen s)) (cur s) = alter (fun e => <[j := x]> e) idx (current s).
Proof. intros H. unfold array_at, set_word; simpl. by rewrite list_lookup_insert_eq. Qed.

Lemma reader_inv_store s w' idx j x :
  inv s -> idx < length (current s) ->
  let s' := mk_cstate (set_word idx j x s) (cur s) (len s) w' (rd s) (seen s) in
  reader_inv (observe s').
Proof.
  intros [Hc Hw Ht _ _ _ Hr] Hi s'. unfold reader_inv in *; simpl.
  destruct (rd s) as [| | |p copied|v]; try done.
  - destruct Hr as (Hp & (e & He & Hs) & Hlen & Hcp). unfold set_word at 1. rewrite length_insert. split_and!; [done| |done|].
    2: { intros i y Hy. by eapply word_seen_cons, Hcp. }
    destruct (decide (p = cur s)) as [->|Hne].
    + assert (Hcur : array_at (observe s') (cur s) = alter (fun e => <[j := x]> e) idx (current s)) by (by apply (set_word_current s w')).
      rewrite Hcur. fold (current s) in He.
      assert (exists e', alter (fun e => <[j := x]> e) idx (current s) !! k = Some e') as [e' He'].
      { apply lookup_lt_is_Some_2. rewrite length_alter. by eapply lookup_lt_Some. }
      assert (value s' k = e') as <-.
      { unfold value, current. change (array_at s' (cur s')) with (array_at (observe s') (cur s)).
        by rewrite Hcur, He'. }
      eexists. split; [done|]. by left.
    + exists e. split; [|by right]. rewrite <-He. f_equal. unfold array_at, observe, s', set_word. cbn [arrays].
      by rewrite list_lookup_insert_ne.
  - destruct Hr as [Hlen Hcp]. split; [done|]. intros i y Hy. by eapply word_seen_cons, Hcp.
Qed.

Lemma arrays_same s s' :
  arrays s' = arrays s -> exists l, arrays s' = arrays s ++ l.
Proof. intros ->. exists []. by rewrite app_nil_r. Qed.
(** A writer's step that only moves the writer. *)
Lemma wstep_moves s w' : inv s -> writer_inv (set_wr w' s) -> inv (observe (set_wr w' s)).
Proof.
  intros [Hc Hw Ht Hwd Hsw _ Hr] Hw'. split; simpl; [done|done|done|done|by apply (seen_width (set_wr w' s))|by left|].
  apply (reader_inv_frame s (set_wr _ s)); eauto using arrays_same.
Qed.

Lemma wstep_inv s s' : inv s -> wstep s s' -> inv (observe s').
Proof.
  intros Hinv Hstep. pose proof Hinv as [Hc Hw Ht Hwd Hsw _ Hr].
  unfold writer_inv in Hw. destruct Hstep as [s idx val E|s idx val E Hi|s idx val E Hi
    |s idx val p E|s idx val E|s idx val E|s idx val l1 j l2 x E Hx|s idx val E]; rewrite E in Hw.
  - by apply wstep_moves.
  - by apply wstep_moves.
  - set (s' := mk_cstate _ _ _ _ _ _).
    assert (Hcur : current s' = current s) by (by eapply (array_at_app s s')).
    assert (Hwd' : Forall (Forall (fun e => length e = width)) (arrays s')).
    { simpl. rewrite Forall_app, Forall_singleton, Forall_app. split_and!; [done| |by apply Forall_replicate].
      apply Forall_take, Forall_forall. intros e [i Hi']%list_elem_of_lookup. by eapply (width_at s (cur s)). }
    split; simpl.
    + rewrite length_app. lia.
    + unfold writer_inv; simpl. change (current (observe s')) with (current s').
      rewrite Hcur, length_app; simpl. split_and!; [done|done|lia|].
      unfold array_at; simpl. rewrite lookup_app_r, Nat.sub_diag by lia. simpl.
      by rewrite <-Hw, take_ge by lia.
    + intros i Hi'. unfold value. change (current (observe s')) with (current s').
      rewrite Hcur. by apply Ht.
    + exact Hwd'.
    + by apply (seen_width s').
    + by left.
    + apply (reader_inv_frame s s'); simpl; eauto.
  - destruct Hw as (Hl & Hi & Hp & Ha).
    set (s' := mk_cstate _ _ _ _ _ _). change (array_at s p) with (current s') in Ha.
    assert (Hv : forall i, value s' i = value s i).
    { intros i. unfold value. rewrite Ha. apply lookup_app_replicate. }
    split; simpl; [done| | |done|by apply (seen_width s')|by left|].
    + split; [|done]. change (current (observe s')) with (current s').
      rewrite Ha, length_app, length_replicate. lia.
    + intros i ?. change (value (observe s') i) with (value s' i). rewrite Hv. by apply Ht.
    + apply (reader_inv_frame s s'); eauto using arrays_same.
  - destruct Hw as [Hl Hi]. set (s' := mk_cstate _ _ _ _ _ _). split; simpl; [done| | |done|by apply (seen_width s')|by left|].
    + split; [done|]. simpl. lia.
    + intros i ?. apply Ht. simpl. lia.
    + apply (reader_inv_frame s s'); simpl; eauto using arrays_same.
      lia.
  - by apply wstep_moves.
  - destruct Hw as [Hl Hi]. set (s' := mk_cstate _ _ _ _ _ _).
    assert (Hcur : current s' = alter (fun e => <[j := x]> e) idx (current s)) by (by apply (set_word_current s (WStore idx val (l1 ++ l2)))).
    assert (Hwd' : Forall (Forall (fun e => length e = width)) (arrays s')).
    { apply Forall_insert; [done|]. apply Forall_forall. intros e [i Hi']%list_elem_of_lookup.
      rewrite list_lookup_alter in Hi'. destruct (decide (idx = i)).
      - apply fmap_Some in Hi' as (e1 & He1 & ->). rewrite length_insert. by eapply (width_at s (cur s)).
      - by eapply (width_at s (cur s)). }
    split; simpl; [unfold set_word; by rewrite length_insert| | |exact Hwd'|by apply (seen_width s')|by left|].
    + unfold writer_inv; simpl. change (current (observe s')) with (current s').
      by rewrite Hcur, length_alter.
    + intros i Hi'. unfold value. change (current (observe s')) with (current s').
      rewrite Hcur, list_lookup_alter_ne by lia. by apply Ht.
    + apply reader_inv_store; [done|lia].
  - apply wstep_moves; [done|]. apply Hw.
Qed.

Lemma rstep_inv s s' : inv s -> rstep s s' -> inv (observe s').
Proof.
  intros Hinv Hstep. pose proof (inv_len_le s Hinv) as Hlen.
  pose proof Hinv as [Hc Hw Ht Hwd Hsw Hs Hr]. unfold reader_inv in Hr.
  destruct Hstep as [s E|s E Hk|s E Hk|s E|s p copied j e x E Hj He Hx|s p v E|s v E]; rewrite E in Hr;
    (split; simpl; [done|done|done|done|first [by apply (seen_width s)|by apply (seen_width (mk_cstate (arrays s) (cur s) (len s) (wr s) RStart []))]|by left|]); unfold reader_inv; simpl; try done.
  - split; [done|]. intros j x Hj. exists dflt. split; [|done]. right. rewrite <-(Ht k Hk). apply Hs. by rewrite E.
  - split_and!; [done| |by rewrite length_replicate|intros j x Hj; by apply lookup_replicate in Hj as [[=] _]].
    destruct (lookup_lt_is_Some_2 (current s) k) as [e He]; [lia|].
    exists e. split; [done|]. right.
    assert (e = value s k) as -> by (unfold value; by rewrite He).
    apply Hs. by rewrite E.
  - destruct Hr as (Hp & (e' & He' & Hs') & Hlc & Hcp). change (array_at s p !! k = Some e') in He'. simplify_eq.
    rewrite length_insert. split_and!; [done|exists e; split; [done|by right]|done|].
    intros i y Hy. apply list_lookup_insert_Some in Hy as [(<- & [= ->] & _)|[_ Hy]].
    + exists e. split; [by right|done].
    + by eapply word_seen_cons, Hcp.
  - destruct Hr as (_ & _ & Hlc & Hcp). rewrite length_fmap in Hlc. split; [done|]. intros j x Hj.
    eapply word_seen_cons; [done|]. apply Hcp. by rewrite list_lookup_fmap, Hj.
Qed.

Lemma array_reachable_inv n s : reachable n s -> inv s.
Proof.
  induction 1; eauto using wstep_inv, rstep_inv.
  split; simpl; try done; [lia| | |].
  - unfold writer_inv, current, array_at; simpl. apply length_replicate.
  - intros i Hi. unfold value, current, array_at; simpl.
    by rewrite lookup_ge_None_2 by (by rewrite length_replicate).
  - apply Forall_singleton, Forall_replicate. done.
Qed.
Lemma all_copied (copied : list (option W)) : (forall j, copied !! j <> Some None) -> exists v, copied = Some <$> v.
Proof.
  induction copied as [|[x|] copied IH]; intros H; [by exists []| |by destruct (H 0)].
  destruct IH as [v ->]; [intros j; apply (H (S j))|]. by exists (x :: v).
Qed.

(** C27: a reader that takes no lock is safe against concurrent growth: it never waits, it
    never indexes outside the array it loaded, even after that array was replaced, and
    each word that it returns is one that the element at the index had at that place
    during the read. An element of one word is thus a value that the index held during the
    read; the words of a wider element may come from different moments. *)
Theorem lockfree_read n s :
  reachable n s ->
  (exists s', rstep s s')
  /\ (forall p copied, rd s = RCopy p copied -> exists e, array_at s p !! k = Some e /\ length e = width)
  /\ (forall v, rd s = RDone v ->
        length v = width
        /\ (forall j x, v !! j = Some x -> exists t, t ∈ seen s /\ t !! j = Some x)
        /\ (width = 1 -> v ∈ seen s)).
Proof.
  intros H%array_reachable_inv. pose proof H as [_ _ _ Hwd Hsw _ Hr]. unfold reader_inv in Hr. split_and!.
  - destruct (rd s) as [| | |p copied|v] eqn:E; [by eexists; eapply r_begin| |by eexists; eapply r_ptr| |by eexists; eapply r_end].
    + destruct (decide (k < len s)); [by eexists; eapply r_len_in|eexists; eapply r_len_out; [done|lia]].
    + destruct Hr as (_ & (e & He & _) & Hlen & _). destruct (list_find (fun o => o = None) copied) as [[j o]|] eqn:Ef.
      * apply list_find_Some in Ef as (Hj & -> & _). destruct (lookup_lt_is_Some_2 e j) as [x Hx].
        { rewrite (width_at s p k e Hwd He), <- Hlen. by eapply lookup_lt_Some. }
        eexists. by eapply r_word.
      * apply list_find_None in Ef. destruct (all_copied copied) as [v ->].
        { intros j Hj. rewrite Forall_forall in Ef. by eapply Ef; [eapply list_elem_of_lookup_2|]. }
        eexists. by eapply r_copied.
  - intros p copied E. rewrite E in Hr. destruct Hr as (_ & (e & He & _) & _). exists e. split; [done|]. by eapply width_at.
  - intros v E. rewrite E in Hr. destruct Hr as [Hlen Hv]. split_and!; [done|exact Hv|].
    intros H1. destruct v as [|x [|y v]]; simpl in Hlen; [lia| |lia]. destruct (Hv 0 x eq_refl) as (t & Ht & Htx).
    rewrite Forall_forall in Hsw. pose proof (Hsw t Ht) as Hl. destruct t as [|z [|z' t]]; simpl in Hl; [lia| |lia]. by injection Htx as ->.
Qed.
End Concurrent.

(** Extends a run [R] by one step, closing the side conditions. *)
Ltac extend R reach rule :=
  let R' := fresh in
  eassert (R' : reachable _ _ _ _ _);
  [eapply (reach _ _ _ _ _ _ _ R); eapply rule; first [reflexivity | simpl; lia]
  |clear R; rename R' into R].

(** A reader that loaded the first array still reads it after a writer has
    published a longer one. *)
Lemma lockfree_read_witness :
  exists s : cstate, cur s = 1 /\ rd s = RCopy 0 [None]
    /\ exists v, array_at s 0 !! 0 = Some v /\ v = [0%Z].
Proof.
  assert (H : exists s : cstate, reachable [0%Z] [0%Z] 0 1 s /\ cur s = 1 /\ rd s = RCopy 0 [None]
                         /\ arrays s !! 0 = Some [[0%Z]]).
  { pose proof (reach_init [0%Z] [0%Z] 0 1) as R.
    extend R (@reach_rstep) (@r_begin Z). extend R (@reach_rstep) (@r_len_in Z).
    extend R (@reach_rstep) (@r_ptr Z).
    extend R (@reach_wstep) (fun d s => @w_lock Z d s 3 [7%Z]).
    extend R (@reach_wstep) (fun d s => @w_alloc Z d s 3 [7%Z]).
    extend R (@reach_wstep) (fun d s => @w_publish_ptr Z d s 3 [7%Z] 1).
    eexists. split; [exact R|]. by split_and!. }
  destruct H as (s & Hr & Hc & Hp & Ha). exists s. split_and!; [done..|].
  destruct (lockfree_read [0%Z] [0%Z] 0 eq_refl 1 s Hr) as (_ & Hsafe & _).
  destruct (Hsafe 0 [None] Hp) as (v & Hv & _). exists v. split; [done|].
  unfold array_at in Hv. rewrite Ha in Hv. simpl in Hv. by injection Hv.
Defined.

(** An element of two words can be torn: the reader of zeros that become ones gets a zero
    and a one, which the index never held. *)
Lemma torn_read : exists s : cstate, reachable [0; 0]%Z [0; 0]%Z 0 1 s /\ rd s = RDone [0; 1]%Z /\ ~ [0; 1]%Z ∈ seen s.
Proof.
  pose proof (reach_init [0; 0]%Z [0; 0]%Z 0 1) as R.
  extend R (@reach_wstep) (fun d s => @w_lock Z d s 0 [1; 1]%Z).
  extend R (@reach_wstep) (fun d s => @w_fits Z d s 0 [1; 1]%Z).
  extend R (@reach_wstep) (fun d s => @w_assign Z d s 0 [1; 1]%Z).
  extend R (@reach_rstep) (@r_begin Z). extend R (@reach_rstep) (@r_len_in Z).
  extend R (@reach_rstep) (@r_ptr Z).
  extend R (@reach_rstep) (fun d k s => @r_word Z d k s 0 [None; None] 0 [0; 0]%Z 0%Z).
  extend R (@reach_wstep) (fun d s => @w_word Z d s 0 [1; 1]%Z [] 0 [1] 1%Z).
  extend R (@reach_wstep) (fun d s => @w_word Z d s 0 [1; 1]%Z [] 1 [] 1%Z).
  extend R (@reach_rstep) (fun d k s => @r_word Z d k s 0 [Some 0%Z; None] 1 [1; 1]%Z 1%Z).
  extend R (@reach_rstep) (fun d k s => @r_copied Z d k s 0 [0; 1]%Z).
  eexists. split; [exact R|]. split; [done|]. refine (bool_decide_unpack _ _). vm_compute. exact I.
Qed.
End Concurrent.
