(* ===== verification/RhandlerRegistry.v ===== *)
(** * The registry of remote handlers
    (src/src/rhandler_registry/rhandler_registry.hpp)

    A remote handler names a completion object or a matching engine of this
    process to its peers. Handlers start at 1; the registry keeps the entries
    in an [mpmc_array_t] behind a counter. *)
From stdpp Require Import base numbers list strings.
From Stdlib Require Import ZArith Lia.
From S2P Require Import Prelude MpmcArray.

Inductive rh_type_t : Type := rh_none | rh_comp | rh_matching_engine.
#[export] Instance rh_type_eq_dec : EqDecision rh_type_t.
Proof. solve_decision. Defined.

Record rh_entry_t : Type := mk_entry {
  rh_type : rh_type_t;
  rh_value : Z;
  rh_metadata : Z
}.
#[export] Instance rh_entry_eq_dec : EqDecision rh_entry_t.
Proof. solve_decision. Defined.

(** [entry_t()]; it is also the entry whose bytes are all zero. *)
Definition rh_entry_default : rh_entry_t := mk_entry rh_none 0 0.

Record rhandler_registry_t : Type := mk_registry {
  rh_size : Z;
  rh_entries : mpmc_array_t rh_entry_t
}.

Definition registry_new : rhandler_registry_t :=
  mk_registry 0 (mpmc_array_new rh_entry_default 32).

Definition encode_idx (idx : Z) : Z := u32 (idx + 1).
Definition decode_idx (idx : Z) : Z := u32 (idx - 1).

(** [reserve]: the new counter wraps at 32 bits, the old value goes through an
    [int] to the handler. *)
Definition reserve (n : Z) (r : rhandler_registry_t) : Z * rhandler_registry_t :=
  let idx := i32 (rh_size r) in
  (encode_idx (u32 idx), mk_registry (u32 (rh_size r + n)) (rh_entries r)).

Definition put_entry (idx : Z) (e : rh_entry_t) (r : rhandler_registry_t) :
    result rhandler_registry_t :=
  entries ← put rh_entry_default (Z.to_nat idx) e (rh_entries r) ;
  Ok (mk_registry (rh_size r) entries).

(** [register_rhandler(idx, entry)]. *)
Definition register_rhandler_at (idx : Z) (e : rh_entry_t) (r : rhandler_registry_t) :
    result rhandler_registry_t :=
  let idx := decode_idx idx in
  LCI_Assert (idx <? rh_size r) "Invalid remote handler" ;;
  put_entry idx e r.

(** [register_rhandler(entry)]. *)
Definition register_rhandler (e : rh_entry_t) (r : rhandler_registry_t) :
    result (Z * rhandler_registry_t) :=
  let idx := rh_size r in
  r ← put_entry idx e (mk_registry (u32 (rh_size r + 1)) (rh_entries r)) ;
  Ok (encode_idx idx, r).

Definition deregister_rhandler (idx : Z) (r : rhandler_registry_t) :
    result rhandler_registry_t :=
  let idx := decode_idx idx in
  LCI_Assert (idx <? rh_size r) "Invalid remote handler" ;;
  put_entry idx rh_entry_default r.

Definition registry_get (idx : Z) (r : rhandler_registry_t) : result rh_entry_t :=
  let idx := decode_idx idx in
  LCI_Assert (idx <? rh_size r) "Invalid remote handler" ;;
  Ok (get rh_entry_default (Z.to_nat idx) (rh_entries r)).

(** ** Laws *)

(** The counter has not wrapped. *)
Definition registry_inv (r : rhandler_registry_t) : Prop := is_u32 (rh_size r).

(** The handlers this registry has given out. *)
Definition is_handler (h : Z) (r : rhandler_registry_t) : Prop := 1 <= h <= rh_size r.

Lemma decode_encode idx : is_u32 idx -> decode_idx (encode_idx idx) = idx.
Proof.
  unfold is_u32, decode_idx, encode_idx, u32. intros.
  destruct (decide (idx = 2 ^ 32 - 1)) as [->|]; [reflexivity|].
  rewrite (Z.mod_small (idx + 1)) by lia. rewrite Z.mod_small; lia.
Qed.

Lemma decode_handler h r :
  registry_inv r -> is_u32 h -> (decode_idx h < rh_size r <-> is_handler h r).
Proof.
  unfold registry_inv, is_handler, is_u32, decode_idx, u32. intros.
  destruct (decide (h = 0)) as [->|].
  - change ((0 - 1) mod 2 ^ 32) with (2 ^ 32 - 1). lia.
  - rewrite Z.mod_small by lia. lia.
Qed.

Lemma handler_u32 h r : registry_inv r -> is_handler h r -> is_u32 h.
Proof. unfold registry_inv, is_handler, is_u32. lia. Qed.

Lemma registry_get_handler h r :
  registry_inv r -> is_handler h r ->
  registry_get h r = Ok (get rh_entry_default (Z.to_nat (h - 1)) (rh_entries r)).
Proof.
  intros Hr Hh. unfold registry_get.
  rewrite LCI_Assert_true by (apply Z.ltb_lt, decode_handler; eauto using handler_u32).
  unfold is_handler, registry_inv, is_u32 in *. simpl. unfold decode_idx.
  by rewrite u32_id by (unfold is_u32; lia).
Qed.

Lemma put_entry_ok idx e r :
  0 <= idx -> exists r', put_entry idx e r = Ok r' /\ rh_size r' = rh_size r
    /\ forall i, get rh_entry_default i (rh_entries r')
         = if decide (i = Z.to_nat idx) then e else get rh_entry_default i (rh_entries r).
Proof.
  intros. unfold put_entry.
  destruct (put_ok rh_entry_default (Z.to_nat idx) e (rh_entries r))
    as (a' & -> & _ & _ & Hg).
  eexists. split_and!; [done|done|]. done.
Qed.

(** Storing at a handler changes that handler only. *)
Lemma register_at_ok h e r :
  registry_inv r -> is_handler h r ->
  exists r', register_rhandler_at h e r = Ok r' /\ rh_size r' = rh_size r
    /\ registry_get h r' = Ok e
    /\ forall h', is_handler h' r -> h' <> h -> registry_get h' r' = registry_get h' r.
Proof.
  intros Hr Hh. unfold register_rhandler_at.
  rewrite LCI_Assert_true by (apply Z.ltb_lt, decode_handler; eauto using handler_u32).
  simpl. assert (decode_idx h = h - 1) as ->.
  { unfold decode_idx, registry_inv, is_handler, is_u32 in *.
    apply u32_id. unfold is_u32. lia. }
  destruct (put_entry_ok (h - 1) e r) as (r' & -> & Hs & Hg).
  { unfold is_handler in Hh. lia. }
  assert (registry_inv r') by (unfold registry_inv; by rewrite Hs).
  assert (Hsame : forall h', is_handler h' r -> is_handler h' r').
  { unfold is_handler. by rewrite Hs. }
  exists r'. split_and!; [done..| |].
  - rewrite registry_get_handler, Hg, decide_True by auto. done.
  - intros h' Hh' Hne. rewrite !registry_get_handler, Hg, decide_False; auto.
    unfold is_handler in *. lia.
Qed.

Lemma reserve_range n r h r' :
  registry_inv r -> 0 < n -> rh_size r + n < 2 ^ 32 -> reserve n r = (h, r') ->
  h = rh_size r + 1 /\ rh_size r' = rh_size r + n /\ rh_entries r' = rh_entries r.
Proof.
  unfold reserve, registry_inv, is_u32, encode_idx. intros Hr Hn Hs [= <- <-]. simpl.
  by rewrite u32_i32, (u32_id (rh_size r)), !u32_id by (unfold is_u32; lia).
Qed.

(** Registering an entry returns a handler that no earlier registration
    has, that looks up to the entry, and leaves every handler given out before
    as it was; a handler that was not given out (0 among them) fails the
    assertion of [get] instead of returning an entry. *)
Theorem register_rhandler_spec e r :
  registry_inv r -> rh_size r + 1 < 2 ^ 32 ->
  exists h r', register_rhandler e r = Ok (h, r')
    /\ registry_inv r'
    /\ ~ is_handler h r
    /\ registry_get h r' = Ok e
    /\ (forall h', is_handler h' r -> registry_get h' r' = registry_get h' r)
    /\ (forall h', is_u32 h' -> ~ is_handler h' r' ->
          registry_get h' r' = Err (AssertFailed "Invalid remote handler")).
Proof.
  intros Hr Hs. unfold registry_inv, is_u32 in Hr. unfold register_rhandler.
  destruct (put_entry_ok (rh_size r) e (mk_registry (u32 (rh_size r + 1)) (rh_entries r)))
    as (r' & -> & Hs' & Hg); [lia|]. simpl in *.
  rewrite u32_id in Hs' by (unfold is_u32; lia).
  assert (Hinv : registry_inv r') by (unfold registry_inv, is_u32; lia).
  exists (encode_idx (rh_size r)), r'. unfold encode_idx.
  rewrite u32_id by (unfold is_u32; lia). split_and!; [done..| | | |].
  - unfold is_handler. lia.
  - rewrite registry_get_handler, Hg by (done || (unfold is_handler; lia)).
    rewrite decide_True; [done|]. f_equal. lia.
  - intros h' Hh'. unfold is_handler in Hh'.
    rewrite !registry_get_handler, Hg, decide_False; unfold is_handler, registry_inv, is_u32; try done; lia.
  - intros h' Hu Hn. unfold registry_get, LCI_Assert.
    destruct (decode_idx h' <? rh_size r') eqn:E; [|done].
    apply Z.ltb_lt, decode_handler in E; auto. contradiction.
Qed.

Lemma register_rhandler_spec_witness :
  exists h r', register_rhandler (mk_entry rh_comp 4096 0) registry_new = Ok (h, r')
    /\ registry_inv r'
    /\ ~ is_handler h registry_new
    /\ registry_get h r' = Ok (mk_entry rh_comp 4096 0)
    /\ (forall h', is_handler h' registry_new ->
          registry_get h' r' = registry_get h' registry_new)
    /\ (forall h', is_u32 h' -> ~ is_handler h' r' ->
          registry_get h' r' = Err (AssertFailed "Invalid remote handler")).
Proof.
  apply (register_rhandler_spec (mk_entry rh_comp 4096 0) registry_new);
    unfold registry_inv, is_u32; simpl; lia.
Defined.
