(* ===== verification/MatchSpec.v ===== *)
(** * Matching of sends and receives: keys, contract, clients

    Data and key construction of src/src/matching_engine/matching_engine.hpp,
    the registration of an engine as remote handlers (matching_engine.cpp), and
    what a matching engine promises: [MatchingEngine] is the contract that
    [matching_engine_queue_t] (MatchQueue.v) and [matching_engine_map_t]
    (MatchMap.v) are proved to meet. The theorems on whole runs at the end are
    proved against the contract, so they hold of either engine. *)
From stdpp Require Import base numbers list strings.
From Stdlib Require Import ZArith Lia.
From S2P Require Import Prelude Bits MpmcArray RhandlerRegistry.

Inductive matching_entry_type_t : Type := me_send | me_recv.
#[export] Instance matching_entry_type_eq_dec : EqDecision matching_entry_type_t.
Proof. solve_decision. Defined.

Inductive matching_policy_t : Type :=
  | mp_none | mp_rank_only | mp_tag_only | mp_rank_tag | mp_max.
#[export] Instance matching_policy_eq_dec : EqDecision matching_policy_t.
Proof. solve_decision. Defined.

Definition policy_val (p : matching_policy_t) : Z :=
  match p with
  | mp_none => 0 | mp_rank_only => 1 | mp_tag_only => 2 | mp_rank_tag => 3
  | mp_max => 4
  end.

(** [static_cast<matching_policy_t>] of the metadata of a registry entry; a
    value outside the enumeration falls in the [default] branch of its
    switch, as [max] does. *)
Definition policy_of_val (z : Z) : matching_policy_t :=
  if z =? 0 then mp_none else if z =? 1 then mp_rank_only
  else if z =? 2 then mp_tag_only else if z =? 3 then mp_rank_tag else mp_max.

(** [make_key]: the [int] rank and the 64-bit tag are converted to the
    [uint64_t] parameter of [set_bits64]. *)
Definition make_key (rank tag : Z) (policy : matching_policy_t) : result Z :=
  match policy with
  | mp_none => Ok 0
  | mp_rank_only => set_bits64 0 (u64 rank) 32 0
  | mp_tag_only => set_bits64 0 (u64 tag) 32 0
  | mp_rank_tag =>
      key ← set_bits64 0 (u64 rank) 32 32 ;
      set_bits64 key (u64 tag) 32 0
  | mp_max => Err (AssertFailed "Unknown matching policy")
  end.

Definition get_rhandler (rcomp_base : Z) (policy : matching_policy_t) : Z :=
  u32 (rcomp_base + policy_val policy).

(** [register_rhandler] of an engine whose address is [this]: one handler per
    policy, with the policy as metadata. *)
Fixpoint register_policies (rcomp_base this : Z) (i n : nat) (r : rhandler_registry_t) :
    result rhandler_registry_t :=
  match n with
  | O => Ok r
  | S n =>
      r ← register_rhandler_at (u32 (rcomp_base + Z.of_nat i))
            (mk_entry rh_matching_engine this (Z.of_nat i)) r ;
      register_policies rcomp_base this (S i) n r
  end.
Definition register_engine (this : Z) (r : rhandler_registry_t) :
    result (Z * rhandler_registry_t) :=
  let '(rcomp_base, r) := reserve (policy_val mp_max) r in
  r ← register_policies rcomp_base this 0 (Z.to_nat (policy_val mp_max)) r ;
  Ok (rcomp_base, r).

(** ** Keys *)

(** What two ends of a message must agree on under a policy. *)
Definition policy_agree (p : matching_policy_t) (rank tag rank' tag' : Z) : Prop :=
  match p with
  | mp_none | mp_max => True
  | mp_rank_only => rank = rank'
  | mp_tag_only => tag = tag'
  | mp_rank_tag => rank = rank' /\ tag = tag'
  end.

Definition is_rank (rank : Z) : Prop := 0 <= rank < 2 ^ 31.

Lemma make_key_value rank tag p :
  is_rank rank -> is_u32 tag -> p <> mp_max ->
  make_key rank tag p = Ok (match p with
    | mp_none | mp_max => 0
    | mp_rank_only => field_set 0 rank 32 0
    | mp_tag_only => field_set 0 tag 32 0
    | mp_rank_tag => field_set (field_set 0 rank 32 32) tag 32 0
    end).
Proof.
  unfold is_rank, is_u32. intros Hr Ht Hp.
  assert (u64 rank = rank) as Er by (apply u64_id; unfold is_u64; lia).
  assert (u64 tag = tag) as Et by (apply u64_id; unfold is_u64; lia).
  destruct p; simpl; rewrite ?Er, ?Et; try done.
  - apply set_bits64_field; unfold valid_field, is_u64; lia.
  - apply set_bits64_field; unfold valid_field, is_u64; lia.
  - rewrite set_bits64_field by (unfold valid_field, is_u64; lia). simpl.
    apply set_bits64_field; [unfold valid_field; lia| |lia].
    apply field_set_range; lia.
Qed.

Lemma field_set_inj f f' v v' w o :
  0 <= w -> 0 <= o -> 0 <= v < 2 ^ w -> 0 <= v' < 2 ^ w ->
  field_set f v w o = field_set f' v' w o -> v = v'.
Proof.
  intros ?? Hv Hv' E. rewrite <-(field_get_set_same f v w o), E by lia.
  apply field_get_set_same; lia.
Qed.

Lemma key_rank rank tag :
  0 <= rank < 2 ^ 32 -> 0 <= tag < 2 ^ 32 ->
  field_get (field_set (field_set 0 rank 32 32) tag 32 0) 32 32 = rank.
Proof.
  intros. rewrite field_get_set_disjoint by (unfold disjoint_fields; lia).
  apply field_get_set_same; lia.
Qed.

(** Under each matching policy, two messages get the same key exactly when
    they agree on what the policy compares, for every rank and every tag up to
    the advertised maximum of 32 bits. *)
Theorem make_key_spec p rank tag rank' tag' :
  p <> mp_max -> is_rank rank -> is_rank rank' -> is_u32 tag -> is_u32 tag' ->
  exists k k', make_key rank tag p = Ok k /\ make_key rank' tag' p = Ok k'
    /\ is_u64 k /\ (k = k' <-> policy_agree p rank tag rank' tag').
Proof.
  intros Hp Hr Hr' Ht Ht'. rewrite !make_key_value by done.
  do 2 eexists. split_and!; [done..| |].
  - unfold is_rank, is_u32 in *.
    destruct p; try (unfold is_u64; lia); repeat apply field_set_range; lia.
  - unfold is_rank, is_u32 in *. destruct p; simpl; [done| | | |done].
    + split; [|by intros ->]. apply field_set_inj; lia.
    + split; [|by intros ->]. apply field_set_inj; lia.
    + split; [|by intros [-> ->]]. intros E. split.
      * rewrite <-(key_rank rank tag), <-(key_rank rank' tag') by lia. by rewrite E.
      * by apply (field_set_inj _ _ tag tag' 32 0) in E; [|lia..].
Qed.

Lemma make_key_spec_witness :
  exists k k', make_key 3 70000 mp_rank_tag = Ok k /\ make_key 3 70001 mp_rank_tag = Ok k'
    /\ is_u64 k /\ (k = k' <-> policy_agree mp_rank_tag 3 70000 3 70001).
Proof.
  apply (make_key_spec mp_rank_tag 3 70000 3 70001); unfold is_rank, is_u32; (done || lia).
Defined.

(** ** Registration *)

Lemma register_policies_ok base this n : forall i r,
  registry_inv r -> 1 <= base -> base + Z.of_nat (i + n) <= rh_size r + 1 ->
  exists r', register_policies base this i n r = Ok r' /\ rh_size r' = rh_size r
    /\ (forall j, (i <= j < i + n)%nat ->
          registry_get (base + Z.of_nat j) r'
          = Ok (mk_entry rh_matching_engine this (Z.of_nat j)))
    /\ (forall h, is_handler h r ->
          h < base + Z.of_nat i \/ base + Z.of_nat (i + n) <= h ->
          registry_get h r' = registry_get h r).
Proof.
  induction n as [|n IH]; intros i r Hr Hb Hs; simpl.
  - exists r. split_and!; [done..| |done]. intros j. lia.
  - assert (Hi : is_handler (base + Z.of_nat i) r) by (unfold is_handler; lia).
    rewrite u32_id by (eapply handler_u32; eauto).
    destruct (register_at_ok (base + Z.of_nat i)
                (mk_entry rh_matching_engine this (Z.of_nat i)) r Hr Hi)
      as (r1 & E1 & Hs1 & Hg1 & Ho1). rewrite E1. simpl.
    destruct (IH (S i) r1) as (r' & -> & Hs' & Hg' & Ho').
    { unfold registry_inv. by rewrite Hs1. }
    { done. }
    { rewrite Hs1. lia. }
    exists r'. split_and!; [done|congruence| |].
    + intros j Hj. destruct (decide (j = i)) as [->|]; [|apply Hg'; lia].
      rewrite Ho'; [done|unfold is_handler in *; rewrite Hs1; lia|lia].
    + intros h Hh Hne. rewrite Ho', Ho1; [done|done| | |].
      * lia.
      * unfold is_handler in *. by rewrite Hs1.
      * lia.
Qed.

(** Registering a matching engine gives it, for every policy, a handler that
    looks up to the engine with that policy as metadata (so an incoming message
    is matched under the policy its sender used), and moves no handler given
    out before. *)
Theorem register_engine_spec this r :
  registry_inv r -> rh_size r + 4 < 2 ^ 32 ->
  exists base r', register_engine this r = Ok (base, r')
    /\ registry_inv r'
    /\ (forall p, p <> mp_max ->
          registry_get (get_rhandler base p) r'
            = Ok (mk_entry rh_matching_engine this (policy_val p))
          /\ policy_of_val (policy_val p) = p
          /\ ~ is_handler (get_rhandler base p) r)
    /\ (forall h, is_handler h r -> registry_get h r' = registry_get h r).
Proof.
  intros Hr Hs. unfold register_engine.
  destruct (reserve (policy_val mp_max) r) as [base r1] eqn:E.
  apply reserve_range in E as (-> & Hs1 & He1); [|done|done|done].
  simpl in Hs1.
  assert (Hr1 : registry_inv r1).
  { unfold registry_inv, is_u32 in *. lia. }
  assert (Hget : forall h, is_handler h r -> registry_get h r1 = registry_get h r).
  { intros h Hh. rewrite !registry_get_handler; [by rewrite He1|..]; auto.
    unfold is_handler in *. lia. }
  destruct (register_policies_ok (rh_size r + 1) this (Z.to_nat (policy_val mp_max)) 0 r1)
    as (r' & -> & Hs' & Hg & Ho); [done| |simpl; lia|].
  { unfold registry_inv, is_u32 in Hr. lia. }
  exists (rh_size r + 1), r'. split_and!; [done| | |].
  - unfold registry_inv. by rewrite Hs'.
  - intros p Hp. unfold get_rhandler.
    assert (0 <= policy_val p <= 3) by (destruct p; simpl; lia || done).
    rewrite u32_id by (unfold registry_inv, is_u32 in *; lia). split_and!.
    + specialize (Hg (Z.to_nat (policy_val p))). rewrite Z2Nat.id in Hg by lia.
      apply Hg. simpl. lia.
    + by destruct p.
    + unfold is_handler. lia.
  - intros h Hh. rewrite Ho, Hget; [done|done| |].
    + unfold is_handler in *. lia.
    + unfold is_handler in Hh. lia.
Qed.

Lemma register_engine_spec_witness :
  exists base r', register_engine 8192 registry_new = Ok (base, r')
    /\ registry_inv r'
    /\ (forall p, p <> mp_max ->
          registry_get (get_rhandler base p) r'
            = Ok (mk_entry rh_matching_engine 8192 (policy_val p))
          /\ policy_of_val (policy_val p) = p
          /\ ~ is_handler (get_rhandler base p) registry_new)
    /\ (forall h, is_handler h registry_new ->
          registry_get h r' = registry_get h registry_new).
Proof.
  apply (register_engine_spec 8192 registry_new);
    unfold registry_inv, is_u32; simpl; lia.
Defined.

(** ** The contract of a matching engine *)

Definition flip_type (t : matching_entry_type_t) : matching_entry_type_t :=
  match t with me_send => me_recv | me_recv => me_send end.

(** What waits in an engine: for each kind of entry and each key, the values
    in the order they were inserted. *)
Definition pending_t : Type := matching_entry_type_t -> Z -> list Z.

Definition no_pending : pending_t := fun _ _ => [].

Definition upd (p : pending_t) (t : matching_entry_type_t) (k : Z) (l : list Z) : pending_t :=
  fun t' k' => if decide (t' = t /\ k' = k) then l else p t' k'.

(** An insert takes the oldest waiting entry of the other kind with the same
    key, or waits behind those of its own kind; [0] is [nullptr]. *)
Definition spec_insert (key value : Z) (t : matching_entry_type_t) (p : pending_t) :
    Z * pending_t :=
  match p (flip_type t) key with
  | w :: ws => (w, upd p (flip_type t) key ws)
  | [] => (0, upd p t key (p t key ++ [value]))
  end.

(** Tables are compared pointwise. *)
#[export] Instance pending_equiv : Equiv pending_t := fun p q => forall t k, p t k = q t k.
#[export] Instance pending_equivalence : Equivalence (≡@{pending_t}).
Proof.
  split; [intros p t k; done|intros p q H t k; by rewrite H|].
  intros p q r H1 H2 t k. by rewrite H1, H2.
Qed.

#[export] Instance upd_proper : Proper ((≡) ==> (=) ==> (=) ==> (=) ==> (≡)) upd.
Proof.
  intros p q H t ? <- k ? <- l ? <- t' k'. unfold upd. destruct (decide _); [done|].
  apply H.
Qed.

#[export] Instance spec_insert_proper key value t :
  Proper ((≡) ==> prod_relation (=) (≡)) (spec_insert key value t).
Proof.
  intros p q H. unfold spec_insert. rewrite <-(H (flip_type t) key).
  destruct (p (flip_type t) key); split; simpl; try done; [|by rewrite H].
  rewrite (H t key). by rewrite H.
Qed.

Class MatchingEngine (E : Type) : Type := {
  engine_new : E;
  engine_insert : Z -> Z -> matching_entry_type_t -> E -> result (Z * E);
  engine_inv : E -> Prop;
  engine_pending : E -> pending_t;
  engine_new_ok : engine_inv engine_new /\ engine_pending engine_new ≡ no_pending;
  engine_insert_ok : forall e key value t,
    engine_inv e -> is_u64 key -> value <> 0 ->
    exists r e', engine_insert key value t e = Ok (r, e')
      /\ engine_inv e'
      /\ r = fst (spec_insert key value t (engine_pending e))
      /\ engine_pending e' ≡ snd (spec_insert key value t (engine_pending e))
}.

(** ** Runs of an engine *)

Record insertion : Type := mk_insertion {
  ins_key : Z; ins_value : Z; ins_type : matching_entry_type_t
}.
Definition valid_insertion (i : insertion) : Prop :=
  is_u64 (ins_key i) /\ ins_value i <> 0.

(** The values inserted with a key, in order. *)
Definition inserted (t : matching_entry_type_t) (k : Z) (ops : list insertion) : list Z :=
  ins_value <$> filter (fun i => ins_type i = t /\ ins_key i = k) ops.

(** The (send, receive) pairs of a key that a run's results report. *)
Definition matched1 (k : Z) (ir : insertion * Z) : list (Z * Z) :=
  if decide (ins_key (fst ir) = k /\ snd ir <> 0) then
    match ins_type (fst ir) with
    | me_send => [(ins_value (fst ir), snd ir)]
    | me_recv => [(snd ir, ins_value (fst ir))]
    end
  else [].
Definition matched (k : Z) (ops : list insertion) (rs : list Z) : list (Z * Z) :=
  zip ops rs ≫= matched1 k.

Fixpoint spec_run (ops : list insertion) (p : pending_t) : list Z * pending_t :=
  match ops with
  | [] => ([], p)
  | i :: ops =>
      let '(r, p) := spec_insert (ins_key i) (ins_value i) (ins_type i) p in
      let '(rs, p) := spec_run ops p in (r :: rs, p)
  end.

Lemma spec_run_snoc ops i p :
  spec_run (ops ++ [i]) p
  = let '(rs, p) := spec_run ops p in
    let '(r, p) := spec_insert (ins_key i) (ins_value i) (ins_type i) p in
    (rs ++ [r], p).
Proof.
  revert p. induction ops as [|j ops IH]; intros p; simpl.
  - by destruct (spec_insert _ _ _ p).
  - destruct (spec_insert _ _ _ p) as [r p1]. rewrite IH.
    destruct (spec_run ops p1) as [rs p2]. by destruct (spec_insert _ _ _ p2).
Qed.

Lemma spec_run_length ops : forall p, length (fst (spec_run ops p)) = length ops.
Proof.
  induction ops as [|i ops IH]; intros p; simpl; [done|].
  destruct (spec_insert _ _ _ p) as [r p1]. specialize (IH p1).
  destruct (spec_run ops p1). simpl in *. by rewrite IH.
Qed.

Lemma inserted_snoc t k ops i :
  inserted t k (ops ++ [i])
  = inserted t k ops ++ (if decide (ins_type i = t /\ ins_key i = k) then [ins_value i] else []).
Proof.
  unfold inserted. rewrite filter_app, fmap_app. f_equal. cbn.
  by destruct (decide _).
Qed.

Lemma matched_snoc k ops i rs r :
  length rs = length ops ->
  matched k (ops ++ [i]) (rs ++ [r]) = matched k ops rs ++ matched1 k (i, r).
Proof.
  intros. unfold matched. rewrite zip_with_app by done. rewrite bind_app. simpl.
  by rewrite app_nil_r.
Qed.

(** The oldest send of a key goes with its oldest receive, the next with the
    next, and so on; what is left waits. *)
Definition fifo_at (k : Z) (ops : list insertion) (rs : list Z) (p : pending_t) : Prop :=
  let S := inserted me_send k ops in
  let R := inserted me_recv k ops in
  matched k ops rs = zip S R
  /\ p me_send k = drop (length R) S
  /\ p me_recv k = drop (length S) R.

Definition fifo_matched (ops : list insertion) (rs : list Z) (p : pending_t) : Prop :=
  forall k, fifo_at k ops rs p.

Lemma zip_snoc_r {A B} (l : list A) (m : list B) x y ys :
  drop (length l) m = y :: ys -> zip (l ++ [x]) m = zip l m ++ [(x, y)].
Proof.
  intros E. revert m E. induction l as [|a l IH]; intros [|b m] E; simpl in *; try done.
  - by injection E as -> ->.
  - f_equal. by apply IH.
Qed.

Lemma zip_snoc_done {A B} (l : list A) (m : list B) x :
  drop (length l) m = [] -> zip (l ++ [x]) m = zip l m.
Proof.
  revert m. induction l as [|a l IH]; intros [|b m] E; simpl in *; try done.
  f_equal. by apply IH.
Qed.

Lemma zip_flip {A B} (l : list A) (m : list B) :
  zip l m = prod_swap <$> zip m l.
Proof.
  revert m. induction l as [|a l IH]; intros [|b m]; simpl; try done.
  by rewrite IH.
Qed.

Lemma zip_snoc_l {A B} (l : list A) (m : list B) x y ys :
  drop (length m) l = y :: ys -> zip l (m ++ [x]) = zip l m ++ [(y, x)].
Proof.
  intros E. rewrite (zip_flip l (m ++ [x])), (zip_flip l m), (zip_snoc_r m l x y ys E).
  by rewrite fmap_app.
Qed.
Lemma zip_snoc_done_l {A B} (l : list A) (m : list B) x :
  drop (length m) l = [] -> zip l (m ++ [x]) = zip l m.
Proof.
  intros E. by rewrite (zip_flip l (m ++ [x])), (zip_flip l m), (zip_snoc_done m l x E).
Qed.

Lemma drop_cons_S {A} n (l : list A) y ys : drop n l = y :: ys -> drop (S n) l = ys.
Proof. revert n. induction l; intros [|n] E; simpl in *; try naive_solver. Qed.

Lemma drop_snoc {A} n (l : list A) x :
  drop n (l ++ [x]) = if decide (n <= length l)%nat then drop n l ++ [x] else [].
Proof.
  destruct (decide _).
  - by rewrite drop_app_le by lia.
  - apply drop_ge. rewrite length_app. simpl. lia.
Qed.

Lemma drop_nil_length {A} n (l : list A) : drop n l = [] <-> (length l <= n)%nat.
Proof.
  split; [|apply drop_ge]. intros E. apply (f_equal length) in E.
  rewrite length_drop in E. simpl in E. lia.
Qed.

Lemma drop_nonempty_length {A} n (l : list A) y ys : drop n l = y :: ys -> (n < length l)%nat.
Proof.
  intros E. apply (f_equal length) in E. rewrite length_drop in E. simpl in E. lia.
Qed.

Lemma inserted_nonzero t k ops y :
  Forall valid_insertion ops -> y ∈ inserted t k ops -> y <> 0.
Proof.
  intros Hops (i & -> & Hi)%list_elem_of_fmap. apply list_elem_of_filter in Hi as [_ Hi].
  rewrite Forall_forall in Hops. apply Hops in Hi. apply Hi.
Qed.

(** One more insert keeps the pairing in order: another key, then a send and
    a receive of this key. *)
Section FifoStep.
Context (ops : list insertion) (rs : list Z) (p p' : pending_t) (r k v : Z).
Hypothesis Hops : Forall valid_insertion ops.
Hypothesis Hlen : length rs = length ops.

Lemma fifo_step_other k0 t :
  k0 <> k -> fifo_at k ops rs p -> spec_insert k0 v t p = (r, p') ->
  fifo_at k (ops ++ [mk_insertion k0 v t]) (rs ++ [r]) p'.
Proof using Hlen.
  intros Hne (IHm & IHs & IHr) Hins. unfold fifo_at.
  rewrite matched_snoc, !inserted_snoc, IHm by done. unfold matched1; simpl.
  rewrite !(decide_False (P := _ /\ _)), !app_nil_r by tauto.
  unfold spec_insert in Hins. destruct (p (flip_type t) k0); injection Hins as <- <-;
    unfold upd; rewrite !decide_False by naive_solver; done.
Qed.

Lemma fifo_step_send :
  fifo_at k ops rs p -> spec_insert k v me_send p = (r, p') ->
  fifo_at k (ops ++ [mk_insertion k v me_send]) (rs ++ [r]) p'.
Proof using Hops Hlen.
  intros (IHm & IHs & IHr) Hins. unfold fifo_at.
  rewrite matched_snoc, !inserted_snoc, IHm by done. unfold matched1; simpl.
  set (S := inserted me_send k ops) in *. set (R := inserted me_recv k ops) in *.
  rewrite (decide_True (P := me_send = me_send /\ _)), app_nil_r by done.
  unfold spec_insert in Hins; simpl in Hins.
  rewrite IHs, IHr in Hins. destruct (drop (length S) R) as [|y ys] eqn:E.
  - injection Hins as <- <-. unfold upd.
    rewrite (decide_False (P := _ /\ 0 <> 0)), app_nil_r, zip_snoc_done by (done || tauto).
    rewrite decide_True, decide_False, IHr, drop_snoc by naive_solver.
    apply drop_nil_length in E. rewrite decide_True by lia. split_and!; [done..|].
    symmetry. apply drop_ge. rewrite length_app. simpl. lia.
  - assert (y ∈ R) as Hy.
    { apply (subseteq_drop (length S)). rewrite E. by left. }
    pose proof (inserted_nonzero _ _ _ _ Hops Hy).
    injection Hins as <- <-. unfold upd.
    rewrite (decide_True (P := _ /\ y <> 0)), (zip_snoc_r _ _ _ _ _ E) by done.
    rewrite decide_False, decide_True, IHs, drop_snoc by naive_solver.
    pose proof (drop_nonempty_length _ _ _ _ E). rewrite decide_False by lia.
    split_and!; [done|apply drop_ge; lia|].
    rewrite length_app, Nat.add_1_r. symmetry. by apply drop_cons_S with y.
Qed.

Lemma fifo_step_recv :
  fifo_at k ops rs p -> spec_insert k v me_recv p = (r, p') ->
  fifo_at k (ops ++ [mk_insertion k v me_recv]) (rs ++ [r]) p'.
Proof using Hops Hlen.
  intros (IHm & IHs & IHr) Hins. unfold fifo_at.
  rewrite matched_snoc, !inserted_snoc, IHm by done. unfold matched1; simpl.
  set (S := inserted me_send k ops) in *. set (R := inserted me_recv k ops) in *.
  rewrite (decide_True (P := me_recv = me_recv /\ _)), app_nil_r by done.
  unfold spec_insert in Hins; simpl in Hins.
  rewrite IHs, IHr in Hins. destruct (drop (length R) S) as [|y ys] eqn:E.
  - injection Hins as <- <-. unfold upd.
    rewrite (decide_False (P := _ /\ 0 <> 0)), app_nil_r, zip_snoc_done_l by (done || tauto).
    rewrite decide_False, decide_True, IHs, drop_snoc by naive_solver.
    apply drop_nil_length in E. rewrite decide_True by lia. split_and!; [done| |done].
    symmetry. apply drop_ge. rewrite length_app. simpl. lia.
  - assert (y ∈ S) as Hy.
    { apply (subseteq_drop (length R)). rewrite E. by left. }
    pose proof (inserted_nonzero _ _ _ _ Hops Hy).
    injection Hins as <- <-. unfold upd.
    rewrite (decide_True (P := _ /\ y <> 0)), (zip_snoc_l _ _ _ _ _ E) by done.
    rewrite decide_True, decide_False, IHr, drop_snoc by naive_solver.
    pose proof (drop_nonempty_length _ _ _ _ E). rewrite decide_False by lia.
    split_and!; [done| |apply drop_ge; lia].
    rewrite length_app, Nat.add_1_r. symmetry. by apply drop_cons_S with y.
Qed.
End FifoStep.

Lemma spec_run_fifo ops :
  Forall valid_insertion ops ->
  fifo_matched ops (fst (spec_run ops no_pending)) (snd (spec_run ops no_pending)).
Proof.
  induction ops as [|i ops IH] using rev_ind; intros Hops; [by intros k|].
  apply Forall_app in Hops as [Hops _]. specialize (IH Hops).
  rewrite spec_run_snoc. pose proof (spec_run_length ops no_pending) as Hl.
  destruct (spec_run ops no_pending) as [rs p]. simpl in *.
  destruct i as [k0 v t]; simpl.
  destruct (spec_insert k0 v t p) as [r p'] eqn:E; simpl. intros k.
  destruct (decide (k0 = k)) as [->|]; [|by eapply fifo_step_other].
  destruct t; [by eapply fifo_step_send|by eapply fifo_step_recv].
Qed.

(** ** Clients of the contract *)

Section Clients.
Context {E : Type} `{!MatchingEngine E}.

Fixpoint engine_run (ops : list insertion) (e : E) : result (list Z * E) :=
  match ops with
  | [] => Ok ([], e)
  | i :: ops =>
      '(r, e) ← engine_insert (ins_key i) (ins_value i) (ins_type i) e ;
      '(rs, e) ← engine_run ops e ;
      Ok (r :: rs, e)
  end.

Lemma spec_run_proper ops : forall p q, p ≡ q ->
  fst (spec_run ops p) = fst (spec_run ops q) /\ snd (spec_run ops p) ≡ snd (spec_run ops q).
Proof.
  induction ops as [|i ops IH]; intros p q H; simpl; [done|].
  pose proof (spec_insert_proper (ins_key i) (ins_value i) (ins_type i) p q H) as [Hr Hp].
  destruct (spec_insert _ _ _ p) as [r p1], (spec_insert _ _ _ q) as [r' q1].
  simpl in *. subst r'. destruct (IH p1 q1 Hp) as [H1 H2].
  destruct (spec_run ops p1), (spec_run ops q1). simpl in *. by subst.
Qed.

(** A run of the engine gives the results of the contract, and never fails. *)
Lemma engine_run_refines ops : forall e,
  engine_inv e -> Forall valid_insertion ops ->
  exists rs e', engine_run ops e = Ok (rs, e') /\ engine_inv e'
    /\ rs = fst (spec_run ops (engine_pending e))
    /\ engine_pending e' ≡ snd (spec_run ops (engine_pending e)).
Proof.
  induction ops as [|i ops IH]; intros e He Hops; simpl; [by eauto 6|].
  apply Forall_cons in Hops as [[Hk Hv] Hops].
  destruct (engine_insert_ok e (ins_key i) (ins_value i) (ins_type i))
    as (r & e1 & -> & He1 & Hr & Hp); [done..|]. simpl.
  destruct (IH e1 He1 Hops) as (rs & e' & -> & He' & Hrs & Hp'). simpl.
  exists (r :: rs), e'. split_and!; [done..| |].
  - destruct (spec_run_proper ops _ _ Hp) as [H _]. rewrite Hrs, H, Hr.
    destruct (spec_insert _ _ _ _) as [r0 p0]. simpl.
    by destruct (spec_run ops p0).
  - destruct (spec_run_proper ops _ _ Hp) as [_ H]. rewrite Hp', H.
    destruct (spec_insert _ _ _ _) as [r0 p0]. simpl.
    by destruct (spec_run ops p0).
Qed.

(** From a fresh engine, every run ends with the pairing in order. *)
Lemma engine_run_fifo ops :
  Forall valid_insertion ops ->
  exists rs e', engine_run ops engine_new = Ok (rs, e')
    /\ fifo_matched ops rs (engine_pending e').
Proof.
  intros Hops. destruct engine_new_ok as [Hinv Hnew].
  destruct (engine_run_refines ops engine_new Hinv Hops) as (rs & e' & Hrun & _ & Hrs & Hp).
  exists rs, e'. split; [done|].
  destruct (spec_run_proper ops _ _ Hnew) as [H1 H2].
  rewrite H1 in Hrs. rewrite H2 in Hp. subst rs. intros k.
  destruct (spec_run_fifo ops Hops k) as (Hm & Hs & Hr). unfold fifo_at.
  by rewrite (Hp me_send k), (Hp me_recv k).
Qed.
End Clients.
