(* ===== verification/MatchQueue.v ===== *)
(** * The list-based matching engine
    (src/src/matching_engine/matching_engine_queue.hpp)

    Two [std::list]s, one of unexpected sends and one of posted receives,
    under one spinlock; each operation runs with the lock held, so an operation
    is one step. The code reads [it->value] after [queue.erase(it)]: what such
    a read of freed memory yields is not defined by the language, so it is a
    parameter, [read_erased]. The refinement of the contract assumes what the
    code relies on, that the erased node is still intact; the last section
    compares the engine for an arbitrary [read_erased] with that. *)
From stdpp Require Import base numbers list sets strings.
From Stdlib Require Import ZArith Lia.
From S2P Require Import Prelude MatchSpec.

Record entry_t : Type := mk_qentry { e_key : Z; e_value : Z }.

Record matching_engine_queue_t : Type := mk_queue_engine {
  send_queue : list entry_t;
  recv_queue : list entry_t
}.

Definition queue_engine_new : matching_engine_queue_t := mk_queue_engine [] [].

Section Queue.
Variable read_erased : entry_t -> Z.

(** [search]: the value read through the erased iterator and the list without
    the entry; [0] when no entry has the key. *)
Fixpoint search (queue : list entry_t) (key : Z) : Z * list entry_t :=
  match queue with
  | [] => (0, [])
  | it :: queue' =>
      if e_key it =? key then (read_erased it, queue')
      else let '(ret, queue'') := search queue' key in (ret, it :: queue'')
  end.

Definition queue_insert (key value : Z) (type : matching_entry_type_t)
    (e : matching_engine_queue_t) : Z * matching_engine_queue_t :=
  let entry := mk_qentry key value in
  match type with
  | me_send =>
      let '(ret, recv_q) := search (recv_queue e) key in
      (ret, mk_queue_engine
              (if ret =? 0 then send_queue e ++ [entry] else send_queue e) recv_q)
  | me_recv =>
      let '(ret, send_q) := search (send_queue e) key in
      (ret, mk_queue_engine send_q
              (if ret =? 0 then recv_queue e ++ [entry] else recv_queue e))
  end.

(** ** The contract *)

Hypothesis erased_intact : forall it, read_erased it = e_value it.

Definition values_of (key : Z) (q : list entry_t) : list Z :=
  e_value <$> filter (fun it => e_key it = key) q.

Definition queue_pending (e : matching_engine_queue_t) : pending_t := fun t key =>
  match t with
  | me_send => values_of key (send_queue e)
  | me_recv => values_of key (recv_queue e)
  end.

Definition queue_inv (e : matching_engine_queue_t) : Prop :=
  Forall (fun it => e_value it <> 0) (send_queue e ++ recv_queue e).

Lemma values_of_cons key it q :
  values_of key (it :: q)
  = if decide (e_key it = key) then e_value it :: values_of key q else values_of key q.
Proof. unfold values_of. rewrite filter_cons. by destruct (decide _). Qed.

Lemma values_of_snoc key k v q :
  values_of key (q ++ [mk_qentry k v])
  = values_of key q ++ (if decide (k = key) then [v] else []).
Proof.
  unfold values_of. rewrite filter_app, fmap_app, filter_cons. simpl.
  by destruct (decide _).
Qed.

(** [search] takes the oldest value of the key and no other entry. *)
Lemma search_spec q key :
  let '(ret, q') := search q key in
  match values_of key q with
  | [] => ret = 0 /\ q' = q
  | w :: ws => ret = w
      /\ forall k, values_of k q' = if decide (k = key) then ws else values_of k q
  end.
Proof using erased_intact.
  induction q as [|it q IH]; simpl; [done|].
  rewrite values_of_cons. destruct (e_key it =? key) eqn:E.
  - apply Z.eqb_eq in E. rewrite decide_True by done. split; [apply erased_intact|].
    intros k. rewrite values_of_cons. destruct (decide (k = key)) as [->|]; [done|].
    rewrite decide_False by congruence. done.
  - apply Z.eqb_neq in E. rewrite decide_False by done.
    destruct (search q key) as [ret q']. destruct (values_of key q) as [|w ws].
    + destruct IH as [-> ->]. done.
    + destruct IH as [-> IH]. split; [done|]. intros k. rewrite !values_of_cons, IH.
      destruct (decide (k = key)) as [->|]; [by rewrite decide_False|done].
Qed.

Lemma search_sub q key : forall it, it ∈ snd (search q key) -> it ∈ q.
Proof.
  induction q as [|x q IH]; simpl; [done|]. intros it.
  destruct (e_key x =? key); simpl; [by right|].
  destruct (search q key) as [ret q']; simpl in *. set_solver.
Qed.

Lemma values_nonzero key q : Forall (fun it => e_value it <> 0) q ->
  Forall (fun w => w <> 0) (values_of key q).
Proof.
  intros H. unfold values_of. rewrite Forall_forall in H. rewrite Forall_forall.
  intros w (it & -> & Hi)%list_elem_of_fmap. apply list_elem_of_filter in Hi as [_ Hi]. by apply H.
Qed.

Lemma search_keeps q key P : Forall P q -> Forall P (snd (search q key)).
Proof. rewrite !Forall_forall. eauto using search_sub. Qed.

(** One branch of [insert]: [other] is searched, [own] takes the entry when
    nothing matches. *)
Lemma insert_side key value own other ret other' own' :
  Forall (fun it => e_value it <> 0) own -> Forall (fun it => e_value it <> 0) other ->
  value <> 0 -> search other key = (ret, other') ->
  own' = (if ret =? 0 then own ++ [mk_qentry key value] else own) ->
  Forall (fun it => e_value it <> 0) own' /\ Forall (fun it => e_value it <> 0) other'
  /\ match values_of key other with
     | [] => ret = 0 /\ forall k, values_of k other' = values_of k other
         /\ values_of k own' = if decide (k = key) then values_of key own ++ [value]
                              else values_of k own
     | w :: ws => ret = w /\ forall k, values_of k own' = values_of k own
         /\ values_of k other' = if decide (k = key) then ws else values_of k other
     end.
Proof using erased_intact.
  intros Ho Hq Hv E ->. pose proof (search_spec other key) as H.
  pose proof (search_keeps other key _ Hq) as Hk. pose proof (values_nonzero key _ Hq) as Hn.
  rewrite E in H, Hk. simpl in Hk. destruct (values_of key other) as [|w ws].
  - destruct H as [-> ->]. simpl. split_and!; [|done|done|].
    + apply Forall_app_2; [done|]. by constructor.
    + intros k. split; [done|]. rewrite values_of_snoc.
      destruct (decide (k = key)) as [->|]; [by rewrite decide_True|].
      rewrite decide_False by congruence. apply app_nil_r.
  - destruct H as [-> H]. apply Forall_cons in Hn as [Hw _].
    rewrite (proj2 (Z.eqb_neq w 0) Hw). by split_and!.
Qed.

Lemma queue_insert_ok key value t e :
  queue_inv e -> value <> 0 ->
  let '(r, e') := queue_insert key value t e in
  queue_inv e' /\ r = fst (spec_insert key value t (queue_pending e))
  /\ queue_pending e' ≡ snd (spec_insert key value t (queue_pending e)).
Proof using erased_intact.
  intros [Hs Hr]%Forall_app Hv. unfold queue_insert, spec_insert, queue_inv.
  destruct t; simpl.
  - destruct (search (recv_queue e) key) as [ret q'] eqn:E. simpl.
    destruct (insert_side key value _ _ _ _ _ Hs Hr Hv E eq_refl) as (H1 & H2 & H).
    split; [by apply Forall_app|].
    destruct (values_of key (recv_queue e)) as [|w ws]; destruct H as [-> H];
      (split; [done|]); intros [] k; unfold upd; simpl;
      destruct (H k) as [Ha Hb]; simpl in Ha, Hb; rewrite ?Ha, ?Hb; clear;
      repeat case_decide; destruct_and?; simplify_eq; done || tauto.
  - destruct (search (send_queue e) key) as [ret q'] eqn:E. simpl.
    destruct (insert_side key value _ _ _ _ _ Hr Hs Hv E eq_refl) as (H1 & H2 & H).
    split; [by apply Forall_app|].
    destruct (values_of key (send_queue e)) as [|w ws]; destruct H as [-> H];
      (split; [done|]); intros [] k; unfold upd; simpl;
      destruct (H k) as [Ha Hb]; simpl in Ha, Hb; rewrite ?Ha, ?Hb; clear;
      repeat case_decide; destruct_and?; simplify_eq; done || tauto.
Qed.

#[local] Instance queue_engine : MatchingEngine matching_engine_queue_t.
Proof using erased_intact read_erased.
  refine {| engine_new := queue_engine_new;
            engine_insert := fun k v t e => Ok (queue_insert k v t e);
            engine_inv := queue_inv;
            engine_pending := queue_pending |}.
  - split; [by constructor|by intros [] k].
  - intros e key value t He _ Hv. pose proof (queue_insert_ok key value t e He Hv) as H.
    destruct (queue_insert key value t e) as [r e']. eauto.
Defined.
End Queue.

(** With the erased node intact, every run of the list-based engine from its
    initial state succeeds, and pairs the i-th send of a key with the i-th
    receive of that key; what is left over waits in order. *)
Theorem queue_engine_fifo read_erased
    (erased_intact : forall it, read_erased it = e_value it) ops :
  Forall valid_insertion ops ->
  exists rs e', @engine_run _ (queue_engine read_erased erased_intact) ops queue_engine_new
                = Ok (rs, e')
    /\ fifo_matched ops rs (queue_pending e').
Proof. apply (@engine_run_fifo _ (queue_engine read_erased erased_intact)). Qed.

Lemma queue_engine_fifo_witness :
  exists rs e',
    @engine_run _ (queue_engine e_value (fun _ => eq_refl))
      [mk_insertion 5 100 me_send; mk_insertion 5 101 me_send; mk_insertion 5 200 me_recv]
      queue_engine_new = Ok (rs, e')
    /\ fifo_matched
         [mk_insertion 5 100 me_send; mk_insertion 5 101 me_send; mk_insertion 5 200 me_recv]
         rs (queue_pending e').
Proof.
  apply (queue_engine_fifo e_value (fun _ => eq_refl)).
  repeat constructor; simpl; unfold is_u64; lia.
Defined.

(** ** Whatever the freed node reads as *)

Fixpoint queue_run (read_erased : entry_t -> Z) (ops : list insertion) (e : matching_engine_queue_t) :
    list Z * matching_engine_queue_t :=
  match ops with
  | [] => ([], e)
  | op :: ops =>
      let '(r, e) := queue_insert read_erased (ins_key op) (ins_value op) (ins_type op) e in
      let '(rs, e) := queue_run read_erased ops e in (r :: rs, e)
  end.

(** What the engine returns where an intact node would give [r]. *)
Definition freed_read (read_erased : entry_t -> Z) (key r : Z) : Z :=
  if r =? 0 then 0 else read_erased (mk_qentry key r).
Lemma search_reads read_erased q key : Forall (fun it => e_value it <> 0) q ->
  search read_erased q key = (freed_read read_erased key (search e_value q key).1, (search e_value q key).2).
Proof.
  induction 1 as [|it q Hv _ IH]; [done|]. cbn [search]. destruct (Z.eqb_spec (e_key it) key) as [E|E].
  - unfold freed_read. cbn. rewrite (proj2 (Z.eqb_neq _ _) Hv), <- E. by destruct it.
  - rewrite IH. by destruct (search e_value q key).
Qed.
(** The engine moves as with an intact node, unless the read is null. *)
Lemma queue_insert_reads read_erased key value t e : queue_inv e ->
  let '(r, e') := queue_insert e_value key value t e in
  (queue_insert read_erased key value t e).1 = freed_read read_erased key r
  /\ (r = 0 \/ freed_read read_erased key r <> 0 -> (queue_insert read_erased key value t e).2 = e').
Proof.
  intros [Hs Hr]%Forall_app. unfold queue_insert. destruct t; rewrite (search_reads read_erased) by done;
    destruct (search e_value _ key) as [r q]; cbn [fst snd]; (split; [done|]);
    intros [->|Hn]; [done| |done|]; (destruct (Z.eqb_spec (freed_read read_erased key r) 0); [done|]);
    (destruct (Z.eqb_spec r 0) as [->|]; [done|done]).
Qed.
Lemma length_queue_run read_erased ops e : length (queue_run read_erased ops e).1 = length ops.
Proof.
  revert e. induction ops as [|op ops IH]; intros e; [done|]. cbn [queue_run]. destruct (queue_insert _ _ _ _ e) as [r e'].
  specialize (IH e'). destruct (queue_run read_erased ops e'). cbn in *. lia.
Qed.
Lemma queue_run_reads read_erased ops : forall e, queue_inv e -> Forall valid_insertion ops ->
  forall i op r, ops !! i = Some op -> (queue_run e_value ops e).1 !! i = Some r ->
    (forall j op' r', (j < i)%nat -> ops !! j = Some op' -> (queue_run e_value ops e).1 !! j = Some r' -> r' <> 0 ->
       freed_read read_erased (ins_key op') r' <> 0) ->
    (queue_run read_erased ops e).1 !! i = Some (freed_read read_erased (ins_key op) r).
Proof.
  induction ops as [|op ops IH]; intros e He Hops i o r Ho; [done|]. apply Forall_cons in Hops as [[_ Hv] Hops]. cbn [queue_run].
  pose proof (queue_insert_reads read_erased (ins_key op) (ins_value op) (ins_type op) e He) as Hi.
  pose proof (queue_insert_ok e_value (fun _ => eq_refl) (ins_key op) (ins_value op) (ins_type op) e He Hv) as Hok.
  destruct (queue_insert e_value _ _ _ e) as [r0 e1], (queue_insert read_erased _ _ _ e) as [q0 e2]. cbn [fst snd] in Hi.
  destruct Hi as [-> Hsame], Hok as [He1 _]. specialize (IH e1 He1 Hops).
  destruct (queue_run e_value ops e1) as [rs e3] eqn:E1, (queue_run read_erased ops e2) as [qs e4] eqn:E2. cbn [fst] in *.
  destruct i as [|i]; cbn [lookup list_lookup] in *.
  - intros [= ->] _. by injection Ho as ->.
  - intros Hr Hall. destruct (decide (r0 = 0)) as [->|Hn].
    + assert (e2 = e1) as -> by auto. rewrite E2 in IH. cbn [fst] in IH. apply IH; [done..|].
      intros j op' r' Hj. apply (Hall (S j)). lia.
    + assert (e2 = e1) as -> by (apply Hsame; right; by apply (Hall 0%nat op r0); [lia|..]). rewrite E2 in IH. cbn [fst] in IH.
      apply IH; [done..|]. intros j op' r' Hj. apply (Hall (S j)). lia.
Qed.
Lemma queue_run_engine ops : forall e rs e',
  @engine_run _ (queue_engine e_value (fun _ => eq_refl)) ops e = Ok (rs, e') -> queue_run e_value ops e = (rs, e').
Proof.
  induction ops as [|op ops IH]; intros e rs e' H; cbn [engine_run queue_run] in *; [by injection H as <- <-|].
  apply bind_Ok in H as ([r e1] & [= H1] & H). rewrite H1. apply bind_Ok in H as ([rs1 e2] & H2 & [= <- <-]). by rewrite (IH _ _ _ H2).
Qed.

(** A match in the list-based engine returns what a read of the freed list
    node yields: whatever that is, it is the result, and the matched value
    itself plays no part. *)
Theorem queue_match_reads_freed_node read_erased key w v q :
  fst (queue_insert read_erased key v me_recv (mk_queue_engine (mk_qentry key w :: q) []))
  = read_erased (mk_qentry key w).
Proof. unfold queue_insert; simpl. by rewrite Z.eqb_refl. Qed.
