(* ===== verification/MatchMap.v ===== *)
(** * The hash-table matching engine
    (src/src/matching_engine/matching_engine_map.hpp)

    A table of 2^16 bucket chains; a bucket is an array of queues, a queue holds
    the waiting entries of one key and one kind, first in two inline slots, then
    in a chain of nodes of seven values. [insert] runs with the lock of the
    master bucket, so an operation is one step. The union of slots and node
    chain is [storage]; reading the arm that was not written is undefined, as is
    following a null node. The node chain of a queue is the list of its nodes
    from [head] to [tail]. *)
From stdpp Require Import base numbers list gmap sets strings.
From Stdlib Require Import ZArith Lia.
From S2P Require Import Prelude MatchSpec.

Definition NODE_NUM_VALUES : nat := 7.
Definition SLOT_NUM_VALUES : nat := 2.
Definition BUCKET_NUM_QUEUES_DEFAULT : nat := 3.
Definition TABLE_BIT_SIZE : Z := 16.

Definition VALUE_EMPTY : Z := 0.

(** [node_t]: its values; [next] is the position in the chain. *)
Definition node_new : list Z := replicate NODE_NUM_VALUES VALUE_EMPTY.

Inductive storage : Type :=
  | Slots (slots : list Z)
  | Chain (nodes : list (list Z)).

Record queue_t : Type := mk_queue {
  is_empty : bool;
  is_queue : bool;
  q_type : matching_entry_type_t;
  q_key : Z;
  q_store : storage
}.

(** The constructor; [type] and [key] are not initialised by the code and are
    not read while [is_empty]. *)
Definition queue_new : queue_t :=
  mk_queue true false me_send 0 (Slots (replicate SLOT_NUM_VALUES VALUE_EMPTY)).

Definition with_store (empty isq : bool) (st : storage) (q : queue_t) : queue_t :=
  mk_queue empty isq (q_type q) (q_key q) st.

(** The loop of [pop] over an array: takes the first value that is not empty
    and counts the others. *)
Fixpoint take_first (values : list Z) (ret : Z) : Z * list Z * nat :=
  match values with
  | [] => (ret, [], 0%nat)
  | v :: values =>
      if v =? VALUE_EMPTY then
        let '(r, vs, n) := take_first values ret in (r, v :: vs, n)
      else if ret =? VALUE_EMPTY then
        let '(r, vs, n) := take_first values v in (r, VALUE_EMPTY :: vs, n)
      else
        let '(r, vs, n) := take_first values ret in (r, v :: vs, S n)
  end.

(** The values a node still holds, copied into the slots. *)
Definition node_to_slots (node : list Z) : list Z :=
  let values := filter (fun v => v <> VALUE_EMPTY) node in
  values ++ replicate (SLOT_NUM_VALUES - length values) VALUE_EMPTY.

Definition queue_pop (q : queue_t) : result (Z * queue_t) :=
  if negb (is_queue q) then
    match q_store q with
    | Slots slots =>
        let '(ret, slots, others) := take_first slots VALUE_EMPTY in
        Ok (ret, with_store (if (others =? 0)%nat then true else is_empty q) false
                            (Slots slots) q)
    | Chain _ => Err (Undefined "slots of a linked queue")
    end
  else
    match q_store q with
    | Chain (head :: next) =>
        let '(ret, head, nlefts) := take_first head VALUE_EMPTY in
        if (nlefts =? 0)%nat then
          Ok (ret, with_store (match next with [] => true | _ => is_empty q end) true
                              (Chain next) q)
        else if (nlefts <=? SLOT_NUM_VALUES)%nat && (match next with [] => true | _ => false end)
        then Ok (ret, with_store (is_empty q) false (Slots (node_to_slots head)) q)
        else Ok (ret, with_store (is_empty q) true (Chain (head :: next)) q)
    | Chain [] => Err (Undefined "null list head")
    | Slots _ => Err (Undefined "list of an inline queue")
    end.

(** The first empty cell of an array. *)
Fixpoint fill_first (slots : list Z) (value : Z) : list Z :=
  match slots with
  | [] => []
  | v :: slots => if v =? VALUE_EMPTY then value :: slots else v :: fill_first slots value
  end.

(** The backwards loop of [push]: [i] counts down, [empty_slot] is the last
    empty index seen. *)
Fixpoint trailing_slot (node : list Z) (i empty_slot : nat) : nat :=
  match i with
  | O => empty_slot
  | S i => if default VALUE_EMPTY (node !! i) =? VALUE_EMPTY
           then trailing_slot node i i else empty_slot
  end.

Definition queue_push (value : Z) (q : queue_t) : result queue_t :=
  if negb (is_queue q) then
    match q_store q with
    | Slots slots =>
        if negb (default VALUE_EMPTY (slots !! (SLOT_NUM_VALUES - 1)%nat) =? VALUE_EMPTY) then
          let new_node := slots ++ value
                            :: replicate (NODE_NUM_VALUES - SLOT_NUM_VALUES - 1) VALUE_EMPTY in
          Ok (with_store (is_empty q) true (Chain [new_node]) q)
        else Ok (with_store (is_empty q) false (Slots (fill_first slots value)) q)
    | Chain _ => Err (Undefined "slots of a linked queue")
    end
  else
    match q_store q with
    | Chain nodes =>
        match last nodes with
        | Some tail =>
            if negb (default VALUE_EMPTY (tail !! (NODE_NUM_VALUES - 1)%nat) =? VALUE_EMPTY) then
              Ok (with_store (is_empty q) true
                    (Chain (nodes ++ [<[0%nat := value]> node_new])) q)
            else
              let empty_slot := trailing_slot tail NODE_NUM_VALUES (NODE_NUM_VALUES - 1) in
              Ok (with_store (is_empty q) true
                    (Chain (<[(length nodes - 1)%nat := <[empty_slot := value]> tail]> nodes)) q)
        | None => Err (Undefined "null list tail")
        end
    | Slots _ => Err (Undefined "list of an inline queue")
    end.

Definition queue_setup (key : Z) (type : matching_entry_type_t) (value : Z) (q : queue_t) :
    queue_t :=
  mk_queue false false type key
    (Slots (value :: replicate (SLOT_NUM_VALUES - 1) VALUE_EMPTY)).

(** ** Buckets and the table *)

Definition bucket_t : Type := list queue_t.
Definition bucket_new (nqueues : nat) : bucket_t := replicate nqueues queue_new.

Definition hash_step (hash k i : Z) : Z :=
  u32 (Z.lxor (Z.land (Z.shiftr k i) 255) hash * 16777619).
Definition hash_fn (k : Z) : Z :=
  let hash := hash_step 2166136261 k 0 in
  let hash := hash_step hash k 8 in
  let hash := hash_step hash k 16 in
  let hash := hash_step hash k 24 in
  let hash := hash_step hash k 32 in
  let hash := hash_step hash k 40 in
  let hash := hash_step hash k 48 in
  let hash := hash_step hash k 56 in
  Z.land (Z.lxor (Z.shiftr hash TABLE_BIT_SIZE) hash) (2 ^ TABLE_BIT_SIZE - 1).

(** A queue of a chain: the bucket and the index in it. *)
Definition position : Type := nat * nat.

(** The scan of one bucket: whether it counts as nonempty, the queue of the key
    (and whether it is of the target kind), and the first empty queue so far. *)
Fixpoint scan_bucket (key : Z) (target_type : matching_entry_type_t) (b i : nat)
    (queues : bucket_t) (nonempty : bool) (first_empty : option position) :
    bool * option (bool * position) * option position :=
  match queues with
  | [] => (nonempty, None, first_empty)
  | q :: queues =>
      if is_empty q then
        match first_empty with
        | None => scan_bucket key target_type b (S i) queues true (Some (b, i))
        | Some _ => scan_bucket key target_type b (S i) queues nonempty first_empty
        end
      else if q_key q =? key then
        (true, Some (bool_decide (q_type q = target_type), (b, i)), first_empty)
      else scan_bucket key target_type b (S i) queues true first_empty
  end.

(** The search loop of [insert]: [prev] are the buckets kept so far. A bucket
    other than the master that counts as empty is unlinked and freed. *)
Fixpoint search_chain (key : Z) (target_type : matching_entry_type_t)
    (prev rest : list bucket_t) (first_empty : option position) :
    list bucket_t * option (bool * position) * option position :=
  match rest with
  | [] => (prev, None, first_empty)
  | bucket :: rest =>
      let '(nonempty, found, first_empty) :=
        scan_bucket key target_type (length prev) 0 bucket false first_empty in
      match found with
      | Some f => (prev ++ bucket :: rest, Some f, first_empty)
      | None =>
          if negb nonempty && negb (length prev =? 0)%nat
          then search_chain key target_type prev rest first_empty
          else search_chain key target_type (prev ++ [bucket]) rest first_empty
      end
  end.

Definition queue_at (chain : list bucket_t) (p : position) : option queue_t :=
  bucket ← chain !! fst p ; bucket !! snd p.
Definition set_queue (p : position) (q : queue_t) (chain : list bucket_t) : list bucket_t :=
  match chain !! fst p with
  | Some bucket => <[fst p := <[snd p := q]> bucket]> chain
  | None => chain
  end.

Definition chain_insert (key value : Z) (type : matching_entry_type_t) (chain : list bucket_t) :
    result (Z * list bucket_t) :=
  let target_type := flip_type type in
  let '(chain, found, first_empty) := search_chain key target_type [] chain None in
  match found with
  | Some (true, p) =>
      match queue_at chain p with
      | Some q => '(ret, q) ← queue_pop q ; Ok (ret, set_queue p q chain)
      | None => Err (Undefined "queue pointer")
      end
  | Some (false, p) =>
      match queue_at chain p with
      | Some q => q ← queue_push value q ; Ok (0, set_queue p q chain)
      | None => Err (Undefined "queue pointer")
      end
  | None =>
      let '(chain, p) :=
        match first_empty with
        | Some p => (chain, p)
        | None =>
            let nqueues := (length (default [] (last chain)) * 2 + 1)%nat in
            (chain ++ [bucket_new nqueues], (length chain, 0%nat))
        end in
      match queue_at chain p with
      | Some q => Ok (0, set_queue p (queue_setup key type value q) chain)
      | None => Err (Undefined "queue pointer")
      end
  end.

(** The table maps a bucket index to its chain; a chain that was never touched
    is the master bucket the constructor builds. *)
Record matching_engine_map_t : Type := mk_map_engine { table : gmap Z (list bucket_t) }.
Definition map_engine_new : matching_engine_map_t := mk_map_engine ∅.
Definition get_chain (e : matching_engine_map_t) (i : Z) : list bucket_t :=
  default [bucket_new BUCKET_NUM_QUEUES_DEFAULT] (table e !! i).

Definition map_insert (key value : Z) (type : matching_entry_type_t)
    (e : matching_engine_map_t) : result (Z * matching_engine_map_t) :=
  let bucket_idx := hash_fn key in
  '(ret, chain) ← chain_insert key value type (get_chain e bucket_idx) ;
  Ok (ret, mk_map_engine (<[bucket_idx := chain]> (table e))).

(** ** Queues hold their values in order *)

Definition nz (l : list Z) : list Z := filter (fun v => v <> VALUE_EMPTY) l.

Lemma nz_app l m : nz (l ++ m) = nz l ++ nz m.
Proof. apply filter_app. Qed.
Lemma nz_replicate n : nz (replicate n VALUE_EMPTY) = [].
Proof. induction n; [done|]. simpl. unfold nz. by rewrite filter_cons_False by naive_solver. Qed.
Lemma nz_cons v l : nz (v :: l) = if decide (v = VALUE_EMPTY) then nz l else v :: nz l.
Proof. unfold nz. rewrite filter_cons. by repeat case_decide. Qed.
Lemma nz_nonzero l : Forall (fun v => v <> 0) (nz l).
Proof. apply Forall_forall. intros v Hv. by apply list_elem_of_filter in Hv as [? _]. Qed.
Lemma nz_id l : Forall (fun v => v <> 0) l -> nz l = l.
Proof.
  induction 1 as [|v l Hv _ IH]; [done|]. by rewrite nz_cons, decide_False, IH.
Qed.
Lemma nz_idem l : nz (nz l) = nz l.
Proof. apply nz_id, nz_nonzero. Qed.

Definition contents (q : queue_t) : list Z :=
  if is_empty q then []
  else match q_store q with
       | Slots slots => nz slots
       | Chain nodes => nz (concat nodes)
       end.

Definition node_ok (n : list Z) : Prop := length n = NODE_NUM_VALUES /\ nz n <> [].

Definition queue_ok (q : queue_t) : Prop :=
  is_empty q = false ->
  match is_queue q, q_store q with
  | false, Slots slots => length slots = SLOT_NUM_VALUES /\ nz slots <> []
  | true, Chain nodes => nodes <> [] /\ Forall node_ok nodes
  | _, _ => False
  end.

Lemma take_first_got l r : r <> 0 -> take_first l r = (r, l, length (nz l)).
Proof.
  intros Hr. induction l as [|v l IH]; simpl; [done|]. rewrite nz_cons, IH.
  unfold VALUE_EMPTY. rewrite (proj2 (Z.eqb_neq r 0) Hr).
  destruct (Z.eqb_spec v 0); case_decide; done.
Qed.

Lemma take_first_spec l w ws :
  nz l = w :: ws ->
  exists l', take_first l VALUE_EMPTY = (w, l', length ws)
    /\ nz l' = ws /\ length l' = length l.
Proof.
  revert w ws. induction l as [|v l IH]; intros w ws; [done|].
  rewrite nz_cons. simpl. destruct (Z.eqb_spec v VALUE_EMPTY) as [->|Hv].
  - rewrite decide_True by done. intros (l' & -> & Hl' & Hlen)%IH.
    eexists. split_and!; [done| |by simpl; rewrite Hlen].
    by rewrite nz_cons, decide_True.
  - rewrite decide_False by done. intros [= <- <-]. rewrite take_first_got by done.
    eexists. split_and!; [done| |done]. by rewrite nz_cons, decide_True.
Qed.

Lemma node_to_slots_spec n :
  (length (nz n) <= SLOT_NUM_VALUES)%nat ->
  nz (node_to_slots n) = nz n /\ length (node_to_slots n) = SLOT_NUM_VALUES.
Proof.
  intros Hn. unfold node_to_slots. fold (nz n).
  rewrite nz_app, nz_replicate, app_nil_r, length_app, length_replicate.
  split; [apply nz_idem|lia].
Qed.

(** [pop] takes the oldest value, and marks the queue empty exactly when it was
    the last one. *)
Lemma queue_pop_spec q w ws :
  queue_ok q -> contents q = w :: ws ->
  exists q', queue_pop q = Ok (w, q') /\ queue_ok q' /\ contents q' = ws
    /\ is_empty q' = bool_decide (ws = []) /\ q_key q' = q_key q /\ q_type q' = q_type q.
Proof.
  unfold queue_ok, contents, queue_pop. intros Hok Hc.
  destruct (is_empty q) eqn:Ee; [done|]. specialize (Hok eq_refl).
  destruct (is_queue q), (q_store q) as [slots|nodes]; simpl; try done.
  - destruct nodes as [|n ns]; [by destruct Hok|].
    destruct Hok as [_ [[Hl Hn] Hns]%Forall_cons]. simpl in Hc. rewrite nz_app in Hc.
    destruct (nz n) as [|w' ws'] eqn:En; [done|].
    injection Hc as -> <-. destruct (take_first_spec n w ws' En) as (n' & -> & Hn' & Hlen).
    assert (Hrest : ns = [] \/ nz (concat ns) <> []).
    { destruct ns as [|m ms]; [by left|right]. simpl. rewrite nz_app.
      apply Forall_cons in Hns as [[_ Hm] _]. by destruct (nz m). }
    destruct ws' as [|x xs]; cbn [length Nat.eqb].
    + eexists. split_and!; [done|..]; simpl; try done.
      * destruct ns; [done|]. intros _. done.
      * by destruct ns.
      * destruct ns; [done|]. destruct Hrest as [?|Hrest]; [done|].
        by rewrite bool_decide_eq_false_2.
    + match goal with |- context [if ?b && ?c then _ else _] => destruct (b && c) eqn:E2 end.
      * apply andb_prop in E2 as [E2 E3]. destruct ns; [|done].
        apply Nat.leb_le in E2.
        destruct (node_to_slots_spec n') as [Hs1 Hs2]; [by rewrite Hn'|].
        eexists. split_and!; [done|..]; simpl; try done.
        -- intros _. split; [done|]. by rewrite Hs1, Hn'.
        -- by rewrite Hs1, Hn', app_nil_r.
      * eexists. split_and!; [done|..]; simpl; try done.
        -- intros _. split; [done|]. constructor; [|done].
           split; [congruence|]. by rewrite Hn'.
        -- by rewrite nz_app, Hn'.
  - destruct Hok as [Hl Hn]. destruct (take_first_spec slots w ws Hc) as (s' & -> & Hs' & Hlen).
    eexists. split_and!; [done|..]; simpl; try done.
    + destruct ws; simpl; [done|]. intros _. split; [congruence|]. by rewrite Hs'.
    + by destruct ws.
    + by destruct ws.
Qed.

Lemma nz_zeros l : Forall (fun v => v = 0) l -> nz l = [].
Proof. induction 1 as [|v l -> _ IH]; [done|]. by rewrite nz_cons, decide_True. Qed.

Lemma trailing_slot_spec node i :
  (i <= length node)%nat -> Forall (fun v => v = 0) (drop i node) ->
  (trailing_slot node i i <= i)%nat
  /\ Forall (fun v => v = 0) (drop (trailing_slot node i i) node).
Proof.
  induction i as [|i IH]; intros Hi Hz; simpl; [done|].
  destruct (Z.eqb_spec (default VALUE_EMPTY (node !! i)) VALUE_EMPTY) as [E|]; [|done].
  destruct IH as [IH1 IH2]; [lia| |split; [lia|done]].
  destruct (lookup_lt_is_Some_2 node i) as [x Hx]; [lia|].
  rewrite Hx in E. simpl in E. subst x.
  rewrite (drop_S _ _ _ Hx). by constructor.
Qed.

(** Writing the first trailing cell of a node appends to its values. *)
Lemma nz_insert_trailing node e v :
  (e < length node)%nat -> Forall (fun x => x = 0) (drop e node) -> v <> 0 ->
  nz (<[e := v]> node) = nz node ++ [v].
Proof.
  intros He Hz Hv. rewrite insert_take_drop, nz_app, nz_cons, decide_False by done.
  destruct (lookup_lt_is_Some_2 node e He) as [x Hx].
  rewrite (drop_S _ _ _ Hx) in Hz. apply Forall_cons in Hz as [-> Hz].
  rewrite <-(take_drop_middle _ _ _ Hx) at 3.
  rewrite nz_app, nz_cons, decide_True, (nz_zeros _ Hz), app_nil_r by done. done.
Qed.

Lemma fill_first_spec slots v :
  length slots = SLOT_NUM_VALUES -> nz slots <> [] ->
  slots !! (SLOT_NUM_VALUES - 1)%nat = Some 0 -> v <> 0 ->
  nz (fill_first slots v) = nz slots ++ [v] /\ length (fill_first slots v) = SLOT_NUM_VALUES.
Proof.
  destruct slots as [|a [|b [|]]]; simpl; try done. intros _ Hn [= ->] Hv.
  destruct (Z.eqb_spec a VALUE_EMPTY) as [->|Ha]; [by destruct Hn|]. simpl.
  rewrite !nz_cons. by rewrite !(decide_False (P := a = _)), !(decide_False (P := v = _)),
    decide_True.
Qed.

Lemma nz_concat_last nodes tail n' :
  last nodes = Some tail ->
  nz (concat (<[(length nodes - 1)%nat := n']> nodes))
  = nz (concat (take (length nodes - 1) nodes)) ++ nz n'
  /\ nz (concat nodes) = nz (concat (take (length nodes - 1) nodes)) ++ nz tail.
Proof.
  intros Hl. destruct nodes as [|n0 ns] using rev_ind; [done|].
  rewrite last_snoc in Hl. injection Hl as ->.
  rewrite length_app; simpl. replace (length ns + 1 - 1)%nat with (length ns + 0)%nat by lia.
  rewrite insert_app_r; simpl.
  rewrite take_app_length', !concat_app, !nz_app by lia. simpl. by rewrite !app_nil_r.
Qed.

#[local] Arguments trailing_slot : simpl never.

Lemma push_tail tail v :
  length tail = NODE_NUM_VALUES -> tail !! 6%nat = Some VALUE_EMPTY -> v <> 0 ->
  nz (<[trailing_slot tail NODE_NUM_VALUES (NODE_NUM_VALUES - 1) := v]> tail)
  = nz tail ++ [v].
Proof.
  intros Hl Hx Hv. unfold NODE_NUM_VALUES in *.
  change (trailing_slot tail 7 (7 - 1)) with
    (if default VALUE_EMPTY (tail !! 6%nat) =? VALUE_EMPTY
     then trailing_slot tail 6 6 else 6%nat). rewrite Hx. simpl.
  destruct (trailing_slot_spec tail 6) as [He1 He2]; [lia| |].
  - rewrite (drop_S _ _ _ Hx). constructor; [done|]. by rewrite drop_ge by lia.
  - apply nz_insert_trailing; [|done|done]. lia.
Qed.
(** [push] appends to the values. *)
Lemma queue_push_spec q v :
  queue_ok q -> is_empty q = false -> v <> 0 ->
  exists q', queue_push v q = Ok q' /\ queue_ok q' /\ contents q' = contents q ++ [v]
    /\ is_empty q' = false /\ q_key q' = q_key q /\ q_type q' = q_type q.
Proof.
  unfold queue_ok, contents, queue_push. intros Hok Ee Hv. specialize (Hok Ee).
  destruct (is_queue q), (q_store q) as [slots|nodes]; simpl; try done.
  - destruct Hok as [Hne Hns]. destruct (last nodes) as [tail|] eqn:El; cycle 1.
    { by apply last_None in El. }
    destruct (proj1 (Forall_forall _ _) Hns tail (last_Some_elem_of _ _ El)) as [Htl Htn].
    destruct (lookup_lt_is_Some_2 tail 6) as [x Hx]; [rewrite Htl; unfold NODE_NUM_VALUES; lia|].
    rewrite Hx; simpl. destruct (Z.eqb_spec x VALUE_EMPTY) as [->|Hx0]; simpl.
    + pose proof (push_tail tail v Htl Hx Hv) as Hins. set (e := trailing_slot _ _ _) in *.
      destruct (nz_concat_last nodes tail (<[e := v]> tail) El) as [Hc1 Hc2].
      eexists. split_and!; [done|..]; simpl; try done; rewrite Ee.
      * intros _. split.
        { intros E%(f_equal length). rewrite length_insert in E. by destruct nodes. }
        apply Forall_insert; [done|].
        split; [by rewrite length_insert|]. rewrite Hins. by destruct (nz tail).
      * by rewrite Hc1, Hc2, Hins, app_assoc.
    + eexists. split_and!; [done|..]; simpl; try done; rewrite Ee.
      * intros _. split; [by destruct nodes|]. apply Forall_app_2; [done|].
        constructor; [|done]. split; [done|]. simpl. by rewrite nz_cons, decide_False.
      * rewrite concat_app, nz_app. simpl. by rewrite nz_cons, decide_False.
  - destruct Hok as [Hl Hn].
    destruct (lookup_lt_is_Some_2 slots 1) as [x Hx]; [rewrite Hl; unfold SLOT_NUM_VALUES; lia|].
    rewrite Hx; simpl. destruct (Z.eqb_spec x VALUE_EMPTY) as [->|Hx0]; simpl.
    + destruct (fill_first_spec slots v Hl Hn Hx Hv) as [Hf1 Hf2].
      eexists. split_and!; [done|..]; simpl; try done; rewrite Ee; [|done].
      intros _. split; [done|]. rewrite Hf1. by destruct (nz slots).
    + eexists. split_and!; [done|..]; simpl; try done; rewrite Ee.
      * intros _. split; [done|]. constructor; [|done].
        split; [rewrite length_app; simpl; by rewrite Hl|].
        rewrite nz_app. by destruct (nz slots).
      * rewrite app_nil_r, nz_app, nz_cons, decide_False by done.
        done.
Qed.

(** ** Chains *)

Definition live (qs : list queue_t) : list queue_t := filter (fun q => is_empty q = false) qs.

Lemma live_app l m : live (l ++ m) = live l ++ live m.
Proof. apply filter_app. Qed.
Lemma live_cons q l : live (q :: l) = if is_empty q then live l else q :: live l.
Proof. unfold live. rewrite filter_cons. destruct (is_empty q); by case_decide. Qed.
Lemma elem_of_live q l : q ∈ live l <-> is_empty q = false /\ q ∈ l.
Proof. unfold live. by rewrite list_elem_of_filter. Qed.

(** What one queue holds for a kind and a key. *)
Definition held (t : matching_entry_type_t) (k : Z) (q : queue_t) : list Z :=
  if decide (q_key q = k /\ q_type q = t) then contents q else [].

Definition queues_pending (qs : list queue_t) : pending_t := fun t k => live qs ≫= held t k.

(** Every queue is well formed, and a key has at most one live queue. *)
Definition queues_ok (qs : list queue_t) : Prop :=
  Forall queue_ok qs /\ NoDup (q_key <$> live qs).

(** One queue of a chain is replaced in place. *)
Lemma queue_at_split chain p q :
  queue_at chain p = Some q ->
  exists l1 l2, concat chain = l1 ++ q :: l2
    /\ forall q', concat (set_queue p q' chain) = l1 ++ q' :: l2.
Proof.
  unfold queue_at, set_queue. destruct p as [b i]; simpl.
  intros (bk & Hb & Hi)%bind_Some.
  assert (Hlt : (b < length chain)%nat) by (by eapply lookup_lt_Some).
  exists (concat (take b chain) ++ take i bk), (drop (S i) bk ++ concat (drop (S b) chain)).
  split.
  - rewrite <-(take_drop_middle _ _ _ Hb) at 1. rewrite concat_app. simpl.
    rewrite <-(take_drop_middle _ _ _ Hi) at 1. by rewrite <-!app_assoc.
  - intros q'. rewrite Hb, insert_take_drop, concat_app by done. simpl.
    rewrite (insert_take_drop bk) by (by eapply lookup_lt_Some).
    by rewrite <-!app_assoc.
Qed.

Lemma scan_bucket_spec key tt b qs : forall i ne fe ne' found fe',
  scan_bucket key tt b i qs ne fe = (ne', found, fe') ->
  match found with
  | Some (is_target, p) => exists j q, p = (b, i + j)%nat /\ qs !! j = Some q
      /\ is_empty q = false /\ q_key q = key /\ is_target = bool_decide (q_type q = tt)
  | None => (forall q, q ∈ live qs -> q_key q <> key)
      /\ (ne' = false -> live qs = [] /\ fe' = fe)
      /\ (ne = true -> ne' = true)
      /\ (fe' = fe \/ exists j q, fe' = Some (b, i + j)%nat /\ qs !! j = Some q
                           /\ is_empty q = true)
  end.
Proof.
  induction qs as [|q qs IH]; intros i ne fe ne' found fe'; simpl.
  { intros [= <- <- <-]. split_and!; [set_solver|done|done|by left]. }
  assert (Hshift : forall j, (i + S j = S i + j)%nat) by lia.
  destruct (is_empty q) eqn:Ee.
  - intros H.
    assert (exists ne1 fe1, scan_bucket key tt b (S i) qs ne1 fe1 = (ne', found, fe')
      /\ (ne = true -> ne1 = true)
      /\ (ne1 = false -> fe1 = fe) /\ (fe1 = fe \/ fe1 = Some (b, i)))
      as (ne1 & fe1 & H1 & Hne & Hfe & Hor).
    { destruct fe; eexists _, _; (split; [exact H|]); split_and!; auto; done. }
    apply IH in H1. rewrite live_cons, Ee. destruct found as [[is_t p]|].
    + destruct H1 as (j & q0 & -> & ?). exists (S j), q0. by rewrite Hshift.
    + destruct H1 as (Hk & H0 & Hn1 & Hp). split_and!; [done| |auto|].
      * intros E. destruct (H0 E) as [? ->]. split; [done|]. apply Hfe.
        destruct ne1; [|done]. by rewrite Hn1 in E.
      * destruct Hp as [->|(j & q0 & -> & ?)].
        -- destruct Hor as [-> | ->]; [by left|right]. exists 0%nat, q.
           by rewrite Nat.add_0_r.
        -- right. exists (S j), q0. by rewrite Hshift.
  - destruct (Z.eqb_spec (q_key q) key) as [Ek|Ek].
    + intros [= <- <- <-]. exists 0%nat, q. by rewrite Nat.add_0_r.
    + intros H1%IH. rewrite live_cons, Ee. destruct found as [[is_t p]|].
      * destruct H1 as (j & q0 & -> & ?). exists (S j), q0. by rewrite Hshift.
      * destruct H1 as (Hk & H0 & Hn1 & Hp). split_and!; [set_solver| |auto|].
        -- intros E. by rewrite Hn1 in E.
        -- destruct Hp as [->|(j & q0 & -> & ?)]; [by left|right].
           exists (S j), q0. by rewrite Hshift.
Qed.

Lemma queue_at_app chain rest p q :
  queue_at chain p = Some q -> queue_at (chain ++ rest) p = Some q.
Proof.
  unfold queue_at. intros (bk & Hb & Hi)%bind_Some. apply bind_Some. exists bk.
  split; [|done]. by apply lookup_app_l_Some.
Qed.

Lemma queue_at_middle (prev rest : list bucket_t) (bucket : bucket_t) j q :
  bucket !! j = Some q -> queue_at (prev ++ bucket :: rest) (length prev, j) = Some q.
Proof. intros H. unfold queue_at; simpl. by rewrite list_lookup_middle. Qed.

(** The search drops only empty queues, and finds the live queue of the key if
    there is one; otherwise the empty queue it reports is one of the chain. *)
Lemma search_chain_spec key tt rest : forall prev fe chain' found fe',
  (forall p, fe = Some p -> exists q, queue_at prev p = Some q /\ is_empty q = true) ->
  (forall q, q ∈ live (concat prev) -> q_key q <> key) ->
  search_chain key tt prev rest fe = (chain', found, fe') ->
  live (concat chain') = live (concat (prev ++ rest))
  /\ (forall q, q ∈ concat chain' -> q ∈ concat (prev ++ rest))
  /\ match found with
     | Some (is_target, p) => exists q, queue_at chain' p = Some q
         /\ is_empty q = false /\ q_key q = key /\ is_target = bool_decide (q_type q = tt)
     | None => (forall q, q ∈ live (concat chain') -> q_key q <> key)
         /\ (forall p, fe' = Some p -> exists q, queue_at chain' p = Some q /\ is_empty q = true)
     end.
Proof.
  induction rest as [|bucket rest IH]; intros prev fe chain' found fe' Hfe Hk; simpl.
  { intros [= <- <- <-]. by rewrite app_nil_r. }
  destruct (scan_bucket _ _ _ _ _ _ _) as [[ne fnd] fe1] eqn:E.
  apply scan_bucket_spec in E. destruct fnd as [[is_t p]|].
  - intros [= <- <- <-]. split_and!; [done..|]. destruct E as (j & q & -> & Hj & ?).
    exists q. split; [|done]. by apply queue_at_middle.
  - destruct E as (Hkb & Hemp & _ & Hp).
    destruct (negb ne && negb (length prev =? 0)%nat) eqn:Ec.
    + apply andb_prop in Ec as [Ene%negb_true_iff _]. destruct (Hemp Ene) as [Hl ->].
      intros (H1 & H2 & H3)%IH; [|done..]. split_and!; [| |done].
      * by rewrite H1, !concat_app, !live_app; simpl; rewrite live_app, Hl.
      * intros q Hq%H2. rewrite concat_app in *. simpl. set_solver.
    + intros H. apply IH in H.
      * by rewrite <-app_assoc in H.
      * intros p ->. destruct Hp as [<-|(j & q & [= ->] & Hj & ?)].
        -- destruct (Hfe p eq_refl) as (q & ? & ?). exists q. eauto using queue_at_app.
        -- exists q. split; [|done]. by apply queue_at_middle.
      * intros q. rewrite concat_app, live_app; simpl. rewrite app_nil_r. set_solver.
Qed.

(** ** Tables of one chain *)

Lemma queues_pending_split l1 q l2 t k :
  queues_pending (l1 ++ q :: l2) t k
  = queues_pending l1 t k ++ (if is_empty q then [] else held t k q) ++ queues_pending l2 t k.
Proof.
  unfold queues_pending. rewrite live_app, live_cons, bind_app.
  by destruct (is_empty q).
Qed.

Lemma queues_pending_none qs t k :
  (forall q, q ∈ live qs -> q_key q <> k) -> queues_pending qs t k = [].
Proof.
  unfold queues_pending. induction (live qs) as [|q l IH]; intros H; simpl; [done|].
  unfold held at 1. rewrite decide_False; [apply IH; set_solver|].
  intros [E _]. by apply (H q); [left|].
Qed.

(** With at most one live queue per key, the queue of a key is alone. *)
Lemma queues_ok_split l1 q l2 :
  queues_ok (l1 ++ q :: l2) -> is_empty q = false ->
  queue_ok q
  /\ (forall t, queues_pending l1 t (q_key q) = [] /\ queues_pending l2 t (q_key q) = [])
  /\ forall q', queue_ok q' -> q_key q' = q_key q \/ is_empty q' = true ->
       queues_ok (l1 ++ q' :: l2).
Proof.
  intros [Hok Hnd] Ee. apply Forall_app in Hok as [H1 [Hq H2]%Forall_cons].
  rewrite live_app, live_cons, Ee, fmap_app in Hnd. simpl in Hnd.
  pose proof Hnd as (Hn1 & Hx & Hn2)%NoDup_app.
  apply NoDup_cons in Hn2 as [Hx2 Hn2]. split_and!; [done| |].
  - intros t. split; apply queues_pending_none; intros q' Hq' E.
    + apply (Hx (q_key q')); [by apply list_elem_of_fmap_2|]. rewrite E. by left.
    + apply Hx2. rewrite <-E. by apply list_elem_of_fmap_2.
  - intros q' Hq' Hk. split; [apply Forall_app_2; [done|by constructor]|].
    rewrite live_app, live_cons, fmap_app. destruct (is_empty q') eqn:Ee'.
    + apply NoDup_app. split_and!; [done| |done]. intros x Hx1 Hx3.
      apply (Hx x Hx1). by right.
    + destruct Hk as [Hk|?]; [|done]. simpl. by rewrite Hk.
Qed.

Lemma queues_ok_setup l1 q l2 q' :
  queues_ok (l1 ++ q :: l2) -> is_empty q = true -> queue_ok q' ->
  (forall x, x ∈ live (l1 ++ l2) -> q_key x <> q_key q') ->
  queues_ok (l1 ++ q' :: l2).
Proof.
  intros [Hok Hnd] Ee Hq' Hk. apply Forall_app in Hok as [H1 [Hq H2]%Forall_cons].
  split; [apply Forall_app_2; [done|by constructor]|].
  rewrite live_app, live_cons, Ee, fmap_app in Hnd.
  pose proof Hnd as (Hn1 & Hx & Hn2)%NoDup_app.
  rewrite live_app, live_cons, fmap_app. destruct (is_empty q'); [done|]. simpl.
  setoid_rewrite live_app in Hk.
  apply NoDup_app. split_and!; [done| |apply NoDup_cons; split; [|done]].
  - intros x Hx1 Hin. apply list_elem_of_fmap in Hx1 as (y & -> & Hy).
    apply elem_of_cons in Hin as [E|Hin].
    + apply (Hk y); [set_solver|done].
    + apply (Hx (q_key y)); [by apply list_elem_of_fmap_2|done].
  - intros (y & E & Hy)%list_elem_of_fmap. apply (Hk y); [set_solver|done].
Qed.

Lemma contents_nonempty q : queue_ok q -> is_empty q = false -> contents q <> [].
Proof.
  unfold queue_ok, contents. intros Hok Ee. specialize (Hok Ee). rewrite Ee.
  destruct (is_queue q), (q_store q) as [slots|[|n ns]]; try naive_solver.
  destruct Hok as [_ [[_ Hn] _]%Forall_cons]. simpl. rewrite nz_app. by destruct (nz n).
Qed.

(** Replacing the live queue [q] of a key by a queue of the same key and kind
    changes the table at that key only. *)
Lemma replace_pending l1 q l2 q' :
  queues_ok (l1 ++ q :: l2) -> is_empty q = false ->
  q_key q' = q_key q -> q_type q' = q_type q ->
  queues_pending (l1 ++ q :: l2) (q_type q) (q_key q) = contents q
  /\ queues_pending (l1 ++ q :: l2) (flip_type (q_type q)) (q_key q) = []
  /\ queues_pending (l1 ++ q' :: l2)
     ≡ upd (queues_pending (l1 ++ q :: l2)) (q_type q) (q_key q) (contents q').
Proof.
  intros Hok Ee Hk Ht. destruct (queues_ok_split l1 q l2 Hok Ee) as (_ & Hnone & _).
  assert (Hc : is_empty q' = true -> contents q' = []) by (unfold contents; by intros ->).
  split_and!.
  - destruct (Hnone (q_type q)) as [H1 H2].
    rewrite queues_pending_split, H1, H2, Ee. simpl. unfold held.
    rewrite decide_True by done. apply app_nil_r.
  - destruct (Hnone (flip_type (q_type q))) as [H1 H2].
    rewrite queues_pending_split, H1, H2, Ee. unfold held.
    rewrite decide_False by (destruct (q_type q); naive_solver). done.
  - intros t k. unfold upd. rewrite !queues_pending_split, Ee. unfold held. rewrite Hk, Ht.
    destruct (decide (t = q_type q /\ k = q_key q)) as [[-> ->]|Hne].
    + destruct (Hnone (q_type q)) as [-> ->]. rewrite decide_True by done. simpl.
      rewrite app_nil_r. destruct (is_empty q'); [by rewrite Hc|done].
    + rewrite !decide_False by naive_solver. by destruct (is_empty q').
Qed.

(** Setting up an empty queue for a key that has no live queue. *)
Lemma setup_pending l1 q l2 key t v :
  is_empty q = true -> v <> 0 -> (forall x, x ∈ live (l1 ++ q :: l2) -> q_key x <> key) ->
  queues_pending (l1 ++ queue_setup key t v q :: l2)
  ≡ upd (queues_pending (l1 ++ q :: l2)) t key [v].
Proof.
  intros Ee Hv Hk t' k. unfold upd. rewrite !queues_pending_split, Ee. simpl.
  unfold held; simpl. destruct (decide (t' = t /\ k = key)) as [[-> ->]|Hne].
  - rewrite live_app, live_cons, Ee in Hk. rewrite decide_True by done.
    rewrite !queues_pending_none by set_solver. unfold contents; simpl.
    by rewrite nz_cons, decide_False.
  - by rewrite decide_False by naive_solver.
Qed.

Lemma queue_setup_ok key t v q : v <> 0 -> queue_ok (queue_setup key t v q).
Proof.
  intros Hv _. simpl. split; [done|]. by rewrite nz_cons, decide_False.
Qed.

Lemma live_new_bucket n : live (bucket_new n) = [].
Proof. unfold bucket_new. induction n; [done|]. simpl. by rewrite live_cons. Qed.

Lemma queues_ok_new_bucket qs n : queues_ok qs -> queues_ok (qs ++ bucket_new n).
Proof.
  intros [H1 H2]. split.
  - apply Forall_app_2; [done|]. apply Forall_replicate. done.
  - by rewrite live_app, live_new_bucket, app_nil_r.
Qed.

Lemma queues_pending_new_bucket qs n : queues_pending (qs ++ bucket_new n) = queues_pending qs.
Proof. unfold queues_pending. by rewrite live_app, live_new_bucket, app_nil_r. Qed.

(** The three endings of [insert] on the chain the search leaves. *)
Section Endings.
Context (key v : Z) (t : matching_entry_type_t) (chain : list bucket_t).
Hypothesis Hok : queues_ok (concat chain).
Hypothesis Hv : v <> 0.

(** The outcome of [insert] on this chain is the one of the contract. *)
Definition as_spec (res : result (Z * list bucket_t)) : Prop :=
  exists r chain', res = Ok (r, chain')
    /\ queues_ok (concat chain')
    /\ r = fst (spec_insert key v t (queues_pending (concat chain)))
    /\ queues_pending (concat chain') ≡ snd (spec_insert key v t (queues_pending (concat chain))).

Lemma chain_pop p q :
  queue_at chain p = Some q -> is_empty q = false -> q_key q = key -> q_type q = flip_type t ->
  as_spec ('(ret, q) ← queue_pop q ; Ok (ret, set_queue p q chain)).
Proof using Hok.
  intros Hq Ee Ek Et. destruct (queue_at_split _ _ _ Hq) as (l1 & l2 & Hc & Hset).
  unfold as_spec. rewrite Hc in *.
  destruct (queues_ok_split _ _ _ Hok Ee) as (Hqok & _ & Hok').
  destruct (contents q) as [|w ws] eqn:Ecq; [by apply contents_nonempty in Ecq|].
  destruct (queue_pop_spec q w ws Hqok Ecq) as (q' & -> & Hq' & Hcq' & _ & Hk' & Ht').
  destruct (replace_pending l1 q l2 q' Hok Ee Hk' Ht') as (Hp1 & _ & Hp2).
  rewrite Ek, Et, Ecq in *. simpl. eexists _, _. split; [done|]. rewrite Hset.
  unfold spec_insert. rewrite Hp1. simpl. split_and!; [|done|].
  - apply Hok'; [done|]. by left.
  - by rewrite Hp2, Hcq'.
Qed.

Lemma chain_push p q :
  queue_at chain p = Some q -> is_empty q = false -> q_key q = key -> q_type q = t ->
  as_spec (q ← queue_push v q ; Ok (0, set_queue p q chain)).
Proof using Hok Hv.
  intros Hq Ee Ek Et. destruct (queue_at_split _ _ _ Hq) as (l1 & l2 & Hc & Hset).
  unfold as_spec. rewrite Hc in *.
  destruct (queues_ok_split _ _ _ Hok Ee) as (Hqok & _ & Hok').
  destruct (queue_push_spec q v Hqok Ee Hv) as (q' & -> & Hq' & Hcq' & _ & Hk' & Ht').
  destruct (replace_pending l1 q l2 q' Hok Ee Hk' Ht') as (Hp1 & Hp0 & Hp2).
  rewrite Ek, Et in *. simpl. eexists _, _. split; [done|]. rewrite Hset.
  unfold spec_insert. rewrite Hp0. simpl. split_and!; [|done|].
  - apply Hok'; [done|]. by left.
  - by rewrite Hp2, Hcq', Hp1.
Qed.

Lemma chain_setup p q :
  queue_at chain p = Some q -> is_empty q = true ->
  (forall x, x ∈ live (concat chain) -> q_key x <> key) ->
  as_spec (Ok (0, set_queue p (queue_setup key t v q) chain)).
Proof using Hok Hv.
  intros Hq Ee Hk. destruct (queue_at_split _ _ _ Hq) as (l1 & l2 & Hc & Hset).
  unfold as_spec. rewrite Hc in *. eexists _, _. split; [done|]. rewrite Hset.
  unfold spec_insert. rewrite !(queues_pending_none _ _ key) by done. split_and!; [|done|].
  - eapply queues_ok_setup; [done..|by apply queue_setup_ok|].
    rewrite live_app, live_cons, Ee, <-live_app in Hk. done.
  - simpl. by apply setup_pending.
Qed.
End Endings.

Lemma chain_insert_spec key v t chain :
  queues_ok (concat chain) -> v <> 0 ->
  exists r chain', chain_insert key v t chain = Ok (r, chain')
    /\ queues_ok (concat chain')
    /\ r = fst (spec_insert key v t (queues_pending (concat chain)))
    /\ queues_pending (concat chain') ≡ snd (spec_insert key v t (queues_pending (concat chain))).
Proof.
  intros Hok Hv. unfold chain_insert.
  destruct (search_chain _ _ _ _ _) as [[chain1 found] fe] eqn:E.
  apply search_chain_spec in E as (Hl & Hsub & Hf); [|done|set_solver]. simpl in *.
  assert (Hok1 : queues_ok (concat chain1)).
  { split; [|rewrite Hl; apply Hok].
    apply Forall_forall. intros q Hq%Hsub. by apply (proj1 (Forall_forall _ _) (proj1 Hok)). }
  assert (Hp : queues_pending (concat chain) = queues_pending (concat chain1)).
  { unfold queues_pending. by rewrite Hl. }
  rewrite Hp. clear Hp Hl Hsub Hok.
  destruct found as [[is_target p]|].
  - destruct Hf as (q & Hq & Ee & Ek & ->). case_bool_decide as Et; rewrite Hq.
    + by eapply chain_pop.
    + eapply chain_push; try done. destruct t, (q_type q); done.
  - destruct Hf as [Hnone Hfe]. destruct fe as [p|].
    + destruct (Hfe p eq_refl) as (q & Hq & Ee). rewrite Hq. by eapply chain_setup.
    + set (n := (_ * 2 + 1)%nat).
      assert (Hq : queue_at (chain1 ++ [bucket_new n]) (length chain1, 0%nat) = Some queue_new).
      { apply queue_at_middle. by replace n with (S (n - 1)) by lia. }
      rewrite Hq. assert (Hcc : concat (chain1 ++ [bucket_new n]) = concat chain1 ++ bucket_new n).
      { rewrite concat_app. simpl. by rewrite app_nil_r. }
      pose proof (chain_setup key v t (chain1 ++ [bucket_new n])) as H.
      rewrite Hcc in H. specialize (H (queues_ok_new_bucket _ n Hok1) Hv _ _ Hq eq_refl).
      rewrite live_app, live_new_bucket, app_nil_r in H. specialize (H Hnone).
      unfold as_spec in H. rewrite Hcc, queues_pending_new_bucket in H. exact H.
Qed.

(** ** The engine *)

Lemma hash_fn_range k : 0 <= hash_fn k < 2 ^ TABLE_BIT_SIZE.
Proof.
  unfold hash_fn. change (2 ^ TABLE_BIT_SIZE - 1) with (Z.ones TABLE_BIT_SIZE).
  rewrite Z.land_ones by done. apply Z.mod_pos_bound. done.
Qed.

#[local] Opaque hash_fn.

Definition map_inv (e : matching_engine_map_t) : Prop :=
  forall i, queues_ok (concat (get_chain e i)).
Definition map_pending (e : matching_engine_map_t) : pending_t := fun t k =>
  queues_pending (concat (get_chain e (hash_fn k))) t k.

Lemma get_chain_insert e i c j :
  get_chain (mk_map_engine (<[i := c]> (table e))) j = if decide (i = j) then c else get_chain e j.
Proof.
  unfold get_chain; simpl. destruct (decide (i = j)) as [->|].
  - by rewrite lookup_insert_eq.
  - by rewrite lookup_insert_ne.
Qed.

(** [spec_insert] looks at one key only. *)
Lemma spec_insert_local key v t p q :
  (forall t', p t' key = q t' key) ->
  fst (spec_insert key v t p) = fst (spec_insert key v t q)
  /\ forall t' k, snd (spec_insert key v t p) t' k
       = if decide (k = key) then snd (spec_insert key v t q) t' k else p t' k.
Proof.
  intros H. unfold spec_insert. rewrite (H (flip_type t)), (H t).
  destruct (q (flip_type t) key); simpl; (split; [done|]); intros t' k; unfold upd;
    destruct (decide (k = key)) as [->|];
    repeat case_decide; naive_solver.
Qed.

Lemma map_insert_ok key v t e :
  map_inv e -> v <> 0 ->
  exists r e', map_insert key v t e = Ok (r, e') /\ map_inv e'
    /\ r = fst (spec_insert key v t (map_pending e))
    /\ map_pending e' ≡ snd (spec_insert key v t (map_pending e)).
Proof.
  intros He Hv. unfold map_insert.
  destruct (chain_insert_spec key v t (get_chain e (hash_fn key)) (He _) Hv)
    as (r & c & -> & Hc & Hr & Hp). simpl.
  destruct (spec_insert_local key v t (map_pending e)
    (queues_pending (concat (get_chain e (hash_fn key))))) as [Hl1 Hl2]; [done|].
  eexists _, _. split_and!; [done| | |].
  - intros i. rewrite get_chain_insert. destruct (decide _); [done|apply He].
  - by rewrite Hl1.
  - intros t' k. rewrite Hl2. unfold map_pending. rewrite get_chain_insert.
    destruct (decide (k = key)) as [->|Hne]; [by rewrite decide_True, Hp|].
    destruct (decide _) as [E|]; [|done]. rewrite Hp, <-E.
    destruct (spec_insert_local key v t (queues_pending (concat (get_chain e (hash_fn key))))
      (queues_pending (concat (get_chain e (hash_fn key))))) as [_ Hl]; [done|].
    by rewrite Hl, decide_False.
Qed.

#[export] Instance map_engine : MatchingEngine matching_engine_map_t.
Proof.
  refine {| engine_new := map_engine_new; engine_insert := map_insert;
            engine_inv := map_inv; engine_pending := map_pending |}.
  - split.
    + intros i. unfold get_chain; simpl. rewrite lookup_empty.
      split; [by repeat constructor|by constructor].
    + intros t k. unfold map_pending, get_chain; simpl. by rewrite lookup_empty.
  - intros e key v t He _ Hv. by apply map_insert_ok.
Defined.
