(* ===== verification/Matching.v ===== *)
(** * The two matching engines together

    The theorems on whole runs of [matching_engine_map_t], and its agreement
    with [matching_engine_queue_t]. *)
From stdpp Require Import base numbers list gmap strings.
From Stdlib Require Import ZArith Lia.
From S2P Require Import Prelude MatchSpec MatchQueue MatchMap.

(** C24: Every run of the hash-table engine from its initial state succeeds: no
    step follows a null node or reads the wrong arm of a queue's union. It pairs
    the i-th send of a key with the i-th receive of that key, whatever keys
    share a bucket and however buckets and node chains grow and shrink, and
    what is left over waits in order. *)
Theorem map_engine_fifo ops :
  Forall valid_insertion ops ->
  exists rs e', engine_run ops map_engine_new = Ok (rs, e')
    /\ fifo_matched ops rs (map_pending e').
Proof. intros H. exact (engine_run_fifo (E := matching_engine_map_t) ops H). Qed.

(** Ten sends and ten receives of one key: the queue grows into two nodes and
    shrinks back to slots. *)
Definition ten_each : list insertion :=
  ((fun i => mk_insertion 77 (Z.of_nat i) me_send) <$> seq 1 10)
  ++ ((fun i => mk_insertion 77 (Z.of_nat i) me_recv) <$> seq 101 10).

Lemma map_engine_fifo_witness :
  exists rs e', engine_run ten_each map_engine_new = Ok (rs, e')
    /\ fifo_matched ten_each rs (map_pending e').
Proof.
  apply (map_engine_fifo ten_each). repeat constructor; simpl; unfold is_u64; lia.
Defined.

Example ten_each_run :
  fst <$> match engine_run ten_each map_engine_new with Ok x => Some x | Err _ => None end
  = Some (replicate 10 0 ++ [1; 2; 3; 4; 5; 6; 7; 8; 9; 10]).
Proof. vm_compute. reflexivity. Qed.

(** C34: the hash-table engine and the list-based engine match alike. On every sequence of
    insertions, for whatever the list-based engine reads in a node that it has just freed:
    it finds no match where the hash-table engine finds none, and where the hash-table
    engine returns a value it reads the freed node of the very entry with that value, up to
    and including the first such read that gives null. If freed nodes still read as the
    entries that they were, both engines return the same values. *)
Theorem engines_agree read_erased ops :
  Forall valid_insertion ops ->
  exists rs em, engine_run ops map_engine_new = Ok (rs, em)
    /\ (forall i op r, ops !! i = Some op -> rs !! i = Some r ->
          (forall j op' r', (j < i)%nat -> ops !! j = Some op' -> rs !! j = Some r' -> r' <> 0 -> read_erased (mk_qentry (ins_key op') r') <> 0) ->
          (queue_run read_erased ops queue_engine_new).1 !! i
          = Some (if r =? 0 then 0 else read_erased (mk_qentry (ins_key op) r)))
    /\ ((forall it, read_erased it = e_value it) -> (queue_run read_erased ops queue_engine_new).1 = rs).
Proof.
  intros Hops. set (queue := queue_engine e_value (fun _ => eq_refl)).
  destruct (engine_new_ok (E := matching_engine_map_t)) as [Hm Hm0].
  destruct (engine_run_refines ops map_engine_new Hm Hops) as (rs & em & Hrm & _ & Hrs & _).
  destruct (@engine_new_ok _ queue) as [Hq Hq0]. destruct (@engine_run_refines _ queue ops _ Hq Hops) as (rs' & eq & Hrq & _ & Hrs' & _).
  assert (rs' = rs) as ->.
  { rewrite Hrs, Hrs'. transitivity (fst (spec_run ops no_pending)).
    - by apply spec_run_proper.
    - symmetry. by apply spec_run_proper. }
  apply queue_run_engine in Hrq. change (@engine_new _ queue) with queue_engine_new in *. pose proof (queue_run_reads read_erased ops _ Hq Hops) as Hr. rewrite Hrq in Hr. cbn [fst] in Hr.
  assert (Hi : forall i op r, ops !! i = Some op -> rs !! i = Some r ->
    (forall j op' r', (j < i)%nat -> ops !! j = Some op' -> rs !! j = Some r' -> r' <> 0 -> read_erased (mk_qentry (ins_key op') r') <> 0) ->
    (queue_run read_erased ops queue_engine_new).1 !! i = Some (freed_read read_erased (ins_key op) r)).
  { intros i op r Ho Hri Hall. apply Hr; [done..|]. intros j op' r' Hj Ho' Hr' Hn. unfold freed_read.
    rewrite (proj2 (Z.eqb_neq _ _) Hn). by apply (Hall j). }
  exists rs, em. split_and!; [done|exact Hi|]. intros Hint.
  assert (Hl : length rs = length ops) by (rewrite <- (length_queue_run e_value ops queue_engine_new), Hrq; done).
  apply list_eq_same_length with (length ops); [done|apply length_queue_run|].
  intros i y x Hlt Hy Hx. destruct (lookup_lt_is_Some_2 ops i) as [op Ho]; [lia|].
  rewrite (Hi i op x Ho Hx) in Hy; [|intros j op' r' _ _ _; by rewrite Hint]. injection Hy as <-.
  unfold freed_read. rewrite Hint. cbn. by destruct (Z.eqb_spec x 0).
Qed.

(** A freed node that reads as 9. *)
Lemma engines_agree_witness :
  exists rs em, engine_run [mk_insertion 5 100 me_send; mk_insertion 5 200 me_recv] map_engine_new = Ok (rs, em)
    /\ (rs !! 1%nat = Some 100 ->
        (queue_run (fun _ => 9) [mk_insertion 5 100 me_send; mk_insertion 5 200 me_recv] queue_engine_new).1 !! 1%nat = Some 9).
Proof.
  destruct (engines_agree (fun _ => 9) [mk_insertion 5 100 me_send; mk_insertion 5 200 me_recv]) as (rs & em & H & Hq & _).
  - repeat constructor; simpl; unfold is_u64; lia.
  - exists rs, em. split; [exact H|]. intros Hr.
    rewrite (Hq 1%nat (mk_insertion 5 200 me_recv) 100); [reflexivity|reflexivity|exact Hr|]. intros j op' r' _ _ _ _. discriminate.
Defined.
