(* ===== verification/ImmTagArchive.v ===== *)
(** * The archive of rendezvous contexts
    (src/src/data_structure/imm_tag_archive.hpp)

    [imm_tag_archive_t] lends a tag of at most 16 bits for a 64-bit value (the
    address of a rendezvous context), so that the tag fits in immediate data.
    The first part is the code run by one thread; [Module Concurrent] splits
    [insert] at its compare-and-exchange and interleaves any number of threads. *)
From stdpp Require Import base numbers list sets strings.
From Stdlib Require Import ZArith Lia.
From S2P Require Import Prelude.

Definition empty_value : Z := 2 ^ 64 - 1.

Record imm_tag_archive_t : Type := mk_archive {
  tag_bits : Z;
  size : Z;
  mask : Z;
  slots : list Z;
  next_slot : Z
}.

(** The constructor. *)
Definition archive_new (bits : Z) : result imm_tag_archive_t :=
  LCI_Assert ((0 <? bits) && (bits <=? 16)) "imm_tag_archive_t supports 1-16 bits tags" ;;
  let size := u32 (Z.shiftl 1 bits) in
  Ok (mk_archive bits size (u32 (size - 1)) (replicate (Z.to_nat size) empty_value) 0).

Definition with_slots (sl : list Z) (next : Z) (a : imm_tag_archive_t) : imm_tag_archive_t :=
  mk_archive (tag_bits a) (size a) (mask a) sl next.

(** The probing loop of [insert]: [i] runs up to the size. *)
Definition probe_idx (a : imm_tag_archive_t) (start : Z) (i : nat) : nat :=
  Z.to_nat (Z.land (u32 (start + Z.of_nat i)) (mask a)).
Fixpoint probe (a : imm_tag_archive_t) (value start : Z) (i fuel : nat) :
    result (Z * list Z) :=
  match fuel with
  | O => Err (AssertFailed "Immediate data archive exhausted")
  | S fuel =>
      let idx := probe_idx a start i in
      if default 0 (slots a !! idx) =? empty_value
      then Ok (Z.of_nat idx, <[idx := value]> (slots a))
      else probe a value start (S i) fuel
  end.

Definition archive_insert (value : Z) (a : imm_tag_archive_t) : result (Z * imm_tag_archive_t) :=
  LCI_Assert (negb (value =? empty_value)) "Invalid value" ;;
  let start := Z.land (next_slot a) (mask a) in
  let a := with_slots (slots a) (u32 (next_slot a + 1)) a in
  '(tag, sl) ← probe a value start 0 (Z.to_nat (size a)) ;
  Ok (tag, with_slots sl (next_slot a) a).

Definition archive_remove (tag : Z) (a : imm_tag_archive_t) : result (Z * imm_tag_archive_t) :=
  LCI_Assert (tag <? size a) "Tag out of range" ;;
  let value := default 0 (slots a !! Z.to_nat tag) in
  let a := with_slots (<[Z.to_nat tag := empty_value]> (slots a)) (next_slot a) a in
  LCI_Assert (negb (value =? empty_value)) "Removing non-existent entry" ;;
  Ok (value, a).

Definition archive_peek (tag : Z) (a : imm_tag_archive_t) : result Z :=
  LCI_Assert (tag <? size a) "Tag out of range" ;;
  Ok (default 0 (slots a !! Z.to_nat tag)).

Definition archive_clear (a : imm_tag_archive_t) : imm_tag_archive_t :=
  with_slots (replicate (Z.to_nat (size a)) empty_value) 0 a.

(** ** Invariant *)

Record archive_inv (a : imm_tag_archive_t) : Prop := mk_archive_inv {
  ai_bits : 0 < tag_bits a <= 16;
  ai_size : size a = 2 ^ tag_bits a;
  ai_mask : mask a = Z.ones (tag_bits a);
  ai_slots : length (slots a) = Z.to_nat (size a)
}.

Lemma archive_new_ok bits :
  0 < bits <= 16 -> exists a, archive_new bits = Ok a /\ archive_inv a
    /\ tag_bits a = bits /\ Forall (fun v => v = empty_value) (slots a).
Proof.
  intros Hb. unfold archive_new. rewrite LCI_Assert_true by lia. simpl.
  rewrite Z.shiftl_1_l.
  assert (2 ^ bits < 2 ^ 32) by (apply Z.pow_lt_mono_r; lia).
  assert (0 < 2 ^ bits) by (apply Z.pow_pos_nonneg; lia).
  rewrite (u32_id (2 ^ bits)) by (unfold is_u32; lia).
  eexists. split; [done|]. split_and!; [|done|by apply Forall_replicate].
  split; simpl; [done|done| |by rewrite length_replicate].
  rewrite Z.ones_equiv. apply u32_id. unfold is_u32. lia.
Qed.

Lemma size_bounds a : archive_inv a -> 0 < size a <= 2 ^ 16.
Proof.
  intros [Hb Hs _ _]. rewrite Hs. split; [apply Z.pow_pos_nonneg; lia|].
  apply Z.pow_le_mono_r; lia.
Qed.

Lemma archive_slots_nonempty a : archive_inv a -> (0 < length (slots a))%nat.
Proof. intros H. rewrite (ai_slots a H). pose proof (size_bounds a H). lia. Qed.

(** The probes of an insert visit [start], [start + 1], ... modulo the size. *)
Lemma probe_idx_mod a start i :
  archive_inv a -> 0 <= start -> probe_idx a start i
  = Z.to_nat ((start + Z.of_nat i) mod size a).
Proof.
  intros Ha Hs. unfold probe_idx. rewrite (ai_mask a Ha), (ai_size a Ha).
  pose proof (ai_bits a Ha). rewrite Z.land_ones by lia. f_equal. unfold u32.
  apply Z.mod_mod_divide. exists (2 ^ (32 - tag_bits a)).
  rewrite <-Z.pow_add_r by lia. f_equal. lia.
Qed.

Lemma probe_idx_lt a start i :
  archive_inv a -> 0 <= start -> (probe_idx a start i < length (slots a))%nat.
Proof.
  intros Ha Hs. rewrite probe_idx_mod, (ai_slots a Ha) by done.
  pose proof (size_bounds a Ha).
  pose proof (Z.mod_pos_bound (start + Z.of_nat i) (size a)). lia.
Qed.

Lemma probe_covers a start j :
  archive_inv a -> 0 <= start -> (j < length (slots a))%nat ->
  exists i, (i < Z.to_nat (size a))%nat /\ probe_idx a start i = j.
Proof.
  intros Ha Hs Hj. rewrite (ai_slots a Ha) in Hj. pose proof (size_bounds a Ha).
  pose proof (Z.mod_pos_bound (Z.of_nat j - start) (size a)).
  exists (Z.to_nat ((Z.of_nat j - start) mod size a)). split; [lia|].
  rewrite probe_idx_mod, Z2Nat.id, Z.add_mod_idemp_r by (done || lia).
  replace (start + (Z.of_nat j - start)) with (Z.of_nat j) by lia.
  rewrite Z.mod_small by lia. lia.
Qed.

(** The probing loop takes the first free slot it meets, and fails only when
    every slot it looked at was taken. *)
Lemma probe_spec a value start fuel : forall i,
  match probe a value start i fuel with
  | Ok (tag, sl) => exists j, tag = Z.of_nat j /\ sl = <[j := value]> (slots a)
      /\ default 0 (slots a !! j) = empty_value
      /\ exists n, (i <= n < i + fuel)%nat /\ j = probe_idx a start n
  | Err f => f = AssertFailed "Immediate data archive exhausted"
      /\ forall n, (i <= n < i + fuel)%nat ->
           default 0 (slots a !! probe_idx a start n) <> empty_value
  end.
Proof.
  induction fuel as [|fuel IH]; intros i; simpl.
  { split; [done|]. lia. }
  destruct (Z.eqb_spec (default 0 (slots a !! probe_idx a start i)) empty_value) as [E|E].
  - exists (probe_idx a start i). split_and!; [done..|]. exists i. split; [lia|done].
  - specialize (IH (S i)). destruct (probe a value start (S i) fuel) as [[tag sl]|f].
    + destruct IH as (j & -> & -> & ? & n & ? & ->).
      eexists. split_and!; [done..|]. exists n. split; [lia|done].
    + destruct IH as [-> IH]. split; [done|]. intros n Hn.
      destruct (decide (n = i)) as [->|]; [done|]. apply IH. lia.
Qed.

(** A slot is free or holds the value it was given. *)
Definition held_at (a : imm_tag_archive_t) (tag : Z) : option Z :=
  v ← slots a !! Z.to_nat tag ; if v =? empty_value then None else Some v.

Definition is_tag (a : imm_tag_archive_t) (tag : Z) : Prop := 0 <= tag < size a.

Lemma held_at_lookup a tag v :
  held_at a tag = Some v <-> slots a !! Z.to_nat tag = Some v /\ v <> empty_value.
Proof.
  unfold held_at. destruct (slots a !! Z.to_nat tag) as [x|]; simpl; [|naive_solver].
  destruct (Z.eqb_spec x empty_value); naive_solver.
Qed.

Lemma held_at_free a tag :
  archive_inv a -> is_tag a tag ->
  (held_at a tag = None <-> default 0 (slots a !! Z.to_nat tag) = empty_value).
Proof.
  intros Ha Ht. destruct (lookup_lt_is_Some_2 (slots a) (Z.to_nat tag)) as [x Hx].
  { rewrite (ai_slots a Ha). unfold is_tag in Ht. lia. }
  unfold held_at. rewrite Hx. simpl. destruct (Z.eqb_spec x empty_value); naive_solver.
Qed.

(** Inserting a value into the archive succeeds exactly when some tag is
    free. It then returns a tag that was free, that fits in the tag bits and
    that now holds the value, and leaves every other tag as it was; otherwise
    it stops at the assertion that reports exhaustion. *)
Theorem archive_insert_spec a v :
  archive_inv a -> v <> empty_value ->
  (exists tag a', archive_insert v a = Ok (tag, a') /\ archive_inv a'
     /\ is_tag a tag /\ tag < 2 ^ tag_bits a /\ tag_bits a' = tag_bits a
     /\ held_at a tag = None /\ held_at a' tag = Some v
     /\ forall tag', is_tag a tag' -> tag' <> tag -> held_at a' tag' = held_at a tag')
  \/ ((forall tag, is_tag a tag -> held_at a tag <> None)
      /\ archive_insert v a = Err (AssertFailed "Immediate data archive exhausted")).
Proof.
  intros Ha Hv. pose proof Ha as [Hb Hs Hm Hl]. unfold archive_insert.
  rewrite LCI_Assert_true by (apply negb_true_iff, Z.eqb_neq; done). simpl.
  set (start := Z.land _ _). set (b := with_slots _ _ a).
  assert (Hb' : archive_inv b) by done.
  assert (0 <= start).
  { unfold start. apply Z.land_nonneg. right. rewrite Hm. rewrite Z.ones_equiv.
    pose proof (Z.pow_pos_nonneg 2 (tag_bits a)). lia. }
  pose proof (probe_spec b v start (Z.to_nat (size b)) 0) as Hp.
  destruct (probe b v start 0 (Z.to_nat (size a))) as [[tag sl]|f] eqn:E;
    change (size b) with (size a) in Hp; rewrite E in Hp; simpl.
  - left. destruct Hp as (j & -> & -> & Hfree & n & Hn & Hj).
    pose proof (probe_idx_lt b start n Hb' ltac:(done)) as Hlt. rewrite <-Hj in Hlt.
    change (slots b) with (slots a) in *.
    assert (Htag : is_tag a (Z.of_nat j)) by (unfold is_tag; lia).
    eexists _, _. split_and!; [done| |done|unfold is_tag in Htag; lia|done| | |].
    + split; simpl; try done. by rewrite length_insert.
    + apply held_at_free; [done..|]. by rewrite Nat2Z.id.
    + apply held_at_lookup. simpl. by rewrite Nat2Z.id, list_lookup_insert_eq.
    + intros tag' Ht' Hne. unfold held_at; simpl.
      rewrite list_lookup_insert_ne; [done|]. unfold is_tag in Ht'. lia.
  - right. destruct Hp as [-> Hp]. split; [|done]. intros tag Ht.
    destruct (probe_covers b start (Z.to_nat tag) Hb') as (i & Hi & Hj); [done| |].
    { change (slots b) with (slots a). unfold is_tag in Ht. lia. }
    change (size b) with (size a) in Hi. specialize (Hp i ltac:(lia)). rewrite Hj in Hp.
    rewrite held_at_free by done. done.
Qed.

Definition demo_archive : imm_tag_archive_t :=
  mk_archive 2 4 3 [empty_value; 900; empty_value; empty_value] 5.

Lemma archive_insert_spec_witness :
  (exists tag a', archive_insert 4096 demo_archive = Ok (tag, a') /\ archive_inv a'
     /\ is_tag demo_archive tag /\ tag < 2 ^ tag_bits demo_archive
     /\ tag_bits a' = tag_bits demo_archive
     /\ held_at demo_archive tag = None /\ held_at a' tag = Some 4096
     /\ forall tag', is_tag demo_archive tag' -> tag' <> tag ->
          held_at a' tag' = held_at demo_archive tag')
  \/ ((forall tag, is_tag demo_archive tag -> held_at demo_archive tag <> None)
      /\ archive_insert 4096 demo_archive
         = Err (AssertFailed "Immediate data archive exhausted")).
Proof.
  apply (archive_insert_spec demo_archive 4096); [|done].
  split; vm_compute; naive_solver.
Defined.

(** A tag that holds a value is removed with that value and is free
    afterwards, the other tags unchanged; removing a free tag or a number that
    is no tag fails an assertion. *)
Theorem archive_remove_spec a tag :
  archive_inv a -> 0 <= tag ->
  match held_at a tag with
  | Some v => exists a', archive_remove tag a = Ok (v, a') /\ archive_inv a'
      /\ held_at a' tag = None
      /\ forall tag', is_tag a tag' -> tag' <> tag -> held_at a' tag' = held_at a tag'
  | None => exists c, archive_remove tag a = Err (AssertFailed c)
  end.
Proof.
  intros Ha Ht. pose proof Ha as [Hb Hs Hm Hl]. unfold archive_remove.
  destruct (held_at a tag) as [v|] eqn:E.
  - apply held_at_lookup in E as [E Hv].
    assert (tag < size a) by (apply lookup_lt_Some in E; lia).
    rewrite (LCI_Assert_true (tag <? size a)) by lia. simpl. rewrite E. simpl.
    rewrite LCI_Assert_true by (apply negb_true_iff, Z.eqb_neq; done).
    eexists. split_and!; [done| | |].
    + split; simpl; try done. by rewrite length_insert.
    + unfold held_at; simpl. rewrite list_lookup_insert_eq by (by eapply lookup_lt_Some).
      done.
    + intros tag' Ht' Hne. unfold held_at; simpl. rewrite list_lookup_insert_ne; [done|].
      unfold is_tag in Ht'. lia.
  - unfold LCI_Assert at 1. destruct (tag <? size a) eqn:El; simpl; [|by eexists].
    apply Z.ltb_lt in El. rewrite held_at_free in E by (done || unfold is_tag; lia).
    rewrite E, Z.eqb_refl. by eexists.
Qed.

Lemma archive_remove_spec_witness :
  exists a', archive_remove 1 demo_archive = Ok (900, a') /\ archive_inv a'
    /\ held_at a' 1 = None
    /\ forall tag', is_tag demo_archive tag' -> tag' <> 1 ->
         held_at a' tag' = held_at demo_archive tag'.
Proof.
  apply (archive_remove_spec demo_archive 1); [|lia]. split; vm_compute; naive_solver.
Defined.

(** ** Any number of threads

    [insert] is a loop of compare-and-exchange operations; a thread is between
    two of them in state [TProbe value start i]. [owned] is a ghost: the tags
    that were returned and not yet removed, with their values. *)
Module Concurrent.
Section Concurrent.
Variable a : imm_tag_archive_t.

Inductive thread : Type :=
  | TIdle
  | TProbe (value start : Z) (i : nat)
  | TAborted.

Record cstate : Type := mk_cstate {
  cells : list Z;
  counter : Z;
  threads : list thread;
  owned : list (nat * Z)
}.

Definition cell_idx (start : Z) (i : nat) : nat := probe_idx a start i.

Inductive step : cstate -> cstate -> Prop :=
  | step_begin s th v :
      threads s !! th = Some TIdle -> v <> empty_value ->
      step s (mk_cstate (cells s) (u32 (counter s + 1))
                (<[th := TProbe v (Z.land (counter s) (mask a)) 0]> (threads s)) (owned s))
  | step_cas_ok s th v start i :
      threads s !! th = Some (TProbe v start i) -> (i < Z.to_nat (size a))%nat ->
      cells s !! cell_idx start i = Some empty_value ->
      step s (mk_cstate (<[cell_idx start i := v]> (cells s)) (counter s)
                (<[th := TIdle]> (threads s)) ((cell_idx start i, v) :: owned s))
  | step_cas_fail s th v start i x :
      threads s !! th = Some (TProbe v start i) -> (i < Z.to_nat (size a))%nat ->
      cells s !! cell_idx start i = Some x -> x <> empty_value ->
      step s (mk_cstate (cells s) (counter s)
                (<[th := TProbe v start (S i)]> (threads s)) (owned s))
  | step_exhausted s th v start i :
      threads s !! th = Some (TProbe v start i) -> (Z.to_nat (size a) <= i)%nat ->
      step s (mk_cstate (cells s) (counter s) (<[th := TAborted]> (threads s)) (owned s))
  | step_remove s th tag v l1 l2 :
      threads s !! th = Some TIdle -> owned s = l1 ++ (tag, v) :: l2 ->
      step s (mk_cstate (<[tag := empty_value]> (cells s)) (counter s) (threads s) (l1 ++ l2)).

Definition init (n : nat) : cstate :=
  mk_cstate (replicate (Z.to_nat (size a)) empty_value) 0 (replicate n TIdle) [].

Inductive reachable (n : nat) : cstate -> Prop :=
  | reach_init : reachable n (init n)
  | reach_step s s' : reachable n s -> step s s' -> reachable n s'.

Record inv (s : cstate) : Prop := mk_inv {
  inv_nodup : NoDup (owned s).*1;
  inv_owned : forall tag v, (tag, v) ∈ owned s -> cells s !! tag = Some v /\ v <> empty_value;
  inv_threads : forall th v start i, threads s !! th = Some (TProbe v start i) -> v <> empty_value
}.

Lemma threads_update (l : list thread) th t (P : thread -> Prop) :
  (forall th' t', l !! th' = Some t' -> P t') -> P t ->
  forall th' t', <[th := t]> l !! th' = Some t' -> P t'.
Proof.
  intros H Ht th' t' [(-> & <- & _)|[_ E]]%list_lookup_insert_Some; [done|by eapply H].
Qed.

Lemma step_inv s s' : inv s -> step s s' -> inv s'.
Proof.
  intros [Hn Ho Ht] Hs.
  assert (Hupd : forall th t, (forall v start i, t = TProbe v start i -> v <> empty_value) ->
    forall th' v start i, <[th := t]> (threads s) !! th' = Some (TProbe v start i) ->
      v <> empty_value).
  { intros th t Hnew th' v start i E.
    apply (threads_update (threads s) th t
      (fun t => forall v start i, t = TProbe v start i -> v <> empty_value))
      with (th' := th') (t' := TProbe v start i) (start := start) (i := i); try done.
    intros ?? E' ??? ->. by eapply Ht. }
  destruct Hs as [s th v E Hv|s th v start i E Hi Hc|s th v start i x E Hi Hc Hx
    |s th v start i E Hi|s th tag v l1 l2 E El]; split; simpl; try done;
    try (apply Hupd; naive_solver).
  - apply NoDup_cons. split; [|done].
    intros ([tag x] & Et & Hin)%list_elem_of_fmap. simpl in Et. subst tag.
    destruct (Ho _ _ Hin) as [H1 H2]. congruence.
  - intros tag x [Eq|Hin]%elem_of_cons.
    + injection Eq as -> ->. rewrite list_lookup_insert_eq by (by eapply lookup_lt_Some).
      split; [done|]. by eapply Ht.
    + destruct (Ho _ _ Hin) as [H1 H2]. split; [|done].
      rewrite list_lookup_insert_ne; [done|]. intros <-. congruence.
  - rewrite El, fmap_app in Hn. simpl in Hn. rewrite fmap_app.
    apply NoDup_app in Hn as (H1 & H2 & H3%NoDup_cons). apply NoDup_app.
    split_and!; [done| |apply H3]. intros x Hx Hx'. apply (H2 x Hx). by right.
  - intros tag' x Hin. rewrite El in Ho, Hn.
    destruct (Ho tag' x) as [H1 H2]; [set_solver|]. split; [|done].
    rewrite list_lookup_insert_ne; [done|]. intros ->.
    rewrite fmap_app in Hn. simpl in Hn. apply NoDup_app in Hn as (_ & H3 & H4%NoDup_cons).
    apply elem_of_app in Hin as [Hin|Hin].
    + apply (H3 tag'); [|by left]. apply list_elem_of_fmap. by exists (tag', x).
    + apply H4. apply list_elem_of_fmap. by exists (tag', x).
Qed.

Lemma archive_reachable_inv n s : reachable n s -> inv s.
Proof.
  induction 1; [|by eapply step_inv]. split; simpl; [by constructor|set_solver|].
  intros th v start i E. apply lookup_replicate in E. naive_solver.
Qed.

(** C26: However inserts and removals of any number of threads interleave, no tag
    is ever lent twice: the tags in use are pairwise distinct, and each still
    holds the value its insert stored. *)
Theorem concurrent_tags_exclusive n s :
  reachable n s ->
  NoDup (owned s).*1
  /\ forall tag v, (tag, v) ∈ owned s -> cells s !! tag = Some v /\ v <> empty_value.
Proof. intros [H1 H2 _]%archive_reachable_inv. done. Qed.

(** Runs in which every state has a free cell. *)
Inductive reachable_with_room (n : nat) : cstate -> Prop :=
  | room_init : empty_value ∈ cells (init n) -> reachable_with_room n (init n)
  | room_step s s' :
      reachable_with_room n s -> step s s' -> empty_value ∈ cells s' ->
      reachable_with_room n s'.
End Concurrent.

Definition two_tags : imm_tag_archive_t := mk_archive 1 2 1 [empty_value; empty_value] 0.

(** Extends a run [R] of [two_tags] by one step of [rule]. *)
Ltac close_step := first [reflexivity | vm_compute; done | vm_compute; lia].
Ltac normalise R :=
  match type of R with ?P ?s =>
    let s' := eval vm_compute in s in change (P s') in R end.
Ltac extend R rule :=
  let R' := fresh in
  eassert (R' : reachable two_tags 2 _);
  [eapply (reach_step _ _ _ _ R); eapply rule; close_step|normalise R'; clear R; rename R' into R].
Ltac extend_room R rule :=
  let R' := fresh in
  eassert (R' : reachable_with_room two_tags 2 _);
  [eapply (room_step _ _ _ _ R);
   [eapply rule; close_step|vm_compute; repeat (first [by left | right])]
  |normalise R'; clear R; rename R' into R].

Lemma concurrent_tags_exclusive_witness :
  exists s, owned s = [(0%nat, 10)] /\ NoDup (owned s).*1
    /\ forall tag v, (tag, v) ∈ owned s -> cells s !! tag = Some v /\ v <> empty_value.
Proof.
  assert (exists s, reachable two_tags 2 s /\ owned s = [(0%nat, 10)]) as (s & R & E).
  { pose proof (reach_init two_tags 2) as R.
    extend R (fun s => step_begin two_tags s 1 10).
    extend R (fun s => step_cas_ok two_tags s 1 10 0 0).
    eexists. split; [exact R|done]. }
  exists s. split; [done|]. by apply (concurrent_tags_exclusive two_tags 2 s).
Defined.

(** Under contention [insert] can report exhaustion although the archive is
    never full: in this run of two threads every state has a free tag, and one
    thread still runs through all its probes and aborts. *)
Theorem spurious_exhaustion :
  exists s, reachable_with_room two_tags 2 s /\ threads s !! 0%nat = Some TAborted.
Proof.
  pose proof (room_init two_tags 2 ltac:(by left)) as R.
  extend_room R (fun s => step_begin two_tags s 1 10).
  extend_room R (fun s => step_cas_ok two_tags s 1 10 0 0).
  extend_room R (fun s => step_begin two_tags s 0 20).
  extend_room R (fun s => step_remove two_tags s 1 0 10 [] []).
  extend_room R (fun s => step_begin two_tags s 1 11).
  extend_room R (fun s => step_cas_ok two_tags s 1 11 0 0).
  extend_room R (fun s => step_remove two_tags s 1 0 11 [] []).
  extend_room R (fun s => step_begin two_tags s 1 12).
  extend_room R (fun s => step_cas_ok two_tags s 1 12 1 0).
  extend_room R (fun s => step_cas_fail two_tags s 0 20 1 0 12).
  extend_room R (fun s => step_remove two_tags s 1 1 12 [] []).
  extend_room R (fun s => step_begin two_tags s 1 13).
  extend_room R (fun s => step_cas_ok two_tags s 1 13 0 0).
  extend_room R (fun s => step_cas_fail two_tags s 0 20 1 1 13).
  extend_room R (fun s => step_exhausted two_tags s 0 20 1 2).
  eexists. split; [exact R|reflexivity].
Qed.
End Concurrent.
