(* ===== verification/Deque.v ===== *)
(** * The deque of one thread
    (class [local_set_t] of src/src/data_structure/mpmc_set.hpp)

    A circular buffer with [head] and [tail] that only move apart or together
    and may be negative; positions are taken modulo the buffer length. The
    owner holds the lock of the deque, so an operation is one step. The indices
    stay far from the bounds of [int64_t] and are integers. Theorem by theorem
    the operations are those of a list, the top of the deque first. *)
From stdpp Require Import base numbers list sets strings.
From Stdlib Require Import ZArith Lia.
From S2P Require Import Prelude.

Record local_set_t : Type := mk_set {
  queue : list Z;
  head : Z;
  tail : Z
}.

Definition qlen (d : local_set_t) : Z := Z.of_nat (length (queue d)).

(** The constructor. *)
Definition local_set_new (default_size : Z) : result local_set_t :=
  LCI_Assert (0 <? default_size) "default_size must be positive" ;;
  Ok (mk_set (replicate (Z.to_nat (default_size + 1)) 0) 0 0).

Definition set_size (d : local_set_t) : Z := tail d - head d.
Definition set_empty (d : local_set_t) : bool := head d =? tail d.

(** The C++ remainder truncates towards zero, as [Z.rem]. *)
Definition get_position (d : local_set_t) (idx : Z) : nat :=
  Z.to_nat (Z.rem (Z.rem idx (qlen d) + qlen d) (qlen d)).

(** [memcpy] of [n] cells between vectors. *)
Definition copy_cells (dst : list Z) (dst_at : nat) (src : list Z) (src_at n : nat) : list Z :=
  take dst_at dst ++ take n (drop src_at src) ++ drop (dst_at + n) dst.

(** [copy_to_new]: the new buffer and the source with its head advanced. *)
Definition copy_to_new (src : local_set_t) (new_queue : list Z) (n : Z) :
    result (list Z * local_set_t) :=
  LCI_Assert (n <=? set_size src) "Insufficient packets in source pool" ;;
  LCI_Assert (n <? Z.of_nat (length new_queue)) "Insufficient size in destination queue" ;;
  let head_idx := get_position src (head src) in
  let n' := Z.to_nat n in
  let q :=
    if Z.of_nat head_idx + n <=? qlen src then
      copy_cells new_queue 0 (queue src) head_idx n'
    else
      let first_segment_size := (length (queue src) - head_idx)%nat in
      let q := copy_cells new_queue 0 (queue src) head_idx first_segment_size in
      copy_cells q first_segment_size (queue src) 0 (n' - first_segment_size)%nat in
  Ok (q, mk_set (queue src) (head src + n) (tail src)).

Definition expand (d : local_set_t) : result local_set_t :=
  let current_size := set_size d in
  '(new_queue, _) ← copy_to_new d (replicate (length (queue d) * 2) 0) current_size ;
  LCI_Assert (0 <? current_size) "head < tail" ;;
  LCI_Assert (forallb (fun v => negb (v =? 0)) (take (Z.to_nat current_size) new_queue))
    "val must not be nullptr" ;;
  Ok (mk_set new_queue 0 current_size).

Definition make_room (d : local_set_t) : result local_set_t :=
  if set_size d =? qlen d - 1 then expand d else Ok d.

Definition push_to_bot (packet : Z) (d : local_set_t) : result local_set_t :=
  LCI_Assert (negb (packet =? 0)) "push found a nullptr" ;;
  d ← make_room d ;
  Ok (mk_set (<[get_position d (tail d) := packet]> (queue d)) (head d) (tail d + 1)).

Definition push_to_top (packet : Z) (d : local_set_t) : result local_set_t :=
  LCI_Assert (negb (packet =? 0)) "push found a nullptr" ;;
  d ← make_room d ;
  Ok (mk_set (<[get_position d (head d - 1) := packet]> (queue d)) (head d - 1) (tail d)).

(** [pop_from_top] and [pop_from_bot] return [0] on an empty deque. *)
Definition pop_from_top (d : local_set_t) : result (Z * local_set_t) :=
  if head d =? tail d then Ok (0, d)
  else
    LCI_Assert (head d <? tail d) "head < tail" ;;
    let ret := default 0 (queue d !! get_position d (head d)) in
    LCI_Assert (negb (ret =? 0)) "pop a nullptr" ;;
    Ok (ret, mk_set (queue d) (head d + 1) (tail d)).

Definition pop_from_bot (d : local_set_t) : result (Z * local_set_t) :=
  if head d =? tail d then Ok (0, d)
  else
    LCI_Assert (head d <? tail d) "head < tail" ;;
    let ret := default 0 (queue d !! get_position d (tail d - 1)) in
    LCI_Assert (negb (ret =? 0)) "pop a nullptr" ;;
    Ok (ret, mk_set (queue d) (head d) (tail d - 1)).

(** ** The list a deque stands for *)

(** The cell of an index. *)
Definition cell (d : local_set_t) (idx : Z) : Z := default 0 (queue d !! get_position d idx).

Definition contents (d : local_set_t) : list Z :=
  (fun i => cell d (head d + Z.of_nat i)) <$> seq 0 (Z.to_nat (set_size d)).

Record set_inv (d : local_set_t) : Prop := mk_set_inv {
  si_len : 2 <= qlen d;
  si_size : 0 <= set_size d <= qlen d - 1;
  si_nonnull : Forall (fun v => v <> 0) (contents d)
}.

Lemma get_position_mod d idx :
  0 < qlen d -> get_position d idx = Z.to_nat (idx mod qlen d).
Proof.
  intros H. unfold get_position. f_equal.
  assert (Hr : - qlen d < Z.rem idx (qlen d) < qlen d).
  { pose proof (Z.rem_bound_abs idx (qlen d)). lia. }
  rewrite Z.rem_mod_nonneg by lia.
  pose proof (Z.quot_rem' idx (qlen d)) as Hq. set (m := Z.quot idx (qlen d)) in *.
  replace (Z.rem idx (qlen d) + qlen d) with (idx + (1 - m) * qlen d) by (rewrite Hq at 1; ring).
  apply Z.mod_add. lia.
Qed.

Lemma get_position_lt d idx : 0 < qlen d -> (get_position d idx < length (queue d))%nat.
Proof.
  intros H. rewrite get_position_mod by done.
  pose proof (Z.mod_pos_bound idx (qlen d) H). unfold qlen in *. lia.
Qed.

(** Two indices less than a buffer apart are in different cells. *)
Lemma get_position_ne d i j :
  0 < qlen d -> 0 < Z.abs (i - j) < qlen d -> get_position d i <> get_position d j.
Proof.
  intros H Hij. rewrite !get_position_mod by done. intros E.
  pose proof (Z.mod_pos_bound i (qlen d) H). pose proof (Z.mod_pos_bound j (qlen d) H).
  assert (E' : i mod qlen d = j mod qlen d) by lia.
  assert ((i - j) mod qlen d = 0) as Hd by (by rewrite Zminus_mod, E', Z.sub_diag).
  apply Z.mod_divide in Hd as [c Hc]; [|lia].
  assert (c = 0 \/ 1 <= Z.abs c) as [->|] by lia; [lia|]. nia.
Qed.

Lemma contents_ext d d' :
  set_size d' = set_size d ->
  (forall i, 0 <= i < set_size d -> cell d' (head d' + i) = cell d (head d + i)) ->
  contents d' = contents d.
Proof.
  intros Hs Hc. unfold contents. rewrite Hs. apply list_fmap_ext. intros i x Hx.
  apply lookup_seq in Hx as [-> Hlt]. simpl. apply Hc. lia.
Qed.

Lemma contents_length d : length (contents d) = Z.to_nat (set_size d).
Proof. unfold contents. by rewrite length_fmap, length_seq. Qed.

Lemma contents_snoc d :
  0 < set_size d ->
  contents d = contents (mk_set (queue d) (head d) (tail d - 1)) ++ [cell d (tail d - 1)].
Proof.
  intros H. unfold contents, set_size in *; simpl.
  replace (Z.to_nat (tail d - head d)) with (Z.to_nat (tail d - 1 - head d) + 1)%nat by lia.
  rewrite seq_app, fmap_app. f_equal. simpl. do 2 f_equal. lia.
Qed.

Lemma contents_cons d :
  0 < set_size d ->
  contents d = cell d (head d) :: contents (mk_set (queue d) (head d + 1) (tail d)).
Proof.
  intros H. unfold contents, set_size in *; simpl.
  replace (Z.to_nat (tail d - head d)) with (S (Z.to_nat (tail d - (head d + 1)))) by lia.
  simpl. f_equal; [f_equal; lia|]. rewrite <-fmap_S_seq, <-list_fmap_compose.
  apply list_fmap_ext. intros i x _. cbn -[Z.of_nat].
  by replace (head d + Z.of_nat (S x)) with (head d + 1 + Z.of_nat x) by lia.
Qed.

Lemma cell_insert d idx v i :
  0 < qlen d -> 0 < Z.abs (i - idx) < qlen d ->
  default 0 (<[get_position d idx := v]> (queue d) !! get_position d i) = cell d i.
Proof.
  intros H Hi. rewrite list_lookup_insert_ne; [done|].
  apply not_eq_sym. by apply get_position_ne.
Qed.

(** Storing at the tail or before the head extends the list at that end. *)
Lemma store_bot d p :
  0 < qlen d -> 0 <= set_size d < qlen d ->
  contents (mk_set (<[get_position d (tail d) := p]> (queue d)) (head d) (tail d + 1))
  = contents d ++ [p].
Proof.
  intros Hq Hs. rewrite contents_snoc by (unfold set_size in *; simpl; lia). simpl.
  f_equal.
  - apply contents_ext; [unfold set_size; simpl; lia|]. intros i Hi. simpl.
    unfold cell, get_position at 1, qlen; simpl. rewrite length_insert.
    apply cell_insert; [done|]. unfold set_size in *; simpl in *. lia.
  - f_equal. unfold cell, get_position at 1, qlen; simpl. rewrite length_insert.
    fold (qlen d). fold (get_position d (tail d + 1 - 1)).
    replace (tail d + 1 - 1) with (tail d) by lia.
    by rewrite list_lookup_insert_eq by (by apply get_position_lt).
Qed.

Lemma store_top d p :
  0 < qlen d -> 0 <= set_size d < qlen d ->
  contents (mk_set (<[get_position d (head d - 1) := p]> (queue d)) (head d - 1) (tail d))
  = p :: contents d.
Proof.
  intros Hq Hs. rewrite contents_cons by (unfold set_size in *; simpl; lia). simpl.
  f_equal.
  - unfold cell, get_position at 1, qlen; simpl. rewrite length_insert.
    fold (qlen d). fold (get_position d (head d - 1)).
    by rewrite list_lookup_insert_eq by (by apply get_position_lt).
  - apply contents_ext; [unfold set_size; simpl; lia|]. intros i Hi. simpl.
    replace (head d - 1 + 1) with (head d) by lia.
    unfold cell, get_position at 1, qlen; simpl. rewrite length_insert.
    apply cell_insert; [done|]. unfold set_size in *; simpl in *. lia.
Qed.

(** ** Moving a prefix to another buffer *)

Lemma get_position_shift d idx (i : nat) :
  (i < length (queue d))%nat ->
  get_position d (idx + Z.of_nat i)
  = (let h := get_position d idx in
     if decide (h + i < length (queue d))%nat then h + i else h + i - length (queue d))%nat.
Proof.
  intros Hi. assert (H : 0 < qlen d) by (unfold qlen; lia).
  rewrite !get_position_mod by done. cbn zeta.
  pose proof (Z.mod_pos_bound idx (qlen d) H) as Hb.
  rewrite <-Z.add_mod_idemp_l by lia. set (h := idx mod qlen d) in *.
  unfold qlen in *. destruct (decide _).
  - rewrite Z.mod_small; lia.
  - rewrite <-(Z.mod_unique (h + Z.of_nat i) (Z.of_nat (length (queue d))) 1
      (h + Z.of_nat i - Z.of_nat (length (queue d)))); lia.
Qed.

Lemma copy_cells_spec dst at_ src from n :
  (at_ + n <= length dst)%nat -> (from + n <= length src)%nat ->
  length (copy_cells dst at_ src from n) = length dst
  /\ take (at_ + n) (copy_cells dst at_ src from n) = take at_ dst ++ take n (drop from src).
Proof.
  intros H1 H2. unfold copy_cells. split.
  - rewrite !length_app, !length_take, !length_drop. lia.
  - rewrite app_assoc, take_app_le, take_ge; [done|..];
      rewrite length_app, !length_take, length_drop; lia.
Qed.

Lemma take_contents_lookup d n i :
  (n <= Z.to_nat (set_size d))%nat -> (i < n)%nat ->
  take n (contents d) !! i = Some (cell d (head d + Z.of_nat i)).
Proof.
  intros Hn Hi. rewrite lookup_take_lt by done. unfold contents.
  rewrite list_lookup_fmap, lookup_seq_lt by lia. done.
Qed.

Lemma drop_contents d n :
  0 <= n <= set_size d ->
  contents (mk_set (queue d) (head d + n) (tail d)) = drop (Z.to_nat n) (contents d).
Proof.
  intros Hn. apply list_eq. intros i. unfold contents, set_size in *; simpl.
  rewrite lookup_drop, !list_lookup_fmap.
  destruct (decide (i < Z.to_nat (tail d - (head d + n)))%nat).
  - rewrite !lookup_seq_lt by lia. cbn -[Z.of_nat].
    by replace (head d + Z.of_nat (Z.to_nat n + i)) with (head d + n + Z.of_nat i) by lia.
  - rewrite !lookup_seq_ge by lia. done.
Qed.

(** The cells from the head on, cut where the buffer wraps. *)
Lemma take_contents_cut d n :
  0 < qlen d -> set_size d <= qlen d -> (n <= Z.to_nat (set_size d))%nat ->
  take n (contents d)
  = (let h := get_position d (head d) in
     if decide (h + n <= length (queue d))%nat then take n (drop h (queue d))
     else drop h (queue d) ++ take (n - (length (queue d) - h)) (queue d)).
Proof.
  intros Hq Hs Hn. cbn zeta. pose proof (get_position_lt d (head d) Hq) as Hh.
  set (h := get_position d (head d)) in *. unfold qlen in Hs.
  apply list_eq. intros i. destruct (decide (i < n)%nat) as [Hi|Hi].
  - rewrite take_contents_lookup by done. unfold cell.
    rewrite get_position_shift by lia. fold h. cbn zeta.
    destruct (decide (h + n <= length (queue d))%nat) as [Hc|Hc].
    + rewrite decide_True by lia. rewrite lookup_take_lt, lookup_drop by lia.
      destruct (lookup_lt_is_Some_2 (queue d) (h + i)) as [x Hx]; [lia|]. by rewrite Hx.
    + destruct (decide (h + i < length (queue d))%nat).
      * rewrite lookup_app_l, lookup_drop by (rewrite length_drop; lia).
        destruct (lookup_lt_is_Some_2 (queue d) (h + i)) as [x Hx]; [lia|]. by rewrite Hx.
      * rewrite lookup_app_r, length_drop by (rewrite length_drop; lia).
        rewrite lookup_take_lt by lia.
        replace (i - (length (queue d) - h))%nat with (h + i - length (queue d))%nat by lia.
        destruct (lookup_lt_is_Some_2 (queue d) (h + i - length (queue d))) as [x Hx]; [lia|].
        by rewrite Hx.
  - rewrite lookup_ge_None_2 by (rewrite length_take; lia).
    symmetry. apply lookup_ge_None_2. destruct (decide _).
    + rewrite length_take. lia.
    + rewrite length_app, length_take, length_drop. lia.
Qed.

Lemma copy_to_new_spec src nq n :
  0 < qlen src -> set_size src <= qlen src -> 0 <= n <= set_size src ->
  n < Z.of_nat (length nq) ->
  exists q, copy_to_new src nq n = Ok (q, mk_set (queue src) (head src + n) (tail src))
    /\ length q = length nq /\ take (Z.to_nat n) q = take (Z.to_nat n) (contents src).
Proof.
  intros Hq Hs Hn Hnq. unfold copy_to_new.
  rewrite (LCI_Assert_true (n <=? set_size src)) by lia. simpl.
  rewrite LCI_Assert_true by lia. simpl.
  pose proof (get_position_lt src (head src) Hq) as Hh.
  rewrite take_contents_cut by (done || lia). cbn zeta.
  set (h := get_position src (head src)) in *. unfold qlen in *.
  eexists. split; [done|]. destruct (Z.leb_spec (Z.of_nat h + n) (Z.of_nat (length (queue src)))).
  - rewrite decide_True by lia.
    destruct (copy_cells_spec nq 0 (queue src) h (Z.to_nat n)) as [H1 H2]; [lia..|]. done.
  - rewrite decide_False by lia. set (f := (length (queue src) - h)%nat).
    destruct (copy_cells_spec nq 0 (queue src) h f) as [H1 H2]; [lia..|]. simpl in H2.
    destruct (copy_cells_spec (copy_cells nq 0 (queue src) h f) f (queue src) 0
                (Z.to_nat n - f)) as [H3 H4]; [lia..|].
    split; [congruence|]. replace (Z.to_nat n) with (f + (Z.to_nat n - f))%nat at 1 by lia.
    rewrite H4, H2. by rewrite (take_ge (drop h _)) by (rewrite length_drop; lia).
Qed.

Lemma contents_prefix q n :
  0 <= n <= Z.of_nat (length q) -> (0 < length q)%nat ->
  contents (mk_set q 0 n) = take (Z.to_nat n) q.
Proof.
  intros Hn Hq. set (d := mk_set q 0 n).
  assert (Hs : set_size d = n) by (unfold set_size; simpl; lia).
  assert (Hl : 0 < qlen d) by (unfold qlen; simpl; lia).
  rewrite <-(take_ge (contents d) (Z.to_nat n)) by (rewrite contents_length; lia).
  rewrite take_contents_cut by (unfold qlen in *; simpl in *; lia). cbn zeta.
  rewrite get_position_mod, Z.mod_0_l by lia. simpl. by rewrite decide_True by lia.
Qed.

(** Doubling the buffer keeps the list. *)
Lemma expand_spec d :
  set_inv d -> 0 < set_size d ->
  exists d', expand d = Ok d' /\ contents d' = contents d /\ set_inv d'
    /\ set_size d' < qlen d' - 1.
Proof.
  intros [Hl Hs Hn] Hp. unfold expand.
  destruct (copy_to_new_spec d (replicate (length (queue d) * 2) 0) (set_size d))
    as (q & -> & Hlen & Htake); [lia..|rewrite length_replicate; unfold qlen in *; lia|].
  simpl. rewrite length_replicate in Hlen. rewrite Htake.
  rewrite take_ge by (rewrite contents_length; lia).
  rewrite (LCI_Assert_true (0 <? set_size d)) by lia. simpl.
  rewrite LCI_Assert_true; [simpl|].
  2: { apply forallb_forall. intros v Hv%list_elem_of_In.
       apply negb_true_iff, Z.eqb_neq. by eapply (proj1 (Forall_forall _ _) Hn). }
  assert (Hc : contents (mk_set q 0 (set_size d)) = contents d).
  { rewrite contents_prefix by (unfold qlen in *; lia). rewrite Htake.
    apply take_ge. rewrite contents_length. lia. }
  assert (Hz : set_size (mk_set q 0 (set_size d)) = set_size d) by (unfold set_size; simpl; lia).
  assert (Hql : qlen (mk_set q 0 (set_size d)) = 2 * qlen d) by (unfold qlen; simpl; lia).
  eexists. split; [done|]. split_and!; [done| |lia]. split; [lia|lia|by rewrite Hc].
Qed.

Lemma make_room_spec d :
  set_inv d -> exists d', make_room d = Ok d' /\ contents d' = contents d /\ set_inv d'
    /\ set_size d' < qlen d' - 1.
Proof.
  intros H. unfold make_room. pose proof H as [Hl Hs Hn].
  destruct (Z.eqb_spec (set_size d) (qlen d - 1)).
  - apply expand_spec; [done|lia].
  - exists d. split_and!; [done..|lia].
Qed.

(** ** The operations are those of a list *)

Lemma local_set_new_ok n :
  0 < n -> exists d, local_set_new n = Ok d /\ set_inv d /\ contents d = [].
Proof.
  intros Hn. unfold local_set_new. rewrite LCI_Assert_true by lia. simpl.
  eexists. split; [done|]. split; [|done].
  split; simpl; [unfold qlen; simpl; rewrite length_replicate; lia| |by constructor].
  unfold set_size, qlen; simpl. rewrite length_replicate. lia.
Qed.

Lemma assert_nonnull p : p <> 0 -> forall c, LCI_Assert (negb (p =? 0)) c = Ok tt.
Proof. intros Hp c. apply LCI_Assert_true, negb_true_iff, Z.eqb_neq, Hp. Qed.

Lemma push_to_bot_spec d p :
  set_inv d -> p <> 0 ->
  exists d', push_to_bot p d = Ok d' /\ set_inv d' /\ contents d' = contents d ++ [p].
Proof.
  intros Hd Hp. unfold push_to_bot. rewrite assert_nonnull by done. simpl.
  destruct (make_room_spec d Hd) as (d1 & -> & Hc & [Hl Hs Hn] & Hr). simpl.
  eexists. split; [done|]. rewrite <-Hc.
  assert (E := store_bot d1 p ltac:(lia) ltac:(lia)). split; [|done].
  split; [unfold qlen in *; simpl; by rewrite length_insert| |].
  - unfold set_size, qlen in *; simpl in *. rewrite length_insert. lia.
  - rewrite E. apply Forall_app_2; [done|by constructor].
Qed.

Lemma push_to_top_spec d p :
  set_inv d -> p <> 0 ->
  exists d', push_to_top p d = Ok d' /\ set_inv d' /\ contents d' = p :: contents d.
Proof.
  intros Hd Hp. unfold push_to_top. rewrite assert_nonnull by done. simpl.
  destruct (make_room_spec d Hd) as (d1 & -> & Hc & [Hl Hs Hn] & Hr). simpl.
  eexists. split; [done|]. rewrite <-Hc.
  assert (E := store_top d1 p ltac:(lia) ltac:(lia)). split; [|done].
  split; [unfold qlen in *; simpl; by rewrite length_insert| |].
  - unfold set_size, qlen in *; simpl in *. rewrite length_insert. lia.
  - rewrite E. by constructor.
Qed.

Lemma contents_nil d : set_inv d -> (contents d = [] <-> head d = tail d).
Proof.
  intros [_ Hs _]. split; intros E.
  - apply (f_equal length) in E. rewrite contents_length in E. simpl in E.
    unfold set_size in *. lia.
  - apply nil_length_inv. rewrite contents_length. unfold set_size. lia.
Qed.

Lemma pop_from_top_spec d :
  set_inv d ->
  match contents d with
  | [] => pop_from_top d = Ok (0, d)
  | p :: ps => exists d', pop_from_top d = Ok (p, d') /\ set_inv d' /\ contents d' = ps /\ p <> 0
  end.
Proof.
  intros Hd. pose proof (contents_nil d Hd) as Hnil. pose proof Hd as [Hl Hs Hn].
  unfold pop_from_top. destruct (Z.eqb_spec (head d) (tail d)) as [E|E].
  { by rewrite (proj2 Hnil E). }
  assert (Hp : 0 < set_size d) by (unfold set_size in *; lia).
  rewrite contents_cons in Hn |- * by done. apply Forall_cons in Hn as [Hx Hn].
  rewrite (LCI_Assert_true (head d <? tail d)) by (unfold set_size in *; lia). simpl.
  fold (cell d (head d)). rewrite assert_nonnull by done.
  eexists. split; [done|]. split_and!; [|done|done].
  split; [done| |done]. unfold set_size, qlen in *; simpl in *. lia.
Qed.

Lemma pop_from_bot_spec d :
  set_inv d ->
  (contents d = [] /\ pop_from_bot d = Ok (0, d))
  \/ exists ps p d', contents d = ps ++ [p] /\ pop_from_bot d = Ok (p, d') /\ set_inv d'
       /\ contents d' = ps /\ p <> 0.
Proof.
  intros Hd. pose proof (contents_nil d Hd) as Hnil. pose proof Hd as [Hl Hs Hn].
  unfold pop_from_bot. destruct (Z.eqb_spec (head d) (tail d)) as [E|E].
  { left. by rewrite (proj2 Hnil E). }
  right. assert (Hp : 0 < set_size d) by (unfold set_size in *; lia).
  rewrite contents_snoc in Hn |- * by done. apply Forall_app in Hn as [Hn [Hx _]%Forall_cons].
  rewrite (LCI_Assert_true (head d <? tail d)) by (unfold set_size in *; lia). simpl.
  fold (cell d (tail d - 1)). rewrite assert_nonnull by done.
  eexists _, _, _. split_and!; [done..| |done|done].
  split; [done| |done]. unfold set_size, qlen in *; simpl in *. lia.
Qed.

(** ** Sequences of operations *)

Inductive deque_op : Type :=
  | PushBot (p : Z) | PushTop (p : Z) | PopTop | PopBot.

Definition op_valid (o : deque_op) : Prop :=
  match o with PushBot p | PushTop p => p <> 0 | _ => True end.

Definition do_op (o : deque_op) (d : local_set_t) : result (Z * local_set_t) :=
  match o with
  | PushBot p => d ← push_to_bot p d ; Ok (0, d)
  | PushTop p => d ← push_to_top p d ; Ok (0, d)
  | PopTop => pop_from_top d
  | PopBot => pop_from_bot d
  end.

Definition spec_op (o : deque_op) (l : list Z) : Z * list Z :=
  match o with
  | PushBot p => (0, l ++ [p])
  | PushTop p => (0, p :: l)
  | PopTop => match l with [] => (0, []) | p :: l => (p, l) end
  | PopBot => match last l with None => (0, []) | Some p => (p, removelast l) end
  end.

Fixpoint run_ops (ops : list deque_op) (d : local_set_t) : result (list Z * local_set_t) :=
  match ops with
  | [] => Ok ([], d)
  | o :: ops =>
      '(r, d) ← do_op o d ;
      '(rs, d) ← run_ops ops d ;
      Ok (r :: rs, d)
  end.

Fixpoint run_spec (ops : list deque_op) (l : list Z) : list Z * list Z :=
  match ops with
  | [] => ([], l)
  | o :: ops => let '(r, l) := spec_op o l in let '(rs, l) := run_spec ops l in (r :: rs, l)
  end.

Lemma do_op_spec o d :
  set_inv d -> op_valid o ->
  exists r d', do_op o d = Ok (r, d') /\ set_inv d' /\ spec_op o (contents d) = (r, contents d').
Proof.
  intros Hd Ho. destruct o as [p|p| |]; simpl in *.
  - destruct (push_to_bot_spec d p Hd Ho) as (d' & -> & ? & <-). by eexists _, _.
  - destruct (push_to_top_spec d p Hd Ho) as (d' & -> & ? & <-). by eexists _, _.
  - pose proof (pop_from_top_spec d Hd) as H. destruct (contents d) as [|p ps] eqn:E.
    + rewrite H. eexists _, _. split_and!; [done..|by rewrite E].
    + destruct H as (d' & -> & ? & <- & _). by eexists _, _.
  - destruct (pop_from_bot_spec d Hd) as [[E ->]|(ps & p & d' & -> & -> & ? & <- & _)].
    + eexists _, _. split_and!; [done..|by rewrite E].
    + eexists _, _. split_and!; [done..|]. rewrite last_snoc. f_equal.
      by rewrite removelast_last.
Qed.

(** C28: Any sequence of pushes and pops at the two ends of a deque, from a fresh
    one of any positive size, succeeds and returns what a list would: growing
    the circular buffer and wrapping around it never lose, duplicate or reorder
    an element. *)
Theorem deque_refines_list n ops :
  0 < n -> Forall op_valid ops ->
  exists d rs d', local_set_new n = Ok d /\ run_ops ops d = Ok (rs, d')
    /\ run_spec ops [] = (rs, contents d').
Proof.
  intros Hn Hops. destruct (local_set_new_ok n Hn) as (d & -> & Hd & Hc).
  exists d. rewrite <-Hc. clear Hc Hn.
  revert d Hd. induction Hops as [|o ops Ho _ IH]; intros d Hd; simpl; [by eauto 6|].
  destruct (do_op_spec o d Hd Ho) as (r & d1 & -> & Hd1 & ->). simpl.
  destruct (IH d1 Hd1) as (rs & d' & _ & -> & ->). by eauto 6.
Qed.

(** A deque of one cell that grows twice, with both ends in use. *)
Definition deque_demo : list deque_op :=
  [PushBot 1; PushTop 2; PushBot 3; PushTop 4; PopTop; PushBot 5; PopBot; PopTop; PopTop; PopTop; PopTop].

Lemma deque_refines_list_witness :
  exists d rs d', local_set_new 1 = Ok d /\ run_ops deque_demo d = Ok (rs, d')
    /\ run_spec deque_demo [] = (rs, contents d').
Proof.
  apply (deque_refines_list 1 deque_demo); [lia|]. repeat constructor; simpl; lia.
Defined.
