(* ===== verification/MpmcSet.v ===== *)
(** * The set of packets (class [mpmc_set_t] of src/src/data_structure/mpmc_set.hpp)

    One deque per thread ([Deque.v]); a thread whose deque is empty steals half
    of a randomly chosen one. Deques are heap objects: [sets] is the store, the
    pointer [p] is the deque at index [p - 1], and the two arrays hold pointers.
    An operation holds the locks it needs, so it is one step; what depends on
    other threads or on the random generator, the outcome of each [try_lock] and
    each random number, is a parameter of the operation ([steal_env]). *)
From stdpp Require Import base numbers list sets strings.
From Stdlib Require Import ZArith Lia.
From S2P Require Import Prelude MpmcArray Deque.

Record mpmc_set_t : Type := mk_mpmc_set {
  default_lpool_size : Z;
  npools : nat;
  pools : mpmc_array_t Z;
  tid_to_pools : mpmc_array_t Z;
  sets : list local_set_t
}.

(** The constructor, with its default of 256 threads. *)
Definition mpmc_set_new (default_size : Z) : mpmc_set_t :=
  mk_mpmc_set default_size 0 (mpmc_array_new 0 256) (mpmc_array_new 0 256) [].

Definition with_sets (ss : list local_set_t) (s : mpmc_set_t) : mpmc_set_t :=
  mk_mpmc_set (default_lpool_size s) (npools s) (pools s) (tid_to_pools s) ss.

Definition deref (s : mpmc_set_t) (p : Z) : result local_set_t :=
  match (if 0 <? p then sets s !! Z.to_nat (p - 1) else None) with
  | Some d => Ok d
  | None => Err (Undefined "local pool pointer")
  end.
Definition store (p : Z) (d : local_set_t) (s : mpmc_set_t) : mpmc_set_t :=
  with_sets (<[Z.to_nat (p - 1) := d]> (sets s)) s.

(** [get_local_pool] of thread [tid]. *)
Definition get_local_pool (tid : nat) (s : mpmc_set_t) : result (Z * mpmc_set_t) :=
  let ptr := get 0 tid (tid_to_pools s) in
  if negb (ptr =? 0) then Ok (ptr, s)
  else
    d ← local_set_new (default_lpool_size s) ;
    let ptr := Z.of_nat (S (length (sets s))) in
    let pool_id := npools s in
    pools' ← put 0 pool_id ptr (pools s) ;
    tids' ← put 0 tid ptr (tid_to_pools s) ;
    Ok (ptr, mk_mpmc_set (default_lpool_size s) (S pool_id) pools' tids' (sets s ++ [d])).

Definition get_random_pool (rand : Z) (s : mpmc_set_t) : Z :=
  get 0 (Z.to_nat (rand mod Z.of_nat (npools s))) (pools s).

(** What the other threads and the random generator do at each attempt. *)
Record steal_env : Type := mk_env {
  rand_mt : nat -> Z;
  try_local : nat -> bool;
  try_random : nat -> bool
}.

Definition vector_resize (n : nat) (l : list Z) : list Z :=
  take n l ++ replicate (n - length l) 0.

(** One successful steal: half of [random], rounded up, from its top. *)
Definition steal_half (local random : Z) (s : mpmc_set_t) : result mpmc_set_t :=
  l ← deref s local ;
  r ← deref s random ;
  let size_to_steal := (set_size r + 1) / 2 in
  LCI_Assert (size_to_steal <=? set_size r) "n <= random_pool->size()" ;;
  let q := vector_resize (Z.to_nat (Z.max (default_lpool_size s) (size_to_steal * 2) + 1))
             (queue l) in
  '(q, r) ← copy_to_new r q size_to_steal ;
  LCI_Assert (head r <=? tail r) "head <= tail" ;;
  Ok (store local (mk_set q 0 size_to_steal) (store random r s)).

Fixpoint steal_packets (env : steal_env) (local : Z) (i fuel : nat) (s : mpmc_set_t) :
    result (bool * mpmc_set_t) :=
  match fuel with
  | O => Ok (false, s)
  | S fuel =>
      l ← deref s local ;
      LCI_Assert (set_empty l) "local pool must be empty" ;;
      let random := get_random_pool (rand_mt env i) s in
      if (random =? 0) || (random =? local) then steal_packets env local (S i) fuel s
      else
        r ← deref s random ;
        if set_size r <=? 0 then steal_packets env local (S i) fuel s
        else if negb (try_random env i) then steal_packets env local (S i) fuel s
        else s ← steal_half local random s ; Ok (true, s)
  end.

Fixpoint pop_n (n : nat) (d : local_set_t) : result (list Z * local_set_t) :=
  match n with
  | O => Ok ([], d)
  | S n =>
      '(ret, d) ← pop_from_bot d ;
      if ret =? 0 then Ok ([], d)
      else '(rets, d) ← pop_n n d ; Ok (ret :: rets, d)
  end.

(** [get_n]: the packets popped, in order. *)
Definition get_n (env : steal_env) (tid n max_retry_attempts : nat) (s : mpmc_set_t) :
    result (list Z * mpmc_set_t) :=
  '(local, s) ← get_local_pool tid s ;
  if negb (existsb (try_local env) (seq 0 max_retry_attempts)) then Ok ([], s)
  else
    l ← deref s local ;
    s ← (if set_size l =? 0
         then '(_, s) ← steal_packets env local 0 max_retry_attempts s ; Ok s
         else Ok s) ;
    l ← deref s local ;
    '(rets, l) ← pop_n n l ;
    Ok (rets, store local l s).

(** [put] by thread [current]; [tid] is the pool asked for, negative for the
    pool of the current thread. *)
Definition set_put (packet tid : Z) (current : nat) (s : mpmc_set_t) : result mpmc_set_t :=
  LCI_Assert (negb (packet =? 0)) "packet must not be nullptr" ;;
  let return_to_current := tid <? 0 in
  '(local, s) ← get_local_pool current s ;
  l ← deref s local ;
  l ← (if return_to_current then push_to_bot packet l else push_to_top packet l) ;
  Ok (store local l s).

(** [size]: the sum over the registered pools. *)
Fixpoint sum_sizes (s : mpmc_set_t) (i fuel : nat) : result Z :=
  match fuel with
  | O => Ok 0
  | S fuel =>
      let p := get 0 i (pools s) in
      LCI_Assert (negb (p =? 0)) "pool must not be nullptr" ;;
      d ← deref s p ;
      total ← sum_sizes s (S i) fuel ;
      Ok (set_size d + total)
  end.
Definition mpmc_set_size (s : mpmc_set_t) : result Z := sum_sizes s 0 (npools s).

(** ** Invariant *)

Definition valid_ptr (s : mpmc_set_t) (p : Z) : Prop := 1 <= p <= Z.of_nat (length (sets s)).

Record set_wf (s : mpmc_set_t) : Prop := mk_set_wf {
  wf_default : 0 < default_lpool_size s;
  wf_npools : npools s = length (sets s);
  wf_pools : forall i, (i < npools s)%nat -> get 0 i (pools s) = Z.of_nat (S i);
  wf_tids : forall tid, get 0 tid (tid_to_pools s) = 0
                        \/ valid_ptr s (get 0 tid (tid_to_pools s));
  wf_sets : Forall set_inv (sets s)
}.

(** The packets in the set, whichever deque they are in. *)
Definition packets (s : mpmc_set_t) : list Z := sets s ≫= contents.

Lemma bind_insert_perm {A B} (f : A -> list B) l i x y :
  l !! i = Some x -> (<[i := y]> l ≫= f) ++ f x ≡ₚ (l ≫= f) ++ f y.
Proof.
  intros Hx. rewrite <-(take_drop_middle l i x Hx) at 2.
  rewrite insert_take_drop by (by eapply lookup_lt_Some).
  rewrite !bind_app, !bind_cons. solve_Permutation.
Qed.

Lemma deref_valid s p :
  set_wf s -> valid_ptr s p ->
  exists d, deref s p = Ok d /\ sets s !! Z.to_nat (p - 1) = Some d /\ set_inv d.
Proof.
  intros Hs Hp. unfold deref. unfold valid_ptr in Hp. rewrite (proj2 (Z.ltb_lt 0 p)) by lia.
  destruct (lookup_lt_is_Some_2 (sets s) (Z.to_nat (p - 1))) as [d Hd]; [lia|].
  exists d. rewrite Hd. split_and!; [done..|].
  by eapply (Forall_lookup_1 _ _ _ _ (wf_sets s Hs)).
Qed.

Lemma deref_Ok s p d :
  set_wf s -> deref s p = Ok d -> sets s !! Z.to_nat (p - 1) = Some d /\ set_inv d.
Proof.
  intros Hs. unfold deref. destruct (0 <? p); [|done].
  destruct (sets s !! Z.to_nat (p - 1)) as [x|] eqn:E; [|done]. intros [= ->].
  split; [done|]. by eapply (Forall_lookup_1 _ _ _ _ (wf_sets s Hs)).
Qed.

Lemma store_wf s p d : set_wf s -> set_inv d -> set_wf (store p d s).
Proof.
  intros [H1 H2 H3 H4 H5] Hd. split; simpl; try done.
  - by rewrite length_insert.
  - intros tid. unfold valid_ptr; simpl. rewrite length_insert. apply H4.
  - by apply Forall_insert.
Qed.

Lemma store_packets s p d d' :
  sets s !! Z.to_nat (p - 1) = Some d ->
  packets (store p d' s) ++ contents d ≡ₚ packets s ++ contents d'.
Proof. intros H. by apply bind_insert_perm. Qed.

Lemma mpmc_set_new_wf n : 0 < n -> set_wf (mpmc_set_new n) /\ packets (mpmc_set_new n) = [].
Proof.
  intros Hn. split; [|done]. split; simpl; [done|done|lia| |by constructor].
  intros tid. left. by apply get_new.
Qed.

(** A thread's pool is created on first use, empty. *)
Lemma get_local_pool_spec tid s :
  set_wf s -> exists p s', get_local_pool tid s = Ok (p, s') /\ set_wf s' /\ valid_ptr s' p
    /\ packets s' = packets s.
Proof.
  intros Hs. pose proof Hs as [H1 H2 H3 H4 H5]. unfold get_local_pool.
  destruct (Z.eqb_spec (get 0 tid (tid_to_pools s)) 0) as [E|E]; simpl.
  - destruct (local_set_new_ok (default_lpool_size s) H1) as (d & -> & Hd & Hc). simpl.
    destruct (put_ok 0 (npools s) (Z.of_nat (S (length (sets s)))) (pools s))
      as (a1 & Ha1 & _ & _ & Hg1).
    destruct (put_ok 0 tid (Z.of_nat (S (length (sets s)))) (tid_to_pools s))
      as (a2 & Ha2 & _ & _ & Hg2).
    cbn -[Z.of_nat put] in *. rewrite Ha1. cbn -[Z.of_nat put]. rewrite Ha2.
    eexists _, _. split; [done|]. split_and!.
    + split; cbn -[Z.of_nat]; [done|rewrite length_app; simpl; lia| | |].
      * intros i Hi. rewrite Hg1. destruct (decide (i = npools s)) as [->|]; [by rewrite H2|].
        apply H3. lia.
      * intros t. rewrite Hg2. unfold valid_ptr; cbn -[Z.of_nat]. rewrite length_app; cbn -[Z.of_nat].
        destruct (decide (t = tid)); [right; lia|].
        destruct (H4 t) as [?|Hv]; [by left|right]. unfold valid_ptr in Hv. lia.
      * apply Forall_app_2; [done|by constructor].
    + unfold valid_ptr; cbn -[Z.of_nat]. rewrite length_app; cbn -[Z.of_nat]. lia.
    + unfold packets; simpl. rewrite bind_app, bind_cons, Hc. simpl. by rewrite app_nil_r.
  - eexists _, _. split_and!; [done..| |done]. by destruct (H4 tid).
Qed.

Lemma pop_n_spec n : forall d,
  set_inv d -> exists rets d', pop_n n d = Ok (rets, d') /\ set_inv d'
    /\ contents d = contents d' ++ rev rets /\ (length rets <= n)%nat
    /\ Forall (fun p => p <> 0) rets
    /\ ((0 < n)%nat -> contents d <> [] -> rets <> []).
Proof.
  induction n as [|n IH]; intros d Hd; simpl.
  { exists [], d. rewrite app_nil_r. split_and!; try done. lia. }
  destruct (pop_from_bot_spec d Hd) as [[E ->]|(ps & p & d1 & E & -> & Hd1 & Hc1 & Hp)]; simpl.
  - exists [], d. rewrite app_nil_r. split_and!; simpl; try done; try lia.
  - rewrite (proj2 (Z.eqb_neq p 0) Hp).
    destruct (IH d1 Hd1) as (rets & d' & -> & Hd' & Hc' & Hlen & Hn & _). simpl.
    exists (p :: rets), d'. split_and!; try done; [|simpl; lia|by constructor].
    rewrite E, <-Hc1, Hc'. simpl. by rewrite app_assoc.
Qed.

Lemma length_vector_resize n l : length (vector_resize n l) = n.
Proof. unfold vector_resize. rewrite length_app, length_take, length_replicate. lia. Qed.

(** A steal moves the top half of the other deque, in order. *)
Lemma steal_half_spec local random s l r :
  set_wf s -> valid_ptr s local -> valid_ptr s random -> local <> random ->
  deref s local = Ok l -> deref s random = Ok r -> contents l = [] -> 0 < set_size r ->
  exists s', steal_half local random s = Ok s' /\ set_wf s' /\ packets s' ≡ₚ packets s
    /\ length (sets s') = length (sets s).
Proof.
  intros Hs Hl Hr Hne El Er Hc Hp. unfold steal_half. rewrite El, Er. cbn [mbind result_bind].
  destruct (deref_Ok s local l Hs El) as [Hll Hil].
  destruct (deref_Ok s random r Hs Er) as [Hlr Hir].
  set (n := (set_size r + 1) / 2).
  assert (Hn : 0 < n <= set_size r) by (unfold n; Z.to_euclidean_division_equations; lia).
  rewrite LCI_Assert_true by lia. cbn [mbind result_bind].
  set (q := vector_resize _ _).
  assert (Hq : Z.of_nat (length q) = Z.max (default_lpool_size s) (n * 2) + 1).
  { unfold q. rewrite length_vector_resize. pose proof (wf_default s Hs). lia. }
  pose proof Hir as [Hr1 Hr2 Hr3].
  destruct (copy_to_new_spec r q n) as (q' & -> & Hlen & Htake); [lia..|].
  cbn [mbind result_bind]. rewrite LCI_Assert_true by (unfold set_size in *; simpl; lia).
  cbn [mbind result_bind].
  set (r' := mk_set (queue r) (head r + n) (tail r)).
  assert (Hr'c : contents r' = drop (Z.to_nat n) (contents r)) by (apply drop_contents; lia).
  assert (Hr'i : set_inv r').
  { split; [done|unfold set_size, r', qlen in *; simpl in *; lia|].
    rewrite Hr'c. by apply Forall_drop. }
  assert (Hl'c : contents (mk_set q' 0 n) = take (Z.to_nat n) (contents r)).
  { rewrite contents_prefix by lia. done. }
  assert (Hl'i : set_inv (mk_set q' 0 n)).
  { split; [unfold qlen; simpl; lia|unfold qlen, set_size; simpl; lia|].
    rewrite Hl'c. by apply Forall_take. }
  eexists. split; [done|]. split_and!; [by repeat apply store_wf| |simpl; by rewrite !length_insert].
  pose proof (store_packets s random r r' Hlr) as P1.
  pose proof (store_packets (store random r' s) local l (mk_set q' 0 n)) as P2.
  unfold store at 1 in P2; simpl in P2. unfold valid_ptr in *.
  rewrite list_lookup_insert_ne in P2 by lia. specialize (P2 Hll).
  rewrite Hc, app_nil_r, Hl'c in P2. rewrite P2.
  apply (Permutation_app_inv_r (contents r)). rewrite <-app_assoc.
  rewrite (Permutation_app_comm (take _ _)), app_assoc, P1, Hr'c, <-app_assoc.
  apply Permutation_app_head. rewrite Permutation_app_comm, take_drop. done.
Qed.

Lemma get_random_pool_valid rand s :
  set_wf s -> (0 < length (sets s))%nat -> valid_ptr s (get_random_pool rand s).
Proof.
  intros Hs Hl. unfold get_random_pool. pose proof (wf_npools s Hs) as Hn.
  pose proof (Z.mod_pos_bound rand (Z.of_nat (npools s))).
  rewrite (wf_pools s Hs) by lia. unfold valid_ptr. lia.
Qed.

Lemma steal_packets_spec env local fuel : forall i s l,
  set_wf s -> valid_ptr s local -> deref s local = Ok l -> contents l = [] ->
  exists b s', steal_packets env local i fuel s = Ok (b, s') /\ set_wf s'
    /\ packets s' ≡ₚ packets s /\ length (sets s') = length (sets s).
Proof.
  induction fuel as [|fuel IH]; intros i s l Hs Hv El Hc; [by eexists _, _|].
  simpl. rewrite El. simpl.
  destruct (deref_Ok s local l Hs El) as [Hll Hil].
  rewrite LCI_Assert_true by (unfold set_empty; by apply Z.eqb_eq, contents_nil). simpl.
  destruct (orb _ _) eqn:Eo; [by eapply IH|].
  apply orb_false_iff in Eo as [_ Eo%Z.eqb_neq].
  pose proof (get_random_pool_valid (rand_mt env i) s Hs) as Hr.
  specialize (Hr ltac:(unfold valid_ptr in Hv; lia)).
  destruct (deref_valid s _ Hs Hr) as (r & Er & _ & _). rewrite Er. simpl.
  destruct (set_size r <=? 0) eqn:Ez; [by eapply IH|].
  destruct (try_random env i); simpl; [|by eapply IH].
  destruct (steal_half_spec local (get_random_pool (rand_mt env i) s) s l r)
    as (s' & -> & ?); [done..|congruence|done|done|done|lia|]. by eexists _, _.
Qed.

(** ** No packet is lost or duplicated *)

Lemma get_n_spec env tid n attempts s :
  set_wf s ->
  exists rets s', get_n env tid n attempts s = Ok (rets, s') /\ set_wf s'
    /\ packets s ≡ₚ rets ++ packets s' /\ (length rets <= n)%nat
    /\ Forall (fun p => p <> 0) rets.
Proof.
  intros Hs. unfold get_n.
  destruct (get_local_pool_spec tid s Hs) as (p & s1 & -> & Hs1 & Hp & Hpk). simpl.
  rewrite <-Hpk. destruct (existsb _ _); simpl; cycle 1.
  { exists [], s1. split_and!; simpl; try done. lia. }
  destruct (deref_valid s1 p Hs1 Hp) as (l & El & Hl & Hil). rewrite El. simpl.
  assert (exists s2, (if set_size l =? 0
      then '(_, s) ← steal_packets env p 0 attempts s1 ; Ok s else Ok s1) = Ok s2
    /\ set_wf s2 /\ packets s2 ≡ₚ packets s1 /\ length (sets s2) = length (sets s1))
    as (s2 & -> & Hs2 & Hp2 & Hl2).
  { destruct (Z.eqb_spec (set_size l) 0) as [E|]; [|by eexists].
    destruct (steal_packets_spec env p attempts 0 s1 l) as (b & s2 & -> & ?); [done..| |].
    - apply contents_nil; [done|]. unfold set_size in E. lia.
    - by eexists. }
  simpl. assert (Hp2' : valid_ptr s2 p) by (unfold valid_ptr in *; lia).
  destruct (deref_valid s2 p Hs2 Hp2') as (l2 & -> & Hll2 & Hil2). simpl.
  destruct (pop_n_spec n l2 Hil2) as (rets & l3 & -> & Hil3 & Hc3 & Hlen & Hnz & _). simpl.
  eexists _, _. split; [done|]. split_and!; [by apply store_wf| |done|done].
  rewrite <-Hp2. pose proof (store_packets s2 p l2 l3 Hll2) as P.
  apply (Permutation_app_inv_r (contents l3)). rewrite <-P, Hc3.
  rewrite <-(Permutation_rev rets). solve_Permutation.
Qed.

Lemma set_put_spec packet tid current s :
  set_wf s -> packet <> 0 ->
  exists s', set_put packet tid current s = Ok s' /\ set_wf s'
    /\ packets s' ≡ₚ packet :: packets s.
Proof.
  intros Hs Hn. unfold set_put. rewrite assert_nonnull by done. simpl.
  destruct (get_local_pool_spec current s Hs) as (p & s1 & -> & Hs1 & Hp & Hpk). simpl.
  rewrite <-Hpk. destruct (deref_valid s1 p Hs1 Hp) as (l & -> & Hl & Hil). simpl.
  assert (exists l', (if tid <? 0 then push_to_bot packet l else push_to_top packet l) = Ok l'
    /\ set_inv l' /\ contents l' ≡ₚ packet :: contents l) as (l' & -> & Hil' & Hc).
  { destruct (tid <? 0).
    - destruct (push_to_bot_spec l packet Hil Hn) as (l' & -> & ? & Hc). eexists.
      split_and!; [done..|]. by rewrite Hc, Permutation_app_comm.
    - destruct (push_to_top_spec l packet Hil Hn) as (l' & -> & ? & Hc). eexists.
      split_and!; [done..|]. by rewrite Hc. }
  simpl. eexists. split; [done|]. split; [by apply store_wf|].
  pose proof (store_packets s1 p l l' Hl) as P.
  apply (Permutation_app_inv_r (contents l)). rewrite P, Hc. solve_Permutation.
Qed.

Lemma mpmc_set_size_spec s :
  set_wf s -> mpmc_set_size s = Ok (Z.of_nat (length (packets s))).
Proof.
  intros Hs. unfold mpmc_set_size.
  assert (H : forall fuel i, (i + fuel = length (sets s))%nat ->
    sum_sizes s i fuel = Ok (Z.of_nat (length (drop i (sets s) ≫= contents)))).
  { induction fuel as [|fuel IH]; intros i Hi.
    - by rewrite drop_ge by lia.
    - simpl. pose proof (wf_npools s Hs). rewrite (wf_pools s Hs) by lia.
      rewrite assert_nonnull by lia. cbn [mbind result_bind].
      destruct (deref_valid s (Z.of_nat (S i)) Hs) as (d & -> & Hd & Hid).
      { unfold valid_ptr. lia. }
      cbn [mbind result_bind]. rewrite IH by lia. cbn [mbind result_bind].
      replace (Z.to_nat (Z.of_nat (S i) - 1)) with i in Hd by lia.
      rewrite (drop_S _ _ _ Hd), bind_cons, length_app, contents_length.
      pose proof (si_size d Hid). f_equal. lia. }
  rewrite H by (by rewrite <-(wf_npools s Hs)). by rewrite drop_0.
Qed.

(** ** Sequences of operations by any threads *)

Inductive set_op : Type :=
  | SGet (env : steal_env) (tid n attempts : nat)
  | SPut (packet tid : Z) (current : nat).

Definition set_op_valid (o : set_op) : Prop :=
  match o with SPut p _ _ => p <> 0 | SGet _ _ _ _ => True end.

Definition put_in (ops : list set_op) : list Z :=
  ops ≫= fun o => match o with SPut p _ _ => [p] | SGet _ _ _ _ => [] end.

(** A run returns the packets handed out. *)
Fixpoint run_set (ops : list set_op) (s : mpmc_set_t) : result (list Z * mpmc_set_t) :=
  match ops with
  | [] => Ok ([], s)
  | SGet env tid n attempts :: ops =>
      '(rets, s) ← get_n env tid n attempts s ;
      '(outs, s) ← run_set ops s ;
      Ok (rets ++ outs, s)
  | SPut p tid current :: ops =>
      s ← set_put p tid current s ; run_set ops s
  end.

Lemma run_set_spec ops : forall s,
  set_wf s -> Forall set_op_valid ops ->
  exists outs s', run_set ops s = Ok (outs, s') /\ set_wf s'
    /\ packets s' ++ outs ≡ₚ packets s ++ put_in ops.
Proof.
  induction ops as [|o ops IH]; intros s Hs Hops; [by eexists _, _|].
  apply Forall_cons in Hops as [Ho Hops]. destruct o as [env tid n attempts|p tid current]; simpl.
  - destruct (get_n_spec env tid n attempts s Hs) as (rets & s1 & -> & Hs1 & P & _). simpl.
    destruct (IH s1 Hs1 Hops) as (outs & s' & -> & Hs' & P'). simpl.
    eexists _, _. split_and!; [done..|]. rewrite P, app_assoc.
    rewrite (Permutation_app_comm (packets s')), <-app_assoc, P'. by rewrite app_assoc.
  - destruct (set_put_spec p tid current s Hs Ho) as (s1 & -> & Hs1 & P). simpl.
    destruct (IH s1 Hs1 Hops) as (outs & s' & -> & Hs' & P').
    eexists _, _. split_and!; [done..|]. rewrite P', P. solve_Permutation.
Qed.

(** Whatever sequence of gets, puts and steals any threads make, with
    whatever luck at try-locks and random choices, no assertion fails and no
    packet is lost or duplicated: those in the set and those handed out are
    together those that were put in, and [size] reports how many are left. *)
Theorem set_conserves_packets n ops :
  0 < n -> Forall set_op_valid ops ->
  exists outs s', run_set ops (mpmc_set_new n) = Ok (outs, s')
    /\ packets s' ++ outs ≡ₚ put_in ops
    /\ mpmc_set_size s' = Ok (Z.of_nat (length (put_in ops)) - Z.of_nat (length outs)).
Proof.
  intros Hn Hops. destruct (mpmc_set_new_wf n Hn) as [Hwf Hempty].
  destruct (run_set_spec ops _ Hwf Hops) as (outs & s' & Hrun & Hs' & P).
  rewrite Hempty in P. exists outs, s'. split_and!; [done..|].
  rewrite mpmc_set_size_spec by done. apply Permutation_length in P.
  rewrite length_app in P. simpl in P. f_equal. lia.
Qed.

(** Three packets of thread 0; thread 1 steals two of them. *)
Definition steal_demo : list set_op :=
  [SPut 64 (-1) 0; SPut 128 (-1) 0; SPut 192 5 0;
   SGet (mk_env (fun i => Z.of_nat i) (fun _ => true) (fun _ => true)) 1 4 2].

Lemma set_conserves_packets_witness :
  exists outs s', run_set steal_demo (mpmc_set_new 1) = Ok (outs, s')
    /\ packets s' ++ outs ≡ₚ put_in steal_demo
    /\ mpmc_set_size s' = Ok (Z.of_nat (length (put_in steal_demo)) - Z.of_nat (length outs)).
Proof.
  apply (set_conserves_packets 1 steal_demo); [lia|]. repeat constructor; simpl; lia.
Defined.

Example steal_demo_run :
  match run_set steal_demo (mpmc_set_new 1) with Ok (outs, _) => outs | Err _ => [] end
  = [64; 192].
Proof. vm_compute. reflexivity. Qed.
