(* ===== verification/PacketPool.v ===== *)
(** * The packet pool (src/src/packet_pool)

    A packet is a header ([packet_local_context_t]) followed by its payload;
    [npackets] of them lie one after the other in one heap block, each of
    [packet_size] bytes, so that every payload starts a cache line. The pool
    keeps the free ones in an [mpmc_set_t] (MpmcSet.v). A packet is its address.
    The headers are a map from addresses; before a packet was handed out for the
    first time its header is memory that was never written ([garbage]). *)
From stdpp Require Import base numbers list gmap sets strings.
From Stdlib Require Import ZArith Lia.
From S2P Require Import Prelude MpmcArray Deque MpmcSet.

Definition LCI_CACHE_LINE : Z := 64.
Definition LOCAL_SET_ID_NULL : Z := -1.

Record packet_local_context_t : Type := mk_lctx {
  lc_pool : Z;
  lc_local_id : Z;
  lc_isInPool : bool;
  lc_is_eager : bool;
  lc_rank : Z;
  lc_tag : Z;
  lc_size : Z
}.

Record packet_pool_attr_t : Type := mk_pool_attr { packet_size : Z; npackets : nat }.

Record packet_pool_impl_t : Type := mk_pool {
  attr : packet_pool_attr_t;
  pool : mpmc_set_t;
  heap : Z;
  base_packet_p : Z;
  heap_size : Z;
  mrs : mpmc_array_t Z;
  npacket_lost : Z;
  headers : gmap Z packet_local_context_t
}.

Section Pool.
(** The size of the header struct, at most a cache line (the static_assert of
    [get_payload_size]); this pool's own address; the bytes of headers that
    were never written. *)
Context (sizeof_lctx this : Z) (garbage : packet_local_context_t).

Definition with_pool (s : mpmc_set_t) (h : gmap Z packet_local_context_t)
    (p : packet_pool_impl_t) : packet_pool_impl_t :=
  mk_pool (attr p) s (heap p) (base_packet_p p) (heap_size p) (mrs p) (npacket_lost p) h.

Definition header (p : packet_pool_impl_t) (a : Z) : packet_local_context_t :=
  default garbage (headers p !! a).

Definition get_payload_address (packet : Z) : Z := u64 (packet + sizeof_lctx).
Definition address2packet (address : Z) : Z := u64 (address - sizeof_lctx).

Definition packet_at (base psize : Z) (i : nat) : Z := base + Z.of_nat i * psize.

(** The loop of the constructor that fills the set, by thread [tid]. *)
Fixpoint put_all (addrs : list Z) (tid : nat) (s : mpmc_set_t) : result mpmc_set_t :=
  match addrs with
  | [] => Ok s
  | a :: addrs => s ← set_put a LOCAL_SET_ID_NULL tid s ; put_all addrs tid s
  end.

(** The constructor; [heap_addr] is what [alloc_memalign] returned. *)
Definition packet_pool_new (at_ : packet_pool_attr_t) (heap_addr : Z) (tid : nat) :
    result packet_pool_impl_t :=
  if (npackets at_ =? 0)%nat then
    Ok (mk_pool at_ (mpmc_set_new 1024) 0 0 0 (mpmc_array_new 0 64) 0 ∅)
  else
    let base := heap_addr + LCI_CACHE_LINE - sizeof_lctx in
    s ← put_all (packet_at base (packet_size at_) <$> seq 0 (npackets at_)) tid
          (mpmc_set_new 1024) ;
    Ok (mk_pool at_ s heap_addr base
          (Z.of_nat (npackets at_) * packet_size at_ + LCI_CACHE_LINE)
          (mpmc_array_new 0 64) 0 ∅).

Definition is_packet (p : packet_pool_impl_t) (address : Z) (include_lcontext : bool) : bool :=
  if address =? 0 then false
  else
    let packet_address := if include_lcontext then address else address2packet address in
    let offset := u64 (packet_address - base_packet_p p) in
    (base_packet_p p <=? packet_address)
    && (offset mod packet_size (attr p) =? 0)
    && (offset / packet_size (attr p) <? Z.of_nat (npackets (attr p))).

Definition get_payload_size (p : packet_pool_impl_t) : Z :=
  u64 (packet_size (attr p) - LCI_CACHE_LINE).

(** What [get_n] writes in the header of a packet it hands out. *)
Definition hand_out (c : packet_local_context_t) : packet_local_context_t :=
  mk_lctx this LOCAL_SET_ID_NULL false (lc_is_eager c) (lc_rank c) (lc_tag c) (lc_size c).

Definition hand_out_all (p : packet_pool_impl_t) (rets : list Z) : gmap Z packet_local_context_t :=
  foldl (fun h a => <[a := hand_out (default garbage (h !! a))]> h) (headers p) rets.

Definition pool_get_n (env : steal_env) (tid n : nat) (blocking : bool)
    (p : packet_pool_impl_t) : result (list Z * packet_pool_impl_t) :=
  let nattempts := if blocking then Z.to_nat 1000000 else 1%nat in
  '(rets, s) ← get_n env tid n nattempts (pool p) ;
  LCI_Assert (negb (length rets =? 0)%nat || negb blocking)
    "Failed to get a packet in a blocking get" ;;
  LCI_Assert (forallb (fun a => negb (a =? 0)) rets) "Failed to get a packet" ;;
  Ok (rets, with_pool s (hand_out_all p rets) p).

(** [get]: [0] when there is none. *)
Definition pool_get (env : steal_env) (tid : nat) (blocking : bool) (p : packet_pool_impl_t) :
    result (Z * packet_pool_impl_t) :=
  '(rets, p) ← pool_get_n env tid 1 blocking p ;
  Ok (default 0 (rets !! 0%nat), p).

Definition set_in_pool (c : packet_local_context_t) : packet_local_context_t :=
  mk_lctx (lc_pool c) (lc_local_id c) true (lc_is_eager c) (lc_rank c) (lc_tag c) (lc_size c).

Definition pool_put (current : nat) (packet : Z) (p : packet_pool_impl_t) :
    result packet_pool_impl_t :=
  LCI_Assert (is_packet p packet true) "Not a packet" ;;
  LCI_Assert (negb (lc_isInPool (header p packet))) "This packet has already been freed" ;;
  let c := set_in_pool (header p packet) in
  s ← set_put packet (lc_local_id c) current (pool p) ;
  Ok (with_pool s (<[packet := c]> (headers p)) p).

(** [get_upacket] and [put_upacket]: users see payload addresses. *)
Definition get_upacket (env : steal_env) (tid : nat) (p : packet_pool_impl_t) :
    result (Z * packet_pool_impl_t) :=
  '(packet, p) ← pool_get env tid false p ;
  Ok (if packet =? 0 then 0 else get_payload_address packet, p).
Definition put_upacket (current : nat) (upacket : Z) (p : packet_pool_impl_t) :
    result packet_pool_impl_t :=
  pool_put current (address2packet upacket) p.

Definition report_lost_packets (n : Z) (p : packet_pool_impl_t) : packet_pool_impl_t :=
  mk_pool (attr p) (pool p) (heap p) (base_packet_p p) (heap_size p) (mrs p)
          (npacket_lost p + n) (headers p).

(** What the destructor warns about: packets neither in the set nor reported. *)
Definition missing_packets (p : packet_pool_impl_t) : result Z :=
  n ← mpmc_set_size (pool p) ;
  Ok (Z.of_nat (npackets (attr p)) - (n + npacket_lost p)).

(** ** Addresses *)

(** The heap block does not wrap around the address space, and a header fits in
    a cache line. *)
Record pool_layout (p : packet_pool_impl_t) : Prop := mk_layout {
  pl_lctx : 0 < sizeof_lctx <= LCI_CACHE_LINE;
  pl_heap : 0 < heap p;
  pl_base : base_packet_p p = heap p + LCI_CACHE_LINE - sizeof_lctx;
  pl_psize : LCI_CACHE_LINE < packet_size (attr p) < 2 ^ 64;
  pl_size : heap_size p = Z.of_nat (npackets (attr p)) * packet_size (attr p) + LCI_CACHE_LINE;
  pl_fits : heap p + heap_size p < 2 ^ 64
}.

Definition all_packets (p : packet_pool_impl_t) : list Z :=
  packet_at (base_packet_p p) (packet_size (attr p)) <$> seq 0 (npackets (attr p)).

Lemma elem_of_all_packets p a :
  a ∈ all_packets p <-> exists i, (i < npackets (attr p))%nat
    /\ a = base_packet_p p + Z.of_nat i * packet_size (attr p).
Proof.
  unfold all_packets. rewrite list_elem_of_fmap. setoid_rewrite elem_of_seq.
  unfold packet_at. split; intros (i & ?); exists i; [|naive_solver lia].
  split; [lia|naive_solver].
Qed.

Lemma packet_bounds p a :
  pool_layout p -> a ∈ all_packets p ->
  heap p < a + sizeof_lctx /\ a + packet_size (attr p) <= heap p + heap_size p
  /\ is_u64 a /\ a <> 0 /\ a + sizeof_lctx < 2 ^ 64.
Proof.
  intros [H1 H2 H3 H4 H5 H6] (i & Hi & ->)%elem_of_all_packets.
  unfold is_u64, LCI_CACHE_LINE in *. rewrite H3 in *.
  assert (Z.of_nat i * packet_size (attr p) + packet_size (attr p)
          <= Z.of_nat (npackets (attr p)) * packet_size (attr p)) by nia.
  assert (0 <= Z.of_nat i * packet_size (attr p)) by nia. lia.
Qed.

Lemma is_packet_true p a :
  pool_layout p -> is_u64 a -> (is_packet p a true = true <-> a ∈ all_packets p).
Proof.
  intros Hl Ha. pose proof Hl as [H1 H2 H3 H4 H5 H6]. unfold LCI_CACHE_LINE in *.
  unfold is_packet. destruct (Z.eqb_spec a 0) as [->|Hn].
  { split; [done|]. intros Hin. by destruct (packet_bounds p 0 Hl Hin) as (_&_&_&?&_). }
  unfold is_u64 in Ha. rewrite !andb_true_iff, Z.leb_le, Z.eqb_eq, Z.ltb_lt.
  rewrite elem_of_all_packets. split.
  - intros [[Hb Hm] Hd]. rewrite u64_id in Hm, Hd by (unfold is_u64; lia).
    set (q := (a - base_packet_p p) / packet_size (attr p)) in *.
    pose proof (Z.div_mod (a - base_packet_p p) (packet_size (attr p))) as E.
    assert (0 <= q) by (apply Z.div_pos; lia).
    exists (Z.to_nat q). fold q in E. split; [lia|]. rewrite Z2Nat.id by lia. lia.
  - intros (i & Hi & ->).
    replace (base_packet_p p + Z.of_nat i * packet_size (attr p) - base_packet_p p)
      with (Z.of_nat i * packet_size (attr p)) by lia.
    assert (0 <= Z.of_nat i * packet_size (attr p)) by nia.
    rewrite u64_id by (unfold is_u64; lia).
    rewrite Z.mod_mul, Z.div_mul by lia. lia.
Qed.

Lemma payload_packet p a :
  pool_layout p -> a ∈ all_packets p ->
  get_payload_address a = a + sizeof_lctx /\ address2packet (get_payload_address a) = a.
Proof.
  intros Hl Ha. destruct (packet_bounds p a Hl Ha) as (_&_&Hu&_&Hs).
  pose proof (pl_lctx p Hl). unfold is_u64 in Hu.
  unfold get_payload_address, address2packet.
  rewrite (u64_id (a + sizeof_lctx)) by (unfold is_u64; lia).
  split; [done|]. replace (a + sizeof_lctx - sizeof_lctx) with a by lia. by apply u64_id.
Qed.

Lemma all_packets_nodup p : pool_layout p -> NoDup (all_packets p).
Proof.
  intros Hl. pose proof (pl_psize p Hl). unfold LCI_CACHE_LINE in *.
  unfold all_packets. apply NoDup_fmap; [|apply NoDup_seq].
  intros i j. unfold packet_at. nia.
Qed.

(** ** Who holds a packet *)

Record pool_inv (held : list Z) (p : packet_pool_impl_t) : Prop := mk_pool_inv {
  pi_layout : pool_layout p;
  pi_set : set_wf (pool p);
  pi_all : held ++ packets (pool p) ≡ₚ all_packets p;
  pi_out : forall a, a ∈ held -> lc_isInPool (header p a) = false /\ lc_pool (header p a) = this
}.

Lemma put_all_spec tid addrs : forall s,
  set_wf s -> Forall (fun a => a <> 0) addrs ->
  exists s', put_all addrs tid s = Ok s' /\ set_wf s' /\ packets s' ≡ₚ addrs ++ packets s.
Proof.
  induction addrs as [|a addrs IH]; intros s Hs Ha; simpl; [by eauto|].
  apply Forall_cons in Ha as [Ha Haddrs].
  destruct (set_put_spec a LOCAL_SET_ID_NULL tid s Hs Ha) as (s1 & -> & Hs1 & P1). simpl.
  destruct (IH s1 Hs1 Haddrs) as (s' & -> & Hs' & P'). exists s'. split_and!; [done..|].
  rewrite P', P1. by rewrite Permutation_middle.
Qed.

Lemma packet_pool_new_ok at_ heap_addr tid :
  0 < sizeof_lctx <= LCI_CACHE_LINE -> 0 < heap_addr ->
  (0 < npackets at_)%nat -> LCI_CACHE_LINE < packet_size at_ ->
  heap_addr + (Z.of_nat (npackets at_) * packet_size at_ + LCI_CACHE_LINE) < 2 ^ 64 ->
  exists p, packet_pool_new at_ heap_addr tid = Ok p /\ pool_inv [] p /\ attr p = at_.
Proof.
  intros Hs Hh Hn Hp Hf. unfold packet_pool_new.
  destruct (Nat.eqb_spec (npackets at_) 0); [lia|].
  destruct (mpmc_set_new_wf 1024 ltac:(lia)) as [Hwf Hempty].
  set (base := heap_addr + LCI_CACHE_LINE - sizeof_lctx).
  set (p0 := mk_pool at_ (mpmc_set_new 1024) heap_addr base
    (Z.of_nat (npackets at_) * packet_size at_ + LCI_CACHE_LINE) (mpmc_array_new 0 64) 0 ∅).
  assert (Hl : pool_layout p0).
  { unfold LCI_CACHE_LINE in *. split; unfold LCI_CACHE_LINE; simpl; nia. }
  destruct (put_all_spec tid (all_packets p0) (mpmc_set_new 1024) Hwf) as (s & Es & Hs' & P).
  { apply Forall_forall. intros a Ha. by destruct (packet_bounds p0 a Hl Ha) as (_&_&_&?&_). }
  change (packet_at base (packet_size at_) <$> seq 0 (npackets at_)) with (all_packets p0).
  rewrite Es. eexists. split; [done|]. split; [|done].
  split; [by destruct Hl; split|done| |set_solver].
  simpl. rewrite P, Hempty. by rewrite app_nil_r.
Qed.

Lemma hand_out_all_lookup p rets a :
  header (with_pool (pool p) (hand_out_all p rets) p) a
  = if decide (a ∈ rets) then
      match hand_out (header p a) with c => c end
    else header p a.
Proof.
  unfold header, hand_out_all; simpl. generalize (headers p). clear p.
  induction rets as [|b rets IH]; intros h; simpl; [done|].
  rewrite IH. destruct (decide (a = b)) as [->|Hne].
  - rewrite lookup_insert_eq, (decide_True (P := b ∈ b :: rets)) by (by left). simpl.
    by destruct (decide _).
  - rewrite lookup_insert_ne by done. destruct (decide (a ∈ rets)).
    + by rewrite decide_True by (by right).
    + by rewrite decide_False by (by rewrite not_elem_of_cons).
Qed.

Lemma pool_get_n_spec held env tid n p :
  pool_inv held p ->
  exists rets p', pool_get_n env tid n false p = Ok (rets, p')
    /\ pool_inv (rets ++ held) p' /\ (length rets <= n)%nat.
Proof.
  intros [Hl Hset Hall Hout]. unfold pool_get_n.
  destruct (get_n_spec env tid n 1 (pool p) Hset) as (rets & s & -> & Hs & P & Hlen & Hnz). simpl.
  rewrite orb_true_r. simpl. rewrite LCI_Assert_true; [simpl|].
  2: { apply forallb_forall. intros a Ha%list_elem_of_In.
       apply negb_true_iff, Z.eqb_neq. by eapply (proj1 (Forall_forall _ _) Hnz). }
  eexists _, _. split; [done|]. split; [|done]. split; simpl.
  - by destruct Hl; split.
  - done.
  - change (all_packets (with_pool _ _ p)) with (all_packets p).
    rewrite <-Hall, P. solve_Permutation.
  - intros a Ha. pose proof (hand_out_all_lookup p rets a) as E.
    unfold header in E |- *; simpl in E |- *. rewrite E. fold (header p a).
    destruct (decide (a ∈ rets)); [done|]. apply Hout. set_solver.
Qed.

Lemma pool_put_spec held a p current :
  pool_inv (a :: held) p ->
  exists p', pool_put current a p = Ok p' /\ pool_inv held p'
    /\ lc_isInPool (header p' a) = true.
Proof.
  intros [Hl Hset Hall Hout]. unfold pool_put.
  assert (Ha : a ∈ all_packets p) by (rewrite <-Hall; by left).
  destruct (packet_bounds p a Hl Ha) as (_&_&Hu&Hnz&_).
  rewrite (LCI_Assert_true (is_packet p a true)) by (by apply is_packet_true). simpl.
  destruct (Hout a) as [Hin _]; [by left|]. rewrite Hin. simpl.
  destruct (set_put_spec a (lc_local_id (header p a)) current (pool p) Hset Hnz)
    as (s & -> & Hs & P). simpl.
  assert (Hnd : NoDup (a :: held ++ packets (pool p))).
  { rewrite app_comm_cons, Hall. by apply all_packets_nodup. }
  eexists. split; [done|]. split; [|unfold header; simpl; by rewrite lookup_insert_eq].
  split; simpl; [by destruct Hl; split|done| |].
  - change (all_packets (with_pool _ _ p)) with (all_packets p). rewrite <-Hall, P.
    solve_Permutation.
  - intros b Hb. unfold header; simpl. rewrite lookup_insert_ne.
    + apply Hout. by right.
    + intros <-. apply NoDup_cons in Hnd as [Hnd _]. set_solver.
Qed.

(** A packet that was just returned cannot be returned again. *)
Lemma pool_double_put a p current :
  pool_layout p -> a ∈ all_packets p -> lc_isInPool (header p a) = true ->
  pool_put current a p = Err (AssertFailed "This packet has already been freed").
Proof.
  intros Hl Ha E. destruct (packet_bounds p a Hl Ha) as (_&_&Hu&_&_). unfold pool_put.
  rewrite (LCI_Assert_true (is_packet p a true)) by (by apply is_packet_true). simpl.
  by rewrite E.
Qed.

(** ** Histories of a pool *)

(** States reached from a pool by handing packets out and returning held ones;
    [held] are the packets that are out. *)
Inductive pool_history (p0 : packet_pool_impl_t) : list Z -> packet_pool_impl_t -> Prop :=
  | ph_start : pool_history p0 [] p0
  | ph_get held p env tid n blocking rets p' :
      pool_history p0 held p -> pool_get_n env tid n blocking p = Ok (rets, p') ->
      pool_history p0 (rets ++ held) p'
  | ph_put held p current a held' p' :
      pool_history p0 held p -> held ≡ₚ a :: held' -> pool_put current a p = Ok p' ->
      pool_history p0 held' p'.

Lemma pool_inv_perm held held' p : held ≡ₚ held' -> pool_inv held p -> pool_inv held' p.
Proof.
  intros P [H1 H2 H3 H4]. split; try done; [by rewrite <-P|].
  intros a Ha. apply H4. by rewrite P.
Qed.

(** A blocking get that returns does what a get that does not block does with
    more attempts. *)
Lemma pool_get_n_inv held env tid n blocking p rets p' :
  pool_inv held p -> pool_get_n env tid n blocking p = Ok (rets, p') ->
  pool_inv (rets ++ held) p' /\ attr p' = attr p /\ base_packet_p p' = base_packet_p p.
Proof.
  intros [Hl Hset Hall Hout]. unfold pool_get_n. set (k := if blocking then _ else _).
  destruct (get_n_spec env tid n k (pool p) Hset) as (rets' & s & -> & Hs & P & Hlen & Hnz).
  intros H. simpl in H. inv_ok. split; [|done]. split; simpl.
  - by destruct Hl; split.
  - done.
  - change (all_packets (with_pool _ _ p)) with (all_packets p).
    rewrite <-Hall, P. solve_Permutation.
  - intros a Ha. pose proof (hand_out_all_lookup p rets a) as E.
    unfold header in E |- *; simpl in E |- *. rewrite E. fold (header p a).
    destruct (decide (a ∈ rets)); [done|]. apply Hout. set_solver.
Qed.

Lemma pool_history_inv p0 held p :
  pool_inv [] p0 -> pool_history p0 held p -> pool_inv held p /\ all_packets p = all_packets p0.
Proof.
  intros H0. induction 1 as [|held p env tid n bl rets p' _ [IH IHa] E
                            |held p cur a held' p' _ [IH IHa] P E]; [done| |].
  - destruct (pool_get_n_inv _ _ _ _ _ _ _ _ IH E) as (Hi & Ha & Hb). split; [done|].
    rewrite <-IHa. unfold all_packets. by rewrite Ha, Hb.
  - apply (pool_inv_perm _ _ _ P) in IH.
    destruct (pool_put_spec held' a p cur IH) as (p1 & E1 & Hi & _).
    rewrite E1 in E. injection E as <-. split; [done|]. rewrite <-IHa.
    unfold pool_put in E1. by inv_ok.
Qed.

(** C25: In every history of a packet pool, each packet is either held once or in
    the pool once, and never both; a get that does not block succeeds, and
    returning a held packet succeeds. *)
Theorem pool_discipline p0 held p :
  pool_inv [] p0 -> pool_history p0 held p ->
  NoDup (held ++ packets (pool p)) /\ held ++ packets (pool p) ≡ₚ all_packets p0
  /\ (forall a current, a ∈ held -> exists p', pool_put current a p = Ok p')
  /\ (forall env tid n, exists rets p', pool_get_n env tid n false p = Ok (rets, p')
        /\ (length rets <= n)%nat).
Proof.
  intros H0 [Hi Ha]%pool_history_inv; [|done]. pose proof Hi as [Hl Hset Hall Hout].
  split_and!.
  - rewrite Hall. by apply all_packets_nodup.
  - by rewrite Hall, Ha.
  - intros a current [held' P]%elem_of_Permutation.
    destruct (pool_put_spec held' a p current (pool_inv_perm _ _ _ P Hi)) as (p' & ? & _). eauto.
  - intros env tid n. destruct (pool_get_n_spec held env tid n p Hi) as (rets & p' & ? & _ & ?).
    eauto.
Qed.

(** The function [is_packet] accepts exactly the packets of the pool, by header address or
    by payload address; packets, header and payload together, lie inside the
    heap block and do not overlap; and returning a packet twice stops at the
    assertion instead of putting it in the pool a second time. *)
Theorem packet_addresses p a :
  pool_layout p -> is_u64 a ->
  (is_packet p a true = true <-> a ∈ all_packets p)
  /\ (is_packet p a false = true <-> a <> 0 /\ address2packet a ∈ all_packets p)
  /\ (forall b c, b ∈ all_packets p -> c ∈ all_packets p -> b < c ->
        b + sizeof_lctx + get_payload_size p <= c)
  /\ (forall b, b ∈ all_packets p -> heap p <= b
        /\ b + sizeof_lctx + get_payload_size p <= heap p + heap_size p)
  /\ (forall current, a ∈ all_packets p -> lc_isInPool (header p a) = true ->
        pool_put current a p = Err (AssertFailed "This packet has already been freed")).
Proof.
  intros Hl Ha. pose proof Hl as [H1 H2 H3 H4 H5 H6]. unfold LCI_CACHE_LINE in *.
  assert (Hps : get_payload_size p = packet_size (attr p) - 64).
  { unfold get_payload_size, LCI_CACHE_LINE. apply u64_id. unfold is_u64. lia. }
  split_and!.
  - by apply is_packet_true.
  - rewrite <-is_packet_true by (done || apply u64_range). unfold is_packet.
    destruct (Z.eqb_spec a 0) as [->|]; [naive_solver|].
    destruct (Z.eqb_spec (address2packet a) 0) as [->|]; [|naive_solver].
    destruct (Z.leb_spec (base_packet_p p) 0); [lia|]. naive_solver.
  - intros b c (i & Hi & ->)%elem_of_all_packets (j & Hj & ->)%elem_of_all_packets Hlt.
    rewrite Hps. assert (Z.of_nat i + 1 <= Z.of_nat j) by nia. nia.
  - intros b Hb. pose proof (packet_bounds p b Hl Hb) as (?&?&_).
    apply elem_of_all_packets in Hb as (i & Hi & ->). rewrite Hps. nia.
  - intros current. by apply pool_double_put.
Qed.
End Pool.

(** A pool of four packets of 512 bytes at a page boundary, with 40-byte headers. *)
Definition demo_attr : packet_pool_attr_t := mk_pool_attr 512 4.
Definition demo_garbage : packet_local_context_t := mk_lctx 0 0 true false 0 0 0.
Definition demo_env : steal_env := mk_env (fun _ => 0) (fun _ => true) (fun _ => true).

Lemma pool_discipline_witness :
  exists p0 held p, pool_inv 40 77 demo_garbage [] p0 /\ held <> []
    /\ NoDup (held ++ packets (pool p)) /\ held ++ packets (pool p) ≡ₚ all_packets p0
    /\ (forall a current, a ∈ held -> exists p', pool_put 40 demo_garbage current a p = Ok p')
    /\ (forall env tid n, exists rets p', pool_get_n 77 demo_garbage env tid n false p = Ok (rets, p')
          /\ (length rets <= n)%nat).
Proof.
  destruct (packet_pool_new_ok 40 77 demo_garbage demo_attr 4096 0) as (p0 & E0 & H0 & _);
    [unfold LCI_CACHE_LINE; simpl; lia..|].
  destruct (pool_get_n 77 demo_garbage demo_env 0 2 false p0) as [[held p]|] eqn:E1; cycle 1.
  { exfalso. destruct (pool_get_n_spec 40 77 demo_garbage [] demo_env 0 2 p0 H0)
      as (? & ? & ? & _). congruence. }
  exists p0, (held ++ []), p. split; [done|]. split.
  - rewrite app_nil_r. vm_compute in E0. injection E0 as <-. vm_compute in E1.
    injection E1 as <- _. done.
  - apply (pool_discipline 40 77 demo_garbage p0); [done|].
    by eapply ph_get; [apply ph_start|].
Defined.

Lemma packet_addresses_witness :
  exists p, packet_pool_new 40 demo_attr 4096 0 = Ok p
    /\ (is_packet 40 p 4120 true = true <-> 4120 ∈ all_packets p)
    /\ (is_packet 40 p 4120 false = true <-> 4120 <> 0 /\ address2packet 40 4120 ∈ all_packets p).
Proof.
  destruct (packet_pool_new_ok 40 77 demo_garbage demo_attr 4096 0) as (p & E & [Hl _ _ _] & _);
    [unfold LCI_CACHE_LINE; simpl; lia..|].
  exists p. split; [done|].
  destruct (packet_addresses 40 demo_garbage p 4120 Hl ltac:(unfold is_u64; lia))
    as (H1 & H2 & _). done.
Defined.
