(* ===== verification/Comp.v ===== *)
(** * Completion objects (src/src/comp)

    [Module Sync]: the synchronizer of sync.hpp, which becomes ready after
    [threshold] signals. [Module Counter]: counter.hpp. [Module Handler]: the
    call a handler makes. [Module Cq]: the completion queue of cq.hpp over any
    FIFO queue ([FifoQueue] states what cq.hpp needs of the LCT queue). *)
From stdpp Require Import base numbers list strings.
From Stdlib Require Import ZArith Lia.
From S2P Require Import Prelude Status.

(** ** Synchronizers *)
Module Sync.

Record sync_t : Type := mk_sync {
  m_top : Z;
  m_top2 : Z;
  m_tail : Z;
  threshold : nat;
  statuses : list status_t
}.

Definition sync_new (threshold : nat) : sync_t :=
  mk_sync 0 0 0 threshold (replicate threshold status_init).

(** With a threshold of one the position is not counted. *)
Definition signal (status : status_t) (s : sync_t) : result sync_t :=
  let counted := (1 <? threshold s)%nat in
  let pos := if counted then m_top s else 0 in
  let tail := if counted then m_tail s else 0 in
  let top := if counted then u64 (m_top s + 1) else m_top s in
  LCI_Assert (pos <? u64 (tail + Z.of_nat (threshold s))) "Receive more signals than expected" ;;
  Ok (mk_sync top (u64 (m_top2 s + 1)) (m_tail s) (threshold s)
        (<[Z.to_nat (u64 (pos - tail)) := status]> (statuses s))).

(** [test]: [cas] is the outcome of the weak compare-and-exchange, which may
    fail although the values agree. *)
Definition test (cas : bool) (s : sync_t) : option (list status_t) * sync_t :=
  if negb (m_top2 s =? u64 (m_tail s + Z.of_nat (threshold s))) then (None, s)
  else if cas then
    (Some (take (threshold s) (statuses s)),
     mk_sync (m_top s) (m_top2 s) (m_top2 s) (threshold s) (statuses s))
  else (None, s).

Fixpoint signal_all (ss : list status_t) (s : sync_t) : result sync_t :=
  match ss with
  | [] => Ok s
  | st :: ss => s ← signal st s ; signal_all ss s
  end.

(** Between two completions: the three counters agree and have room to grow.
    With a threshold of one [m_top] stays at zero and is not used. *)
Record ready_for (s : sync_t) (base : Z) : Prop := mk_ready {
  rf_threshold : (0 < threshold s)%nat;
  rf_len : length (statuses s) = threshold s;
  rf_top : (1 < threshold s)%nat -> m_top s = base;
  rf_top2 : m_top2 s = base;
  rf_tail : m_tail s = base;
  rf_room : 0 <= base /\ base + Z.of_nat (threshold s) < 2 ^ 64
}.

(** After some signals of a round: they are in the first cells, in order. *)
Record in_round (s : sync_t) (base : Z) (got : list status_t) : Prop := mk_in_round {
  ir_threshold : (0 < threshold s)%nat;
  ir_len : length (statuses s) = threshold s;
  ir_got : (length got <= threshold s)%nat;
  ir_take : take (length got) (statuses s) = got;
  ir_top : (1 < threshold s)%nat -> m_top s = base + Z.of_nat (length got);
  ir_top2 : m_top2 s = base + Z.of_nat (length got);
  ir_tail : m_tail s = base;
  ir_room : 0 <= base /\ base + Z.of_nat (threshold s) < 2 ^ 64
}.

Lemma ready_in_round s base : ready_for s base -> in_round s base [].
Proof. intros [H1 H2 H3 H4 H5 H6]. split; simpl; rewrite ?Z.add_0_r; auto. lia. Qed.

Lemma signal_spec st s base got :
  in_round s base got -> (length got < threshold s)%nat ->
  exists s', signal st s = Ok s' /\ in_round s' base (got ++ [st])
    /\ threshold s' = threshold s.
Proof.
  intros [H1 H2 H3 H4 H5 H6 H7 H8] Hlt. unfold signal.
  assert (Hpos : Z.to_nat (u64 ((if (1 <? threshold s)%nat then m_top s else 0)
    - (if (1 <? threshold s)%nat then m_tail s else 0))) = length got).
  { destruct (Nat.ltb_spec 1 (threshold s)) as [Ht|Ht].
    - rewrite H5, H7 by done. rewrite u64_id by (unfold is_u64; lia). lia.
    - rewrite u64_id by (unfold is_u64; lia). lia. }
  rewrite LCI_Assert_true; cycle 1.
  { destruct (Nat.ltb_spec 1 (threshold s)) as [Ht|Ht].
    - rewrite H5, H7 by done. rewrite u64_id by (unfold is_u64; lia). lia.
    - rewrite u64_id by (unfold is_u64; lia). lia. }
  simpl. rewrite Hpos. eexists. split; [done|]. split; [|done].
  assert (Hg : length (got ++ [st]) = S (length got)) by (rewrite length_app; simpl; lia).
  split; simpl; rewrite ?Hg, ?length_insert; auto; try lia.
  - rewrite (take_S_r _ _ st) by (apply list_lookup_insert_eq; lia).
    by rewrite take_insert_ge, H4 by lia.
  - intros Ht. rewrite (proj2 (Nat.ltb_lt 1 (threshold s))) by done.
    rewrite H5 by done. rewrite u64_id by (unfold is_u64; lia). lia.
  - rewrite H6, u64_id by (unfold is_u64; lia). lia.
Qed.

Lemma signal_all_spec ss : forall s base got,
  in_round s base got -> (length got + length ss <= threshold s)%nat ->
  exists s', signal_all ss s = Ok s' /\ in_round s' base (got ++ ss)
    /\ threshold s' = threshold s.
Proof.
  induction ss as [|st ss IH]; intros s base got Hr Hlen; simpl in *.
  - exists s. by rewrite app_nil_r.
  - destruct (signal_spec st s base got Hr) as (s1 & -> & Hr1 & Ht1); [lia|]. simpl.
    destruct (IH s1 base (got ++ [st]) Hr1) as (s' & -> & Hr' & Ht').
    + rewrite length_app. simpl. lia.
    + exists s'. rewrite <-app_assoc in Hr'. split_and!; [done..|congruence].
Qed.

(** A synchronizer that is between completions accepts up to [threshold]
    signals. Until the last of them [test] reports nothing and changes nothing;
    after it, [test] returns exactly their statuses in the order of the signals
    and leaves the synchronizer ready for the next round. *)
Theorem sync_collects_threshold ss s base :
  ready_for s base -> (length ss <= threshold s)%nat ->
  exists s', signal_all ss s = Ok s'
    /\ ((length ss < threshold s)%nat -> forall cas, test cas s' = (None, s'))
    /\ (length ss = threshold s ->
          test false s' = (None, s')
          /\ exists s'', test true s' = (Some ss, s'')
               /\ (base + Z.of_nat (threshold s) + Z.of_nat (threshold s) < 2 ^ 64 ->
                   ready_for s'' (base + Z.of_nat (threshold s)))).
Proof.
  intros Hr Hlen. apply ready_in_round in Hr.
  destruct (signal_all_spec ss s base [] Hr) as (s' & -> & [H1 H2 H3 H4 H5 H6 H7 H8] & Ht);
    [simpl; lia|]. simpl in *. exists s'. split; [done|]. unfold test.
  rewrite H6, H7, Ht, u64_id by (rewrite Ht in *; unfold is_u64; lia). split.
  - intros Hlt cas. destruct (Z.eqb_spec (base + Z.of_nat (length ss))
      (base + Z.of_nat (threshold s))); [lia|done].
  - intros E. rewrite E, Z.eqb_refl. simpl. split; [done|].
    eexists. split; [by rewrite <-E, H4|]. intros Hroom.
    split; simpl; rewrite ?Ht; auto; try lia.
Qed.

Definition demo_status (t : Z) : status_t := mk_status ec_done 0 0 8 t 0.

Lemma sync_collects_threshold_witness :
  exists s', signal_all [demo_status 4; demo_status 5] (sync_new 2) = Ok s'
    /\ ((2 < 2)%nat -> forall cas, test cas s' = (None, s'))
    /\ (2%nat = 2%nat ->
          test false s' = (None, s')
          /\ exists s'', test true s' = (Some [demo_status 4; demo_status 5], s'')
               /\ (0 + 2 + 2 < 2 ^ 64 -> ready_for s'' (0 + 2))).
Proof.
  apply (sync_collects_threshold [demo_status 4; demo_status 5] (sync_new 2) 0); [|simpl; lia].
  split; simpl; auto; lia.
Defined.

(** With a threshold of one every signal is accepted and only counted. *)
Lemma signal_all_one ss : forall s,
  threshold s = 1%nat -> 0 <= m_top2 s -> m_top2 s + Z.of_nat (length ss) < 2 ^ 64 ->
  exists s', signal_all ss s = Ok s' /\ threshold s' = 1%nat /\ m_tail s' = m_tail s
    /\ m_top2 s' = m_top2 s + Z.of_nat (length ss).
Proof.
  induction ss as [|st ss IH]; intros s Ht H0 Hl; cbn [signal_all length] in *.
  - exists s. rewrite Z.add_0_r. done.
  - unfold signal. rewrite Ht. rewrite (LCI_Assert_true _) by reflexivity.
    cbn -[Z.of_nat u64 signal_all].
    match goal with |- context [signal_all ss ?x] => set (s1 := x) end.
    destruct (IH s1) as (s' & -> & H1 & H2 & H3); subst s1; simpl in *;
      rewrite ?u64_id in * by (unfold is_u64; lia); [done|lia|lia|].
    exists s'. split_and!; [done..|lia].
Qed.

(** With a threshold of one, signals beyond the first are not caught by the
    assertion that counts them: two or more signals before [test] are all
    accepted, and after them the synchronizer never reports completion. *)
Theorem sync_oversignal_undetected st1 st2 ss :
  Z.of_nat (length ss) + 2 < 2 ^ 64 ->
  exists s, signal_all (st1 :: st2 :: ss) (sync_new 1) = Ok s
    /\ forall cas, test cas s = (None, s).
Proof.
  intros Hl. destruct (signal_all_one (st1 :: st2 :: ss) (sync_new 1))
    as (s & E & Ht & Htail & Htop); [done|simpl; lia|simpl length; simpl m_top2; lia|].
  exists s. split; [exact E|]. intros cas. unfold test. rewrite Ht, Htail, Htop.
  cbn [length m_top2 m_tail sync_new] in *.
  rewrite u64_id by (unfold is_u64; lia).
  destruct (Z.eqb_spec (0 + Z.of_nat (S (S (length ss)))) (0 + Z.of_nat 1)); [lia|done].
Qed.

Lemma sync_oversignal_undetected_witness :
  exists s, signal_all [demo_status 1; demo_status 2; demo_status 3] (sync_new 1) = Ok s
    /\ forall cas, test cas s = (None, s).
Proof.
  apply (sync_oversignal_undetected (demo_status 1) (demo_status 2) [demo_status 3]). simpl. lia.
Defined.
End Sync.

(** ** Counters *)
Module Counter.
(** A 64-bit signed count; wrap-around as in two's complement. *)
Definition i64 (z : Z) : Z := (z + 2 ^ 63) mod 2 ^ 64 - 2 ^ 63.
Definition signal (count : Z) (_ : status_t) : Z := i64 (count + 1).
Definition counter_set (_ value : Z) : Z := value.
Definition counter_get (count : Z) : Z := count.

Lemma counter_counts (ss : list status_t) c :
  - 2 ^ 63 <= c -> c + Z.of_nat (length ss) < 2 ^ 63 ->
  foldl signal c ss = c + Z.of_nat (length ss).
Proof.
  revert c. induction ss as [|s ss IH]; intros c Hc Hl; cbn [foldl length] in *; [lia|].
  assert (signal c s = c + 1) as ->.
  { unfold signal, i64. rewrite Z.mod_small; lia. }
  rewrite IH; lia.
Qed.
End Counter.

(** ** Completion queues *)

(** What cq.hpp needs of the queue it stores statuses in. *)
Class FifoQueue (Q : Type) : Type := {
  fq_push : status_t -> Q -> Q;
  fq_pop : Q -> option status_t * Q;
  fq_room : Q -> Prop;
  fq_list : Q -> list status_t;
  fq_push_ok : forall s q, fq_room q -> fq_list (fq_push s q) = fq_list q ++ [s];
  fq_pop_ok : forall q, match fq_list q with
    | [] => fst (fq_pop q) = None /\ fq_list (snd (fq_pop q)) = []
    | s :: l => fst (fq_pop q) = Some s /\ fq_list (snd (fq_pop q)) = l
    end
}.

Module Cq.
Section Cq.
Context {Q : Type} `{!FifoQueue Q}.

Definition signal (s : status_t) (q : Q) : result Q :=
  LCI_Assert (is_done (st_error s)) "status is not done" ;;
  Ok (fq_push s q).

(** [pop]: the initial status, which is a retry, when the queue is empty. *)
Definition pop (q : Q) : result (status_t * Q) :=
  let '(p, q) := fq_pop q in
  match p with
  | None =>
      LCI_Assert (is_retry (st_error status_init)) "status is not retry" ;;
      Ok (status_init, q)
  | Some s =>
      LCI_Assert (is_done (st_error s)) "status is not done" ;;
      Ok (s, q)
  end.

(** Statuses come out in the order of their signals; an empty queue answers
    with a retry status. *)
Lemma pop_spec q :
  Forall (fun s => is_done (st_error s) = true) (fq_list q) ->
  exists s q', pop q = Ok (s, q')
    /\ match fq_list q with
       | [] => is_retry (st_error s) = true /\ fq_list q' = []
       | x :: l => s = x /\ fq_list q' = l
       end.
Proof.
  intros Hall. pose proof (fq_pop_ok q) as H. unfold pop.
  destruct (fq_pop q) as [[s|] q']; destruct (fq_list q) as [|x l]; simpl in *;
    destruct H as [H1 H2]; try done; simplify_eq.
  - apply Forall_cons in Hall as [-> _]. simpl. by eexists _, _.
  - by eexists _, _.
Qed.
End Cq.
End Cq.
