(* ===== verification/Memory.v ===== *)
(** * Byte memory

    The memory of a process as a total map from addresses to bytes, with the
    copies and the little-endian loads and stores the sources make through
    [memcpy] and through the fields of the message structs. Whether an address
    is mapped is not modelled. *)
From stdpp Require Import base numbers list.
From Stdlib Require Import ZArith Lia FunctionalExtensionality.
From S2P Require Import Prelude.

Definition memory : Type := Z -> Z.

Definition in_range (base size a : Z) : bool := (base <=? a) && (a <? base + size).

(** [memcpy(dst, src, n)] for ranges that do not overlap. *)
Definition memcpy (dst src n : Z) (m : memory) : memory :=
  fun a => if in_range dst n a then m (src + (a - dst)) else m a.

(** The bytes of a range, and storing bytes. *)
Definition load_bytes (m : memory) (a n : Z) : list Z :=
  (fun i => m (a + Z.of_nat i)) <$> seq 0 (Z.to_nat n).
Definition store_bytes (a : Z) (bs : list Z) (m : memory) : memory :=
  fun x => if in_range a (Z.of_nat (length bs)) x
           then default 0 (bs !! Z.to_nat (x - a)) else m x.

(** Little-endian integers of [n] bytes. *)
Fixpoint le_bytes (n : nat) (v : Z) : list Z :=
  match n with O => [] | S n => v mod 256 :: le_bytes n (v / 256) end.
Fixpoint of_le_bytes (bs : list Z) : Z :=
  match bs with [] => 0 | b :: bs => b + 256 * of_le_bytes bs end.
Definition store_le (n : nat) (a v : Z) (m : memory) : memory := store_bytes a (le_bytes n v) m.
Definition load_le (n : nat) (m : memory) (a : Z) : Z := of_le_bytes (load_bytes m a (Z.of_nat n)).

(** ** Laws *)

Lemma in_range_true base size a : in_range base size a = true <-> base <= a < base + size.
Proof. unfold in_range. lia. Qed.
Lemma in_range_false base size a :
  in_range base size a = false <-> a < base \/ base + size <= a.
Proof. unfold in_range. lia. Qed.

(** Two ranges without a common address. *)
Definition disjoint (a n b k : Z) : Prop := a + n <= b \/ b + k <= a.

Lemma length_le_bytes n v : length (le_bytes n v) = n.
Proof. revert v. induction n; intros v; simpl; [done|]. by rewrite IHn. Qed.

Lemma length_load_bytes m a n : length (load_bytes m a n) = Z.to_nat n.
Proof. unfold load_bytes. by rewrite length_fmap, length_seq. Qed.

Lemma of_le_le_bytes n : forall v, 0 <= v < 256 ^ Z.of_nat n -> of_le_bytes (le_bytes n v) = v.
Proof.
  induction n as [|n IH]; intros v Hv; cbn [le_bytes of_le_bytes].
  - change (256 ^ Z.of_nat 0) with 1 in Hv. lia.
  - rewrite IH.
    + pose proof (Z.div_mod v 256). lia.
    + rewrite Nat2Z.inj_succ, Z.pow_succ_r in Hv by lia. split.
      * apply Z.div_pos; lia.
      * apply Z.div_lt_upper_bound; lia.
Qed.

Lemma load_bytes_lookup m a n i :
  (i < Z.to_nat n)%nat -> load_bytes m a n !! i = Some (m (a + Z.of_nat i)).
Proof. intros H. unfold load_bytes. by rewrite list_lookup_fmap, lookup_seq_lt by done. Qed.

Lemma load_bytes_ext m m' a n :
  (forall x, a <= x < a + n -> m x = m' x) -> load_bytes m a n = load_bytes m' a n.
Proof.
  intros H. unfold load_bytes. apply list_fmap_ext. intros i x Hx.
  apply lookup_seq in Hx as [-> Hi]. apply H. lia.
Qed.

Lemma load_store_bytes m a bs :
  load_bytes (store_bytes a bs m) a (Z.of_nat (length bs)) = bs.
Proof.
  apply list_eq. intros i. destruct (decide (i < length bs)%nat) as [Hi|Hi].
  - rewrite load_bytes_lookup by lia. unfold store_bytes.
    rewrite (proj2 (in_range_true _ _ _)) by lia.
    replace (Z.to_nat (a + Z.of_nat i - a)) with i by lia.
    destruct (lookup_lt_is_Some_2 bs i Hi) as [x Hx]. by rewrite Hx.
  - rewrite !lookup_ge_None_2; [done|lia|rewrite length_load_bytes; lia].
Qed.

Lemma store_bytes_other m a bs x :
  x < a \/ a + Z.of_nat (length bs) <= x -> store_bytes a bs m x = m x.
Proof. intros H. unfold store_bytes. by rewrite (proj2 (in_range_false _ _ _)). Qed.

Lemma load_bytes_store_disjoint m a bs b n :
  disjoint a (Z.of_nat (length bs)) b n ->
  load_bytes (store_bytes a bs m) b n = load_bytes m b n.
Proof.
  intros H. apply load_bytes_ext. intros x Hx. apply store_bytes_other.
  unfold disjoint in H. lia.
Qed.

Lemma load_store_le n m a v :
  0 <= v < 256 ^ Z.of_nat n -> load_le n (store_le n a v m) a = v.
Proof.
  intros Hv. unfold load_le, store_le.
  pose proof (load_store_bytes m a (le_bytes n v)) as H. rewrite length_le_bytes in H.
  rewrite H. by apply of_le_le_bytes.
Qed.

Lemma load_store_le_disjoint n k m a v b :
  disjoint a (Z.of_nat k) b (Z.of_nat n) -> load_le n (store_le k a v m) b = load_le n m b.
Proof.
  intros H. unfold load_le, store_le. f_equal. apply load_bytes_store_disjoint.
  by rewrite length_le_bytes.
Qed.

Lemma load_bytes_store_le_disjoint k m a v b n :
  disjoint a (Z.of_nat k) b n -> load_bytes (store_le k a v m) b n = load_bytes m b n.
Proof. intros H. apply load_bytes_store_disjoint. by rewrite length_le_bytes. Qed.

Lemma memcpy_load m dst src n :
  0 <= n -> load_bytes (memcpy dst src n m) dst n = load_bytes m src n.
Proof.
  intros Hn. unfold load_bytes. apply list_fmap_ext. intros i x Hx.
  apply lookup_seq in Hx as [-> Hi]. unfold memcpy. simpl.
  rewrite (proj2 (in_range_true _ _ _)) by lia. f_equal. lia.
Qed.

Lemma memcpy_other m dst src n x :
  x < dst \/ dst + n <= x -> memcpy dst src n m x = m x.
Proof. intros H. unfold memcpy. by rewrite (proj2 (in_range_false _ _ _)). Qed.

Lemma load_bytes_memcpy_disjoint m dst src n b k :
  disjoint dst n b k -> load_bytes (memcpy dst src n m) b k = load_bytes m b k.
Proof.
  intros H. apply load_bytes_ext. intros x Hx. apply memcpy_other. unfold disjoint in H. lia.
Qed.

(** Copying is storing the bytes that were loaded. *)
Lemma memcpy_store_bytes m dst src n :
  0 <= n -> memcpy dst src n m = store_bytes dst (load_bytes m src n) m.
Proof.
  intros Hn. apply functional_extensionality. intros x. unfold memcpy, store_bytes.
  rewrite length_load_bytes, Z2Nat.id by done.
  destruct (in_range dst n x) eqn:E; [|done]. apply in_range_true in E.
  rewrite load_bytes_lookup by lia. simpl. f_equal. lia.
Qed.
