(* ===== verification/Net.v ===== *)
(** * Contexts, network operations and the state below an endpoint

    The contexts a posted operation carries (src/src/core/protocol.hpp), the
    operations an endpoint hands to its backend, which are also the entries of
    the backlog queue (src/src/backlog_queue/backlog_queue.hpp), and the part of
    a process's state that the network layer uses: memory, the blocks of
    [malloc], the contexts of [new], the backlog queue and the backend. The
    backend (libibverbs, libfabric) is not part of the program: its state is a
    type [B], and what it answers is a parameter of the definitions. *)
From stdpp Require Import base numbers list gmap strings.
From Stdlib Require Import ZArith Lia.
From S2P Require Import Prelude Status Memory.

(** ** Contexts *)

Record internal_context_t : Type := mk_ictx {
  ic_mr_on_the_fly : bool;
  ic_is_user_posted_op : bool;
  ic_rank : Z;
  ic_comp : Z;
  ic_tag : Z;
  ic_buffer : Z;
  ic_size : Z;
  ic_user_context : Z;
  ic_packet_to_free : Z;
  ic_mr : Z
}.

(** The constructor. *)
Definition internal_context_new : internal_context_t :=
  mk_ictx false false (-1) COMP_NULL 0 0 0 0 0 0.

(** [get_status]. *)
Definition ctx_status (c : internal_context_t) : status_t :=
  mk_status ec_done (ic_rank c) (ic_buffer c) (ic_size c) (ic_tag c) (ic_user_context c).

Record internal_context_extended_t : Type := mk_ectx {
  ie_internal_ctx : Z;
  ie_signal_count : Z;
  ie_recv_ctx : Z;
  ie_imm_data_rank : Z;
  ie_imm_data : Z
}.

Definition internal_context_extended_new : internal_context_extended_t :=
  mk_ectx 0 0 0 (-1) 0.

(** The first bit of either struct, [is_extended], tells them apart. *)
Inductive context : Type :=
  | Plain (c : internal_context_t)
  | Extended (e : internal_context_extended_t).

(** ** Operations *)

Inductive backlog_op_t : Type :=
  | bo_sends | bo_send | bo_puts | bo_put | bo_putImms | bo_putImm | bo_get.
#[export] Instance backlog_op_eq_dec : EqDecision backlog_op_t.
Proof. solve_decision. Defined.

(** [backlog_queue_entry_t]; a field an operation does not have is zero. *)
Record net_op_t : Type := mk_op {
  no_op : backlog_op_t;
  no_rank : Z;
  no_buffer : Z;
  no_size : Z;
  no_mr : Z;
  no_offset : Z;
  no_rmr : rmr_t;
  no_imm_data : Z;
  no_user_context : Z
}.

(** The operations whose buffer may be reused as soon as they are posted. *)
Definition is_short (o : backlog_op_t) : bool :=
  match o with bo_sends | bo_puts | bo_putImms => true | _ => false end.

(** ** State *)

Record backlog_queue_t : Type := mk_bq {
  bq_empty : bool;
  bq_nentries : list Z;
  bq_locked : bool;
  bq_queue : list net_op_t
}.

(** The constructor, for a job of [nranks] processes. *)
Definition backlog_queue_new (nranks : nat) : backlog_queue_t :=
  mk_bq true (replicate nranks 0) false [].

Record nstate (B : Type) : Type := mk_nstate {
  ns_mem : memory;
  ns_brk : Z;
  ns_blocks : gmap Z Z;
  ns_ctxs : gmap Z context;
  ns_bq : backlog_queue_t;
  ns_net : B;
  ns_accepted : list (net_op_t * list Z)
}.
Arguments mk_nstate {B}.
Arguments ns_mem {B}.
Arguments ns_brk {B}.
Arguments ns_blocks {B}.
Arguments ns_ctxs {B}.
Arguments ns_bq {B}.
Arguments ns_net {B}.
Arguments ns_accepted {B}.

Section State.
Context {B : Type}.
Implicit Types s : nstate B.

Definition set_mem (m : memory) s : nstate B :=
  mk_nstate m (ns_brk s) (ns_blocks s) (ns_ctxs s) (ns_bq s) (ns_net s) (ns_accepted s).
Definition set_ctxs (c : gmap Z context) s : nstate B :=
  mk_nstate (ns_mem s) (ns_brk s) (ns_blocks s) c (ns_bq s) (ns_net s) (ns_accepted s).
Definition set_bq (q : backlog_queue_t) s : nstate B :=
  mk_nstate (ns_mem s) (ns_brk s) (ns_blocks s) (ns_ctxs s) q (ns_net s) (ns_accepted s).

(** Fresh addresses come from a counter; a block of [malloc] is live until it
    is freed. [free(nullptr)] does nothing. *)
Definition malloc (n : Z) : ST (nstate B) Z := fun s =>
  Ok (ns_brk s,
      mk_nstate (ns_mem s) (ns_brk s + Z.max 1 n) (<[ns_brk s := n]> (ns_blocks s))
                (ns_ctxs s) (ns_bq s) (ns_net s) (ns_accepted s)).
Definition free (a : Z) : ST (nstate B) unit := fun s =>
  if a =? 0 then Ok (tt, s)
  else match ns_blocks s !! a with
       | Some _ => Ok (tt, mk_nstate (ns_mem s) (ns_brk s) (delete a (ns_blocks s))
                             (ns_ctxs s) (ns_bq s) (ns_net s) (ns_accepted s))
       | None => Err (Undefined "free of an address that is not a block")
       end.

(** [new] of a context: either struct fits in two cache lines. *)
Definition new_ctx (c : context) : ST (nstate B) Z := fun s =>
  Ok (ns_brk s,
      mk_nstate (ns_mem s) (ns_brk s + 128) (ns_blocks s) (<[ns_brk s := c]> (ns_ctxs s))
                (ns_bq s) (ns_net s) (ns_accepted s)).

(** The memory side of [delete]: the context is gone. *)
Definition drop_ctx (a : Z) : ST (nstate B) unit := fun s =>
  match ns_ctxs s !! a with
  | Some _ => Ok (tt, set_ctxs (delete a (ns_ctxs s)) s)
  | None => Err (Undefined "delete of a context that is not live")
  end.

Definition read_ctx (a : Z) : ST (nstate B) context := fun s =>
  match ns_ctxs s !! a with
  | Some c => Ok (c, s)
  | None => Err (Undefined "access to a context that is not live")
  end.
Definition write_ctx (a : Z) (c : context) : ST (nstate B) unit := fun s =>
  match ns_ctxs s !! a with
  | Some _ => Ok (tt, set_ctxs (<[a := c]> (ns_ctxs s)) s)
  | None => Err (Undefined "access to a context that is not live")
  end.
End State.
