(* ===== verification/Endpoint.v ===== *)
(** * Endpoints and the backlog queue
    (src/src/network/endpoint_inline.hpp, src/src/backlog_queue)

    An endpoint posts an operation to its backend, or, when the backend asks to
    retry and the caller does not allow that, parks it in the backlog queue; the
    progress engine posts parked operations again, oldest first. *)
From stdpp Require Import base numbers list gmap strings.
From Stdlib Require Import ZArith Lia FunctionalExtensionality.
From S2P Require Import Prelude Status Memory Net.

Section Endpoint.
Context {B : Type}.
(** The virtual [post_*_impl] functions of the backend: the operation, whether
    it has high priority, and the memory it may read. *)
Variable post_impl : net_op_t -> bool -> memory -> B -> errorcode_t * B.
(** [net_context_attr.support_putimm]. *)
Variable support_putimm : bool.

Implicit Types s : nstate B.
#[local] Abbreviation NET := (ST (nstate B)).

(** The bytes an operation carries away when it is posted. *)
Definition short_data (op : net_op_t) (m : memory) : list Z :=
  if is_short (no_op op) then load_bytes m (no_buffer op) (no_size op) else [].

(** A call of [post_*_impl]; [ns_accepted] logs what the backend took. *)
Definition call_impl (op : net_op_t) (high_priority : bool) : NET errorcode_t := fun s =>
  let '(e, net) := post_impl op high_priority (ns_mem s) (ns_net s) in
  Ok (e, mk_nstate (ns_mem s) (ns_brk s) (ns_blocks s) (ns_ctxs s) (ns_bq s) net
           (if is_retry e then ns_accepted s
            else ns_accepted s ++ [(op, short_data op (ns_mem s))])).

(** ** The backlog queue *)

(** [is_empty(rank)]. *)
Definition bq_is_empty (rank : Z) : NET bool := fun s =>
  match (if 0 <=? rank then bq_nentries (ns_bq s) !! Z.to_nat rank else None) with
  | Some n => Ok (n =? 0, s)
  | None => Err (Undefined "nentries_per_rank index")
  end.

Definition add_nentries (rank d : Z) : NET unit := fun s =>
  match (if 0 <=? rank then bq_nentries (ns_bq s) !! Z.to_nat rank else None) with
  | Some n =>
      Ok (tt, set_bq (mk_bq (bq_empty (ns_bq s))
                (<[Z.to_nat rank := u64 (n + d)]> (bq_nentries (ns_bq s)))
                (bq_locked (ns_bq s)) (bq_queue (ns_bq s))) s)
  | None => Err (Undefined "nentries_per_rank index")
  end.

(** The end of every [push_*]: count, then append under the lock. A thread that
    holds the lock already waits for itself. *)
Definition append_entry (op : net_op_t) : NET unit := fun s =>
  if bq_locked (ns_bq s) then Err (Deadlock "backlog queue lock")
  else Ok (tt, set_bq (mk_bq false (bq_nentries (ns_bq s)) false
                             (bq_queue (ns_bq s) ++ [op])) s).

Definition push_entry (op : net_op_t) : NET unit :=
  add_nentries (no_rank op) 1 ;; append_entry op.

(** A private copy of a buffer. *)
Definition copy_buffer (buffer size : Z) : NET Z :=
  b ← malloc size ;
  modify (fun s => set_mem (memcpy b buffer size (ns_mem s)) s) ;;
  mret b.

Definition push_sends (rank buffer size imm_data user_context : Z) : NET unit :=
  b ← (if negb (size =? 0) then copy_buffer buffer size else mret 0) ;
  push_entry (mk_op bo_sends rank b size 0 0 RMR_NULL imm_data user_context).
Definition push_send (rank buffer size mr imm_data user_context : Z) : NET unit :=
  push_entry (mk_op bo_send rank buffer size mr 0 RMR_NULL imm_data user_context).
Definition push_puts (rank buffer size offset : Z) (rmr : rmr_t) (user_context : Z) : NET unit :=
  b ← copy_buffer buffer size ;
  push_entry (mk_op bo_puts rank b size 0 offset rmr 0 user_context).
Definition push_put (rank buffer size mr offset : Z) (rmr : rmr_t) (user_context : Z) : NET unit :=
  push_entry (mk_op bo_put rank buffer size mr offset rmr 0 user_context).
Definition push_putImms (rank buffer size offset : Z) (rmr : rmr_t)
    (imm_data user_context : Z) : NET unit :=
  b ← copy_buffer buffer size ;
  push_entry (mk_op bo_putImms rank b size 0 offset rmr imm_data user_context).
Definition push_putImm (rank buffer size mr offset : Z) (rmr : rmr_t)
    (imm_data user_context : Z) : NET unit :=
  push_entry (mk_op bo_putImm rank buffer size mr offset rmr imm_data user_context).
Definition push_get (rank buffer size mr offset : Z) (rmr : rmr_t) (user_context : Z) : NET unit :=
  push_entry (mk_op bo_get rank buffer size mr offset rmr 0 user_context).

(** ** Posting *)

(** The common shape of the seven [post_*]: ask the backend unless earlier
    operations to the same rank are parked; on a retry that the caller does not
    allow, park the operation and report [backlog_code]. *)
Definition post_or_park (rank : Z) (impl : bool -> NET errorcode_t) (push : NET unit)
    (backlog_code : errorcode_t) (allow_retry force_post : bool) : NET errorcode_t :=
  e ← (if force_post then impl (negb allow_retry || force_post)
       else
         empty ← bq_is_empty rank ;
         if negb empty then mret ec_retry_backlog
         else impl (negb allow_retry || force_post)) ;
  if is_retry e then
    if negb allow_retry then push ;; mret backlog_code else mret e
  else mret e.

Definition post_sends (rank buffer size imm_data user_context : Z)
    (allow_retry force_post : bool) : NET errorcode_t :=
  post_or_park rank
    (call_impl (mk_op bo_sends rank buffer size 0 0 RMR_NULL imm_data user_context))
    (push_sends rank buffer size imm_data user_context)
    ec_done_backlog allow_retry force_post.

Definition post_send (rank buffer size mr imm_data user_context : Z)
    (allow_retry force_post : bool) : NET errorcode_t :=
  post_or_park rank
    (call_impl (mk_op bo_send rank buffer size mr 0 RMR_NULL imm_data user_context))
    (push_send rank buffer size mr imm_data user_context)
    ec_posted_backlog allow_retry force_post.

Definition post_puts (rank buffer size offset : Z) (rmr : rmr_t) (user_context : Z)
    (allow_retry force_post : bool) : NET errorcode_t :=
  post_or_park rank
    (call_impl (mk_op bo_puts rank buffer size 0 offset rmr 0 user_context))
    (push_puts rank buffer size offset rmr user_context)
    ec_done_backlog allow_retry force_post.

Definition post_put (rank buffer size mr offset : Z) (rmr : rmr_t) (user_context : Z)
    (allow_retry force_post : bool) : NET errorcode_t :=
  post_or_park rank
    (call_impl (mk_op bo_put rank buffer size mr offset rmr 0 user_context))
    (push_put rank buffer size mr offset rmr user_context)
    ec_posted_backlog allow_retry force_post.

Definition post_putImms_fallback (rank buffer size offset : Z) (rmr : rmr_t)
    (imm_data user_context : Z) (high_priority : bool) : NET errorcode_t :=
  e ← call_impl (mk_op bo_puts rank buffer size 0 offset rmr 0 user_context) high_priority ;
  if negb (is_retry e) then
    assert_st (is_done e) "Unexpected error" ;;
    e' ← post_sends rank 0 0 imm_data 0 false false ;
    assert_st (is_done e') "Unexpected error" ;;
    mret e
  else mret e.

Definition post_putImms (rank buffer size offset : Z) (rmr : rmr_t)
    (imm_data user_context : Z) (allow_retry force_post : bool) : NET errorcode_t :=
  post_or_park rank
    (fun high_priority =>
       if support_putimm then
         call_impl (mk_op bo_putImms rank buffer size 0 offset rmr imm_data user_context)
           high_priority
       else post_putImms_fallback rank buffer size offset rmr imm_data user_context high_priority)
    (push_putImms rank buffer size offset rmr imm_data user_context)
    ec_done_backlog allow_retry force_post.

Definition post_putImm_fallback (rank buffer size mr offset : Z) (rmr : rmr_t)
    (imm_data user_context : Z) : NET errorcode_t :=
  ectx ← new_ctx (Extended (mk_ectx user_context 1 0 rank imm_data)) ;
  e ← call_impl (mk_op bo_put rank buffer size mr offset rmr 0 ectx) true ;
  if is_retry e then drop_ctx ectx ;; mret e else mret e.

Definition post_putImm (rank buffer size mr offset : Z) (rmr : rmr_t)
    (imm_data user_context : Z) (allow_retry force_post : bool) : NET errorcode_t :=
  post_or_park rank
    (fun high_priority =>
       if support_putimm then
         call_impl (mk_op bo_putImm rank buffer size mr offset rmr imm_data user_context)
           high_priority
       else post_putImm_fallback rank buffer size mr offset rmr imm_data user_context)
    (push_putImm rank buffer size mr offset rmr imm_data user_context)
    ec_posted_backlog allow_retry force_post.

Definition post_get (rank buffer size mr offset : Z) (rmr : rmr_t) (user_context : Z)
    (allow_retry force_post : bool) : NET errorcode_t :=
  post_or_park rank
    (call_impl (mk_op bo_get rank buffer size mr offset rmr 0 user_context))
    (push_get rank buffer size mr offset rmr user_context)
    ec_posted_backlog allow_retry force_post.

(** ** Progress of the backlog queue *)

(** The switch over the kind of an operation, as [progress] makes it for the
    oldest entry with both flags set. *)
Definition post_op (e : net_op_t) (allow_retry force_post : bool) : NET errorcode_t :=
  match no_op e with
  | bo_sends => post_sends (no_rank e) (no_buffer e) (no_size e) (no_imm_data e)
                  (no_user_context e) allow_retry force_post
  | bo_send => post_send (no_rank e) (no_buffer e) (no_size e) (no_mr e) (no_imm_data e)
                 (no_user_context e) allow_retry force_post
  | bo_puts => post_puts (no_rank e) (no_buffer e) (no_size e) (no_offset e) (no_rmr e)
                 (no_user_context e) allow_retry force_post
  | bo_put => post_put (no_rank e) (no_buffer e) (no_size e) (no_mr e) (no_offset e)
                (no_rmr e) (no_user_context e) allow_retry force_post
  | bo_putImms => post_putImms (no_rank e) (no_buffer e) (no_size e) (no_offset e) (no_rmr e)
                    (no_imm_data e) (no_user_context e) allow_retry force_post
  | bo_putImm => post_putImm (no_rank e) (no_buffer e) (no_size e) (no_mr e) (no_offset e)
                   (no_rmr e) (no_imm_data e) (no_user_context e) allow_retry force_post
  | bo_get => post_get (no_rank e) (no_buffer e) (no_size e) (no_mr e) (no_offset e)
                (no_rmr e) (no_user_context e) allow_retry force_post
  end.

Definition set_lock (l : bool) : NET unit :=
  modify (fun s => set_bq (mk_bq (bq_empty (ns_bq s)) (bq_nentries (ns_bq s)) l
                                 (bq_queue (ns_bq s))) s).

(** [progress]: [try_lock] is the outcome of the try-lock. *)
Definition bq_progress (try_lock : bool) : NET bool :=
  bq ← gets ns_bq ;
  if bq_empty bq then mret false
  else if negb try_lock then mret false
  else
    set_lock true ;;
    match bq_queue bq with
    | [] =>
        modify (fun s => set_bq (mk_bq true (bq_nentries (ns_bq s)) false
                                       (bq_queue (ns_bq s))) s) ;;
        mret false
    | entry :: _ =>
        e ← post_op entry true true ;
        if negb (is_retry e) then
          modify (fun s =>
            let q := tail (bq_queue (ns_bq s)) in
            set_bq (mk_bq (match q with [] => true | _ => bq_empty (ns_bq s) end)
                          (bq_nentries (ns_bq s)) false q) s) ;;
          add_nentries (no_rank entry) (-1) ;;
          (if is_short (no_op entry) then free (no_buffer entry) else mret tt) ;;
          mret true
        else set_lock false ;; mret false
    end.
End Endpoint.
