(* ===== verification/Backlog.v ===== *)
(** * Order, accounting and progress of posted operations

    What the endpoint and its backlog queue promise to the layers above: an
    operation that may not be retried is taken by the backend or parked, parked
    operations reach the backend in the order they were posted to their rank with
    the data they had then, and the queue drains once the backend accepts. *)
From stdpp Require Import base numbers list gmap strings relations.
From Stdlib Require Import ZArith Lia.
From S2P Require Import Prelude Status Memory Net Endpoint.

(** ** Requests *)

(** An operation without the fields its kind does not use. *)
Definition canon (op : net_op_t) : net_op_t :=
  let 'mk_op k rank buffer size mr offset rmr imm uctx := op in
  match k with
  | bo_sends => mk_op k rank buffer size 0 0 RMR_NULL imm uctx
  | bo_send => mk_op k rank buffer size mr 0 RMR_NULL imm uctx
  | bo_puts => mk_op k rank buffer size 0 offset rmr 0 uctx
  | bo_put | bo_get => mk_op k rank buffer size mr offset rmr 0 uctx
  | bo_putImms => mk_op k rank buffer size 0 offset rmr imm uctx
  | bo_putImm => mk_op k rank buffer size mr offset rmr imm uctx
  end.

(** What an operation asks for: the data of a short operation instead of the
    address it is read from. *)
Definition request : Type := net_op_t * list Z.
Definition unbuffered (op : net_op_t) : net_op_t :=
  mk_op (no_op op) (no_rank op) 0 (no_size op) (no_mr op) (no_offset op) (no_rmr op)
        (no_imm_data op) (no_user_context op).
Definition view (m : memory) (op : net_op_t) : request :=
  if is_short (no_op op) then (unbuffered op, load_bytes m (no_buffer op) (no_size op))
  else (op, []).
Definition logged (a : request) : request :=
  if is_short (no_op a.1) then (unbuffered a.1, a.2) else (a.1, []).

Lemma canon_fields op :
  no_op (canon op) = no_op op /\ no_rank (canon op) = no_rank op
  /\ no_buffer (canon op) = no_buffer op /\ no_size (canon op) = no_size op
  /\ canon (canon op) = canon op.
Proof. by destruct op as [[] ????????]. Qed.

Lemma logged_view m op : logged (op, short_data op m) = view m op.
Proof. unfold logged, view, short_data. simpl. by destruct (is_short _). Qed.

Definition to_rank (r : Z) (l : list request) : list request :=
  filter (fun q => no_rank q.1 = r) l.

Lemma view_rank m op : no_rank (view m op).1 = no_rank op.
Proof. unfold view. by destruct (is_short _). Qed.

Definition is_imm (o : backlog_op_t) : bool :=
  match o with bo_putImms | bo_putImm => true | _ => false end.
Definition backlog_code (o : backlog_op_t) : errorcode_t :=
  if is_short o then ec_done_backlog else ec_posted_backlog.

Section Backlog.
Context {B : Type}.
Variable post_impl : net_op_t -> bool -> memory -> B -> errorcode_t * B.
Variable support_putimm : bool.
Implicit Types (s : nstate B) (op : net_op_t).

Definition push_op (op : net_op_t) : ST (nstate B) unit :=
  let 'mk_op k rank buffer size mr offset rmr imm uctx := op in
  match k with
  | bo_sends => push_sends rank buffer size imm uctx
  | bo_send => push_send rank buffer size mr imm uctx
  | bo_puts => push_puts rank buffer size offset rmr uctx
  | bo_put => push_put rank buffer size mr offset rmr uctx
  | bo_putImms => push_putImms rank buffer size offset rmr imm uctx
  | bo_putImm => push_putImm rank buffer size mr offset rmr imm uctx
  | bo_get => push_get rank buffer size mr offset rmr uctx
  end.

(** The seven posts have one shape, as long as the backend writes with
    immediate data itself. *)
Lemma post_op_eq op allow_retry force_post :
  support_putimm || negb (is_imm (no_op op)) = true ->
  post_op post_impl support_putimm op allow_retry force_post
  = post_or_park (no_rank op) (call_impl post_impl (canon op)) (push_op op)
      (backlog_code (no_op op)) allow_retry force_post.
Proof.
  destruct op as [[] ????????]; simpl; try reflexivity; rewrite orb_false_r; intros Hs;
    cbn; unfold post_putImms, post_putImm; by rewrite Hs.
Qed.

(** ** The invariant *)

Definition owned (q : list net_op_t) : list Z :=
  filter (fun a => a <> 0) (no_buffer <$> filter (fun o => is_short (no_op o) = true) q).
Definition count (r : Z) (q : list net_op_t) : Z :=
  Z.of_nat (length (filter (fun o => no_rank o = r) q)).
(** The buffer of a parked short operation is a block of its own. *)
Definition owns (blocks : gmap Z Z) (op : net_op_t) : Prop :=
  is_short (no_op op) = true ->
  (no_buffer op = 0 /\ no_size op = 0) \/ blocks !! no_buffer op = Some (no_size op).

Record bq_inv (s : nstate B) : Prop := mk_bq_inv {
  inv_unlocked : bq_locked (ns_bq s) = false;
  inv_empty : bq_empty (ns_bq s) = bool_decide (bq_queue (ns_bq s) = []);
  inv_count : forall r n, bq_nentries (ns_bq s) !! r = Some n ->
    n = count (Z.of_nat r) (bq_queue (ns_bq s));
  inv_small : Z.of_nat (length (bq_queue (ns_bq s))) < 2 ^ 64;
  inv_ranks : Forall (fun o => 0 <= no_rank o < Z.of_nat (length (bq_nentries (ns_bq s))))
                (bq_queue (ns_bq s));
  inv_canon : Forall (fun o => canon o = o) (bq_queue (ns_bq s));
  inv_imm : Forall (fun o => support_putimm || negb (is_imm (no_op o)) = true)
              (bq_queue (ns_bq s));
  inv_brk : 0 < ns_brk s;
  inv_blocks : forall a n, ns_blocks s !! a = Some n -> 0 < a /\ 0 <= n /\ a + Z.max 1 n <= ns_brk s;
  inv_owns : Forall (owns (ns_blocks s)) (bq_queue (ns_bq s));
  inv_owned : NoDup (owned (bq_queue (ns_bq s)))
}.

Definition valid_rank s (r : Z) : Prop := 0 <= r < Z.of_nat (length (bq_nentries (ns_bq s))).

(** ** Lemmas on counts *)

Lemma count_app r q q' : count r (q ++ q') = count r q + count r q'.
Proof. unfold count. rewrite filter_app, length_app. lia. Qed.
Lemma count_cons r o q : count r (o :: q) = (if decide (no_rank o = r) then 1 else 0) + count r q.
Proof. unfold count. rewrite filter_cons. destruct (decide _); simpl length; lia. Qed.
Lemma count_bound r q : 0 <= count r q <= Z.of_nat (length q).
Proof.
  unfold count. split; [lia|]. apply inj_le. apply length_filter.
Qed.
Lemma count_zero r q : count r q = 0 -> filter (fun o => no_rank o = r) q = [].
Proof. unfold count. destruct (filter _ q); simpl; [done|lia]. Qed.

Lemma owned_app q q' : owned (q ++ q') = owned q ++ owned q'.
Proof. unfold owned. by rewrite filter_app, fmap_app, filter_app. Qed.

Lemma to_rank_views r m q :
  filter (fun o => no_rank o = r) q = [] -> to_rank r (view m <$> q) = [].
Proof.
  unfold to_rank. induction q as [|o q IH]; [done|]. rewrite fmap_cons, !filter_cons.
  rewrite view_rank. destruct (decide _); [done|exact IH].
Qed.

Lemma owned_live s a : bq_inv s -> a ∈ owned (bq_queue (ns_bq s)) -> a < ns_brk s.
Proof.
  intros I Ha. unfold owned in Ha. apply list_elem_of_filter in Ha as [Ha0 Ha].
  apply list_elem_of_fmap in Ha as (o & -> & Ho). apply list_elem_of_filter in Ho as [Hs Ho].
  pose proof (inv_owns _ I) as H. rewrite Forall_forall in H.
  destruct (H o Ho Hs) as [[??]|Hb]; [done|]. apply (inv_blocks _ I) in Hb. lia.
Qed.

(** Parked data does not change when the live blocks do not. *)
Definition agree_on_blocks s (m : memory) : Prop :=
  forall a n x, ns_blocks s !! a = Some n -> a <= x < a + n -> m x = ns_mem s x.

Lemma views_agree s m :
  bq_inv s -> agree_on_blocks s m ->
  view m <$> bq_queue (ns_bq s) = view (ns_mem s) <$> bq_queue (ns_bq s).
Proof.
  intros I Hm. apply list_fmap_ext. intros i o Ho. apply list_elem_of_lookup_2 in Ho.
  unfold view. destruct (is_short (no_op o)) eqn:Hs; [|done]. f_equal.
  pose proof (inv_owns _ I) as H. rewrite Forall_forall in H.
  destruct (H o Ho Hs) as [[_ Hz]|Hb]; [by rewrite Hz|].
  apply load_bytes_ext. intros x Hx. eapply Hm; eauto.
Qed.

(** ** Pushing *)

Definition pushed s op : nstate B :=
  set_bq (mk_bq false (<[Z.to_nat (no_rank op) := count (no_rank op) (bq_queue (ns_bq s)) + 1]>
                         (bq_nentries (ns_bq s))) false (bq_queue (ns_bq s) ++ [op])) s.

Lemma nentries_lookup s r :
  bq_inv s -> valid_rank s r ->
  bq_nentries (ns_bq s) !! Z.to_nat r = Some (count r (bq_queue (ns_bq s))).
Proof.
  intros I [H0 H1]. destruct (lookup_lt_is_Some_2 (bq_nentries (ns_bq s)) (Z.to_nat r)) as [n Hn];
    [lia|]. rewrite Hn. rewrite (inv_count _ I _ _ Hn). by rewrite Z2Nat.id.
Qed.

Lemma push_entry_eq s op :
  bq_inv s -> valid_rank s (no_rank op) ->
  Z.of_nat (length (bq_queue (ns_bq s))) + 1 < 2 ^ 64 ->
  push_entry op s = Ok (tt, pushed s op).
Proof.
  intros I Hr Hl. unfold push_entry.
  assert (Ha : add_nentries (no_rank op) 1 s = Ok (tt, set_bq (mk_bq (bq_empty (ns_bq s))
     (<[Z.to_nat (no_rank op) := count (no_rank op) (bq_queue (ns_bq s)) + 1]>
        (bq_nentries (ns_bq s))) (bq_locked (ns_bq s)) (bq_queue (ns_bq s))) s)).
  { unfold add_nentries. destruct Hr as [H0 H1]. rewrite (proj2 (Z.leb_le _ _)) by done.
    rewrite nentries_lookup by done. pose proof (count_bound (no_rank op) (bq_queue (ns_bq s))).
    rewrite u64_id by (unfold is_u64; lia). done. }
  rewrite (st_bind_eq _ _ _ _ _ Ha). unfold append_entry. simpl.
  by rewrite (inv_unlocked _ I).
Qed.

Lemma pushed_inv s op :
  bq_inv s -> valid_rank s (no_rank op) ->
  Z.of_nat (length (bq_queue (ns_bq s))) + 1 < 2 ^ 64 ->
  canon op = op -> support_putimm || negb (is_imm (no_op op)) = true ->
  owns (ns_blocks s) op -> NoDup (owned (bq_queue (ns_bq s)) ++ owned [op]) ->
  bq_inv (pushed s op).
Proof.
  intros I Hr Hl Hc Hi Ho Hn. unfold pushed. constructor; simpl; try apply I; try done.
  - rewrite bool_decide_eq_false_2; [done|]. by destruct (bq_queue (ns_bq s)).
  - intros r n Hlk. rewrite count_app, count_cons.
    change (count (Z.of_nat r) []) with 0.
    destruct (decide (r = Z.to_nat (no_rank op))) as [-> | Hne].
    + rewrite list_lookup_insert_eq in Hlk by (destruct Hr; lia). injection Hlk as <-.
      rewrite Z2Nat.id by apply Hr. rewrite decide_True by done. lia.
    + rewrite list_lookup_insert_ne in Hlk by done.
      rewrite decide_False by (intros E; apply Hne; lia).
      rewrite (inv_count _ I _ _ Hlk). lia.
  - rewrite length_app. simpl. lia.
  - rewrite length_insert. apply Forall_app. split; [apply I|]. by apply Forall_singleton.
  - apply Forall_app. split; [apply I|]. by apply Forall_singleton.
  - apply Forall_app. split; [apply I|]. by apply Forall_singleton.
  - apply Forall_app. split; [apply I|]. by apply Forall_singleton.
  - by rewrite owned_app.
Qed.

(** The state after a buffer was copied for a parked operation. *)
Definition copied s (buffer size : Z) : nstate B :=
  mk_nstate (memcpy (ns_brk s) buffer size (ns_mem s)) (ns_brk s + Z.max 1 size)
    (<[ns_brk s := size]> (ns_blocks s)) (ns_ctxs s) (ns_bq s) (ns_net s) (ns_accepted s).

Lemma copied_agree s buffer size :
  bq_inv s -> 0 <= size -> agree_on_blocks s (ns_mem (copied s buffer size)).
Proof.
  intros I Hsz a n x Hb Hx. apply (inv_blocks _ I) in Hb. simpl. apply memcpy_other. lia.
Qed.

Lemma copied_inv s buffer size : bq_inv s -> 0 <= size -> bq_inv (copied s buffer size).
Proof.
  intros I Hsz. pose proof (inv_brk _ I) as Hb. constructor; simpl; try apply I.
  - lia.
  - intros a n. rewrite lookup_insert_Some. intros [[<- <-]|[Hne Hl]]; [lia|].
    apply (inv_blocks _ I) in Hl. lia.
  - eapply Forall_impl; [apply (inv_owns _ I)|]. intros o Ho Hs.
    destruct (Ho Hs) as [?|Hl]; [by left|]. right. rewrite lookup_insert_ne; [done|].
    apply (inv_blocks _ I) in Hl. lia.
Qed.

(** Every live block belongs to a parked operation. *)
Definition no_leak s : Prop :=
  forall a, is_Some (ns_blocks s !! a) -> a ∈ owned (bq_queue (ns_bq s)).

(** What a push does: the operation is the newest entry, with its data. *)
Definition parks s op s' : Prop :=
  bq_inv s' /\ (no_leak s -> no_leak s')
  /\ (forall a, a ∈ owned (bq_queue (ns_bq s')) -> a ∈ owned (bq_queue (ns_bq s)) \/ a = ns_brk s)
  /\ ns_accepted s' = ns_accepted s
  /\ (forall x, x < ns_brk s -> ns_mem s' x = ns_mem s x)
  /\ length (bq_nentries (ns_bq s')) = length (bq_nentries (ns_bq s))
  /\ length (bq_queue (ns_bq s')) = S (length (bq_queue (ns_bq s)))
  /\ view (ns_mem s') <$> bq_queue (ns_bq s')
     = (view (ns_mem s) <$> bq_queue (ns_bq s)) ++ [view (ns_mem s) (canon op)].

Definition postable s op : Prop :=
  support_putimm || negb (is_imm (no_op op)) = true /\ 0 <= no_size op
  /\ valid_rank s (no_rank op) /\ Z.of_nat (length (bq_queue (ns_bq s))) + 1 < 2 ^ 64.

(** A push of an entry that owns no new block. *)
Lemma push_plain s op :
  bq_inv s -> postable s op -> canon op = op -> owned [op] = [] ->
  (is_short (no_op op) = true -> no_buffer op = 0 /\ no_size op = 0) ->
  exists s', push_entry op s = Ok (tt, s') /\ parks s op s'.
Proof.
  intros I (Hi & Hsz & Hr & Hl) Hc Ho Hs. exists (pushed s op). split; [by apply push_entry_eq|].
  unfold parks. split.
  - apply pushed_inv; try done.
    + intros H. left. by apply Hs.
    + rewrite Ho, app_nil_r. apply I.
  - unfold pushed, no_leak. simpl. rewrite length_insert, length_app, fmap_app, Hc. simpl.
    rewrite owned_app, Ho, app_nil_r. repeat split; [done|by left|lia].
Qed.

(** A push of an entry that owns the block that was just copied. *)
Lemma push_copied s op :
  bq_inv s -> postable s op -> is_short (no_op op) = true ->
  let op' := mk_op (no_op op) (no_rank op) (ns_brk s) (no_size op) (no_mr op) (no_offset op)
               (no_rmr op) (no_imm_data op) (no_user_context op) in
  canon op = op ->
  exists s', (b ← copy_buffer (no_buffer op) (no_size op) ;
              push_entry (mk_op (no_op op) (no_rank op) b (no_size op) (no_mr op) (no_offset op)
               (no_rmr op) (no_imm_data op) (no_user_context op))) s = Ok (tt, s')
    /\ parks s op s'.
Proof.
  intros I (Hi & Hsz & Hr & Hl) Hs op' Hc.
  assert (Hw : owned [op'] = [ns_brk s]).
  { pose proof (inv_brk _ I) as Hb. unfold owned. rewrite filter_cons. simpl.
    rewrite Hs, decide_True by done. simpl. by rewrite filter_cons, decide_True by lia. }
  set (s1 := copied s (no_buffer op) (no_size op)).
  exists (pushed s1 op'). pose proof (copied_inv s (no_buffer op) (no_size op) I Hsz) as I1.
  split.
  { rewrite (st_bind_eq _ _ s (ns_brk s) s1); [|done].
    by apply push_entry_eq. }
  unfold parks. split.
  - apply pushed_inv; try done.
    + unfold op'. destruct op as [[] ????????]; simpl in *; congruence.
    + intros _. right. simpl. apply lookup_insert_eq.
    + rewrite Hw. apply NoDup_app. split; [apply I|]. split; [|repeat constructor; set_solver].
      intros a Ha ->%list_elem_of_singleton. apply (owned_live _ _ I) in Ha. lia.
  - unfold pushed, no_leak. simpl. rewrite length_insert, length_app, fmap_app, Hc. simpl.
    repeat split; [| |intros x Hx; by apply memcpy_other; left|lia|].
    { intros Hn a [n Ha]. rewrite owned_app, Hw. apply elem_of_app.
      apply lookup_insert_Some in Ha as [[<- _]|[_ Ha]]; [right; set_solver|left; eauto]. }
    { rewrite owned_app, Hw. set_solver. }
    f_equal; [by apply (views_agree s), copied_agree|].
    unfold view, op'. simpl. rewrite Hs. unfold unbuffered. simpl. by rewrite memcpy_load.
Qed.

Lemma push_op_spec s op :
  bq_inv s -> postable s op -> exists s', push_op op s = Ok (tt, s') /\ parks s op s'.
Proof.
  intros I Hp.
  assert (Hpc : postable s (canon op)).
  { destruct (canon_fields op) as (H1 & H2 & _ & H4 & _). unfold postable in *.
    by rewrite H1, H2, H4. }
  assert (Hpk : forall s', parks s (canon op) s' -> parks s op s').
  { intros s'. unfold parks. by rewrite (proj2 (proj2 (proj2 (proj2 (canon_fields op))))). }
  cut (exists s', push_op op s = Ok (tt, s') /\ parks s (canon op) s');
    [intros (s' & ? & ?); eauto|].
  clear Hpk. destruct op as [k rank buffer size mr offset rmr imm uctx]. unfold push_op.
  destruct k; simpl in Hpc |- *;
    try (apply push_plain; try done; unfold owned; rewrite filter_cons; reflexivity).
  - unfold push_sends. destruct (size =? 0) eqn:E; cbn [negb].
    + apply Z.eqb_eq in E as ->.
      rewrite (st_bind_eq _ _ s 0 s) by done.
      destruct (push_plain s (mk_op bo_sends rank 0 0 0 0 RMR_NULL imm uctx)) as (s' & ? & Hk);
        try done.
      exists s'. split; [done|]. unfold parks, view in *. by simpl in *.
    + apply (push_copied s (mk_op bo_sends rank buffer size 0 0 RMR_NULL imm uctx)); done.
  - apply (push_copied s (mk_op bo_puts rank buffer size 0 offset rmr 0 uctx)); done.
  - apply (push_copied s (mk_op bo_putImms rank buffer size 0 offset rmr imm uctx)); done.
Qed.

(** ** Posting *)

Lemma call_impl_spec s op h :
  exists e s', call_impl post_impl op h s = Ok (e, s')
    /\ e = (post_impl op h (ns_mem s) (ns_net s)).1
    /\ ns_net s' = (post_impl op h (ns_mem s) (ns_net s)).2
    /\ ns_mem s' = ns_mem s /\ ns_brk s' = ns_brk s /\ ns_blocks s' = ns_blocks s
    /\ ns_bq s' = ns_bq s
    /\ ns_accepted s' = (if is_retry e then ns_accepted s
                         else ns_accepted s ++ [(op, short_data op (ns_mem s))]).
Proof.
  unfold call_impl. destruct (post_impl op h (ns_mem s) (ns_net s)) as [e b].
  eexists e, _. by repeat split.
Qed.

(** The invariant reads only these parts of the state. *)
Lemma bq_inv_ext s s' :
  ns_brk s' = ns_brk s -> ns_blocks s' = ns_blocks s -> ns_bq s' = ns_bq s ->
  bq_inv s -> bq_inv s'.
Proof.
  destruct s, s'. simpl. intros -> -> -> I. constructor; apply I.
Qed.

Lemma parks_ext s s1 op s2 :
  ns_mem s1 = ns_mem s -> ns_brk s1 = ns_brk s -> ns_blocks s1 = ns_blocks s ->
  ns_bq s1 = ns_bq s -> ns_accepted s1 = ns_accepted s -> parks s1 op s2 -> parks s op s2.
Proof. destruct s, s1. unfold parks. simpl. by intros -> -> -> -> ->. Qed.

(** The three outcomes of a post: a retry the caller allows, an operation the
    backend took, an operation that is parked. *)
Inductive post_outcome s op (allow_retry : bool) : errorcode_t -> nstate B -> Prop :=
  | outcome_retry e s' :
      is_retry e = true -> allow_retry = true ->
      ns_mem s' = ns_mem s -> ns_blocks s' = ns_blocks s -> ns_bq s' = ns_bq s ->
      ns_accepted s' = ns_accepted s -> post_outcome s op allow_retry e s'
  | outcome_taken h s' :
      let e := (post_impl (canon op) h (ns_mem s) (ns_net s)).1 in
      is_retry e = false -> count (no_rank op) (bq_queue (ns_bq s)) = 0 ->
      ns_mem s' = ns_mem s -> ns_blocks s' = ns_blocks s -> ns_bq s' = ns_bq s ->
      ns_accepted s' = ns_accepted s ++ [(canon op, short_data (canon op) (ns_mem s))] ->
      post_outcome s op allow_retry e s'
  | outcome_parked s' :
      allow_retry = false -> parks s op s' ->
      post_outcome s op allow_retry (backlog_code (no_op op)) s'.

Lemma post_op_spec s op allow_retry :
  bq_inv s -> postable s op ->
  exists e s', post_op post_impl support_putimm op allow_retry false s = Ok (e, s')
    /\ bq_inv s' /\ length (bq_nentries (ns_bq s')) = length (bq_nentries (ns_bq s))
    /\ post_outcome s op allow_retry e s'.
Proof.
  intros I Hp. pose proof Hp as (Hi & Hsz & Hr & Hl).
  rewrite post_op_eq by done. unfold post_or_park.
  assert (He : bq_is_empty (no_rank op) s
               = Ok (count (no_rank op) (bq_queue (ns_bq s)) =? 0, s)).
  { unfold bq_is_empty. rewrite (proj2 (Z.leb_le _ _)) by apply Hr. by rewrite nentries_lookup. }
  destruct (push_op_spec s op I Hp) as (sp & Hpush & Hparks).
  destruct (count (no_rank op) (bq_queue (ns_bq s)) =? 0) eqn:E.
  - destruct (call_impl_spec s (canon op) (negb allow_retry || false))
      as (e & s1 & Hc & Hpe & _ & Hm & Hb & Hbl & Hbq & Hacc).
    assert (I1 : bq_inv s1) by by eapply bq_inv_ext.
    assert (Hp1 : postable s1 op) by (unfold postable, valid_rank; by rewrite Hbq).
    erewrite st_bind_eq; [|rewrite (st_bind_eq _ _ _ _ _ He); exact Hc].
    destruct (is_retry e) eqn:Hre.
    + destruct allow_retry; cbn [negb].
      * exists e, s1. rewrite Hbq. split_and!; try done. by constructor.
      * destruct (push_op_spec s1 op I1 Hp1) as (s2 & Hs2 & Hk).
        rewrite (st_bind_eq _ _ _ _ _ Hs2). eexists _, s2.
        assert (Hk' : parks s op s2) by by eapply parks_ext.
        split_and!; [done|apply Hk'|apply Hk'|by constructor].
    + exists e, s1. rewrite Hbq. split_and!; try done. subst e.
      apply outcome_taken; try done. by apply Z.eqb_eq.
  - erewrite st_bind_eq; [|rewrite (st_bind_eq _ _ _ _ _ He); reflexivity].
    change (is_retry ec_retry_backlog) with true. cbn beta iota.
    destruct allow_retry; cbn [negb].
    + exists ec_retry_backlog, s. split_and!; try done. by constructor.
    + rewrite (st_bind_eq _ _ _ _ _ Hpush). eexists _, sp.
      split_and!; [done|apply Hparks|apply Hparks|by constructor].
Qed.

(** ** Progress *)

Inductive progress_outcome s : bool -> nstate B -> Prop :=
  | progress_idle s' :
      ns_mem s' = ns_mem s -> ns_blocks s' = ns_blocks s -> ns_bq s' = ns_bq s ->
      ns_accepted s' = ns_accepted s -> progress_outcome s false s'
  | progress_posted o q s' :
      bq_queue (ns_bq s) = o :: q -> bq_queue (ns_bq s') = q ->
      is_retry (post_impl o true (ns_mem s) (ns_net s)).1 = false ->
      ns_net s' = (post_impl o true (ns_mem s) (ns_net s)).2 ->
      ns_mem s' = ns_mem s -> (no_leak s -> no_leak s') ->
      (forall a n, ns_blocks s' !! a = Some n -> ns_blocks s !! a = Some n) ->
      ns_accepted s' = ns_accepted s ++ [(o, short_data o (ns_mem s))] ->
      progress_outcome s true s'.

(** The state once the oldest entry [o] is gone; [s1] is the state the backend
    left. *)
Definition popped s1 o q : nstate B :=
  mk_nstate (ns_mem s1) (ns_brk s1)
    (if is_short (no_op o) && negb (no_buffer o =? 0) then delete (no_buffer o) (ns_blocks s1)
     else ns_blocks s1) (ns_ctxs s1)
    (mk_bq (bool_decide (q = []))
       (<[Z.to_nat (no_rank o) := count (no_rank o) q]> (bq_nentries (ns_bq s1))) false q)
    (ns_net s1) (ns_accepted s1).

Lemma owned_cons o q :
  owned (o :: q)
  = if is_short (no_op o) && negb (no_buffer o =? 0) then no_buffer o :: owned q else owned q.
Proof.
  unfold owned. rewrite filter_cons. destruct (is_short (no_op o)) eqn:E; simpl; [|done].
  rewrite filter_cons. destruct (no_buffer o =? 0) eqn:E0; simpl.
  - rewrite decide_False by lia. done.
  - rewrite decide_True by lia. done.
Qed.

Lemma popped_inv s o q :
  bq_inv s -> bq_queue (ns_bq s) = o :: q -> bq_inv (popped s o q).
Proof.
  intros I Hq. pose proof (inv_owned _ I) as Hn. pose proof (inv_owns _ I) as Ho.
  pose proof (inv_ranks _ I) as Hr. pose proof (inv_small _ I) as Hl.
  pose proof (inv_canon _ I) as Hc. pose proof (inv_imm _ I) as Hi.
  rewrite Hq in *. rewrite owned_cons in Hn.
  apply Forall_cons in Hr as [Hr0 Hr], Ho as [_ Ho], Hc as [_ Hc], Hi as [_ Hi].
  constructor; simpl; try done; try apply I.
  - intros r n Hlk. destruct (decide (r = Z.to_nat (no_rank o))) as [-> | Hne].
    + rewrite list_lookup_insert_eq in Hlk by lia. rewrite Z2Nat.id by lia. congruence.
    + rewrite list_lookup_insert_ne in Hlk by done. rewrite (inv_count _ I _ _ Hlk), Hq.
      rewrite count_cons, decide_False by lia. lia.
  - simpl in Hl. lia.
  - by rewrite length_insert.
  - intros a n Ha. apply (inv_blocks _ I). destruct (_ && _); [|done].
    by apply lookup_delete_Some in Ha as [_ Ha].
  - rewrite Forall_forall in Ho |- *. intros x Hx Hs.
    destruct (Ho x Hx Hs) as [?|Hb]; [by left|].
    destruct (_ && _) eqn:E; [|by right]. right.
    rewrite lookup_delete_ne; [done|]. intros Hbuf. apply NoDup_cons in Hn as [Hn _].
    apply Hn. rewrite Hbuf. unfold owned. apply list_elem_of_filter.
    split; [lia|]. apply list_elem_of_fmap. exists x. split; [done|].
    by apply list_elem_of_filter.
  - destruct (_ && _); [by apply NoDup_cons in Hn as [_ Hn]|done].
Qed.

Lemma popped_no_leak s o q :
  bq_queue (ns_bq s) = o :: q -> no_leak s -> no_leak (popped s o q).
Proof.
  unfold no_leak, popped. simpl. intros -> H a [n Ha]. rewrite owned_cons in H.
  destruct (_ && _).
  - apply lookup_delete_Some in Ha as [Hne Ha].
    specialize (H a (mk_is_Some _ _ Ha)). apply elem_of_cons in H as [-> | ?]; done.
  - eauto.
Qed.

Lemma post_op_forced s o :
  support_putimm || negb (is_imm (no_op o)) = true -> canon o = o ->
  post_op post_impl support_putimm o true true s = call_impl post_impl o true s.
Proof.
  intros Hi Hc. rewrite post_op_eq, Hc by done. unfold post_or_park.
  destruct (call_impl_spec s o true) as (e & s1 & He & _).
  rewrite (st_bind_eq _ _ s e s1) by done. rewrite He. by destruct (is_retry e).
Qed.

(** Everything after the switch when the backend took the oldest entry [o]. *)
Lemma pop_front s o q :
  bq_inv s -> bq_queue (ns_bq s) = o :: q ->
  forall s1, ns_bq s1 = mk_bq (bq_empty (ns_bq s)) (bq_nentries (ns_bq s)) true (o :: q) ->
  ns_blocks s1 = ns_blocks s ->
  (modify (fun s =>
     let q := tail (bq_queue (ns_bq s)) in
     set_bq (mk_bq (match q with [] => true | _ => bq_empty (ns_bq s) end)
                   (bq_nentries (ns_bq s)) false q) s) ;;
   add_nentries (no_rank o) (-1) ;;
   (if is_short (no_op o) then free (no_buffer o) else mret tt) ;;
   mret true) s1 = Ok (true, popped s1 o q).
Proof.
  intros I Hq s1 Hbq Hbl.
  pose proof (inv_ranks _ I) as Hr. pose proof (inv_small _ I) as Hl. rewrite Hq in Hr, Hl.
  apply Forall_cons in Hr as [Hr _].
  assert (Hn : (bq_nentries (ns_bq s)) !! Z.to_nat (no_rank o) = Some (1 + count (no_rank o) q)).
  { rewrite nentries_lookup, Hq, count_cons, decide_True by done. done. }
  assert (He : match q with [] => true | _ => bq_empty (ns_bq s) end = bool_decide (q = [])).
  { rewrite (inv_empty _ I), Hq. by destruct q. }
  pose proof (count_bound (no_rank o) q) as Hcb. simpl in Hl.
  destruct s1 as [m brk bl ctxs bq net acc]. simpl in *. subst bq bl.
  unfold mbind, st_bind at 1, modify. cbn -[add_nentries free Z.add].
  unfold st_bind at 1, add_nentries. cbn -[free Z.add].
  rewrite (proj2 (Z.leb_le _ _)) by lia. rewrite Hn, He.
  replace (1 + count (no_rank o) q + -1) with (count (no_rank o) q) by lia.
  rewrite u64_id by (unfold is_u64; lia).
  unfold popped. cbn -[free Z.add]. unfold st_bind.
  destruct (is_short (no_op o)) eqn:Hs; cbn; [|done]. unfold free.
  destruct (no_buffer o =? 0) eqn:Hz; cbn; [done|].
  pose proof (inv_owns _ I) as Ho. rewrite Hq in Ho. apply Forall_cons in Ho as [Ho _].
  destruct (Ho Hs) as [[??]|Hb]; [lia|]. by rewrite Hb.
Qed.

Lemma bq_progress_spec s try_lock :
  bq_inv s ->
  exists b s', bq_progress post_impl support_putimm try_lock s = Ok (b, s')
    /\ bq_inv s' /\ length (bq_nentries (ns_bq s')) = length (bq_nentries (ns_bq s))
    /\ progress_outcome s b s'
    /\ (try_lock = true -> b = false ->
        bq_queue (ns_bq s) = []
        \/ exists o, is_retry (post_impl o true (ns_mem s) (ns_net s)).1 = true).
Proof.
  intros I. unfold bq_progress. rewrite (st_bind_eq _ _ s (ns_bq s) s) by done.
  pose proof (inv_empty _ I) as He.
  destruct (bq_queue (ns_bq s)) as [|o q] eqn:Hq; simpl in He; rewrite He.
  { exists false, s. split_and!; try done. - by constructor. - by left. }
  destruct try_lock; cbn [negb].
  2:{ exists false, s. split_and!; try done. by constructor. }
  rewrite (st_bind_eq _ _ s tt (set_bq (mk_bq (bq_empty (ns_bq s)) (bq_nentries (ns_bq s)) true
                                 (bq_queue (ns_bq s))) s)) by done.
  pose proof (inv_canon _ I) as Hc. pose proof (inv_imm _ I) as Hi. rewrite Hq in Hc, Hi.
  apply Forall_cons in Hc as [Hc _], Hi as [Hi _].
  set (s0 := set_bq _ s).
  destruct (call_impl_spec s0 o true) as (e & s1 & H1 & Hpe & Hpn & Hm & Hb & Hbl & Hbq & Hacc).
  rewrite (st_bind_eq _ _ s0 e s1) by (by rewrite post_op_forced).
  destruct (is_retry e) eqn:Hre; cbn [negb].
  - eexists false, _. split; [reflexivity|]. simpl.
    assert (ns_bq s = mk_bq (bq_empty (ns_bq s)) (bq_nentries (ns_bq s)) false
                            (bq_queue (ns_bq s))) as Hs.
    { rewrite <- (inv_unlocked _ I). by destruct (ns_bq s). }
    rewrite Hbq. simpl. rewrite <- Hs.
    split_and!; try done.
    + by eapply bq_inv_ext; [..|exact I].
    + by constructor.
    + intros _ _. right. exists o. by rewrite Hpe in Hre.
  - assert (Hpop := pop_front s o q I Hq s1).
    set (s2 := set_bq (ns_bq s) s1).
    assert (I2 : bq_inv s2) by (by eapply bq_inv_ext; [..|exact I]).
    assert (E2 : popped s1 o q = popped s2 o q) by (unfold popped, s2; simpl; by rewrite Hbq).
    exists true, (popped s2 o q). split_and!; try done.
    + rewrite <- E2. apply Hpop; [rewrite Hbq; unfold s0; simpl; by rewrite Hq|done].
    + by apply popped_inv.
    + simpl. by rewrite length_insert.
    + eapply progress_posted; [done|done|by rewrite Hpe in Hre|exact Hpn| | | |].
      * done.
      * intros Hn. apply popped_no_leak; [done|]. unfold no_leak. simpl. by rewrite Hbl.
      * simpl. rewrite Hbl. intros a n. destruct (_ && _); [|done].
        by intros [_ ?]%lookup_delete_Some.
      * simpl. by rewrite Hacc.
Qed.

(** ** Runs *)

(** The owner of the endpoint posts operations, the progress engine progresses
    the backlog queue, and the program writes to memory that is not a parked
    buffer. A run carries the requests whose post did not return a retry. *)
Inductive step : list request * nstate B -> list request * nstate B -> Prop :=
  | step_post cs s op allow_retry e s' :
      postable s op ->
      post_op post_impl support_putimm op allow_retry false s = Ok (e, s') ->
      step (cs, s) (if is_retry e then cs else cs ++ [view (ns_mem s) (canon op)], s')
  | step_progress cs s try_lock b s' :
      bq_progress post_impl support_putimm try_lock s = Ok (b, s') -> step (cs, s) (cs, s')
  | step_write cs s m : agree_on_blocks s m -> step (cs, s) (cs, set_mem m s).

Definition start (nranks : nat) s : Prop :=
  ns_bq s = backlog_queue_new nranks /\ ns_blocks s = ∅ /\ 0 < ns_brk s /\ ns_accepted s = [].
Definition reachable (nranks : nat) (cs : list request) s : Prop :=
  exists s0, start nranks s0 /\ rtc step ([], s0) (cs, s).

(** What a run keeps. *)
Record run_inv (nranks : nat) (cs : list request) s : Prop := mk_run_inv {
  run_bq : bq_inv s;
  run_leak : no_leak s;
  run_nranks : length (bq_nentries (ns_bq s)) = nranks;
  run_order : forall r, to_rank r cs
    = to_rank r ((logged <$> ns_accepted s) ++ (view (ns_mem s) <$> bq_queue (ns_bq s)))
}.

Lemma to_rank_app r l l' : to_rank r (l ++ l') = to_rank r l ++ to_rank r l'.
Proof. apply filter_app. Qed.

Lemma backlog_code_not_retry o : is_retry (backlog_code o) = false.
Proof. by destruct o. Qed.

Lemma no_leak_ext s s' :
  ns_blocks s' = ns_blocks s -> ns_bq s' = ns_bq s -> no_leak s -> no_leak s'.
Proof. unfold no_leak. by intros -> ->. Qed.

Lemma start_run_inv nranks s : start nranks s -> run_inv nranks [] s.
Proof.
  intros (Hbq & Hbl & Hb & Ha). constructor.
  - constructor; rewrite ?Hbq, ?Hbl; simpl; try done; try apply Forall_nil_2.
    + intros r n Hn. by apply lookup_replicate in Hn as [-> _].
    + constructor.
  - intros a [n Hn]. by rewrite Hbl, lookup_empty in Hn.
  - rewrite Hbq. simpl. apply length_replicate.
  - intros r. by rewrite Hbq, Ha.
Qed.

Lemma post_run_inv nranks cs s op allow_retry e s' :
  run_inv nranks cs s -> postable s op ->
  post_op post_impl support_putimm op allow_retry false s = Ok (e, s') ->
  run_inv nranks (if is_retry e then cs else cs ++ [view (ns_mem s) (canon op)]) s'.
Proof.
  intros [I Hlk Hn Ho] Hp Heq.
  destruct (post_op_spec s op allow_retry I Hp) as (e' & s1 & Heq' & I' & Hlen & Hout).
  rewrite Heq in Heq'. injection Heq' as <- <-.
  destruct Hout as [e s' He _ Hm Hbl Hbq Ha|h s' e He Hc Hm Hbl Hbq Ha|s' _ Hk].
  - rewrite He. constructor; [done|by eapply no_leak_ext|congruence|].
    by rewrite Hm, Hbq, Ha.
  - rewrite He. constructor; [done|by eapply no_leak_ext|congruence|]. intros r.
    rewrite Hm, Hbq, Ha, fmap_app. simpl. rewrite logged_view.
    rewrite !to_rank_app, Ho, to_rank_app, <- !app_assoc. f_equal.
    destruct (decide (no_rank op = r)) as [<- | Hne].
    + rewrite to_rank_views by (by apply count_zero). by rewrite app_nil_r.
    + assert (to_rank r [view (ns_mem s) (canon op)] = []) as ->; [|by rewrite app_nil_r].
      unfold to_rank. rewrite filter_cons, view_rank.
      by rewrite (proj1 (proj2 (canon_fields op))), decide_False.
  - destruct Hk as (_ & Hlk' & _ & Ha & _ & _ & _ & Hv). rewrite backlog_code_not_retry.
    constructor; [done|by apply Hlk'|congruence|]. intros r.
    by rewrite Hv, Ha, app_assoc, !(to_rank_app r _ [view _ _]), Ho.
Qed.

Lemma progress_run_inv nranks cs s try_lock b s' :
  run_inv nranks cs s -> bq_progress post_impl support_putimm try_lock s = Ok (b, s') ->
  run_inv nranks cs s'.
Proof.
  intros [I Hlk Hn Ho] Heq.
  destruct (bq_progress_spec s try_lock I) as (b' & s1 & Heq' & I' & Hlen & Hout & _).
  rewrite Heq in Heq'. injection Heq' as <- <-.
  destruct Hout as [s' Hm Hbl Hbq Ha|o q s' Hq Hq' _ _ Hm Hlk' _ Ha].
  - constructor; [done|by eapply no_leak_ext|congruence|]. by rewrite Hm, Hbq, Ha.
  - constructor; [done|auto|congruence|]. intros r.
    rewrite Hm, Hq', Ha, Ho, Hq, fmap_app, fmap_cons. simpl. rewrite logged_view.
    by rewrite <- app_assoc.
Qed.

Lemma reachable_run_inv nranks cs s : reachable nranks cs s -> run_inv nranks cs s.
Proof.
  intros (s0 & H0 & Hr). apply start_run_inv in H0.
  revert H0.
  enough (forall x y, rtc step x y -> run_inv nranks x.1 x.2 -> run_inv nranks y.1 y.2) as H.
  { exact (H _ _ Hr). }
  induction 1 as [|x y z Hs _ IH]; [done|]. intros Hx. apply IH. clear IH.
  destruct Hs as [cs' s' op ar e s1 Hp Heq|cs' s' tl b s1 Heq|cs' s' m Hm]; simpl in *.
  - by eapply post_run_inv.
  - by eapply progress_run_inv.
  - destruct Hx as [I Hlk Hn Ho]. constructor; [by apply (bq_inv_ext s')|done..|].
    intros r. simpl. rewrite views_agree by done. apply Ho.
Qed.

(** ** The guarantees *)

(** C3: at every point of a run, the operations committed to a rank are, in the
    order in which they were posted and with the data they had when they were
    posted, the ones the backend took for that rank followed by the ones parked
    for it; the per-rank counters are exact, the empty flag is right and the
    blocks that are live are the private buffers of parked operations. *)
Theorem backlog_preserves_order nranks cs s :
  reachable nranks cs s ->
  (forall r, to_rank r cs
     = to_rank r ((logged <$> ns_accepted s) ++ (view (ns_mem s) <$> bq_queue (ns_bq s))))
  /\ (forall r, 0 <= r < Z.of_nat nranks ->
       bq_is_empty r s = Ok (bool_decide (filter (fun o => no_rank o = r) (bq_queue (ns_bq s)) = []), s))
  /\ bq_empty (ns_bq s) = bool_decide (bq_queue (ns_bq s) = [])
  /\ (forall a, is_Some (ns_blocks s !! a) -> a ∈ owned (bq_queue (ns_bq s))).
Proof.
  intros H. apply reachable_run_inv in H as [I Hl Hn Ho]. split_and!; [done| |apply I|done].
  intros r Hr. unfold bq_is_empty. rewrite (proj2 (Z.leb_le _ _)) by lia.
  rewrite nentries_lookup by (unfold valid_rank; auto with lia).
  f_equal. f_equal. unfold count. destruct (filter _ _); simpl; [done|lia].
Qed.

(** What a backend answers when it does not ask to retry: a short operation is
    done, any other is posted. *)
Definition backend_codes : Prop :=
  forall op h m b, let e := (post_impl op h m b).1 in
    is_retry e = false -> (if is_short (no_op op) then is_done e else is_posted e) = true.

(** C35: in a run, a post that may not be retried, and that is not a put with immediate data
    on a backend without support for it, always returns, says done for
    a short operation and posted for any other, and the operation is from then on
    committed: taken by the backend or the newest parked one. *)
Theorem post_commits nranks cs s op :
  backend_codes -> reachable nranks cs s -> postable s op ->
  exists e s', post_op post_impl support_putimm op false false s = Ok (e, s')
    /\ (if is_short (no_op op) then is_done e else is_posted e) = true
    /\ reachable nranks (cs ++ [view (ns_mem s) (canon op)]) s'
    /\ ((ns_accepted s' = ns_accepted s ++ [(canon op, short_data (canon op) (ns_mem s))]
         /\ bq_queue (ns_bq s') = bq_queue (ns_bq s))
        \/ (ns_accepted s' = ns_accepted s
            /\ view (ns_mem s') <$> bq_queue (ns_bq s')
               = (view (ns_mem s) <$> bq_queue (ns_bq s)) ++ [view (ns_mem s) (canon op)])).
Proof.
  intros Hbc Hre Hp. pose proof (reachable_run_inv _ _ _ Hre) as [I _ _ _].
  destruct (post_op_spec s op false I Hp) as (e & s' & Heq & _ & _ & Hout).
  assert (Hst : is_retry e = false -> reachable nranks (cs ++ [view (ns_mem s) (canon op)]) s').
  { intros He. destruct Hre as (s0 & H0 & Hr). exists s0. split; [done|].
    eapply rtc_r; [exact Hr|]. pose proof (step_post cs s op false e s' Hp Heq) as H.
    by rewrite He in H. }
  exists e, s'. split; [done|].
  destruct Hout as [e s' _ [=]|h s' e He Hc Hm Hbl Hbq Ha|s' _ Hk].
  - split; [|split; [by apply Hst|left; by rewrite Hbq]].
    rewrite <- (proj1 (canon_fields op)). by apply Hbc.
  - split; [by destruct (no_op op)|].
    split; [apply Hst, backlog_code_not_retry|right; split; apply Hk].
Qed.

(** [n] calls of [progress] that get the lock. *)
Fixpoint progress_n (n : nat) : ST (nstate B) unit :=
  match n with
  | O => mret tt
  | S n => bq_progress post_impl support_putimm true ;; progress_n n
  end.

(** A backend in a [ready] state accepts, and stays ready. *)
Definition accepts (ready : B -> Prop) : Prop :=
  forall op h m b, ready b ->
    is_retry (post_impl op h m b).1 = false /\ ready (post_impl op h m b).2.

Lemma progress_n_drains ready nranks cs n : forall s,
  accepts ready -> ready (ns_net s) ->
  run_inv nranks cs s -> length (bq_queue (ns_bq s)) = n ->
  exists s', progress_n n s = Ok (tt, s') /\ run_inv nranks cs s' /\ bq_queue (ns_bq s') = [].
Proof.
  induction n as [|n IH]; intros s Hacc Hrd Hrun Hn.
  - exists s. split_and!; try done. by apply nil_length_inv.
  - destruct (bq_progress_spec s true (run_bq _ _ _ Hrun)) as (b & s1 & Heq & _ & _ & Hout & Hb).
    cbn [progress_n]. rewrite (st_bind_eq _ _ _ _ _ Heq).
    destruct b.
    + inversion Hout as [|o q s2 Hq Hq' _ Hnet]; subst.
      apply IH; [done| |by eapply progress_run_inv|].
      * rewrite Hnet. by apply Hacc.
      * rewrite Hq in Hn. simpl in Hn. congruence.
    + destruct (Hb eq_refl eq_refl) as [Hq|[o Ho]].
      * by rewrite Hq in Hn.
      * by rewrite (proj1 (Hacc o true (ns_mem s) _ Hrd)) in Ho.
Qed.

(** C37: in a run in which puts with immediate data are only posted if the backend supports
    them, from any point at which the backend starts to accept, as many calls of [progress] as there are
    parked operations empty the backlog queue: every operation committed in the
    run has reached the backend, in order, and every private buffer is freed. *)
Theorem backlog_drains ready nranks cs s :
  accepts ready -> ready (ns_net s) ->
  reachable nranks cs s ->
  exists s', progress_n (length (bq_queue (ns_bq s))) s = Ok (tt, s')
    /\ bq_queue (ns_bq s') = [] /\ bq_empty (ns_bq s') = true /\ ns_blocks s' = ∅
    /\ (forall r, to_rank r cs = to_rank r (logged <$> ns_accepted s')).
Proof.
  intros Hacc Hrd Hre. apply reachable_run_inv in Hre.
  destruct (progress_n_drains ready _ _ _ s Hacc Hrd Hre eq_refl) as (s' & Heq & [I Hl _ Ho] & Hq).
  exists s'. split_and!; [done|done| | |].
  - by rewrite (inv_empty _ I), Hq.
  - apply map_empty. intros a. destruct (ns_blocks s' !! a) eqn:E; [|done].
    specialize (Hl a (mk_is_Some _ _ E)). rewrite Hq in Hl. by apply elem_of_nil in Hl.
  - intros r. by rewrite Ho, Hq, app_nil_r.
Qed.

(** Without write-with-immediate in the backend, progressing a parked
    [putImms] posts the write and then asks [post_sends], without force, for the
    notification; the entry itself still counts, so [post_sends] parks the
    notification and waits for the lock its own thread holds. *)
Theorem fallback_progress_deadlocks s o q n e b :
  support_putimm = false -> bq_empty (ns_bq s) = false ->
  bq_queue (ns_bq s) = o :: q -> no_op o = bo_putImms -> 0 <= no_rank o ->
  bq_nentries (ns_bq s) !! Z.to_nat (no_rank o) = Some n -> 0 < n ->
  post_impl (mk_op bo_puts (no_rank o) (no_buffer o) (no_size o) 0 (no_offset o) (no_rmr o) 0
               (no_user_context o)) true (ns_mem s) (ns_net s) = (e, b) ->
  is_done e = true ->
  bq_progress post_impl support_putimm true s = Err (Deadlock "backlog queue lock").
Proof.
  intros -> He Hq Ho Hr Hn Hpos Hi Hd.
  assert (Hre : is_retry e = false) by (by destruct e).
  unfold bq_progress. rewrite (st_bind_eq _ _ s (ns_bq s) s) by done. rewrite He, Hq. cbn [negb].
  unfold mbind at 1, st_bind at 1, set_lock, modify. rewrite Hq.
  unfold mbind at 1, st_bind at 1, post_op. rewrite Ho.
  unfold post_putImms, post_or_park. cbn [negb orb].
  unfold post_putImms_fallback, call_impl, mbind, st_bind. cbn [ns_mem ns_net set_bq].
  rewrite Hi, Hre. cbn [negb]. unfold assert_st, lift, LCI_Assert. rewrite Hd.
  unfold post_sends, post_or_park, mbind, st_bind, bq_is_empty. cbn.
  rewrite (proj2 (Z.leb_le _ _)) by done. rewrite Hn. rewrite (proj2 (Z.eqb_neq n 0)) by lia. cbn.
  unfold push_sends, push_entry, add_nentries, mbind, st_bind. cbn.
  rewrite (proj2 (Z.leb_le _ _)) by done. by rewrite Hn.
Qed.
End Backlog.

(** ** Witnesses *)

(** A backend that asks to retry as often as its state says. *)
Definition busy_impl (op : net_op_t) (_ : bool) (_ : memory) (b : nat) : errorcode_t * nat :=
  match b with
  | S b => (ec_retry_nomem, b)
  | O => (if is_short (no_op op) then ec_done else ec_posted, O)
  end.
Definition fresh_state (b : nat) : nstate nat :=
  mk_nstate (fun a => a mod 256) 4096 ∅ ∅ (backlog_queue_new 2) b [].
Definition send_to (rank : Z) (imm : Z) : net_op_t :=
  mk_op bo_sends rank 16 4 0 0 RMR_NULL imm 0.
Definition retry_once : nat := 1.

Lemma fresh_reachable {impl : net_op_t -> bool -> memory -> nat -> errorcode_t * nat} sup b :
  reachable impl sup 2 [] (fresh_state b).
Proof. exists (fresh_state b). split; [repeat split; done|apply rtc_refl]. Qed.

(** One send is parked because the backend is busy, the next one behind it. *)
Definition parked_state : nstate nat :=
  match post_op busy_impl true (send_to 1 7) false false (fresh_state retry_once) with
  | Ok (_, s) => s
  | Err _ => fresh_state retry_once
  end.

Lemma send_postable s imm :
  length (bq_nentries (ns_bq s)) = 2%nat -> (length (bq_queue (ns_bq s)) <= 5)%nat ->
  postable (B := nat) true s (send_to 1 imm).
Proof. intros H1 H2. unfold postable, valid_rank. rewrite H1. simpl. split; [done|]. lia. Qed.

Lemma parked_reachable :
  reachable busy_impl true 2 [view (fun a => a mod 256) (send_to 1 7)] parked_state.
Proof.
  destruct (fresh_reachable (impl := busy_impl) true retry_once) as (s0 & H0 & Hr).
  exists s0. split; [done|]. eapply rtc_r; [exact Hr|].
  eapply (step_post busy_impl true [] (fresh_state retry_once) (send_to 1 7) false ec_done_backlog);
    [apply send_postable; [done|simpl; lia]|reflexivity].
Qed.

Lemma backlog_preserves_order_witness :
  to_rank 1 [view (fun a => a mod 256) (send_to 1 7)]
  = to_rank 1 ((logged <$> ns_accepted parked_state)
               ++ (view (ns_mem parked_state) <$> bq_queue (ns_bq parked_state)))
  /\ length (bq_queue (ns_bq parked_state)) = 1%nat.
Proof.
  split; [|vm_compute; reflexivity].
  apply (backlog_preserves_order busy_impl true 2 _ parked_state parked_reachable).
Defined.

Lemma busy_codes : backend_codes busy_impl.
Proof. intros [[] ????????] h m [|b]; simpl; done. Qed.

Lemma post_commits_witness :
  exists e s', post_op busy_impl true (send_to 1 8) false false parked_state = Ok (e, s')
    /\ is_done e = true.
Proof.
  destruct (post_commits busy_impl true 2 _ parked_state (send_to 1 8) busy_codes
              parked_reachable (send_postable parked_state 8 eq_refl ltac:(vm_compute; lia)))
    as (e & s' & H1 & H2 & _).
  exists e, s'. split; [exact H1|exact H2].
Defined.

Lemma backlog_drains_witness :
  exists s', progress_n busy_impl true 1 parked_state = Ok (tt, s')
    /\ bq_queue (ns_bq s') = [] /\ ns_blocks s' = ∅.
Proof.
  destruct (backlog_drains busy_impl true (fun b => b = O) 2 _ parked_state
              ltac:(intros [[] ????????] h m b ->; split; reflexivity) eq_refl parked_reachable)
    as (s' & H1 & H2 & _ & H3 & _).
  exists s'. split; [exact H1|]. split; [exact H2|exact H3].
Defined.

Lemma fallback_progress_deadlocks_witness :
  exists s, post_op busy_impl false (mk_op bo_putImms 1 16 4 0 0 RMR_NULL 5 0) false false
              (fresh_state retry_once) = Ok (ec_done_backlog, s)
    /\ bq_progress busy_impl false true s = Err (Deadlock "backlog queue lock").
Proof.
  eexists. split; [vm_compute; reflexivity|].
  eapply (fallback_progress_deadlocks busy_impl false);
    [reflexivity..|simpl; lia|reflexivity|lia|reflexivity|reflexivity].
Defined.
