(* ===== verification/Frames.v ===== *)
(** * What code leaves alone

    [keeps R m]: whenever [m] returns, the states before and after are related by
    [R]. With this, the frame of the endpoint operations: they touch no context,
    give out addresses in increasing order and never change the number of ranks. *)
From stdpp Require Import base numbers list gmap strings.
From Stdlib Require Import ZArith Lia.
From S2P Require Import Prelude Status Memory Net Endpoint Backlog.

Definition keeps {S A} (R : relation S) (m : ST S A) : Prop :=
  forall s a s', m s = Ok (a, s') -> R s s'.

Section Rules.
Context {S : Type} (R : relation S) `{!PreOrder R}.

Lemma keeps_ret {A} (a : A) : keeps R (mret a).
Proof. intros s x s' [= _ <-]. reflexivity. Qed.
Lemma keeps_bind {A B} (m : ST S A) (k : A -> ST S B) :
  keeps R m -> (forall a, keeps R (k a)) -> keeps R (m ≫= k).
Proof.
  intros Hm Hk s b s' (a & s1 & H1 & H2)%st_bind_Ok. transitivity s1; [by eapply Hm|by eapply Hk].
Qed.
Lemma keeps_if {A} (b : bool) (m m' : ST S A) :
  keeps R m -> keeps R m' -> keeps R (if b then m else m').
Proof. by destruct b. Qed.
Lemma keeps_modify f : (forall s, R s (f s)) -> keeps R (modify f).
Proof. intros H s a s' [= _ <-]. apply H. Qed.
Lemma keeps_gets {A} (f : S -> A) : keeps R (gets f).
Proof. intros s a s' [= _ <-]. reflexivity. Qed.
Lemma keeps_lift {A} (r : result A) : keeps R (lift r).
Proof. intros s a s'. unfold lift. destruct r; [|done]. intros [= _ <-]. reflexivity. Qed.
Lemma keeps_fail {A} f : keeps R (fail_with (A := A) f).
Proof. intros s a s' H. discriminate. Qed.
End Rules.

Create HintDb keeps discriminated.
#[export] Hint Resolve keeps_ret keeps_bind keeps_if keeps_modify keeps_gets keeps_lift keeps_fail
  : keeps.

Section EndpointFrame.
Context {B : Type}.
Variable post_impl : net_op_t -> bool -> memory -> B -> errorcode_t * B.
Variable support_putimm : bool.

(** The frame of posting without a fallback. *)
Definition posts_only (s s' : nstate B) : Prop :=
  ns_ctxs s' = ns_ctxs s /\ ns_brk s <= ns_brk s'
  /\ length (bq_nentries (ns_bq s')) = length (bq_nentries (ns_bq s))
  /\ (forall b n, ns_blocks s' !! b = Some n -> ns_blocks s !! b = Some n \/ ns_brk s <= b)
  /\ (forall b, is_Some (ns_blocks s !! b) -> is_Some (ns_blocks s' !! b)).
#[global] Instance posts_only_preorder : PreOrder posts_only.
Proof.
  split; [intros s; split_and!; auto; lia|].
  intros s1 s2 s3 (E1&E2&E3&H1&K1) (F1&F2&F3&H2&K2). split_and!; [congruence|lia|congruence| |auto].
  intros b n [H|H]%H2; [by apply H1|right; lia].
Qed.

Lemma call_impl_frame op h : keeps posts_only (call_impl post_impl op h).
Proof.
  intros s a s'. unfold call_impl. destruct (post_impl _ _ _ _). intros [= _ <-]. split_and!; auto. simpl. lia.
Qed.
Lemma bq_is_empty_frame r : keeps posts_only (bq_is_empty (B := B) r).
Proof.
  intros s a s'. unfold bq_is_empty. destruct (if 0 <=? r then _ else _); [|done].
  intros [= _ <-]. reflexivity.
Qed.
Lemma push_entry_frame op : keeps posts_only (push_entry (B := B) op).
Proof.
  apply keeps_bind; [apply _| |intros []]; intros s a s'.
  - unfold add_nentries. destruct (if 0 <=? no_rank op then _ else _); [|done].
    intros [= _ <-]. split_and!; simpl; auto; [lia|]. by rewrite length_insert.
  - unfold append_entry. destruct (bq_locked _); [done|]. intros [= _ <-]. split_and!; auto. simpl. lia.
Qed.
Lemma copy_buffer_frame b n : keeps posts_only (copy_buffer (B := B) b n).
Proof.
  apply keeps_bind; [apply _| |intros c].
  - intros s a s' [= _ <-]. split_and!; simpl; try done; [lia| |].
    + intros x k. rewrite lookup_insert_Some. intros [[<- _]|[_ H]]; [right; lia|by left].
    + intros x Hx. rewrite lookup_insert. destruct (decide _); eauto.
  - apply keeps_bind; [apply _| |intros ?; apply keeps_ret; apply _].
    apply keeps_modify. intros s. split_and!; simpl; auto. lia.
Qed.

Lemma push_op_frame op : keeps posts_only (push_op (B := B) op).
Proof.
  destruct op as [[] ????????]; simpl; unfold push_sends, push_puts, push_putImms;
    try apply push_entry_frame; (apply keeps_bind; [apply _| |intros; apply push_entry_frame]);
    try apply copy_buffer_frame.
  apply keeps_if; [apply copy_buffer_frame|apply keeps_ret; apply _].
Qed.

Lemma post_or_park_frame r impl push code ar fp :
  (forall h, keeps posts_only (impl h)) -> keeps posts_only push ->
  keeps posts_only (post_or_park (B := B) r impl push code ar fp).
Proof.
  intros Hi Hp. unfold post_or_park. apply keeps_bind; [apply _| |intros e].
  - apply keeps_if; [done|]. apply keeps_bind; [apply _|apply bq_is_empty_frame|intros b].
    apply keeps_if; [apply keeps_ret; apply _|done].
  - apply keeps_if; [apply keeps_if|]; try (apply keeps_ret; apply _).
    apply keeps_bind; [apply _|done|intros; apply keeps_ret; apply _].
Qed.

Lemma post_op_frame op ar fp :
  support_putimm || negb (is_imm (no_op op)) = true ->
  keeps posts_only (post_op post_impl support_putimm op ar fp).
Proof.
  intros H. rewrite post_op_eq by done.
  apply post_or_park_frame; [intros; apply call_impl_frame|apply push_op_frame].
Qed.
End EndpointFrame.
