(* ===== verification/Requests.v ===== *)
(** * The requests of an endpoint

    Everything an endpoint has committed to, whether the backend took it or it is
    parked, and what a post adds. *)
From stdpp Require Import base numbers list gmap strings.
From Stdlib Require Import ZArith Lia.
From S2P Require Import Prelude Status Memory Net Endpoint Backlog Frames.

Section Requests.
Context {B : Type}.
Variable post_impl : net_op_t -> bool -> memory -> B -> errorcode_t * B.
Variable support_putimm : bool.
Implicit Types s : nstate B.

(** Oldest first for each rank. *)
Definition requests s : list request :=
  (logged <$> ns_accepted s) ++ (view (ns_mem s) <$> bq_queue (ns_bq s)).

(** The requests [qs] were added, and besides them only fresh memory changed. *)
Record committed s (qs : list request) s' : Prop := mk_committed {
  cm_requests : forall r, to_rank r (requests s') = to_rank r (requests s) ++ to_rank r qs;
  cm_inv : bq_inv support_putimm s';
  cm_mem : forall x, x < ns_brk s -> ns_mem s' x = ns_mem s x;
  cm_frame : posts_only s s';
  cm_owned : forall a, a ∈ owned (bq_queue (ns_bq s')) ->
    a ∈ owned (bq_queue (ns_bq s)) \/ ns_brk s <= a;
  cm_queue : (length (bq_queue (ns_bq s')) <= length (bq_queue (ns_bq s)) + length qs)%nat
}.

Lemma committed_nil s : bq_inv support_putimm s -> committed s [] s.
Proof. intros I. split; try done; [by intros r; rewrite app_nil_r|by left|lia]. Qed.
Lemma committed_app s1 s2 s3 qs qs' :
  committed s1 qs s2 -> committed s2 qs' s3 -> committed s1 (qs ++ qs') s3.
Proof.
  intros [H1 I1 M1 F1 O1 Q1] [H2 I2 M2 F2 O2 Q2]. pose proof F1 as (_ & F1b & _).
  split; [|done| |by etrans| |].
  - intros r. by rewrite H2, H1, to_rank_app, app_assoc.
  - intros x Hx. rewrite M2; [by apply M1|lia].
  - intros a [Ha|Ha]%O2; [by apply O1|right; lia].
  - rewrite length_app. lia.
Qed.

Lemma post_op_commits s op :
  bq_inv support_putimm s -> postable support_putimm s op -> backend_codes post_impl ->
  exists e s', post_op post_impl support_putimm op false false s = Ok (e, s')
    /\ (if is_short (no_op op) then is_done e else is_posted e) = true
    /\ committed s [view (ns_mem s) (canon op)] s'.
Proof.
  intros I Hp Hbc. destruct (post_op_spec post_impl support_putimm s op false I Hp)
    as (e & s' & Heq & I' & _ & Hout).
  pose proof (post_op_frame post_impl support_putimm op false false (proj1 Hp) _ _ _ Heq) as Hf.
  exists e, s'. split; [done|].
  destruct Hout as [e s' _ [=]|h s' e He Hc Hm Hbl Hbq Ha|s' _ Hk].
  - split; [rewrite <- (proj1 (canon_fields op)); by apply Hbc|].
    split; try done; [|by rewrite Hm|rewrite Hbq; by left|rewrite Hbq; simpl; lia]. intros r. unfold requests.
    rewrite Hm, Hbq, Ha, fmap_app. simpl. rewrite logged_view.
    rewrite !to_rank_app, <- !app_assoc. f_equal.
    destruct (decide (no_rank op = r)) as [<- | Hne].
    + rewrite to_rank_views by (by apply count_zero). by rewrite app_nil_r.
    + assert (to_rank r [view (ns_mem s) (canon op)] = []) as ->; [|by rewrite app_nil_r].
      unfold to_rank. rewrite filter_cons, view_rank.
      by rewrite (proj1 (proj2 (canon_fields op))), decide_False.
  - split; [by destruct (no_op op)|]. destruct Hk as (_ & _ & Hown & Ha & Hm & _ & Hl & Hv).
    split; try done; [|intros a [H|H]%Hown; [by left|right; lia]|simpl; lia]. intros r. unfold requests.
    by rewrite Hv, Ha, app_assoc, to_rank_app.
Qed.

(** ** Growing states

    The weaker relation that code around the posts keeps: memory outside of live
    blocks, contexts and addresses may change as well. *)
Record grows s (qs : list request) s' : Prop := mk_grows {
  gr_requests : forall r, to_rank r (requests s') = to_rank r (requests s) ++ to_rank r qs;
  gr_inv : bq_inv support_putimm s';
  gr_brk : ns_brk s <= ns_brk s';
  gr_ranks : length (bq_nentries (ns_bq s')) = length (bq_nentries (ns_bq s));
  gr_blocks : forall b n, ns_blocks s' !! b = Some n -> ns_blocks s !! b = Some n \/ ns_brk s <= b;
  gr_owned : forall a, a ∈ owned (bq_queue (ns_bq s')) ->
    a ∈ owned (bq_queue (ns_bq s)) \/ ns_brk s <= a;
  gr_queue : (length (bq_queue (ns_bq s')) <= length (bq_queue (ns_bq s)) + length qs)%nat
}.

Lemma committed_grows s qs s' : committed s qs s' -> grows s qs s'.
Proof. intros [H1 H2 H3 (_ & Hb & Hn & Hl & _) H5 H6]. by split. Qed.

Lemma grows_nil s : bq_inv support_putimm s -> grows s [] s.
Proof. intros I. by apply committed_grows, committed_nil. Qed.
Lemma grows_app s1 s2 s3 qs qs' : grows s1 qs s2 -> grows s2 qs' s3 -> grows s1 (qs ++ qs') s3.
Proof.
  intros [A1 A2 A3 A4 A5 A6 A7] [B1 B2 B3 B4 B5 B6 B7]. split; [|done|lia|congruence| | |].
  - intros r. by rewrite B1, A1, to_rank_app, app_assoc.
  - intros b n [H|H]%B5; [by apply A5|right; lia].
  - intros a [H|H]%B6; [by apply A6|right; lia].
  - rewrite length_app. lia.
Qed.
Lemma grows_quiet s1 s2 s3 qs : grows s1 [] s2 -> grows s2 qs s3 -> grows s1 qs s3.
Proof. apply grows_app. Qed.
Lemma grows_then_quiet s1 s2 s3 qs : grows s1 qs s2 -> grows s2 [] s3 -> grows s1 qs s3.
Proof. intros H1 H2. rewrite <- (app_nil_r qs). by eapply grows_app. Qed.

(** Memory that holds the data of parked operations. *)
Definition agree_on_owned s (m : memory) : Prop :=
  forall a n x, a ∈ owned (bq_queue (ns_bq s)) -> ns_blocks s !! a = Some n -> a <= x < a + n ->
    m x = ns_mem s x.

Lemma views_agree_owned s m :
  bq_inv support_putimm s -> agree_on_owned s m ->
  view m <$> bq_queue (ns_bq s) = view (ns_mem s) <$> bq_queue (ns_bq s).
Proof.
  intros I Hm. apply list_fmap_ext. intros i o Ho. apply list_elem_of_lookup_2 in Ho.
  unfold view. destruct (is_short (no_op o)) eqn:Hs; [|done]. f_equal.
  pose proof (inv_owns _ _ I) as H. rewrite Forall_forall in H.
  destruct (H o Ho Hs) as [[_ Hz]|Hb]; [by rewrite Hz|].
  apply load_bytes_ext. intros x Hx. eapply Hm; [|exact Hb|done]. unfold owned.
  apply list_elem_of_filter. apply (inv_blocks _ _ I) in Hb. split; [lia|].
  apply list_elem_of_fmap_2. by apply list_elem_of_filter.
Qed.

(** Steps that leave queue, blocks and log alone. *)
Lemma grows_same s s' :
  bq_inv support_putimm s -> agree_on_owned s (ns_mem s') -> ns_brk s <= ns_brk s' ->
  ns_blocks s' = ns_blocks s -> ns_bq s' = ns_bq s -> ns_accepted s' = ns_accepted s ->
  grows s [] s'.
Proof.
  intros I Hm Hb Hbl Hbq Ha. pose proof (inv_brk _ _ I) as Hb0. split.
  - intros r. rewrite app_nil_r. unfold requests. rewrite Hbq, Ha. f_equal. f_equal.
    by apply views_agree_owned.
  - constructor; rewrite ?Hbq, ?Hbl; try apply I; [lia|].
    intros a n H. apply (inv_blocks _ _ I) in H. lia.
  - done.
  - by rewrite Hbq.
  - rewrite Hbl. by left.
  - rewrite Hbq. by left.
  - rewrite Hbq. lia.
Qed.

Lemma grows_malloc s n :
  bq_inv support_putimm s -> 0 <= n ->
  grows s [] (mk_nstate (ns_mem s) (ns_brk s + Z.max 1 n) (<[ns_brk s := n]> (ns_blocks s))
                (ns_ctxs s) (ns_bq s) (ns_net s) (ns_accepted s)).
Proof.
  intros I Hn. pose proof (inv_brk _ _ I) as Hb0. split; simpl; try done; try lia.
  - intros r. by rewrite app_nil_r.
  - constructor; simpl; try apply I; [lia| |].
    + intros a k. rewrite lookup_insert_Some. intros [[<- <-]|[_ H]]; [lia|].
      apply (inv_blocks _ _ I) in H. lia.
    + eapply Forall_impl; [apply (inv_owns _ _ I)|]. intros o Ho Hs.
      destruct (Ho Hs) as [?|Hl]; [by left|right]. rewrite lookup_insert_ne; [done|].
      apply (inv_blocks _ _ I) in Hl. lia.
  - intros b k. rewrite lookup_insert_Some. intros [[<- _]|[_ H]]; [right; lia|by left].
  - by left.
Qed.

(** Freeing a block that belongs to no parked operation. *)
Lemma grows_free s a :
  bq_inv support_putimm s -> a ∉ owned (bq_queue (ns_bq s)) ->
  grows s [] (mk_nstate (ns_mem s) (ns_brk s) (delete a (ns_blocks s)) (ns_ctxs s) (ns_bq s)
                (ns_net s) (ns_accepted s)).
Proof.
  intros I Ha. split; simpl; try done; try lia.
  - intros r. by rewrite app_nil_r.
  - constructor; simpl; try apply I.
    + intros b n. rewrite lookup_delete_Some. intros [_ H]. by apply (inv_blocks _ _ I) in H.
    + apply Forall_forall. intros o Ho Hs. pose proof (inv_owns _ _ I) as Hall.
      rewrite Forall_forall in Hall. destruct (Hall o Ho Hs) as [?|Hl]; [by left|right].
      rewrite lookup_delete_ne; [done|]. intros ->. apply Ha. unfold owned.
      apply list_elem_of_filter. apply (inv_blocks _ _ I) in Hl. split; [lia|].
      apply list_elem_of_fmap_2. by apply list_elem_of_filter.
  - intros b n. rewrite lookup_delete_Some. intros [_ H]. by left.
  - by left.
Qed.

(** A state that only gave out addresses. *)
Lemma bq_inv_brk s s' :
  bq_inv support_putimm s -> ns_brk s <= ns_brk s' -> ns_blocks s' = ns_blocks s ->
  ns_bq s' = ns_bq s -> bq_inv support_putimm s'.
Proof.
  intros I Hb Hbl Hbq. pose proof (inv_brk _ _ I) as Hb0.
  constructor; rewrite ?Hbq, ?Hbl; try apply I; [lia|].
  intros a n Ha. apply (inv_blocks _ _ I) in Ha. lia.
Qed.

Lemma is_empty_ok s r : bq_inv support_putimm s -> valid_rank s r ->
  exists b, bq_is_empty r s = Ok (b, s).
Proof.
  intros I Hr. unfold bq_is_empty. rewrite (proj2 (Z.leb_le _ _)) by apply Hr.
  rewrite (nentries_lookup _ _ _ I Hr). eauto.
Qed.
End Requests.

(** The bytes of a committed request as the network reads them. *)
Definition wire (m : memory) (q : request) : list Z :=
  if is_short (no_op q.1) then q.2 else load_bytes m (no_buffer q.1) (no_size q.1).
