(* ===== verification/Process.v ===== *)
(** * A process: state shared by the protocol layers

    The state that rendezvous.hpp, progress.cpp and communicate.cpp (src/src/core)
    act on: one runtime with one device, one endpoint and its packet pool, the
    registry of remote handlers, matching engines, completion objects, memory
    registrations and the archive of rendezvous contexts; and the operations on
    it that all three use. Matching engines are known through [MatchingEngine]
    only. The build modelled is the default one: without CUDA or HIP, without the
    experimental shared-memory transport, without the registration cache. *)
From stdpp Require Import base numbers list gmap strings.
From Stdlib Require Import ZArith Lia.
From S2P Require Import Prelude Bits Status MpmcArray RhandlerRegistry MatchSpec ImmTagArchive.
From S2P Require Import MpmcSet PacketPool Comp Memory Net.

(** ** Data *)

(** The attributes the protocols read. *)
Record config : Type := mk_config {
  cf_max_imm_tag : Z;
  cf_max_imm_rcomp : Z;
  cf_imm_nbits_tag : Z;
  cf_imm_nbits_rcomp : Z;
  cf_packet_return_threshold : Z;
  cf_writeimm : bool;
  cf_max_inject_size : Z;
  cf_max_msg_size : Z;
  cf_net_max_recvs : Z;
  cf_max_polls : nat;
  cf_device_uid : nat;
  cf_sizeof_lctx : Z;
  cf_pool : Z;
  cf_garbage : packet_local_context_t
}.

(** A memory registration: the range the user asked for. *)
Record mr_impl_t : Type := mk_mr { mr_address : Z; mr_size : Z; mr_base : Z }.

(** Completion objects; a user's handler is known by what it is called with. *)
Inductive comp_impl_t : Type :=
  | comp_sync (zero_copy_am : bool) (s : Sync.sync_t)
  | comp_counter (count : Z)
  | comp_cq (zero_copy_am : bool) (q : list status_t)
  | comp_handler (zero_copy_am : bool).

Definition zero_copy_am (c : comp_impl_t) : bool :=
  match c with
  | comp_sync b _ | comp_cq b _ | comp_handler b => b
  | comp_counter _ => false
  end.

(** An unbounded queue is a FIFO queue. *)
#[export] Program Instance list_fifo : FifoQueue (list status_t) := {
  fq_push s q := q ++ [s];
  fq_pop q := match q with [] => (None, []) | s :: q => (Some s, q) end;
  fq_room _ := True;
  fq_list q := q
}.
Next Obligation. done. Qed.
Next Obligation. by intros [|s q]. Qed.

(** [signal], by kind of object. *)
Definition comp_signal (st : status_t) (c : comp_impl_t) : result comp_impl_t :=
  match c with
  | comp_sync b s => s ← Sync.signal st s ; Ok (comp_sync b s)
  | comp_counter n => Ok (comp_counter (Counter.signal n st))
  | comp_cq b q => q ← Cq.signal st q ; Ok (comp_cq b q)
  | comp_handler b => Ok (comp_handler b)
  end.

Record proc (B E : Type) : Type := mk_proc {
  p_net : nstate B;
  p_pool : packet_pool_impl_t;
  p_registry : rhandler_registry_t;
  p_engines : gmap Z E;
  p_archive : imm_tag_archive_t;
  p_comps : gmap Z comp_impl_t;
  p_mrs : gmap Z mr_impl_t;
  p_pending : Z;
  p_nrecvs : Z;
  p_failed : bool;
  p_clock : nat;
  p_signals : list (Z * status_t)
}.
Arguments mk_proc {B E}.
Arguments p_net {B E}.
Arguments p_pool {B E}.
Arguments p_registry {B E}.
Arguments p_engines {B E}.
Arguments p_archive {B E}.
Arguments p_comps {B E}.
Arguments p_mrs {B E}.
Arguments p_pending {B E}.
Arguments p_nrecvs {B E}.
Arguments p_failed {B E}.
Arguments p_clock {B E}.
Arguments p_signals {B E}.

Section Process.
Context {B E : Type} `{!MatchingEngine E}.
Variable cf : config.
(** What the pool's random choices and try-locks yield at each use, and the
    calling thread. *)
Variable envs : nat -> steal_env.
Variable tid : nat.
(** [get_rkey] of the backend. *)
Variable get_rkey : Z -> Z.

Implicit Types p : proc B E.
#[local] Abbreviation P := (ST (proc B E)).

Definition set_net (n : nstate B) p : proc B E :=
  mk_proc n (p_pool p) (p_registry p) (p_engines p) (p_archive p) (p_comps p) (p_mrs p)
    (p_pending p) (p_nrecvs p) (p_failed p) (p_clock p) (p_signals p).
Definition set_pool (q : packet_pool_impl_t) p : proc B E :=
  mk_proc (p_net p) q (p_registry p) (p_engines p) (p_archive p) (p_comps p) (p_mrs p)
    (p_pending p) (p_nrecvs p) (p_failed p) (p_clock p) (p_signals p).
Definition set_engines (e : gmap Z E) p : proc B E :=
  mk_proc (p_net p) (p_pool p) (p_registry p) e (p_archive p) (p_comps p) (p_mrs p)
    (p_pending p) (p_nrecvs p) (p_failed p) (p_clock p) (p_signals p).
Definition set_archive (a : imm_tag_archive_t) p : proc B E :=
  mk_proc (p_net p) (p_pool p) (p_registry p) (p_engines p) a (p_comps p) (p_mrs p)
    (p_pending p) (p_nrecvs p) (p_failed p) (p_clock p) (p_signals p).
Definition set_mrs (m : gmap Z mr_impl_t) p : proc B E :=
  mk_proc (p_net p) (p_pool p) (p_registry p) (p_engines p) (p_archive p) (p_comps p) m
    (p_pending p) (p_nrecvs p) (p_failed p) (p_clock p) (p_signals p).
Definition set_pending (n : Z) p : proc B E :=
  mk_proc (p_net p) (p_pool p) (p_registry p) (p_engines p) (p_archive p) (p_comps p) (p_mrs p)
    n (p_nrecvs p) (p_failed p) (p_clock p) (p_signals p).
Definition set_nrecvs (n : Z) p : proc B E :=
  mk_proc (p_net p) (p_pool p) (p_registry p) (p_engines p) (p_archive p) (p_comps p) (p_mrs p)
    (p_pending p) n (p_failed p) (p_clock p) (p_signals p).
Definition mark_network_failed p : proc B E :=
  mk_proc (p_net p) (p_pool p) (p_registry p) (p_engines p) (p_archive p) (p_comps p) (p_mrs p)
    (p_pending p) (p_nrecvs p) true (p_clock p) (p_signals p).
Definition tick p : proc B E :=
  mk_proc (p_net p) (p_pool p) (p_registry p) (p_engines p) (p_archive p) (p_comps p) (p_mrs p)
    (p_pending p) (p_nrecvs p) (p_failed p) (S (p_clock p)) (p_signals p).
Definition set_comps (c : gmap Z comp_impl_t) (log : list (Z * status_t)) p : proc B E :=
  mk_proc (p_net p) (p_pool p) (p_registry p) (p_engines p) (p_archive p) c (p_mrs p)
    (p_pending p) (p_nrecvs p) (p_failed p) (p_clock p) log.

(** Running code of the network layer. *)
Definition in_net {A} (m : ST (nstate B) A) : P A := fun p =>
  match m (p_net p) with Ok (a, n) => Ok (a, set_net n p) | Err f => Err f end.

(** ** Memory *)

Definition read_mem : P memory := gets (fun p => ns_mem (p_net p)).
Definition write_mem (f : memory -> memory) : P unit :=
  in_net (modify (fun n => set_mem (f (ns_mem n)) n)).

(** ** Packets *)

Definition payload (packet : Z) : Z := get_payload_address (cf_sizeof_lctx cf) packet.
Definition lctx (packet : Z) : P packet_local_context_t :=
  gets (fun p => header (cf_garbage cf) (p_pool p) packet).
Definition set_lctx (packet : Z) (c : packet_local_context_t) : P unit :=
  modify (fun p => set_pool (with_pool (pool (p_pool p))
                                       (<[packet := c]> (headers (p_pool p))) (p_pool p)) p).

(** Running code of the packet pool. *)
Definition in_pool {A} (f : packet_pool_impl_t -> result (A * packet_pool_impl_t)) : P A := fun p =>
  match f (p_pool p) with Ok (a, q) => Ok (a, set_pool q p) | Err f => Err f end.

(** [packet_pool->get(blocking)] and [get_n(n)]. *)
Definition get_packet (blocking : bool) : P Z :=
  t ← gets p_clock ;
  modify tick ;;
  in_pool (pool_get (cf_pool cf) (cf_garbage cf) (envs t) tid blocking).
Definition get_packets (n : nat) : P (list Z) :=
  t ← gets p_clock ;
  modify tick ;;
  in_pool (pool_get_n (cf_pool cf) (cf_garbage cf) (envs t) tid n false).

(** [put_back]: a packet goes back to the pool its header names. *)
Definition put_back (packet : Z) : P unit :=
  c ← lctx packet ;
  if lc_pool c =? cf_pool cf then
    in_pool (fun q => q ← pool_put (cf_sizeof_lctx cf) (cf_garbage cf) tid packet q ; Ok (tt, q))
  else fail_with (Undefined "packet of another pool").

(** ** Memory registrations *)

(** [register_memory] of a device without a registration cache: the backend
    returns a new object. *)
Definition register_memory (address size : Z) : P Z :=
  a ← in_net (malloc 1) ;
  modify (fun p => set_mrs (<[a := mk_mr address size address]> (p_mrs p)) p) ;;
  mret a.
Definition deregister_memory (mr : Z) : P unit := fun p =>
  match p_mrs p !! mr with
  | Some _ =>
      match free mr (p_net p) with
      | Ok (_, n) => Ok (tt, set_mrs (delete mr (p_mrs p)) (set_net n p))
      | Err f => Err f
      end
  | None => Err (Undefined "deregister of a region that is not registered")
  end.
Definition get_rmr (mr : Z) : P rmr_t := fun p =>
  match p_mrs p !! mr with
  | Some m => Ok (mk_rmr (mr_address m) (mr_base m) (get_rkey mr), p)
  | None => Err (Undefined "access to a region that is not registered")
  end.

Definition with_mrs (m : mpmc_array_t Z) (q : packet_pool_impl_t) : packet_pool_impl_t :=
  mk_pool (attr q) (pool q) (heap q) (base_packet_p q) (heap_size q) m (npacket_lost q) (headers q).

Definition register_packets : P Z :=
  q ← gets p_pool ;
  if negb (heap q =? 0) then
    mr ← register_memory (heap q) (heap_size q) ;
    m ← lift (put 0 (cf_device_uid cf) mr (mrs q)) ;
    modify (fun p => set_pool (with_mrs m (p_pool p)) p) ;;
    mret mr
  else mret 0.
Definition deregister_packets : P unit :=
  q ← gets p_pool ;
  let mr := get 0 (cf_device_uid cf) (mrs q) in
  if negb (mr =? 0) then
    deregister_memory mr ;;
    m ← lift (put 0 (cf_device_uid cf) 0 (mrs q)) ;
    modify (fun p => set_pool (with_mrs m (p_pool p)) p)
  else mret tt.
Definition get_or_register_mr : P Z :=
  q ← gets p_pool ;
  let mr := get 0 (cf_device_uid cf) (mrs q) in
  if mr =? 0 then register_packets else mret mr.

(** ** Contexts *)

Definition add_pending_ops (n : Z) : P unit :=
  modify (fun p => set_pending (Counter.i64 (p_pending p + n)) p).

Definition set_user_posted_op (c : internal_context_t) : internal_context_t :=
  mk_ictx (ic_mr_on_the_fly c) true (ic_rank c) (ic_comp c) (ic_tag c) (ic_buffer c)
          (ic_size c) (ic_user_context c) (ic_packet_to_free c) (ic_mr c).
Definition set_mr_on_the_fly (mr : Z) (c : internal_context_t) : internal_context_t :=
  mk_ictx true (ic_is_user_posted_op c) (ic_rank c) (ic_comp c) (ic_tag c) (ic_buffer c)
          (ic_size c) (ic_user_context c) (ic_packet_to_free c) mr.

Definition plain_ctx (a : Z) : P internal_context_t :=
  c ← in_net (read_ctx a) ;
  match c with
  | Plain c => mret c
  | Extended _ => fail_with (Undefined "extended context read as a plain one")
  end.

(** [delete ctx]: the destructor, then the memory. *)
Definition delete_ctx (a : Z) : P unit :=
  c ← plain_ctx a ;
  (if ic_mr_on_the_fly c then deregister_memory (ic_mr c) else mret tt) ;;
  (if negb (ic_packet_to_free c =? 0) then put_back (ic_packet_to_free c) else mret tt) ;;
  (if ic_is_user_posted_op c then add_pending_ops (-1) else mret tt) ;;
  in_net (drop_ctx a).

(** ** Completion *)

(** [comp.p_impl->signal(status)]. *)
Definition signal_comp (comp : Z) (st : status_t) : P unit := fun p =>
  match p_comps p !! comp with
  | Some c =>
      match comp_signal st c with
      | Ok c => Ok (tt, set_comps (<[comp := c]> (p_comps p)) (p_signals p ++ [(comp, st)]) p)
      | Err f => Err f
      end
  | None => Err (Undefined "signal of a completion object that does not exist")
  end.

Definition free_ctx_and_signal_comp (a : Z) : P unit :=
  c ← plain_ctx a ;
  if negb (comp_is_empty (ic_comp c)) then
    delete_ctx a ;; signal_comp (ic_comp c) (ctx_status c)
  else delete_ctx a.

(** ** Handlers and matching engines *)

Definition get_handler (rcomp : Z) : P rh_entry_t := fun p =>
  match registry_get rcomp (p_registry p) with Ok e => Ok (e, p) | Err f => Err f end.

Definition matching_insert (engine key value : Z) (t : matching_entry_type_t) : P Z := fun p =>
  match p_engines p !! engine with
  | Some e =>
      match engine_insert key value t e with
      | Ok (r, e) => Ok (r, set_engines (<[engine := e]> (p_engines p)) p)
      | Err f => Err f
      end
  | None => Err (Undefined "no matching engine at this address")
  end.
End Process.
