(* ===== verification/Rendezvous.v ===== *)
(** * Matched messages and the rendezvous protocol (src/src/core/rendezvous.hpp)

    A large message travels in four steps: the sender announces it (RTS), the
    receiver answers with where to write (RTR), the sender writes the data in
    pieces of at most [max_msg_size] bytes, and the receiver learns that all of it
    arrived, from a FIN message or from the immediate data of the last write. The
    RTS and RTR messages are structs in packet memory, written and read here at
    their byte offsets; the RTR overwrites the RTS it answers. *)
From stdpp Require Import base numbers list gmap strings.
From Stdlib Require Import ZArith Lia.
From S2P Require Import Prelude Bits Status MatchSpec RhandlerRegistry ImmTagArchive MpmcSet.
From S2P Require Import PacketPool Memory Net Endpoint Process.

(** [imm_data_msg_type_t] *)
Definition IMM_DATA_MSG_EAGER : Z := 0.
Definition IMM_DATA_MSG_RTS : Z := 1.
Definition IMM_DATA_MSG_RTR : Z := 2.
Definition IMM_DATA_MSG_FIN : Z := 3.

(** ** Messages *)

(** A [rcomp_t] of 4 bytes, 4 bytes of padding, then three words. *)
Record rts_msg_t : Type := mk_rts {
  rts_rcomp : Z; rts_send_ctx : Z; rts_tag : Z; rts_size : Z
}.
Definition sizeof_rts_msg_t : Z := 32.
Definition store_rts (a : Z) (r : rts_msg_t) (m : memory) : memory :=
  store_le 8 (a + 24) (rts_size r)
    (store_le 4 a (rts_rcomp r)
      (store_le 8 (a + 16) (rts_tag r) (store_le 8 (a + 8) (rts_send_ctx r) m))).
Definition load_rts (m : memory) (a : Z) : rts_msg_t :=
  mk_rts (load_le 4 m a) (load_le 8 m (a + 8)) (load_le 8 m (a + 16)) (load_le 8 m (a + 24)).

(** Six words; the [rmr_t] inside has three. *)
Record rtr_msg_t : Type := mk_rtr {
  rtr_send_ctx : Z; rtr_recv_ctx_or_key : Z; rtr_rmr : rmr_t; rtr_offset : Z
}.
Definition sizeof_rtr_msg_t : Z := 48.
Definition store_rmr (a : Z) (r : rmr_t) (m : memory) : memory :=
  store_le 8 (a + 16) (rmr_opaque_rkey r)
    (store_le 8 (a + 8) (rmr_mr_base r) (store_le 8 a (rmr_base r) m)).
Definition load_rtr (m : memory) (a : Z) : rtr_msg_t :=
  mk_rtr (load_le 8 m a) (load_le 8 m (a + 8))
         (mk_rmr (load_le 8 m (a + 16)) (load_le 8 m (a + 24)) (load_le 8 m (a + 32)))
         (load_le 8 m (a + 40)).

Section Rendezvous.
Context {B E : Type} `{!MatchingEngine E}.
Variable cf : config.
Variable envs : nat -> steal_env.
Variable tid : nat.
Variable get_rkey : Z -> Z.
Variable post_impl : net_op_t -> bool -> memory -> B -> errorcode_t * B.
Variable support_putimm : bool.

#[local] Abbreviation P := (ST (proc B E)).
#[local] Abbreviation payload := (payload cf).
#[local] Abbreviation lctx := (lctx cf).
#[local] Abbreviation put_back := (put_back cf tid).

(** ** The receiver: RTS to RTR *)

Definition with_ctx (a : Z) (f : internal_context_t -> internal_context_t) : P unit :=
  c ← plain_ctx a ; in_net (write_ctx a (Plain (f c))).

(** The context of a rendezvous active message. *)
Definition am_rdv_ctx (rts : rts_msg_t) : P Z :=
  add_pending_ops 1 ;;
  buffer ← (if 0 <? rts_size rts then in_net (malloc (rts_size rts)) else mret 0) ;
  entry ← get_handler (rts_rcomp rts) ;
  in_net (new_ctx (Plain (mk_ictx false true (-1) (rh_value entry) 0 buffer (rts_size rts) 0 0 0))).

(** The context of a posted receive: it must have room for the message. *)
Definition matched_rdv_ctx (rts : rts_msg_t) (a : Z) : P Z :=
  c ← plain_ctx a ;
  assert_st (rts_size rts <=? ic_size c) "rdv_ctx->size >= rts->size" ;;
  with_ctx a (fun c => mk_ictx (ic_mr_on_the_fly c) (ic_is_user_posted_op c) (ic_rank c)
    (ic_comp c) (ic_tag c) (ic_buffer c) (rts_size rts) (ic_user_context c)
    (ic_packet_to_free c) (ic_mr c)) ;;
  mret a.

Definition handle_rdv_rts_common (packet rdv_ctx : Z) : P unit :=
  m ← read_mem ;
  let rts := load_rts m (payload packet) in
  rdv_ctx ← (if rdv_ctx =? 0 then am_rdv_ctx rts else matched_rdv_ctx rts rdv_ctx) ;
  h ← lctx packet ;
  with_ctx rdv_ctx (fun c => mk_ictx (ic_mr_on_the_fly c) (ic_is_user_posted_op c) (lc_rank h)
    (ic_comp c) (rts_tag rts) (ic_buffer c) (ic_size c) (ic_user_context c)
    (ic_packet_to_free c) (ic_mr c)) ;;
  c ← plain_ctx rdv_ctx ;
  (if (0 <? ic_size c) && mr_is_empty (ic_mr c) then
     mr ← register_memory (ic_buffer c) (ic_size c) ;
     with_ctx rdv_ctx (set_mr_on_the_fly mr)
   else mret tt) ;;
  c ← plain_ctx rdv_ctx ;
  let send_ctx := rts_send_ctx rts in
  set_lctx packet (mk_lctx (lc_pool h) LOCAL_SET_ID_NULL (lc_isInPool h) (lc_is_eager h)
                           (lc_rank h) (lc_tag h) (lc_size h)) ;;
  write_mem (store_le 8 (payload packet) send_ctx) ;;
  write_mem (store_le 8 (payload packet + 8) 0) ;;
  rmr ← get_rmr get_rkey (ic_mr c) ;
  write_mem (store_rmr (payload packet + 16) rmr) ;;
  write_mem (store_le 8 (payload packet + 40) (u64 (ic_buffer c - rmr_base rmr))) ;;
  writeimm_tag ←
    (if cf_writeimm cf then
       a ← gets p_archive ;
       '(tag, a) ← lift (archive_insert rdv_ctx a) ;
       modify (set_archive a) ;;
       write_mem (store_le 8 (payload packet + 8) tag) ;;
       mret tag
     else write_mem (store_le 8 (payload packet + 8) rdv_ctx) ;; mret 0) ;
  rtr_ctx ← in_net (new_ctx (Plain (mk_ictx false false (-1) COMP_NULL 0 0 0 0 packet 0))) ;
  imm_data ← lift (set_bits32 0 IMM_DATA_MSG_RTR 2 29) ;
  mr ← get_or_register_mr cf ;
  error ← in_net (post_send post_impl (ic_rank c) (payload packet) sizeof_rtr_msg_t mr imm_data
                    rtr_ctx false false) ;
  if negb (is_posted error) then
    (if cf_writeimm cf then
       a ← gets p_archive ;
       '(_, a) ← lift (archive_remove writeimm_tag a) ;
       modify (set_archive a)
     else mret tt) ;;
    assert_st (is_posted error) "Unexpected error"
  else mret tt.

Definition handle_rdv_rts (packet : Z) : P unit :=
  m ← read_mem ;
  let rts := load_rts m (payload packet) in
  entry ← get_handler (rts_rcomp rts) ;
  if decide (rh_type entry = rh_matching_engine) then
    h ← lctx packet ;
    set_lctx packet (mk_lctx (lc_pool h) (lc_local_id h) (lc_isInPool h) false (lc_rank h)
                             (rts_tag rts) (lc_size h)) ;;
    key ← lift (make_key (lc_rank h) (rts_tag rts) (policy_of_val (rh_metadata entry))) ;
    ret ← matching_insert (rh_value entry) key packet me_send ;
    if ret =? 0 then mret tt else handle_rdv_rts_common packet ret
  else handle_rdv_rts_common packet 0.

(** A send met a receive. When the receive is being posted, its caller takes the
    status through [p_status]; otherwise the completion object of the receive is
    signalled. *)
Definition handle_matched_sendrecv (packet recv_ctx : Z) (p_status : option status_t) :
    P (option status_t) :=
  h ← lctx packet ;
  if lc_is_eager h then
    c ← plain_ctx recv_ctx ;
    delete_ctx cf tid recv_ctx ;;
    h ← lctx packet ;
    (if 0 <? lc_size h then
       write_mem (memcpy (ic_buffer c) (payload packet) (lc_size h))
     else mret tt) ;;
    put_back packet ;;
    let status := mk_status ec_done (lc_rank h) (ic_buffer c) (lc_size h) (lc_tag h)
                            (ic_user_context c) in
    match p_status with
    | None => signal_comp (ic_comp c) status ;; mret None
    | Some _ => mret (Some status)
    end
  else
    handle_rdv_rts_common packet recv_ctx ;;
    mret (set_posted <$> p_status).

(** ** The sender: RTR to writes *)

(** The loop over the pieces from [offset] on; [fuel] bounds its iterations. *)
Fixpoint put_chunks (fuel : nat) (rank buffer size mr : Z) (rtr : rtr_msg_t)
    (writeimm_data ectx offset : Z) : P unit :=
  if negb (offset <? size) then mret tt
  else match fuel with
  | O => fail_with OutOfFuel
  | S fuel =>
      let address := buffer + offset in
      let length := Z.min (size - offset) (cf_max_msg_size cf) in
      let is_last_chunk := size <=? offset + length in
      error ←
        (if cf_writeimm cf && is_last_chunk then
           in_net (post_putImm post_impl support_putimm rank address length mr
                     (u64 (rtr_offset rtr + offset)) (rtr_rmr rtr) writeimm_data ectx false false)
         else
           in_net (post_put post_impl rank address length mr
                     (u64 (rtr_offset rtr + offset)) (rtr_rmr rtr) ectx false false)) ;
      assert_st (is_posted error) "Unexpected error" ;;
      put_chunks fuel rank buffer size mr rtr writeimm_data ectx (u64 (offset + cf_max_msg_size cf))
  end.

(** The immediate data that names an archived context. *)
Definition writeimm_imm_data (tag_bits recv_key : Z) : result Z :=
  LCI_Assert (recv_key <? u32 (Z.shiftl 1 tag_bits))
    "Immediate data tag exceeds configured bits" ;;
  d ← set_bits32 0 IMM_DATA_MSG_FIN 2 29 ;
  set_bits32 d recv_key tag_bits 0.

Definition handle_rdv_rtr (packet : Z) : P unit :=
  m ← read_mem ;
  let max_single_msg_size := cf_max_msg_size cf in
  let rtr := load_rtr m (payload packet) in
  let rdv_ctx := rtr_send_ctx rtr in
  c ← plain_ctx rdv_ctx ;
  (if max_single_msg_size =? 0 then fail_with (Undefined "division by zero") else mret tt) ;;
  let signal_count := i32 (u64 (ic_size c + max_single_msg_size - 1) / max_single_msg_size) in
  writeimm_data ←
    (if cf_writeimm cf then
       a ← gets p_archive ;
       lift (writeimm_imm_data (tag_bits a) (u32 (rtr_recv_ctx_or_key rtr)))
     else mret 0) ;
  ectx ← in_net (new_ctx (Extended (mk_ectx rdv_ctx signal_count
           (if cf_writeimm cf then 0 else rtr_recv_ctx_or_key rtr) (-1) 0))) ;
  (if mr_is_empty (ic_mr c) then
     mr ← register_memory (ic_buffer c) (ic_size c) ;
     with_ctx rdv_ctx (set_mr_on_the_fly mr)
   else mret tt) ;;
  c ← plain_ctx rdv_ctx ;
  put_chunks (Z.to_nat (ic_size c)) (ic_rank c) (ic_buffer c) (ic_size c) (ic_mr c) rtr
    writeimm_data ectx 0 ;;
  put_back packet.

(** All writes of the sender are done: tell the receiver. *)
Definition handle_rdv_local_write (ectx : Z) (e : internal_context_extended_t) : P unit :=
  c ← plain_ctx (ie_internal_ctx e) ;
  assert_st (negb (ie_recv_ctx e =? 0)) "Unexpected recv_ctx" ;;
  imm_data ← lift (set_bits32 0 IMM_DATA_MSG_FIN 2 29) ;
  (* [ectx->recv_ctx] is at offset 24 of the struct and is sent from there *)
  write_mem (store_le 8 (ectx + 24) (ie_recv_ctx e)) ;;
  error ← in_net (post_sends post_impl (ic_rank c) (ectx + 24) 8 imm_data 0 false false) ;
  assert_st (is_done error) "Unexpected error".

Definition handle_rdv_remote_comp (ctx : Z) : P unit := free_ctx_and_signal_comp cf tid ctx.

Definition handle_rdv_fin (packet : Z) : P unit :=
  m ← read_mem ;
  let ctx := load_le 8 m (payload packet) in
  put_back packet ;;
  handle_rdv_remote_comp ctx.
End Rendezvous.
