(* ===== verification/Progress.v ===== *)
(** * The progress engine (src/src/core/progress.cpp, src/src/network/device_inline.hpp)

    One handler per kind of network completion, the batch that dispatches to
    them, the refilling of posted receives, and [progress] itself. A C++ exception
    is a value here ([thrown]), because the state at the throw matters: the batch
    is processed to its end before a failure is reported. *)
From stdpp Require Import base numbers list gmap strings.
From Stdlib Require Import ZArith Lia.
From S2P Require Import Prelude Bits Status MpmcArray MatchSpec RhandlerRegistry ImmTagArchive.
From S2P Require Import MpmcSet PacketPool Memory Net Endpoint Process Rendezvous.

Inductive thrown : Type :=
  | peer_failure_error (rank : Z)
  | runtime_error.

(** ** Immediate data *)

Record eager_header : Type := mk_eager {
  eh_tag : Z; eh_rcomp : Z; eh_size : Z
}.

(** The decoding at the head of [progress_recv]: the message type and, for an
    eager message, its tag, remote handler and payload size. *)
Definition decode_recv (imm_data : Z) (m : memory) (payload length : Z) :
    result (Z * eager_header) :=
  is_fastpath ← get_bits32 imm_data 1 31 ;
  if negb (is_fastpath =? 0) then
    tag ← get_bits32 imm_data 16 0 ;
    remote_comp ← get_bits32 imm_data 15 16 ;
    Ok (IMM_DATA_MSG_EAGER, mk_eager tag remote_comp length)
  else
    msg_type ← get_bits32 imm_data 2 29 ;
    if msg_type =? IMM_DATA_MSG_EAGER then
      let msg_size := u64 (length - 4) in
      let remote_comp := load_le 4 m (payload + msg_size) in
      let msg_size := u64 (msg_size - 8) in
      let tag := load_le 8 m (payload + msg_size) in
      Ok (msg_type, mk_eager tag remote_comp msg_size)
    else Ok (msg_type, mk_eager 0 0 length).

Section Progress.
Context {B E : Type} `{!MatchingEngine E}.
Variable cf : config.
Variable envs : nat -> steal_env.
Variable tid : nat.
Variable get_rkey : Z -> Z.
Variable post_impl : net_op_t -> bool -> memory -> B -> errorcode_t * B.
Variable support_putimm : bool.
(** The backend: [poll_comp_impl] may have written received data to memory;
    [post_recvs_impl] takes some of the packets it is offered. *)
Variable poll_comp_impl : nat -> memory -> B -> list net_status_t * memory * B.
Variable post_recvs_impl : list Z -> Z -> Z -> B -> nat * B.

#[local] Abbreviation P := (ST (proc B E)).
#[local] Abbreviation payload := (payload cf).
#[local] Abbreviation lctx := (lctx cf).
#[local] Abbreviation put_back := (put_back cf tid).
#[local] Abbreviation free_ctx_and_signal_comp := (free_ctx_and_signal_comp cf tid).

(** ** Handlers *)

(** An eager message for a completion object: an active message. *)
Definition recv_am (packet comp rank : Z) (h : eager_header) : P unit :=
  comps ← gets p_comps ;
  match comps !! comp with
  | None => fail_with (Undefined "no completion object at this address")
  | Some c =>
      buffer ←
        (if zero_copy_am c then mret (payload packet)
         else
           buffer ← in_net (malloc (eh_size h)) ;
           write_mem (memcpy buffer (payload packet) (eh_size h)) ;;
           put_back packet ;;
           mret buffer) ;
      signal_comp comp (mk_status ec_done rank buffer (eh_size h) (eh_tag h) 0)
  end.

(** An eager message for a matching engine. *)
Definition recv_matched (packet rank : Z) (entry : rh_entry_t) (h : eager_header) : P unit :=
  key ← lift (make_key rank (eh_tag h) (policy_of_val (rh_metadata entry))) ;
  c ← lctx packet ;
  set_lctx packet (mk_lctx (lc_pool c) (lc_local_id c) (lc_isInPool c) true rank (eh_tag h)
                           (eh_size h)) ;;
  ret ← matching_insert (rh_value entry) key packet me_send ;
  if ret =? 0 then mret tt
  else handle_matched_sendrecv cf tid get_rkey post_impl packet ret None ;; mret tt.

Definition progress_recv (st : net_status_t) : P unit :=
  let packet := ns_user_context st in
  m ← read_mem ;
  '(msg_type, h) ← lift (decode_recv (ns_imm_data st) m (payload packet) (ns_length st)) ;
  if msg_type =? IMM_DATA_MSG_EAGER then
    entry ← get_handler (eh_rcomp h) ;
    if decide (rh_type entry = rh_comp) then recv_am packet (rh_value entry) (ns_rank st) h
    else recv_matched packet (ns_rank st) entry h
  else if msg_type =? IMM_DATA_MSG_RTS then
    c ← lctx packet ;
    set_lctx packet (mk_lctx (lc_pool c) (lc_local_id c) (lc_isInPool c) (lc_is_eager c)
                             (ns_rank st) (lc_tag c) (lc_size c)) ;;
    handle_rdv_rts cf get_rkey post_impl packet
  else if msg_type =? IMM_DATA_MSG_RTR then
    handle_rdv_rtr cf tid post_impl support_putimm packet
  else if msg_type =? IMM_DATA_MSG_FIN then handle_rdv_fin cf tid packet
  else fail_with (AssertFailed "Unknown message type").

Definition progress_send (st : net_status_t) : P unit :=
  if ns_user_context st =? 0 then mret tt
  else free_ctx_and_signal_comp (ns_user_context st).

(** The rank in a context that is not extended. *)
Definition context_rank (a : Z) : P Z :=
  if a =? 0 then mret (-1)
  else
    c ← in_net (read_ctx a) ;
    mret (match c with Plain c => ic_rank c | Extended _ => -1 end).

Definition get_failed_peer_rank (st : net_status_t) : P Z :=
  context_rank ← context_rank (ns_user_context st) ;
  mret (if (0 <=? ns_rank st) && (0 <=? context_rank) && negb (ns_rank st =? context_rank)
        then -1
        else if 0 <=? ns_rank st then ns_rank st else context_rank).

Definition cleanup_failed_simple_operation (st : net_status_t) : P unit :=
  if ns_user_context st =? 0 then mret tt
  else
    c ← in_net (read_ctx (ns_user_context st)) ;
    match c with
    | Extended _ => mret tt
    | Plain c =>
        if negb (ic_is_user_posted_op c) || (ic_rank c <? 0) then mret tt
        else delete_ctx cf tid (ns_user_context st)
    end.

(** [--ectx->signal_count] and what follows when it has not reached zero. *)
Definition count_down (a : Z) (e : internal_context_extended_t) : P Z :=
  let n := i32 (ie_signal_count e - 1) in
  in_net (write_ctx a (Extended (mk_ectx (ie_internal_ctx e) n (ie_recv_ctx e)
                                         (ie_imm_data_rank e) (ie_imm_data e)))) ;;
  mret n.

Definition progress_write (st : net_status_t) : P unit :=
  let a := ns_user_context st in
  if a =? 0 then mret tt
  else
    c ← in_net (read_ctx a) ;
    match c with
    | Extended e =>
        n ← count_down a e ;
        if 0 <? n then mret tt
        else
          (if negb (ie_recv_ctx e =? 0) then handle_rdv_local_write post_impl a e
           else if negb (ie_imm_data_rank e =? -1) then
             error ← in_net (post_sends post_impl (ie_imm_data_rank e) 0 0 (ie_imm_data e) 0
                               false false) ;
             assert_st (is_done error) "Unexpected error"
           else mret tt) ;;
          in_net (drop_ctx a) ;;
          free_ctx_and_signal_comp (ie_internal_ctx e)
    | Plain _ => free_ctx_and_signal_comp a
    end.

Definition progress_remote_write (st : net_status_t) : P unit :=
  let packet := ns_user_context st in
  (if negb (packet =? 0) then put_back packet else mret tt) ;;
  let imm_data := ns_imm_data st in
  is_fastpath ← lift (get_bits32 imm_data 1 31) ;
  if negb (is_fastpath =? 0) then
    tag ← lift (get_bits32 imm_data 16 0) ;
    remote_comp ← lift (get_bits32 imm_data 15 16) ;
    entry ← get_handler remote_comp ;
    signal_comp (rh_value entry) (mk_status ec_done (ns_rank st) 0 0 tag 0)
  else
    msg_type ← lift (get_bits32 imm_data 2 29) ;
    if msg_type =? IMM_DATA_MSG_FIN then
      assert_st (cf_writeimm cf) "rendezvous protocol is not writeimm" ;;
      a ← gets p_archive ;
      archive_tag ← lift (get_bits32 imm_data (tag_bits a) 0) ;
      '(ctx, a) ← lift (archive_remove archive_tag a) ;
      modify (set_archive a) ;;
      handle_rdv_remote_comp cf tid ctx
    else fail_with (AssertFailed "Not implemented msg_type").

Definition progress_read (st : net_status_t) : P unit :=
  let a := ns_user_context st in
  c ← in_net (read_ctx a) ;
  match c with
  | Extended e =>
      n ← count_down a e ;
      if 0 <? n then mret tt
      else
        in_net (drop_ctx a) ;;
        free_ctx_and_signal_comp (ie_internal_ctx e)
  | Plain c =>
      (if negb (ic_packet_to_free c =? 0) then
         write_mem (memcpy (ic_buffer c) (payload (ic_packet_to_free c)) (ic_size c))
       else mret tt) ;;
      free_ctx_and_signal_comp a
  end.

(** ** Batches *)

(** One completion. For an error: the rank to blame, or [-1]. *)
Definition process_completion (st : net_status_t) : P (option Z) :=
  match ns_opcode st with
  | op_ERROR =>
      modify mark_network_failed ;;
      failed_rank ← get_failed_peer_rank st ;
      cleanup_failed_simple_operation st ;;
      mret (Some failed_rank)
  | op_RECV =>
      modify (fun p => set_nrecvs (u64 (p_nrecvs p - 1)) p) ;;
      progress_recv st ;; mret None
  | op_SEND => progress_send st ;; mret None
  | op_WRITE => progress_write st ;; mret None
  | op_REMOTE_WRITE => progress_remote_write st ;; mret None
  | op_READ => progress_read st ;; mret None
  end.

(** The loop; [first] is the first failure so far. *)
Fixpoint process_completions (sts : list net_status_t) (first : option Z) : P (option Z) :=
  match sts with
  | [] => mret first
  | st :: sts =>
      f ← process_completion st ;
      process_completions sts (match first with Some _ => first | None => f end)
  end.

Definition process_completion_batch (sts : list net_status_t) : P (option thrown) :=
  first ← process_completions sts None ;
  mret (match first with
        | None => None
        | Some r => Some (if 0 <=? r then peer_failure_error r else runtime_error)
        end).

(** ** Posted receives *)

Definition BATCH_SIZE : Z := Z.of_nat (cf_max_polls cf) * 2.

Fixpoint put_back_all (packets : list Z) : P unit :=
  match packets with
  | [] => mret tt
  | a :: packets => put_back a ;; put_back_all packets
  end.

Definition post_recvs (buffers : list Z) (size mr : Z) : P nat := fun p =>
  let '(n, b) := post_recvs_impl buffers size mr (ns_net (p_net p)) in
  let n0 := p_net p in
  Ok (n, set_net (mk_nstate (ns_mem n0) (ns_brk n0) (ns_blocks n0) (ns_ctxs n0) (ns_bq n0) b
                            (ns_accepted n0)) p).

Definition add_nrecvs (n : Z) : P unit := modify (fun p => set_nrecvs (u64 (p_nrecvs p + n)) p).

Definition post_recv_packets : P bool :=
  nrecvs_posted ← gets p_nrecvs ;
  if cf_net_max_recvs cf <=? nrecvs_posted then mret false
  else
    my_position ← gets p_nrecvs ;
    add_nrecvs BATCH_SIZE ;;
    if cf_net_max_recvs cf <=? my_position then add_nrecvs (- BATCH_SIZE) ;; mret false else
    let nslots := Z.min (cf_net_max_recvs cf - my_position) BATCH_SIZE in
    packets ← get_packets cf envs tid (Z.to_nat nslots) ;
    if (length packets =? 0)%nat then add_nrecvs (- BATCH_SIZE) ;; mret false
    else
      mr ← get_or_register_mr cf ;
      q ← gets p_pool ;
      n_posted ← post_recvs (payload <$> packets) (get_payload_size q) mr ;
      put_back_all (drop n_posted packets) ;;
      (if negb (BATCH_SIZE =? Z.of_nat n_posted)
       then add_nrecvs (- (BATCH_SIZE - Z.of_nat n_posted)) else mret tt) ;;
      mret (0 <? n_posted)%nat.

(** [refill_recvs(false)], which [progress] calls: refill while fewer than 80% of
    the receives are posted, until a batch could not be posted. *)
Fixpoint refill_recvs (fuel : nat) (ret : bool) : P bool :=
  n ← gets p_nrecvs ;
  if negb (5 * i32 n <? 4 * cf_net_max_recvs cf) then mret ret
  else match fuel with
  | O => fail_with OutOfFuel
  | S fuel =>
      succeed ← post_recv_packets ;
      if (succeed : bool) then refill_recvs fuel true else mret ret
  end.

(** ** [progress] *)

(** [while (progress_backlog_queue())]: whether anything was posted. *)
Fixpoint progress_backlog (fuel : nat) (did : bool) : P bool :=
  b ← in_net (bq_progress post_impl support_putimm true) ;
  if (b : bool) then
    match fuel with
    | O => fail_with OutOfFuel
    | S fuel => progress_backlog fuel true
    end
  else mret did.

Definition poll_backend (max_polls : nat) : P (list net_status_t) := fun p =>
  let n0 := p_net p in
  let '(sts, m, b) := poll_comp_impl max_polls (ns_mem n0) (ns_net n0) in
  Ok (sts, set_net (mk_nstate m (ns_brk n0) (ns_blocks n0) (ns_ctxs n0) (ns_bq n0) b
                              (ns_accepted n0)) p).

Definition poll_comp (max_polls : nat) : P (list net_status_t) :=
  assert_st (0 <? max_polls)%nat "max_polls must be greater than 0" ;;
  assert_st (max_polls <=? cf_max_polls cf)%nat "max_polls must be no larger" ;;
  poll_backend max_polls.

Definition progress (fuel : nat) : P (thrown + errorcode_t) :=
  did ← progress_backlog fuel false ;
  sts ← poll_comp (cf_max_polls cf) ;
  thrown ← (if (0 <? length sts)%nat then process_completion_batch sts else mret None) ;
  match thrown with
  | Some t => mret (inl t)
  | None =>
      refilled ← refill_recvs fuel false ;
      mret (inr (if did || (0 <? length sts)%nat || refilled then ec_done else ec_retry))
  end.

Definition test_drained : P errorcode_t :=
  n ← gets p_net ;
  pending ← gets p_pending ;
  mret (if bq_empty (ns_bq n) && (pending =? 0) then ec_done else ec_retry).

Fixpoint wait_drained (fuel : nat) : P (option thrown) :=
  e ← test_drained ;
  if is_retry e then
    match fuel with
    | O => fail_with OutOfFuel
    | S fuel =>
        r ← progress fuel ;
        match r with
        | inl t => mret (Some t)
        | inr _ => wait_drained fuel
        end
    end
  else mret None.
End Progress.
