(* ===== verification/Communicate.v ===== *)
(** * Posting a communication (src/src/core/communicate.cpp)

    [post_comm] and its steps, in the order in which [post_comm_x::call_impl] runs
    them: the arguments are normalised and checked, a protocol is chosen, a packet
    and a context are prepared, the operation is posted, and [exit_handler] turns
    the outcome into the status the caller asked for. *)
From stdpp Require Import base numbers list gmap strings.
From Stdlib Require Import ZArith Lia.
From S2P Require Import Prelude Bits Status MpmcArray MatchSpec RhandlerRegistry ImmTagArchive.
From S2P Require Import MpmcSet PacketPool Comp Memory Net Endpoint Process Rendezvous Progress.

Inductive protocol_t : Type :=
  | proto_none | proto_inject | proto_eager_bcopy | proto_eager_zcopy | proto_rdv_zcopy
  | proto_recv.
#[export] Instance protocol_eq_dec : EqDecision protocol_t.
Proof. solve_decision. Defined.

(** An engine is its address with the base of its handlers; [0] is none. *)
Record post_comm_args_t : Type := mk_args {
  a_direction : direction_t;
  a_rank : Z;
  a_local_buffer : Z;
  a_size : Z;
  a_local_comp : Z;
  a_matching_engine : Z;
  a_rcomp_base : Z;
  a_comp_semantic : comp_semantic_t;
  a_mr : Z;
  a_remote_disp : Z;
  a_rmr : rmr_t;
  a_tag : Z;
  a_remote_comp : Z;
  a_user_context : Z;
  a_matching_policy : matching_policy_t;
  a_allow_done : bool;
  a_allow_posted : bool;
  a_allow_retry : bool
}.

Record post_comm_traits_t : Type := mk_traits {
  t_local_buffer_only : bool;
  t_local_comp_only : bool;
  t_is_recv : bool;
  t_max_inject_size : Z;
  t_max_bcopy_size : Z
}.

Record post_comm_state_t : Type := mk_pstate {
  s_rhandler : Z;
  s_piggyback : bool;
  s_imm_data : Z;
  s_packet : Z;
  s_packet_size_to_send : Z;
  s_user_provided_packet : bool;
  s_internal_ctx : Z;
  s_protocol : protocol_t;
  s_mr : Z;
  s_local_comp : Z;
  s_comp_passed_to_network : bool;
  s_status : status_t
}.
Definition post_comm_state_new : post_comm_state_t :=
  mk_pstate 0 false 0 0 0 false 0 proto_none 0 COMP_NULL false status_init.

(** ** Steps without effects *)

Definition mr_may_be_device_memory (mr : Z) : bool := (mr =? MR_DEVICE) || (mr =? MR_UNKNOWN).

Definition eager_payload_needs_metadata (cf : config) (a : post_comm_args_t) (rhandler : Z) : bool :=
  bool_decide (a_direction a = OUT) && negb (rhandler =? 0)
  && ((cf_max_imm_tag cf <? a_tag a) || (cf_max_imm_rcomp cf <? rhandler)).

Definition with_allow (posted retry : bool) (a : post_comm_args_t) : post_comm_args_t :=
  mk_args (a_direction a) (a_rank a) (a_local_buffer a) (a_size a) (a_local_comp a)
    (a_matching_engine a) (a_rcomp_base a) (a_comp_semantic a) (a_mr a) (a_remote_disp a)
    (a_rmr a) (a_tag a) (a_remote_comp a) (a_user_context a) (a_matching_policy a)
    (a_allow_done a) posted retry.

Definition preprocess_args (a : post_comm_args_t) : post_comm_args_t :=
  if a_local_comp a =? COMP_NULL then with_allow false false a
  else if a_local_comp a =? COMP_NULL_RETRY then with_allow false (a_allow_retry a) a
  else a.

(** [get_max_bcopy_size] *)
Definition get_max_bcopy_size (q : packet_pool_impl_t) : Z := u64 (get_payload_size q - 8 - 4).

Definition validate_and_get_traits (cf : config) (q : packet_pool_impl_t) (a : post_comm_args_t) :
    result post_comm_traits_t :=
  let local_buffer_only := rmr_is_empty (a_rmr a) in
  let local_comp_only := a_remote_comp a =? 0 in
  let is_in := bool_decide (a_direction a = IN) in
  LCI_Assert (a_allow_posted a || a_allow_done a)
    "At least one of allow_posted and allow_done should be true" ;;
  LCI_Assert (negb (is_in && local_buffer_only && negb local_comp_only))
    "invalid communication primitive" ;;
  LCI_Assert (negb (is_in && negb local_buffer_only && negb local_comp_only))
    "get with signal has not been implemented yet" ;;
  Ok (mk_traits local_buffer_only local_comp_only (is_in && local_buffer_only)
        (cf_max_inject_size cf) (get_max_bcopy_size q)).

Definition resolve_rhandler (a : post_comm_args_t) (t : post_comm_traits_t) : Z :=
  if (a_remote_comp a =? 0) && negb (a_matching_engine a =? 0) && t_local_buffer_only t
  then get_rhandler (a_rcomp_base a) (a_matching_policy a)
  else a_remote_comp a.

(** The protocol, and whether tag and handler travel in the payload. *)
Definition set_protocol (cf : config) (a : post_comm_args_t) (t : post_comm_traits_t)
    (rhandler : Z) : protocol_t * bool :=
  let is_out := bool_decide (a_direction a = OUT) in
  let msg_size_if_eager :=
    if is_out && negb (rhandler =? 0) && eager_payload_needs_metadata cf a rhandler
    then u64 (a_size a + (8 + 4)) else a_size a in
  let eager_needs_payload_metadata := a_size a <? msg_size_if_eager in
  if negb is_out && t_local_buffer_only t then (proto_recv, false)
  else if is_out && t_local_buffer_only t && (t_max_bcopy_size t <? msg_size_if_eager)
  then (proto_rdv_zcopy, false)
  else if (msg_size_if_eager <=? t_max_inject_size t) && is_out
          && bool_decide (a_comp_semantic a = sem_memory) && negb eager_needs_payload_metadata
  then (proto_inject, false)
  else if (mr_is_empty (a_mr a) || eager_needs_payload_metadata)
          && (msg_size_if_eager <=? t_max_bcopy_size t)
          && negb (mr_may_be_device_memory (a_mr a))
  then (proto_eager_bcopy, eager_needs_payload_metadata)
  else (proto_eager_zcopy, false).

Definition set_immediate_data (cf : config) (a : post_comm_args_t) (protocol : protocol_t)
    (rhandler : Z) : result Z :=
  if decide (protocol = proto_rdv_zcopy) then set_bits32 0 IMM_DATA_MSG_RTS 2 29
  else if bool_decide (a_direction a = OUT) && negb (rhandler =? 0) then
    if (a_tag a <=? cf_max_imm_tag cf) && (rhandler <=? cf_max_imm_rcomp cf) then
      imm ← set_bits32 0 1 1 31 ;
      imm ← set_bits32 imm (u32 (a_tag a)) (cf_imm_nbits_tag cf) 0 ;
      set_bits32 imm rhandler (cf_imm_nbits_rcomp cf) 16
    else Ok 0
  else Ok 0.

Definition set_status (a : post_comm_args_t) : status_t :=
  mk_status ec_retry_init (a_rank a) (a_local_buffer a) (a_size a) (a_tag a) (a_user_context a).

(** The policy a receive looks for: wildcards override the argument. *)
Definition recv_policy (a : post_comm_args_t) : matching_policy_t :=
  if (a_rank a =? ANY_SOURCE) && (a_tag a =? ANY_TAG) then mp_none
  else if a_rank a =? ANY_SOURCE then mp_tag_only
  else if a_tag a =? ANY_TAG then mp_rank_only
  else a_matching_policy a.

Section Communicate.
Context {B E : Type} `{!MatchingEngine E}.
Variable cf : config.
Variable envs : nat -> steal_env.
Variable tid : nat.
Variable get_rkey : Z -> Z.
Variable post_impl : net_op_t -> bool -> memory -> B -> errorcode_t * B.
Variable support_putimm : bool.
Variable poll_comp_impl : nat -> memory -> B -> list net_status_t * memory * B.
Variable post_recvs_impl : list Z -> Z -> Z -> B -> nat * B.

#[local] Abbreviation P := (ST (proc B E)).
#[local] Abbreviation payload := (payload cf).

(** ** Steps with effects *)

Definition check_backlog (a : post_comm_args_t) (protocol : protocol_t) : P errorcode_t :=
  empty ← in_net (bq_is_empty (a_rank a)) ;
  mret (if negb empty && a_allow_retry a && negb (bool_decide (protocol = proto_recv))
        then ec_retry_backlog else ec_done).

(** What [set_packet_if_needed] leaves in the state: packet, whether the user
    provided it, and the number of bytes to send. *)
Record packet_info : Type := mk_pinfo { pi_packet : Z; pi_user : bool; pi_size : Z }.

Definition set_local_id (packet : Z) : P unit :=
  c ← lctx cf packet ;
  set_lctx packet (mk_lctx (lc_pool c) (Z.of_nat tid) (lc_isInPool c) (lc_is_eager c)
                           (lc_rank c) (lc_tag c) (lc_size c)).

(** Filling the packet of an outgoing buffer-copy message. *)
Definition build_packet (a : post_comm_args_t) (t : post_comm_traits_t) (rhandler : Z)
    (piggyback : bool) (packet : Z) (user : bool) : P Z :=
  (if negb user then write_mem (memcpy (payload packet) (a_local_buffer a) (a_size a))
   else mret tt) ;;
  size ←
    (if piggyback then
       write_mem (store_le 8 (payload packet + a_size a) (a_tag a)) ;;
       write_mem (store_le 4 (payload packet + (a_size a + 8)) rhandler) ;;
       assert_st (a_size a + 8 + 4 <=? t_max_bcopy_size t)
         "packet_size_to_send <= max_bcopy_size" ;;
       mret (a_size a + 8 + 4)
     else mret (a_size a)) ;
  (if cf_packet_return_threshold cf <? size then set_local_id packet else mret tt) ;;
  mret size.

Definition set_packet_if_needed (a : post_comm_args_t) (t : post_comm_traits_t)
    (protocol : protocol_t) (rhandler : Z) (piggyback : bool) : P (errorcode_t * packet_info) :=
  q ← gets p_pool ;
  let is_user := is_packet (cf_sizeof_lctx cf) q (a_local_buffer a) false in
  let user_packet := address2packet (cf_sizeof_lctx cf) (a_local_buffer a) in
  if negb (bool_decide (protocol = proto_eager_bcopy) || bool_decide (protocol = proto_rdv_zcopy))
  then mret (ec_done, if is_user then mk_pinfo user_packet true 0 else mk_pinfo 0 false 0)
  else
    let user := bool_decide (protocol = proto_eager_bcopy) && is_user in
    packet ←
      (if user then mret (Some user_packet)
       else
         packet ← get_packet cf envs tid (negb (a_allow_retry a)) ;
         mret (if packet =? 0 then None else Some packet)) ;
    match packet with
    | None => mret (ec_retry_nopacket, mk_pinfo 0 user 0)
    | Some packet =>
        if decide (protocol = proto_rdv_zcopy) then mret (ec_done, mk_pinfo packet user 0)
        else if decide (a_direction a = OUT) then
          size ← build_packet a t rhandler piggyback packet user ;
          mret (ec_done, mk_pinfo packet user size)
        else mret (ec_done, mk_pinfo packet user 0)
    end.

(** A fresh synchronizer of threshold one, from [alloc_sync]. *)
Definition alloc_sync : P Z :=
  comp ← in_net (malloc 1) ;
  modify (fun p => set_comps (<[comp := comp_sync false (Sync.sync_new 1)]> (p_comps p))
                             (p_signals p) p) ;;
  mret comp.
Definition free_comp (comp : Z) : P unit :=
  if comp =? 0 then mret tt
  else
    modify (fun p => set_comps (delete comp (p_comps p)) (p_signals p) p) ;;
    in_net (free comp).

Definition set_local_comp (a : post_comm_args_t) : P Z :=
  if negb (a_allow_posted a) then alloc_sync else mret (a_local_comp a).

(** The context, whether its completion object was passed on, and the memory
    region. *)
Definition set_internal_ctx (a : post_comm_args_t) (protocol : protocol_t)
    (packet local_comp : Z) : P (Z * bool * Z) :=
  add_pending_ops 1 ;;
  let passed :=
    bool_decide (protocol = proto_eager_zcopy) || bool_decide (protocol = proto_rdv_zcopy)
    || bool_decide (a_comp_semantic a = sem_network) || bool_decide (a_direction a = IN) in
  (if passed then assert_st (negb (comp_is_empty local_comp)) "Local completion object is empty"
   else mret tt) ;;
  let c := mk_ictx false true (a_rank a) (if passed then local_comp else COMP_NULL) (a_tag a)
             (a_local_buffer a) (a_size a) (a_user_context a) packet 0 in
  ctx ← in_net (new_ctx (Plain c)) ;
  mr ←
    (if bool_decide (protocol = proto_eager_zcopy) && mr_is_empty (a_mr a) then
       mr ← register_memory (a_local_buffer a) (a_size a) ;
       with_ctx ctx (set_mr_on_the_fly mr) ;;
       mret mr
     else mret (a_mr a)) ;
  mret (ctx, passed, mr).

(** ** Posting to the network *)

Definition is_memory (a : post_comm_args_t) : bool :=
  bool_decide (a_comp_semantic a = sem_memory).

Definition post_inject (a : post_comm_args_t) (t : post_comm_traits_t) (s : post_comm_state_t) :
    P errorcode_t :=
  in_net (
    if t_local_buffer_only t then
      post_sends post_impl (a_rank a) (a_local_buffer a) (a_size a) (s_imm_data s)
        (s_internal_ctx s) (a_allow_retry a) false
    else if s_rhandler s =? 0 then
      post_puts post_impl (a_rank a) (a_local_buffer a) (a_size a) (a_remote_disp a) (a_rmr a)
        (s_internal_ctx s) (a_allow_retry a) false
    else
      post_putImms post_impl support_putimm (a_rank a) (a_local_buffer a) (a_size a)
        (a_remote_disp a) (a_rmr a) (s_imm_data s) (s_internal_ctx s) (a_allow_retry a) false).

Definition post_bcopy (a : post_comm_args_t) (t : post_comm_traits_t) (s : post_comm_state_t) :
    P errorcode_t :=
  let buffer := payload (s_packet s) in
  mr ← get_or_register_mr cf ;
  error ← in_net (
    if t_local_buffer_only t then
      post_send post_impl (a_rank a) buffer (s_packet_size_to_send s) mr (s_imm_data s)
        (s_internal_ctx s) (a_allow_retry a) false
    else if s_rhandler s =? 0 then
      post_put post_impl (a_rank a) buffer (s_packet_size_to_send s) mr (a_remote_disp a)
        (a_rmr a) (s_internal_ctx s) (a_allow_retry a) false
    else
      post_putImm post_impl support_putimm (a_rank a) buffer (s_packet_size_to_send s) mr
        (a_remote_disp a) (a_rmr a) (s_imm_data s) (s_internal_ctx s) (a_allow_retry a) false) ;
  mret (if is_posted error && is_memory a then ec_done else error).

Definition post_zcopy (a : post_comm_args_t) (t : post_comm_traits_t) (s : post_comm_state_t) :
    P errorcode_t :=
  in_net (
    if t_local_buffer_only t then
      post_send post_impl (a_rank a) (a_local_buffer a) (a_size a) (s_mr s) (s_imm_data s)
        (s_internal_ctx s) (a_allow_retry a) false
    else if s_rhandler s =? 0 then
      post_put post_impl (a_rank a) (a_local_buffer a) (a_size a) (s_mr s) (a_remote_disp a)
        (a_rmr a) (s_internal_ctx s) (a_allow_retry a) false
    else
      post_putImm post_impl support_putimm (a_rank a) (a_local_buffer a) (a_size a) (s_mr s)
        (a_remote_disp a) (a_rmr a) (s_imm_data s) (s_internal_ctx s) (a_allow_retry a) false).

Definition post_rdv (a : post_comm_args_t) (t : post_comm_traits_t) (s : post_comm_state_t) :
    P errorcode_t :=
  let inject := sizeof_rts_msg_t <=? t_max_inject_size t in
  p_rts ←
    (if inject then in_net (malloc sizeof_rts_msg_t)
     else
       assert_st (sizeof_rts_msg_t <=? t_max_bcopy_size t) "The rts message is too large" ;;
       mret (payload (s_packet s))) ;
  write_mem (store_rts p_rts
               (mk_rts (s_rhandler s) (s_internal_ctx s) (a_tag a) (a_size a))) ;;
  error ←
    (if inject then
       e ← in_net (post_sends post_impl (a_rank a) p_rts sizeof_rts_msg_t (s_imm_data s) 0
                     (a_allow_retry a) false) ;
       in_net (free p_rts) ;;
       mret e
     else
       mr ← get_or_register_mr cf ;
       in_net (post_send post_impl (a_rank a) p_rts sizeof_rts_msg_t mr (s_imm_data s) 0
                 (a_allow_retry a) false)) ;
  mret (if is_done error then ec_posted else error).

(** A receive; it may complete on the spot and then carries the status. *)
Definition post_recv (a : post_comm_args_t) (s : post_comm_state_t) : P (errorcode_t * status_t) :=
  key ← lift (make_key (a_rank a) (a_tag a) (recv_policy a)) ;
  ret ← matching_insert (a_matching_engine a) key (s_internal_ctx s) me_recv ;
  if negb (ret =? 0) then
    st ← handle_matched_sendrecv cf tid get_rkey post_impl ret (s_internal_ctx s)
           (Some (s_status s)) ;
    let st := default (s_status s) st in
    mret (st_error st, st)
  else mret (ec_posted, s_status s).

Definition post_get_op (a : post_comm_args_t) (s : post_comm_state_t) : P errorcode_t :=
  if decide (s_protocol s = proto_eager_bcopy) then
    mr ← get_or_register_mr cf ;
    in_net (Endpoint.post_get post_impl (a_rank a) (payload (s_packet s)) (a_size a) mr
              (a_remote_disp a) (a_rmr a) (s_internal_ctx s) (a_allow_retry a) false)
  else
    in_net (Endpoint.post_get post_impl (a_rank a) (a_local_buffer a) (a_size a) (s_mr s)
              (a_remote_disp a) (a_rmr a) (s_internal_ctx s) (a_allow_retry a) false).

Definition post_network_op (a : post_comm_args_t) (t : post_comm_traits_t)
    (s : post_comm_state_t) : P (errorcode_t * status_t) :=
  match a_direction a with
  | OUT =>
      e ← match s_protocol s with
          | proto_inject => post_inject a t s
          | proto_eager_bcopy => post_bcopy a t s
          | proto_eager_zcopy => post_zcopy a t s
          | _ => post_rdv a t s
          end ;
      mret (e, s_status s)
  | IN =>
      match s_protocol s with
      | proto_recv => post_recv a s
      | _ => e ← post_get_op a s ; mret (e, s_status s)
      end
  end.

(** ** The end of a post *)

(** [sync_test] of the synchronizer of a blocking post. *)
Definition sync_test (comp : Z) : P (option status_t) := fun p =>
  match p_comps p !! comp with
  | Some (comp_sync b s) =>
      let '(r, s) := Sync.test true s in
      Ok (match r with Some (st :: _) => Some st | Some [] | None => None end,
          set_comps (<[comp := comp_sync b s]> (p_comps p)) (p_signals p) p)
  | _ => Err (Undefined "not a synchronizer")
  end.

(** The loop that makes a posted operation blocking. *)
Fixpoint wait_local_comp (fuel : nat) (comp : Z) : P (thrown + status_t) :=
  r ← sync_test comp ;
  match r with
  | Some st => mret (inr st)
  | None =>
      match fuel with
      | O => fail_with OutOfFuel
      | S fuel =>
          e ← progress cf envs tid get_rkey post_impl support_putimm poll_comp_impl
                post_recvs_impl fuel ;
          match e with
          | inl t => mret (inl t)
          | inr _ => wait_local_comp fuel comp
          end
      end
  end.

Definition forget_user_packet (ctx : Z) : P unit :=
  with_ctx ctx (fun c => mk_ictx (ic_mr_on_the_fly c) (ic_is_user_posted_op c) (ic_rank c)
    (ic_comp c) (ic_tag c) (ic_buffer c) (ic_size c) (ic_user_context c) 0 (ic_mr c)).

Definition exit_handler (fuel : nat) (error : errorcode_t) (a : post_comm_args_t)
    (s : post_comm_state_t) : P (thrown + status_t) :=
  let st := st_with_error error (s_status s) in
  (if negb (bool_decide (s_protocol s = proto_recv)) then
     if is_done error then
       assert_st (negb (s_comp_passed_to_network s)) "comp object is passed to network while done"
     else if is_posted error then
       assert_st (s_comp_passed_to_network s) "comp object is not passed to the network while posted"
     else mret tt
   else mret tt) ;;
  (if is_retry error then
     (if s_user_provided_packet s then forget_user_packet (s_internal_ctx s) else mret tt) ;;
     (if s_internal_ctx s =? 0 then mret tt else delete_ctx cf tid (s_internal_ctx s))
   else mret tt) ;;
  r ← (if is_posted error && negb (a_allow_posted a) then
         r ← wait_local_comp fuel (s_local_comp s) ;
         mret (match r with inl t => inl t | inr st => inr (set_done st) end)
       else mret (inr st)) ;
  match r with
  | inl t => mret (inl t)
  | inr st =>
      (if negb (a_allow_posted a) then free_comp (s_local_comp s) else mret tt) ;;
      if is_done (st_error st) && negb (a_allow_done a) then
        signal_comp (s_local_comp s) st ;;
        mret (inr (set_posted st))
      else mret (inr st)
  end.

(** [post_comm_x::call_impl]; [goto exit] is the two early returns. *)
Definition post_comm (fuel : nat) (args : post_comm_args_t) : P (thrown + status_t) :=
  let a := preprocess_args args in
  q ← gets p_pool ;
  t ← lift (validate_and_get_traits cf q a) ;
  let rhandler := resolve_rhandler a t in
  let '(protocol, piggyback) := set_protocol cf a t rhandler in
  let s := mk_pstate rhandler piggyback 0 0 0 false 0 protocol 0 COMP_NULL false status_init in
  error ← check_backlog a protocol ;
  if negb (is_done error) then exit_handler fuel error a s
  else
    '(error, i) ← set_packet_if_needed a t protocol rhandler piggyback ;
    let s := mk_pstate rhandler piggyback 0 (pi_packet i) (pi_size i) (pi_user i) 0 protocol 0
               COMP_NULL false status_init in
    if negb (is_done error) then exit_handler fuel error a s
    else
      imm_data ← lift (set_immediate_data cf a protocol rhandler) ;
      local_comp ← set_local_comp a ;
      '(ctx, passed, mr) ← set_internal_ctx a protocol (pi_packet i) local_comp ;
      let s := mk_pstate rhandler piggyback imm_data (pi_packet i) (pi_size i) (pi_user i) ctx
                 protocol mr local_comp passed (set_status a) in
      '(error, st) ← post_network_op a t s ;
      let s := mk_pstate rhandler piggyback imm_data (pi_packet i) (pi_size i) (pi_user i) ctx
                 protocol mr local_comp passed st in
      exit_handler fuel error a s.

(** ** The five operations *)

Definition post_am (fuel : nat) (rank local_buffer size local_comp remote_comp : Z)
    (comp_semantic : comp_semantic_t) (mr tag user_context : Z)
    (allow_done allow_posted allow_retry : bool) : P (thrown + status_t) :=
  post_comm fuel (mk_args OUT rank local_buffer size local_comp 0 0 comp_semantic mr 0 RMR_NULL
    tag remote_comp user_context mp_rank_tag allow_done allow_posted allow_retry).

Definition post_send_op (fuel : nat) (rank local_buffer size tag local_comp engine rcomp_base : Z)
    (comp_semantic : comp_semantic_t) (mr user_context : Z) (policy : matching_policy_t)
    (allow_done allow_posted allow_retry : bool) : P (thrown + status_t) :=
  post_comm fuel (mk_args OUT rank local_buffer size local_comp engine rcomp_base comp_semantic mr
    0 RMR_NULL tag 0 user_context policy allow_done allow_posted allow_retry).

Definition post_recv_op (fuel : nat) (rank local_buffer size tag local_comp engine rcomp_base : Z)
    (comp_semantic : comp_semantic_t) (mr user_context : Z) (policy : matching_policy_t)
    (allow_done allow_posted allow_retry : bool) : P (thrown + status_t) :=
  post_comm fuel (mk_args IN rank local_buffer size local_comp engine rcomp_base comp_semantic mr
    0 RMR_NULL tag 0 user_context policy allow_done allow_posted allow_retry).

Definition post_put_op (fuel : nat) (rank local_buffer size local_comp remote_disp : Z)
    (rmr : rmr_t) (comp_semantic : comp_semantic_t) (mr tag remote_comp user_context : Z)
    (allow_done allow_posted allow_retry : bool) : P (thrown + status_t) :=
  post_comm fuel (mk_args OUT rank local_buffer size local_comp 0 0 comp_semantic mr remote_disp
    rmr tag remote_comp user_context mp_rank_tag allow_done allow_posted allow_retry).

Definition post_get_x (fuel : nat) (rank local_buffer size local_comp remote_disp : Z)
    (rmr : rmr_t) (comp_semantic : comp_semantic_t) (mr tag remote_comp user_context : Z)
    (allow_done allow_posted allow_retry : bool) : P (thrown + status_t) :=
  post_comm fuel (mk_args IN rank local_buffer size local_comp 0 0 comp_semantic mr remote_disp
    rmr tag remote_comp user_context mp_rank_tag allow_done allow_posted allow_retry).
End Communicate.
