(* ===== verification/Protocol.v ===== *)
(** * Choice of protocol and metadata of eager messages

    What the steps of [post_comm] without effects promise: which protocol is
    chosen, and that the tag and the remote handler a sender packs into immediate
    data, or appends to the payload, are the ones the receiver unpacks. *)
From stdpp Require Import base numbers list gmap strings.
From Stdlib Require Import ZArith Lia.
From S2P Require Import Prelude Bits Status MatchSpec Memory PacketPool Process Rendezvous Progress.
From S2P Require Import Communicate.

(** ** Reading part of a range *)

Lemma load_bytes_sub m a len off k :
  0 <= off -> 0 <= k -> off + k <= len ->
  load_bytes m (a + off) k = take (Z.to_nat k) (drop (Z.to_nat off) (load_bytes m a len)).
Proof.
  intros Ho Hk Hl. apply list_eq. intros i.
  destruct (decide (i < Z.to_nat k)%nat) as [Hi|Hi].
  - rewrite load_bytes_lookup, lookup_take_lt, lookup_drop, load_bytes_lookup by lia.
    f_equal. f_equal. lia.
  - rewrite !lookup_ge_None_2; [done| |rewrite length_load_bytes; lia].
    rewrite length_take, length_drop, length_load_bytes. lia.
Qed.

Lemma take_drop_middle_app {A} (l1 l2 l3 : list A) n k :
  n = length l1 -> k = length l2 -> take k (drop n (l1 ++ l2 ++ l3)) = l2.
Proof. intros -> ->. by rewrite drop_app_length, take_app_length. Qed.

(** ** Eager metadata *)

(** The limits the runtime derives from its attributes; tag and handler have the
    places at which [progress_recv] looks for them. *)
Record imm_config (cf : config) : Prop := mk_imm_config {
  ic_tag_bits : 0 <= cf_imm_nbits_tag cf <= 16;
  ic_rcomp_bits : 0 <= cf_imm_nbits_rcomp cf <= 15;
  ic_max_tag : cf_max_imm_tag cf = 2 ^ cf_imm_nbits_tag cf - 1;
  ic_max_rcomp : cf_max_imm_rcomp cf = 2 ^ cf_imm_nbits_rcomp cf - 1
}.

(** The bytes on the wire. *)
Definition eager_message (data : list Z) (a : post_comm_args_t) (rhandler : Z) (piggyback : bool) :
    list Z :=
  data ++ (if piggyback then le_bytes 8 (a_tag a) ++ le_bytes 4 rhandler else []).

(** A value that fits a narrow field sets a wider one in a word that is zero
    there. *)
Lemma field_set_widen flag val width width' offset :
  0 <= width <= width' -> 0 <= offset -> 0 <= val < 2 ^ width ->
  (forall n, offset <= n < offset + width' -> Z.testbit flag n = false) ->
  field_set flag val width offset = field_set flag val width' offset.
Proof.
  intros Hw Ho Hv Hz. apply Z.bits_inj'. intros n Hn.
  assert (2 ^ width <= 2 ^ width') by (apply Z.pow_le_mono_r; lia).
  rewrite !testbit_field_set by lia.
  destruct (offset <=? n) eqn:H1, (n <? offset + width) eqn:H2, (n <? offset + width') eqn:H3;
    simpl; try done; try lia.
  rewrite Hz by lia. symmetry. apply (testbit_above val width); lia.
Qed.

(** The word of the fast path: one bit, 15 bits of handler, 16 bits of tag. *)
Definition fast_imm (tag rhandler : Z) : Z :=
  field_set (field_set (field_set 0 1 1 31) tag 16 0) rhandler 15 16.

Lemma fast_imm_fields tag rhandler :
  0 <= tag < 2 ^ 16 -> 0 <= rhandler < 2 ^ 15 ->
  0 <= fast_imm tag rhandler < 2 ^ 32
  /\ field_get (fast_imm tag rhandler) 1 31 = 1
  /\ field_get (fast_imm tag rhandler) 16 0 = tag
  /\ field_get (fast_imm tag rhandler) 15 16 = rhandler.
Proof.
  intros Ht Hr. unfold fast_imm. split; [|split_and!].
  - repeat apply field_set_range; lia.
  - rewrite !field_get_set_disjoint by (unfold disjoint_fields; lia).
    apply field_get_set_same; lia.
  - rewrite field_get_set_disjoint by (unfold disjoint_fields; lia).
    apply field_get_set_same; lia.
  - apply field_get_set_same; lia.
Qed.

Lemma set_immediate_data_fast cf a protocol rhandler :
  imm_config cf -> a_direction a = OUT -> protocol <> proto_rdv_zcopy ->
  0 <= a_tag a <= cf_max_imm_tag cf -> 0 < rhandler <= cf_max_imm_rcomp cf ->
  set_immediate_data cf a protocol rhandler = Ok (fast_imm (a_tag a) rhandler)
  /\ 0 <= a_tag a < 2 ^ 16 /\ 0 <= rhandler < 2 ^ 15.
Proof.
  intros [Htb Hrb Hmt Hmr] Hd Hp Ht Hr.
  assert (2 ^ cf_imm_nbits_tag cf <= 2 ^ 16) by (apply Z.pow_le_mono_r; lia).
  assert (2 ^ cf_imm_nbits_rcomp cf <= 2 ^ 15) by (apply Z.pow_le_mono_r; lia).
  split; [|lia]. unfold set_immediate_data. rewrite decide_False by done.
  rewrite bool_decide_eq_true_2 by done. rewrite (proj2 (Z.eqb_neq rhandler 0)) by lia.
  rewrite !(proj2 (Z.leb_le _ _)) by lia. cbn [andb negb].
  rewrite set_bits32_field by (unfold valid_field, is_u32; lia). cbn [mbind result_bind].
  assert (0 <= field_set 0 1 1 31 < 2 ^ 32) by (apply field_set_range; lia).
  rewrite u32_id by (unfold is_u32; lia).
  rewrite set_bits32_field by (unfold valid_field, is_u32; lia). cbn [mbind result_bind].
  assert (0 <= field_set (field_set 0 1 1 31) (a_tag a) (cf_imm_nbits_tag cf) 0 < 2 ^ 32)
    by (apply field_set_range; lia).
  rewrite set_bits32_field by (unfold valid_field, is_u32; lia). f_equal. unfold fast_imm.
  rewrite (field_set_widen _ (a_tag a) (cf_imm_nbits_tag cf) 16 0); try lia.
  - apply field_set_widen; try lia. intros n Hn.
    rewrite !testbit_field_set by lia. rewrite Z.testbit_0_l.
    by replace ((0 <=? n) && (n <? 0 + 16)) with false by lia;
      replace ((31 <=? n) && (n <? 31 + 1)) with false by lia.
  - intros n Hn. rewrite testbit_field_set by lia. rewrite Z.testbit_0_l.
    by replace ((31 <=? n) && (n <? 31 + 1)) with false by lia.
Qed.

Lemma decode_fast tag rhandler m payload length :
  0 <= tag < 2 ^ 16 -> 0 <= rhandler < 2 ^ 15 ->
  decode_recv (fast_imm tag rhandler) m payload length
  = Ok (IMM_DATA_MSG_EAGER, mk_eager tag rhandler length).
Proof.
  intros Ht Hr. destruct (fast_imm_fields tag rhandler Ht Hr) as (Hw & H1 & H2 & H3).
  unfold decode_recv. rewrite !get_bits32_field by (unfold valid_field, is_u32; lia).
  by rewrite H1, H2, H3.
Qed.

(** Without the fast-path bit and with message type zero, the metadata is the end
    of the payload. *)
Lemma decode_slow tag rhandler data m payload length :
  is_u64 tag -> is_u32 rhandler ->
  length = Z.of_nat (List.length (data ++ le_bytes 8 tag ++ le_bytes 4 rhandler)) ->
  length < 2 ^ 64 ->
  load_bytes m payload length = data ++ le_bytes 8 tag ++ le_bytes 4 rhandler ->
  decode_recv 0 m payload length
  = Ok (IMM_DATA_MSG_EAGER, mk_eager tag rhandler (Z.of_nat (List.length data))).
Proof.
  intros Ht Hr Hlen Hb Hm. rewrite !length_app, !length_le_bytes in Hlen. unfold decode_recv.
  rewrite !get_bits32_field by (unfold valid_field, is_u32; lia).
  cbn -[u64 load_le Z.sub].
  rewrite (u64_id (length - 4)) by (unfold is_u64; lia).
  rewrite (u64_id (length - 4 - 8)) by (unfold is_u64; lia).
  assert (Hd : Z.of_nat (List.length data) = length - 4 - 8) by lia.
  assert (Hrc : load_le 4 m (payload + (length - 4)) = rhandler).
  { unfold load_le. rewrite (load_bytes_sub m payload length), Hm by lia.
    rewrite app_assoc, <- (app_nil_r (le_bytes 4 rhandler)).
    rewrite take_drop_middle_app by (rewrite ?length_app, ?length_le_bytes; lia).
    apply of_le_le_bytes. unfold is_u32 in Hr. lia. }
  assert (Htg : load_le 8 m (payload + (length - 4 - 8)) = tag).
  { unfold load_le. rewrite (load_bytes_sub m payload length), Hm by lia.
    rewrite take_drop_middle_app by (rewrite ?length_le_bytes; lia).
    apply of_le_le_bytes. unfold is_u64 in Ht. lia. }
  by rewrite Hrc, Htg, <- Hd.
Qed.

(** The three cases of a send or an active message that is not large. *)
Lemma set_protocol_eager cf a t rhandler protocol piggyback :
  a_direction a = OUT -> t_local_buffer_only t = true -> 0 < rhandler ->
  0 <= a_size a -> a_size a + 12 < 2 ^ 64 -> mr_may_be_device_memory (a_mr a) = false ->
  set_protocol cf a t rhandler = (protocol, piggyback) -> protocol <> proto_rdv_zcopy ->
  piggyback = eager_payload_needs_metadata cf a rhandler /\ protocol <> proto_recv.
Proof.
  intros Hd Hlb Hr H0 Hs Hmr. unfold set_protocol.
  rewrite !bool_decide_eq_true_2 by done. rewrite Hlb, Hmr.
  rewrite (proj2 (Z.eqb_neq rhandler 0)) by lia. cbn [negb andb].
  destruct (eager_payload_needs_metadata cf a rhandler).
  - rewrite u64_id by (unfold is_u64; lia). rewrite (proj2 (Z.ltb_lt (a_size a) _)) by lia.
    rewrite orb_true_r, andb_false_r, andb_true_r. change (8 + 4) with 12. simpl.
    destruct (t_max_bcopy_size t <? a_size a + 12) eqn:E; [intros H; by simplify_eq|].
    replace (a_size a + 12 <=? t_max_bcopy_size t) with true by lia.
    intros H; by simplify_eq.
  - rewrite Z.ltb_irrefl, andb_true_r, orb_false_r.
    destruct (t_max_bcopy_size t <? a_size a); [intros H; by simplify_eq|].
    repeat destruct (_ && _); intros H; by simplify_eq.
Qed.

(** The immediate data and the message of an eager send determine its tag, handler
    and size for whoever finds the message in memory. *)
Lemma eager_decodes cf a t rhandler protocol piggyback data :
  imm_config cf -> a_direction a = OUT -> t_local_buffer_only t = true ->
  0 < rhandler < 2 ^ 32 -> is_u64 (a_tag a) -> a_size a = Z.of_nat (length data) ->
  a_size a + 12 < 2 ^ 64 -> mr_may_be_device_memory (a_mr a) = false ->
  set_protocol cf a t rhandler = (protocol, piggyback) -> protocol <> proto_rdv_zcopy ->
  let msg := eager_message data a rhandler piggyback in
  exists imm, set_immediate_data cf a protocol rhandler = Ok imm
    /\ forall m payload, load_bytes m payload (Z.of_nat (length msg)) = msg ->
         decode_recv imm m payload (Z.of_nat (length msg))
         = Ok (IMM_DATA_MSG_EAGER, mk_eager (a_tag a) rhandler (a_size a)).
Proof.
  intros Hcf Hd Hlb Hr Ht Hsz Hs Hmr Hp Hne msg.
  destruct (set_protocol_eager cf a t rhandler protocol piggyback Hd Hlb ltac:(lia) ltac:(lia) Hs Hmr Hp Hne)
    as [-> _].
  unfold msg, eager_message in *. unfold eager_payload_needs_metadata in *.
  rewrite bool_decide_eq_true_2, (proj2 (Z.eqb_neq rhandler 0)) in * by (done || lia).
  cbn [negb andb] in *.
  destruct ((cf_max_imm_tag cf <? a_tag a) || (cf_max_imm_rcomp cf <? rhandler)) eqn:E.
  - exists 0. split.
    + unfold set_immediate_data. rewrite decide_False by done.
      rewrite bool_decide_eq_true_2, (proj2 (Z.eqb_neq rhandler 0)) by (done || lia).
      cbn [negb andb].
      by replace ((a_tag a <=? cf_max_imm_tag cf) && (rhandler <=? cf_max_imm_rcomp cf))
        with false by lia.
    + intros m payload Hm. rewrite Hsz. apply decode_slow; try done; [unfold is_u32; lia|].
      rewrite !length_app, !length_le_bytes. lia.
  - unfold is_u64 in Ht.
    destruct (set_immediate_data_fast cf a protocol rhandler) as (Hi & Ht' & Hr'); try done; try lia.
    exists (fast_imm (a_tag a) rhandler). split; [done|]. intros m payload _.
    rewrite decode_fast by done. by rewrite app_nil_r, Hsz.
Qed.

(** C30: with at most 16 bits of tag and 15 bits of handler in the immediate data, and for a
    buffer that is not marked as unregistered or device memory, the tag and the remote
    handler of an eager send or active message survive
    the wire: whatever of the eager protocols is chosen, if the message that is
    sent (the data, with the metadata appended when it does not fit in immediate
    data) is what the receiver finds in its packet, then the receiver decodes an
    eager message with the sender's tag, handler and data size. A message that is
    sent by rendezvous is decoded as a request to send. *)
Theorem eager_metadata_roundtrip cf a t rhandler protocol piggyback data m payload :
  imm_config cf -> a_direction a = OUT -> t_local_buffer_only t = true ->
  0 < rhandler < 2 ^ 32 -> is_u64 (a_tag a) -> a_size a = Z.of_nat (length data) ->
  a_size a + 12 < 2 ^ 64 -> mr_may_be_device_memory (a_mr a) = false ->
  set_protocol cf a t rhandler = (protocol, piggyback) ->
  let msg := eager_message data a rhandler piggyback in
  load_bytes m payload (Z.of_nat (length msg)) = msg ->
  exists imm, set_immediate_data cf a protocol rhandler = Ok imm
    /\ decode_recv imm m payload (Z.of_nat (length msg))
       = Ok (if decide (protocol = proto_rdv_zcopy)
             then (IMM_DATA_MSG_RTS, mk_eager 0 0 (Z.of_nat (length msg)))
             else (IMM_DATA_MSG_EAGER, mk_eager (a_tag a) rhandler (a_size a))).
Proof.
  intros Hcf Hd Hlb Hr Ht Hsz Hs Hmr Hp msg Hm.
  destruct (decide (protocol = proto_rdv_zcopy)) as [-> | Hne].
  - exists (field_set 0 IMM_DATA_MSG_RTS 2 29). split; [vm_compute; reflexivity|].
    unfold decode_recv. vm_compute (field_set _ _ _ _).
    rewrite !get_bits32_field by (unfold valid_field; lia). reflexivity.
  - destruct (eager_decodes cf a t rhandler protocol piggyback data) as (imm & Hi & Hdec); try done.
    exists imm. split; [done|]. by apply Hdec.
Qed.

(** The default attributes, with 4096-byte packets. *)
Definition demo_lctx : packet_local_context_t := mk_lctx 0 0 false false 0 0 0.
Definition demo_config : config :=
  mk_config (2 ^ 16 - 1) (2 ^ 15 - 1) 16 15 4096 false 64 (2 ^ 23) 64 16 0 40 4096 demo_lctx.
Definition demo_traits : post_comm_traits_t := mk_traits true true false 64 4020.
(** A send of three bytes to rank 1 with a tag that needs 17 bits. *)
Definition demo_args (tag mr : Z) : post_comm_args_t :=
  mk_args OUT 1 100 3 COMP_NULL 512 1 sem_memory mr 0 RMR_NULL tag 0 0 mp_rank_tag true true true.
(** A memory that holds the given bytes from an address on. *)
Definition memory_with (a : Z) (bs : list Z) : memory := store_bytes a bs (fun _ => 0).

Lemma eager_metadata_roundtrip_witness :
  exists imm, set_immediate_data demo_config (demo_args 70000 MR_HOST) proto_eager_bcopy 4 = Ok imm
    /\ decode_recv imm (memory_with 8000 (eager_message [7; 8; 9] (demo_args 70000 MR_HOST) 4 true))
         8000 15 = Ok (IMM_DATA_MSG_EAGER, mk_eager 70000 4 3).
Proof.
  apply (eager_metadata_roundtrip demo_config (demo_args 70000 MR_HOST) demo_traits 4
           proto_eager_bcopy true [7; 8; 9]
           (memory_with 8000 (eager_message [7; 8; 9] (demo_args 70000 MR_HOST) 4 true)) 8000).
  - split; simpl; lia.
  - reflexivity.
  - reflexivity.
  - lia.
  - unfold is_u64. simpl. lia.
  - reflexivity.
  - simpl. lia.
  - reflexivity.
  - vm_compute. reflexivity.
  - vm_compute. reflexivity.
Defined.

(** The runtime accepts any split of the 31 bits between tag and handler, but
    the receiver decodes 16 bits of tag and 15 of handler: with 20 and 11 bits the
    immediate data of tag 65541, which is below the advertised maximum, is decoded
    with tag 5. *)
Theorem imm_split_misdecoded :
  let cf := mk_config (2 ^ 20 - 1) (2 ^ 11 - 1) 20 11 4096 false 64 (2 ^ 23) 64 16 0 40 4096 demo_lctx in
  cf_imm_nbits_tag cf + cf_imm_nbits_rcomp cf <= 31
  /\ exists imm, set_immediate_data cf (demo_args 65541 MR_HOST) proto_inject 4 = Ok imm
       /\ forall m payload length,
            decode_recv imm m payload length
            = Ok (IMM_DATA_MSG_EAGER, mk_eager 5 4 length).
Proof.
  split; [simpl; lia|]. eexists. split; [vm_compute; reflexivity|].
  intros m payload length. reflexivity.
Qed.

(** In a build without accelerator support, a send with [MR_UNKNOWN] and a
    tag beyond the immediate-data limit goes out by the zero-copy protocol with
    nothing but the user's data, while its immediate data tells the receiver to
    take tag and handler from the end of the payload: the receiver reads them from
    the user's last twelve bytes. *)
Theorem unknown_mr_loses_metadata (data m : list Z) (mem : memory) payload tag :
  2 ^ 16 <= tag < 2 ^ 64 -> length data = 3%nat -> length m = 12%nat ->
  let a := mk_args OUT 1 100 15 COMP_NULL 512 1 sem_memory MR_UNKNOWN 0 RMR_NULL tag 0 0
             mp_rank_tag true true true in
  load_bytes mem payload 15 = data ++ m ->
  set_protocol demo_config a demo_traits 4 = (proto_eager_zcopy, false)
  /\ set_immediate_data demo_config a proto_eager_zcopy 4 = Ok 0
  /\ decode_recv 0 mem payload 15
     = Ok (IMM_DATA_MSG_EAGER, mk_eager (of_le_bytes (take 8 m)) (of_le_bytes (drop 8 m)) 3).
Proof.
  intros Ht Hd Hm a Hl.
  assert (Hneed : eager_payload_needs_metadata demo_config a 4 = true).
  { unfold eager_payload_needs_metadata. simpl. lia. }
  split_and!.
  - unfold set_protocol. rewrite Hneed. reflexivity.
  - unfold set_immediate_data. rewrite decide_False by done.
    change (cf_max_imm_tag demo_config) with 65535. cbn [a a_tag].
    by rewrite (proj2 (Z.leb_gt tag 65535)) by lia.
  - unfold decode_recv. rewrite !get_bits32_field by (unfold valid_field; lia).
    change (negb (field_get 0 1 31 =? 0)) with false.
    change (field_get 0 2 29 =? IMM_DATA_MSG_EAGER) with true. cbn iota.
    change (u64 (15 - 4)) with 11. change (u64 (11 - 8)) with 3.
    unfold load_le. rewrite !(load_bytes_sub mem payload 15), Hl by lia.
    assert (H3 : drop 3 (data ++ m) = m) by (by rewrite <- Hd, drop_app_length).
    assert (H11 : drop (Z.to_nat 11) (data ++ m) = drop 8 m) by (by rewrite <- H3 at 2; rewrite drop_drop).
    change (Z.to_nat 3) with 3%nat. rewrite H3, H11.
    rewrite (take_ge (drop 8 m)) by (rewrite length_drop; lia). done.
Qed.

Lemma unknown_mr_loses_metadata_witness :
  let a := mk_args OUT 1 100 15 COMP_NULL 512 1 sem_memory MR_UNKNOWN 0 RMR_NULL 70000 0 0
             mp_rank_tag true true true in
  set_protocol demo_config a demo_traits 4 = (proto_eager_zcopy, false)
  /\ decode_recv 0 (memory_with 8000 ([1; 2; 3] ++ [4; 0; 0; 0; 0; 0; 0; 0; 9; 0; 0; 0])) 8000 15
     = Ok (IMM_DATA_MSG_EAGER, mk_eager 4 9 3).
Proof.
  destruct (unknown_mr_loses_metadata [1; 2; 3] [4; 0; 0; 0; 0; 0; 0; 0; 9; 0; 0; 0]
    (memory_with 8000 ([1; 2; 3] ++ [4; 0; 0; 0; 0; 0; 0; 0; 9; 0; 0; 0])) 8000 70000)
    as (H1 & _ & H3); [lia|reflexivity|reflexivity|vm_compute; reflexivity|].
  split; [exact H1|exact H3].
Defined.
