(* ===== verification/Demo.v ===== *)
(** * Two small processes

    The concrete processes at which the theorems on whole processes are applied:
    rank 0, which has three bytes to send, and rank 1, which has a packet posted to
    the network. Both have the default attributes, a pool of four packets, a
    map-based matching engine at address 512 with its handlers, and a completion
    queue at address 600. *)
From stdpp Require Import base numbers list gmap strings.
From Stdlib Require Import ZArith Lia.
From S2P Require Import Prelude Bits Status MpmcArray MatchSpec MatchMap RhandlerRegistry.
From S2P Require Import ImmTagArchive MpmcSet PacketPool Comp Memory Net Endpoint Backlog Process.
From S2P Require Import Rendezvous Progress Communicate Protocol.

#[local] Abbreviation process := (proc unit matching_engine_map_t).

(** The value of a computation that succeeds. *)
Definition or_default {A} (d : A) (r : result A) : A := match r with Ok a => a | Err _ => d end.

Definition demo_pool : packet_pool_impl_t :=
  or_default (mk_pool demo_attr (mpmc_set_new 1024) 0 0 0 (mpmc_array_new 0 64) 0 ∅)
    (packet_pool_new 40 demo_attr 4096 0).
Definition demo_registry : Z * rhandler_registry_t :=
  or_default (0, registry_new) (register_engine 512 registry_new).

Definition demo_envs : nat -> steal_env := fun _ => demo_env.
Definition demo_proc (m : memory) (q : packet_pool_impl_t) : process :=
  mk_proc (mk_nstate m 10000 ∅ ∅ (backlog_queue_new 2) tt []) q demo_registry.2
    {[512 := map_engine_new]} (mk_archive 0 0 0 [] 0) {[600 := comp_cq false []]} ∅ 0 0 false 0 [].

(** A backend that takes every operation, and one that wants everything retried. *)
Definition taking (op : net_op_t) (h : bool) (m : memory) (b : unit) : errorcode_t * unit :=
  (if is_short (no_op op) then ec_done else ec_posted, tt).
Definition refusing (op : net_op_t) (h : bool) (m : memory) (b : unit) : errorcode_t * unit :=
  (ec_retry, tt).
Definition no_events (n : nat) (m : memory) (b : unit) : list net_status_t * memory * unit :=
  ([], m, b).
Definition no_recvs (l : list Z) (n mr : Z) (b : unit) : nat * unit := (0%nat, b).

Lemma demo_pool_inv : pool_inv 40 4096 demo_lctx [] demo_pool.
Proof.
  destruct (packet_pool_new_ok 40 4096 demo_lctx demo_attr 4096 0) as (p & E & H & _);
    [unfold LCI_CACHE_LINE; simpl; lia..|].
  unfold demo_pool. by rewrite E.
Qed.

(** Rank 0, with its packets registered and three bytes at address 100. *)
Definition demo_sender : process :=
  let p := demo_proc (memory_with 100 [7; 8; 9]) demo_pool in
  or_default p (match register_packets demo_config p with Ok (_, p) => Ok p | Err f => Err f end).

(** Its send of these bytes to rank 1, which may not be retried. *)
Definition demo_send (tag : Z) : post_comm_args_t :=
  mk_args OUT 1 100 3 600 512 demo_registry.1 sem_memory MR_HOST 0 RMR_NULL tag 0 0 mp_rank_tag
    true true false.

(** Rank 1: a packet is with the network, which puts [msg] in it. *)
Definition demo_got : Z * packet_pool_impl_t :=
  or_default (0, demo_pool) (pool_get 4096 demo_lctx demo_env 0 true demo_pool).
Definition demo_receiver (msg : list Z) : process :=
  demo_proc (memory_with (payload demo_config demo_got.1) msg) demo_got.2.

(** Its receive from rank 0 into address 9000. *)
Definition demo_recv (tag : Z) : post_comm_args_t :=
  mk_args IN 0 9000 16 600 512 demo_registry.1 sem_memory MR_HOST 0 RMR_NULL tag 0 77 mp_rank_tag
    true true false.
