(* ===== verification/PostComm.v ===== *)
(** * What a post returns

    The category of the status that [post_comm] returns, for every state it may
    be called in. *)
From stdpp Require Import base numbers list gmap strings.
From Stdlib Require Import ZArith Lia.
From S2P Require Import Prelude Bits Status MpmcArray MatchSpec MatchMap RhandlerRegistry ImmTagArchive.
From S2P Require Import MpmcSet PacketPool Comp Memory Net Endpoint Process Rendezvous Progress.
From S2P Require Import Communicate Protocol Demo.

(** [yields Q m]: whatever [m] returns satisfies [Q]. *)
Definition yields {S A} (Q : A -> Prop) (m : ST S A) : Prop :=
  forall s a s', m s = Ok (a, s') -> Q a.

Lemma yields_bind {S A B} (Q : B -> Prop) (m : ST S A) (k : A -> ST S B) :
  (forall a, yields Q (k a)) -> yields Q (m ≫= k).
Proof. intros Hk s b s' H. inv_ok. by eapply Hk. Qed.
Lemma yields_bind_with {S A B} (R : A -> Prop) (Q : B -> Prop) (m : ST S A) (k : A -> ST S B) :
  yields R m -> (forall a, R a -> yields Q (k a)) -> yields Q (m ≫= k).
Proof. intros Hm Hk s b s' H. inv_ok. eapply Hk; eauto. Qed.
Lemma yields_ret {S A} (Q : A -> Prop) (a : A) : Q a -> yields (S := S) Q (mret a).
Proof. intros H s x s' [= <- <-]. done. Qed.
Lemma yields_if {S A} (Q : A -> Prop) (b : bool) (m m' : ST S A) :
  (b = true -> yields Q m) -> (b = false -> yields Q m') -> yields Q (if b then m else m').
Proof. destruct b; auto. Qed.
Lemma yields_fail {S A} (Q : A -> Prop) f : yields (S := S) (A := A) Q (fail_with f).
Proof. intros s a s' H. discriminate. Qed.
Lemma yields_in_net {B E A} (Q : A -> Prop) (m : ST (nstate B) A) :
  yields Q m -> yields (S := proc B E) Q (in_net m).
Proof.
  intros H p a p'. unfold in_net. destruct (m (p_net p)) as [[x n]|] eqn:Em; [|done].
  intros [= <- <-]. by eapply H.
Qed.

Create HintDb yields discriminated.
#[export] Hint Resolve yields_bind yields_ret yields_if yields_fail yields_in_net : yields.

Definition no_retry (e : errorcode_t) : Prop := is_retry e = false.

Section Flags.
Context {B E : Type} `{!MatchingEngine E}.
Variable cf : config.
Variable envs : nat -> steal_env.
Variable tid : nat.
Variable get_rkey : Z -> Z.
Variable post_impl : net_op_t -> bool -> memory -> B -> errorcode_t * B.
Variable support_putimm : bool.
Variable poll_comp_impl : nat -> memory -> B -> list net_status_t * memory * B.
Variable post_recvs_impl : list Z -> Z -> Z -> B -> nat * B.

#[local] Abbreviation post_comm :=
  (post_comm (E := E) cf envs tid get_rkey post_impl support_putimm poll_comp_impl post_recvs_impl).

(** ** Posts that may not be retried are not *)

Lemma post_or_park_no_retry rank impl push code force_post :
  is_retry code = false ->
  yields (S := nstate B) no_retry (post_or_park rank impl push code false force_post).
Proof.
  intros Hc. apply yields_bind. intros e. apply yields_if; intros He.
  - apply yields_bind. intros _. by apply yields_ret.
  - by apply yields_ret.
Qed.

Lemma endpoint_no_retry (allow_retry : bool) :
  allow_retry = false ->
  (forall r b s i u f, yields no_retry (post_sends post_impl r b s i u allow_retry f))
  /\ (forall r b s m i u f, yields no_retry (post_send post_impl r b s m i u allow_retry f))
  /\ (forall r b s o k u f, yields no_retry (post_puts post_impl r b s o k u allow_retry f))
  /\ (forall r b s m o k u f, yields no_retry (post_put post_impl r b s m o k u allow_retry f))
  /\ (forall r b s o k i u f,
        yields no_retry (post_putImms post_impl support_putimm r b s o k i u allow_retry f))
  /\ (forall r b s m o k i u f,
        yields no_retry (post_putImm post_impl support_putimm r b s m o k i u allow_retry f))
  /\ (forall r b s m o k u f,
        yields no_retry (Endpoint.post_get post_impl r b s m o k u allow_retry f)).
Proof. intros ->. split_and!; intros; by apply post_or_park_no_retry. Qed.

Lemma post_inject_no_retry a t s :
  a_allow_retry a = false -> yields (S := proc B E) no_retry (post_inject post_impl support_putimm a t s).
Proof.
  intros Ha. destruct (endpoint_no_retry _ Ha) as (H1 & H2 & H3 & H4 & H5 & H6 & H7).
  apply yields_in_net. repeat (apply yields_if; intros _); auto.
Qed.

Lemma post_zcopy_no_retry a t s :
  a_allow_retry a = false -> yields (S := proc B E) no_retry (post_zcopy post_impl support_putimm a t s).
Proof.
  intros Ha. destruct (endpoint_no_retry _ Ha) as (H1 & H2 & H3 & H4 & H5 & H6 & H7).
  apply yields_in_net. repeat (apply yields_if; intros _); auto.
Qed.

Lemma post_bcopy_no_retry a t s :
  a_allow_retry a = false -> yields (S := proc B E) no_retry (post_bcopy cf post_impl support_putimm a t s).
Proof.
  intros Ha. destruct (endpoint_no_retry _ Ha) as (H1 & H2 & H3 & H4 & H5 & H6 & H7).
  apply yields_bind. intros mr. eapply (yields_bind_with no_retry).
  - apply yields_in_net. repeat (apply yields_if; intros _); auto.
  - intros e He. apply yields_ret. by destruct (_ && _).
Qed.

Lemma post_rdv_no_retry a t s :
  a_allow_retry a = false -> yields (S := proc B E) no_retry (post_rdv cf post_impl a t s).
Proof.
  intros Ha. destruct (endpoint_no_retry _ Ha) as (H1 & H2 & _).
  apply yields_bind. intros p_rts. apply yields_bind. intros _.
  eapply (yields_bind_with no_retry).
  - apply yields_if; intros _.
    + eapply (yields_bind_with no_retry); [apply yields_in_net; auto|].
      intros e He. apply yields_bind. intros _. by apply yields_ret.
    + apply yields_bind. intros mr. apply yields_in_net. auto.
  - intros e He. apply yields_ret. by destruct (is_done e).
Qed.

Lemma post_get_op_no_retry a s :
  a_allow_retry a = false -> yields (S := proc B E) no_retry (post_get_op cf post_impl a s).
Proof.
  intros Ha. destruct (endpoint_no_retry _ Ha) as (H1 & H2 & H3 & H4 & H5 & H6 & H7).
  unfold post_get_op. destruct (decide _); [apply yields_bind; intros mr|]; apply yields_in_net; auto.
Qed.

(** A receive that meets a send is done, or goes on as a rendezvous. *)
Lemma handle_matched_status packet ctx st :
  yields (S := proc B E) (fun r => exists st', r = Some st' /\ no_retry (st_error st'))
    (handle_matched_sendrecv cf tid get_rkey post_impl packet ctx (Some st)).
Proof.
  apply yields_bind. intros h. apply yields_if; intros _.
  - repeat (apply yields_bind; intros ?). apply yields_ret. eexists. split; [done|]. done.
  - apply yields_bind. intros ?. apply yields_ret. eexists. split; [done|]. done.
Qed.

Lemma post_recv_no_retry a s :
  yields (S := proc B E) (fun r => no_retry r.1) (post_recv cf tid get_rkey post_impl a s).
Proof.
  apply yields_bind. intros key. apply yields_bind. intros ret. apply yields_if; intros _.
  - eapply yields_bind_with; [apply handle_matched_status|].
    intros r (st' & -> & Hst). by apply yields_ret.
  - by apply yields_ret.
Qed.

Lemma post_network_op_no_retry a t s :
  a_allow_retry a = false ->
  yields (S := proc B E) (fun r => no_retry r.1)
    (post_network_op cf tid get_rkey post_impl support_putimm a t s).
Proof.
  intros Ha. unfold post_network_op. destruct (a_direction a).
  - eapply (yields_bind_with no_retry); [|intros e He; by apply yields_ret].
    destruct (s_protocol s); auto using post_inject_no_retry, post_bcopy_no_retry,
      post_zcopy_no_retry, post_rdv_no_retry.
  - destruct (s_protocol s); try apply post_recv_no_retry;
      (eapply (yields_bind_with no_retry); [by apply post_get_op_no_retry|]);
      intros e He; by apply yields_ret.
Qed.

(** A blocking request for a packet does not come back without one. *)
Lemma get_packet_blocking : yields (S := proc B E) (fun a => a <> 0) (get_packet cf envs tid true).
Proof.
  apply yields_bind. intros t. apply yields_bind. intros _. intros p a p' H.
  unfold in_pool, pool_get in H.
  destruct (pool_get_n _ _ _ _ _ _ _) as [[rets q]|] eqn:Eg; [|done].
  simpl in H. injection H as <- <-. unfold pool_get_n in Eg.
  apply bind_Ok in Eg as ([l s] & _ & Eg). apply bind_Ok in Eg as (? & H1 & Eg).
  apply bind_Ok in Eg as (? & H2 & Eg). injection Eg as <- <-.
  apply LCI_Assert_Ok in H1, H2. destruct l as [|y l]; simpl in *; [done|].
  apply andb_true_iff in H2 as [H2 _]. lia.
Qed.

Lemma set_packet_no_retry a t protocol rhandler piggyback :
  a_allow_retry a = false ->
  yields (S := proc B E) (fun r => no_retry r.1)
    (set_packet_if_needed cf envs tid a t protocol rhandler piggyback).
Proof.
  intros Ha. apply yields_bind. intros q. apply yields_if; intros Hp; [by apply yields_ret|].
  rewrite Ha. eapply (yields_bind_with is_Some).
  - apply yields_if; intros _; [by apply yields_ret|].
    eapply yields_bind_with; [apply get_packet_blocking|]. intros x Hx. apply yields_ret.
    by rewrite (proj2 (Z.eqb_neq x 0)).
  - intros o [x ->]. destruct (decide _); [by apply yields_ret|].
    destruct (decide _); [apply yields_bind; intros ?|]; by apply yields_ret.
Qed.

Lemma check_backlog_no_retry a protocol :
  a_allow_retry a = false ->
  yields (S := proc B E) no_retry (check_backlog a protocol).
Proof.
  intros Ha. apply yields_bind. intros e. apply yields_ret. rewrite Ha.
  by rewrite andb_false_r.
Qed.

(** ** The status *)

(** What the flags forbid. *)
Definition flags_ok (a : post_comm_args_t) (e : errorcode_t) : Prop :=
  (a_allow_posted a = false -> is_posted e = false)
  /\ (a_allow_done a = false -> is_done e = false)
  /\ (a_allow_retry a = false -> is_retry e = false).

Definition status_ok (a : post_comm_args_t) (r : thrown + status_t) : Prop :=
  match r with inl _ => True | inr st => flags_ok a (st_error st) end.

Lemma exit_handler_flags fuel error a s :
  a_allow_posted a || a_allow_done a = true ->
  (a_allow_retry a = false -> is_retry error = false) ->
  yields (S := proc B E) (status_ok a)
    (exit_handler cf envs tid get_rkey post_impl support_putimm poll_comp_impl post_recvs_impl
       fuel error a s).
Proof.
  intros Hd Hr. do 2 (apply yields_bind; intros _).
  eapply (yields_bind_with (fun r : thrown + status_t => match r with
    | inl _ => True
    | inr st => (a_allow_posted a = false -> is_posted (st_error st) = false)
                /\ (a_allow_retry a = false -> is_retry (st_error st) = false) end)).
  - apply yields_if; intros Hp.
    + apply yields_bind. intros [th|st]; by apply yields_ret.
    + apply yields_ret. split; [|done]. simpl. intros Hq. rewrite Hq in Hp.
      by rewrite andb_true_r in Hp.
  - intros [th|st] Hst; [by apply yields_ret|]. destruct Hst as [Hst1 Hst2].
    apply yields_bind. intros _. apply yields_if; intros Hx.
    + apply andb_true_iff in Hx as [_ Hx]. apply negb_true_iff in Hx.
      apply yields_bind. intros _. apply yields_ret. rewrite Hx in Hd. split; [|done].
      intros Hq. by rewrite Hq in Hd.
    + apply yields_ret. split_and!; try done. intros Hq. rewrite Hq in Hx.
      by rewrite andb_true_r in Hx.
Qed.

(** C29: whatever state the process is in and whatever the network does, a post
    that returns a status respects the flags of its call: it is never posted
    without [allow_posted], never done without [allow_done] and never a retry
    without [allow_retry]; [COMP_NULL] forbids posted and retry, [COMP_NULL_RETRY]
    forbids posted. *)
Theorem post_comm_respects_flags fuel args p st p' :
  post_comm fuel args p = Ok (inr st, p') ->
  flags_ok (preprocess_args args) (st_error st)
  /\ (a_local_comp args = COMP_NULL ->
      is_posted (st_error st) = false /\ is_retry (st_error st) = false)
  /\ (a_local_comp args = COMP_NULL_RETRY -> is_posted (st_error st) = false).
Proof.
  intros H.
  assert (Hf : yields (S := proc B E) (status_ok (preprocess_args args)) (post_comm fuel args)).
  { clear H. apply yields_bind. intros q.
    eapply (yields_bind_with (fun _ =>
      a_allow_posted (preprocess_args args) || a_allow_done (preprocess_args args) = true)).
    - intros s t s' Ht. unfold lift in Ht.
      destruct (validate_and_get_traits _ _ _) as [t'|] eqn:Ev; [|done].
      unfold validate_and_get_traits in Ev. inv_ok. done.
    - intros t Hd. cbv zeta. destruct (set_protocol _ _ _ _) as [protocol piggyback].
      eapply (yields_bind_with (fun e => a_allow_retry (preprocess_args args) = false -> no_retry e)).
      { intros s e s' He Ha. by eapply check_backlog_no_retry. }
      intros e He. apply yields_if; intros _; [by apply exit_handler_flags|].
      eapply (yields_bind_with (fun r => a_allow_retry (preprocess_args args) = false -> no_retry r.1)).
      { intros s r s' Hr Ha. by eapply set_packet_no_retry. }
      intros [e' i] He'. apply yields_if; intros _; [by apply exit_handler_flags|].
      do 2 (apply yields_bind; intros ?). apply yields_bind. intros [[ctx passed] mr].
      eapply (yields_bind_with (fun r => a_allow_retry (preprocess_args args) = false -> no_retry r.1)).
      { intros s r s' Hr Ha. by eapply post_network_op_no_retry. }
      intros [e'' st'] He''. by apply exit_handler_flags. }
  specialize (Hf _ _ _ H). simpl in Hf. split; [done|].
  destruct Hf as (H1 & H2 & H3). unfold preprocess_args in *. split.
  - intros Hc. rewrite Hc in *. simpl in *. auto.
  - intros Hc. rewrite Hc in *. simpl in *. by apply H1.
Qed.
End Flags.

(** A send that the network takes at once, with [COMP_NULL]. *)
Lemma post_comm_respects_flags_witness :
  exists st p', post_comm demo_config demo_envs 0 (fun _ => 0) taking false no_events no_recvs 0
                  (demo_args 5 MR_HOST) demo_sender = Ok (inr st, p')
    /\ flags_ok (preprocess_args (demo_args 5 MR_HOST)) (st_error st)
    /\ is_posted (st_error st) = false /\ is_retry (st_error st) = false.
Proof.
  destruct (post_comm demo_config demo_envs 0 (fun _ => 0) taking false no_events no_recvs 0
              (demo_args 5 MR_HOST) demo_sender) as [[[th|st] p']|f] eqn:E;
    [exfalso; vm_compute in E; discriminate| |exfalso; vm_compute in E; discriminate].
  exists st, p'. split; [reflexivity|].
  destruct (post_comm_respects_flags demo_config demo_envs 0 (fun _ => 0) taking false no_events
              no_recvs 0 (demo_args 5 MR_HOST) demo_sender st p' E) as (H1 & H2 & _).
  split; [exact H1|]. apply H2. reflexivity.
Defined.
