(* ===== verification/ProcessLaws.v ===== *)
(** * Laws of the process state

    What the shared operations of Process.v do, as equations on the state, for a
    packet pool whose invariant holds. *)
From stdpp Require Import base numbers list gmap strings.
From Stdlib Require Import ZArith Lia.
From S2P Require Import Prelude Status MpmcArray MatchSpec RhandlerRegistry MpmcSet PacketPool.
From S2P Require Import Comp Memory Net Process.

Section Laws.
Context {B E : Type} `{!MatchingEngine E}.
Variable cf : config.
Variable tid : nat.
Implicit Types p : proc B E.

#[local] Abbreviation inv := (pool_inv (cf_sizeof_lctx cf) (cf_pool cf) (cf_garbage cf)).
#[local] Abbreviation hdr := (header (cf_garbage cf)).

(** ** Packet pool *)

(** What a pool keeps when packets come and go. *)
Definition same_pool (q q' : packet_pool_impl_t) : Prop :=
  attr q' = attr q /\ heap q' = heap q /\ base_packet_p q' = base_packet_p q
  /\ heap_size q' = heap_size q /\ mrs q' = mrs q /\ npacket_lost q' = npacket_lost q.

#[global] Instance same_pool_preorder : PreOrder same_pool.
Proof.
  split; [by intros q; repeat split|].
  intros q1 q2 q3 (?&?&?&?&?&?) (?&?&?&?&?&?). repeat split; congruence.
Qed.

Lemma same_pool_packets q q' : same_pool q q' -> all_packets q' = all_packets q.
Proof. intros (Ha & _ & Hb & _). unfold all_packets. by rewrite Ha, Hb. Qed.

Lemma pool_put_frame current a q q' :
  pool_put (cf_sizeof_lctx cf) (cf_garbage cf) current a q = Ok q' ->
  same_pool q q' /\ forall b, b <> a -> hdr q' b = hdr q b.
Proof.
  intros H. unfold pool_put in H. inv_ok. split; [done|]. intros b Hb. unfold header. simpl.
  by rewrite lookup_insert_ne.
Qed.

Lemma pool_get_spec held env b q packet q' :
  inv held q -> pool_get (cf_pool cf) (cf_garbage cf) env tid b q = Ok (packet, q') ->
  packet <> 0 -> inv (packet :: held) q' /\ same_pool q q'.
Proof.
  intros Hi Hg Hnz. unfold pool_get in Hg. apply bind_Ok in Hg as ([rets q1] & Hg & Hr).
  injection Hr as <- <-.
  destruct (pool_get_n_inv _ _ _ held env tid 1 b q rets q1 Hi Hg) as (Hi1 & _ & _).
  unfold pool_get_n in Hg. set (k := if b then _ else _) in Hg.
  destruct (get_n_spec env tid 1 k (pool q) (pi_set _ _ _ _ _ Hi))
    as (rets' & s & Eg & _ & _ & Hlen & _).
  rewrite Eg in Hg. cbn [mbind result_bind] in Hg.
  apply bind_Ok in Hg as (? & _ & Hg). apply bind_Ok in Hg as (? & _ & Hg).
  injection Hg as <- <-. split; [|done].
  destruct rets' as [|x1 [|x2 l]]; simpl in *; [done|done|lia].
Qed.

Definition set_header (a : Z) (c : packet_local_context_t) (q : packet_pool_impl_t) :
    packet_pool_impl_t := with_pool (pool q) (<[a := c]> (headers q)) q.

Lemma set_header_inv held a c q :
  inv held q -> lc_isInPool c = false -> lc_pool c = cf_pool cf -> inv held (set_header a c q).
Proof.
  intros [Hl Hs Hall Hout] Hi Hp. split; simpl; [by destruct Hl; split|done|done|].
  intros b Hb. unfold header. simpl. destruct (decide (b = a)) as [-> | Hne].
  - by rewrite lookup_insert_eq.
  - rewrite lookup_insert_ne by done. by apply Hout.
Qed.

Lemma set_header_same a c q : same_pool q (set_header a c q).
Proof. by repeat split. Qed.
Lemma set_header_eq a c q : hdr (set_header a c q) a = c.
Proof. unfold header. simpl. by rewrite lookup_insert_eq. Qed.
Lemma set_header_ne a b c q : b <> a -> hdr (set_header a c q) b = hdr q b.
Proof. intros H. unfold header. simpl. by rewrite lookup_insert_ne. Qed.

Lemma put_back_eq held a p :
  inv (a :: held) (p_pool p) ->
  exists q, put_back cf tid a p = Ok (tt, set_pool q p) /\ inv held q /\ same_pool (p_pool p) q
    /\ forall b, b <> a -> hdr q b = hdr (p_pool p) b.
Proof.
  intros Hi. destruct (pool_put_spec _ _ _ held a (p_pool p) tid Hi) as (q & Hq & Hi' & _).
  destruct (pool_put_frame _ _ _ _ Hq) as [Hs Hf].
  exists q. split_and!; try done. unfold put_back.
  rewrite (st_bind_eq _ _ p (hdr (p_pool p) a) p) by done.
  destruct (pi_out _ _ _ _ _ Hi a) as [_ Hp]; [by left|]. rewrite Hp, Z.eqb_refl.
  unfold in_pool. by rewrite Hq.
Qed.

Lemma set_lctx_eq a c p : set_lctx a c p = Ok (tt, set_pool (set_header a c (p_pool p)) p).
Proof. done. Qed.

(** ** Memory *)

Definition with_mem (m : memory) p : proc B E := set_net (set_mem m (p_net p)) p.

Lemma write_mem_eq f p : write_mem f p = Ok (tt, with_mem (f (ns_mem (p_net p))) p).
Proof. done. Qed.

(** ** Contexts *)

Lemma plain_ctx_eq a c p :
  ns_ctxs (p_net p) !! a = Some (Plain c) -> plain_ctx a p = Ok (c, p).
Proof.
  intros H. unfold plain_ctx. rewrite (st_bind_eq _ _ p (Plain c) p); [done|].
  unfold in_net, read_ctx. rewrite H. by destruct p.
Qed.

(** The state after a context that owns neither a region nor a packet is gone. *)
Definition without_ctx (a : Z) (c : internal_context_t) p : proc B E :=
  set_pending (if ic_is_user_posted_op c then Counter.i64 (p_pending p + -1) else p_pending p)
    (set_net (set_ctxs (delete a (ns_ctxs (p_net p))) (p_net p)) p).

Lemma delete_ctx_eq a c p :
  ns_ctxs (p_net p) !! a = Some (Plain c) ->
  ic_mr_on_the_fly c = false -> ic_packet_to_free c = 0 ->
  delete_ctx cf tid a p = Ok (tt, without_ctx a c p).
Proof.
  intros Hc Hm Hp. unfold delete_ctx.
  rewrite (st_bind_eq _ _ _ _ _ (plain_ctx_eq _ _ _ Hc)). rewrite Hm, Hp. simpl.
  unfold without_ctx. destruct (ic_is_user_posted_op c).
  - rewrite (st_bind_eq _ _ p tt p) by done. rewrite (st_bind_eq _ _ p tt p) by done.
    rewrite (st_bind_eq _ _ p tt (set_pending (Counter.i64 (p_pending p + -1)) p)) by done.
    unfold in_net, drop_ctx. simpl. by rewrite Hc.
  - rewrite !(st_bind_eq _ _ p tt p) by done. unfold in_net, drop_ctx. rewrite Hc. by destruct p.
Qed.

(** ** Completion objects *)

Definition signalled (comp : Z) (st : status_t) (c' : comp_impl_t) p : proc B E :=
  set_comps (<[comp := c']> (p_comps p)) (p_signals p ++ [(comp, st)]) p.

Lemma signal_comp_eq comp st c c' p :
  p_comps p !! comp = Some c -> comp_signal st c = Ok c' ->
  signal_comp comp st p = Ok (tt, signalled comp st c' p).
Proof. intros H1 H2. unfold signal_comp. by rewrite H1, H2. Qed.

(** Handlers, counters and queues take every status that is done. *)
Lemma comp_signal_total st c :
  is_done (st_error st) = true ->
  match c with comp_sync _ _ => False | _ => True end ->
  exists c', comp_signal st c = Ok c'.
Proof.
  intros Hd. destruct c; simpl; try done; intros _; eauto.
  unfold Cq.signal. rewrite Hd. simpl. eauto.
Qed.

(** ** Matching engines *)

Lemma matching_insert_eq eng e key v t p :
  p_engines p !! eng = Some e -> engine_inv e -> is_u64 key -> v <> 0 ->
  exists e', matching_insert eng key v t p
    = Ok ((spec_insert key v t (engine_pending e)).1, set_engines (<[eng := e']> (p_engines p)) p)
    /\ engine_inv e' /\ engine_pending e' ≡ (spec_insert key v t (engine_pending e)).2.
Proof.
  intros He Hi Hk Hv. destruct (engine_insert_ok e key v t Hi Hk Hv) as (r & e' & H1 & H2 & -> & H4).
  exists e'. unfold matching_insert. by rewrite He, H1.
Qed.
End Laws.
