(* ===== verification/EagerDelivery.v ===== *)
(** * Delivery of eager messages

    A send that arrives and a receive that is posted meet in either order; in
    both, the receiver's buffer ends up with the message and the completion
    reports the sender's rank and tag and the size of the message. *)
From stdpp Require Import base numbers list gmap strings.
From Stdlib Require Import ZArith Lia.
From S2P Require Import Prelude Bits Status MpmcArray MatchSpec MatchMap RhandlerRegistry MpmcSet PacketPool.
From S2P Require Import Comp Memory Net Endpoint Process Rendezvous Progress Communicate.
From S2P Require Import ProcessLaws Protocol Demo PostComm.

Section Receiver.
Context {B E : Type} `{!MatchingEngine E}.
Variable cf : config.
Variable tid : nat.
Variable get_rkey : Z -> Z.
Variable post_impl : net_op_t -> bool -> memory -> B -> errorcode_t * B.
Variable support_putimm : bool.
Implicit Types p : proc B E.

#[local] Abbreviation inv := (pool_inv (cf_sizeof_lctx cf) (cf_pool cf) (cf_garbage cf)).
#[local] Abbreviation hdr := (header (cf_garbage cf)).
#[local] Abbreviation mem p := (ns_mem (p_net p)).
#[local] Abbreviation payload := (payload cf).

(** Everything a delivery leaves alone. *)
Definition same_rest p p' : Prop :=
  p_registry p' = p_registry p /\ p_archive p' = p_archive p /\ p_mrs p' = p_mrs p
  /\ p_nrecvs p' = p_nrecvs p /\ p_failed p' = p_failed p
  /\ ns_bq (p_net p') = ns_bq (p_net p) /\ ns_accepted (p_net p') = ns_accepted (p_net p)
  /\ ns_net (p_net p') = ns_net (p_net p).

(** The message of [size] bytes in [packet] is in the buffer of the receive [c],
    whose context [ctx] is gone; the packet is back in the pool. *)
Record delivered (held : list Z) (packet ctx : Z) (c : internal_context_t) (size : Z) p p' : Prop :=
  mk_delivered {
    dl_data : load_bytes (mem p') (ic_buffer c) size = load_bytes (mem p) (payload packet) size;
    dl_other : forall x, x < ic_buffer c \/ ic_buffer c + size <= x -> mem p' x = mem p x;
    dl_ctxs : ns_ctxs (p_net p') = delete ctx (ns_ctxs (p_net p));
    dl_pending : p_pending p'
      = (if ic_is_user_posted_op c then Counter.i64 (p_pending p + -1) else p_pending p);
    dl_pool : inv held (p_pool p');
    dl_rest : same_rest p p'
  }.

(** A receive context: it owns neither a region nor a packet. *)
Definition is_recv_ctx (c : internal_context_t) : Prop :=
  ic_mr_on_the_fly c = false /\ ic_packet_to_free c = 0.

Definition eager_status (h : packet_local_context_t) (c : internal_context_t) : status_t :=
  mk_status ec_done (lc_rank h) (ic_buffer c) (lc_size h) (lc_tag h) (ic_user_context c).

Lemma handle_matched_eager held packet ctx c ps p :
  inv (packet :: held) (p_pool p) -> lc_is_eager (hdr (p_pool p) packet) = true ->
  0 <= lc_size (hdr (p_pool p) packet) ->
  ns_ctxs (p_net p) !! ctx = Some (Plain c) -> is_recv_ctx c ->
  exists p1, delivered held packet ctx c (lc_size (hdr (p_pool p) packet)) p p1
    /\ p_comps p1 = p_comps p /\ p_signals p1 = p_signals p /\ p_engines p1 = p_engines p
    /\ handle_matched_sendrecv cf tid get_rkey post_impl packet ctx ps p
       = match ps with
         | Some _ => Ok (Some (eager_status (hdr (p_pool p) packet) c), p1)
         | None => (signal_comp (ic_comp c) (eager_status (hdr (p_pool p) packet) c) ;; mret None) p1
         end.
Proof.
  intros Hi He Hs Hc [Hm Hf]. unfold handle_matched_sendrecv.
  set (h := hdr (p_pool p) packet) in *.
  rewrite (st_bind_eq _ _ p h p) by done. rewrite He.
  rewrite (st_bind_eq _ _ _ _ _ (plain_ctx_eq _ _ _ Hc)).
  rewrite (st_bind_eq _ _ _ _ _ (delete_ctx_eq _ _ _ _ _ Hc Hm Hf)).
  set (p1 := without_ctx ctx c p).
  rewrite (st_bind_eq _ _ p1 h p1) by done.
  set (p2 := if 0 <? lc_size h then with_mem (memcpy (ic_buffer c) (payload packet) (lc_size h) (mem p)) p1
             else p1).
  rewrite (st_bind_eq _ _ p1 tt p2) by (unfold p2; by destruct (0 <? lc_size h)).
  assert (Hi2 : inv (packet :: held) (p_pool p2)) by (unfold p2; by destruct (0 <? lc_size h)).
  destruct (put_back_eq cf tid held packet p2 Hi2) as (q & Hq & Hiq & Hsame & _).
  rewrite (st_bind_eq _ _ _ _ _ Hq). exists (set_pool q p2). split; [|split_and!].
  - assert (Hmem : mem p2 = memcpy (ic_buffer c) (payload packet) (lc_size h) (mem p)
                   \/ (lc_size h = 0 /\ mem p2 = mem p)).
    { unfold p2. destruct (0 <? lc_size h) eqn:E0; [by left|right]. split; [lia|done]. }
    split; simpl.
    + destruct Hmem as [E0|[E0 _]]; rewrite E0; [by rewrite memcpy_load|done].
    + intros x Hx. destruct Hmem as [E0|[_ E0]]; rewrite E0; [by rewrite memcpy_other|done].
    + unfold p2. by destruct (0 <? lc_size h).
    + unfold p2. by destruct (0 <? lc_size h).
    + done.
    + unfold p2, same_rest. by destruct (0 <? lc_size h).
  - unfold p2. by destruct (0 <? lc_size h).
  - unfold p2. by destruct (0 <? lc_size h).
  - unfold p2. by destruct (0 <? lc_size h).
  - by destruct ps.
Qed.

(** ** The message arrives *)

(** What an eager message carries when it reaches the receiver: the network
    status [st] of a packet that decodes to [tag], a handler of the engine at
    [eng] under [pol], and [size] bytes. *)
Record eager_arrival (held : list Z) p (st : net_status_t) (packet tag size eng : Z)
    (pol : matching_policy_t) (key : Z) (e : E) : Prop := mk_arrival {
  ea_packet : ns_user_context st = packet;
  ea_pool : inv (packet :: held) (p_pool p);
  ea_decode : exists rcomp,
    decode_recv (ns_imm_data st) (mem p) (payload packet) (ns_length st)
    = Ok (IMM_DATA_MSG_EAGER, mk_eager tag rcomp size)
    /\ registry_get rcomp (p_registry p) = Ok (mk_entry rh_matching_engine eng (policy_val pol));
  ea_size : 0 <= size;
  ea_policy : pol <> mp_max;
  ea_key : make_key (ns_rank st) tag pol = Ok key;
  ea_u64 : is_u64 key;
  ea_engine : p_engines p !! eng = Some e;
  ea_inv : engine_inv e
}.

(** The header [progress_recv] writes. *)
Definition eager_lctx (c : packet_local_context_t) (rank tag size : Z) : packet_local_context_t :=
  mk_lctx (lc_pool c) (lc_local_id c) (lc_isInPool c) true rank tag size.

(** The state after the insertion, which answers [r]. *)
Lemma progress_recv_eager held p st packet tag size eng pol key e :
  eager_arrival held p st packet tag size eng pol key e ->
  exists e',
    let p1 := set_engines (<[eng := e']> (p_engines p))
                (set_pool (set_header packet (eager_lctx (hdr (p_pool p) packet) (ns_rank st) tag size)
                             (p_pool p)) p) in
    let r := (spec_insert key packet me_send (engine_pending e)).1 in
    progress_recv cf tid get_rkey post_impl support_putimm st p
    = (if r =? 0 then mret tt
       else handle_matched_sendrecv cf tid get_rkey post_impl packet r None ;; mret tt) p1
    /\ engine_inv e'
    /\ engine_pending e' ≡ (spec_insert key packet me_send (engine_pending e)).2
    /\ inv (packet :: held) (p_pool p1)
    /\ hdr (p_pool p1) packet = eager_lctx (hdr (p_pool p) packet) (ns_rank st) tag size.
Proof.
  intros [Hp Hi (rcomp & Hdec & Hreg) Hsz Hpol Hkey Hu He Hei].
  unfold progress_recv. rewrite (st_bind_eq _ _ p (mem p) p) by done. rewrite Hp.
  erewrite st_bind_eq; [|unfold lift; rewrite Hdec; reflexivity]. cbv beta iota.
  rewrite Z.eqb_refl.
  erewrite st_bind_eq; [|unfold get_handler; cbn [eh_rcomp]; rewrite Hreg; reflexivity].
  rewrite decide_False by done. unfold recv_matched. cbn [rh_metadata rh_value eh_tag eh_size].
  assert (policy_of_val (policy_val pol) = pol) as -> by by destruct pol.
  erewrite st_bind_eq; [|unfold lift; rewrite Hkey; reflexivity].
  rewrite (st_bind_eq _ _ p (hdr (p_pool p) packet) p) by done.
  set (p0 := set_pool (set_header packet (eager_lctx (hdr (p_pool p) packet) (ns_rank st) tag size)
                             (p_pool p)) p).
  rewrite (st_bind_eq _ _ p tt p0) by done.
  assert (Hnz : packet <> 0).
  { apply (packet_bounds _ (p_pool p) packet (pi_layout _ _ _ _ _ Hi)).
    rewrite <- (pi_all _ _ _ _ _ Hi). by left. }
  destruct (matching_insert_eq eng e key packet me_send p0 He Hei Hu Hnz) as (e' & Hins & Hinv' & Hpd).
  exists e'. rewrite (st_bind_eq _ _ _ _ _ Hins). split_and!; try done.
  - simpl. destruct (pi_out _ _ _ _ _ Hi packet) as [H1 H2]; [by left|].
    by apply set_header_inv.
  - simpl. apply set_header_eq.
Qed.

(** ** The receive is posted *)

Variable envs : nat -> steal_env.
Variable poll_comp_impl : nat -> memory -> B -> list net_status_t * memory * B.
Variable post_recvs_impl : list Z -> Z -> Z -> B -> nat * B.

#[local] Abbreviation post_comm :=
  (post_comm cf envs tid get_rkey post_impl support_putimm poll_comp_impl post_recvs_impl).

(** A receive into a user's buffer, from a given rank, with a completion object. *)
Record recv_args (a : post_comm_args_t) p : Prop := mk_recv_args {
  ra_direction : a_direction a = IN;
  ra_rmr : rmr_is_empty (a_rmr a) = true;
  ra_rcomp : a_remote_comp a = 0;
  ra_comp : comp_is_empty (a_local_comp a) = false;
  ra_pos : 0 <= a_local_comp a;
  ra_posted : a_allow_posted a = true;
  ra_done : a_allow_done a = true;
  ra_rank : exists b, bq_is_empty (a_rank a) (p_net p) = Ok (b, p_net p);
  ra_buffer : is_packet (cf_sizeof_lctx cf) (p_pool p) (a_local_buffer a) false = false
}.

Definition recv_ctx (a : post_comm_args_t) : internal_context_t :=
  mk_ictx false true (a_rank a) (a_local_comp a) (a_tag a) (a_local_buffer a) (a_size a)
          (a_user_context a) 0 0.

(** The state in which the receive is inserted. *)
Definition with_recv_ctx (a : post_comm_args_t) p : proc B E :=
  let n := p_net p in
  set_net (mk_nstate (ns_mem n) (ns_brk n + 128) (ns_blocks n)
             (<[ns_brk n := Plain (recv_ctx a)]> (ns_ctxs n)) (ns_bq n) (ns_net n) (ns_accepted n))
    (set_pending (Counter.i64 (p_pending p + 1)) p).

Lemma set_protocol_recv a t rhandler :
  a_direction a = IN -> t_local_buffer_only t = true ->
  set_protocol cf a t rhandler = (proto_recv, false).
Proof.
  intros Hd Hl. unfold set_protocol. rewrite Hd, Hl.
  by rewrite (bool_decide_eq_false_2 (IN = OUT)) by done.
Qed.

Lemma post_comm_recv fuel a p e st p2 s :
  recv_args a p ->
  s = mk_pstate 0 false 0 0 0 false (ns_brk (p_net p)) proto_recv (a_mr a) (a_local_comp a) true
        (set_status a) ->
  (forall s', s_internal_ctx s' = s_internal_ctx s -> s_status s' = s_status s ->
     post_recv cf tid get_rkey post_impl a s' (with_recv_ctx a p) = Ok ((e, st), p2)) ->
  is_retry e = false ->
  post_comm fuel a p = Ok (inr (st_with_error e st), p2).
Proof.
  intros [Hd Hr Hc Hcomp Hpos Hap Had [b Hb] Hpk] -> Hrecv He. unfold Communicate.post_comm.
  assert (preprocess_args a = a) as ->.
  { unfold preprocess_args, COMP_NULL, COMP_NULL_RETRY, comp_is_empty in *.
    by rewrite !(proj2 (Z.eqb_neq _ _)) by lia. }
  rewrite (st_bind_eq _ _ p (p_pool p) p) by done.
  set (t := mk_traits true true true (cf_max_inject_size cf) (get_max_bcopy_size (p_pool p))).
  rewrite (st_bind_eq _ _ p t p).
  2:{ unfold lift, validate_and_get_traits. by rewrite Hr, Hc, Hd, Hap. }
  cbv zeta. rewrite set_protocol_recv by done. cbv beta iota zeta.
  rewrite (st_bind_eq _ _ p ec_done p).
  2:{ unfold check_backlog. rewrite (st_bind_eq _ _ p b p).
      - by rewrite bool_decide_eq_true_2, andb_false_r by done.
      - unfold in_net. rewrite Hb. by destruct p. }
  change (negb (is_done ec_done)) with false. cbn iota.
  rewrite (st_bind_eq _ _ p (ec_done, mk_pinfo 0 false 0) p).
  2:{ unfold set_packet_if_needed. rewrite (st_bind_eq _ _ p (p_pool p) p) by done.
      by rewrite Hpk. }
  cbv beta iota zeta. change (negb (is_done ec_done)) with false. cbn iota.
  rewrite (st_bind_eq _ _ p 0 p).
  2:{ unfold lift, set_immediate_data. rewrite decide_False by done. rewrite Hd.
      by rewrite bool_decide_eq_false_2 by done. }
  rewrite (st_bind_eq _ _ p (a_local_comp a) p) by (unfold set_local_comp; by rewrite Hap).
  rewrite (st_bind_eq _ _ p (ns_brk (p_net p), true, a_mr a) (with_recv_ctx a p)).
  2:{ unfold set_internal_ctx. rewrite Hd. rewrite (bool_decide_eq_true_2 (IN = IN)) by done.
      rewrite !orb_true_r. rewrite Hcomp. reflexivity. }
  cbv beta iota zeta. unfold post_network_op at 1. rewrite Hd. cbn [s_protocol].
  erewrite st_bind_eq; [|apply Hrecv; reflexivity].
  unfold exit_handler. cbn [s_protocol]. rewrite bool_decide_eq_true_2 by done. cbn [negb].
  rewrite (st_bind_eq _ _ p2 tt p2) by done. rewrite He. rewrite (st_bind_eq _ _ p2 tt p2) by done.
  rewrite Hap, andb_false_r.
  rewrite (st_bind_eq _ _ p2 (inr (st_with_error e st)) p2) by done.
  cbv beta iota. cbn [negb]. rewrite (st_bind_eq _ _ p2 tt p2) by done.
  by rewrite Had, andb_false_r.
Qed.

(** ** Either order *)

Definition done_status (a : post_comm_args_t) (rank tag size : Z) : status_t :=
  mk_status ec_done rank (a_local_buffer a) size tag (a_user_context a).

(** The message is where the receive asked for it and nothing else is left of it. *)
Record received (held : list Z) (packet size eng : Z) (e : E) (a : post_comm_args_t) p p' : Prop :=
  mk_received {
    rc_data : load_bytes (mem p') (a_local_buffer a) size = load_bytes (mem p) (payload packet) size;
    rc_other : forall x, x < a_local_buffer a \/ a_local_buffer a + size <= x -> mem p' x = mem p x;
    rc_pool : inv held (p_pool p');
    rc_ctxs : ns_ctxs (p_net p') = ns_ctxs (p_net p);
    rc_pending : p_pending p' = p_pending p;
    rc_engine : exists e', p_engines p' !! eng = Some e' /\ engine_inv e'
      /\ engine_pending e' ≡ engine_pending e
  }.

(** Nothing of the key waits in the engine. *)
Definition idle_at (e : E) (key : Z) : Prop :=
  forall t, engine_pending e t key = [].

Lemma spec_insert_idle e key v t :
  idle_at e key ->
  spec_insert key v t (engine_pending e) = (0, upd (engine_pending e) t key [v]).
Proof. intros Hi. unfold spec_insert. by rewrite !Hi. Qed.

(** The entry inserted into an idle engine is what the other side gets, and the
    engine is then as it was. *)
Lemma spec_insert_meets e e' key v w t :
  idle_at e key -> engine_pending e' ≡ upd (engine_pending e) t key [v] ->
  (spec_insert key w (flip_type t) (engine_pending e')).1 = v
  /\ (spec_insert key w (flip_type t) (engine_pending e')).2 ≡ engine_pending e.
Proof.
  intros Hi He.
  assert (Hft : flip_type (flip_type t) = t) by by destruct t.
  assert (Hl : engine_pending e' t key = [v]).
  { rewrite (He t key). unfold upd. by rewrite decide_True. }
  unfold spec_insert. rewrite Hft, Hl. split; [done|]. simpl. intros t' k'. unfold upd.
  destruct (decide (t' = t /\ k' = key)) as [[-> ->]|Hne]; [by rewrite Hi|].
  rewrite (He t' k'). unfold upd. by rewrite decide_False.
Qed.

Lemma i64_back n : - 2 ^ 63 <= n -> n + 1 < 2 ^ 63 -> Counter.i64 (Counter.i64 (n + 1) + -1) = n.
Proof.
  intros H1 H2. unfold Counter.i64.
  rewrite (Z.mod_small (n + 1 + 2 ^ 63)) by lia.
  rewrite Z.mod_small by lia. lia.
Qed.

(** The circumstances of a delivery: nothing else of the key waits, the receive's
    key is the message's, and its completion object takes the status. *)
Record delivery (held : list Z) p (st : net_status_t) (packet tag size eng : Z)
    (pol : matching_policy_t) (key : Z) (e : E) (a : post_comm_args_t) : Prop := mk_delivery {
  dv_arrival : eager_arrival held p st packet tag size eng pol key e;
  dv_recv : recv_args a p;
  dv_eng : a_matching_engine a = eng;
  dv_key : make_key (a_rank a) (a_tag a) (recv_policy a) = Ok key;
  dv_idle : idle_at e key;
  dv_brk : 0 < ns_brk (p_net p);
  dv_fresh : ns_ctxs (p_net p) !! ns_brk (p_net p) = None;
  dv_pending : - 2 ^ 63 <= p_pending p /\ p_pending p + 1 < 2 ^ 63;
  dv_comp : exists c c', p_comps p !! a_local_comp a = Some c
    /\ comp_signal (done_status a (ns_rank st) tag size) c = Ok c'
}.

(** The receive first: it waits, and the message completes it. *)
Lemma recv_then_message fuel held p st packet tag size eng pol key e a :
  delivery held p st packet tag size eng pol key e a ->
  exists s1 p1 p1', post_comm fuel a p = Ok (inr s1, p1) /\ is_posted (st_error s1) = true
    /\ progress_recv cf tid get_rkey post_impl support_putimm st p1 = Ok (tt, p1')
    /\ p_signals p1' = p_signals p ++ [(a_local_comp a, done_status a (ns_rank st) tag size)]
    /\ received held packet size eng e a p p1'.
Proof.
  intros [Harr Hrecv Heng Hkey Hidle Hbrk Hfresh Hpend (cc & cc' & Hcc & Hsig)].
  pose proof Harr as [Hp Hi Hdec Hsz Hpol Hk Hu He Hei].
  set (p0 := with_recv_ctx a p).
  destruct (matching_insert_eq eng e key (ns_brk (p_net p)) me_recv p0 He Hei Hu ltac:(lia))
    as (e1 & Hins & Hei1 & Hpd1).
  rewrite spec_insert_idle in Hins, Hpd1 by done. cbn [fst snd] in Hins, Hpd1.
  set (p1 := set_engines (<[eng := e1]> (p_engines p0)) p0).
  assert (Hpost : post_comm fuel a p = Ok (inr (st_with_error ec_posted (set_status a)), p1)).
  { eapply post_comm_recv; [done|reflexivity| |done]. intros s' Hs1 Hs2. unfold post_recv.
    erewrite st_bind_eq; [|unfold lift; rewrite Hkey; reflexivity].
    rewrite Hs1, Heng. cbn [s_internal_ctx]. rewrite (st_bind_eq _ _ _ _ _ Hins).
    by rewrite Hs2. }
  assert (Harr1 : eager_arrival held p1 st packet tag size eng pol key e1).
  { split; try done. simpl. by rewrite lookup_insert_eq. }
  destruct (progress_recv_eager held p1 st packet tag size eng pol key e1 Harr1)
    as (e2 & Heq & Hei2 & Hpd2 & Hi2 & Hh2).
  destruct (spec_insert_meets e e1 key (ns_brk (p_net p)) packet me_recv Hidle Hpd1) as [Hr1 Hr2].
  cbn [flip_type] in Hr1, Hr2. cbv zeta in Heq. rewrite Hr1 in Heq.
  rewrite (proj2 (Z.eqb_neq (ns_brk (p_net p)) 0)) in Heq by lia.
  set (p2 := set_engines (<[eng := e2]> (p_engines p1)) _) in *.
  destruct (handle_matched_eager held packet (ns_brk (p_net p)) (recv_ctx a) None p2)
    as (p3 & Hdl & Hcomps & Hsigs & Hengs & Hhm).
  - exact Hi2.
  - by rewrite Hh2.
  - by rewrite Hh2.
  - simpl. by rewrite lookup_insert_eq.
  - done.
  - rewrite Hh2 in Hdl, Hhm. cbn [lc_size eager_lctx] in Hdl, Hhm.
    change (eager_status _ (recv_ctx a)) with (done_status a (ns_rank st) tag size) in Hhm.
    cbv beta iota in Hhm.
    erewrite (st_bind_eq (signal_comp _ _)) in Hhm.
    2:{ eapply signal_comp_eq; [rewrite Hcomps; exact Hcc|exact Hsig]. }
    erewrite (st_bind_eq (handle_matched_sendrecv _ _ _ _ _ _ _)) in Heq by exact Hhm.
    eexists _, p1, _. split; [exact Hpost|]. split; [done|]. split; [exact Heq|].
    destruct Hdl as [Hd Ho Hc Hpn Hpl _]. split; [simpl; by rewrite Hsigs|].
    split; simpl; try done.
    + rewrite Hc. simpl. by rewrite delete_insert_id.
    + rewrite Hpn. simpl. apply i64_back; lia.
    + rewrite Hengs. simpl. exists e2. rewrite lookup_insert_eq.
      split_and!; try done. by rewrite Hpd2, Hr2.
Qed.

(** The message first: it waits, and the receive returns with it. *)
Lemma message_then_recv fuel held p st packet tag size eng pol key e a :
  delivery held p st packet tag size eng pol key e a ->
  exists p1 p1', progress_recv cf tid get_rkey post_impl support_putimm st p = Ok (tt, p1)
    /\ post_comm fuel a p1 = Ok (inr (done_status a (ns_rank st) tag size), p1')
    /\ p_signals p1' = p_signals p
    /\ received held packet size eng e a p p1'.
Proof.
  intros [Harr Hrecv Heng Hkey Hidle Hbrk Hfresh Hpend _].
  pose proof Harr as [Hp Hi Hdec Hsz Hpol Hk Hu He Hei].
  destruct (progress_recv_eager held p st packet tag size eng pol key e Harr)
    as (e1 & Heq & Hei1 & Hpd1 & Hi1 & Hh1).
  rewrite spec_insert_idle in Heq, Hpd1 by done. cbn [fst snd] in Hpd1. cbv zeta in Heq.
  set (p1 := set_engines (<[eng := e1]> (p_engines p)) _) in *.
  exists p1. set (p2 := with_recv_ctx a p1).
  assert (He2 : p_engines p2 !! eng = Some e1) by (simpl; by rewrite lookup_insert_eq).
  destruct (matching_insert_eq eng e1 key (ns_brk (p_net p)) me_recv p2 He2 Hei1 Hu ltac:(lia))
    as (e2 & Hins & Hei2 & Hpd2).
  destruct (spec_insert_meets e e1 key packet (ns_brk (p_net p)) me_send Hidle Hpd1) as [Hr1 Hr2].
  cbn [flip_type] in Hr1, Hr2. rewrite Hr1 in Hins.
  set (p3 := set_engines (<[eng := e2]> (p_engines p2)) p2) in *.
  change (p_pool p1) with (p_pool p3) in Hh1.
  destruct (handle_matched_eager held packet (ns_brk (p_net p)) (recv_ctx a) (Some (set_status a)) p3)
    as (p4 & Hdl & Hcomps & Hsigs & Hengs & Hhm).
  - exact Hi1.
  - by rewrite Hh1.
  - by rewrite Hh1.
  - simpl. by rewrite lookup_insert_eq.
  - done.
  - rewrite Hh1 in Hdl, Hhm. cbn [lc_size eager_lctx] in Hdl, Hhm.
    change (eager_status _ (recv_ctx a)) with (done_status a (ns_rank st) tag size) in Hhm.
    cbv beta iota in Hhm.
    assert (Hnz : packet <> 0).
    { apply (packet_bounds _ (p_pool p) packet (pi_layout _ _ _ _ _ Hi)).
      rewrite <- (pi_all _ _ _ _ _ Hi). by left. }
    exists p4. split; [exact Heq|]. split.
    { assert (Hrecv1 : recv_args a p1) by (destruct Hrecv; by split).
      apply (post_comm_recv fuel a p1 ec_done (done_status a (ns_rank st) tag size) p4 _ Hrecv1 eq_refl);
        [|done].
      intros s' Hs1 Hs2. unfold post_recv.
      erewrite st_bind_eq; [|unfold lift; rewrite Hkey; reflexivity].
      rewrite Hs1, Heng. cbn [s_internal_ctx]. rewrite (st_bind_eq _ _ _ _ _ Hins).
      rewrite (proj2 (Z.eqb_neq packet 0)) by done. cbn [negb]. rewrite Hs2.
      by rewrite (st_bind_eq _ _ _ _ _ Hhm). }
    destruct Hdl as [Hd Ho Hc Hpn Hpl _]. split; [by rewrite Hsigs|].
    split; try done.
    + rewrite Hc. simpl. by rewrite delete_insert_id.
    + rewrite Hpn. simpl. apply i64_back; lia.
    + rewrite Hengs. simpl. exists e2. rewrite lookup_insert_eq.
      split_and!; try done. by rewrite Hpd2, Hr2.
Qed.

(** An eager message and the receive that matches it may come in either
    order. If the receive is posted first, it returns posted, and the arrival of the
    message signals its completion object once; if the message arrives first, the
    receive returns done. In both cases the status names the sender's rank, the tag
    and the size of the message, the receive's buffer holds the message and no other
    byte of memory changed, and nothing is left behind: the packet is back in the
    pool, the context of the receive is gone, the count of pending operations and
    the matching engine are as they were. *)
Theorem eager_delivery_any_order fuel held p st packet tag size eng pol key e a :
  delivery held p st packet tag size eng pol key e a ->
  (exists s1 p1 p1', post_comm fuel a p = Ok (inr s1, p1) /\ is_posted (st_error s1) = true
     /\ progress_recv cf tid get_rkey post_impl support_putimm st p1 = Ok (tt, p1')
     /\ p_signals p1' = p_signals p ++ [(a_local_comp a, done_status a (ns_rank st) tag size)]
     /\ received held packet size eng e a p p1')
  /\ (exists p1 p1', progress_recv cf tid get_rkey post_impl support_putimm st p = Ok (tt, p1)
     /\ post_comm fuel a p1 = Ok (inr (done_status a (ns_rank st) tag size), p1')
     /\ p_signals p1' = p_signals p
     /\ received held packet size eng e a p p1').
Proof. intros H. split; [by eapply recv_then_message|by eapply message_then_recv]. Qed.
End Receiver.

(** The receiver of [Demo]: its packet is out, its receive meets a message from
    rank 0 that is in the packet. *)
Lemma demo_got_inv : pool_inv 40 4096 demo_lctx [demo_got.1] demo_got.2.
Proof.
  unfold demo_got. destruct (pool_get 4096 demo_lctx demo_env 0 true demo_pool) as [[a q]|] eqn:E.
  - simpl. eapply (pool_get_spec demo_config 0 []); [exact demo_pool_inv|exact E|].
    intros ->. vm_compute in E. discriminate.
  - vm_compute in E. discriminate.
Qed.

Definition demo_status (imm length : Z) : net_status_t :=
  mk_net_status op_RECV 0 demo_got.1 length imm.

Lemma demo_recv_args tag msg : recv_args demo_config (demo_recv tag) (demo_receiver msg).
Proof.
  constructor; [reflexivity..| | | | |].
  - simpl. lia.
  - reflexivity.
  - reflexivity.
  - exists true. reflexivity.
  - vm_compute. reflexivity.
Qed.

Lemma eager_delivery_any_order_witness :
  let p := demo_receiver [7; 8; 9] in
  let imm := fast_imm 5 4 in
  let run_recv := post_comm demo_config demo_envs 0 (fun _ => 0) refusing false no_events no_recvs 0
                    (demo_recv 5) in
  let run_arrival := progress_recv demo_config 0 (fun _ => 0) refusing false (demo_status imm 3) in
  (exists s1 p1 p1', run_recv p = Ok (inr s1, p1) /\ is_posted (st_error s1) = true
     /\ run_arrival p1 = Ok (tt, p1')
     /\ p_signals p1' = [(600, done_status (demo_recv 5) 0 5 3)]
     /\ received demo_config [] demo_got.1 3 512 map_engine_new (demo_recv 5) p p1')
  /\ (exists p1 p1', run_arrival p = Ok (tt, p1)
     /\ run_recv p1 = Ok (inr (done_status (demo_recv 5) 0 5 3), p1')
     /\ p_signals p1' = []
     /\ received demo_config [] demo_got.1 3 512 map_engine_new (demo_recv 5) p p1').
Proof.
  apply (eager_delivery_any_order demo_config 0 (fun _ => 0) refusing false demo_envs no_events
           no_recvs 0 [] (demo_receiver [7; 8; 9]) (demo_status (fast_imm 5 4) 3) demo_got.1 5 3 512
           mp_rank_tag 5 map_engine_new (demo_recv 5)).
  constructor.
  - constructor.
    + reflexivity.
    + exact demo_got_inv.
    + exists 4. split; vm_compute; reflexivity.
    + lia.
    + discriminate.
    + vm_compute. reflexivity.
    + unfold is_u64. lia.
    + reflexivity.
    + apply map_engine.
  - apply demo_recv_args.
  - reflexivity.
  - vm_compute. reflexivity.
  - intros t. apply map_engine.
  - simpl. lia.
  - reflexivity.
  - simpl. lia.
  - exists (comp_cq false []). eexists. split; reflexivity.
Defined.
