(* ===== verification/EagerSend.v ===== *)
(** * Sending an eager message

    What [post_comm] commits to the network for a send or an active message that
    goes by the inject or the buffer-copy protocol: the message with its metadata. *)
From stdpp Require Import base numbers list gmap strings.
From Stdlib Require Import ZArith Lia.
From S2P Require Import Prelude Bits Status MpmcArray MatchSpec MatchMap RhandlerRegistry MpmcSet PacketPool.
From S2P Require Import Comp Memory Net Endpoint Backlog Process Rendezvous Progress Communicate.
From S2P Require Import ProcessLaws Protocol Demo PostComm Frames Requests.

Section Sender.
Context {B E : Type} `{!MatchingEngine E}.
Variable cf : config.
Variable envs : nat -> steal_env.
Variable tid : nat.
Variable get_rkey : Z -> Z.
Variable post_impl : net_op_t -> bool -> memory -> B -> errorcode_t * B.
Variable support_putimm : bool.
Variable poll_comp_impl : nat -> memory -> B -> list net_status_t * memory * B.
Variable post_recvs_impl : list Z -> Z -> Z -> B -> nat * B.
Implicit Types p : proc B E.

#[local] Abbreviation inv := (pool_inv (cf_sizeof_lctx cf) (cf_pool cf) (cf_garbage cf)).
#[local] Abbreviation mem p := (ns_mem (p_net p)).
#[local] Abbreviation payload := (payload cf).
#[local] Abbreviation post_comm :=
  (post_comm cf envs tid get_rkey post_impl support_putimm poll_comp_impl post_recvs_impl).

(** ** The steps of [post_comm] before the network *)

(** An eager send whose caller does not allow a retry and takes a done status. *)
Record send_args (a : post_comm_args_t) : Prop := mk_send_args {
  sa_direction : a_direction a = OUT;
  sa_rmr : rmr_is_empty (a_rmr a) = true;
  sa_memory : a_comp_semantic a = sem_memory;
  sa_comp : comp_is_empty (a_local_comp a) = false;
  sa_pos : 0 <= a_local_comp a;
  sa_posted : a_allow_posted a = true;
  sa_done : a_allow_done a = true;
  sa_retry : a_allow_retry a = false;
  sa_size : 0 <= a_size a /\ a_size a + 12 < 2 ^ 64
}.

Definition send_ctx (a : post_comm_args_t) (packet : Z) : internal_context_t :=
  mk_ictx false true (a_rank a) COMP_NULL (a_tag a) (a_local_buffer a) (a_size a)
          (a_user_context a) packet 0.
Definition with_send_ctx (a : post_comm_args_t) (packet : Z) p : proc B E :=
  let n := p_net p in
  set_net (mk_nstate (ns_mem n) (ns_brk n + 128) (ns_blocks n)
             (<[ns_brk n := Plain (send_ctx a packet)]> (ns_ctxs n)) (ns_bq n) (ns_net n)
             (ns_accepted n))
    (set_pending (Counter.i64 (p_pending p + 1)) p).

Definition traits_of (a : post_comm_args_t) p : post_comm_traits_t :=
  mk_traits true (a_remote_comp a =? 0) false (cf_max_inject_size cf) (get_max_bcopy_size (p_pool p)).

Lemma post_comm_send fuel a p b protocol piggyback i p1 imm e p2 :
  send_args a -> bq_is_empty (a_rank a) (p_net p) = Ok (b, p_net p) ->
  let rhandler := resolve_rhandler a (traits_of a p) in
  set_protocol cf a (traits_of a p) rhandler = (protocol, piggyback) ->
  protocol = proto_inject \/ protocol = proto_eager_bcopy ->
  set_packet_if_needed cf envs tid a (traits_of a p) protocol rhandler piggyback p
    = Ok ((ec_done, i), p1) ->
  set_immediate_data cf a protocol rhandler = Ok imm ->
  (forall s, s_protocol s = protocol -> s_imm_data s = imm -> s_packet s = pi_packet i ->
     s_packet_size_to_send s = pi_size i -> s_internal_ctx s = ns_brk (p_net p1) ->
     (if decide (protocol = proto_inject) then post_inject post_impl support_putimm a (traits_of a p) s
      else post_bcopy cf post_impl support_putimm a (traits_of a p) s)
     (with_send_ctx a (pi_packet i) p1) = Ok (e, p2)) ->
  is_done e = true ->
  post_comm fuel a p = Ok (inr (st_with_error e (set_status a)), p2).
Proof.
  intros [Hd Hr Hmem Hcomp Hpos Hap Had Har Hsz] Hb rhandler Hproto Hwhich Hpk Himm Hpost He.
  unfold Communicate.post_comm.
  assert (preprocess_args a = a) as ->.
  { unfold preprocess_args, COMP_NULL, COMP_NULL_RETRY, comp_is_empty in *.
    by rewrite !(proj2 (Z.eqb_neq _ _)) by lia. }
  rewrite (st_bind_eq _ _ p (p_pool p) p) by done.
  rewrite (st_bind_eq _ _ p (traits_of a p) p).
  2:{ unfold lift, validate_and_get_traits. by rewrite Hr, Hd, Hap. }
  cbv zeta. unfold rhandler in *. rewrite Hproto. cbv beta iota zeta.
  rewrite (st_bind_eq _ _ p ec_done p).
  2:{ unfold check_backlog. rewrite (st_bind_eq _ _ p b p).
      - by rewrite Har, andb_false_r.
      - unfold in_net. rewrite Hb. by destruct p. }
  change (negb (is_done ec_done)) with false. cbn iota.
  rewrite (st_bind_eq _ _ _ _ _ Hpk).
  cbv beta iota zeta. change (negb (is_done ec_done)) with false. cbn iota.
  rewrite (st_bind_eq _ _ p1 imm p1) by (unfold lift; by rewrite Himm).
  rewrite (st_bind_eq _ _ p1 (a_local_comp a) p1) by (unfold set_local_comp; by rewrite Hap).
  rewrite (st_bind_eq _ _ p1 (ns_brk (p_net p1), false, a_mr a) (with_send_ctx a (pi_packet i) p1)).
  2:{ unfold set_internal_ctx. rewrite Hd, Hmem.
      destruct Hwhich as [-> | ->]; reflexivity. }
  cbv beta iota zeta. unfold post_network_op. rewrite Hd. cbn [s_protocol].
  set (s := mk_pstate _ _ imm _ _ _ _ _ _ _ _ (set_status a)).
  specialize (Hpost s eq_refl eq_refl eq_refl eq_refl eq_refl).
  rewrite (st_bind_eq _ _ (with_send_ctx a (pi_packet i) p1) (e, set_status a) p2).
  2:{ destruct Hwhich as [-> | ->]; [rewrite decide_True in Hpost by done|
        rewrite decide_False in Hpost by done]; by rewrite (st_bind_eq _ _ _ _ _ Hpost). }
  cbv beta iota zeta. unfold exit_handler. cbn [s_protocol s_comp_passed_to_network s_status].
  rewrite He. assert (is_posted e = false /\ is_retry e = false) as [Hnp Hnr] by by destruct e.
  rewrite (st_bind_eq _ _ p2 tt p2).
  2:{ destruct Hwhich as [-> | ->]; by rewrite bool_decide_eq_false_2 by done. }
  rewrite Hnr, Hnp. rewrite (st_bind_eq _ _ p2 tt p2) by done. cbn [andb].
  rewrite (st_bind_eq _ _ p2 (inr (st_with_error e (set_status a))) p2) by done.
  cbv beta iota. rewrite Hap. cbn [negb]. rewrite (st_bind_eq _ _ p2 tt p2) by done.
  by rewrite Had, andb_false_r.
Qed.

(** ** Filling a packet *)

Lemma load_bytes_app m a n k :
  0 <= n -> 0 <= k -> load_bytes m a (n + k) = load_bytes m a n ++ load_bytes m (a + n) k.
Proof.
  intros Hn Hk. apply list_eq. intros i.
  destruct (decide (i < Z.to_nat n)%nat) as [Hi|Hi].
  - rewrite lookup_app_l by (rewrite length_load_bytes; lia). by rewrite !load_bytes_lookup by lia.
  - rewrite lookup_app_r by (rewrite length_load_bytes; lia). rewrite length_load_bytes.
    destruct (decide (i < Z.to_nat (n + k))%nat).
    + rewrite !load_bytes_lookup by lia. f_equal. f_equal. lia.
    + rewrite !lookup_ge_None_2; [done| |]; rewrite length_load_bytes; lia.
Qed.

Lemma load_store_bytes_le k m a v : load_bytes (store_le k a v m) a (Z.of_nat k) = le_bytes k v.
Proof.
  unfold store_le. pose proof (load_store_bytes m a (le_bytes k v)) as H.
  by rewrite length_le_bytes in H.
Qed.

(** The memory after the metadata was appended to [size] bytes at [a]. *)
Definition append_metadata (a size tag rhandler : Z) (m : memory) : memory :=
  store_le 4 (a + (size + 8)) rhandler (store_le 8 (a + size) tag m).

Lemma append_metadata_load a size tag rhandler m :
  0 <= size ->
  load_bytes (append_metadata a size tag rhandler m) a (size + 8 + 4)
  = load_bytes m a size ++ le_bytes 8 tag ++ le_bytes 4 rhandler.
Proof.
  intros Hs. rewrite load_bytes_app, load_bytes_app by lia. rewrite <- app_assoc.
  unfold append_metadata. f_equal; [|f_equal].
  - rewrite !load_bytes_store_le_disjoint by (unfold disjoint; lia). done.
  - rewrite load_bytes_store_le_disjoint by (unfold disjoint; lia).
    apply (load_store_bytes_le 8).
  - replace (a + (size + 8)) with (a + size + 8) by lia.
    apply (load_store_bytes_le 4).
Qed.

Lemma append_metadata_other a size tag rhandler m x :
  0 <= size -> x < a \/ a + (size + 8 + 4) <= x ->
  append_metadata a size tag rhandler m x = m x.
Proof.
  intros Hs Hx. unfold append_metadata, store_le.
  rewrite !store_bytes_other by (rewrite length_le_bytes; lia). done.
Qed.

Lemma build_packet_spec held a t rhandler piggyback packet p :
  inv held (p_pool p) -> packet ∈ held -> 0 <= a_size a ->
  (piggyback = true -> a_size a + 8 + 4 <= t_max_bcopy_size t) ->
  let msg := eager_message (load_bytes (mem p) (a_local_buffer a) (a_size a)) a rhandler piggyback in
  let size := Z.of_nat (length msg) in
  exists m q, build_packet cf tid a t rhandler piggyback packet false p
      = Ok (size, with_mem m (set_pool q p))
    /\ load_bytes m (payload packet) size = msg
    /\ (forall x, x < payload packet \/ payload packet + size <= x -> m x = mem p x)
    /\ inv held q /\ same_pool (p_pool p) q.
Proof.
  intros Hi Hin Hs Hpig msg size.
  assert (Hlen : size = a_size a + (if piggyback then 8 + 4 else 0)).
  { unfold size, msg, eager_message. rewrite length_app, length_load_bytes.
    destruct piggyback; rewrite ?length_app, ?length_le_bytes; simpl; lia. }
  set (m1 := memcpy (payload packet) (a_local_buffer a) (a_size a) (mem p)).
  set (m2 := if piggyback then append_metadata (payload packet) (a_size a) (a_tag a) rhandler m1
             else m1).
  set (q := if cf_packet_return_threshold cf <? size then
              set_header packet (let c := header (cf_garbage cf) (p_pool p) packet in
                mk_lctx (lc_pool c) (Z.of_nat tid) (lc_isInPool c) (lc_is_eager c) (lc_rank c)
                        (lc_tag c) (lc_size c)) (p_pool p)
            else p_pool p).
  exists m2, q. split_and!.
  - unfold build_packet. rewrite (st_bind_eq _ _ p tt (with_mem m1 p)) by done.
    rewrite (st_bind_eq _ _ _ size (with_mem m2 p)).
    2:{ unfold m2. destruct piggyback.
        - do 2 (rewrite (st_bind_eq _ _ _ _ _ (write_mem_eq _ _))).
          unfold assert_st. rewrite (LCI_Assert_true (a_size a + 8 + 4 <=? t_max_bcopy_size t))
            by (specialize (Hpig eq_refl); lia).
          rewrite Hlen, (Z.add_assoc (a_size a) 8 4). reflexivity.
        - rewrite Hlen, Z.add_0_r. done. }
    unfold q. destruct (cf_packet_return_threshold cf <? size); [|by destruct p]. done.
  - rewrite Hlen. unfold m2, msg, eager_message. destruct piggyback.
    + rewrite Z.add_assoc, append_metadata_load by done. f_equal. unfold m1. by rewrite memcpy_load.
    + rewrite Z.add_0_r, app_nil_r. unfold m1. by rewrite memcpy_load.
  - intros x Hx. rewrite Hlen in Hx. unfold m2. destruct piggyback.
    + rewrite append_metadata_other by lia. apply memcpy_other. lia.
    + apply memcpy_other. lia.
  - unfold q. destruct (_ <? size); [|done]. destruct (pi_out _ _ _ _ _ Hi packet Hin).
    by apply set_header_inv.
  - unfold q. by destruct (_ <? size).
Qed.

Lemma get_packet_spec held b p packet p0 :
  inv held (p_pool p) -> get_packet cf envs tid b p = Ok (packet, p0) -> packet <> 0 ->
  exists q, p0 = set_pool q (tick p) /\ inv (packet :: held) q /\ same_pool (p_pool p) q.
Proof.
  intros Hi Hg Hnz.
  change (in_pool (pool_get (cf_pool cf) (cf_garbage cf) (envs (p_clock p)) tid b) (tick p)
          = Ok (packet, p0)) in Hg. unfold in_pool in Hg.
  destruct (pool_get _ _ _ _ _ _) as [[x1 q]|] eqn:Eq; [|done]. simplify_eq/=.
  exists q. split; [done|]. by eapply pool_get_spec.
Qed.

(** ** Committing the message *)

(** The circumstances of a send: the endpoint and the pool are in order, the
    packets are registered and lie below the blocks of parked operations, and the
    user's buffer is not a packet. *)
Record sender (held : list Z) (a : post_comm_args_t) p : Prop := mk_sender {
  sd_args : send_args a;
  sd_bq : bq_inv support_putimm (p_net p);
  sd_rank : valid_rank (p_net p) (a_rank a);
  sd_room : Z.of_nat (length (bq_queue (ns_bq (p_net p)))) + 1 < 2 ^ 64;
  sd_pool : inv held (p_pool p);
  sd_psize : LCI_CACHE_LINE + 12 <= packet_size (attr (p_pool p));
  sd_registered : get 0 (cf_device_uid cf) (mrs (p_pool p)) <> 0;
  sd_brk : heap (p_pool p) + heap_size (p_pool p) <= ns_brk (p_net p);
  sd_blocks : forall b n, ns_blocks (p_net p) !! b = Some n ->
    heap (p_pool p) + heap_size (p_pool p) <= b;
  sd_buffer : is_packet (cf_sizeof_lctx cf) (p_pool p) (a_local_buffer a) false = false;
  sd_mr : mr_may_be_device_memory (a_mr a) = false
}.

(** What a send has done when it returns: its message is the newest request to
    its rank. *)
Definition sent (a : post_comm_args_t) (imm : Z) (msg : list Z) p p' : Prop :=
  exists q, (forall r, to_rank r (requests (p_net p'))
               = to_rank r (requests (p_net p)) ++ to_rank r [q])
    /\ no_rank q.1 = a_rank a /\ no_imm_data q.1 = imm /\ wire (mem p') q = msg.

Lemma inject_sends fuel held a p piggyback imm :
  sender held a p -> backend_codes post_impl ->
  let rhandler := resolve_rhandler a (traits_of a p) in
  set_protocol cf a (traits_of a p) rhandler = (proto_inject, piggyback) ->
  set_immediate_data cf a proto_inject rhandler = Ok imm ->
  exists e p', post_comm fuel a p = Ok (inr (st_with_error e (set_status a)), p')
    /\ is_done e = true
    /\ sent a imm (load_bytes (mem p) (a_local_buffer a) (a_size a)) p p'.
Proof.
  intros [Hargs Hbq Hrank Hroom Hpool _ _ _ _ Hbuf _] Hbc rhandler Hproto Himm.
  destruct (is_empty_ok _ _ _ Hbq Hrank) as [b Hb].
  set (s1 := p_net (with_send_ctx a 0 p)).
  set (op := mk_op bo_sends (a_rank a) (a_local_buffer a) (a_size a) 0 0 RMR_NULL imm
               (ns_brk (p_net p))).
  assert (I1 : bq_inv support_putimm s1) by (eapply bq_inv_brk; [exact Hbq|simpl; lia|done|done]).
  destruct (post_op_commits post_impl support_putimm s1 op I1) as (e & s2 & Hpost & He & [Hcom _ _ _ _ _]).
  { split_and!; try done; [by apply orb_true_r|apply Hargs]. }
  { done. }
  exists e, (set_net s2 (with_send_ctx a 0 p)). split; [|split; [exact He|]].
  - eapply (post_comm_send fuel a p b proto_inject piggyback (mk_pinfo 0 false 0) p imm);
      [done|done|done|by left| |done| |exact He].
    + unfold set_packet_if_needed. rewrite (st_bind_eq _ _ p (p_pool p) p) by done. by rewrite Hbuf.
    + intros s H1 H2 H3 H4 H5. rewrite decide_True by done. unfold post_inject.
      cbn [t_local_buffer_only traits_of]. rewrite H2, H5, (sa_retry _ Hargs). unfold in_net.
      change (p_net (with_send_ctx a (pi_packet (mk_pinfo 0 false 0)) p)) with s1.
      change (post_sends post_impl _ _ _ _ _ _ _) with (post_op post_impl support_putimm op false false).
      by rewrite Hpost.
  - exists (view (mem p) op). split; [|done]. intros r. apply Hcom.
Qed.

Lemma bcopy_size a t rhandler piggyback :
  send_args a -> set_protocol cf a t rhandler = (proto_eager_bcopy, piggyback) ->
  a_size a + (if piggyback then 8 + 4 else 0) <= t_max_bcopy_size t.
Proof.
  intros [Hd _ _ _ _ _ _ _ [H0 Hs]]. unfold set_protocol. rewrite Hd.
  rewrite (bool_decide_eq_true_2 (OUT = OUT)) by done. cbn [negb andb].
  set (sz := if _ && _ then _ else a_size a).
  assert (Hsz : sz = a_size a \/ sz = a_size a + (8 + 4)).
  { unfold sz. destruct (_ && _); [right|by left]. apply u64_id. unfold is_u64. lia. }
  destruct (t_local_buffer_only t && (t_max_bcopy_size t <? sz)); [done|].
  destruct (_ && negb (a_size a <? sz)); [done|].
  destruct ((_ || _) && (sz <=? t_max_bcopy_size t) && _) eqn:E2; [|done].
  intros [= <-]. destruct Hsz as [-> | ->].
  - rewrite Z.ltb_irrefl. lia.
  - rewrite (proj2 (Z.ltb_lt _ _)) by lia. lia.
Qed.

(** A message that fits lies inside its packet, below the heap's end. *)
Lemma message_in_packet held packet q size :
  inv (packet :: held) q -> LCI_CACHE_LINE + 12 <= packet_size (attr q) ->
  size <= get_max_bcopy_size q ->
  payload packet + size <= heap q + heap_size q.
Proof.
  intros Hi Hps Hsz. pose proof (pi_layout _ _ _ _ _ Hi) as Hl. pose proof Hl as [H1 _ _ H4 _ _].
  assert (Hin : packet ∈ all_packets q) by (rewrite <- (pi_all _ _ _ _ _ Hi); by left).
  destruct (packet_bounds _ _ _ Hl Hin) as (_ & Hb & _ & _ & _).
  destruct (payload_packet _ _ _ Hl Hin) as [Hpay _]. unfold Process.payload. rewrite Hpay.
  unfold get_max_bcopy_size, get_payload_size, LCI_CACHE_LINE in *.
  rewrite (u64_id (packet_size (attr q) - 64)) in Hsz by (unfold is_u64; lia).
  rewrite u64_id in Hsz by (unfold is_u64; lia). lia.
Qed.

Lemma bcopy_sends fuel held a p piggyback imm packet p0 :
  sender held a p -> backend_codes post_impl ->
  let rhandler := resolve_rhandler a (traits_of a p) in
  set_protocol cf a (traits_of a p) rhandler = (proto_eager_bcopy, piggyback) ->
  set_immediate_data cf a proto_eager_bcopy rhandler = Ok imm ->
  get_packet cf envs tid true p = Ok (packet, p0) ->
  exists e p', post_comm fuel a p = Ok (inr (st_with_error e (set_status a)), p')
    /\ is_done e = true
    /\ sent a imm (eager_message (load_bytes (mem p) (a_local_buffer a) (a_size a)) a rhandler
                     piggyback) p p'.
Proof.
  intros [Hargs Hbq Hrank Hroom Hpool Hps Hreg Hbrk Hblk Hbuf _] Hbc rhandler Hproto Himm Hget.
  pose proof (get_packet_blocking _ _ _ _ _ _ Hget) as Hnz. cbv beta in Hnz.
  destruct (get_packet_spec held true p packet p0 Hpool Hget Hnz) as (q0 & -> & Hi0 & Hsm0).
  pose proof (bcopy_size _ _ _ _ Hargs Hproto) as Hfit.
  destruct (is_empty_ok _ _ _ Hbq Hrank) as [b Hb]. pose proof (sa_size _ Hargs) as [Hs0 Hs1].
  set (p0 := set_pool q0 (tick p)) in *.
  destruct (build_packet_spec (packet :: held) a (traits_of a p) rhandler piggyback packet p0)
    as (m & q1 & Hbuild & Hload & Hother & Hi1 & Hsm1); [done|by left|lia| |].
  { intros ->. lia. }
  change (mem p0) with (mem p) in *.
  set (msg := eager_message _ a rhandler piggyback) in *.
  set (size := Z.of_nat (length msg)) in *. set (p1 := with_mem m (set_pool q1 p0)) in *.
  assert (Hlen : size = a_size a + (if piggyback then 8 + 4 else 0)).
  { unfold size, msg, eager_message. rewrite length_app, length_load_bytes.
    destruct piggyback; rewrite ?length_app, ?length_le_bytes; simpl; lia. }
  assert (Hend : payload packet + size <= heap (p_pool p) + heap_size (p_pool p)).
  { pose proof Hsm0 as (Ha & Hh & _ & Hz & _). rewrite <- Hh, <- Hz.
    eapply message_in_packet; [exact Hi0|by rewrite Ha|].
    unfold get_max_bcopy_size, get_payload_size. rewrite Ha. rewrite Hlen. exact Hfit. }
  set (mr := get 0 (cf_device_uid cf) (mrs (p_pool p))) in *.
  set (s1 := p_net (with_send_ctx a packet p1)).
  set (op := mk_op bo_send (a_rank a) (payload packet) size mr 0 RMR_NULL imm (ns_brk (p_net p))).
  assert (I1 : bq_inv support_putimm s1) by (eapply bq_inv_brk; [exact Hbq|simpl; lia|done|done]).
  assert (Hreq : requests s1 = requests (p_net p)).
  { unfold requests. simpl. f_equal. apply (views_agree support_putimm (p_net p) m Hbq).
    intros x n y Hx Hy. apply Hblk in Hx. apply Hother. lia. }
  destruct (post_op_commits post_impl support_putimm s1 op I1)
    as (e & s2 & Hpost & He & [Hcom _ Hfr _ _ _]).
  { split_and!; try done; [by apply orb_true_r|unfold size; simpl; lia]. }
  { done. }
  exists ec_done, (set_net s2 (with_send_ctx a packet p1)). split; [|split; [done|]].
  - eapply (post_comm_send fuel a p b proto_eager_bcopy piggyback (mk_pinfo packet false size) p1 imm);
      [done|done|done|by right| |done| |done].
    + unfold set_packet_if_needed. rewrite (st_bind_eq _ _ p (p_pool p) p) by done.
      rewrite Hbuf, (sa_retry _ Hargs), bool_decide_eq_true_2 by done.
      cbn [negb orb andb].
      rewrite (st_bind_eq _ _ p (Some packet) p0).
      2:{ rewrite (st_bind_eq _ _ _ _ _ Hget). by rewrite (proj2 (Z.eqb_neq packet 0)). }
      rewrite decide_False by done. rewrite (sa_direction _ Hargs), decide_True by done.
      by rewrite (st_bind_eq _ _ _ _ _ Hbuild).
    + intros s H1 H2 H3 H4 H5. rewrite decide_False by done. unfold post_bcopy.
      rewrite (st_bind_eq _ _ _ mr (with_send_ctx a packet p1)).
      2:{ unfold get_or_register_mr. rewrite (st_bind_eq _ _ _ q1 (with_send_ctx a packet p1)) by done.
          destruct Hsm0 as (_ & _ & _ & _ & Hm0 & _), Hsm1 as (_ & _ & _ & _ & Hm1 & _).
          rewrite Hm1. simpl. rewrite Hm0. fold mr. by rewrite (proj2 (Z.eqb_neq mr 0)). }
      cbn [t_local_buffer_only traits_of]. rewrite H2, H3, H4, H5, (sa_retry _ Hargs).
      rewrite (st_bind_eq _ _ _ e (set_net s2 (with_send_ctx a packet p1))).
      * cbn in He. rewrite He. unfold is_memory. by rewrite (sa_memory _ Hargs).
      * unfold in_net. change (p_net (with_send_ctx a packet p1)) with s1.
        change (post_send post_impl _ _ _ _ _ _ _ _)
          with (post_op post_impl support_putimm op false false). by rewrite Hpost.
  - exists (view m op). split; [|split_and!; [done|done|]].
    + intros r. rewrite <- Hreq. apply Hcom.
    + unfold wire. simpl. rewrite <- Hload. apply load_bytes_ext. intros x Hx.
      rewrite Hfr by (simpl; lia). done.
Qed.

Lemma inject_no_metadata a t rhandler piggyback :
  set_protocol cf a t rhandler = (proto_inject, piggyback) -> piggyback = false.
Proof.
  unfold set_protocol. set (sz := if _ && _ then _ else a_size a).
  destruct (negb _ && _); [done|]. destruct (_ && (t_max_bcopy_size t <? sz)); [done|].
  destruct (_ && negb (a_size a <? sz)) eqn:E1.
  - by intros [= <-].
  - by destruct ((_ || _) && (sz <=? t_max_bcopy_size t) && _).
Qed.

(** A send or an active message that may not be retried and goes by the
    inject or the buffer-copy protocol returns done, whatever the backend says and
    whether or not operations are parked, and has added exactly one request to the
    requests of the endpoint: to the given rank, behind all earlier ones to that
    rank, with the chosen immediate data, and with bytes that are the user's data
    followed by the metadata that does not fit in immediate data. *)
Theorem eager_send_commits fuel held a p protocol piggyback imm :
  sender held a p -> backend_codes post_impl ->
  let rhandler := resolve_rhandler a (traits_of a p) in
  set_protocol cf a (traits_of a p) rhandler = (protocol, piggyback) ->
  protocol = proto_inject
    \/ (protocol = proto_eager_bcopy
        /\ exists packet p0, get_packet cf envs tid true p = Ok (packet, p0)) ->
  set_immediate_data cf a protocol rhandler = Ok imm ->
  exists e p', post_comm fuel a p = Ok (inr (st_with_error e (set_status a)), p')
    /\ is_done e = true
    /\ sent a imm (eager_message (load_bytes (mem p) (a_local_buffer a) (a_size a)) a rhandler
                     piggyback) p p'.
Proof.
  intros Hs Hbc rhandler Hp [-> | (-> & packet & p0 & Hg)] Hi; [|by eapply bcopy_sends].
  rewrite (inject_no_metadata _ _ _ _ Hp) in *. unfold eager_message. rewrite app_nil_r.
  by eapply inject_sends.
Qed.
End Sender.

(** The send of [Demo] satisfies the premises. *)
Lemma demo_sender_ok tag :
  sender demo_config false [] (demo_send tag) demo_sender.
Proof.
  assert (Hpool : p_pool demo_sender = with_mrs (mrs (p_pool demo_sender)) demo_pool)
    by (vm_compute; reflexivity).
  assert (Hmr : get 0 0 (mrs (p_pool demo_sender)) <> 0) by (vm_compute; discriminate).
  assert (Hbl : ns_blocks (p_net demo_sender) = {[10000 := 1]}) by (vm_compute; reflexivity).
  assert (Hbq : ns_bq (p_net demo_sender) = backlog_queue_new 2) by (vm_compute; reflexivity).
  assert (Hbrk : ns_brk (p_net demo_sender) = 10001) by (vm_compute; reflexivity).
  assert (Hheap : heap demo_pool + heap_size demo_pool = 6208) by (vm_compute; reflexivity).
  assert (Hps : packet_size (attr demo_pool) = 512) by (vm_compute; reflexivity).
  assert (Hpk : is_packet 40 demo_pool 100 false = false) by (vm_compute; reflexivity).
  pose proof demo_pool_inv as Hinv. generalize dependent demo_sender. intros p.
  generalize dependent demo_pool. intros q Hheap Hps Hpk Hinv Hpool Hmr Hbl Hbq Hbrk.
  generalize dependent (mrs (p_pool p)). intros m Hpool Hmr.
  constructor; rewrite ?Hpool, ?Hbl, ?Hbq, ?Hbrk; try done.
  - constructor; rewrite ?Hbq, ?Hbl, ?Hbrk; try done; try (by constructor); try lia.
    + intros [|[|r]] n; simpl; by intros [= <-].
    + intros a n [<- <-]%lookup_singleton_Some. lia.
  - unfold valid_rank. rewrite Hbq. simpl. lia.
  - destruct Hinv as [[H1 H2 H3 H4 H5 H6] Hs Ha Ho]. by split.
  - simpl. unfold LCI_CACHE_LINE. lia.
  - simpl. lia.
  - intros b n [<- <-]%lookup_singleton_Some. simpl. lia.
Qed.

Lemma refusing_codes : backend_codes refusing.
Proof. intros op h m b. discriminate. Qed.
Lemma demo_packet :
  exists packet p0, get_packet demo_config demo_envs 0 true demo_sender = Ok (packet, p0).
Proof.
  destruct (get_packet demo_config demo_envs 0 true demo_sender) as [[packet p0]|f] eqn:E; [eauto|].
  vm_compute in E. discriminate.
Qed.

(** Tag 70000 needs the buffer-copy protocol; the backend refuses and the request
    is parked. *)
Lemma eager_send_commits_witness :
  exists e p', post_comm demo_config demo_envs 0 (fun _ => 0) refusing false no_events no_recvs 0
                 (demo_send 70000) demo_sender
               = Ok (inr (st_with_error e (set_status (demo_send 70000))), p')
    /\ is_done e = true
    /\ sent (demo_send 70000) 0 (eager_message [7; 8; 9] (demo_send 70000) 4 true) demo_sender p'.
Proof.
  apply (eager_send_commits demo_config demo_envs 0 (fun _ => 0) refusing false no_events no_recvs 0
           [] (demo_send 70000) demo_sender proto_eager_bcopy true 0).
  - apply demo_sender_ok.
  - apply refusing_codes.
  - vm_compute. reflexivity.
  - right. split; [reflexivity|]. apply demo_packet.
  - vm_compute. reflexivity.
Defined.
