(* ===== verification/EagerEndToEnd.v ===== *)
(** * From a send to its receive

    Two processes: the message one of them sends by an eager protocol is, once
    the network has put its bytes in a packet of the other, what the matching
    receive gets there. *)
From stdpp Require Import base numbers list gmap strings.
From Stdlib Require Import ZArith Lia.
From S2P Require Import Prelude Bits Status MpmcArray MatchSpec MatchMap RhandlerRegistry MpmcSet PacketPool.
From S2P Require Import Comp Memory Net Endpoint Backlog Process Rendezvous Progress Communicate.
From S2P Require Import ProcessLaws Protocol Demo PostComm Frames Requests EagerDelivery EagerSend.

Section TwoProcesses.
(** The sender, with its backend, and the receiver, with its own. *)
Context {B E B' E' : Type} `{!MatchingEngine E} `{!MatchingEngine E'}.
Variable cf cf' : config.
Variable envs envs' : nat -> steal_env.
Variable tid tid' : nat.
Variable get_rkey get_rkey' : Z -> Z.
Variable post_impl : net_op_t -> bool -> memory -> B -> errorcode_t * B.
Variable post_impl' : net_op_t -> bool -> memory -> B' -> errorcode_t * B'.
Variable support_putimm support_putimm' : bool.
Variable poll_comp_impl : nat -> memory -> B -> list net_status_t * memory * B.
Variable poll_comp_impl' : nat -> memory -> B' -> list net_status_t * memory * B'.
Variable post_recvs_impl : list Z -> Z -> Z -> B -> nat * B.
Variable post_recvs_impl' : list Z -> Z -> Z -> B' -> nat * B'.

#[local] Abbreviation mem p := (ns_mem (p_net p)).
#[local] Abbreviation post_comm_s :=
  (post_comm (E := E) cf envs tid get_rkey post_impl support_putimm poll_comp_impl post_recvs_impl).
#[local] Abbreviation post_comm_r :=
  (post_comm (E := E') cf' envs' tid' get_rkey' post_impl' support_putimm' poll_comp_impl'
     post_recvs_impl').
#[local] Abbreviation progress_recv_r :=
  (progress_recv (E := E') cf' tid' get_rkey' post_impl' support_putimm').

(** What the network promises of a request it delivers: the completion [st] names
    the sender, the immediate data and the length, and the packet it names holds
    the bytes of the request. *)
Record carried (q : request) (bytes : list Z) (rank : Z) (st : net_status_t) (packet : Z)
    (p' : proc B' E') : Prop := mk_carried {
  cr_rank : ns_rank st = rank;
  cr_imm : ns_imm_data st = no_imm_data q.1;
  cr_length : ns_length st = Z.of_nat (length bytes);
  cr_packet : ns_user_context st = packet;
  cr_bytes : load_bytes (mem p') (payload cf' packet) (Z.of_nat (length bytes)) = bytes
}.

(** A receiver at which a receive [b] and a message with handler [rhandler] and
    [tag] from [rank] meet: the handler stands for an engine and a policy under
    which message and receive have the same key, and nothing of that key waits. *)
Record awaits (held : list Z) (p' : proc B' E') (packet rank tag size rhandler eng : Z)
    (pol : matching_policy_t) (key : Z) (e : E') (b : post_comm_args_t) : Prop := mk_awaits {
  aw_pool : pool_inv (cf_sizeof_lctx cf') (cf_pool cf') (cf_garbage cf') (packet :: held) (p_pool p');
  aw_handler : registry_get rhandler (p_registry p')
    = Ok (mk_entry rh_matching_engine eng (policy_val pol));
  aw_policy : pol <> mp_max;
  aw_key : make_key rank tag pol = Ok key;
  aw_u64 : is_u64 key;
  aw_engine : p_engines p' !! eng = Some e;
  aw_inv : engine_inv e;
  aw_recv : recv_args cf' b p';
  aw_eng : a_matching_engine b = eng;
  aw_recv_key : make_key (a_rank b) (a_tag b) (recv_policy b) = Ok key;
  aw_idle : idle_at e key;
  aw_brk : 0 < ns_brk (p_net p');
  aw_fresh : ns_ctxs (p_net p') !! ns_brk (p_net p') = None;
  aw_pending : - 2 ^ 63 <= p_pending p' /\ p_pending p' + 1 < 2 ^ 63;
  aw_comp : exists c c', p_comps p' !! a_local_comp b = Some c
    /\ comp_signal (done_status b rank tag size) c = Ok c'
}.

(** The receive [b] of [p'] has got [data]: posted first, it is signalled by the
    arrival [st]; posted later, it returns done. *)
Definition gets_message (fuel : nat) (b : post_comm_args_t) (p' : proc B' E') (st : net_status_t)
    (status : status_t) (data : list Z) : Prop :=
  (exists s1 p1 p2, post_comm_r fuel b p' = Ok (inr s1, p1) /\ is_posted (st_error s1) = true
     /\ progress_recv_r st p1 = Ok (tt, p2)
     /\ p_signals p2 = p_signals p' ++ [(a_local_comp b, status)]
     /\ load_bytes (mem p2) (a_local_buffer b) (Z.of_nat (length data)) = data)
  /\ (exists p1 p2, progress_recv_r st p' = Ok (tt, p1)
     /\ post_comm_r fuel b p1 = Ok (inr status, p2)
     /\ load_bytes (mem p2) (a_local_buffer b) (Z.of_nat (length data)) = data).

Lemma delivery_gets fuel held p' st packet tag size eng pol key e b :
  delivery cf' held p' st packet tag size eng pol key e b ->
  gets_message fuel b p' st (done_status b (ns_rank st) tag size)
    (load_bytes (mem p') (payload cf' packet) size).
Proof.
  intros Hdel. pose proof (ea_size _ _ _ _ _ _ _ _ _ _ _ (dv_arrival _ _ _ _ _ _ _ _ _ _ _ _ Hdel)).
  unfold gets_message. rewrite length_load_bytes, Z2Nat.id by done. split.
  - destruct (recv_then_message cf' tid' get_rkey' post_impl' support_putimm' envs' poll_comp_impl'
      post_recvs_impl' fuel _ _ _ _ _ _ _ _ _ _ _ Hdel)
      as (s2 & p2 & p3 & H1 & H2 & H3 & H4 & [H5 _ _ _ _ _]).
    exists s2, p2, p3. by rewrite H5.
  - destruct (message_then_recv cf' tid' get_rkey' post_impl' support_putimm' envs' poll_comp_impl'
      post_recvs_impl' fuel _ _ _ _ _ _ _ _ _ _ _ Hdel)
      as (p2 & p3 & H1 & H2 & _ & [H5 _ _ _ _ _]).
    exists p2, p3. by rewrite H5.
Qed.

(** The eager protocols that do not read the user's buffer after the post. *)
Definition copied (protocol : protocol_t) (p : proc B E) : Prop :=
  protocol = proto_inject
  \/ (protocol = proto_eager_bcopy
      /\ exists packet p0, get_packet cf envs tid true p = Ok (packet, p0)).

Lemma eager_copied fuel held a p protocol piggyback imm :
  sender cf support_putimm held a p -> backend_codes post_impl ->
  let rhandler := resolve_rhandler a (traits_of cf a p) in
  set_protocol cf a (traits_of cf a p) rhandler = (protocol, piggyback) -> copied protocol p ->
  set_immediate_data cf a protocol rhandler = Ok imm ->
  exists s1 p1, post_comm_s fuel a p = Ok (inr s1, p1) /\ is_done (st_error s1) = true
    /\ sent a imm (eager_message (load_bytes (mem p) (a_local_buffer a) (a_size a)) a rhandler
                     piggyback) p p1.
Proof.
  intros Hs Hbc rhandler Hp [-> | (-> & packet & p0 & Hg)] Hi.
  - pose proof (inject_no_metadata _ _ _ _ _ Hp) as ->. unfold eager_message. rewrite app_nil_r.
    destruct (inject_sends cf envs tid get_rkey post_impl support_putimm poll_comp_impl
      post_recvs_impl fuel held a p false imm) as (e & p1 & H1 & H2 & H3); [done..|].
    by exists (st_with_error e (set_status a)), p1.
  - destruct (bcopy_sends cf envs tid get_rkey post_impl support_putimm poll_comp_impl
      post_recvs_impl fuel held a p piggyback imm packet p0) as (e & p1 & H1 & H2 & H3); [done..|].
    by exists (st_with_error e (set_status a)), p1.
Qed.

(** C2: end to end, with at most 16 bits of tag and 15 bits of handler in the immediate
    data, a send that may not be retried and that the sender copies
    (inject or buffer-copy protocol) commits a request such that, wherever the
    network delivers that request, the matching receive gets the sender's data: if
    the receive is posted before the message arrives, its completion object is
    signalled with the sender's rank, tag and size, and if it is posted after, it
    returns done with them; in both cases its buffer holds the bytes that were in
    the sender's buffer when the send was posted. *)
Theorem eager_end_to_end fuel fuel' held a p protocol piggyback rank :
  imm_config cf -> sender cf support_putimm held a p -> backend_codes post_impl ->
  is_u64 (a_tag a) ->
  let rhandler := resolve_rhandler a (traits_of cf a p) in
  0 < rhandler < 2 ^ 32 ->
  set_protocol cf a (traits_of cf a p) rhandler = (protocol, piggyback) -> copied protocol p ->
  let data := load_bytes (mem p) (a_local_buffer a) (a_size a) in
  exists s1 p1 q, post_comm_s fuel a p = Ok (inr s1, p1) /\ is_done (st_error s1) = true
    /\ (forall r, to_rank r (requests (p_net p1)) = to_rank r (requests (p_net p)) ++ to_rank r [q])
    /\ no_rank q.1 = a_rank a /\ set_immediate_data cf a protocol rhandler = Ok (no_imm_data q.1)
    /\ wire (mem p1) q = eager_message data a rhandler piggyback
    /\ forall held' p' st packet eng pol key e b,
         carried q (wire (mem p1) q) rank st packet p' ->
         awaits held' p' packet rank (a_tag a) (a_size a) rhandler eng pol key e b ->
         gets_message fuel' b p' st (done_status b rank (a_tag a) (a_size a)) data.
Proof.
  intros Hcf Hs Hbc Ht rhandler Hr Hp Hcp data. pose proof (sd_args _ _ _ _ _ Hs) as Hargs.
  pose proof (sa_size _ Hargs) as [Hs0 Hs1].
  assert (Hlen : a_size a = Z.of_nat (length data)).
  { unfold data. rewrite length_load_bytes. lia. }
  assert (Hne : protocol <> proto_rdv_zcopy) by (by destruct Hcp as [-> | [-> _]]).
  destruct (eager_decodes cf a (traits_of cf a p) rhandler protocol piggyback data)
    as (imm & Himm & Hdec); try done; [apply Hargs|apply Hs|].
  destruct (eager_copied fuel held a p protocol piggyback imm Hs Hbc Hp Hcp Himm)
    as (s1 & p1 & Hpost & Hdone & q & Hq & Hqr & Hqi & Hqw).
  exists s1, p1, q. split_and!; try done; [by rewrite Hqi|]. fold rhandler data in Hqw. rewrite Hqw.
  intros held' p' st packet eng pol key e b [Hst Hsi Hsl Hsp Hsb] Haw.
  assert (Hdel : delivery cf' held' p' st packet (a_tag a) (a_size a) eng pol key e b).
  { destruct Haw. constructor; try (done || by rewrite Hst).
    constructor; try (done || by rewrite Hst). exists rhandler. split; [|done].
    rewrite Hsi, Hqi, Hsl. by apply Hdec. }
  assert (Hbytes : load_bytes (mem p') (payload cf' packet) (a_size a) = data).
  { replace (payload cf' packet) with (payload cf' packet + 0) by lia.
    rewrite (load_bytes_sub _ _ (Z.of_nat (length (eager_message data a rhandler piggyback))));
      [|lia|lia|unfold eager_message; rewrite length_app; lia].
    rewrite Hsb, drop_0. unfold eager_message. rewrite Hlen, Nat2Z.id. apply take_app_length. }
  rewrite <- Hbytes, <- Hst. by eapply delivery_gets.
Qed.
End TwoProcesses.

(** Rank 0 sends three bytes with a tag that travels in the payload; rank 1 gets
    them. *)
Definition demo_message : list Z := eager_message [7; 8; 9] (demo_send 70000) 4 true.
Definition demo_key : Z := or_default 0 (make_key 0 70000 mp_rank_tag).

Lemma demo_awaits :
  awaits demo_config [] (demo_receiver demo_message) demo_got.1 0 70000 3 4 512 mp_rank_tag demo_key
    map_engine_new (demo_recv 70000).
Proof.
  constructor.
  - exact demo_got_inv.
  - vm_compute. reflexivity.
  - discriminate.
  - vm_compute. reflexivity.
  - vm_compute. intuition discriminate.
  - reflexivity.
  - apply map_engine.
  - apply demo_recv_args.
  - reflexivity.
  - vm_compute. reflexivity.
  - intros t. apply map_engine.
  - simpl. lia.
  - reflexivity.
  - simpl. lia.
  - exists (comp_cq false []). eexists. split; reflexivity.
Qed.

Lemma eager_end_to_end_witness :
  (exists s1 p1, post_comm demo_config demo_envs 0 (fun _ => 0) refusing false no_events no_recvs 0
                   (demo_send 70000) demo_sender = Ok (inr s1, p1)
     /\ is_done (st_error s1) = true)
  /\ gets_message demo_config demo_envs 0 (fun _ => 0) taking true no_events no_recvs 0
       (demo_recv 70000) (demo_receiver demo_message) (demo_status 0 15)
       (done_status (demo_recv 70000) 0 70000 3) [7; 8; 9].
Proof.
  destruct (eager_end_to_end demo_config demo_config demo_envs demo_envs 0 0 (fun _ => 0) (fun _ => 0)
    refusing taking false true no_events no_events no_recvs no_recvs 0 0 [] (demo_send 70000)
    demo_sender proto_eager_bcopy true 0) as (s1 & p1 & q & H1 & H2 & _ & _ & H3 & H4 & H5).
  - constructor; simpl; lia.
  - apply demo_sender_ok.
  - apply refusing_codes.
  - unfold is_u64. simpl. lia.
  - vm_compute. split; reflexivity.
  - vm_compute. reflexivity.
  - right. split; [reflexivity|]. apply demo_packet.
  - split; [exists s1, p1; exact (conj H1 H2)|].
    assert (Hd : load_bytes (ns_mem (p_net demo_sender)) 100 3 = [7; 8; 9])
      by (vm_compute; reflexivity).
    assert (Hr : resolve_rhandler (demo_send 70000)
                   (traits_of demo_config (demo_send 70000) demo_sender) = 4)
      by (vm_compute; reflexivity).
    rewrite Hr in H4, H5. cbn [demo_send a_local_buffer a_size] in H4, H5. rewrite Hd in H4, H5.
    assert (Himm : set_immediate_data demo_config (demo_send 70000) proto_eager_bcopy 4 = Ok 0)
      by (vm_compute; reflexivity).
    rewrite Hr, Himm in H3. injection H3 as Hq.
    apply (H5 [] (demo_receiver demo_message) (demo_status 0 15) demo_got.1 512 mp_rank_tag demo_key
             map_engine_new (demo_recv 70000)); [|exact demo_awaits].
    rewrite H4. constructor; [reflexivity|exact Hq|vm_compute; reflexivity|reflexivity|].
    vm_compute. reflexivity.
Defined.
