(* ===== verification/RdvMessages.v ===== *)
(** * Rendezvous messages as bytes

    The RTS and RTR structs survive the trip: what a packet holds decides what
    [load_rts] and [load_rtr] read from it, and they read what was stored. *)
From stdpp Require Import base numbers list gmap strings.
From Stdlib Require Import ZArith Lia.
From S2P Require Import Prelude Bits Status Memory Rendezvous Protocol.

(** A load reads part of the bytes of the message. *)
Lemma load_le_bytes n m m' a a' len off :
  0 <= off -> off + Z.of_nat n <= len ->
  load_bytes m a len = load_bytes m' a' len ->
  load_le n m (a + off) = load_le n m' (a' + off).
Proof.
  intros Ho Hl H. unfold load_le. f_equal.
  rewrite (load_bytes_sub m a len), (load_bytes_sub m' a' len) by lia. by rewrite H.
Qed.

Lemma load_rts_bytes m m' a a' :
  load_bytes m a sizeof_rts_msg_t = load_bytes m' a' sizeof_rts_msg_t ->
  load_rts m a = load_rts m' a'.
Proof.
  intros H. unfold sizeof_rts_msg_t in H. unfold load_rts.
  pose proof (load_le_bytes 4 m m' a a' 32 0 ltac:(lia) ltac:(lia) H) as H0.
  rewrite !Z.add_0_r in H0. rewrite H0.
  rewrite (load_le_bytes 8 m m' a a' 32 8 ltac:(lia) ltac:(lia) H),
    (load_le_bytes 8 m m' a a' 32 16 ltac:(lia) ltac:(lia) H),
    (load_le_bytes 8 m m' a a' 32 24 ltac:(lia) ltac:(lia) H). done.
Qed.

Lemma load_rtr_bytes m m' a a' :
  load_bytes m a sizeof_rtr_msg_t = load_bytes m' a' sizeof_rtr_msg_t ->
  load_rtr m a = load_rtr m' a'.
Proof.
  intros H. unfold sizeof_rtr_msg_t in H. unfold load_rtr.
  pose proof (load_le_bytes 8 m m' a a' 48 0 ltac:(lia) ltac:(lia) H) as H0.
  rewrite !Z.add_0_r in H0. rewrite H0.
  rewrite (load_le_bytes 8 m m' a a' 48 8 ltac:(lia) ltac:(lia) H),
    (load_le_bytes 8 m m' a a' 48 16 ltac:(lia) ltac:(lia) H),
    (load_le_bytes 8 m m' a a' 48 24 ltac:(lia) ltac:(lia) H),
    (load_le_bytes 8 m m' a a' 48 32 ltac:(lia) ltac:(lia) H),
    (load_le_bytes 8 m m' a a' 48 40 ltac:(lia) ltac:(lia) H). done.
Qed.

(** Reads through stores: the field itself, or another one. *)
Ltac load_fields :=
  repeat first
    [ rewrite load_store_le_disjoint by (unfold disjoint; lia)
    | rewrite load_store_le by (unfold is_u64, is_u32 in *; lia) ].

(** The fields have the width of their C++ types. *)
Definition rts_ok (r : rts_msg_t) : Prop :=
  is_u32 (rts_rcomp r) /\ is_u64 (rts_send_ctx r) /\ is_u64 (rts_tag r) /\ is_u64 (rts_size r).

Lemma load_store_rts m a r : rts_ok r -> load_rts (store_rts a r m) a = r.
Proof.
  intros (H1 & H2 & H3 & H4). unfold load_rts, store_rts. load_fields. by destruct r.
Qed.

Lemma store_rts_other m a r x :
  x < a \/ a + sizeof_rts_msg_t <= x -> store_rts a r m x = m x.
Proof.
  unfold sizeof_rts_msg_t, store_rts, store_le. intros H.
  rewrite !store_bytes_other by (rewrite length_le_bytes; lia). done.
Qed.

(** The RTR as [handle_rdv_rts_common] writes it, field by field over the RTS. *)
Definition store_rtr (a : Z) (r : rtr_msg_t) (m : memory) : memory :=
  store_le 8 (a + 8) (rtr_recv_ctx_or_key r)
    (store_le 8 (a + 40) (rtr_offset r)
      (store_rmr (a + 16) (rtr_rmr r)
        (store_le 8 (a + 8) 0 (store_le 8 a (rtr_send_ctx r) m)))).

Definition rtr_ok (r : rtr_msg_t) : Prop :=
  is_u64 (rtr_send_ctx r) /\ is_u64 (rtr_recv_ctx_or_key r) /\ is_u64 (rtr_offset r)
  /\ is_u64 (rmr_base (rtr_rmr r)) /\ is_u64 (rmr_mr_base (rtr_rmr r))
  /\ is_u64 (rmr_opaque_rkey (rtr_rmr r)).

Lemma load_store_rtr m a r : rtr_ok r -> load_rtr (store_rtr a r m) a = r.
Proof.
  intros (H1 & H2 & H3 & H4 & H5 & H6). unfold load_rtr, store_rtr, store_rmr.
  rewrite <- !Z.add_assoc. simpl Z.add. load_fields. destruct r as [? ? [] ?]. done.
Qed.

Lemma store_rtr_other m a r x :
  x < a \/ a + sizeof_rtr_msg_t <= x -> store_rtr a r m x = m x.
Proof.
  unfold sizeof_rtr_msg_t, store_rtr, store_rmr, store_le. intros H.
  rewrite !store_bytes_other by (rewrite length_le_bytes; lia). done.
Qed.
