(* ===== verification/RdvWrites.v ===== *)
(** * The writes of a rendezvous

    The sender of a large message writes it in pieces. The pieces that
    [put_chunks] posts are listed here in closed form; performed in any order they
    put the message, and nothing else, into the memory of the receiver. *)
From stdpp Require Import base numbers list gmap strings.
From Stdlib Require Import ZArith Lia.
From S2P Require Import Prelude Bits Status MatchSpec RhandlerRegistry ImmTagArchive MpmcSet.
From S2P Require Import PacketPool Memory Net Endpoint Backlog Frames Requests Process Rendezvous.

(** ** The pieces *)

(** [(size + max - 1) / max] *)
Definition nchunks (size max : Z) : Z := (size + max - 1) / max.

Lemma nchunks_spec size max :
  0 <= size -> 0 < max -> (nchunks size max - 1) * max < size <= nchunks size max * max \/
  (size = 0 /\ nchunks size max = 0).
Proof.
  intros Hs Hm. unfold nchunks. pose proof (Z.div_mod (size + max - 1) max ltac:(lia)) as H.
  pose proof (Z.mod_pos_bound (size + max - 1) max Hm). set (q := (size + max - 1) / max) in *.
  destruct (decide (size = 0)) as [-> | Hne]; [right|left; nia].
  split; [done|]. nia.
Qed.

Lemma nchunks_lt size max i :
  0 <= size -> 0 < max -> 0 <= i -> i < nchunks size max <-> i * max < size.
Proof.
  intros Hs Hm Hi. destruct (nchunks_spec size max Hs Hm) as [H|[H1 H2]]; [|nia]. nia.
Qed.

Section Pieces.
Variable max : Z.
Variable writeimm : bool.
Variables rank buffer size mr : Z.
Variable rtr : rtr_msg_t.
Variables imm ectx : Z.

Definition piece_length (i : nat) : Z := Z.min (size - Z.of_nat i * max) max.
Definition is_last (i : nat) : bool := size <=? Z.of_nat i * max + piece_length i.

Definition piece (i : nat) : net_op_t :=
  let offset := Z.of_nat i * max in
  mk_op (if writeimm && is_last i then bo_putImm else bo_put) rank (buffer + offset)
    (piece_length i) mr (u64 (rtr_offset rtr + offset)) (rtr_rmr rtr)
    (if writeimm && is_last i then imm else 0) ectx.
Definition pieces : list net_op_t := piece <$> seq 0 (Z.to_nat (nchunks size max)).

Lemma piece_canon i : canon (piece i) = piece i.
Proof. unfold piece. by destruct (writeimm && is_last i). Qed.
Lemma piece_view m i : view m (canon (piece i)) = (piece i, []).
Proof. rewrite piece_canon. unfold view, piece. by destruct (writeimm && is_last i). Qed.

Lemma length_pieces : length pieces = Z.to_nat (nchunks size max).
Proof. unfold pieces. by rewrite length_fmap, length_seq. Qed.

(** Only the last piece carries immediate data. *)
Lemma is_last_iff i :
  0 < max -> 0 <= size -> Z.of_nat i * max < size ->
  is_last i = true <-> Z.of_nat i + 1 = nchunks size max.
Proof.
  intros Hm Hs Hi. unfold is_last, piece_length.
  pose proof (nchunks_lt size max (Z.of_nat i) Hs Hm ltac:(lia)) as H1.
  pose proof (nchunks_lt size max (Z.of_nat i + 1) Hs Hm ltac:(lia)) as H2.
  assert ((size <=? Z.of_nat i * max + Z.min (size - Z.of_nat i * max) max) = true
          <-> size <= (Z.of_nat i + 1) * max) as -> by lia.
  lia.
Qed.
End Pieces.

(** ** What the pieces do to the remote memory *)

(** The effect of a write on the memory of its target: the bytes of the local
    buffer go to the offset within the remote region. *)
Definition put_effect (source : memory) (op : net_op_t) (m : memory) : memory :=
  store_bytes (rmr_base (no_rmr op) + no_offset op)
    (load_bytes source (no_buffer op) (no_size op)) m.

Lemma put_effect_at source op m x :
  0 <= no_size op ->
  let a := rmr_base (no_rmr op) + no_offset op in
  put_effect source op m x
  = if in_range a (no_size op) x then source (no_buffer op + (x - a)) else m x.
Proof.
  intros Hn a. unfold put_effect, store_bytes. fold a.
  rewrite length_load_bytes, Z2Nat.id by done.
  destruct (in_range a (no_size op) x) eqn:E; [|done]. apply in_range_true in E.
  rewrite load_bytes_lookup by lia. simpl. f_equal. lia.
Qed.

Lemma existsb_perm {A} (f : A -> bool) l l' : l ≡ₚ l' -> existsb f l = existsb f l'.
Proof.
  intros HP. apply eq_true_iff_eq. rewrite !existsb_exists.
  setoid_rewrite <- list_elem_of_In. by setoid_rewrite HP.
Qed.

(** Writes that agree with one copy of a range, whatever their order, are that
    copy, on the part they cover. *)
Definition part_of_copy (dst src n : Z) (op : net_op_t) : Prop :=
  let a := rmr_base (no_rmr op) + no_offset op in
  0 <= no_size op /\ dst <= a /\ a + no_size op <= dst + n /\ no_buffer op - a = src - dst.

Lemma puts_copy source dst src n ops m x :
  Forall (part_of_copy dst src n) ops ->
  foldr (put_effect source) m ops x
  = if existsb (fun op => in_range (rmr_base (no_rmr op) + no_offset op) (no_size op) x) ops
    then source (src + (x - dst)) else m x.
Proof.
  induction 1 as [|op ops (H0 & H1 & H2 & H3) Hops IH]; [done|]. simpl.
  rewrite put_effect_at by done.
  destruct (in_range _ (no_size op) x) eqn:E; simpl; [|exact IH]. f_equal. lia.
Qed.

Section Effect.
Variable max : Z.
Variable writeimm : bool.
Variables rank buffer size mr : Z.
Variable rtr : rtr_msg_t.
Variables imm ectx : Z.
Hypothesis max_pos : 0 < max.
Hypothesis size_pos : 0 <= size.
(** The remote range does not wrap around the address space. *)
Hypothesis offset_small : 0 <= rtr_offset rtr /\ rtr_offset rtr + size + max < 2 ^ 64.

#[local] Abbreviation pieces := (pieces max writeimm rank buffer size mr rtr imm ectx).
#[local] Abbreviation target := (rmr_base (rtr_rmr rtr) + rtr_offset rtr).

Lemma pieces_part : Forall (part_of_copy target buffer size) pieces.
Proof.
  apply Forall_fmap, Forall_forall. intros i Hi. apply elem_of_seq in Hi as [_ Hi].
  pose proof (proj1 (nchunks_lt size max (Z.of_nat i) size_pos max_pos ltac:(lia)) ltac:(lia)) as Hlt.
  unfold compose, part_of_copy, piece, piece_length. simpl.
  rewrite u64_id by (unfold is_u64; lia). lia.
Qed.

Lemma pieces_cover x :
  existsb (fun op => in_range (rmr_base (no_rmr op) + no_offset op) (no_size op) x) pieces
  = in_range target size x.
Proof.
  apply eq_true_iff_eq. rewrite existsb_exists, in_range_true. split.
  - intros (op & Hop & Hx). apply in_range_true in Hx.
    pose proof pieces_part as Hp. rewrite Forall_forall in Hp.
    apply list_elem_of_In in Hop. destruct (Hp op Hop) as (?&?&?&?). lia.
  - intros Hx. set (k := (x - target) / max).
    pose proof (Z.div_mod (x - target) max ltac:(lia)) as Hd.
    pose proof (Z.mod_pos_bound (x - target) max max_pos) as Hb. fold k in Hd.
    assert (0 <= k) by (apply Z.div_pos; lia).
    exists (piece max writeimm rank buffer size mr rtr imm ectx (Z.to_nat k)). split.
    + apply list_elem_of_In, list_elem_of_fmap_2, elem_of_seq.
      pose proof (proj2 (nchunks_lt size max k size_pos max_pos ltac:(lia)) ltac:(nia)). lia.
    + apply in_range_true. unfold piece, piece_length. simpl. rewrite Z2Nat.id by done.
      rewrite u64_id by (unfold is_u64; nia). nia.
Qed.

(** The pieces in any order are one copy of the message. *)
Lemma pieces_any_order source m ops :
  ops ≡ₚ pieces ->
  load_bytes (foldr (put_effect source) m ops) target size = load_bytes source buffer size
  /\ forall x, x < target \/ target + size <= x -> foldr (put_effect source) m ops x = m x.
Proof.
  intros HP.
  assert (Hx : forall x, foldr (put_effect source) m ops x
    = if in_range target size x then source (buffer + (x - target)) else m x).
  { intros x. rewrite (puts_copy source target buffer size).
    - by rewrite <- pieces_cover, (existsb_perm _ _ _ HP).
    - rewrite HP. apply pieces_part. }
  split.
  - unfold load_bytes. apply list_fmap_ext. intros i y Hy. apply lookup_seq in Hy as [-> Hi].
    rewrite Hx, (proj2 (in_range_true _ _ _)) by lia. f_equal. lia.
  - intros x Ho. by rewrite Hx, (proj2 (in_range_false _ _ _)).
Qed.
End Effect.

(** ** [put_chunks] *)

Section Posting.
Context {B E : Type} `{!MatchingEngine E}.
Variable cf : config.
Variable post_impl : net_op_t -> bool -> memory -> B -> errorcode_t * B.
Variable support_putimm : bool.
Implicit Types p : proc B E.

#[local] Abbreviation committed := (committed support_putimm).
#[local] Abbreviation max := (cf_max_msg_size cf).

(** The conditions under which a process can post [n] operations to a rank. *)
Record can_post (s : nstate B) (rank : Z) (n : nat) : Prop := mk_can_post {
  cp_inv : bq_inv support_putimm s;
  cp_rank : valid_rank s rank;
  cp_room : Z.of_nat (length (bq_queue (ns_bq s))) + Z.of_nat n < 2 ^ 64
}.

Lemma can_post_after s s' rank qs n :
  can_post s rank (length qs + n) -> committed s qs s' -> can_post s' rank n.
Proof.
  intros [I Hr Hl] [_ I' _ (_ & _ & Hn & _) _ Hq]. split; [done| |lia].
  unfold valid_rank in *. by rewrite Hn.
Qed.

Lemma put_chunks_spec rank buffer size mr rtr imm ectx n : forall i fuel p,
  backend_codes post_impl -> negb (cf_writeimm cf) || support_putimm = true ->
  0 < max -> 0 <= size -> size + max < 2 ^ 64 ->
  (i + n = Z.to_nat (nchunks size max))%nat -> (n <= fuel)%nat ->
  can_post (p_net p) rank n ->
  exists s', put_chunks cf post_impl support_putimm fuel rank buffer size mr rtr imm ectx
               (Z.of_nat i * max) p = Ok (tt, set_net s' p)
    /\ committed (p_net p)
         ((fun o => (o, []))
            <$> (piece max (cf_writeimm cf) rank buffer size mr rtr imm ectx <$> seq i n)) s'.
Proof.
  induction n as [|n IH]; intros i fuel p Hbc Hw Hm Hs Hb Hin Hf Hc.
  - exists (p_net p). split; [|apply committed_nil, Hc].
    pose proof (nchunks_lt size max (Z.of_nat i) Hs Hm ltac:(lia)).
    assert (Hlt : (Z.of_nat i * max <? size) = false) by lia.
    destruct fuel; simpl; rewrite Hlt; by destruct p.
  - destruct fuel as [|fuel]; [lia|].
    pose proof (proj1 (nchunks_lt size max (Z.of_nat i) Hs Hm ltac:(lia)) ltac:(lia)) as Hlt.
    set (op := piece max (cf_writeimm cf) rank buffer size mr rtr imm ectx i).
    assert (Hop : postable support_putimm (p_net p) op).
    { destruct Hc as [I Hr Hl]. unfold op, piece, postable. simpl.
      split_and!; [|unfold piece_length; lia|apply Hr|lia].
      destruct (cf_writeimm cf), (is_last max size i); simpl in *; rewrite ?orb_true_r; try done.
      by rewrite Hw. }
    destruct (post_op_commits post_impl support_putimm (p_net p) op (cp_inv _ _ _ Hc) Hop Hbc)
      as (e & s1 & Hpost & He & Hcom).
    unfold op in Hcom at 1. rewrite piece_view in Hcom. fold op in Hcom.
    destruct (IH (S i) fuel (set_net s1 p)) as (s2 & Hrest & Hcom2); try done; try lia.
    { eapply can_post_after; [|exact Hcom]. exact Hc. }
    exists s2. split; [|exact (committed_app _ _ _ _ _ _ Hcom Hcom2)].
    cbn [put_chunks]. rewrite (proj2 (Z.ltb_lt _ _) Hlt). cbn [negb].
    fold (piece_length max size i). fold (is_last max size i).
    rewrite (st_bind_eq _ _ p e (set_net s1 p)).
    + rewrite (st_bind_eq _ _ _ tt (set_net s1 p)).
      2:{ unfold assert_st. rewrite LCI_Assert_true; [done|]. revert He. unfold op, piece. simpl.
          by destruct (cf_writeimm cf && is_last max size i). }
      replace (u64 (Z.of_nat i * max + max)) with (Z.of_nat (S i) * max)
        by (rewrite u64_id; unfold is_u64; nia).
      exact Hrest.
    + revert Hpost. unfold op, piece, in_net.
      destruct (cf_writeimm cf && is_last max size i); intros Hpost.
      * change (post_putImm _ _ _ _ _ _ _ _ _ _ _ _) with (post_op post_impl support_putimm
          (mk_op bo_putImm rank (buffer + Z.of_nat i * max) (piece_length max size i) mr
             (u64 (rtr_offset rtr + Z.of_nat i * max)) (rtr_rmr rtr) imm ectx) false false).
        by rewrite Hpost.
      * change (post_put _ _ _ _ _ _ _ _ _ _) with (post_op post_impl support_putimm
          (mk_op bo_put rank (buffer + Z.of_nat i * max) (piece_length max size i) mr
             (u64 (rtr_offset rtr + Z.of_nat i * max)) (rtr_rmr rtr) 0 ectx) false false).
        by rewrite Hpost.
Qed.
End Posting.
