(* ===== verification/RdvLaws.v ===== *)
(** * Laws of the operations that a rendezvous uses

    Contexts that own a memory registration or a packet, fresh allocations, and
    posts of a process, as equations on its state. *)
From stdpp Require Import base numbers list gmap strings.
From Stdlib Require Import ZArith Lia.
From S2P Require Import Prelude Bits Status MpmcArray MatchSpec RhandlerRegistry ImmTagArchive.
From S2P Require Import MpmcSet PacketPool Comp Memory Net Endpoint Backlog Frames Requests Process.
From S2P Require Import Rendezvous ProcessLaws RdvWrites.

(** ** Packets that can carry an RTR *)

Section Packets.
Context {B E : Type}.
Variable cf : config.
Implicit Types p : proc B E.

#[local] Abbreviation inv := (pool_inv (cf_sizeof_lctx cf) (cf_pool cf) (cf_garbage cf)).
#[local] Abbreviation mem p := (ns_mem (p_net p)).
#[local] Abbreviation payload := (payload cf).

(** The packets are registered, hold an RTR, and lie below every live block. *)
Record pool_ready (held : list Z) p : Prop := mk_pool_ready {
  pr_inv : inv held (p_pool p);
  pr_psize : LCI_CACHE_LINE + sizeof_rtr_msg_t <= packet_size (attr (p_pool p));
  pr_registered : get 0 (cf_device_uid cf) (mrs (p_pool p)) <> 0;
  pr_brk : heap (p_pool p) + heap_size (p_pool p) <= ns_brk (p_net p);
  pr_blocks : forall b n, ns_blocks (p_net p) !! b = Some n ->
    heap (p_pool p) + heap_size (p_pool p) <= b
}.

Lemma payload_in_heap held packet q n :
  inv held q -> packet ∈ held -> LCI_CACHE_LINE + n <= packet_size (attr q) ->
  0 < payload packet /\ payload packet + n <= heap q + heap_size q.
Proof.
  intros Hi Hin Hps. pose proof (pi_layout _ _ _ _ _ Hi) as Hl. pose proof Hl as [H1 _ _ H4 _ _].
  assert (Hall : packet ∈ all_packets q) by (rewrite <- (pi_all _ _ _ _ _ Hi); set_solver).
  destruct (packet_bounds _ _ _ Hl Hall) as (H0 & Hb & H2 & H3 & _).
  destruct (payload_packet _ _ _ Hl Hall) as [Hpay _]. unfold Process.payload. rewrite Hpay.
  unfold LCI_CACHE_LINE in *. destruct Hl. lia.
Qed.

(** Memory of a packet holds no block. *)
Lemma packet_not_block held p packet n m :
  pool_ready held p -> packet ∈ held -> n <= sizeof_rtr_msg_t ->
  (forall x, x < payload packet \/ payload packet + n <= x -> m x = mem p x) ->
  agree_on_blocks (p_net p) m.
Proof.
  intros [Hi Hps _ _ Hbl] Hin Hn Hm b k x Hb Hx. apply Hbl in Hb. apply Hm. right.
  destruct (payload_in_heap held packet (p_pool p) sizeof_rtr_msg_t Hi Hin Hps). lia.
Qed.

End Packets.

Section Laws.
Context {B E : Type} `{!MatchingEngine E}.
Variable cf : config.
Variable tid : nat.
Variable post_impl : net_op_t -> bool -> memory -> B -> errorcode_t * B.
Variable support_putimm : bool.
Implicit Types p : proc B E.

#[local] Abbreviation inv := (pool_inv (cf_sizeof_lctx cf) (cf_pool cf) (cf_garbage cf)).
#[local] Abbreviation hdr := (header (cf_garbage cf)).
#[local] Abbreviation mem p := (ns_mem (p_net p)).
#[local] Abbreviation grows := (grows support_putimm).

(** ** Contexts *)

Lemma set_pool_id p : set_pool (p_pool p) p = p.
Proof. by destruct p. Qed.
Lemma set_pending_id p : set_pending (p_pending p) p = p.
Proof. by destruct p. Qed.

Definition put_ctx (a : Z) (c : context) p : proc B E :=
  set_net (set_ctxs (<[a := c]> (ns_ctxs (p_net p))) (p_net p)) p.

Lemma with_ctx_eq a c f p :
  ns_ctxs (p_net p) !! a = Some (Plain c) -> with_ctx a f p = Ok (tt, put_ctx a (Plain (f c)) p).
Proof.
  intros H. unfold with_ctx. rewrite (st_bind_eq _ _ _ _ _ (plain_ctx_eq _ _ _ H)).
  unfold in_net, write_ctx. by rewrite H.
Qed.

(** [new] of a context. *)
Definition add_ctx (c : context) p : proc B E :=
  let n := p_net p in
  set_net (mk_nstate (ns_mem n) (ns_brk n + 128) (ns_blocks n) (<[ns_brk n := c]> (ns_ctxs n))
             (ns_bq n) (ns_net n) (ns_accepted n)) p.

Lemma new_ctx_eq c p : in_net (new_ctx c) p = Ok (ns_brk (p_net p), add_ctx c p).
Proof. done. Qed.

(** ** Registration *)

Definition registered (address size : Z) p : proc B E :=
  let n := p_net p in
  set_mrs (<[ns_brk n := mk_mr address size address]> (p_mrs p))
    (set_net (mk_nstate (ns_mem n) (ns_brk n + Z.max 1 1) (<[ns_brk n := 1]> (ns_blocks n))
                (ns_ctxs n) (ns_bq n) (ns_net n) (ns_accepted n)) p).

Lemma register_memory_eq address size p :
  register_memory address size p = Ok (ns_brk (p_net p), registered address size p).
Proof. done. Qed.

(** ** Growth of the steps around posts *)

Lemma put_ctx_grows a c p : bq_inv support_putimm (p_net p) -> grows (p_net p) [] (p_net (put_ctx a c p)).
Proof. intros I. by apply grows_same. Qed.
Lemma add_ctx_grows c p : bq_inv support_putimm (p_net p) -> grows (p_net p) [] (p_net (add_ctx c p)).
Proof. intros I. apply grows_same; try done. simpl. lia. Qed.
Lemma registered_grows a n p :
  bq_inv support_putimm (p_net p) -> grows (p_net p) [] (p_net (registered a n p)).
Proof. intros I. by apply (grows_malloc support_putimm (p_net p) 1). Qed.
Lemma with_mem_grows m p :
  bq_inv support_putimm (p_net p) -> agree_on_owned (p_net p) m ->
  grows (p_net p) [] (p_net (with_mem m p)).
Proof. intros I H. by apply grows_same. Qed.

(** ** A post of a process *)

Lemma post_grows p op :
  can_post support_putimm (p_net p) (no_rank op) 1 -> backend_codes post_impl ->
  support_putimm || negb (is_imm (no_op op)) = true -> 0 <= no_size op ->
  exists e s', in_net (post_op post_impl support_putimm op false false) p = Ok (e, set_net s' p)
    /\ (if is_short (no_op op) then is_done e else is_posted e) = true
    /\ committed support_putimm (p_net p) [view (mem p) (canon op)] s'.
Proof.
  intros [I Hr Hl] Hbc Hs Hn.
  destruct (post_op_commits post_impl support_putimm (p_net p) op I) as (e & s' & H1 & H2 & H3);
    [by split_and!|done|].
  exists e, s'. unfold in_net. by rewrite H1.
Qed.

Lemma can_post_grows (s s' : nstate B) rank qs n :
  can_post support_putimm s rank (length qs + n) -> grows s qs s' ->
  can_post support_putimm s' rank n.
Proof.
  intros [I Hr Hl] [_ I' _ Hn _ _ Hq]. split; [done| |lia]. unfold valid_rank in *. by rewrite Hn.
Qed.

(** ** Deleting a context that owns a registration and a packet *)

Lemma deregister_memory_eq mr m p :
  p_mrs p !! mr = Some m -> is_Some (ns_blocks (p_net p) !! mr) -> mr <> 0 ->
  deregister_memory mr p
  = Ok (tt, set_mrs (delete mr (p_mrs p))
              (set_net (mk_nstate (mem p) (ns_brk (p_net p)) (delete mr (ns_blocks (p_net p)))
                 (ns_ctxs (p_net p)) (ns_bq (p_net p)) (ns_net (p_net p)) (ns_accepted (p_net p))) p)).
Proof.
  intros Hm [n Hb] Hz. unfold deregister_memory. rewrite Hm. unfold free.
  rewrite (proj2 (Z.eqb_neq mr 0)) by done. by rewrite Hb.
Qed.

(** What a context may own when it is deleted. *)
Record owned_ctx (held : list Z) (c : internal_context_t) p : Prop := mk_owned_ctx {
  oc_pool : inv (if ic_packet_to_free c =? 0 then held else ic_packet_to_free c :: held) (p_pool p);
  oc_mr : ic_mr_on_the_fly c = true ->
    is_Some (p_mrs p !! ic_mr c) /\ is_Some (ns_blocks (p_net p) !! ic_mr c) /\ ic_mr c <> 0
    /\ ic_mr c ∉ owned (bq_queue (ns_bq (p_net p)))
}.

(** Context [a] is gone, with what it owned. *)
Record deleted (held : list Z) (a : Z) (c : internal_context_t) p p' : Prop := mk_deleted {
  de_ctxs : ns_ctxs (p_net p') = delete a (ns_ctxs (p_net p));
  de_grows : grows (p_net p) [] (p_net p');
  de_mem : mem p' = mem p;
  de_pool : inv held (p_pool p');
  de_same : same_pool (p_pool p) (p_pool p');
  de_mrs : p_mrs p' = (if ic_mr_on_the_fly c then delete (ic_mr c) (p_mrs p) else p_mrs p);
  de_pending : p_pending p'
    = (if ic_is_user_posted_op c then Counter.i64 (p_pending p + -1) else p_pending p);
  de_comps : p_comps p' = p_comps p;
  de_signals : p_signals p' = p_signals p;
  de_engines : p_engines p' = p_engines p;
  de_registry : p_registry p' = p_registry p;
  de_archive : p_archive p' = p_archive p
}.

Lemma delete_owned_ctx held a c p :
  bq_inv support_putimm (p_net p) -> ns_ctxs (p_net p) !! a = Some (Plain c) ->
  owned_ctx held c p ->
  exists p', delete_ctx cf tid a p = Ok (tt, p') /\ deleted held a c p p'.
Proof.
  intros I Hc [Hpool Hmr]. unfold delete_ctx.
  rewrite (st_bind_eq _ _ _ _ _ (plain_ctx_eq _ _ _ Hc)).
  set (p1 := if ic_mr_on_the_fly c then
    set_mrs (delete (ic_mr c) (p_mrs p))
      (set_net (mk_nstate (mem p) (ns_brk (p_net p)) (delete (ic_mr c) (ns_blocks (p_net p)))
         (ns_ctxs (p_net p)) (ns_bq (p_net p)) (ns_net (p_net p)) (ns_accepted (p_net p))) p) else p).
  rewrite (st_bind_eq _ _ p tt p1).
  2:{ unfold p1. destruct (ic_mr_on_the_fly c); [|done]. destruct Hmr as ([m Hm] & Hb & Hz & _); [done|].
      by eapply deregister_memory_eq. }
  assert (G1 : grows (p_net p) [] (p_net p1)).
  { unfold p1. destruct (ic_mr_on_the_fly c); [|by apply grows_nil].
    apply (grows_free support_putimm (p_net p)); [done|]. by apply Hmr. }
  assert (E1 : p_pool p1 = p_pool p) by (unfold p1; by destruct (ic_mr_on_the_fly c)).
  assert (H2 : exists q, (if negb (ic_packet_to_free c =? 0) then put_back cf tid (ic_packet_to_free c)
                          else mret tt) p1 = Ok (tt, set_pool q p1)
               /\ inv held q /\ same_pool (p_pool p) q).
  { destruct (ic_packet_to_free c =? 0) eqn:Ez; cbn [negb].
    - exists (p_pool p1). rewrite set_pool_id, E1. by split_and!.
    - rewrite <- E1 in Hpool. destruct (put_back_eq cf tid held _ p1 Hpool) as (q & Hq & Hi & Hs & _).
      exists q. rewrite <- E1. by split_and!. }
  destruct H2 as (q & Hq & Hiq & Hsq). rewrite (st_bind_eq _ _ _ _ _ Hq).
  set (p2 := set_pool q p1) in *.
  set (p3 := set_pending (if ic_is_user_posted_op c then Counter.i64 (p_pending p + -1)
                          else p_pending p) p2).
  assert (E3 : p_pending p2 = p_pending p) by (unfold p2, p1; by destruct (ic_mr_on_the_fly c)).
  rewrite (st_bind_eq _ _ p2 tt p3).
  2:{ unfold p3. rewrite <- E3. destruct (ic_is_user_posted_op c); [done|by rewrite set_pending_id]. }
  assert (E4 : ns_ctxs (p_net p3) = ns_ctxs (p_net p))
    by (unfold p3, p2, p1; by destruct (ic_mr_on_the_fly c)).
  exists (set_net (set_ctxs (delete a (ns_ctxs (p_net p3))) (p_net p3)) p3). split.
  - unfold in_net, drop_ctx. rewrite E4, Hc. by rewrite <- E4.
  - split; simpl; try (unfold p1; by destruct (ic_mr_on_the_fly c)); try done.
    eapply grows_then_quiet; [exact G1|]. by apply grows_same; [apply G1|..].
Qed.

Lemma free_ctx_signals held a c comp comp' p :
  bq_inv support_putimm (p_net p) -> ns_ctxs (p_net p) !! a = Some (Plain c) ->
  owned_ctx held c p -> comp_is_empty (ic_comp c) = false ->
  p_comps p !! ic_comp c = Some comp -> comp_signal (ctx_status c) comp = Ok comp' ->
  exists p1, deleted held a c p p1
    /\ free_ctx_and_signal_comp cf tid a p = Ok (tt, signalled (ic_comp c) (ctx_status c) comp' p1).
Proof.
  intros I Hc Ho He Hcomp Hsig. destruct (delete_owned_ctx held a c p I Hc Ho) as (p1 & Hd & D).
  exists p1. split; [done|]. unfold free_ctx_and_signal_comp.
  rewrite (st_bind_eq _ _ _ _ _ (plain_ctx_eq _ _ _ Hc)). rewrite He. cbn [negb].
  rewrite (st_bind_eq _ _ _ _ _ Hd). eapply signal_comp_eq; [|exact Hsig].
  by rewrite (de_comps _ _ _ _ _ D).
Qed.
End Laws.
