(* ===== verification/RdvRecv.v ===== *)
(** * The receiver of a rendezvous

    What [handle_rdv_rts_common] does for a posted receive that met an RTS: it
    registers the receive buffer, and commits an RTR that tells the sender where to
    write and how to name this receive when all is written. *)
From stdpp Require Import base numbers list gmap strings.
From Stdlib Require Import ZArith Lia.
From S2P Require Import Prelude Bits Status MpmcArray MatchSpec RhandlerRegistry ImmTagArchive.
From S2P Require Import MpmcSet PacketPool Comp Memory Net Endpoint Backlog Frames Requests Process.
From S2P Require Import Rendezvous Progress Protocol ProcessLaws RdvMessages RdvWrites RdvLaws.

Section Receiver.
Context {B E : Type} `{!MatchingEngine E}.
Variable cf : config.
Variable tid : nat.
Variable get_rkey : Z -> Z.
Variable post_impl : net_op_t -> bool -> memory -> B -> errorcode_t * B.
Variable support_putimm : bool.
Implicit Types p : proc B E.

#[local] Abbreviation inv := (pool_inv (cf_sizeof_lctx cf) (cf_pool cf) (cf_garbage cf)).
#[local] Abbreviation hdr := (header (cf_garbage cf)).
#[local] Abbreviation mem p := (ns_mem (p_net p)).
#[local] Abbreviation payload := (payload cf).
#[local] Abbreviation grows := (grows support_putimm).

(** The receive [c] at [ctx] met an RTS in [packet]. *)
Record rts_meets (held : list Z) p (packet ctx : Z) (c : internal_context_t) (rts : rts_msg_t)
    (key : Z) (arch : imm_tag_archive_t) : Prop := mk_rts_meets {
  rm_pool : pool_ready cf (packet :: held) p;
  rm_rts : load_rts (mem p) (payload packet) = rts;
  rm_ok : rts_ok rts;
  rm_ctx : ns_ctxs (p_net p) !! ctx = Some (Plain c);
  rm_nz : ctx <> 0;
  rm_nomr : ic_mr c = 0;
  rm_fits : 0 < rts_size rts <= ic_size c;
  rm_post : can_post support_putimm (p_net p) (lc_rank (hdr (p_pool p) packet)) 1;
  rm_buffer : is_u64 (ic_buffer c);
  rm_rkey : is_u64 (get_rkey (ns_brk (p_net p)));
  rm_u64 : is_u64 key;
  rm_key : if cf_writeimm cf then archive_insert ctx (p_archive p) = Ok (key, arch)
           else key = ctx /\ arch = p_archive p
}.

(** The context of the receive while the data is under way. *)
Definition waiting_ctx (c : internal_context_t) (rank mr : Z) (rts : rts_msg_t) :
    internal_context_t :=
  mk_ictx true (ic_is_user_posted_op c) rank (ic_comp c) (rts_tag rts) (ic_buffer c)
    (rts_size rts) (ic_user_context c) (ic_packet_to_free c) mr.

Definition rtr_imm : Z := field_set 0 IMM_DATA_MSG_RTR 2 29.

(** What the RTR says. *)
Definition rtr_of (c : internal_context_t) (mr : Z) (rts : rts_msg_t) (key : Z) : rtr_msg_t :=
  mk_rtr (rts_send_ctx rts) key (mk_rmr (ic_buffer c) (ic_buffer c) (get_rkey mr)) 0.

(** The receive answered. *)
Record answered (held : list Z) p (packet ctx : Z) (c : internal_context_t) (rts : rts_msg_t)
    (key : Z) (arch : imm_tag_archive_t) (q : request) p' : Prop := mk_answered {
  an_grows : grows (p_net p) [q] (p_net p');
  an_rank : no_rank q.1 = lc_rank (hdr (p_pool p) packet);
  an_imm : no_imm_data q.1 = rtr_imm;
  an_length : Z.of_nat (length (wire (mem p') q)) = sizeof_rtr_msg_t;
  an_rtr : forall m a, load_bytes m a sizeof_rtr_msg_t = wire (mem p') q ->
    load_rtr m a = rtr_of c (ns_brk (p_net p)) rts key;
  an_uctx : no_user_context q.1 = ns_brk (p_net p) + 1;
  an_ctxs : ns_ctxs (p_net p')
    = <[ns_brk (p_net p) + 1 := Plain (mk_ictx false false (-1) COMP_NULL 0 0 0 0 packet 0)]>
        (<[ctx := Plain (waiting_ctx c (lc_rank (hdr (p_pool p) packet)) (ns_brk (p_net p)) rts)]>
           (ns_ctxs (p_net p)));
  an_mrs : p_mrs p' = <[ns_brk (p_net p) := mk_mr (ic_buffer c) (rts_size rts) (ic_buffer c)]> (p_mrs p);
  an_live : is_Some (ns_blocks (p_net p') !! ns_brk (p_net p))
    /\ ns_brk (p_net p) ∉ owned (bq_queue (ns_bq (p_net p')));
  an_mem : forall x, x < payload packet \/ payload packet + sizeof_rtr_msg_t <= x ->
    x < ns_brk (p_net p) -> mem p' x = mem p x;
  an_pool : inv (packet :: held) (p_pool p') /\ same_pool (p_pool p) (p_pool p');
  an_rest : p_pending p' = p_pending p /\ p_comps p' = p_comps p /\ p_signals p' = p_signals p
    /\ p_engines p' = p_engines p /\ p_registry p' = p_registry p /\ p_archive p' = arch
}.

(** A context is updated in place. *)
Lemma put_ctx_lookup a c p : ns_ctxs (p_net (put_ctx a c p)) !! a = Some c.
Proof. simpl. apply lookup_insert_eq. Qed.
Lemma put_ctx_twice a c c' p : put_ctx a c' (put_ctx a c p) = put_ctx a c' p.
Proof. unfold put_ctx, set_net, set_ctxs. simpl. by rewrite insert_insert_eq. Qed.

(** The steps that find the context, take over rank, tag and size, and register the
    buffer. *)
Definition prepared p (packet ctx : Z) (c : internal_context_t) (rts : rts_msg_t) : proc B E :=
  put_ctx ctx (Plain (waiting_ctx c (lc_rank (hdr (p_pool p) packet)) (ns_brk (p_net p)) rts))
    (registered (ic_buffer c) (rts_size rts) p).

Lemma registered_put_ctx a n x c p :
  registered a n (put_ctx x c p) = put_ctx x c (registered a n p).
Proof. done. Qed.

Lemma handle_rts_common_eq held p packet ctx c rts key arch :
  rts_meets held p packet ctx c rts key arch ->
  let p1 := prepared p packet ctx c rts in
  let h := hdr (p_pool p) packet in
  let p2 := with_mem (store_rtr (payload packet) (rtr_of c (ns_brk (p_net p)) rts key) (mem p))
              (set_archive arch
                (set_pool (set_header packet (mk_lctx (lc_pool h) LOCAL_SET_ID_NULL (lc_isInPool h)
                   (lc_is_eager h) (lc_rank h) (lc_tag h) (lc_size h)) (p_pool p)) p1)) in
  let p3 := add_ctx (Plain (mk_ictx false false (-1) COMP_NULL 0 0 0 0 packet 0)) p2 in
  let mr := get 0 (cf_device_uid cf) (mrs (p_pool p)) in
  handle_rdv_rts_common cf get_rkey post_impl packet ctx p
  = (error ← in_net (post_send post_impl (lc_rank h) (payload packet) sizeof_rtr_msg_t mr rtr_imm
                       (ns_brk (p_net p) + 1) false false) ;
     if negb (is_posted error) then
       (if cf_writeimm cf then
          a ← gets p_archive ;
          '(_, a) ← lift (archive_remove key a) ;
          modify (set_archive a)
        else mret tt) ;;
       assert_st (is_posted error) "Unexpected error"
     else mret tt) p3.
Proof.
  intros [[Hi Hps Hreg Hbrk Hbl] Hrts Hok Hc Hnz Hmr Hfit Hpost Hbuf Hrk Hu Hkey].
  intros p1 h p2 p3 mr. unfold handle_rdv_rts_common.
  rewrite (st_bind_eq _ _ p (mem p) p) by done. rewrite Hrts. cbv beta zeta.
  set (f := fun rank (c : internal_context_t) => mk_ictx (ic_mr_on_the_fly c) (ic_is_user_posted_op c)
    rank (ic_comp c) (rts_tag rts) (ic_buffer c) (rts_size rts) (ic_user_context c)
    (ic_packet_to_free c) (ic_mr c)).
  set (c1 := mk_ictx (ic_mr_on_the_fly c) (ic_is_user_posted_op c) (ic_rank c) (ic_comp c) (ic_tag c)
    (ic_buffer c) (rts_size rts) (ic_user_context c) (ic_packet_to_free c) (ic_mr c)).
  rewrite (st_bind_eq _ _ p ctx (put_ctx ctx (Plain c1) p)).
  2:{ rewrite (proj2 (Z.eqb_neq ctx 0)) by done. unfold matched_rdv_ctx.
      rewrite (st_bind_eq _ _ _ _ _ (plain_ctx_eq _ _ _ Hc)).
      rewrite (st_bind_eq _ _ p tt p)
        by (unfold assert_st; rewrite LCI_Assert_true; [done|lia]).
      by rewrite (st_bind_eq _ _ _ _ _ (with_ctx_eq _ _ _ _ Hc)). }
  rewrite (st_bind_eq _ _ _ h (put_ctx ctx (Plain c1) p)) by done.
  erewrite (st_bind_eq (with_ctx _ _)); [|apply with_ctx_eq, put_ctx_lookup].
  rewrite put_ctx_twice. cbn [ic_mr_on_the_fly ic_is_user_posted_op ic_comp ic_buffer ic_size
    ic_user_context ic_packet_to_free ic_mr c1].
  fold (f (lc_rank h) c). set (c2 := f (lc_rank h) c).
  erewrite (st_bind_eq (plain_ctx _)); [|apply plain_ctx_eq, put_ctx_lookup].
  rewrite (st_bind_eq _ _ _ tt p1).
  2:{ unfold c2, f. cbn [ic_size ic_mr ic_buffer]. rewrite Hmr.
      rewrite (proj2 (Z.ltb_lt 0 (rts_size rts))) by lia. cbn [andb].
      change (mr_is_empty 0) with true. cbn iota.
      rewrite (st_bind_eq _ _ _ _ _ (register_memory_eq _ _ _)).
      erewrite with_ctx_eq; [|rewrite registered_put_ctx; apply put_ctx_lookup].
      rewrite registered_put_ctx, put_ctx_twice. done. }
  erewrite (st_bind_eq (plain_ctx _)); [|apply plain_ctx_eq, put_ctx_lookup].
  cbn [ic_mr ic_buffer ic_rank waiting_ctx].
  rewrite (st_bind_eq _ _ _ _ _ (set_lctx_eq _ _ _)).
  do 2 (rewrite (st_bind_eq _ _ _ _ _ (write_mem_eq _ _))).
  erewrite (st_bind_eq (get_rmr _ _)).
  2:{ unfold get_rmr. simpl. rewrite lookup_insert_eq. reflexivity. }
  cbn [mr_address mr_base rmr_base].
  do 2 (rewrite (st_bind_eq _ _ _ _ _ (write_mem_eq _ _))).
  replace (u64 (ic_buffer c - ic_buffer c)) with 0 by (rewrite Z.sub_diag; reflexivity).
  erewrite (st_bind_eq _ _ _ (if cf_writeimm cf then key else 0) p2).
  2:{ destruct (cf_writeimm cf).
      - unfold gets at 1. erewrite (st_bind_eq (fun s => Ok (p_archive s, s))); [|reflexivity].
        erewrite (st_bind_eq (lift _)); [|unfold lift; etransitivity; [|reflexivity]];
          [|change (archive_insert ctx _) with (archive_insert ctx (p_archive p)); by rewrite Hkey].
        reflexivity.
      - destruct Hkey as [-> ->]. reflexivity. }
  rewrite (st_bind_eq _ _ _ _ _ (new_ctx_eq _ _)).
  rewrite (st_bind_eq _ _ _ rtr_imm p3) by reflexivity.
  rewrite (st_bind_eq _ _ _ mr p3).
  2:{ unfold get_or_register_mr. erewrite st_bind_eq; [|reflexivity].
      change (get 0 (cf_device_uid cf) (mrs (p_pool p3))) with mr.
      by rewrite (proj2 (Z.eqb_neq mr 0)). }
  change (ns_brk (p_net p2)) with (ns_brk (p_net p) + 1).
  destruct (cf_writeimm cf); done.
Qed.

Lemma rts_answered held p packet ctx c rts key arch :
  backend_codes post_impl -> rts_meets held p packet ctx c rts key arch ->
  exists q p', handle_rdv_rts_common cf get_rkey post_impl packet ctx p = Ok (tt, p')
    /\ answered held p packet ctx c rts key arch q p'.
Proof.
  intros Hbc Hm. rewrite (handle_rts_common_eq _ _ _ _ _ _ _ _ Hm). cbv zeta.
  destruct Hm as [Hpr Hrts Hok Hc Hnz Hmr Hfit Hpost Hbuf Hrk Hu Hkey].
  set (p2 := with_mem _ _). set (p3 := add_ctx _ p2).
  set (rtr := rtr_of c (ns_brk (p_net p)) rts key) in *.
  set (h := hdr (p_pool p) packet) in *.
  set (op := mk_op bo_send (lc_rank h) (payload packet) sizeof_rtr_msg_t
               (get 0 (cf_device_uid cf) (mrs (p_pool p))) 0 RMR_NULL rtr_imm (ns_brk (p_net p) + 1)).
  pose proof (cp_inv _ _ _ _ Hpost) as I. pose proof (inv_brk _ _ I) as Hb0.
  pose proof Hpr as [Hi Hps Hreg Hbrk Hbl].
  assert (Hin : packet ∈ packet :: held) by by left.
  destruct (payload_in_heap _ _ _ _ _ Hi Hin Hps) as [_ Hend].
  assert (G1 : grows (p_net p) [] (p_net (prepared p packet ctx c rts))).
  { eapply grows_quiet; [apply registered_grows, I|]. apply put_ctx_grows.
    by apply (registered_grows (E := E) support_putimm (ic_buffer c) (rts_size rts)). }
  assert (G3 : grows (p_net p) [] (p_net p3)).
  { eapply grows_quiet; [exact G1|]. eapply grows_quiet; [|apply add_ctx_grows].
    - apply (grows_same support_putimm); try done; [apply G1|].
      intros b n x _. simpl. rewrite lookup_insert_Some. intros [[<- <-]|[_ Hb]] Hx.
      + apply store_rtr_other. unfold sizeof_rtr_msg_t in *. lia.
      + eapply (packet_not_block cf _ _ packet sizeof_rtr_msg_t); [exact Hpr|done|done| |exact Hb|done].
        intros y Hy. by apply store_rtr_other.
    - eapply bq_inv_ext; [..|apply G1]; done. }
  assert (Hp3 : can_post support_putimm (p_net p3) (no_rank op) 1)
    by (eapply can_post_grows; [|exact G3]; exact Hpost).
  destruct (post_grows post_impl support_putimm p3 op Hp3 Hbc) as (e & s' & Heq & He & Hcom);
    [by apply orb_true_r|done|].
  exists (op, []), (set_net s' p3). split.
  - change (in_net (post_send _ _ _ _ _ _ _ _ _)) with
      (in_net (E := E) (post_op post_impl support_putimm op false false)).
    rewrite (st_bind_eq _ _ _ _ _ Heq). cbn in He. by rewrite He.
  - pose proof Hcom as [Hr Hin' Hmem (Hctx & Hbr & _ & _ & Hlive) Hown _].
    assert (Hwire : forall x, x < ns_brk (p_net p) -> ns_mem s' x = store_rtr (payload packet) rtr (mem p) x).
    { intros x Hx. rewrite Hmem; [done|]. simpl. lia. }
    assert (Hw : wire (ns_mem s') (op, []) = load_bytes (ns_mem s') (payload packet) sizeof_rtr_msg_t)
      by done.
    split; cbn [set_net p_net]; rewrite ?Hw; try done.
    + eapply grows_quiet; [exact G3|]. by apply committed_grows.
    + intros m a Hma.
      rewrite (load_rtr_bytes m (store_rtr (payload packet) rtr (mem p)) a (payload packet)).
      * apply load_store_rtr. destruct Hok as (_ & Hs1 & _). unfold is_u64 in *.
        unfold rtr_ok, rtr, rtr_of, is_u64. simpl. lia.
      * rewrite Hma. apply load_bytes_ext. intros x Hx. apply Hwire. lia.
    + split; [apply Hlive; simpl; rewrite lookup_insert_eq; eauto|].
      intros [Ha|Ha]%Hown; [|simpl in Ha; lia]. simpl in Ha. apply (owned_live _ _ _ I) in Ha. lia.
    + intros x Hx Hx2. rewrite Hwire by done. by apply store_rtr_other.
    + destruct (pi_out _ _ _ _ _ Hi packet Hin). split; [by apply set_header_inv|apply set_header_same].
Qed.
End Receiver.
