(* ===== verification/RdvMatch.v ===== *)
(** * A rendezvous send meets its receive

    As for eager messages, the RTS and the receive may come in either order; in
    both the receive is posted, its context waits for the data, and the RTR is
    committed. *)
From stdpp Require Import base numbers list gmap strings.
From Stdlib Require Import ZArith Lia.
From S2P Require Import Prelude Bits Status MpmcArray MatchSpec RhandlerRegistry ImmTagArchive.
From S2P Require Import MpmcSet PacketPool Comp Memory Net Endpoint Backlog Frames Requests Process.
From S2P Require Import Rendezvous Progress Communicate Protocol ProcessLaws EagerDelivery.
From S2P Require Import RdvMessages RdvWrites RdvLaws RdvRecv.

Section Match.
Context {B E : Type} `{!MatchingEngine E}.
Variable cf : config.
Variable tid : nat.
Variable get_rkey : Z -> Z.
Variable post_impl : net_op_t -> bool -> memory -> B -> errorcode_t * B.
Variable support_putimm : bool.
Variable envs : nat -> steal_env.
Variable poll_comp_impl : nat -> memory -> B -> list net_status_t * memory * B.
Variable post_recvs_impl : list Z -> Z -> Z -> B -> nat * B.
Implicit Types p : proc B E.

#[local] Abbreviation inv := (pool_inv (cf_sizeof_lctx cf) (cf_pool cf) (cf_garbage cf)).
#[local] Abbreviation hdr := (header (cf_garbage cf)).
#[local] Abbreviation mem p := (ns_mem (p_net p)).
#[local] Abbreviation payload := (payload cf).
#[local] Abbreviation grows := (grows support_putimm).
#[local] Abbreviation post_comm :=
  (post_comm cf envs tid get_rkey post_impl support_putimm poll_comp_impl post_recvs_impl).
#[local] Abbreviation progress_recv := (progress_recv cf tid get_rkey post_impl support_putimm).

Definition rts_imm : Z := field_set 0 IMM_DATA_MSG_RTS 2 29.

Lemma decode_rts m a n : decode_recv rts_imm m a n = Ok (IMM_DATA_MSG_RTS, mk_eager 0 0 n).
Proof. reflexivity. Qed.

(** The circumstances: an RTS in [packet] under the network status [st], a receive
    [a] for the same key, nothing else of the key in the engine. *)
Record rdv_delivery (held : list Z) p (st : net_status_t) (packet : Z) (rts : rts_msg_t)
    (eng : Z) (pol : matching_policy_t) (mkey : Z) (e : E) (a : post_comm_args_t)
    (key : Z) (arch : imm_tag_archive_t) : Prop := mk_rdv_delivery {
  rd_packet : ns_user_context st = packet;
  rd_imm : ns_imm_data st = rts_imm;
  rd_pool : pool_ready cf (packet :: held) p;
  rd_rts : load_rts (mem p) (payload packet) = rts;
  rd_ok : rts_ok rts;
  rd_handler : registry_get (rts_rcomp rts) (p_registry p)
    = Ok (mk_entry rh_matching_engine eng (policy_val pol));
  rd_policy : pol <> mp_max;
  rd_key : make_key (ns_rank st) (rts_tag rts) pol = Ok mkey;
  rd_u64 : is_u64 mkey;
  rd_engine : p_engines p !! eng = Some e;
  rd_inv : engine_inv e;
  rd_recv : recv_args cf a p;
  rd_eng : a_matching_engine a = eng;
  rd_recv_key : make_key (a_rank a) (a_tag a) (recv_policy a) = Ok mkey;
  rd_idle : idle_at e mkey;
  rd_fits : 0 < rts_size rts <= a_size a;
  rd_buffer : is_u64 (a_local_buffer a);
  rd_post : can_post support_putimm (p_net p) (ns_rank st) 1;
  rd_brk : ns_brk (p_net p) < 2 ^ 64;
  rd_rkey : forall x, is_u64 (get_rkey x);
  rd_kept : is_u64 key;
  rd_archive : if cf_writeimm cf then archive_insert (ns_brk (p_net p)) (p_archive p) = Ok (key, arch)
               else key = ns_brk (p_net p) /\ arch = p_archive p
}.

(** The receive waits for the data, and the RTR [q] is on its way. *)
Record waiting (held : list Z) p (st : net_status_t) (packet : Z) (rts : rts_msg_t) (eng : Z) (e : E)
    (a : post_comm_args_t) (key : Z) (arch : imm_tag_archive_t) (mr : Z) (q : request) p' : Prop :=
  mk_waiting {
    wt_grows : grows (p_net p) [q] (p_net p');
    wt_rank : no_rank q.1 = ns_rank st;
    wt_imm : no_imm_data q.1 = rtr_imm;
    wt_length : Z.of_nat (length (wire (mem p') q)) = sizeof_rtr_msg_t;
    wt_rtr : forall m x, load_bytes m x sizeof_rtr_msg_t = wire (mem p') q ->
      load_rtr m x = rtr_of get_rkey (recv_ctx a) mr rts key;
    wt_ctx : ns_ctxs (p_net p') !! ns_brk (p_net p)
      = Some (Plain (waiting_ctx (recv_ctx a) (ns_rank st) mr rts));
    wt_mrs : p_mrs p' !! mr = Some (mk_mr (a_local_buffer a) (rts_size rts) (a_local_buffer a));
    wt_live : is_Some (ns_blocks (p_net p') !! mr) /\ mr <> 0
      /\ mr ∉ owned (bq_queue (ns_bq (p_net p')));
    wt_mem : forall x, x < payload packet \/ payload packet + sizeof_rtr_msg_t <= x ->
      x < ns_brk (p_net p) -> mem p' x = mem p x;
    wt_pool : inv (packet :: held) (p_pool p') /\ same_pool (p_pool p) (p_pool p');
    wt_pending : p_pending p' = Counter.i64 (p_pending p + 1);
    wt_comps : p_comps p' = p_comps p /\ p_signals p' = p_signals p;
    wt_archive : p_archive p' = arch;
    wt_engine : exists e', p_engines p' !! eng = Some e' /\ engine_inv e'
      /\ engine_pending e' ≡ engine_pending e
  }.

(** The header of the packet when the RTS is inserted. *)
Definition rts_lctx (c : packet_local_context_t) (rank tag : Z) : packet_local_context_t :=
  mk_lctx (lc_pool c) (lc_local_id c) (lc_isInPool c) false rank tag (lc_size c).

(** The state from which the RTS is inserted. *)
Definition with_rts (st : net_status_t) (packet : Z) (rts : rts_msg_t) p : proc B E :=
  set_pool (set_header packet (rts_lctx (hdr (p_pool p) packet) (ns_rank st) (rts_tag rts))
              (p_pool p)) p.

Lemma set_header_twice x c c' q : set_header x c' (set_header x c q) = set_header x c' q.
Proof. unfold set_header, with_pool. simpl. by rewrite insert_insert_eq. Qed.

Lemma progress_recv_rts p st packet rts eng pol mkey e :
  ns_user_context st = packet -> ns_imm_data st = rts_imm ->
  load_rts (mem p) (payload packet) = rts ->
  registry_get (rts_rcomp rts) (p_registry p) = Ok (mk_entry rh_matching_engine eng (policy_val pol)) ->
  pol <> mp_max -> make_key (ns_rank st) (rts_tag rts) pol = Ok mkey -> is_u64 mkey ->
  p_engines p !! eng = Some e -> engine_inv e -> packet <> 0 ->
  exists e', let r := (spec_insert mkey packet me_send (engine_pending e)).1 in
    progress_recv st p
    = (if r =? 0 then mret tt else handle_rdv_rts_common cf get_rkey post_impl packet r)
        (set_engines (<[eng := e']> (p_engines p)) (with_rts st packet rts p))
    /\ engine_inv e' /\ engine_pending e' ≡ (spec_insert mkey packet me_send (engine_pending e)).2.
Proof.
  intros Hp Hi Hrts Hreg Hpol Hk Hu He Hei Hnz. unfold Progress.progress_recv.
  rewrite (st_bind_eq _ _ p (mem p) p) by done. rewrite Hp, Hi.
  erewrite st_bind_eq; [|unfold lift; rewrite decode_rts; reflexivity]. cbv beta iota.
  change (IMM_DATA_MSG_RTS =? IMM_DATA_MSG_EAGER) with false.
  change (IMM_DATA_MSG_RTS =? IMM_DATA_MSG_RTS) with true. cbn iota.
  rewrite (st_bind_eq _ _ p (hdr (p_pool p) packet) p) by done.
  rewrite (st_bind_eq _ _ _ _ _ (set_lctx_eq _ _ _)). unfold handle_rdv_rts.
  erewrite (st_bind_eq read_mem); [|reflexivity]. cbn [set_pool p_net]. rewrite Hrts.
  erewrite (st_bind_eq (get_handler _)).
  2:{ unfold get_handler. cbn [set_pool p_registry]. rewrite Hreg. reflexivity. }
  cbn [rh_type rh_value rh_metadata]. rewrite decide_True by done.
  erewrite (st_bind_eq (Process.lctx _ _)); [|reflexivity].
  rewrite (st_bind_eq _ _ _ _ _ (set_lctx_eq _ _ _)).
  cbn [set_pool p_pool]. rewrite set_header_eq, set_header_twice. cbn [lc_rank lc_pool lc_local_id
    lc_isInPool lc_size].
  assert (policy_of_val (policy_val pol) = pol) as -> by by destruct pol.
  erewrite (st_bind_eq (lift _)); [|unfold lift; rewrite Hk; reflexivity].
  destruct (matching_insert_eq eng e mkey packet me_send (with_rts st packet rts p) He Hei Hu Hnz)
    as (e' & Hins & Hei' & Hpd).
  exists e'. split; [|done]. cbv zeta. unfold with_rts, rts_lctx in Hins.
  rewrite (st_bind_eq _ _ _ _ _ Hins). by destruct (_ =? 0).
Qed.

(** The state in which the two meet, whoever came first. *)
Definition met (st : net_status_t) (packet : Z) (rts : rts_msg_t) (a : post_comm_args_t)
    (engines : gmap Z E) p : proc B E :=
  set_engines engines (with_rts st packet rts (with_recv_ctx a p)).

Lemma met_waits held p st packet rts eng pol mkey e a key arch e2 m :
  backend_codes post_impl -> rdv_delivery held p st packet rts eng pol mkey e a key arch ->
  engine_inv e2 -> engine_pending e2 ≡ engine_pending e ->
  exists q p', handle_rdv_rts_common cf get_rkey post_impl packet (ns_brk (p_net p))
                 (met st packet rts a (<[eng := e2]> m) p) = Ok (tt, p')
    /\ waiting held p st packet rts eng e a key arch (ns_brk (p_net p) + 128) q p'.
Proof.
  intros Hbc D He2 Hpd. set (p2 := met st packet rts a (<[eng := e2]> m) p).
  destruct D as [Hp Himm Hpr Hrts Hok Hreg Hpol Hk Hu He Hei Hrecv Heng Hrk Hidle Hfit Hbuf Hpost
    Hbrk Hrkey Hkept Harch].
  pose proof (cp_inv _ _ _ _ Hpost) as I. pose proof (inv_brk _ _ I) as Hb0.
  assert (G0 : grows (p_net p) [] (p_net p2)).
  { apply (grows_same support_putimm); try done. simpl. lia. }
  assert (Hh : hdr (p_pool p2) packet = rts_lctx (hdr (p_pool p) packet) (ns_rank st) (rts_tag rts))
    by apply set_header_eq.
  destruct Hpr as [Hi Hps Hrg Hbk Hbl].
  assert (Hi2 : inv (packet :: held) (p_pool p2)).
  { destruct (pi_out _ _ _ _ _ Hi packet) as [H1 H2]; [by left|]. by apply set_header_inv. }
  assert (M : rts_meets cf get_rkey support_putimm held p2 packet (ns_brk (p_net p)) (recv_ctx a) rts
                key arch).
  { split; try done; try lia.
    - split; try done. simpl. lia.
    - simpl. apply lookup_insert_eq.
    - rewrite Hh. cbn [rts_lctx lc_rank]. eapply can_post_grows; [|exact G0]. exact Hpost. }
  destruct (rts_answered cf get_rkey post_impl support_putimm _ _ _ _ _ _ _ _ Hbc M)
    as (q & p' & Hq & [A1 A2 A3 A4 A5 A6 A7 A8 [A9 A9'] A10 [A11 A11'] (A12 & A13 & A14 & A15 & A16 & A17)]).
  exists q, p'. split; [exact Hq|]. rewrite Hh in A2, A7. cbn [rts_lctx lc_rank] in A2, A7.
  change (ns_brk (p_net p2)) with (ns_brk (p_net p) + 128) in *.
  split; try done.
  - by eapply grows_quiet.
  - rewrite A7, lookup_insert_ne by lia. apply lookup_insert_eq.
  - rewrite A8. apply lookup_insert_eq.
  - split_and!; [done|lia|done].
  - intros x Hx Hx2. rewrite A10; [done|done|]. lia.
  - exists e2. rewrite A15. split; [apply lookup_insert_eq|done].
Qed.

Lemma recv_then_rts fuel held p st packet rts eng pol mkey e a key arch :
  backend_codes post_impl -> rdv_delivery held p st packet rts eng pol mkey e a key arch ->
  exists s1 p1 q p2, post_comm fuel a p = Ok (inr s1, p1) /\ is_posted (st_error s1) = true
    /\ progress_recv st p1 = Ok (tt, p2)
    /\ waiting held p st packet rts eng e a key arch (ns_brk (p_net p) + 128) q p2.
Proof.
  intros Hbc D. pose proof D as [Hp Himm Hpr Hrts Hok Hreg Hpol Hk Hu He Hei Hrecv Heng Hrk Hidle Hfit
    Hbuf Hpost Hbrk Hrkey Hkept Harch].
  pose proof (inv_brk _ _ (cp_inv _ _ _ _ Hpost)) as Hb0.
  destruct (matching_insert_eq eng e mkey (ns_brk (p_net p)) me_recv (with_recv_ctx a p) He Hei Hu
              ltac:(lia)) as (e1 & Hins & Hei1 & Hpd1).
  rewrite spec_insert_idle in Hins, Hpd1 by done. cbn [fst snd] in Hins, Hpd1.
  set (p1 := set_engines (<[eng := e1]> (p_engines (with_recv_ctx a p))) (with_recv_ctx a p)) in *.
  assert (Hnz : packet <> 0).
  { apply (packet_bounds _ (p_pool p) packet (pi_layout _ _ _ _ _ (pr_inv _ _ _ Hpr))).
    rewrite <- (pi_all _ _ _ _ _ (pr_inv _ _ _ Hpr)). by left. }
  destruct (progress_recv_rts p1 st packet rts eng pol mkey e1) as (e2 & Heq & Hei2 & Hpd2); try done.
  { simpl. apply lookup_insert_eq. }
  destruct (spec_insert_meets e e1 mkey (ns_brk (p_net p)) packet me_recv Hidle Hpd1) as [Hr1 Hr2].
  cbn [flip_type] in Hr1, Hr2. cbv zeta in Heq. rewrite Hr1 in Heq.
  rewrite (proj2 (Z.eqb_neq (ns_brk (p_net p)) 0)) in Heq by lia.
  destruct (met_waits held p st packet rts eng pol mkey e a key arch e2 (p_engines p1) Hbc D Hei2)
    as (q & p2 & H2 & W); [by rewrite Hpd2, Hr2|].
  exists (st_with_error ec_posted (set_status a)), p1, q, p2.
  split_and!; [|done|by rewrite Heq|done].
  eapply (post_comm_recv cf tid get_rkey post_impl support_putimm envs poll_comp_impl post_recvs_impl
    fuel a p ec_posted (set_status a)); [done|reflexivity| |done].
  intros s' Hs1 Hs2. unfold post_recv.
  erewrite st_bind_eq; [|unfold lift; rewrite Hrk; reflexivity].
  rewrite Hs1, Heng. cbn [s_internal_ctx]. rewrite (st_bind_eq _ _ _ _ _ Hins). by rewrite Hs2.
Qed.

Lemma rts_then_recv fuel held p st packet rts eng pol mkey e a key arch :
  backend_codes post_impl -> rdv_delivery held p st packet rts eng pol mkey e a key arch ->
  exists s1 p1 q p2, progress_recv st p = Ok (tt, p1)
    /\ post_comm fuel a p1 = Ok (inr s1, p2) /\ is_posted (st_error s1) = true
    /\ waiting held p st packet rts eng e a key arch (ns_brk (p_net p) + 128) q p2.
Proof.
  intros Hbc D. pose proof D as [Hp Himm Hpr Hrts Hok Hreg Hpol Hk Hu He Hei Hrecv Heng Hrk Hidle Hfit
    Hbuf Hpost Hbrk Hrkey Hkept Harch].
  pose proof (inv_brk _ _ (cp_inv _ _ _ _ Hpost)) as Hb0.
  assert (Hnz : packet <> 0).
  { apply (packet_bounds _ (p_pool p) packet (pi_layout _ _ _ _ _ (pr_inv _ _ _ Hpr))).
    rewrite <- (pi_all _ _ _ _ _ (pr_inv _ _ _ Hpr)). by left. }
  destruct (progress_recv_rts p st packet rts eng pol mkey e) as (e1 & Heq & Hei1 & Hpd1); try done.
  rewrite spec_insert_idle in Heq, Hpd1 by done. cbn [fst snd] in Hpd1. cbv zeta in Heq.
  set (p1 := set_engines (<[eng := e1]> (p_engines p)) (with_rts st packet rts p)) in *.
  assert (He1 : p_engines (with_recv_ctx a p1) !! eng = Some e1) by (simpl; apply lookup_insert_eq).
  destruct (matching_insert_eq eng e1 mkey (ns_brk (p_net p)) me_recv (with_recv_ctx a p1) He1 Hei1 Hu
              ltac:(lia)) as (e2 & Hins & Hei2 & Hpd2).
  destruct (spec_insert_meets e e1 mkey packet (ns_brk (p_net p)) me_send Hidle Hpd1) as [Hr1 Hr2].
  cbn [flip_type] in Hr1, Hr2. rewrite Hr1 in Hins.
  destruct (met_waits held p st packet rts eng pol mkey e a key arch e2 (p_engines p1) Hbc D Hei2)
    as (q & p2 & H2 & W); [by rewrite Hpd2, Hr2|].
  exists (st_with_error ec_posted (set_posted (set_status a))), p1, q, p2.
  split_and!; [exact Heq| |done|done].
  assert (Hrecv1 : recv_args cf a p1) by (destruct Hrecv; by split).
  apply (post_comm_recv cf tid get_rkey post_impl support_putimm envs poll_comp_impl post_recvs_impl
    fuel a p1 ec_posted (set_posted (set_status a)) p2 _ Hrecv1 eq_refl); [|done].
  intros s' Hs1 Hs2. unfold post_recv.
  erewrite st_bind_eq; [|unfold lift; rewrite Hrk; reflexivity].
  rewrite Hs1, Heng. cbn [s_internal_ctx]. rewrite (st_bind_eq _ _ _ _ _ Hins).
  rewrite (proj2 (Z.eqb_neq packet 0)) by done. cbn [negb]. rewrite Hs2.
  rewrite (st_bind_eq _ _ _ (Some (set_posted (set_status a))) p2); [reflexivity|].
  unfold handle_matched_sendrecv.
  erewrite (st_bind_eq (Process.lctx _ _)); [|reflexivity].
  cbn [set_engines p_pool with_recv_ctx set_net set_pending p1 with_rts set_pool].
  rewrite set_header_eq. cbn [rts_lctx lc_is_eager].
  by rewrite (st_bind_eq _ _ _ _ _ H2).
Qed.
End Match.
