(* ===== verification/RdvSend.v ===== *)
(** * The sender of a rendezvous

    What [post_comm] does for a large message: it keeps a context that remembers
    the buffer and commits an RTS. *)
From stdpp Require Import base numbers list gmap strings.
From Stdlib Require Import ZArith Lia.
From S2P Require Import Prelude Bits Status MpmcArray MatchSpec RhandlerRegistry ImmTagArchive.
From S2P Require Import MpmcSet PacketPool Comp Memory Net Endpoint Backlog Frames Requests Process.
From S2P Require Import Rendezvous Progress Communicate Protocol PostComm ProcessLaws.
From S2P Require Import EagerSend RdvMessages RdvWrites RdvLaws RdvRecv RdvMatch.

Section Sender.
Context {B E : Type} `{!MatchingEngine E}.
Variable cf : config.
Variable tid : nat.
Variable get_rkey : Z -> Z.
Variable post_impl : net_op_t -> bool -> memory -> B -> errorcode_t * B.
Variable support_putimm : bool.
Variable envs : nat -> steal_env.
Variable poll_comp_impl : nat -> memory -> B -> list net_status_t * memory * B.
Variable post_recvs_impl : list Z -> Z -> Z -> B -> nat * B.
Implicit Types p : proc B E.

#[local] Abbreviation inv := (pool_inv (cf_sizeof_lctx cf) (cf_pool cf) (cf_garbage cf)).
#[local] Abbreviation mem p := (ns_mem (p_net p)).
#[local] Abbreviation payload := (payload cf).
#[local] Abbreviation grows := (grows support_putimm).
#[local] Abbreviation post_comm :=
  (post_comm cf envs tid get_rkey post_impl support_putimm poll_comp_impl post_recvs_impl).

(** A send or active message with a completion object that may not be retried. *)
Record rdv_args (a : post_comm_args_t) : Prop := mk_rdv_args {
  ra_out : a_direction a = OUT;
  ra_norma : rmr_is_empty (a_rmr a) = true;
  ra_lcomp : comp_is_empty (a_local_comp a) = false;
  ra_lpos : 0 <= a_local_comp a;
  ra_lposted : a_allow_posted a = true;
  ra_noretry : a_allow_retry a = false
}.

Definition rdv_ctx (a : post_comm_args_t) (packet : Z) : internal_context_t :=
  mk_ictx false true (a_rank a) (a_local_comp a) (a_tag a) (a_local_buffer a) (a_size a)
          (a_user_context a) packet 0.
Definition with_rdv_ctx (a : post_comm_args_t) (packet : Z) p : proc B E :=
  add_ctx (Plain (rdv_ctx a packet)) (set_pending (Counter.i64 (p_pending p + 1)) p).

Lemma post_comm_rdv fuel a p b packet p0 e p2 :
  rdv_args a -> bq_is_empty (a_rank a) (p_net p) = Ok (b, p_net p) ->
  let rhandler := resolve_rhandler a (traits_of cf a p) in
  set_protocol cf a (traits_of cf a p) rhandler = (proto_rdv_zcopy, false) ->
  get_packet cf envs tid true p = Ok (packet, p0) ->
  (forall s, s_imm_data s = rts_imm -> s_packet s = packet -> s_rhandler s = rhandler ->
     s_internal_ctx s = ns_brk (p_net p0) ->
     post_rdv cf post_impl a (traits_of cf a p) s (with_rdv_ctx a packet p0) = Ok (e, p2)) ->
  is_posted e = true ->
  post_comm fuel a p = Ok (inr (st_with_error e (set_status a)), p2).
Proof.
  intros [Hd Hr Hcomp Hpos Hap Har] Hb rhandler Hproto Hget Hpost He.
  pose proof (get_packet_blocking _ _ _ _ _ _ Hget) as Hnz. cbv beta in Hnz.
  unfold Communicate.post_comm.
  assert (preprocess_args a = a) as ->.
  { unfold preprocess_args, COMP_NULL, COMP_NULL_RETRY, comp_is_empty in *.
    by rewrite !(proj2 (Z.eqb_neq _ _)) by lia. }
  rewrite (st_bind_eq _ _ p (p_pool p) p) by done.
  rewrite (st_bind_eq _ _ p (traits_of cf a p) p).
  2:{ unfold lift, validate_and_get_traits. by rewrite Hr, Hd, Hap. }
  cbv zeta. unfold rhandler in *. rewrite Hproto. cbv beta iota zeta.
  rewrite (st_bind_eq _ _ p ec_done p).
  2:{ unfold check_backlog. rewrite (st_bind_eq _ _ p b p).
      - by rewrite Har, andb_false_r.
      - unfold in_net. rewrite Hb. by destruct p. }
  change (negb (is_done ec_done)) with false. cbn iota.
  rewrite (st_bind_eq _ _ p (ec_done, mk_pinfo packet false 0) p0).
  2:{ unfold set_packet_if_needed. rewrite (st_bind_eq _ _ p (p_pool p) p) by done.
      rewrite Har. rewrite bool_decide_eq_false_2, bool_decide_eq_true_2 by done.
      cbn [negb orb andb]. rewrite (st_bind_eq _ _ p (Some packet) p0).
      - by rewrite decide_True.
      - rewrite (st_bind_eq _ _ _ _ _ Hget). by rewrite (proj2 (Z.eqb_neq packet 0)). }
  cbv beta iota zeta. change (negb (is_done ec_done)) with false. cbn iota.
  rewrite (st_bind_eq _ _ p0 rts_imm p0) by reflexivity.
  rewrite (st_bind_eq _ _ p0 (a_local_comp a) p0) by (unfold set_local_comp; by rewrite Hap).
  rewrite (st_bind_eq _ _ p0 (ns_brk (p_net p0), true, a_mr a) (with_rdv_ctx a packet p0)).
  2:{ unfold set_internal_ctx. rewrite Hcomp. reflexivity. }
  cbv beta iota zeta. unfold post_network_op at 1. rewrite Hd. cbn [s_protocol].
  set (s := mk_pstate _ _ rts_imm _ _ _ _ _ _ _ _ (set_status a)).
  specialize (Hpost s eq_refl eq_refl eq_refl eq_refl).
  rewrite (st_bind_eq _ _ (with_rdv_ctx a packet p0) (e, set_status a) p2)
    by (by rewrite (st_bind_eq _ _ _ _ _ Hpost)).
  cbv beta iota zeta. unfold exit_handler. cbn [s_protocol s_comp_passed_to_network s_status].
  assert (is_done e = false /\ is_retry e = false) as [Hnd Hnr] by by destruct e.
  rewrite bool_decide_eq_false_2 by done. cbn [negb]. rewrite Hnd, He, Hnr, Hap.
  rewrite (st_bind_eq _ _ p2 tt p2) by done. rewrite (st_bind_eq _ _ p2 tt p2) by done.
  cbn [andb negb]. rewrite (st_bind_eq _ _ p2 (inr (st_with_error e (set_status a))) p2) by done.
  cbv beta iota. rewrite (st_bind_eq _ _ p2 tt p2) by done. cbn [st_with_error st_error].
  by rewrite Hnd.
Qed.

(** The circumstances of the post. *)
Record rdv_sender (held : list Z) (a : post_comm_args_t) p : Prop := mk_rdv_sender {
  rs_args : rdv_args a;
  rs_pool : pool_ready cf held p;
  rs_post : can_post support_putimm (p_net p) (a_rank a) 1;
  rs_tag : is_u64 (a_tag a);
  rs_size : is_u64 (a_size a);
  rs_handler : is_u32 (resolve_rhandler a (traits_of cf a p));
  rs_brk : ns_brk (p_net p) < 2 ^ 64;
  rs_bcopy : sizeof_rts_msg_t <= get_max_bcopy_size (p_pool p)
}.

(** The message is announced: the context at [ctx] waits for the RTR. *)
Record announced (held : list Z) (a : post_comm_args_t) p (packet ctx : Z) (q : request) p' : Prop :=
  mk_announced {
    ad_grows : grows (p_net p) [q] (p_net p');
    ad_rank : no_rank q.1 = a_rank a;
    ad_imm : no_imm_data q.1 = rts_imm;
    ad_length : Z.of_nat (length (wire (mem p') q)) = sizeof_rts_msg_t;
    ad_rts : forall m x, load_bytes m x sizeof_rts_msg_t = wire (mem p') q ->
      load_rts m x = mk_rts (resolve_rhandler a (traits_of cf a p)) ctx (a_tag a) (a_size a);
    ad_ctxs : ns_ctxs (p_net p') = <[ctx := Plain (rdv_ctx a packet)]> (ns_ctxs (p_net p));
    ad_fresh : ctx = ns_brk (p_net p) /\ ctx + 128 <= ns_brk (p_net p');
    ad_mem : forall x, x < payload packet \/ payload packet + sizeof_rts_msg_t <= x ->
      x < ns_brk (p_net p) -> mem p' x = mem p x;
    ad_pool : pool_ready cf (packet :: held) p' /\ same_pool (p_pool p) (p_pool p');
    ad_rest : p_pending p' = Counter.i64 (p_pending p + 1) /\ p_comps p' = p_comps p
      /\ p_signals p' = p_signals p /\ p_mrs p' = p_mrs p /\ p_archive p' = p_archive p
      /\ p_registry p' = p_registry p /\ p_engines p' = p_engines p
  }.

Definition rts_for (a : post_comm_args_t) (rhandler ctx : Z) : rts_msg_t :=
  mk_rts rhandler ctx (a_tag a) (a_size a).

(** [post_rdv] with the RTS in a block of its own. *)
Lemma post_rdv_inject a t s p :
  can_post support_putimm (p_net p) (a_rank a) 1 -> backend_codes post_impl ->
  (sizeof_rts_msg_t <=? t_max_inject_size t) = true -> a_allow_retry a = false ->
  rts_ok (rts_for a (s_rhandler s) (s_internal_ctx s)) ->
  exists q s', post_rdv cf post_impl a t s p = Ok (ec_posted, set_net s' p)
    /\ grows (p_net p) [q] s' /\ ns_ctxs s' = ns_ctxs (p_net p)
    /\ no_rank q.1 = a_rank a /\ no_imm_data q.1 = s_imm_data s
    /\ Z.of_nat (length (wire (ns_mem s') q)) = sizeof_rts_msg_t
    /\ (forall m x, load_bytes m x sizeof_rts_msg_t = wire (ns_mem s') q ->
         load_rts m x = rts_for a (s_rhandler s) (s_internal_ctx s))
    /\ (forall x, x < ns_brk (p_net p) -> ns_mem s' x = mem p x).
Proof.
  intros Hc Hbc Hinj Har Hok. unfold post_rdv. rewrite Hinj, Har.
  set (rts := rts_for a (s_rhandler s) (s_internal_ctx s)) in *. fold rts.
  pose proof (cp_inv _ _ _ _ Hc) as I. set (x := ns_brk (p_net p)).
  set (n1 := mk_nstate (mem p) (x + Z.max 1 sizeof_rts_msg_t) (<[x := sizeof_rts_msg_t]>
    (ns_blocks (p_net p))) (ns_ctxs (p_net p)) (ns_bq (p_net p)) (ns_net (p_net p)) (ns_accepted (p_net p))).
  rewrite (st_bind_eq _ _ p x (set_net n1 p)) by done.
  rewrite (st_bind_eq _ _ _ _ _ (write_mem_eq _ _)).
  set (p2 := with_mem (store_rts x rts (mem p)) (set_net n1 p)).
  assert (G1 : grows (p_net p) [] n1) by (by apply grows_malloc).
  assert (Hx : x ∉ owned (bq_queue (ns_bq (p_net p)))).
  { intros Ha%(owned_live _ _ _ I). unfold x in Ha. lia. }
  assert (G2 : grows (p_net p) [] (p_net p2)).
  { eapply grows_quiet; [exact G1|]. apply grows_same; try done; [apply G1|].
    intros b n y Hb Hl Hy. simpl in *. apply store_rts_other.
    rewrite lookup_insert_ne in Hl by (intros ->; done).
    apply (inv_blocks _ _ I) in Hl. unfold x. lia. }
  set (op := mk_op bo_sends (a_rank a) x sizeof_rts_msg_t 0 0 RMR_NULL (s_imm_data s) 0).
  assert (Hc2 : can_post support_putimm (p_net p2) (no_rank op) 1)
    by (eapply can_post_grows; [|exact G2]; exact Hc).
  destruct (post_grows post_impl support_putimm p2 op Hc2 Hbc) as (e & s' & Heq & He & Hcom);
    [by apply orb_true_r|done|].
  pose proof Hcom as [_ I' Hmem (Hctx & _ & _ & _ & Hlive) Hown _].
  set (s'' := mk_nstate (ns_mem s') (ns_brk s') (delete x (ns_blocks s')) (ns_ctxs s') (ns_bq s')
    (ns_net s') (ns_accepted s')).
  assert (Hx' : x ∉ owned (bq_queue (ns_bq s'))).
  { intros [Ha|Ha]%Hown; [done|]. simpl in Ha. lia. }
  exists (view (mem p2) op), s''. split_and!.
  - rewrite (st_bind_eq _ _ _ e (set_net s'' p)); [cbn in He; by rewrite He|].
    change (in_net (post_sends _ _ _ _ _ _ _ _)) with
      (in_net (E := E) (post_op post_impl support_putimm op false false)).
    rewrite (st_bind_eq _ _ _ _ _ Heq).
    assert (Hfree : in_net (E := E) (free x) (set_net s' p2) = Ok (tt, set_net s'' p)).
    { unfold in_net, free. cbn [set_net p_net]. pose proof (inv_brk _ _ I).
      rewrite (proj2 (Z.eqb_neq x 0)) by (unfold x; lia).
      destruct (Hlive x) as [k Hk]; [simpl; rewrite lookup_insert_eq; eauto|]. by rewrite Hk. }
    rewrite (st_bind_eq _ _ _ _ _ Hfree). reflexivity.
  - eapply grows_quiet; [exact G2|]. eapply grows_then_quiet; [by apply committed_grows|].
    by apply grows_free.
  - done.
  - done.
  - done.
  - done.
  - intros m y Hm. rewrite (load_rts_bytes m (store_rts x rts (mem p)) y x); [by apply load_store_rts|].
    exact Hm.
  - intros y Hy. change (ns_mem s'') with (ns_mem s'). rewrite Hmem by (simpl; lia). simpl.
    apply store_rts_other. unfold x. lia.
Qed.

(** [post_rdv] with the RTS in the packet of the send. *)
Lemma post_rdv_packet held a t s p :
  can_post support_putimm (p_net p) (a_rank a) 1 -> backend_codes post_impl ->
  pool_ready cf held p -> s_packet s ∈ held ->
  (sizeof_rts_msg_t <=? t_max_inject_size t) = false ->
  (sizeof_rts_msg_t <=? t_max_bcopy_size t) = true -> a_allow_retry a = false ->
  rts_ok (rts_for a (s_rhandler s) (s_internal_ctx s)) ->
  exists e q s', post_rdv cf post_impl a t s p = Ok (e, set_net s' p) /\ is_posted e = true
    /\ grows (p_net p) [q] s' /\ ns_ctxs s' = ns_ctxs (p_net p)
    /\ no_rank q.1 = a_rank a /\ no_imm_data q.1 = s_imm_data s
    /\ Z.of_nat (length (wire (ns_mem s') q)) = sizeof_rts_msg_t
    /\ (forall m x, load_bytes m x sizeof_rts_msg_t = wire (ns_mem s') q ->
         load_rts m x = rts_for a (s_rhandler s) (s_internal_ctx s))
    /\ (forall x, x < payload (s_packet s) \/ payload (s_packet s) + sizeof_rts_msg_t <= x ->
         x < ns_brk (p_net p) -> ns_mem s' x = mem p x).
Proof.
  intros Hc Hbc Hpr Hin Hinj Hbcp Har Hok. unfold post_rdv. rewrite Hinj, Har.
  set (rts := rts_for a (s_rhandler s) (s_internal_ctx s)) in *. fold rts.
  pose proof (cp_inv _ _ _ _ Hc) as I. set (x := payload (s_packet s)).
  rewrite (st_bind_eq _ _ p x p).
  2:{ unfold assert_st. by rewrite Hbcp. }
  rewrite (st_bind_eq _ _ _ _ _ (write_mem_eq _ _)).
  set (p2 := with_mem (store_rts x rts (mem p)) p).
  assert (G2 : grows (p_net p) [] (p_net p2)).
  { apply with_mem_grows; [done|]. intros b n y _ Hb Hy.
    eapply (packet_not_block cf held p (s_packet s) sizeof_rts_msg_t); try done.
    intros z Hz. by apply store_rts_other. }
  set (mr := get 0 (cf_device_uid cf) (mrs (p_pool p))).
  set (op := mk_op bo_send (a_rank a) x sizeof_rts_msg_t mr 0 RMR_NULL (s_imm_data s) 0).
  assert (Hc2 : can_post support_putimm (p_net p2) (no_rank op) 1)
    by (eapply can_post_grows; [|exact G2]; exact Hc).
  destruct (post_grows post_impl support_putimm p2 op Hc2 Hbc) as (e & s' & Heq & He & Hcom);
    [by apply orb_true_r|done|].
  cbn in He. pose proof Hcom as [_ I' Hmem (Hctx & _ & _ & _ & _) _ _].
  destruct (payload_in_heap cf held (s_packet s) (p_pool p) sizeof_rtr_msg_t) as [_ Hend]; try apply Hpr;
    [done|]. fold x in Hend. pose proof (pr_brk _ _ _ Hpr) as Hbrk.
  assert (Hw : forall y, x <= y < x + sizeof_rts_msg_t -> ns_mem s' y = store_rts x rts (mem p) y).
  { intros y Hy. unfold sizeof_rts_msg_t, sizeof_rtr_msg_t in *. rewrite Hmem; [done|]. simpl. lia. }
  exists e, (op, []), s'. split_and!; try done.
  - rewrite (st_bind_eq _ _ _ e (set_net s' p)).
    { assert (is_done e = false) as -> by by destruct e. done. }
    rewrite (st_bind_eq _ _ p2 mr p2).
    2:{ unfold get_or_register_mr. rewrite (st_bind_eq _ _ _ (p_pool p) p2) by done. fold mr.
        by rewrite (proj2 (Z.eqb_neq mr 0)) by apply Hpr. }
    change (in_net (post_send _ _ _ _ _ _ _ _ _)) with
      (in_net (E := E) (post_op post_impl support_putimm op false false)). exact Heq.
  - eapply grows_quiet; [exact G2|]. by apply committed_grows.
  - intros m y Hm. rewrite (load_rts_bytes m (store_rts x rts (mem p)) y x); [by apply load_store_rts|].
    change (wire (ns_mem s') (op, [])) with (load_bytes (ns_mem s') x sizeof_rts_msg_t) in Hm.
    rewrite Hm. by apply load_bytes_ext.
  - intros y Hy Hb. rewrite Hmem by done. by apply store_rts_other.
Qed.

Lemma rdv_announced fuel held a p packet p0 :
  rdv_sender held a p -> backend_codes post_impl ->
  set_protocol cf a (traits_of cf a p) (resolve_rhandler a (traits_of cf a p))
    = (proto_rdv_zcopy, false) ->
  get_packet cf envs tid true p = Ok (packet, p0) ->
  exists s1 q p', post_comm fuel a p = Ok (inr s1, p') /\ is_posted (st_error s1) = true
    /\ announced held a p packet (ns_brk (p_net p)) q p'.
Proof.
  intros [Hargs Hpr Hc Htag Hsize Hrh Hbrk Hbcp] Hbc Hproto Hget.
  pose proof (get_packet_blocking _ _ _ _ _ _ Hget) as Hnz. cbv beta in Hnz.
  destruct (get_packet_spec cf envs tid held true p packet p0 (pr_inv _ _ _ Hpr) Hget Hnz)
    as (q0 & -> & Hi0 & Hsm).
  pose proof (cp_inv _ _ _ _ Hc) as I. pose proof (inv_brk _ _ I) as Hb0.
  destruct (is_empty_ok _ _ _ I (cp_rank _ _ _ _ Hc)) as [b Hb].
  set (p0 := set_pool q0 (tick p)) in *. set (p1 := with_rdv_ctx a packet p0).
  set (rhandler := resolve_rhandler a (traits_of cf a p)) in *.
  assert (G1 : grows (p_net p) [] (p_net p1)).
  { apply (grows_same support_putimm); try done. simpl. lia. }
  assert (Hpr1 : pool_ready cf (packet :: held) p1).
  { destruct Hpr as [H1 H2 H3 H4 H5], Hsm as (S1 & S2 & _ & S4 & S5 & _).
    split; simpl; rewrite ?S1, ?S2, ?S4, ?S5; try done. lia. }
  assert (Hc1 : can_post support_putimm (p_net p1) (a_rank a) 1)
    by (eapply can_post_grows; [|exact G1]; exact Hc).
  assert (Hok : rts_ok (rts_for a rhandler (ns_brk (p_net p)))).
  { unfold rts_ok, is_u64, is_u32 in *. simpl. lia. }
  assert (Hfin : forall e q s', is_posted e = true ->
    (forall s, s_imm_data s = rts_imm -> s_packet s = packet -> s_rhandler s = rhandler ->
       s_internal_ctx s = ns_brk (p_net p0) ->
       post_rdv cf post_impl a (traits_of cf a p) s p1 = Ok (e, set_net s' p1)) ->
    grows (p_net p1) [q] s' -> ns_ctxs s' = ns_ctxs (p_net p1) -> no_rank q.1 = a_rank a ->
    no_imm_data q.1 = rts_imm -> Z.of_nat (length (wire (ns_mem s') q)) = sizeof_rts_msg_t ->
    (forall m x, load_bytes m x sizeof_rts_msg_t = wire (ns_mem s') q ->
         load_rts m x = rts_for a rhandler (ns_brk (p_net p))) ->
    (forall x, x < payload packet \/ payload packet + sizeof_rts_msg_t <= x ->
         x < ns_brk (p_net p1) -> ns_mem s' x = mem p1 x) ->
    exists s1 q p', post_comm fuel a p = Ok (inr s1, p') /\ is_posted (st_error s1) = true
      /\ announced held a p packet (ns_brk (p_net p)) q p').
  { intros e q s' He Hpost G Hcx Hrk Him Hln Hrts Hmm.
    exists (st_with_error e (set_status a)), q, (set_net s' p1). split_and!; [|done|].
    - by eapply (post_comm_rdv fuel a p b packet p0 e).
    - split; try done; [by eapply grows_quiet| | |].
      + split; [done|]. pose proof (gr_brk _ _ _ _ G). simpl in *. lia.
      + intros x Hx Hx2. rewrite Hmm; [done|done|simpl; lia].
      + split; [|done]. destruct Hpr1 as [H1 H2 H3 H4 H5]. pose proof (gr_brk _ _ _ _ G).
        split; try done; [simpl in *; lia|]. intros x n [Hx|Hx]%(gr_blocks _ _ _ _ G); [by eapply H5|].
        simpl in *. lia. }
  set (s0 := mk_pstate rhandler false rts_imm packet 0 false (ns_brk (p_net p0)) proto_rdv_zcopy 0 0
               true (set_status a)).
  destruct (sizeof_rts_msg_t <=? t_max_inject_size (traits_of cf a p)) eqn:Einj.
  - destruct (post_rdv_inject a (traits_of cf a p) s0 p1) as (q & s' & H1 & H2 & H3 & H4 & H5 & H6 & H7 & H8);
      try done; [apply Hargs|].
    eapply (Hfin ec_posted q s'); try done; [|intros x _ Hx; by apply H8].
    intros s E1 E2 E3 E4. rewrite <- H1. unfold post_rdv. by rewrite E1, E2, E3, E4.
  - destruct (post_rdv_packet (packet :: held) a (traits_of cf a p) s0 p1)
      as (e & q & s' & H1 & He & H2 & H3 & H4 & H5 & H6 & H7 & H8);
      try done; [by left|apply Z.leb_le, Hbcp|apply Hargs|].
    eapply (Hfin e q s'); try done.
    intros s E1 E2 E3 E4. rewrite <- H1. unfold post_rdv. by rewrite E1, E2, E3, E4.
Qed.
End Sender.
