(* ===== verification/RdvFinish.v ===== *)
(** * From the RTR to the end of a rendezvous

    The sender answers the RTR with its writes and, when the network has completed
    all of them, frees its context, signals its completion object and, unless the
    last write told the receiver already, commits a FIN. The receiver frees its
    context and signals its completion object when it learns that the data is
    there. *)
From stdpp Require Import base numbers list gmap strings.
From Stdlib Require Import ZArith Lia.
From S2P Require Import Prelude Bits Status MpmcArray MatchSpec RhandlerRegistry ImmTagArchive.
From S2P Require Import MpmcSet PacketPool Comp Memory Net Endpoint Backlog Frames Requests Process.
From S2P Require Import Rendezvous Progress Communicate Protocol ProcessLaws.
From S2P Require Import RdvMessages RdvWrites RdvLaws RdvRecv.

Section Finish.
Context {B E : Type} `{!MatchingEngine E}.
Variable cf : config.
Variable tid : nat.
Variable get_rkey : Z -> Z.
Variable post_impl : net_op_t -> bool -> memory -> B -> errorcode_t * B.
Variable support_putimm : bool.
Implicit Types p : proc B E.

#[local] Abbreviation inv := (pool_inv (cf_sizeof_lctx cf) (cf_pool cf) (cf_garbage cf)).
#[local] Abbreviation mem p := (ns_mem (p_net p)).
#[local] Abbreviation payload := (payload cf).
#[local] Abbreviation grows := (grows support_putimm).
#[local] Abbreviation max := (cf_max_msg_size cf).

(** ** The writes *)

(** The sender's context [c] at [ctx] gets the RTR [rtr] in [packet]; [imm] is the
    immediate data of the last write. *)
Record rtr_meets (held : list Z) p (packet ctx : Z) (c : internal_context_t) (rtr : rtr_msg_t)
    (imm : Z) : Prop := mk_rtr_meets {
  tm_pool : inv (packet :: held) (p_pool p);
  tm_rtr : load_rtr (mem p) (payload packet) = rtr;
  tm_send : rtr_send_ctx rtr = ctx;
  tm_ctx : ns_ctxs (p_net p) !! ctx = Some (Plain c);
  tm_old : ctx < ns_brk (p_net p);
  tm_nomr : ic_mr c = 0;
  tm_size : 0 < ic_size c /\ 0 < max /\ ic_size c + max < 2 ^ 64 /\ nchunks (ic_size c) max < 2 ^ 31;
  tm_post : can_post support_putimm (p_net p) (ic_rank c) (Z.to_nat (nchunks (ic_size c) max));
  tm_putimm : negb (cf_writeimm cf) || support_putimm = true;
  tm_imm : if cf_writeimm cf
    then writeimm_imm_data (tag_bits (p_archive p)) (u32 (rtr_recv_ctx_or_key rtr)) = Ok imm
    else imm = 0
}.

Definition write_ectx (ctx : Z) (rtr : rtr_msg_t) (n : Z) :
    internal_context_extended_t :=
  mk_ectx ctx n (if cf_writeimm cf then 0 else rtr_recv_ctx_or_key rtr) (-1) 0.

(** No block overlaps the context at [a]. *)
Definition apart (a : Z) (s : nstate B) : Prop :=
  forall b n, ns_blocks s !! b = Some n -> b + n <= a \/ a + 128 <= b.

Lemma apart_grows a (s : nstate B) qs s' : apart a s -> a + 128 <= ns_brk s -> grows s qs s' -> apart a s'.
Proof. intros Ha Hb G b n [H|H]%(gr_blocks _ _ _ _ G); [by eapply Ha|lia]. Qed.

(** The pieces are committed; the extended context counts their completions. *)
Record writing (held : list Z) p (ctx : Z) (c : internal_context_t) (rtr : rtr_msg_t) (imm : Z) p' :
    Prop := mk_writing {
  wr_grows : grows (p_net p)
    ((fun o => (o, [])) <$> pieces max (cf_writeimm cf) (ic_rank c) (ic_buffer c) (ic_size c)
                              (ns_brk (p_net p) + 128) rtr imm (ns_brk (p_net p))) (p_net p');
  wr_ctxs : ns_ctxs (p_net p')
    = <[ctx := Plain (set_mr_on_the_fly (ns_brk (p_net p) + 128) c)]>
        (<[ns_brk (p_net p) := Extended (write_ectx ctx rtr (nchunks (ic_size c) max))]>
           (ns_ctxs (p_net p)));
  wr_mrs : p_mrs p' = <[ns_brk (p_net p) + 128 := mk_mr (ic_buffer c) (ic_size c) (ic_buffer c)]> (p_mrs p);
  wr_live : is_Some (ns_blocks (p_net p') !! (ns_brk (p_net p) + 128))
    /\ ns_brk (p_net p) + 128 ∉ owned (bq_queue (ns_bq (p_net p')));
  wr_apart : apart (ns_brk (p_net p)) (p_net p');
  wr_brk : ns_brk (p_net p) + 129 <= ns_brk (p_net p');
  wr_mem : forall x, x < ns_brk (p_net p) -> mem p' x = mem p x;
  wr_pool : inv held (p_pool p') /\ same_pool (p_pool p) (p_pool p');
  wr_rest : p_pending p' = p_pending p /\ p_comps p' = p_comps p /\ p_signals p' = p_signals p
    /\ p_engines p' = p_engines p /\ p_registry p' = p_registry p /\ p_archive p' = p_archive p
}.

Lemma rtr_writing held p packet ctx c rtr imm :
  backend_codes post_impl -> rtr_meets held p packet ctx c rtr imm ->
  exists p', handle_rdv_rtr cf tid post_impl support_putimm packet p = Ok (tt, p')
    /\ writing held p ctx c rtr imm p'.
Proof.
  intros Hbc [Hi Hrtr Hs Hc Hold Hmr (Hs0 & Hm0 & Hb & Hn) Hpost Hpi Himm].
  pose proof (cp_inv _ _ _ _ Hpost) as I. pose proof (inv_brk _ _ I) as Hb0.
  unfold handle_rdv_rtr. rewrite (st_bind_eq _ _ p (mem p) p) by done. rewrite Hrtr, Hs.
  rewrite (st_bind_eq _ _ _ _ _ (plain_ctx_eq _ _ _ Hc)).
  rewrite (st_bind_eq _ _ p tt p) by (by rewrite (proj2 (Z.eqb_neq max 0)) by lia).
  assert (Hsc : i32 (u64 (ic_size c + max - 1) / max) = nchunks (ic_size c) max).
  { rewrite u64_id by (unfold is_u64; lia). fold (nchunks (ic_size c) max).
    assert (0 <= nchunks (ic_size c) max) by (apply Z.div_pos; lia).
    unfold i32. rewrite Z.mod_small by lia. lia. }
  rewrite Hsc. rewrite (st_bind_eq _ _ p imm p).
  2:{ destruct (cf_writeimm cf); [|by subst imm].
      rewrite (st_bind_eq _ _ p (p_archive p) p) by done. unfold lift. by rewrite Himm. }
  rewrite (st_bind_eq _ _ _ _ _ (new_ctx_eq _ _)).
  fold (write_ectx ctx rtr (nchunks (ic_size c) max)).
  set (ec := Extended (write_ectx ctx rtr (nchunks (ic_size c) max))). set (p1 := add_ctx ec p).
  rewrite Hmr. change (mr_is_empty 0) with true. cbn iota.
  set (c' := set_mr_on_the_fly (ns_brk (p_net p) + 128) c).
  set (p2 := put_ctx ctx (Plain c') (registered (ic_buffer c) (ic_size c) p1)).
  rewrite (st_bind_eq _ _ p1 tt p2).
  2:{ rewrite (st_bind_eq _ _ _ _ _ (register_memory_eq _ _ _)). erewrite with_ctx_eq; [done|].
      simpl. rewrite lookup_insert_ne by lia. exact Hc. }
  erewrite (st_bind_eq (plain_ctx _)); [|apply plain_ctx_eq, put_ctx_lookup].
  assert (G1 : grows (p_net p) [] (p_net p1)) by (by apply add_ctx_grows).
  assert (G2 : grows (p_net p) [] (p_net p2)).
  { eapply grows_quiet; [exact G1|]. eapply grows_quiet; [apply registered_grows, G1|].
    apply put_ctx_grows. apply (registered_grows (E := E) support_putimm (ic_buffer c) (ic_size c)), G1. }
  destruct (put_chunks_spec cf post_impl support_putimm (ic_rank c) (ic_buffer c) (ic_size c)
    (ns_brk (p_net p) + 128) rtr imm (ns_brk (p_net p)) (Z.to_nat (nchunks (ic_size c) max)) 0
    (Z.to_nat (ic_size c)) p2) as (s' & Hput & Hcom); try done; try lia.
  { pose proof (nchunks_lt (ic_size c) max (ic_size c) ltac:(lia) Hm0 ltac:(lia)). nia. }
  { eapply can_post_grows; [|exact G2]. exact Hpost. }
  change (Z.of_nat 0 * max) with 0 in Hput.
  cbn [c' set_mr_on_the_fly ic_size ic_rank ic_buffer ic_mr].
  rewrite (st_bind_eq _ _ _ _ _ Hput).
  destruct (put_back_eq cf tid held packet (set_net s' p2) Hi) as (q & Hq & Hiq & Hsq & _).
  exists (set_pool q (set_net s' p2)). split; [exact Hq|].
  pose proof Hcom as [_ _ Hmem (Hctx & Hbrk & _ & _ & Hlive) Hown _].
  split; try done.
  - eapply grows_quiet; [exact G2|]. by apply committed_grows.
  - split; [apply Hlive; simpl; rewrite lookup_insert_eq; eauto|].
    intros [Ha|Ha]%Hown; [|simpl in Ha; lia]. simpl in Ha. apply (owned_live _ _ _ I) in Ha. lia.
  - change (apart (ns_brk (p_net p)) s'). eapply (apart_grows _ (p_net p2)).
    + eapply (apart_grows _ (p_net p1)); [|simpl; lia|].
      * intros b n Hbl. simpl in Hbl. apply (inv_blocks _ _ I) in Hbl. lia.
      * eapply grows_quiet; [apply registered_grows, G1|]. apply put_ctx_grows.
        apply (registered_grows (E := E) support_putimm (ic_buffer c) (ic_size c)), G1.
    + simpl. lia.
    + by apply committed_grows.
  - change (ns_brk (p_net (set_pool q (set_net s' p2)))) with (ns_brk s'). simpl in Hbrk. lia.
  - intros x Hx. change (mem (set_pool q (set_net s' p2))) with (ns_mem s').
    rewrite Hmem; [done|]. simpl. lia.
Qed.

(** ** Completions of the writes *)

#[local] Abbreviation progress_write := (progress_write cf tid post_impl).
#[local] Abbreviation process_completions :=
  (process_completions cf tid get_rkey post_impl support_putimm).

Definition write_of (a : Z) (st : net_status_t) : Prop :=
  ns_opcode st = op_WRITE /\ ns_user_context st = a.

Definition counted (e : internal_context_extended_t) (n : Z) : internal_context_extended_t :=
  mk_ectx (ie_internal_ctx e) n (ie_recv_ctx e) (ie_imm_data_rank e) (ie_imm_data e).

Lemma read_ctx_eq a x p : ns_ctxs (p_net p) !! a = Some x -> in_net (read_ctx a) p = Ok (x, p).
Proof. intros H. unfold in_net, read_ctx. rewrite H. by destruct p. Qed.

Lemma count_down_eq a e p :
  ns_ctxs (p_net p) !! a = Some (Extended e) -> 1 <= ie_signal_count e < 2 ^ 31 ->
  count_down a e p = Ok (ie_signal_count e - 1, put_ctx a (Extended (counted e (ie_signal_count e - 1))) p).
Proof.
  intros H Hn. unfold count_down, in_net, write_ctx.
  assert (i32 (ie_signal_count e - 1) = ie_signal_count e - 1) as ->
    by (unfold i32; rewrite Z.mod_small; lia).
  erewrite st_bind_eq; [|rewrite H; reflexivity]. done.
Qed.

(** A completion that is not the last one only counts. *)
Lemma process_completions_cons_write st sts p p' :
  ns_opcode st = op_WRITE -> progress_write st p = Ok (tt, p') ->
  process_completions (st :: sts) None p = process_completions sts None p'.
Proof.
  intros Hst H. cbn [Progress.process_completions]. unfold process_completion. rewrite Hst.
  erewrite st_bind_eq; [|erewrite st_bind_eq; [|exact H]; reflexivity]. done.
Qed.

Lemma writes_pending a : forall sts e p,
  a <> 0 -> ns_ctxs (p_net p) !! a = Some (Extended e) -> Forall (write_of a) sts ->
  Z.of_nat (length sts) < ie_signal_count e < 2 ^ 31 ->
  forall rest,
  process_completions (sts ++ rest) None p
  = process_completions rest None
      (put_ctx a (Extended (counted e (ie_signal_count e - Z.of_nat (length sts)))) p).
Proof.
  induction sts as [|st sts IH]; intros e p Hz He Hall Hn rest.
  - simpl. f_equal. unfold put_ctx. rewrite Z.sub_0_r. rewrite insert_id; [by destruct p as [[]]|].
    rewrite He. by destruct e.
  - apply Forall_cons in Hall as [[Hop Hu] Hall]. simpl length in *.
    set (e1 := counted e (ie_signal_count e - 1)).
    change ((st :: sts) ++ rest) with (st :: (sts ++ rest)).
    rewrite (process_completions_cons_write _ _ p (put_ctx a (Extended e1) p)); [|done|].
    + rewrite (IH e1); [|done|apply put_ctx_lookup|done|simpl; lia]. rewrite put_ctx_twice.
      unfold e1, counted. cbn [ie_internal_ctx ie_signal_count ie_recv_ctx ie_imm_data_rank ie_imm_data].
      by replace (ie_signal_count e - 1 - Z.of_nat (length sts))
        with (ie_signal_count e - Z.of_nat (S (length sts))) by lia.
    + unfold Progress.progress_write. rewrite Hu, (proj2 (Z.eqb_neq a 0)) by done.
      rewrite (st_bind_eq _ _ _ _ _ (read_ctx_eq _ _ _ He)).
      rewrite (st_bind_eq _ _ _ _ _ (count_down_eq _ _ _ He ltac:(lia))).
      by rewrite (proj2 (Z.ltb_lt _ _)) by lia.
Qed.

(** ** The last completion *)

Definition fin_imm : Z := field_set 0 IMM_DATA_MSG_FIN 2 29.

(** The requests that tell the receiver at [rank] about the end: a FIN with its
    context, or nothing when the last write carried immediate data. *)
Definition tells (rank recv_ctx : Z) (m : memory) (qs : list request) : Prop :=
  if recv_ctx =? 0 then qs = []
  else exists q, qs = [q] /\ no_rank q.1 = rank /\ no_imm_data q.1 = fin_imm
    /\ Z.of_nat (length (wire m q)) = 8
    /\ forall m' x, load_bytes m' x 8 = wire m q -> load_le 8 m' x = recv_ctx.

(** The sender's context [c] at [ctx] waits for writes, which the extended context
    [e] at [a] counts; [comp'] is its completion object once signalled. *)
Record counts (held : list Z) p (a : Z) (e : internal_context_extended_t) (ctx : Z)
    (c : internal_context_t) (comp comp' : comp_impl_t) : Prop := mk_counts {
  ct_nz : a <> 0;
  ct_ectx : ns_ctxs (p_net p) !! a = Some (Extended e);
  ct_count : 1 <= ie_signal_count e < 2 ^ 31;
  ct_recv : is_u64 (ie_recv_ctx e);
  ct_norank : ie_imm_data_rank e = -1;
  ct_inner : ie_internal_ctx e = ctx /\ ctx <> a;
  ct_ctx : ns_ctxs (p_net p) !! ctx = Some (Plain c);
  ct_apart : apart a (p_net p) /\ a + 128 <= ns_brk (p_net p);
  ct_post : can_post support_putimm (p_net p) (ic_rank c) 1;
  ct_owned : owned_ctx cf held c p;
  ct_comp : comp_is_empty (ic_comp c) = false /\ p_comps p !! ic_comp c = Some comp
    /\ comp_signal (ctx_status c) comp = Ok comp'
}.

(** Both contexts are gone with what they owned, and the completion is signalled. *)
Record finished (held : list Z) p (a : Z) (e : internal_context_extended_t) (ctx : Z)
    (c : internal_context_t) (comp' : comp_impl_t) (qs : list request) p' : Prop := mk_finished {
  fi_tells : tells (ic_rank c) (ie_recv_ctx e) (mem p') qs;
  fi_grows : grows (p_net p) qs (p_net p');
  fi_ctxs : ns_ctxs (p_net p') = delete ctx (delete a (ns_ctxs (p_net p)));
  fi_mem : forall x, x < a \/ a + 128 <= x -> x < ns_brk (p_net p) -> mem p' x = mem p x;
  fi_signals : p_signals p' = p_signals p ++ [(ic_comp c, ctx_status c)];
  fi_comps : p_comps p' = <[ic_comp c := comp']> (p_comps p);
  fi_mrs : p_mrs p' = (if ic_mr_on_the_fly c then delete (ic_mr c) (p_mrs p) else p_mrs p);
  fi_pending : p_pending p'
    = (if ic_is_user_posted_op c then Counter.i64 (p_pending p + -1) else p_pending p);
  fi_pool : inv held (p_pool p') /\ same_pool (p_pool p) (p_pool p');
  fi_archive : p_archive p' = p_archive p;
  fi_registry : p_registry p' = p_registry p;
  fi_engines : p_engines p' = p_engines p
}.

(** The FIN, from where the extended context keeps it. *)
Lemma fin_committed p a e c :
  ns_ctxs (p_net p) !! ie_internal_ctx e = Some (Plain c) -> ie_recv_ctx e <> 0 ->
  is_u64 (ie_recv_ctx e) -> apart a (p_net p) -> backend_codes post_impl ->
  can_post support_putimm (p_net p) (ic_rank c) 1 ->
  let p1 := with_mem (store_le 8 (a + 24) (ie_recv_ctx e) (mem p)) p in
  exists q s', handle_rdv_local_write post_impl a e p = Ok (tt, set_net s' p)
    /\ committed support_putimm (p_net p1) [q] s' /\ grows (p_net p) [] (p_net p1)
    /\ forall m, tells (ic_rank c) (ie_recv_ctx e) m [q].
Proof.
  intros Hc Hz Hu Hap Hbc Hpost p1. pose proof (cp_inv _ _ _ _ Hpost) as I.
  assert (G1 : grows (p_net p) [] (p_net p1)).
  { apply with_mem_grows; [done|]. intros b n x _ Hb Hx. apply Hap in Hb. unfold store_le.
    rewrite store_bytes_other; [done|]. rewrite length_le_bytes. lia. }
  set (op := mk_op bo_sends (ic_rank c) (a + 24) 8 0 0 RMR_NULL fin_imm 0).
  assert (Hc1 : can_post support_putimm (p_net p1) (no_rank op) 1)
    by (eapply can_post_grows; [|exact G1]; exact Hpost).
  destruct (post_grows post_impl support_putimm p1 op Hc1 Hbc) as (err & s' & Heq & He & Hcom);
    [by apply orb_true_r|done|].
  exists (view (mem p1) (canon op)), s'. split_and!; [|done|done|].
  - unfold handle_rdv_local_write. rewrite (st_bind_eq _ _ _ _ _ (plain_ctx_eq _ _ _ Hc)).
    rewrite (st_bind_eq _ _ p tt p)
      by (unfold assert_st; by rewrite (proj2 (Z.eqb_neq (ie_recv_ctx e) 0))).
    rewrite (st_bind_eq _ _ p fin_imm p) by reflexivity.
    rewrite (st_bind_eq _ _ _ _ _ (write_mem_eq _ _)). fold p1.
    change (in_net (post_sends _ _ _ _ _ _ _ _)) with
      (in_net (E := E) (post_op post_impl support_putimm op false false)).
    rewrite (st_bind_eq _ _ _ _ _ Heq). unfold assert_st. cbn in He. by rewrite He.
  - intros m. unfold tells. rewrite (proj2 (Z.eqb_neq _ _) Hz). eexists. split_and!; try done.
    intros m' x Hm. unfold load_le. change (Z.of_nat 8) with 8. rewrite Hm.
    change (wire m (view (mem p1) (canon op))) with (load_bytes (mem p1) (a + 24) 8).
    change (of_le_bytes (load_bytes (mem p1) (a + 24) 8)) with (load_le 8 (mem p1) (a + 24)).
    apply load_store_le. exact Hu.
Qed.

Lemma last_write held p st a e ctx c comp comp' :
  backend_codes post_impl -> write_of a st -> counts held p a e ctx c comp comp' ->
  ie_signal_count e = 1 ->
  exists qs p', progress_write st p = Ok (tt, p') /\ finished held p a e ctx c comp' qs p'.
Proof.
  intros Hbc [Hop Hu] [Hnz He _ Hrecv Hrank [<- Hne] Hc [Hap Hbr] Hpost Hown (Hce & Hcomp & Hsig)]
    Hcount.
  unfold Progress.progress_write. rewrite Hu, (proj2 (Z.eqb_neq a 0)) by done.
  rewrite (st_bind_eq _ _ _ _ _ (read_ctx_eq _ _ _ He)).
  rewrite (st_bind_eq _ _ _ _ _ (count_down_eq _ _ _ He ltac:(lia))). rewrite Hcount. cbn [Z.sub Z.add].
  set (p1 := put_ctx a (Extended (counted e (1 - 1))) p).
  change (0 <? 1 - 1) with false. cbn iota.
  assert (Hc1 : ns_ctxs (p_net p1) !! ie_internal_ctx e = Some (Plain c))
    by (simpl; by rewrite lookup_insert_ne by done).
  pose proof (cp_inv _ _ _ _ Hpost) as I.
  assert (G1 : grows (p_net p) [] (p_net p1)) by (by apply put_ctx_grows).
  assert (Htell : exists qs s2,
    (if negb (ie_recv_ctx e =? 0) then handle_rdv_local_write post_impl a e
     else if negb (ie_imm_data_rank e =? -1) then
       error ← in_net (post_sends post_impl (ie_imm_data_rank e) 0 0 (ie_imm_data e) 0 false false) ;
       assert_st (is_done error) "Unexpected error"
     else mret tt) p1 = Ok (tt, set_net s2 p1)
    /\ grows (p_net p) qs s2 /\ (forall m, tells (ic_rank c) (ie_recv_ctx e) m qs)
    /\ ns_ctxs s2 = ns_ctxs (p_net p1)
    /\ (forall b, is_Some (ns_blocks (p_net p) !! b) -> is_Some (ns_blocks s2 !! b))
    /\ (forall x, x < a \/ a + 128 <= x -> x < ns_brk (p_net p) -> ns_mem s2 x = mem p x)).
  { destruct (ie_recv_ctx e =? 0) eqn:Ez; cbn [negb].
    - exists [], (p_net p1). rewrite Hrank. split_and!; try done. intros m. unfold tells. by rewrite Ez.
    - destruct (fin_committed p1 a e c) as (q & s' & H1 & H2 & H3 & H4); try done; [lia|eapply can_post_grows; [|exact G1]; exact Hpost|].
      pose proof H2 as [_ _ Hm (Hx & _ & _ & _ & Hl) _ _].
      exists [q], s'. split_and!; try done.
      + eapply grows_quiet; [exact G1|]. eapply grows_quiet; [exact H3|]. by apply committed_grows.
      + intros x Hx1 Hx2. rewrite Hm by done. simpl. unfold store_le. rewrite store_bytes_other; [done|].
        rewrite length_le_bytes. lia. }
  destruct Htell as (qs & s2 & Hstep & G2 & Ht & Hx2 & Hl2 & Hm2).
  rewrite (st_bind_eq _ _ _ _ _ Hstep).
  set (p3 := set_net (set_ctxs (delete a (ns_ctxs s2)) s2) p1).
  assert (Hea : ns_ctxs s2 !! a = Some (Extended (counted e (1 - 1))))
    by (rewrite Hx2; apply put_ctx_lookup).
  rewrite (st_bind_eq _ _ _ tt p3) by (unfold in_net, drop_ctx; cbn [set_net p_net]; by rewrite Hea).
  assert (G3 : grows (p_net p) qs (p_net p3)).
  { eapply grows_then_quiet; [exact G2|]. apply (grows_same support_putimm s2); try done. apply G2. }
  destruct (free_ctx_signals cf tid support_putimm held (ie_internal_ctx e) c comp comp' p3)
    as (p4 & [D1 D2 D3 D4 D5 D6 D7 D8 D9 D10 D11 D12] & Hfree); try done; [apply G3| | |].
  { simpl. rewrite lookup_delete_ne by done. by rewrite Hx2. }
  { destruct Hown as [Hi Hmr]. split; [exact Hi|]. intros Hf. destruct (Hmr Hf) as (H1 & H2 & H3 & H4).
    split_and!; try done; [by apply Hl2|]. simpl. intros [Ha|Ha]%(gr_owned _ _ _ _ G2); [done|].
    destruct H2 as [n Hn]. apply (inv_blocks _ _ I) in Hn. lia. }
  exists qs, (signalled (ic_comp c) (ctx_status c) comp' p4). split; [exact Hfree|].
  split; cbn [signalled set_comps p_net p_signals p_comps p_mrs p_pending p_pool p_archive p_registry p_engines];
    try done.
  - by eapply grows_then_quiet.
  - rewrite D1. cbn [p3 set_net p_net set_ctxs ns_ctxs]. rewrite Hx2. simpl. by rewrite delete_insert_eq.
  - intros x Hx Hxb. rewrite D3. by apply Hm2.
  - by rewrite D9.
  - by rewrite D8.
Qed.

(** All the writes of a message complete, in one batch. *)
Lemma writes_done held p sts a e ctx c comp comp' :
  backend_codes post_impl -> Forall (write_of a) sts -> counts held p a e ctx c comp comp' ->
  Z.of_nat (length sts) = ie_signal_count e ->
  exists qs p', process_completion_batch cf tid get_rkey post_impl support_putimm sts p = Ok (None, p')
    /\ finished held p a e ctx c comp' qs p'.
Proof.
  intros Hbc Hall C Hlen. pose proof C as [Hnz He Hn Hrecv Hrank Hin Hc Hap Hpost Hown Hcomp].
  destruct sts as [|st sts' _] using rev_ind; [simpl in Hlen; lia|].
  apply Forall_app in Hall as [Hall [Hst _]%Forall_cons]. rewrite length_app in Hlen. simpl in Hlen.
  set (p1 := put_ctx a (Extended (counted e 1)) p).
  assert (C1 : counts held p1 a (counted e 1) ctx c comp comp').
  { split; try done; [apply put_ctx_lookup| | |].
    - simpl. rewrite lookup_insert_ne; [done|]. destruct Hin. congruence.
    - eapply can_post_grows; [|apply put_ctx_grows, Hpost]. exact Hpost.
    - by destruct Hown. }
  destruct (last_write held p1 st a (counted e 1) ctx c comp comp' Hbc Hst C1 eq_refl)
    as (qs & p' & Hw & [F1 F2 F3 F4 F5 F6 F7 F8 F9 F10 F11 F12]).
  exists qs, p'. split.
  - unfold process_completion_batch. erewrite st_bind_eq.
    2:{ rewrite (writes_pending a sts' e p Hnz He Hall ltac:(lia) [st]).
        replace (ie_signal_count e - Z.of_nat (length sts')) with 1 by lia.
        rewrite (process_completions_cons_write _ _ _ _ (proj1 Hst) Hw). reflexivity. }
    done.
  - split; try done; [eapply grows_quiet; [apply put_ctx_grows, Hpost|exact F2]|].
    rewrite F3. simpl. by rewrite delete_insert_eq.
Qed.

(** ** The receiver learns of the end *)

(** The receive [c] at [ctx] is over: its context is gone with its registration. *)
Record completed (held : list Z) p (ctx : Z) (c : internal_context_t) (comp' : comp_impl_t) p' :
    Prop := mk_completed {
  co_grows : grows (p_net p) [] (p_net p');
  co_ctxs : ns_ctxs (p_net p') = delete ctx (ns_ctxs (p_net p));
  co_mem : mem p' = mem p;
  co_signals : p_signals p' = p_signals p ++ [(ic_comp c, ctx_status c)];
  co_comps : p_comps p' = <[ic_comp c := comp']> (p_comps p);
  co_mrs : p_mrs p' = (if ic_mr_on_the_fly c then delete (ic_mr c) (p_mrs p) else p_mrs p);
  co_pending : p_pending p'
    = (if ic_is_user_posted_op c then Counter.i64 (p_pending p + -1) else p_pending p);
  co_pool : inv held (p_pool p') /\ same_pool (p_pool p) (p_pool p');
  co_engines : p_engines p' = p_engines p
}.

Lemma remote_comp_received held ctx c comp comp' p :
  bq_inv support_putimm (p_net p) -> ns_ctxs (p_net p) !! ctx = Some (Plain c) ->
  owned_ctx cf held c p -> comp_is_empty (ic_comp c) = false ->
  p_comps p !! ic_comp c = Some comp -> comp_signal (ctx_status c) comp = Ok comp' ->
  exists p', handle_rdv_remote_comp cf tid ctx p = Ok (tt, p') /\ completed held p ctx c comp' p'
    /\ p_archive p' = p_archive p.
Proof.
  intros I Hc Ho He Hcomp Hsig.
  destruct (free_ctx_signals cf tid support_putimm held ctx c comp comp' p)
    as (p1 & [D1 D2 D3 D4 D5 D6 D7 D8 D9 D10 D11 D12] & Hf); try done.
  exists (signalled (ic_comp c) (ctx_status c) comp' p1). split_and!; [exact Hf| |done].
  split; simpl; try done; [by rewrite D9|by rewrite D8].
Qed.

Lemma decode_fin m a n : decode_recv fin_imm m a n = Ok (IMM_DATA_MSG_FIN, mk_eager 0 0 n).
Proof. reflexivity. Qed.

(** By a FIN in a packet. *)
Lemma fin_received held st ctx c comp comp' p :
  let packet := ns_user_context st in
  ns_imm_data st = fin_imm -> load_le 8 (mem p) (payload packet) = ctx ->
  inv (packet :: held) (p_pool p) -> bq_inv support_putimm (p_net p) ->
  ns_ctxs (p_net p) !! ctx = Some (Plain c) -> ic_packet_to_free c = 0 ->
  (forall q, inv held q -> owned_ctx cf held c (set_pool q p)) ->
  comp_is_empty (ic_comp c) = false -> p_comps p !! ic_comp c = Some comp ->
  comp_signal (ctx_status c) comp = Ok comp' ->
  exists p', progress_recv cf tid get_rkey post_impl support_putimm st p = Ok (tt, p')
    /\ completed held p ctx c comp' p'.
Proof.
  intros packet Himm Hld Hi I Hc Hpk Ho He Hcomp Hsig. unfold progress_recv. fold packet.
  rewrite (st_bind_eq _ _ p (mem p) p) by done. rewrite Himm.
  erewrite st_bind_eq; [|unfold lift; rewrite decode_fin; reflexivity]. cbv beta iota.
  change (IMM_DATA_MSG_FIN =? IMM_DATA_MSG_EAGER) with false.
  change (IMM_DATA_MSG_FIN =? IMM_DATA_MSG_RTS) with false.
  change (IMM_DATA_MSG_FIN =? IMM_DATA_MSG_RTR) with false.
  change (IMM_DATA_MSG_FIN =? IMM_DATA_MSG_FIN) with true. cbn iota. unfold handle_rdv_fin.
  rewrite (st_bind_eq _ _ p (mem p) p) by done. rewrite Hld.
  destruct (put_back_eq cf tid held packet p Hi) as (q & Hq & Hiq & Hsq & _).
  rewrite (st_bind_eq _ _ _ _ _ Hq).
  destruct (remote_comp_received held ctx c comp comp' (set_pool q p)) as (p' & Hp & R & _); try done;
    [by apply Ho|].
  exists p'. split; [exact Hp|]. destruct R as [R1 R2 R3 R4 R5 R6 R7 [R8 R8'] R9].
  split; try done. split; [done|]. by etrans.
Qed.
End Finish.
