(* ===== verification/RdvEndToEnd.v ===== *)
(** * A rendezvous from end to end

    Two processes and the four steps between them: the RTS, the RTR, the writes
    and the FIN. Each stage says what the process does when the network has carried
    the request of the stage before. *)
From stdpp Require Import base numbers list gmap strings.
From Stdlib Require Import ZArith Lia.
From S2P Require Import Prelude Bits Status MpmcArray MatchSpec MatchMap RhandlerRegistry ImmTagArchive.
From S2P Require Import MpmcSet PacketPool Comp Memory Net Endpoint Backlog Frames Requests Process.
From S2P Require Import Rendezvous Progress Communicate Protocol Demo PostComm ProcessLaws.
From S2P Require Import EagerDelivery EagerSend EagerEndToEnd.
From S2P Require Import RdvMessages RdvWrites RdvLaws RdvRecv RdvMatch RdvSend RdvFinish.

(** ** One process *)

Section Landing.
Context {B E : Type}.
Variable cf : config.
Variable support_putimm : bool.
Implicit Types p : proc B E.

#[local] Abbreviation mem p := (ns_mem (p_net p)).
#[local] Abbreviation payload := (payload cf).
#[local] Abbreviation grows := (grows support_putimm).

Lemma payload_from_heap held packet q :
  pool_inv (cf_sizeof_lctx cf) (cf_pool cf) (cf_garbage cf) held q -> packet ∈ held ->
  heap q < payload packet.
Proof.
  intros Hi Hin. pose proof (pi_layout _ _ _ _ _ Hi) as Hl.
  assert (Hall : packet ∈ all_packets q) by (rewrite <- (pi_all _ _ _ _ _ Hi); set_solver).
  destruct (packet_bounds _ _ _ Hl Hall) as (H0 & _).
  destruct (payload_packet _ _ _ Hl Hall) as [Hpay _]. unfold Process.payload. rewrite Hpay. lia.
Qed.

(** A buffer of the user: below the addresses still to be given out, outside of
    the packets and of what the library allocated. *)
Definition user_buffer (a n : Z) p : Prop :=
  a + n <= ns_brk (p_net p) /\ disjoint a n (heap (p_pool p)) (heap_size (p_pool p))
  /\ forall b k, ns_blocks (p_net p) !! b = Some k -> disjoint a n b k.

(** The network put [bytes] into [packet]. *)
Record lands (bytes : list Z) (packet : Z) (m0 m : memory) : Prop := mk_lands {
  la_bytes : load_bytes m (payload packet) (Z.of_nat (length bytes)) = bytes;
  la_rest : forall x, x < payload packet \/ payload packet + Z.of_nat (length bytes) <= x -> m x = m0 x
}.

(** It changed nothing outside of the packets. *)
Lemma lands_outside bytes packet held m0 m p x :
  lands bytes packet m0 m -> pool_ready cf held p -> packet ∈ held ->
  Z.of_nat (length bytes) <= sizeof_rtr_msg_t ->
  x < heap (p_pool p) \/ heap (p_pool p) + heap_size (p_pool p) <= x -> m x = m0 x.
Proof.
  intros [_ Hr] [Hi Hps _ _ _] Hin Hl Hx. apply Hr.
  destruct (payload_in_heap cf held packet (p_pool p) sizeof_rtr_msg_t Hi Hin Hps).
  pose proof (payload_from_heap held packet (p_pool p) Hi Hin). lia.
Qed.

Lemma lands_grows bytes packet held m p :
  lands bytes packet (mem p) m -> pool_ready cf held p -> packet ∈ held ->
  Z.of_nat (length bytes) <= sizeof_rtr_msg_t -> bq_inv support_putimm (p_net p) ->
  grows (p_net p) [] (p_net (with_mem m p)).
Proof.
  intros Hl Hpr Hin Hle I. apply with_mem_grows; [done|]. intros b n x _ Hb Hx.
  eapply lands_outside; [exact Hl|exact Hpr|done|done|]. apply (pr_blocks _ _ _ Hpr) in Hb. lia.
Qed.

Lemma lands_store bytes packet m : lands bytes packet m (store_bytes (payload packet) bytes m).
Proof. split; [apply load_store_bytes|]. intros x Hx. by apply store_bytes_other. Qed.
End Landing.

Section Stages.
Context {B E : Type} `{!MatchingEngine E}.
Variable cf : config.
Variable tid : nat.
Variable get_rkey : Z -> Z.
Variable post_impl : net_op_t -> bool -> memory -> B -> errorcode_t * B.
Variable support_putimm : bool.
Implicit Types p : proc B E.

#[local] Abbreviation mem p := (ns_mem (p_net p)).
#[local] Abbreviation payload := (payload cf).
#[local] Abbreviation grows := (grows support_putimm).
#[local] Abbreviation max := (cf_max_msg_size cf).
#[local] Abbreviation progress_recv := (progress_recv cf tid get_rkey post_impl support_putimm).

(** *** The sender gets the RTR *)

(** What a send must satisfy for its writes. *)
Record rdv_size (a : post_comm_args_t) : Prop := mk_rdv_size {
  sz_pos : 0 < a_size a;
  sz_max : 0 < max;
  sz_u64 : a_size a + max < 2 ^ 64;
  sz_count : nchunks (a_size a) max < 2 ^ 31
}.
#[local] Abbreviation count a := (Z.to_nat (nchunks (a_size a) max)).

Lemma decode_rtr m a n : decode_recv rtr_imm m a n = Ok (IMM_DATA_MSG_RTR, mk_eager 0 0 n).
Proof. reflexivity. Qed.

Lemma rtr_arrives held a p packet rpacket ctx q p1 st rtr bytes m :
  backend_codes post_impl -> cf_writeimm cf = false -> rdv_size a ->
  announced cf support_putimm (rpacket :: held) a p packet ctx q p1 ->
  can_post support_putimm (p_net p1) (a_rank a) (count a) ->
  lands cf bytes rpacket (mem p1) m -> Z.of_nat (length bytes) = sizeof_rtr_msg_t ->
  load_rtr m (payload rpacket) = rtr -> rtr_send_ctx rtr = ctx ->
  ns_imm_data st = rtr_imm -> ns_user_context st = rpacket ->
  exists p3, progress_recv st (with_mem m p1) = Ok (tt, p3)
    /\ writing cf support_putimm (packet :: held) (with_mem m p1) ctx (rdv_ctx a packet) rtr 0 p3.
Proof.
  intros Hbc Hw [S1 S2 S3 S4] A Hpost Hl Hlen Hrtr Hctx Himm Huc.
  destruct A as [A1 _ _ _ _ A6 [A7 A7'] _ [A9 _] _].
  assert (Hin : rpacket ∈ packet :: rpacket :: held) by set_solver.
  assert (G : grows (p_net p1) [] (p_net (with_mem m p1))).
  { eapply lands_grows; [exact Hl|exact A9|done|lia|apply Hpost]. }
  destruct (rtr_writing cf tid post_impl support_putimm (packet :: held) (with_mem m p1) rpacket ctx
    (rdv_ctx a packet) rtr 0 Hbc) as (p3 & H3 & W).
  - split; try done; [|simpl; rewrite A6; apply lookup_insert_eq|simpl; lia| | |by rewrite Hw].
    + eapply pool_inv_perm; [|apply A9]. constructor.
    + eapply can_post_grows; [|exact G]. exact Hpost.
    + by rewrite Hw.
  - exists p3. split; [|done]. unfold Progress.progress_recv.
    erewrite (st_bind_eq read_mem); [|reflexivity]. rewrite Himm, Huc.
    erewrite st_bind_eq; [|unfold lift; rewrite decode_rtr; reflexivity]. exact H3.
Qed.

(** *** The writes complete *)

Lemma writing_counts held a p p3 packet ctx rtr comp comp' :
  cf_writeimm cf = false -> rdv_size a -> is_u64 (rtr_recv_ctx_or_key rtr) ->
  comp_is_empty (a_local_comp a) = false -> packet <> 0 -> ctx < ns_brk (p_net p) ->
  can_post support_putimm (p_net p) (a_rank a) (count a + 1) ->
  writing cf support_putimm (packet :: held) p ctx (rdv_ctx a packet) rtr 0 p3 ->
  p_comps p !! a_local_comp a = Some comp ->
  comp_signal (ctx_status (rdv_ctx a packet)) comp = Ok comp' ->
  counts cf support_putimm held p3 (ns_brk (p_net p))
    (write_ectx cf ctx rtr (nchunks (a_size a) max)) ctx
    (set_mr_on_the_fly (ns_brk (p_net p) + 128) (rdv_ctx a packet)) comp comp'.
Proof.
  intros Hw [S1 S2 S3 S4] Hkey Hlc Hnz Hctx Hpost [W1 W2 W3 [W4 W4'] W5 W6 W7 [W8 _] (_ & W9 & _)] Hc Hsig.
  pose proof (inv_brk _ _ (cp_inv _ _ _ _ Hpost)) as Hb0.
  split; try done; try lia.
  - rewrite W2, lookup_insert_ne by lia. apply lookup_insert_eq.
  - change (1 <= nchunks (a_size a) max < 2 ^ 31).
    pose proof (nchunks_lt (a_size a) max 0 ltac:(lia) S2 ltac:(lia)). lia.
  - unfold write_ectx. simpl. by rewrite Hw.
  - split; [done|]. lia.
  - rewrite W2. apply lookup_insert_eq.
  - split; [done|lia].
  - eapply can_post_grows; [|exact W1]. rewrite length_fmap, length_pieces. exact Hpost.
  - split; simpl; [by rewrite (proj2 (Z.eqb_neq packet 0))|]. intros _.
    rewrite W3, lookup_insert_eq. split_and!; [eauto|done|lia|done].
  - simpl. by rewrite W9.
Qed.

(** *** The receiver gets the FIN *)

(** The data is in place and a FIN is in [fpacket]. *)
Lemma fin_arrives held p st fpacket packet ctx c m comp comp' :
  pool_ready cf (packet :: fpacket :: held) p -> bq_inv support_putimm (p_net (with_mem m p)) ->
  ns_imm_data st = fin_imm -> ns_user_context st = fpacket ->
  load_le 8 m (payload fpacket) = ctx ->
  ns_ctxs (p_net p) !! ctx = Some (Plain c) -> ic_packet_to_free c = 0 ->
  is_Some (p_mrs p !! ic_mr c) -> is_Some (ns_blocks (p_net p) !! ic_mr c) -> ic_mr c <> 0 ->
  ic_mr c ∉ owned (bq_queue (ns_bq (p_net p))) ->
  comp_is_empty (ic_comp c) = false -> p_comps p !! ic_comp c = Some comp ->
  comp_signal (ctx_status c) comp = Ok comp' ->
  exists p', progress_recv st (with_mem m p) = Ok (tt, p')
    /\ completed cf support_putimm (packet :: held) (with_mem m p) ctx c comp' p'.
Proof.
  intros Hpr I Himm Huc Hld Hc Hpk Hmr Hbl Hnz Hown Hce Hcomp Hsig.
  apply (fin_received cf tid get_rkey post_impl support_putimm (packet :: held) st ctx c comp comp');
    rewrite ?Huc; try done.
  - eapply pool_inv_perm; [|apply Hpr]. constructor.
  - intros q Hq. split; [by rewrite Hpk|]. intros _. by split_and!.
Qed.
End Stages.

(** ** Two processes *)

Section TwoProcesses.
(** The sender, with its backend, and the receiver, with its own. *)
Context {B E B' E' : Type} `{!MatchingEngine E} `{!MatchingEngine E'}.
Variable cf cf' : config.
Variable envs envs' : nat -> steal_env.
Variable tid tid' : nat.
Variable get_rkey get_rkey' : Z -> Z.
Variable post_impl : net_op_t -> bool -> memory -> B -> errorcode_t * B.
Variable post_impl' : net_op_t -> bool -> memory -> B' -> errorcode_t * B'.
Variable support_putimm support_putimm' : bool.
Variable poll_comp_impl : nat -> memory -> B -> list net_status_t * memory * B.
Variable poll_comp_impl' : nat -> memory -> B' -> list net_status_t * memory * B'.
Variable post_recvs_impl : list Z -> Z -> Z -> B -> nat * B.
Variable post_recvs_impl' : list Z -> Z -> Z -> B' -> nat * B'.
Implicit Types s : proc B E.
Implicit Types r : proc B' E'.

#[local] Abbreviation mem p := (ns_mem (p_net p)).
#[local] Abbreviation max := (cf_max_msg_size cf).
#[local] Abbreviation post_comm_s :=
  (post_comm (E := E) cf envs tid get_rkey post_impl support_putimm poll_comp_impl post_recvs_impl).
#[local] Abbreviation post_comm_r :=
  (post_comm (E := E') cf' envs' tid' get_rkey' post_impl' support_putimm' poll_comp_impl'
     post_recvs_impl').
#[local] Abbreviation progress_recv_s :=
  (progress_recv (E := E) cf tid get_rkey post_impl support_putimm).
#[local] Abbreviation progress_recv_r :=
  (progress_recv (E := E') cf' tid' get_rkey' post_impl' support_putimm').
#[local] Abbreviation process_batch_s :=
  (process_completion_batch (E := E) cf tid get_rkey post_impl support_putimm).

(** A receiver at which a receive [b] and an announced message meet; a second
    packet [fpacket] is with its network. *)
Record rdv_awaits (held : list Z) r (packet fpacket rank tag size rhandler eng : Z)
    (pol : matching_policy_t) (mkey : Z) (e : E') (b : post_comm_args_t) : Prop := mk_rdv_awaits {
  rw_pool : pool_ready cf' (packet :: fpacket :: held) r;
  rw_handler : registry_get rhandler (p_registry r)
    = Ok (mk_entry rh_matching_engine eng (policy_val pol));
  rw_policy : pol <> mp_max;
  rw_key : make_key rank tag pol = Ok mkey;
  rw_u64 : is_u64 mkey;
  rw_engine : p_engines r !! eng = Some e;
  rw_inv : engine_inv e;
  rw_recv : recv_args cf' b r;
  rw_eng : a_matching_engine b = eng;
  rw_recv_key : make_key (a_rank b) (a_tag b) (recv_policy b) = Ok mkey;
  rw_idle : idle_at e mkey;
  rw_fits : size <= a_size b;
  rw_buffer : is_u64 (a_local_buffer b) /\ user_buffer (a_local_buffer b) size r;
  rw_post : can_post support_putimm' (p_net r) rank 1;
  rw_brk : ns_brk (p_net r) < 2 ^ 64;
  rw_rkey : forall x, is_u64 (get_rkey' x);
  rw_pending : - 2 ^ 63 <= p_pending r /\ p_pending r + 1 < 2 ^ 63;
  rw_comp : exists c c', p_comps r !! a_local_comp b = Some c
    /\ comp_signal (done_status b rank tag size) c = Ok c'
}.

(** The network delivers the request [q] in a packet. *)
Record arrives (cf0 : config) (q : request) (bytes : list Z) (st : net_status_t) (packet : Z)
    (m0 m : memory) : Prop := mk_arrives {
  av_imm : ns_imm_data st = no_imm_data q.1;
  av_packet : ns_user_context st = packet;
  av_lands : lands cf0 bytes packet m0 m
}.

(** The receive is posted and the RTS handled, in one order or the other. *)
Definition meets (recv_first : bool) (fuel : nat) (b : post_comm_args_t) (st : net_status_t) r r2 :
    Prop :=
  exists status r1, is_posted (st_error status) = true
    /\ if recv_first
       then post_comm_r fuel b r = Ok (inr status, r1) /\ progress_recv_r st r1 = Ok (tt, r2)
       else progress_recv_r st r = Ok (tt, r1) /\ post_comm_r fuel b r1 = Ok (inr status, r2).

Lemma meets_waiting recv_first fuel held r st packet rts eng pol mkey e b key arch :
  backend_codes post_impl' ->
  rdv_delivery cf' get_rkey' support_putimm' held r st packet rts eng pol mkey e b key arch ->
  exists q r2, meets recv_first fuel b st r r2
    /\ waiting cf' get_rkey' support_putimm' held r st packet rts eng e b key arch
         (ns_brk (p_net r) + 128) q r2.
Proof.
  intros Hbc D. destruct recv_first.
  - destruct (recv_then_rts cf' tid' get_rkey' post_impl' support_putimm' envs' poll_comp_impl'
      post_recvs_impl' fuel _ _ _ _ _ _ _ _ _ _ _ _ Hbc D) as (s1 & r1 & q & r2 & H1 & H2 & H3 & W).
    exists q, r2. split; [|done]. by exists s1, r1.
  - destruct (rts_then_recv cf' tid' get_rkey' post_impl' support_putimm' envs' poll_comp_impl'
      post_recvs_impl' fuel _ _ _ _ _ _ _ _ _ _ _ _ Hbc D) as (s1 & r1 & q & r2 & H1 & H2 & H3 & W).
    exists q, r2. split; [|done]. by exists s1, r1.
Qed.

(** The pool of the receiver is as before. *)
Lemma waiting_ready held r st packet rts eng e b key arch mr q r2 :
  pool_ready cf' (packet :: held) r ->
  waiting cf' get_rkey' support_putimm' held r st packet rts eng e b key arch mr q r2 ->
  pool_ready cf' (packet :: held) r2.
Proof.
  intros [H1 H2 H3 H4 H5] W. destruct (wt_pool _ _ _ _ _ _ _ _ _ _ _ _ _ _ _ _ W) as [Hi (S1 & S2 & _ & S4 & S5 & _)].
  pose proof (wt_grows _ _ _ _ _ _ _ _ _ _ _ _ _ _ _ _ W) as G. pose proof (gr_brk _ _ _ _ G).
  split; rewrite ?S1, ?S2, ?S4, ?S5; try done; [lia|].
  intros x n [Hx|Hx]%(gr_blocks _ _ _ _ G); [by eapply H5|lia].
Qed.

(** What the receiver has when all is written and the FIN has come. *)
Record rdv_received (b : post_comm_args_t) (status : status_t) (data : list Z) r r' : Prop :=
  mk_rdv_received {
    rr_signals : p_signals r' = p_signals r ++ [(a_local_comp b, status)];
    rr_data : load_bytes (mem r') (a_local_buffer b) (Z.of_nat (length data)) = data;
    rr_ctx : ns_ctxs (p_net r') !! ns_brk (p_net r) = None;
    rr_mr : p_mrs r' !! (ns_brk (p_net r) + 128) = None;
    rr_pending : p_pending r' = p_pending r
  }.

Lemma data_received held r st packet fpacket rank tag size rhandler eng pol mkey e b sctx q r2
    src prank buffer ops writeimm mr' imm ectx cmax bytes st3 m :
  let rts := mk_rts rhandler sctx tag size in
  let key := ns_brk (p_net r) in
  let rtr := rtr_of get_rkey' (recv_ctx b) (key + 128) rts key in
  rdv_awaits held r packet fpacket rank tag size rhandler eng pol mkey e b ->
  ns_rank st = rank -> 0 < size -> 0 < cmax -> size + cmax < 2 ^ 64 ->
  waiting cf' get_rkey' support_putimm' (fpacket :: held) r st packet rts eng e b key (p_archive r)
    (key + 128) q r2 ->
  ops ≡ₚ pieces cmax writeimm prank buffer size mr' rtr imm ectx ->
  ns_imm_data st3 = fin_imm -> ns_user_context st3 = fpacket ->
  lands cf' bytes fpacket (foldr (put_effect src) (mem r2) ops) m -> length bytes = 8%nat ->
  load_le 8 m (payload cf' fpacket) = key ->
  exists r5, progress_recv_r st3 (with_mem m r2) = Ok (tt, r5)
    /\ rdv_received b (done_status b rank tag size) (load_bytes src buffer size) r r5.
Proof.
  intros rts key rtr Aw Hrank Hs0 Hm0 Hs W HP Himm Huc Hl Hlen Hld.
  pose proof (waiting_ready _ _ _ _ _ _ _ _ _ _ _ _ _ (rw_pool _ _ _ _ _ _ _ _ _ _ _ _ _ Aw) W) as Hpr.
  destruct Aw as [[_ _ _ Hbk _] _ _ _ _ _ _ Hra _ _ _ Hfit [Hbu (U1 & U2 & U3)] Hpost _ _ Hpd (c & c' & Hc & Hsig)].
  destruct W as [G _ _ _ _ Wctx Wmr (Wl1 & Wl2 & Wl3) _ [_ Wp] Wpd [Wc Ws] _ _].
  destruct Wp as (_ & P2 & _ & P4 & _).
  set (mm := foldr (put_effect src) (mem r2) ops) in *.
  destruct (pieces_any_order cmax writeimm prank buffer size mr' rtr imm ectx Hm0 ltac:(lia)
    ltac:(simpl; lia) src (mem r2) ops HP) as [Hdata Hother]. fold mm in Hdata, Hother.
  cbn [rtr rtr_of rtr_rmr rtr_offset rmr_base recv_ctx ic_buffer] in Hdata, Hother.
  rewrite Z.add_0_r in Hdata, Hother.
  assert (Hout : forall x, x < heap (p_pool r) \/ heap (p_pool r) + heap_size (p_pool r) <= x -> m x = mm x).
  { intros x Hx. rewrite <- P2, <- P4 in Hx.
    eapply lands_outside; [exact Hl|exact Hpr|set_solver|rewrite Hlen; done|done]. }
  assert (I : bq_inv support_putimm' (p_net (with_mem m r2))).
  { apply (with_mem_grows (E := E') support_putimm' m r2); [apply G|].
    intros x n y _ Hb Hy. pose proof (pr_blocks _ _ _ Hpr _ _ Hb) as Hge. rewrite P2, P4 in Hge.
    rewrite Hout by lia. apply Hother.
    apply (gr_blocks _ _ _ _ G) in Hb as [Hb|Hb]; [apply U3 in Hb; unfold disjoint in Hb; lia|lia]. }
  destruct (fin_arrives cf' tid' get_rkey' post_impl' support_putimm' held r2 st3 fpacket packet key
    (waiting_ctx (recv_ctx b) (ns_rank st) (key + 128) rts) m c c') as (r5 & H5 & K);
    try done; [apply Hra|by rewrite Wc|by rewrite Hrank|].
  exists r5. split; [exact H5|]. destruct K as [_ K2 K3 K4 _ K6 K7 _ _]. split.
  - rewrite K4. simpl. by rewrite Ws, Hrank.
  - rewrite K3, length_load_bytes, Z2Nat.id, <- Hdata by lia. apply load_bytes_ext. intros x Hx.
    apply Hout. unfold disjoint in U2. lia.
  - rewrite K2. apply lookup_delete_eq.
  - rewrite K6. simpl. apply lookup_delete_eq.
  - rewrite K7. simpl. rewrite Wpd. apply i64_back; lia.
Qed.

(** A sender whose large message goes by rendezvous: [packet] is the packet that the
    post takes, [rpacket] one that is with the network. *)
Record rdv_sends (held : list Z) (a : post_comm_args_t) s (packet rpacket : Z) : Prop :=
  mk_rdv_sends {
    rn_sender : rdv_sender cf support_putimm (rpacket :: held) a s;
    rn_protocol : set_protocol cf a (traits_of cf a s) (resolve_rhandler a (traits_of cf a s))
      = (proto_rdv_zcopy, false);
    rn_packet : exists s0, get_packet cf envs tid true s = Ok (packet, s0);
    rn_size : rdv_size cf a;
    rn_post : can_post support_putimm (p_net s) (a_rank a) (Z.to_nat (nchunks (a_size a) max) + 2);
    rn_buffer : user_buffer (a_local_buffer a) (a_size a) s;
    rn_pending : - 2 ^ 63 <= p_pending s /\ p_pending s + 1 < 2 ^ 63;
    rn_comp : exists c c', p_comps s !! a_local_comp a = Some c
      /\ comp_signal (done_status a (a_rank a) (a_tag a) (a_size a)) c = Ok c'
  }.

(** What the sender has when its writes are done. *)
Record rdv_sent (a : post_comm_args_t) (ctx ectx : Z) s s' : Prop := mk_rdv_sent {
  rt_signals : p_signals s' = p_signals s
    ++ [(a_local_comp a, done_status a (a_rank a) (a_tag a) (a_size a))];
  rt_ctxs : ns_ctxs (p_net s') !! ctx = None /\ ns_ctxs (p_net s') !! ectx = None;
  rt_mr : p_mrs s' !! (ectx + 128) = None;
  rt_pending : p_pending s' = p_pending s
}.

#[local] Abbreviation adds s qs s' :=
  (forall k, to_rank k (requests (p_net s')) = to_rank k (requests (p_net s)) ++ to_rank k qs).

Lemma buffer_kept held a s packet rpacket ctx q s1 bytes m rtr s3 :
  user_buffer (a_local_buffer a) (a_size a) s ->
  announced cf support_putimm (rpacket :: held) a s packet ctx q s1 ->
  lands cf bytes rpacket (mem s1) m -> Z.of_nat (length bytes) = sizeof_rtr_msg_t ->
  writing cf support_putimm (packet :: held) (with_mem m s1) ctx (rdv_ctx a packet) rtr 0 s3 ->
  load_bytes (mem s3) (a_local_buffer a) (a_size a)
  = load_bytes (mem s) (a_local_buffer a) (a_size a).
Proof.
  intros (U1 & U2 & _) [A1 _ _ _ _ _ [-> A7] A8 [A9 (_ & P2 & _ & P4 & _)] _] Hl Hlen W.
  apply load_bytes_ext. intros x Hx. rewrite (wr_mem _ _ _ _ _ _ _ _ _ W) by (simpl; lia). simpl.
  unfold disjoint in U2. pose proof A9 as [Hi Hps _ _ _].
  assert (Hout : x < heap (p_pool s1) \/ heap (p_pool s1) + heap_size (p_pool s1) <= x)
    by (rewrite P2, P4; lia).
  rewrite (lands_outside cf bytes rpacket (packet :: rpacket :: held) (mem s1) m s1 x Hl A9);
    [|set_solver|lia|done].
  destruct (payload_in_heap cf _ packet (p_pool s1) sizeof_rtr_msg_t Hi ltac:(by left) Hps).
  pose proof (payload_from_heap cf _ packet (p_pool s1) Hi ltac:(by left)).
  apply A8; [unfold sizeof_rts_msg_t, sizeof_rtr_msg_t in *; lia|lia].
Qed.

(** The second half of the sender: from the RTR on. *)
Lemma rdv_transfer held a s packet rpacket q1 s1 rtr bytes st2 m :
  backend_codes post_impl -> cf_writeimm cf = false -> rdv_sends held a s packet rpacket ->
  let ctx := ns_brk (p_net s) in
  announced cf support_putimm (rpacket :: held) a s packet ctx q1 s1 ->
  lands cf bytes rpacket (mem s1) m -> Z.of_nat (length bytes) = sizeof_rtr_msg_t ->
  load_rtr m (payload cf rpacket) = rtr -> rtr_send_ctx rtr = ctx ->
  is_u64 (rtr_recv_ctx_or_key rtr) -> rtr_recv_ctx_or_key rtr <> 0 ->
  ns_imm_data st2 = rtr_imm -> ns_user_context st2 = rpacket ->
  let ectx := ns_brk (p_net s1) in
  let ps := pieces max false (a_rank a) (a_local_buffer a) (a_size a) (ectx + 128) rtr 0 ectx in
  exists s3, progress_recv_s st2 (with_mem m s1) = Ok (tt, s3)
    /\ adds s1 ((fun o => (o, [])) <$> ps) s3
    /\ load_bytes (mem s3) (a_local_buffer a) (a_size a)
       = load_bytes (mem s) (a_local_buffer a) (a_size a)
    /\ forall sts, Forall (write_of ectx) sts -> length sts = length ps ->
       exists s4 q3, process_batch_s sts s3 = Ok (None, s4) /\ adds s3 [q3] s4
         /\ rdv_sent a ctx ectx s s4
         /\ tells (a_rank a) (rtr_recv_ctx_or_key rtr) (mem s4) [q3].
Proof.
  intros Hbc Hw [Rs Rp [s0 Rg] Rz Rpost Rb Rpd (c & c' & Rc & Rsig)] ctx A Hl Hlen Hrtr Hctx Hk Hk0
    Himm Huc ectx ps.
  pose proof (get_packet_blocking _ _ _ _ _ _ Rg) as Hnz. cbv beta in Hnz.
  pose proof A as [A1 _ _ _ _ A6 [_ A7] _ [A9 _] (A10 & A11 & A12 & A13 & _)].
  assert (Hp1 : can_post support_putimm (p_net s1) (a_rank a) (Z.to_nat (nchunks (a_size a) max) + 1)).
  { eapply can_post_grows; [|exact A1]. destruct Rpost as [R1 R2 R3]. split; try done. simpl in *. lia. }
  assert (G : grows support_putimm (p_net s1) [] (p_net (with_mem m s1))).
  { eapply lands_grows; [exact Hl|exact A9|set_solver|lia|apply Hp1]. }
  destruct (rtr_arrives cf tid get_rkey post_impl support_putimm held a s packet rpacket ctx q1 s1 st2
    rtr bytes m) as (s3 & H3 & W); try done.
  { destruct Hp1 as [R1 R2 R3]. split; try done. lia. }
  exists s3. split_and!; [exact H3| | |].
  - pose proof (grows_quiet _ _ _ _ _ G (wr_grows _ _ _ _ _ _ _ _ _ W)) as G3. rewrite Hw in G3.
    apply G3.
  - by eapply buffer_kept.
  - intros sts Hall Hn.
    destruct (writes_done cf tid get_rkey post_impl support_putimm held s3 sts ectx
      (write_ectx cf ctx rtr (nchunks (a_size a) max)) ctx
      (set_mr_on_the_fly (ectx + 128) (rdv_ctx a packet)) c c')
      as (qs & s4 & H4 & [F1 F2 F3 _ F5 _ F7 F8 _ _ _ _]); try done.
    { apply (writing_counts cf support_putimm held a (with_mem m s1) s3 packet ctx rtr); try done;
        [apply Rs|simpl; lia|eapply can_post_grows; [|exact G]; exact Hp1|simpl; by rewrite A11]. }
    { rewrite Hn; unfold ps; rewrite length_pieces. change (ie_signal_count _) with (nchunks (a_size a) max).
      assert (0 <= nchunks (a_size a) max) by (destruct Rz; apply Z.div_pos; lia). lia. }
    unfold write_ectx in F1. rewrite Hw in F1. cbn [ie_recv_ctx] in F1.
    pose proof F1 as F1'. unfold tells in F1. rewrite (proj2 (Z.eqb_neq _ _) Hk0) in F1.
    destruct F1 as (q3 & -> & _). exists s4, q3. split_and!; [exact H4|apply F2| |exact F1'].
    destruct W as [_ _ W3 _ _ _ _ _ (W9 & _ & W10 & _)]. split.
    + rewrite F5, W10. simpl. by rewrite A12.
    + rewrite F3. split; [apply lookup_delete_eq|]. rewrite lookup_delete_ne by (unfold ectx, ctx; lia).
      apply lookup_delete_eq.
    + rewrite F7. simpl. apply lookup_delete_eq.
    + rewrite F8, W9. simpl. rewrite A10. apply i64_back; lia.
Qed.

Lemma pieces_puts cmax rank buffer size mr rtr imm ectx :
  Forall (fun o => no_op o = bo_put /\ no_rank o = rank /\ no_user_context o = ectx)
    (pieces cmax false rank buffer size mr rtr imm ectx).
Proof. apply Forall_fmap, Forall_forall. by intros i _. Qed.

(** The RTS arrives at the receive. *)
Lemma announced_delivery held held' a s packet q1 s1 r st1 packet' fpacket rank eng pol mkey e b :
  cf_writeimm cf' = false ->
  let rhandler := resolve_rhandler a (traits_of cf a s) in
  rdv_sender cf support_putimm held a s -> 0 < a_size a ->
  announced cf support_putimm held a s packet (ns_brk (p_net s)) q1 s1 ->
  carried cf' q1 (wire (mem s1) q1) rank st1 packet' r ->
  rdv_awaits held' r packet' fpacket rank (a_tag a) (a_size a) rhandler eng pol mkey e b ->
  rdv_delivery cf' get_rkey' support_putimm' (fpacket :: held') r st1 packet'
    (mk_rts rhandler (ns_brk (p_net s)) (a_tag a) (a_size a)) eng pol mkey e b (ns_brk (p_net r))
    (p_archive r).
Proof.
  intros Hw' rhandler Rs Hs0 A [C1 C2 C3 C4 C5] Aw.
  pose proof A as [_ _ A3 A4 A5 _ _ _ _ _].
  pose proof (inv_brk _ _ (cp_inv _ _ _ _ (rw_post _ _ _ _ _ _ _ _ _ _ _ _ _ Aw))) as Hr0.
  pose proof (inv_brk _ _ (cp_inv _ _ _ _ (rs_post _ _ _ _ _ Rs))) as Hb0.
  destruct Aw as [W1 W2 W3 W4 W5 W6 W7 W8 W9 W10 W11 W12 [W13 _] W14 W15 W16 _ _].
  destruct Rs as [_ _ _ Ht Hz Hh Hb _].
  split; rewrite ?C1; try done.
  - by rewrite C2.
  - apply A5. rewrite <- A4. exact C5.
  - unfold rts_ok. simpl. split_and!; try done. unfold is_u64. lia.
  - unfold is_u64. lia.
  - by rewrite Hw'.
Qed.

(** C1: end to end, a send by rendezvous under the write protocol. The post commits
    an RTS. Wherever the network delivers it and a matching receive is posted, before
    or after, the receiver commits an RTR. When that is delivered the sender commits
    writes; when the network reports them complete the sender's completion object is
    signalled, its contexts and its registration are gone, and a FIN is committed.
    When the FIN is delivered after the writes took effect in any order, the receiver's
    completion object is signalled with the sender's rank, tag and size, its context
    and registration are gone, and the receive buffer holds the bytes that were in
    the sender's buffer at the post. *)
Theorem rendezvous_end_to_end fuel fuel' held a s packet rpacket rank :
  backend_codes post_impl -> backend_codes post_impl' ->
  cf_writeimm cf = false -> cf_writeimm cf' = false -> rdv_sends held a s packet rpacket ->
  let rhandler := resolve_rhandler a (traits_of cf a s) in
  let data := load_bytes (mem s) (a_local_buffer a) (a_size a) in
  exists status s1 rts, post_comm_s fuel a s = Ok (inr status, s1)
    /\ is_posted (st_error status) = true /\ adds s [rts] s1 /\ no_rank rts.1 = a_rank a
  /\ forall recv_first held' r st1 packet' fpacket eng pol mkey e b,
    carried cf' rts (wire (mem s1) rts) rank st1 packet' r ->
    rdv_awaits held' r packet' fpacket rank (a_tag a) (a_size a) rhandler eng pol mkey e b ->
    exists r2 rtr, meets recv_first fuel' b st1 r r2
      /\ (forall k, to_rank k (requests (p_net r2)) = to_rank k (requests (p_net r)) ++ to_rank k [rtr])
      /\ no_rank rtr.1 = rank
  /\ forall st2 m2, arrives cf rtr (wire (mem r2) rtr) st2 rpacket (mem s1) m2 ->
    exists s3 puts ctx ectx, progress_recv_s st2 (with_mem m2 s1) = Ok (tt, s3)
      /\ adds s1 ((fun o => (o, [])) <$> puts) s3
      /\ Forall (fun o => no_op o = bo_put /\ no_rank o = a_rank a /\ no_user_context o = ectx) puts
  /\ forall sts, Forall (write_of ectx) sts -> length sts = length puts ->
    exists s4 fin, process_batch_s sts s3 = Ok (None, s4) /\ rdv_sent a ctx ectx s s4
      /\ adds s3 [fin] s4 /\ no_rank fin.1 = a_rank a
  /\ forall order st3 m3, order ≡ₚ puts ->
    arrives cf' fin (wire (mem s4) fin) st3 fpacket (foldr (put_effect (mem s3)) (mem r2) order) m3 ->
    exists r5, progress_recv_r st3 (with_mem m3 r2) = Ok (tt, r5)
      /\ rdv_received b (done_status b rank (a_tag a) (a_size a)) data r r5.
Proof.
  intros Hbc Hbc' Hw Hw' Hs rhandler data. pose proof Hs as [Rs Rp [s0 Rg] [Z1 Z2 Z3 Z4] _ _ _ _].
  destruct (rdv_announced cf tid get_rkey post_impl support_putimm envs poll_comp_impl post_recvs_impl
    fuel _ _ _ _ _ Rs Hbc Rp Rg) as (status & q1 & s1 & H1 & H1' & A).
  set (ctx := ns_brk (p_net s)) in A.
  pose proof A as [A1 A2 A3 A4 A5 _ [_ A7] _ _ _]. pose proof (inv_brk _ _ (gr_inv _ _ _ _ A1)) as Hb1.
  exists status, s1, q1. split_and!; [done|done|apply A1|done|].
  intros recv_first held' r st1 packet' fpacket eng pol mkey e b C Aw.
  pose proof (cr_rank _ _ _ _ _ _ _ C) as C1.
  set (rts := mk_rts rhandler ctx (a_tag a) (a_size a)). set (key := ns_brk (p_net r)).
  assert (D : rdv_delivery cf' get_rkey' support_putimm' (fpacket :: held') r st1 packet' rts eng pol
    mkey e b key (p_archive r)).
  { by eapply announced_delivery. }
  pose proof (inv_brk _ _ (cp_inv _ _ _ _ (rw_post _ _ _ _ _ _ _ _ _ _ _ _ _ Aw))) as Hr0.
  destruct (meets_waiting recv_first fuel' _ _ _ _ _ _ _ _ _ _ _ _ Hbc' D) as (q2 & r2 & Hm & W).
  pose proof W as [W1 W2 W3 W4 W5 _ _ _ _ _ _ _ _ _].
  exists r2, q2. split_and!; [done|apply W1|congruence|]. intros st2 m2 [V1 V2 V3].
  set (rtr := rtr_of get_rkey' (recv_ctx b) (key + 128) rts key).
  destruct (rdv_transfer held a s packet rpacket q1 s1 rtr (wire (mem r2) q2) st2 m2)
    as (s3 & T1 & T2 & T3 & T4); try done.
  { apply W5. rewrite <- W4. apply V3. }
  { apply (rd_kept _ _ _ _ _ _ _ _ _ _ _ _ _ _ _ D). }
  { simpl. unfold key. lia. }
  { congruence. }
  eexists s3, _, ctx, _. split_and!; [exact T1|exact T2|apply pieces_puts|]. intros sts Hall Hn.
  destruct (T4 sts Hall Hn) as (s4 & q3 & U1 & U2 & U3 & U4). exists s4, q3.
  unfold tells in U4. change (rtr_recv_ctx_or_key rtr) with key in U4.
  rewrite (proj2 (Z.eqb_neq key 0)) in U4 by (unfold key; lia).
  destruct U4 as (? & [= <-] & Y1 & Y2 & Y3 & Y4). split_and!; try done.
  intros order st3 m3 HP [X1 X2 X3]. unfold data. rewrite <- T3.
  eapply data_received; [exact Aw|exact C1|done|exact Z2|exact Z3|exact W|exact HP|congruence|done|
    exact X3|lia|].
  apply Y4. rewrite <- Y3. apply X3.
Qed.
End TwoProcesses.

(** ** Two concrete processes

    Rank 0 sends 1000 bytes to rank 1 over a network that takes messages of up to
    400 bytes; two packets of each are with the network. *)
#[local] Abbreviation process := (proc unit matching_engine_map_t).

Definition rdv_config : config :=
  mk_config (2 ^ 16 - 1) (2 ^ 15 - 1) 16 15 4096 false 64 400 64 16 0 40 4096 demo_lctx.
Definition take_packet (q : packet_pool_impl_t) : Z * packet_pool_impl_t :=
  or_default (0, q) (pool_get 4096 demo_lctx demo_env 0 true q).
Definition take_two (q : packet_pool_impl_t) : Z * Z * packet_pool_impl_t :=
  let '(a, q) := take_packet q in
  let '(b, q) := take_packet q in (a, b, q).
(** The packets that are out, and a process with the given memory. *)
Definition rdv_packets : Z * Z * packet_pool_impl_t := take_two (p_pool demo_sender).
Definition rdv_proc (m : memory) : process := with_mem m (set_pool rdv_packets.2 demo_sender).

Definition rdv_send_args : post_comm_args_t :=
  mk_args OUT 1 100 1000 600 512 demo_registry.1 sem_memory MR_HOST 0 RMR_NULL 5 0 0 mp_rank_tag
    true true false.
Definition rdv_recv_args : post_comm_args_t :=
  mk_args IN 0 7000 1024 600 512 demo_registry.1 sem_memory MR_HOST 0 RMR_NULL 5 0 77 mp_rank_tag
    true true false.

Lemma take_packet_inv held q a q' :
  pool_inv 40 4096 demo_lctx held q -> take_packet q = (a, q') -> a <> 0 ->
  pool_inv 40 4096 demo_lctx (a :: held) q' /\ same_pool q q'.
Proof.
  intros Hi. unfold take_packet. destruct (pool_get 4096 demo_lctx demo_env 0 true q) as [[x y]|] eqn:E;
    simpl; intros [= <- <-]; [|done]. intros Hz. by eapply (pool_get_spec rdv_config 0).
Qed.

Lemma take_two_inv q a b q' :
  pool_inv 40 4096 demo_lctx [] q -> take_two q = (a, b, q') -> a <> 0 -> b <> 0 ->
  pool_inv 40 4096 demo_lctx [b; a] q' /\ same_pool q q'.
Proof.
  intros Hi. unfold take_two. destruct (take_packet q) as [x q1] eqn:E1.
  destruct (take_packet q1) as [y q2] eqn:E2. intros [= <- <- <-] Ha Hb.
  destruct (take_packet_inv _ _ _ _ Hi E1 Ha) as [H1 S1].
  destruct (take_packet_inv _ _ _ _ H1 E2 Hb) as [H2 S2]. split; [done|]. by etrans.
Qed.

(** Taking packets keeps a pool ready. *)
Lemma ready_taken (p : process) m a b q :
  sender demo_config false [] (demo_send 5) p -> packet_size (attr (p_pool p)) = 512 ->
  take_two (p_pool p) = (a, b, q) -> a <> 0 -> b <> 0 ->
  pool_ready rdv_config [b; a] (with_mem m (set_pool q p)).
Proof.
  intros [_ _ _ _ Hi _ Hreg Hbrk Hbl _ _] Hps Ht Ha Hb.
  destruct (take_two_inv _ _ _ _ Hi Ht Ha Hb) as [Hq (A1 & A2 & _ & A4 & A5 & _)].
  split; simpl; rewrite ?A1, ?A2, ?A4, ?A5, ?Hps; try done.
Qed.

Lemma rdv_packets_eq :
  take_two (p_pool demo_sender) = (rdv_packets.1.1, rdv_packets.1.2, rdv_packets.2).
Proof. unfold rdv_packets. destruct (take_two (p_pool demo_sender)) as [[a b] q]. reflexivity. Qed.

Lemma rdv_proc_ready m : pool_ready rdv_config [rdv_packets.1.2; rdv_packets.1.1] (rdv_proc m).
Proof.
  apply (ready_taken demo_sender m); [apply demo_sender_ok|vm_compute; reflexivity|
    exact rdv_packets_eq|vm_compute; discriminate|vm_compute; discriminate].
Qed.

Lemma rdv_proc_post m rank n :
  0 <= rank < 2 -> (n < 10)%nat -> can_post false (p_net (rdv_proc m)) rank n.
Proof.
  intros Hr Hn.
  assert (p_net (rdv_proc m) = set_mem m (p_net demo_sender)) as -> by reflexivity.
  pose proof (demo_sender_ok 5) as Hs. pose proof (sd_bq _ _ _ _ _ Hs) as I.
  assert (Hbq : ns_bq (p_net demo_sender) = backlog_queue_new 2) by (vm_compute; reflexivity).
  clear Hs. generalize dependent demo_sender. intros p I Hbq. split.
  - eapply bq_inv_ext; [..|exact I]; done.
  - unfold valid_rank. simpl. rewrite Hbq. simpl. lia.
  - simpl. rewrite Hbq. simpl. lia.
Qed.

Lemma rdv_proc_net m :
  ns_blocks (p_net (rdv_proc m)) = {[10000 := 1]} /\ ns_brk (p_net (rdv_proc m)) = 10001
  /\ heap (p_pool (rdv_proc m)) = 4096 /\ heap_size (p_pool (rdv_proc m)) = 2112.
Proof. split_and!; vm_compute; reflexivity. Qed.

Lemma rdv_proc_buffer m a n :
  0 <= a -> 0 <= n -> (a + n <= 4096 \/ 6208 <= a) -> a + n <= 10000 -> user_buffer a n (rdv_proc m).
Proof.
  intros H0 Hn Ha He. destruct (rdv_proc_net m) as (Hb & Hk & Hh & Hs). unfold user_buffer, disjoint.
  rewrite Hb, Hk, Hh, Hs. split_and!; [lia|lia|]. intros b k [<- <-]%lookup_singleton_Some. lia.
Qed.

Lemma rdv_proc_comp m st :
  is_done (st_error st) = true ->
  exists c c', p_comps (rdv_proc m) !! 600 = Some c /\ comp_signal st c = Ok c'.
Proof.
  intros Hd. exists (comp_cq false []). destruct (comp_signal_total st (comp_cq false [])) as [c' Hc]; try done.
  exists c'. split; [vm_compute; reflexivity|done].
Qed.

Lemma rdv_proc_sends m :
  exists packet, rdv_sends rdv_config demo_envs 0 false [rdv_packets.1.2] rdv_send_args (rdv_proc m)
                   packet rdv_packets.1.1.
Proof.
  destruct (get_packet rdv_config demo_envs 0 true (rdv_proc m)) as [[packet s0]|f] eqn:E;
    [|exfalso; vm_compute in E; discriminate].
  exists packet. constructor.
  - constructor.
    + constructor; try reflexivity. vm_compute. discriminate.
    + destruct (rdv_proc_ready m) as [H1 H2 H3 H4 H5]. split; [|exact H2|exact H3|exact H4|exact H5].
      eapply pool_inv_perm; [|exact H1]. constructor.
    + apply rdv_proc_post; [|lia]. change (a_rank rdv_send_args) with 1. lia.
    + unfold is_u64. simpl. lia.
    + unfold is_u64. simpl. lia.
    + vm_compute. intuition discriminate.
    + destruct (rdv_proc_net m) as (_ & -> & _). lia.
    + vm_compute. discriminate.
  - vm_compute. reflexivity.
  - exists s0. exact E.
  - constructor; vm_compute; reflexivity.
  - apply rdv_proc_post; [|vm_compute; lia]. change (a_rank rdv_send_args) with 1. lia.
  - apply rdv_proc_buffer; simpl; lia.
  - assert (p_pending (rdv_proc m) = 0) as -> by (vm_compute; reflexivity). lia.
  - apply rdv_proc_comp. reflexivity.
Qed.

Lemma rdv_proc_awaits m :
  rdv_awaits rdv_config (fun _ => 0) false [] (rdv_proc m) rdv_packets.1.2 rdv_packets.1.1 0 5 1000 4 512
    mp_rank_tag (or_default 0 (make_key 0 5 mp_rank_tag)) map_engine_new rdv_recv_args.
Proof.
  constructor.
  - apply rdv_proc_ready.
  - vm_compute. reflexivity.
  - discriminate.
  - vm_compute. reflexivity.
  - vm_compute. intuition discriminate.
  - vm_compute. reflexivity.
  - apply map_engine.
  - constructor; [reflexivity..| | | | |].
    + simpl. lia.
    + reflexivity.
    + reflexivity.
    + exists true. vm_compute. reflexivity.
    + vm_compute. reflexivity.
  - reflexivity.
  - vm_compute. reflexivity.
  - intros t. apply map_engine.
  - simpl. lia.
  - split; [unfold is_u64; simpl; lia|]. apply rdv_proc_buffer; simpl; lia.
  - apply rdv_proc_post; lia.
  - destruct (rdv_proc_net m) as (_ & -> & _). lia.
  - intros x. unfold is_u64. lia.
  - assert (p_pending (rdv_proc m) = 0) as -> by (vm_compute; reflexivity). lia.
  - apply rdv_proc_comp. reflexivity.
Qed.

Lemma taking_codes : backend_codes taking.
Proof. intros op h m b. unfold taking. by destruct (is_short (no_op op)). Qed.

(** The bytes of the sender. *)
Definition rdv_source : memory := fun x => x mod 251.

Lemma rendezvous_end_to_end_witness :
  exists status s1 rts r st1 r2, post_comm rdv_config demo_envs 0 (fun _ => 0) refusing false no_events
      no_recvs 0 rdv_send_args (rdv_proc rdv_source) = Ok (inr status, s1)
    /\ carried rdv_config rts (wire (ns_mem (p_net s1)) rts) 0 st1 rdv_packets.1.2 r
    /\ meets rdv_config demo_envs 0 (fun _ => 0) taking false no_events no_recvs true 0 rdv_recv_args
         st1 r r2
    /\ exists m3 st3 r5, progress_recv rdv_config 0 (fun _ => 0) taking false st3 (with_mem m3 r2) = Ok (tt, r5)
    /\ load_bytes (ns_mem (p_net r5)) 7000 1000 = load_bytes rdv_source 100 1000
    /\ rdv_received rdv_recv_args (done_status rdv_recv_args 0 5 1000) (load_bytes rdv_source 100 1000) r r5.
Proof.
  destruct (rdv_proc_sends rdv_source) as [packet Hs].
  destruct (rendezvous_end_to_end rdv_config rdv_config demo_envs demo_envs 0 0 (fun _ => 0) (fun _ => 0)
    refusing taking false false no_events no_events no_recvs no_recvs 0 0 [rdv_packets.1.2] rdv_send_args
    (rdv_proc rdv_source) packet rdv_packets.1.1 0) as (status & s1 & rts & H1 & _ & _ & _ & H2).
  - apply refusing_codes.
  - apply taking_codes.
  - reflexivity.
  - reflexivity.
  - exact Hs.
  - clear Hs. set (bytes := wire (ns_mem (p_net s1)) rts) in *.
    assert (Hrh : resolve_rhandler rdv_send_args (traits_of rdv_config rdv_send_args (rdv_proc rdv_source)) = 4)
      by (vm_compute; reflexivity).
    rewrite Hrh in H2.
    set (r := rdv_proc (store_bytes (payload rdv_config rdv_packets.1.2) bytes (fun _ => 0))).
    set (st1 := mk_net_status op_RECV 0 rdv_packets.1.2 (Z.of_nat (length bytes)) (no_imm_data rts.1)).
    assert (C : carried rdv_config rts bytes 0 st1 rdv_packets.1.2 r).
    { split; try reflexivity. apply load_store_bytes. }
    destruct (H2 true [] r st1 rdv_packets.1.2 rdv_packets.1.1 512 mp_rank_tag _ map_engine_new rdv_recv_args
      C (rdv_proc_awaits _)) as (r2 & rtr & M & _ & _ & H3).
    exists status, s1, rts, r, st1, r2. split; [exact H1|]. split; [exact C|]. split; [exact M|].
    clear H1 H2 M C.
    destruct (H3 (mk_net_status op_RECV 1 rdv_packets.1.1 48 (no_imm_data rtr.1))
      (store_bytes (payload rdv_config rdv_packets.1.1) (wire (ns_mem (p_net r2)) rtr) (ns_mem (p_net s1))))
      as (s3 & puts & ctx & ectx & _ & _ & _ & H4).
    { split; [reflexivity|reflexivity|apply lands_store]. }
    clear H3.
    destruct (H4 (replicate (length puts) (mk_net_status op_WRITE 1 ectx 0 0))) as (s4 & fin & _ & _ & _ & _ & H5).
    { apply Forall_replicate. split; reflexivity. }
    { apply length_replicate. }
    destruct (H5 puts (mk_net_status op_RECV 0 rdv_packets.1.1 8 (no_imm_data fin.1))
      (store_bytes (payload rdv_config rdv_packets.1.1) (wire (ns_mem (p_net s4)) fin)
         (foldr (put_effect (ns_mem (p_net s3))) (ns_mem (p_net r2)) puts)) (reflexivity puts)) as (r5 & H6 & R).
    { split; [reflexivity|reflexivity|apply lands_store]. }
    eexists _, _, r5. split; [exact H6|]. split; [|exact R].
    destruct R as [_ R _ _ _]. rewrite length_load_bytes in R. exact R.
Defined.
