(* ===== verification/Graph.v ===== *)
(** * The completion graph (src/src/comp/graph.hpp)

    A graph of operations: a node runs when all edges into it have been delivered,
    and delivers its own edges when it is complete. [mark_complete] and
    [trigger_node] call each other through the graph; with several threads their
    loops interleave edge by edge. Both the code as written and the interleaving
    are modelled, from the same [deliver] step. *)
From stdpp Require Import base numbers list gmap strings relations.
From Stdlib Require Import ZArith Lia.
From S2P Require Import Prelude Status.

(** [GRAPH_START] and [GRAPH_END] are reserved addresses; [Node i] is the address
    of the [i]-th element of [nodes]. *)
Inductive graph_node_t : Type := GRAPH_START | GRAPH_END | Node (i : nat).
#[export] Instance graph_node_eq_dec : EqDecision graph_node_t.
Proof. solve_decision. Defined.

Section Graph.
(** Node, edge and destructor callbacks act on the user's state. *)
Context {F EF FC U : Type}.
Variable run_fn : F -> Z -> U -> status_t * U.
Variable run_edge : EF -> status_t -> Z -> Z -> U -> U.
Variable run_free : FC -> Z -> U -> U.
(** [comp.get_impl()->signal(status)] *)
Variable signal_impl : Z -> status_t -> U -> U.

#[local] Abbreviation edge := (graph_node_t * option EF)%type.

Record node_impl_t : Type := mk_gnode {
  signals_received : Z;
  signals_expected : Z;
  fn : option F;
  value : Z;
  free_cb : option FC;
  out_edges : list edge
}.

Record graph_t : Type := mk_graph {
  m_comp : Z;
  m_start_node : node_impl_t;
  nodes : list node_impl_t;
  m_end_signals_expected : Z;
  m_end_value : Z;
  m_end_signals_received : Z
}.

(** The constructor leaves [m_end_signals_received] unset; [garbage] stands for it. *)
Definition graph_new (comp user_context garbage : Z) : graph_t :=
  mk_graph comp (mk_gnode 0 0 None 0 None []) [] 0 user_context garbage.

(** ** Building *)

Definition the_node (g : graph_t) (x : graph_node_t) : option node_impl_t :=
  match x with
  | GRAPH_START => Some (m_start_node g)
  | GRAPH_END => None
  | Node i => nodes g !! i
  end.
Definition put_node (x : graph_node_t) (n : node_impl_t) (g : graph_t) : graph_t :=
  match x with
  | GRAPH_START => mk_graph (m_comp g) n (nodes g) (m_end_signals_expected g) (m_end_value g)
                     (m_end_signals_received g)
  | GRAPH_END => g
  | Node i => mk_graph (m_comp g) (m_start_node g) (<[i := n]> (nodes g)) (m_end_signals_expected g)
                (m_end_value g) (m_end_signals_received g)
  end.
Definition set_received (k : Z) (n : node_impl_t) : node_impl_t :=
  mk_gnode k (signals_expected n) (fn n) (value n) (free_cb n) (out_edges n).
Definition set_end_received (k : Z) (g : graph_t) : graph_t :=
  mk_graph (m_comp g) (m_start_node g) (nodes g) (m_end_signals_expected g) (m_end_value g) k.

Definition add_node (f : option F) (v : Z) (fc : option FC) (g : graph_t) : graph_node_t * graph_t :=
  (Node (length (nodes g)),
   mk_graph (m_comp g) (m_start_node g) (nodes g ++ [mk_gnode 0 0 f v fc []])
     (m_end_signals_expected g) (m_end_value g) (m_end_signals_received g)).

Definition push_edge (e : edge) (n : node_impl_t) : node_impl_t :=
  mk_gnode (signals_received n) (signals_expected n) (fn n) (value n) (free_cb n) (out_edges n ++ [e]).
Definition expect_one (n : node_impl_t) : node_impl_t :=
  mk_gnode (signals_received n) (signals_expected n + 1) (fn n) (value n) (free_cb n) (out_edges n).

Definition add_edge (src dst : graph_node_t) (f : option EF) (g : graph_t) : result graph_t :=
  LCI_Assert (bool_decide (dst <> GRAPH_START)) "The destination node should not be the start node" ;;
  LCI_Assert (bool_decide (src <> GRAPH_END)) "The source node should not be the end node" ;;
  match the_node g src with
  | None => Err (Undefined "not a node of the graph")
  | Some n =>
      let g := put_node src (push_edge (dst, f) n) g in
      match dst with
      | GRAPH_END => Ok (mk_graph (m_comp g) (m_start_node g) (nodes g) (m_end_signals_expected g + 1)
                           (m_end_value g) (m_end_signals_received g))
      | _ => match the_node g dst with
             | None => Err (Undefined "not a node of the graph")
             | Some n => Ok (put_node dst (expect_one n) g)
             end
      end
  end.

(** ** Running *)

(** The graph, until it is deleted, and the user's state. *)
Record gstate : Type := mk_gstate { gs_graph : option graph_t; gs_user : U }.

#[local] Abbreviation G := (ST gstate).

Definition the_graph : G graph_t := fun s =>
  match gs_graph s with
  | Some g => Ok (g, s)
  | None => Err (Undefined "the graph was deleted")
  end.
Definition set_graph (g : graph_t) : G unit := modify (fun s => mk_gstate (Some g) (gs_user s)).
Definition with_user {A} (f : U -> A * U) : G A := fun s =>
  let '(a, u) := f (gs_user s) in Ok (a, mk_gstate (gs_graph s) u).
Definition get_node (x : graph_node_t) : G node_impl_t :=
  g ← the_graph ;
  match the_node g x with
  | Some n => mret n
  | None => fail_with (Undefined "not a node of the graph")
  end.

(** The destructor. *)
Definition free_node (n : node_impl_t) : G unit :=
  match free_cb n with
  | None => mret tt
  | Some f => with_user (fun u => (tt, run_free f (value n) u))
  end.
Fixpoint free_nodes (l : list node_impl_t) : G unit :=
  match l with
  | [] => mret tt
  | n :: l => free_node n ;; free_nodes l
  end.
Definition graph_delete : G unit :=
  g ← the_graph ;
  free_nodes (nodes g) ;;
  modify (fun s => mk_gstate None (gs_user s)).

(** What follows from the delivery of an edge. *)
Inductive outcome : Type := Waits | Triggers (x : graph_node_t) | Completes.

(** One iteration of the loop of [mark_complete]. *)
Definition deliver (status : status_t) (src_value : Z) (e : edge) : G outcome :=
  let '(dst, edge_fn) := e in
  g ← the_graph ;
  dst_value ← match dst with
              | GRAPH_END => mret (m_end_value g)
              | _ => n ← get_node dst ; mret (value n)
              end ;
  match edge_fn with
  | Some f => with_user (fun u => (tt, run_edge f status src_value dst_value u))
  | None => mret tt
  end ;;
  match dst with
  | GRAPH_END =>
      g ← the_graph ;
      let signals := m_end_signals_received g + 1 in
      set_graph (set_end_received signals g) ;;
      if signals =? m_end_signals_expected g then mret Completes
      else assert_st (signals <? m_end_signals_expected g) "signals exceed the expected number" ;;
           mret Waits
  | _ =>
      g ← the_graph ;
      n ← get_node dst ;
      let signals := signals_received n + 1 in
      set_graph (put_node dst (set_received signals n) g) ;;
      if signals =? signals_expected n then mret (Triggers dst)
      else assert_st (signals <? signals_expected n) "signals exceed the expected number" ;;
           mret Waits
  end.

(** The head and the tail of [mark_complete]. *)
Definition begin_complete (x : graph_node_t) : G node_impl_t :=
  n ← get_node x ;
  g ← the_graph ;
  set_graph (put_node x (set_received 0 n) g) ;;
  mret n.
Definition completion_status (g : graph_t) : status_t :=
  mk_status ec_done (-1) 0 0 0 (m_end_value g).
Definition end_complete (graph_completed : bool) : G unit :=
  if graph_completed then
    g ← the_graph ;
    if comp_is_empty (m_comp g) then mret tt
    else graph_delete ;;
         with_user (fun u => (tt, signal_impl (m_comp g) (completion_status g) u))
  else mret tt.

(** The callback of a node; a null one is done at once. *)
Definition run_node (x : graph_node_t) : G status_t :=
  n ← get_node x ;
  match fn n with
  | Some f => with_user (run_fn f (value n))
  | None => mret (set_done status_init)
  end.

(** [trigger_node], with [mark_complete] passed in. *)
Definition trigger_node_with (mark : graph_node_t -> status_t -> G unit) (x : graph_node_t) : G unit :=
  status ← run_node x ;
  if is_done (st_error status) then mark x status
  else assert_st (negb (is_retry (st_error status))) "The node function should not return retry".

Fixpoint mark_edges (trigger : graph_node_t -> G unit) (status : status_t) (src_value : Z)
    (edges : list edge) (graph_completed : bool) : G bool :=
  match edges with
  | [] => mret graph_completed
  | e :: edges =>
      o ← deliver status src_value e ;
      match o with
      | Waits => mark_edges trigger status src_value edges graph_completed
      | Triggers y => trigger y ;; mark_edges trigger status src_value edges graph_completed
      | Completes => mark_edges trigger status src_value edges true
      end
  end.

Fixpoint mark_complete (fuel : nat) (x : graph_node_t) (status : status_t) : G unit :=
  match fuel with
  | O => fail_with OutOfFuel
  | S fuel =>
      n ← begin_complete x ;
      graph_completed ← mark_edges (trigger_node_with (mark_complete fuel)) status (value n)
                          (out_edges n) false ;
      end_complete graph_completed
  end.
Definition trigger_node (fuel : nat) : graph_node_t -> G unit :=
  trigger_node_with (mark_complete fuel).

Definition graph_start (fuel : nat) : G unit :=
  g ← the_graph ;
  set_graph (set_end_received 0 g) ;;
  mark_complete fuel GRAPH_START (set_done status_init).

(** [status.user_context] is the node. *)
Definition graph_signal (fuel : nat) (x : graph_node_t) (status : status_t) : G unit :=
  mark_complete fuel x status.

Definition graph_test : G status_t :=
  g ← the_graph ;
  mret (if m_end_signals_received g =? m_end_signals_expected g
        then mk_status ec_done (-1) 0 0 0 (m_end_value g)
        else set_retry status_init).
End Graph.
