(* ===== verification/GraphRuns.v ===== *)
(** * Runs of the completion graph

    Several threads run the loops of [mark_complete] at once: the threads that
    start the graph and those that signal completions of posted nodes. A run is a
    sequence of steps, one delivered edge or one callback each, in any order. *)
From stdpp Require Import base numbers list gmap strings relations.
From Stdlib Require Import ZArith Lia.
From S2P Require Import Prelude Status Graph.

Section Runs.
Context {F EF FC U : Type}.
Variable run_fn : F -> Z -> U -> status_t * U.
Variable run_edge : EF -> status_t -> Z -> Z -> U -> U.
Variable run_free : FC -> Z -> U -> U.
Variable signal_impl : Z -> status_t -> U -> U.

#[local] Abbreviation edge := (graph_node_t * option EF)%type.
#[local] Abbreviation graph := (graph_t (F := F) (EF := EF) (FC := FC)).
#[local] Abbreviation node := (node_impl_t (F := F) (EF := EF) (FC := FC)).
#[local] Abbreviation state := (gstate (F := F) (EF := EF) (FC := FC) (U := U)).
#[local] Abbreviation G := (ST state).
#[local] Abbreviation run_node := (run_node run_fn).
#[local] Abbreviation deliver := (deliver run_edge).
#[local] Abbreviation end_complete := (end_complete run_free signal_impl).

Implicit Types g : graph.
Implicit Types s : state.

(** ** Steps *)

(** What a thread is about to do: call the function of a node, enter
    [mark_complete], or go on with its loop over the edges. *)
Inductive activity : Type :=
  | ARun (x : graph_node_t)
  | AMark (x : graph_node_t) (status : status_t)
  | AEdges (x : graph_node_t) (status : status_t) (src_value : Z) (rest : list edge)
           (graph_completed : bool).

Inductive event : Type := EvRun (x : graph_node_t) | EvMark (x : graph_node_t) | EvEnd.

(** One step of an activity: the activities it becomes, the nodes it leaves
    posted. *)
Definition act (a : activity) : G (list activity * list graph_node_t) :=
  match a with
  | ARun x =>
      status ← run_node x ;
      if is_done (st_error status) then mret ([AMark x status], [])
      else assert_st (negb (is_retry (st_error status))) "The node function should not return retry" ;;
           mret ([], [x])
  | AMark x status =>
      n ← begin_complete x ;
      mret ([AEdges x status (value n) (out_edges n) false], [])
  | AEdges x status v [] c => end_complete c ;; mret ([], [])
  | AEdges x status v (e :: rest) c =>
      o ← deliver status v e ;
      mret (match o with
            | Waits => [AEdges x status v rest c]
            | Triggers y => [ARun y; AEdges x status v rest c]
            | Completes => [AEdges x status v rest true]
            end, [])
  end.
Definition logs (a : activity) : list event :=
  match a with
  | ARun x => [EvRun x]
  | AMark x _ => [EvMark x]
  | AEdges _ _ _ [] true => [EvEnd]
  | AEdges _ _ _ _ _ => []
  end.

(** [c_log] is newest first. *)
Record gconfig : Type := mk_gconfig {
  c_acts : list activity;
  c_posted : list graph_node_t;
  c_state : state;
  c_log : list event
}.

Inductive step : gconfig -> gconfig -> Prop :=
  | step_act l1 a l2 posted s log new p s' :
      act a s = Ok ((new, p), s') ->
      step (mk_gconfig (l1 ++ a :: l2) posted s log)
           (mk_gconfig (l1 ++ new ++ l2) (p ++ posted) s' (logs a ++ log))
  | step_signal acts p1 x p2 s log status :
      step (mk_gconfig acts (p1 ++ x :: p2) s log)
           (mk_gconfig (AMark x status :: acts) (p1 ++ p2) s log).

Definition starts (g : graph) (u : U) : gconfig :=
  mk_gconfig [AMark GRAPH_START (set_done status_init)] []
    (mk_gstate (Some (set_end_received 0 g)) u) [].

(** ** Well-formed graphs *)

Definition outs (g : graph) (x : graph_node_t) : list (graph_node_t * graph_node_t) :=
  match the_node g x with
  | Some n => (fun e => (x, e.1)) <$> out_edges n
  | None => []
  end.
Definition all_nodes (g : graph) : list graph_node_t := Node <$> seq 0 (length (nodes g)).
Definition all_edges (g : graph) : list (graph_node_t * graph_node_t) :=
  (GRAPH_START :: all_nodes g) ≫= outs g.

Lemma outs_source g z x y : (x, y) ∈ outs g z -> z = x.
Proof.
  unfold outs. destruct (the_node g z); [|by intros ?%elem_of_nil].
  by intros (? & [= <- _] & _)%list_elem_of_fmap.
Qed.

(** Edges into [y]. *)
Definition into (y : graph_node_t) (es : list (graph_node_t * graph_node_t)) : nat :=
  length (filter (fun e => e.2 = y) es).

Record well_formed (g : graph) : Prop := mk_well_formed {
  gw_targets : forall x y, (x, y) ∈ all_edges g -> y = GRAPH_END \/ y ∈ all_nodes g;
  gw_expected : forall y n, y ∈ all_nodes g -> the_node g y = Some n ->
    signals_expected n = Z.of_nat (into y (all_edges g)) /\ 0 < signals_expected n
    /\ signals_received n = 0 /\ out_edges n <> [];
  gw_end : m_end_signals_expected g = Z.of_nat (into GRAPH_END (all_edges g))
    /\ 0 < m_end_signals_expected g;
  gw_start : out_edges (m_start_node g) <> [];
  gw_acyclic : exists rank : graph_node_t -> nat, forall x y, (x, y) ∈ all_edges g ->
    (rank x < rank y)%nat
}.

(** ** Counting *)

Lemma into_app y l1 l2 : into y (l1 ++ l2) = (into y l1 + into y l2)%nat.
Proof. unfold into. by rewrite filter_app, length_app. Qed.
Lemma into_perm y l1 l2 : l1 ≡ₚ l2 -> into y l1 = into y l2.
Proof. unfold into. by intros ->. Qed.
Lemma into_cons y x z l : into y ((x, z) :: l) = ((if decide (z = y) then 1 else 0) + into y l)%nat.
Proof. unfold into. rewrite filter_cons. simpl. by destruct (decide (z = y)). Qed.
Lemma into_pos y l : (0 < into y l)%nat <-> exists x, (x, y) ∈ l.
Proof.
  unfold into. split.
  - destruct (filter _ l) as [|[x z] l'] eqn:E; simpl; [lia|]. intros _. exists x.
    assert ((x, z) ∈ filter (fun e => e.2 = y) l) as H by (rewrite E; by left).
    apply list_elem_of_filter in H as [Hz H]. simpl in Hz. by subst.
  - intros [x H]. assert ((x, y) ∈ filter (fun e => e.2 = y) l) as H'
      by (by apply list_elem_of_filter).
    destruct (filter _ l); [by apply elem_of_nil in H'|simpl; lia].
Qed.

(** ** What the steps do *)

Lemma the_node_put g x y n0 n :
  the_node g x = Some n0 ->
  the_node (put_node x n g) y = if decide (y = x) then Some n else the_node g y.
Proof.
  destruct x as [| |i]; simpl; [|done|]; intros Hx.
  - destruct y; simpl; by repeat case_decide.
  - destruct y as [| |j]; [by rewrite decide_False|by rewrite decide_False|cbn [the_node put_node nodes]].
    destruct (decide (Node j = Node i)) as [[= ->] | Hne].
    + apply list_lookup_insert_eq. by eapply lookup_lt_Some.
    + apply list_lookup_insert_ne. congruence.
Qed.

Lemma the_node_all g x : x ∈ GRAPH_START :: all_nodes g <-> is_Some (the_node g x).
Proof.
  unfold all_nodes. rewrite elem_of_cons, list_elem_of_fmap. destruct x as [| |i]; simpl.
  - naive_solver.
  - split; [intros [?|(?&?&?)]; done|by intros [? ?]].
  - rewrite lookup_lt_is_Some. split.
    + intros [?|(j & [= <-] & Hj)]; [done|]. by apply elem_of_seq in Hj as [_ ?].
    + intros Hi. right. exists i. split; [done|]. apply elem_of_seq. lia.
Qed.
Lemma start_not_node g : GRAPH_START ∉ all_nodes g.
Proof. unfold all_nodes. rewrite list_elem_of_fmap. by intros (? & ? & _). Qed.
Lemma end_not_node g : GRAPH_END ∉ all_nodes g.
Proof. unfold all_nodes. rewrite list_elem_of_fmap. by intros (? & ? & _). Qed.
Lemma all_nodes_nodup g : NoDup (GRAPH_START :: all_nodes g).
Proof.
  constructor; [apply start_not_node|]. apply NoDup_fmap_2; [by intros ?? [= ->]|]. apply NoDup_seq.
Qed.

Lemma deliver_node st v i f s g n :
  gs_graph s = Some g -> the_node g (Node i) = Some n ->
  signals_received n < signals_expected n ->
  exists u, deliver st v (Node i, f) s
    = Ok (if signals_received n + 1 =? signals_expected n then Triggers (Node i) else Waits,
          mk_gstate (Some (put_node (Node i) (set_received (signals_received n + 1) n) g)) u).
Proof.
  intros Hg Hn Hlt. destruct s as [go u]. simpl in Hg. subst go.
  assert (Hget : forall u' : U, get_node (Node i) (mk_gstate (Some g) u') = Ok (n, mk_gstate (Some g) u')).
  { intros u'. unfold get_node. erewrite st_bind_eq; [|reflexivity]. by rewrite Hn. }
  assert (exists u', (match f with
    | Some ef => with_user (fun u0 => (tt, run_edge ef st v (value n) u0))
    | None => mret tt end) (mk_gstate (Some g) u) = Ok (tt, mk_gstate (Some g) u')) as [u' Hu].
  { destruct f; eexists; reflexivity. }
  exists u'. unfold Graph.deliver. erewrite st_bind_eq; [|reflexivity].
  erewrite st_bind_eq; [|rewrite (st_bind_eq _ _ _ _ _ (Hget u)); reflexivity].
  rewrite (st_bind_eq _ _ _ _ _ Hu). erewrite st_bind_eq; [|reflexivity].
  rewrite (st_bind_eq _ _ _ _ _ (Hget u')). erewrite st_bind_eq; [|reflexivity].
  destruct (signals_received n + 1 =? signals_expected n) eqn:E; [done|].
  unfold assert_st. by rewrite LCI_Assert_true by lia.
Qed.

Lemma deliver_end st v f s g :
  gs_graph s = Some g -> m_end_signals_received g < m_end_signals_expected g ->
  exists u, deliver st v (GRAPH_END, f) s
    = Ok (if m_end_signals_received g + 1 =? m_end_signals_expected g then Completes else Waits,
          mk_gstate (Some (set_end_received (m_end_signals_received g + 1) g)) u).
Proof.
  intros Hg Hlt. destruct s as [go u]. simpl in Hg. subst go.
  assert (exists u', (match f with
    | Some ef => with_user (fun u0 => (tt, run_edge ef st v (m_end_value g) u0))
    | None => mret tt end) (mk_gstate (Some g) u) = Ok (tt, mk_gstate (Some g) u')) as [u' Hu].
  { destruct f; eexists; reflexivity. }
  exists u'. unfold Graph.deliver. erewrite st_bind_eq; [|reflexivity].
  erewrite st_bind_eq; [|reflexivity]. rewrite (st_bind_eq _ _ _ _ _ Hu).
  do 2 (erewrite st_bind_eq; [|reflexivity]).
  destruct (m_end_signals_received g + 1 =? m_end_signals_expected g) eqn:E; [done|].
  unfold assert_st. by rewrite LCI_Assert_true by lia.
Qed.

Lemma begin_complete_eq x s g n :
  gs_graph s = Some g -> the_node g x = Some n ->
  begin_complete x s = Ok (n, mk_gstate (Some (put_node x (set_received 0 n) g)) (gs_user s)).
Proof.
  intros Hg Hn. unfold begin_complete, get_node, the_graph, mbind, st_bind. rewrite Hg.
  rewrite Hn. cbn. by rewrite Hg.
Qed.

Lemma run_node_eq x s g n :
  gs_graph s = Some g -> the_node g x = Some n ->
  exists status u, run_node x s = Ok (status, mk_gstate (Some g) u)
    /\ (match fn n with Some f => status = (run_fn f (value n) (gs_user s)).1
        | None => status = set_done status_init end).
Proof.
  intros Hg Hn. unfold Graph.run_node, get_node, the_graph, mbind, st_bind. rewrite Hg, Hn. cbn.
  destruct s as [go u]. simpl in Hg. subst go. cbn. destruct (fn n) as [f|].
  - unfold with_user. cbn. destruct (run_fn f (value n) u) as [a u'] eqn:E. by eexists _, _.
  - by eexists _, _.
Qed.

Lemma free_nodes_eq l : forall s : state, exists u,
  free_nodes run_free l s = Ok (tt, mk_gstate (gs_graph s) u).
Proof.
  induction l as [|n l IH]; intros s; [exists (gs_user s); by destruct s|].
  cbn [free_nodes]. assert (exists u, free_node run_free n s = Ok (tt, mk_gstate (gs_graph s) u)) as [u Hu].
  { unfold free_node. destruct (free_cb n); [by eexists|]. exists (gs_user s). by destruct s. }
  rewrite (st_bind_eq _ _ _ _ _ Hu). exact (IH (mk_gstate (gs_graph s) u)).
Qed.

Lemma end_complete_eq s g :
  gs_graph s = Some g ->
  exists u, end_complete true s
    = Ok (tt, mk_gstate (if comp_is_empty (m_comp g) then Some g else None) u).
Proof.
  intros Hg. unfold Graph.end_complete. erewrite st_bind_eq; [|unfold the_graph; rewrite Hg; reflexivity].
  destruct (comp_is_empty (m_comp g)).
  - exists (gs_user s). destruct s. simpl in *. by subst.
  - unfold graph_delete. destruct (free_nodes_eq (nodes g) s) as [u Hu].
    erewrite (st_bind_eq (the_graph ≫= _)).
    2:{ erewrite st_bind_eq; [|unfold the_graph; rewrite Hg; reflexivity].
        rewrite (st_bind_eq _ _ _ _ _ Hu). reflexivity. }
    by eexists.
Qed.

(** ** The invariant of runs *)

Section Invariant.
Variable g0 : graph.
Hypothesis wf : well_formed g0.
(** Node functions are posted with [allow_retry(false)]. *)
Hypothesis no_retry : forall f v u, is_retry (st_error (run_fn f v u).1) = false.

Definition owner (a : activity) : graph_node_t :=
  match a with ARun x | AMark x _ | AEdges x _ _ _ _ => x end.
(** The edges that an activity has still to deliver. *)
Definition pend (a : activity) : list (graph_node_t * graph_node_t) :=
  match a with
  | ARun x | AMark x _ => outs g0 x
  | AEdges x _ _ rest _ => (fun e => (x, e.1)) <$> rest
  end.
Definition undelivered (acts : list activity) (idle : list graph_node_t) :
    list (graph_node_t * graph_node_t) := (acts ≫= pend) ++ (idle ≫= outs g0).

Definition running (acts : list activity) : list graph_node_t :=
  omap (fun a => match a with ARun x => Some x | _ => None end) acts.
Definition flagged (a : activity) : Prop := exists x st v rest, a = AEdges x st v rest true.
#[local] Instance flagged_dec a : Decision (flagged a).
Proof.
  destruct a as [?|? ?|x st v rest []]; [right|right|left|right]; try (by intros (?&?&?&?&?)).
  by exists x, st, v, rest.
Defined.
Definition ran (log : list event) : list graph_node_t :=
  omap (fun e => match e with EvRun x => Some x | _ => None end) log.
Definition is_end (e : event) : Prop := match e with EvEnd => True | _ => False end.
#[local] Instance is_end_dec e : Decision (is_end e).
Proof. destruct e; apply _. Defined.
Definition ends (log : list event) : nat := length (filter is_end log).

(** Only the counters of received signals change. *)
Record same_shape (g : graph) : Prop := mk_same_shape {
  ss_comp : m_comp g = m_comp g0;
  ss_expected : m_end_signals_expected g = m_end_signals_expected g0;
  ss_nodes : forall x n, the_node g0 x = Some n ->
    exists k, the_node g x = Some (set_received k n)
}.

(** A node runs after the nodes that its incoming edges come from. *)
Definition ordered (log : list event) : Prop :=
  forall l1 y l2 x, log = l1 ++ EvRun y :: l2 -> (x, y) ∈ all_edges g0 -> EvMark x ∈ l2.

(** [mark_complete] was entered for [y]. *)
Definition over (acts : list activity) (dn : list graph_node_t) (y : graph_node_t) : Prop :=
  y ∈ dn \/ exists st v r c, AEdges y st v r c ∈ acts.

(** [waiting] are the nodes not yet triggered and [dn] those that are over. *)
Record live (g : graph) (acts : list activity) (posted : list graph_node_t) (log : list event)
    (waiting dn : list graph_node_t) : Prop := mk_live {
  lv_shape : same_shape g;
  lv_part : (owner <$> acts) ++ posted ++ waiting ++ dn ≡ₚ GRAPH_START :: all_nodes g0;
  lv_wait : forall y, y ∈ waiting -> exists n, the_node g y = Some n
    /\ signals_received n + Z.of_nat (into y (undelivered acts (posted ++ waiting)))
       = signals_expected n
    /\ (0 < into y (undelivered acts (posted ++ waiting)))%nat;
  lv_rest : forall y, y ∈ all_nodes g0 -> y ∉ waiting ->
    into y (undelivered acts (posted ++ waiting)) = 0%nat;
  lv_reset : forall y n, over acts dn y ->
    the_node g y = Some n -> signals_received n = 0;
  lv_end : m_end_signals_received g
    + Z.of_nat (into GRAPH_END (undelivered acts (posted ++ waiting))) = m_end_signals_expected g;
  lv_flag : (length (filter flagged acts) + ends log)%nat
    = (if decide (into GRAPH_END (undelivered acts (posted ++ waiting)) = 0%nat) then 1%nat else 0%nat);
  lv_sub : forall e, e ∈ undelivered acts (posted ++ waiting) -> e ∈ all_edges g0;
  lv_log : forall y, over acts dn y <-> EvMark y ∈ log;
  lv_order : ordered log;
  lv_runs : ran log ++ running acts ++ waiting ≡ₚ all_nodes g0;
  lv_posted : forall x, x ∈ posted -> x ∈ all_nodes g0;
  lv_deleted : ends log <> 0%nat -> comp_is_empty (m_comp g0) = true
}.

(** After the deletion only loops without edges are left. *)
Record deleted (acts : list activity) (posted : list graph_node_t) (log : list event) : Prop :=
  mk_gone {
    dl_acts : Forall (fun a => exists x st v, a = AEdges x st v [] false) acts;
    dl_posted : posted = [];
    dl_ends : ends log = 1%nat;
    dl_order : ordered log;
    dl_runs : ran log ≡ₚ all_nodes g0;
    dl_marks : forall x, x ∈ GRAPH_START :: all_nodes g0 -> EvMark x ∈ log;
    dl_comp : comp_is_empty (m_comp g0) = false
  }.

(** A bound on the steps to come. *)
Definition cost (a : activity) : nat :=
  match a with
  | ARun x => length (outs g0 x) + 4
  | AMark x _ => length (outs g0 x) + 2
  | AEdges _ _ _ rest _ => length rest + 1
  end.
Definition weight (acts : list activity) (posted waiting : list graph_node_t) : nat :=
  sum_list_with cost acts + sum_list_with (fun x => length (outs g0 x) + 3)%nat posted
  + sum_list_with (fun x => length (outs g0 x) + 5)%nat waiting.

Definition ginv (m : nat) (c : gconfig) : Prop :=
  match gs_graph (c_state c) with
  | Some g => exists waiting dn, live g (c_acts c) (c_posted c) (c_log c) waiting dn
      /\ m = weight (c_acts c) (c_posted c) waiting
  | None => deleted (c_acts c) (c_posted c) (c_log c) /\ m = weight (c_acts c) [] []
  end.

(** Order of activities and of posted nodes does not matter. *)
Lemma undelivered_perm acts acts' idle idle' :
  acts ≡ₚ acts' -> idle ≡ₚ idle' -> undelivered acts idle ≡ₚ undelivered acts' idle'.
Proof. intros H1 H2. unfold undelivered. by rewrite H1, H2. Qed.

Lemma live_perm g acts acts' posted posted' log waiting dn :
  acts ≡ₚ acts' -> posted ≡ₚ posted' ->
  live g acts posted log waiting dn -> live g acts' posted' log waiting dn.
Proof.
  intros Ha Hp [L1 L2 L3 L4 L5 L6 L7 L8 L9 L10 L11 L12 L13].
  pose proof (undelivered_perm acts acts' (posted ++ waiting) (posted' ++ waiting) Ha ltac:(by rewrite Hp)) as HW.
  split; try done.
  - by rewrite <- Ha, <- Hp.
  - intros y Hy. rewrite <- (into_perm _ _ _ HW). by apply L3.
  - intros y Hy Hn. rewrite <- (into_perm _ _ _ HW). by apply L4.
  - intros y n. unfold over. setoid_rewrite <- Ha. apply L5.
  - by rewrite <- (into_perm _ _ _ HW).
  - rewrite <- (into_perm _ _ _ HW). by rewrite <- Ha.
  - intros e. rewrite <- HW. apply L8.
  - intros y. unfold over. setoid_rewrite <- Ha. apply L9.
  - rewrite <- L11. unfold running. by rewrite Ha.
  - intros x. rewrite <- Hp. apply L12.
Qed.

Lemma set_received_id (n : node) : set_received (signals_received n) n = n.
Proof. by destruct n. Qed.

Lemma all_edges_app : all_edges g0 = outs g0 GRAPH_START ++ (all_nodes g0 ≫= outs g0).
Proof. reflexivity. Qed.

Definition step_bound : nat := weight [AMark GRAPH_START (set_done status_init)] [] (all_nodes g0).

Lemma live_starts u : ginv step_bound (starts g0 u).
Proof.
  exists (all_nodes g0), []. split; [|done]. destruct wf as [W1 W2 [W3 W3'] _ _].
  assert (HU : undelivered [AMark GRAPH_START (set_done status_init)] ([] ++ all_nodes g0) = all_edges g0).
  { unfold undelivered. simpl. by rewrite app_nil_r. }
  split; cbn [c_acts c_posted c_log starts]; rewrite ?HU; try done.
  - split; try done. intros x n Hx. exists (signals_received n). rewrite set_received_id. by destruct x.
  - simpl. by rewrite app_nil_r.
  - intros y Hy. destruct (proj1 (the_node_all g0 y)) as [n Hn]; [by right|].
    destruct (W2 y n Hy Hn) as (E1 & E2 & E3 & _). exists n. split; [by destruct y|]. lia.
  - intros y n [Hy|(st & v & r & c & Hy)]; [by apply elem_of_nil in Hy|].
    by apply list_elem_of_singleton in Hy.
  - simpl. rewrite decide_False; [done|lia].
  - intros y. split; [|by intros ?%elem_of_nil].
    intros [Hy|(st & v & r & c & Hy)]; [by apply elem_of_nil in Hy|].
    by apply list_elem_of_singleton in Hy.
  - intros l1 y l2 x Hl. by destruct l1.
  - by intros x ?%elem_of_nil.
Qed.

Lemma list_maximum {A} (f : A -> nat) (l : list A) :
  l <> [] -> exists y, y ∈ l /\ forall z, z ∈ l -> (f z <= f y)%nat.
Proof.
  induction l as [|w l IH]; [done|]. intros _. destruct (decide (l = [])) as [->|Hne].
  - exists w. split; [by left|]. intros z Hz%list_elem_of_singleton. by subst.
  - destruct (IH Hne) as (y & Hy & Hm). destruct (decide (f w <= f y)%nat).
    + exists y. split; [by right|]. intros z [->|Hz]%elem_of_cons; [done|by apply Hm].
    + exists w. split; [by left|]. intros z [->|Hz]%elem_of_cons; [done|]. apply Hm in Hz. lia.
Qed.

(** ** Facts of a live state *)

Section Live.
Context {g : graph} {acts : list activity} {posted : list graph_node_t} {log : list event}
        {waiting dn : list graph_node_t}.
Hypothesis L : live g acts posted log waiting dn.
#[local] Abbreviation W := (undelivered acts (posted ++ waiting)).

Lemma live_nodup : NoDup ((owner <$> acts) ++ posted ++ waiting ++ dn).
Proof. rewrite (lv_part _ _ _ _ _ _ L). apply all_nodes_nodup. Qed.

Lemma live_node x : x ∈ (owner <$> acts) ++ posted ++ waiting ++ dn ->
  exists n k, the_node g0 x = Some n /\ the_node g x = Some (set_received k n).
Proof.
  rewrite (lv_part _ _ _ _ _ _ L). intros [n Hn]%the_node_all.
  destruct (ss_nodes _ (lv_shape _ _ _ _ _ _ L) x n Hn) as [k Hk]. by exists n, k.
Qed.

Lemma live_owner a : a ∈ acts -> owner a ∈ (owner <$> acts) ++ posted ++ waiting ++ dn.
Proof. intros Ha. apply elem_of_app. left. by apply list_elem_of_fmap_2. Qed.

Lemma owner_not_waiting a : a ∈ acts -> owner a ∉ waiting.
Proof.
  intros Ha Hw. pose proof live_nodup as (_ & Hd & _)%NoDup_app.
  apply (Hd (owner a)); [by apply list_elem_of_fmap_2|]. set_solver.
Qed.

(** The source of a delivered edge is marked. *)
Lemma source_marked x y :
  (x, y) ∈ all_edges g0 -> into y W = 0%nat -> EvMark x ∈ log.
Proof.
  intros Hxy Hz. apply list_elem_of_bind in Hxy as (x' & Hin & Hx).
  pose proof (outs_source _ _ _ _ Hin) as ->.
  assert (Hno : (x, y) ∉ W) by (intros H; pose proof (proj2 (into_pos y W) (ex_intro _ x H)); lia).
  rewrite <- (lv_part _ _ _ _ _ _ L) in Hx. apply (lv_log _ _ _ _ _ _ L).
  rewrite !elem_of_app, list_elem_of_fmap in Hx. unfold undelivered in Hno.
  rewrite elem_of_app, !list_elem_of_bind in Hno.
  destruct Hx as [(a & -> & Ha)|[Hx|[Hx|Hx]]]; [|exfalso; apply Hno; right; exists x; set_solver..|by left].
  right. destruct a as [z|z st|z st v r c].
  - exfalso. apply Hno. left. by exists (ARun z).
  - exfalso. apply Hno. left. by exists (AMark z st).
  - by exists st, v, r, c.
Qed.

(** A node that was not triggered or is posted has all its edges before it. *)
Lemma idle_edges y : y ∈ all_nodes g0 -> y ∈ posted ++ waiting -> exists z, (y, z) ∈ W.
Proof.
  intros Hyn Hy. destruct (proj1 (the_node_all g0 y)) as [n Hn]; [by right|].
  destruct (gw_expected _ wf y n Hyn Hn) as (_ & _ & _ & Hout).
  destruct (out_edges n) as [|[z f] es] eqn:Ee; [done|]. exists z.
  unfold undelivered. rewrite elem_of_app, !list_elem_of_bind. right. exists y.
  split; [|done]. unfold outs. rewrite Hn, Ee. by left.
Qed.

(** When nothing leads to the end any more, nothing is left at all. *)
Lemma all_delivered : into GRAPH_END W = 0%nat -> W = [] /\ posted = [] /\ waiting = [].
Proof.
  intros Hz. destruct wf as [W1 W2 _ _ [rank W4]].
  assert (Hw : waiting = []).
  { destruct (decide (waiting = [])) as [|Hne]; [done|exfalso].
    destruct (list_maximum rank waiting Hne) as (y & Hy & Hm).
    assert (Hyn : y ∈ all_nodes g0) by (rewrite <- (lv_runs _ _ _ _ _ _ L); set_solver).
    destruct (idle_edges y Hyn ltac:(set_solver)) as [z Hin].
    pose proof (lv_sub _ _ _ _ _ _ L _ Hin) as Hall. pose proof (W4 _ _ Hall) as Hr.
    assert (Hpos : (0 < into z W)%nat) by (apply into_pos; eauto).
    destruct (W1 _ _ Hall) as [->|Hzn]; [lia|].
    destruct (decide (z ∈ waiting)) as [Hzw|Hzw]; [apply Hm in Hzw; lia|].
    pose proof (lv_rest _ _ _ _ _ _ L z Hzn Hzw). lia. }
  assert (HW : forall e, e ∉ W).
  { intros [x y] Hin. assert (Hpos : (0 < into y W)%nat) by (apply into_pos; eauto).
    destruct (W1 _ _ (lv_sub _ _ _ _ _ _ L _ Hin)) as [->|Hyn]; [lia|].
    pose proof (lv_rest _ _ _ _ _ _ L y Hyn ltac:(rewrite Hw; by intros ?%elem_of_nil)). lia. }
  split_and!; [by apply elem_of_nil_inv| |done]. apply elem_of_nil_inv. intros y Hy.
  destruct (idle_edges y (lv_posted _ _ _ _ _ _ L y Hy) ltac:(set_solver)) as [z Hin]. by apply (HW (y, z)).
Qed.
End Live.

(** ** The steps keep the invariant *)


Lemma over_cons a acts dn y :
  over (a :: acts) dn y <-> over acts dn y \/ exists st v r c, a = AEdges y st v r c.
Proof.
  unfold over. setoid_rewrite elem_of_cons. naive_solver.
Qed.
Lemma mark_cons e log y : EvMark y ∈ e :: log <-> e = EvMark y \/ EvMark y ∈ log.
Proof. rewrite elem_of_cons. naive_solver. Qed.

(** Steps that leave the graph and the edges alone. *)
Lemma live_same g acts acts' posted posted' log log' waiting dn dn' :
  live g acts posted log waiting dn ->
  (owner <$> acts') ++ posted' ++ waiting ++ dn' ≡ₚ (owner <$> acts) ++ posted ++ waiting ++ dn ->
  undelivered acts' (posted' ++ waiting) ≡ₚ undelivered acts (posted ++ waiting) ->
  (forall y, over acts' dn' y <-> over acts dn y) ->
  (length (filter flagged acts') + ends log' = length (filter flagged acts) + ends log)%nat ->
  (forall y, EvMark y ∈ log' <-> EvMark y ∈ log) -> ordered log' ->
  ran log' ++ running acts' ++ waiting ≡ₚ ran log ++ running acts ++ waiting ->
  (forall x, x ∈ posted' -> x ∈ all_nodes g0) ->
  (ends log' <> 0%nat -> comp_is_empty (m_comp g0) = true) ->
  live g acts' posted' log' waiting dn'.
Proof.
  intros [L1 L2 L3 L4 L5 L6 L7 L8 L9 L10 L11 L12 L13] HP HW Ho Hf Hl Hord Hr Hp He.
  split; try done.
  - by rewrite HP.
  - intros y Hy. rewrite (into_perm _ _ _ HW). by apply L3.
  - intros y Hy Hn. rewrite (into_perm _ _ _ HW). by apply L4.
  - intros y n Hy. apply L5. by apply Ho.
  - by rewrite (into_perm _ _ _ HW).
  - by rewrite (into_perm _ _ _ HW), Hf.
  - intros e. rewrite HW. apply L8.
  - intros y. rewrite Hl, <- L9. apply Ho.
  - by rewrite Hr.
Qed.

Lemma ordered_cons_run x log :
  ordered log -> (forall y, (y, x) ∈ all_edges g0 -> EvMark y ∈ log) -> ordered (EvRun x :: log).
Proof.
  intros Ho Hx l1 y l2 z Hl Hzy. destruct l1 as [|e l1]; injection Hl as E1 E2.
  - subst. by apply Hx.
  - by eapply Ho.
Qed.
Lemma ordered_cons e log : (forall x, e <> EvRun x) -> ordered log -> ordered (e :: log).
Proof.
  intros He Ho l1 y l2 z Hl Hzy. destruct l1 as [|e' l1]; injection Hl as E1 E2; [by destruct (He y)|].
  by eapply Ho.
Qed.

Lemma running_node g acts posted log waiting dn x :
  live g (ARun x :: acts) posted log waiting dn -> x ∈ all_nodes g0.
Proof. intros L. rewrite <- (lv_runs _ _ _ _ _ _ L). simpl. set_solver. Qed.

Lemma step_run g acts posted log waiting dn x s :
  live g (ARun x :: acts) posted log waiting dn -> gs_graph s = Some g ->
  exists new p s', act (ARun x) s = Ok ((new, p), s') /\ gs_graph s' = Some g
    /\ live g (new ++ acts) (p ++ posted) (EvRun x :: log) waiting dn
    /\ (((exists st, new = [AMark x st]) /\ p = []) \/ (new = [] /\ p = [x])).
Proof.
  intros L Hg. pose proof (running_node _ _ _ _ _ _ _ L) as Hx.
  assert (Hin : ARun x ∈ ARun x :: acts) by by left.
  destruct (live_node L x) as (n & k & Hn0 & Hn); [exact (live_owner (ARun x) Hin)|].
  destruct (run_node_eq x s g _ Hg Hn) as (st & u & Hrun & Hst).
  assert (Hord : ordered (EvRun x :: log)).
  { apply ordered_cons_run; [apply L|]. intros y Hy. eapply (source_marked L); [exact Hy|].
    apply (lv_rest _ _ _ _ _ _ L); [done|]. by apply (owner_not_waiting L (ARun x)). }
  assert (Hnr : is_retry (st_error st) = false).
  { cbn [set_received fn] in Hst. destruct (fn n); subst st; [apply no_retry|done]. }
  cbn [act]. destruct (is_done (st_error st)) eqn:Ed.
  - exists [AMark x st], [], (mk_gstate (Some g) u). split_and!; [|done| |left; eauto].
    { rewrite (st_bind_eq _ _ _ _ _ Hrun). by rewrite Ed. }
    eapply live_same; [exact L|done|done| |done| |done| |apply L|apply L].
    + intros y. cbn [app]. rewrite !over_cons. naive_solver.
    + intros y. rewrite mark_cons. naive_solver.
    + simpl. by rewrite Permutation_middle.
  - exists [], [x], (mk_gstate (Some g) u). split_and!; [|done| |by right].
    { rewrite (st_bind_eq _ _ _ _ _ Hrun). rewrite Ed. unfold assert_st. by rewrite Hnr. }
    eapply live_same; [exact L| | | |done| |done| | |apply L].
    + simpl. solve_Permutation.
    + unfold undelivered. simpl. solve_Permutation.
    + intros y. cbn [app]. rewrite over_cons. naive_solver.
    + intros y. rewrite mark_cons. naive_solver.
    + simpl. by rewrite Permutation_middle.
    + intros y [->|Hy]%elem_of_cons; [done|by apply L].
Qed.

Lemma put_node_fields x n g :
  m_comp (put_node x n g) = m_comp g
  /\ m_end_signals_expected (put_node x n g) = m_end_signals_expected g
  /\ m_end_signals_received (put_node x n g) = m_end_signals_received g.
Proof. by destruct x. Qed.

Lemma put_node_shape g x n k :
  same_shape g -> the_node g0 x = Some n -> same_shape (put_node x (set_received k n) g).
Proof.
  intros [S1 S2 S3] Hn. destruct (S3 x n Hn) as [k0 Hk0].
  destruct (put_node_fields x (set_received k n) g) as (E1 & E2 & _). split; [congruence..|].
  intros y ny Hy. rewrite (the_node_put g x y _ _ Hk0).
  destruct (decide (y = x)) as [->|]; [|by apply S3]. exists k. congruence.
Qed.

Lemma step_mark g acts posted log waiting dn x st s :
  live g (AMark x st :: acts) posted log waiting dn -> gs_graph s = Some g ->
  exists v r g' u, act (AMark x st) s = Ok (([AEdges x st v r false], []), mk_gstate (Some g') u)
    /\ live g' (AEdges x st v r false :: acts) posted (EvMark x :: log) waiting dn
    /\ length r = length (outs g0 x).
Proof.
  intros L Hg. assert (Hin : AMark x st ∈ AMark x st :: acts) by by left.
  destruct (live_node L x) as (n & k & Hn0 & Hn); [exact (live_owner _ Hin)|].
  set (g' := put_node x (set_received 0 n) g).
  destruct (put_node_fields x (set_received 0 n) g) as (_ & E2 & E3).
  assert (Hput : forall y, the_node g' y = if decide (y = x) then Some (set_received 0 n) else the_node g y)
    by (intros y; by eapply the_node_put).
  exists (value n), (out_edges n), g', (gs_user s). split_and!; cycle 1; [|unfold outs; by rewrite Hn0, length_fmap|].
  all: cycle 1.
  { cbn [act]. erewrite st_bind_eq; [|by eapply begin_complete_eq]. done. }
  assert (HW : undelivered (AEdges x st (value n) (out_edges n) false :: acts) (posted ++ waiting)
    = undelivered (AMark x st :: acts) (posted ++ waiting)).
  { unfold undelivered. simpl. unfold outs at 2. by rewrite Hn0. }
  assert (Hnw : x ∉ waiting) by exact (owner_not_waiting L _ Hin).
  destruct L as [L1 L2 L3 L4 L5 L6 L7 L8 L9 L10 L11 L12 L13].
  assert (Hover : forall y, over (AEdges x st (value n) (out_edges n) false :: acts) dn y <->
    y = x \/ over (AMark x st :: acts) dn y).
  { intros y. rewrite !over_cons. naive_solver. }
  split; rewrite ?HW; try done.
  - by apply put_node_shape.
  - intros y Hy. rewrite Hput, decide_False by (intros ->; done). by apply L3.
  - intros y m Hy. rewrite Hput. destruct (decide (y = x)); [by intros [= <-]|].
    destruct (proj1 (Hover y) Hy) as [->|Hy']; [done|]. by apply L5.
  - unfold g'. by rewrite E2, E3.
  - intros y. rewrite mark_cons, <- L9. rewrite Hover. naive_solver.
  - by apply ordered_cons.
Qed.

Lemma outs_nonempty x : x ∈ GRAPH_START :: all_nodes g0 -> outs g0 x <> [].
Proof.
  intros Hx. destruct (proj1 (the_node_all g0 x) Hx) as [n Hn]. unfold outs. rewrite Hn.
  assert (out_edges n <> []).
  { apply elem_of_cons in Hx as [->|Hx]; [injection Hn as <-; apply wf|]. by apply (gw_expected _ wf x n). }
  by destruct (out_edges n).
Qed.

(** An activity without edges to deliver is at the end of its loop. *)
Lemma pend_nil g acts posted log waiting dn a :
  live g acts posted log waiting dn -> a ∈ acts -> pend a = [] -> ~ flagged a ->
  exists x st v, a = AEdges x st v [] false.
Proof.
  intros L Ha Hp Hf. assert (Hx : owner a ∈ GRAPH_START :: all_nodes g0)
    by (rewrite <- (lv_part _ _ _ _ _ _ L); exact (live_owner _ Ha)).
  destruct a as [y|y st|y st v r c]; simpl in *; [by apply outs_nonempty in Hp..|].
  destruct r; [|done]. destruct c; [|by exists y, st, v]. destruct Hf. by exists y, st, v, [].
Qed.

(** A loop over the edges is over. *)
Lemma over_drop x st v c acts dn y :
  over acts (x :: dn) y <-> over (AEdges x st v [] c :: acts) dn y.
Proof. rewrite over_cons. unfold over. rewrite elem_of_cons. naive_solver. Qed.

Lemma step_finish g acts posted log waiting dn x st v s :
  live g (AEdges x st v [] false :: acts) posted log waiting dn -> gs_graph s = Some g ->
  act (AEdges x st v [] false) s = Ok (([], []), s)
  /\ live g acts posted log waiting (x :: dn).
Proof.
  intros L Hg. split; [done|].
  eapply live_same; [exact L| |done| | |done|apply L|done|apply L|apply L].
  - simpl. solve_Permutation.
  - intros y. apply over_drop.
  - rewrite filter_cons_False; [done|]. by intros (?&?&?&?&?).
Qed.

(** The loop that saw the last signal to the end completes the graph. *)
Lemma step_complete g acts posted log waiting dn x st v s :
  live g (AEdges x st v [] true :: acts) posted log waiting dn -> gs_graph s = Some g ->
  exists s', act (AEdges x st v [] true) s = Ok (([], []), s')
    /\ match gs_graph s' with
       | Some g' => g' = g /\ live g acts posted (EvEnd :: log) waiting (x :: dn)
       | None => deleted acts posted (EvEnd :: log)
       end.
Proof.
  intros L Hg. destruct (end_complete_eq s g Hg) as [u Hu].
  rewrite (ss_comp _ (lv_shape _ _ _ _ _ _ L)) in Hu.
  eexists. split; [cbn [act]; erewrite st_bind_eq; [|exact Hu]; reflexivity|]. cbn [gs_graph].
  assert (Hf : (length (filter flagged (AEdges x st v [] true :: acts)) = S (length (filter flagged acts)))%nat).
  { rewrite filter_cons_True; [done|]. by exists x, st, v, []. }
  pose proof (lv_flag _ _ _ _ _ _ L) as Hflag. rewrite Hf in Hflag.
  destruct (decide _) as [Hz|]; [|lia].
  destruct (comp_is_empty (m_comp g0)) eqn:Ec.
  - split; [done|]. eapply live_same; [exact L| |done| | | |by apply ordered_cons; [|apply L]|done|apply L|done].
    + simpl. solve_Permutation.
    + intros y. apply over_drop.
    + rewrite Hf. unfold ends. rewrite filter_cons_True by done. simpl. lia.
    + intros y. rewrite mark_cons. naive_solver.
  - destruct (all_delivered L Hz) as (HW & Hp & Hw).
    assert (Hall : forall a, a ∈ acts -> exists y st v, a = AEdges y st v [] false).
    { intros a Ha. eapply pend_nil; [exact L|by right| |].
      * apply elem_of_nil_inv. intros e He. apply (not_elem_of_nil e). rewrite <- HW. unfold undelivered.
        apply elem_of_app. left. apply list_elem_of_bind. exists a. set_solver.
      * intros Hfl. assert (Hm : a ∈ filter flagged acts) by (by apply list_elem_of_filter).
        destruct (filter flagged acts); [by apply elem_of_nil in Hm|simpl in Hflag; lia]. }
    split; try done.
    + by apply Forall_forall.
    + unfold ends in *. rewrite filter_cons_True by done. simpl. lia.
    + by apply ordered_cons; [|apply L].
    + rewrite <- (lv_runs _ _ _ _ _ _ L), Hw. simpl.
      assert (running acts = []) as ->; [|by rewrite !app_nil_r].
      apply elem_of_nil_inv. intros y Hy. apply list_elem_of_omap in Hy as (a & Ha & Hy).
      destruct a as [z|?|?]; [|done..]. injection Hy as ->.
      apply (outs_nonempty y).
      { rewrite <- (lv_part _ _ _ _ _ _ L). apply elem_of_app. left.
        apply list_elem_of_fmap. exists (ARun y). split; [done|by right]. }
      apply elem_of_nil_inv. intros e He. apply (not_elem_of_nil e). rewrite <- HW. unfold undelivered.
      apply elem_of_app. left. apply list_elem_of_bind. exists (ARun y). split; [done|by right].
    + intros y Hy. apply mark_cons. right. apply (lv_log _ _ _ _ _ _ L). rewrite over_cons.
      rewrite <- (lv_part _ _ _ _ _ _ L), Hp, Hw in Hy. simpl in Hy.
      apply elem_of_cons in Hy as [->|[Hy|Hy]%elem_of_app]; [right; eauto| |left; by left].
      apply list_elem_of_fmap in Hy as (a & -> & Ha). destruct (Hall a Ha) as (z & ? & ? & ->).
      left. right. eauto.
Qed.

(** *** Delivering an edge *)

Section Edge.
Context {g : graph} {acts : list activity} {posted : list graph_node_t} {log : list event}
        {waiting dn : list graph_node_t} {x : graph_node_t} {st : status_t} {v : Z}
        {y : graph_node_t} {f : option EF} {rest : list edge} {c : bool}.
Hypothesis L : live g (AEdges x st v ((y, f) :: rest) c :: acts) posted log waiting dn.
#[local] Abbreviation next c := (AEdges x st v rest c :: acts).
#[local] Abbreviation W' := (undelivered (next c) (posted ++ waiting)).

Lemma edge_undelivered :
  undelivered (AEdges x st v ((y, f) :: rest) c :: acts) (posted ++ waiting) = (x, y) :: W'.
Proof. reflexivity. Qed.

Lemma edge_into z :
  into z (undelivered (AEdges x st v ((y, f) :: rest) c :: acts) (posted ++ waiting))
  = ((if decide (y = z) then 1 else 0) + into z W')%nat.
Proof. rewrite edge_undelivered. apply into_cons. Qed.

Lemma edge_target : y = GRAPH_END \/ y ∈ all_nodes g0.
Proof. apply (gw_targets _ wf x). apply (lv_sub _ _ _ _ _ _ L). rewrite edge_undelivered. by left. Qed.

Lemma edge_over z d : over (next d) dn z <-> over (AEdges x st v ((y, f) :: rest) c :: acts) dn z.
Proof. rewrite !over_cons. naive_solver. Qed.

(** A node that waits is not over. *)
Lemma waiting_not_over z : z ∈ waiting -> ~ over (AEdges x st v ((y, f) :: rest) c :: acts) dn z.
Proof.
  intros Hz Ho. pose proof (live_nodup L) as Hnd. rewrite !NoDup_app in Hnd.
  destruct Hnd as (_ & Hd1 & _ & _ & _ & Hd2 & _). destruct Ho as [Hz'|(a & b & r & e & Hin)].
  - by apply (Hd2 z).
  - apply (Hd1 z); [|set_solver]. by apply (list_elem_of_fmap_2 owner) in Hin.
Qed.

Lemma edge_flagged : length (filter flagged (next c))
  = length (filter flagged (AEdges x st v ((y, f) :: rest) c :: acts)).
Proof.
  rewrite !filter_cons. destruct c; repeat case_decide; try done.
  - destruct H0. by exists x, st, v, ((y, f) :: rest).
  - destruct H. by exists x, st, v, rest.
  - by destruct H as (?&?&?&?&?).
  - by destruct H0 as (?&?&?&?&?).
Qed.

(** The target waits for this edge. *)
Lemma edge_waiting : y ∈ all_nodes g0 -> exists n k, the_node g0 y = Some n
  /\ the_node g y = Some (set_received k n) /\ y ∈ waiting
  /\ k + 1 + Z.of_nat (into y W') = signals_expected n.
Proof.
  intros Hy. assert (Hpos : (0 < into y (undelivered (AEdges x st v ((y, f) :: rest) c :: acts)
    (posted ++ waiting)))%nat) by (rewrite edge_into, decide_True by done; lia).
  destruct (decide (y ∈ waiting)) as [Hw|Hw]; [|by rewrite (lv_rest _ _ _ _ _ _ L y Hy Hw) in Hpos; lia].
  destruct (lv_wait _ _ _ _ _ _ L y Hw) as (m & Hm & Hc & _).
  destruct (proj1 (the_node_all g0 y)) as [n Hn]; [by right|].
  destruct (ss_nodes _ (lv_shape _ _ _ _ _ _ L) y n Hn) as [k Hk].
  exists n, k. split_and!; try done. rewrite Hk in Hm. injection Hm as <-.
  cbn [set_received signals_received signals_expected] in Hc.
  rewrite edge_into, decide_True in Hc by done. lia.
Qed.

Lemma edge_node_waits n k :
  y ∈ all_nodes g0 -> the_node g0 y = Some n -> the_node g y = Some (set_received k n) ->
  y ∈ waiting -> k + 1 + Z.of_nat (into y W') = signals_expected n -> into y W' <> 0%nat ->
  live (put_node y (set_received (k + 1) n) g) (next c) posted log waiting dn.
Proof.
  intros Hy Hn0 Hn Hw Hcount Hpos. pose proof waiting_not_over as Hno. pose proof edge_over as Hov.
  pose proof edge_into as Hin. pose proof edge_flagged as Hfl.
  destruct (put_node_fields y (set_received (k + 1) n) g) as (_ & E2 & E3).
  assert (Hne : y <> GRAPH_END) by (intros ->; by apply end_not_node in Hy).
  destruct L as [L1 L2 L3 L4 L5 L6 L7 L8 L9 L10 L11 L12 L13].
  split; try done.
  - by apply put_node_shape.
  - intros z Hz. rewrite (the_node_put g y z _ _ Hn). destruct (decide (z = y)) as [->|Hzy].
    + eexists. split; [done|]. cbn [set_received signals_received signals_expected]. lia.
    + destruct (L3 z Hz) as (m & Hm & H1 & H2). rewrite Hin, decide_False in H1, H2 by done.
      exists m. split_and!; [done|lia|lia].
  - intros z Hz Hzw. pose proof (L4 z Hz Hzw) as H0. rewrite Hin in H0. lia.
  - intros z m Hz. rewrite (the_node_put g y z _ _ Hn).
    apply Hov in Hz. destruct (decide (z = y)) as [->|]; [by destruct (Hno y Hw)|].
    by apply L5.
  - rewrite E2, E3. rewrite Hin, decide_False in L6 by done. exact L6.
  - rewrite Hfl. rewrite Hin in L7. by destruct (decide (y = GRAPH_END)).
  - intros e He. apply L8. rewrite edge_undelivered. by right.
  - intros z. rewrite <- L9. apply Hov.
Qed.

Lemma edge_node_triggers n k :
  y ∈ all_nodes g0 -> the_node g0 y = Some n -> the_node g y = Some (set_received k n) ->
  y ∈ waiting -> into y W' = 0%nat ->
  exists waiting', waiting ≡ₚ y :: waiting'
    /\ live (put_node y (set_received (k + 1) n) g) (ARun y :: next c) posted log waiting' dn.
Proof.
  intros Hy Hn0 Hn Hw Hz0. pose proof waiting_not_over as Hno. pose proof edge_over as Hov.
  pose proof edge_into as Hin. pose proof edge_flagged as Hfl. pose proof (live_nodup L) as Hnd.
  destruct (put_node_fields y (set_received (k + 1) n) g) as (_ & E2 & E3).
  assert (Hne : y <> GRAPH_END) by (intros ->; by apply end_not_node in Hy).
  apply elem_of_Permutation in Hw as Hw'. destruct Hw' as [waiting' HP]. exists waiting'.
  split; [done|].
  assert (HU : undelivered (ARun y :: next c) (posted ++ waiting') ≡ₚ W').
  { unfold undelivered. simpl. rewrite HP, !bind_app. simpl. solve_Permutation. }
  assert (Hyw : y ∉ waiting').
  { rewrite !NoDup_app in Hnd. destruct Hnd as (_ & _ & _ & _ & Hnd & _). rewrite HP in Hnd.
    by apply NoDup_cons in Hnd as [? _]. }
  assert (Hov' : forall z, over (ARun y :: next c) dn z <->
    over (AEdges x st v ((y, f) :: rest) c :: acts) dn z).
  { intros z. rewrite over_cons, Hov. naive_solver. }
  destruct L as [L1 L2 L3 L4 L5 L6 L7 L8 L9 L10 L11 L12 L13].
  split; try done.
  - by apply put_node_shape.
  - rewrite <- L2, HP. simpl. solve_Permutation.
  - intros z Hz. rewrite (into_perm _ _ _ HU), (the_node_put g y z _ _ Hn).
    rewrite decide_False by (intros ->; done).
    destruct (L3 z) as (m & Hm & H1 & H2); [rewrite HP; by right|].
    rewrite Hin, decide_False in H1, H2 by (intros ->; done). exists m. split_and!; [done|lia|lia].
  - intros z Hz Hzw. rewrite (into_perm _ _ _ HU). destruct (decide (z = y)) as [->|Hzy]; [done|].
    pose proof (L4 z Hz) as H0. rewrite Hin, decide_False in H0 by done. apply H0. rewrite HP. set_solver.
  - intros z m Hz. rewrite (the_node_put g y z _ _ Hn).
    destruct (decide (z = y)) as [->|]; [by destruct (Hno y Hw); apply Hov'|]. by apply L5, Hov'.
  - rewrite (into_perm _ _ _ HU), E2, E3. rewrite Hin, decide_False in L6 by done. exact L6.
  - rewrite (into_perm _ _ _ HU), filter_cons_False by (by intros (?&?&?&?&?)).
    rewrite Hfl. rewrite Hin in L7. by destruct (decide (y = GRAPH_END)).
  - intros e He. apply L8. rewrite edge_undelivered, <- HU. by right.
  - intros z. rewrite <- L9. apply Hov'.
  - rewrite <- L11, HP. simpl. solve_Permutation.
Qed.

Lemma the_node_end_received k z : the_node (set_end_received k g) z = the_node g z.
Proof. by destruct z. Qed.

Lemma edge_end :
  y = GRAPH_END -> m_end_signals_received g < m_end_signals_expected g
  /\ (m_end_signals_received g + 1 =? m_end_signals_expected g) = bool_decide (into GRAPH_END W' = 0%nat)
  /\ live (set_end_received (m_end_signals_received g + 1) g)
       (next (c || bool_decide (into GRAPH_END W' = 0%nat))) posted log waiting dn.
Proof.
  intros Hy. pose proof edge_over as Hov. pose proof edge_into as Hin. pose proof edge_flagged as Hfl.
  destruct L as [[S1 S2 S3] L2 L3 L4 L5 L6 L7 L8 L9 L10 L11 L12 L13].
  pose proof (Hin GRAPH_END) as HE. rewrite decide_True in HE by done.
  assert (HW : forall d, undelivered (next d) (posted ++ waiting) = W') by done.
  assert (Hne : forall z, z ∈ all_nodes g0 -> y <> z) by (intros z Hz ->; subst; by apply end_not_node in Hz).
  assert (Hwn : forall z, z ∈ waiting -> z ∈ all_nodes g0) by (intros z Hz; rewrite <- L11; set_solver).
  rewrite HE in L6, L7. rewrite decide_False in L7 by lia.
  split_and!; [lia|case_bool_decide; lia|].
  split; rewrite ?HW; try done.
  - intros z Hz. rewrite the_node_end_received. destruct (L3 z Hz) as (m & Hm & H1 & H2).
    rewrite Hin, decide_False in H1, H2 by (by apply Hne, Hwn). by exists m.
  - intros z Hz Hzw. pose proof (L4 z Hz Hzw) as H0. rewrite Hin in H0. lia.
  - intros z m Hz. rewrite the_node_end_received. apply L5. by apply Hov in Hz.
  - simpl. lia.
  - change (undelivered (next (c || bool_decide (into GRAPH_END W' = 0%nat))) (posted ++ waiting)) with W'.
    rewrite <- Hfl in L7. destruct c.
    { rewrite filter_cons_True in L7 by (by exists x, st, v, rest). simpl in L7. lia. }
    cbn [orb]. rewrite filter_cons_False in L7 by (by intros (?&?&?&?&?)).
    case_bool_decide as Hd; [rewrite decide_True by done|rewrite decide_False by done].
    + rewrite filter_cons_True by (by exists x, st, v, rest). simpl. lia.
    + rewrite filter_cons_False by (by intros (?&?&?&?&?)). lia.
  - intros e He. apply L8. rewrite edge_undelivered. by right.
  - intros z. rewrite <- L9. apply Hov.
Qed.
End Edge.

Lemma step_edge g acts posted log waiting dn x st v e rest c s :
  live g (AEdges x st v (e :: rest) c :: acts) posted log waiting dn -> gs_graph s = Some g ->
  exists new g' u waiting', act (AEdges x st v (e :: rest) c) s = Ok ((new, []), mk_gstate (Some g') u)
    /\ live g' (new ++ acts) posted log waiting' dn
    /\ (weight (new ++ acts) posted waiting' < weight (AEdges x st v (e :: rest) c :: acts) posted waiting)%nat.
Proof.
  intros L Hg. destruct e as [y f]. destruct (edge_target L) as [->|Hy].
  - destruct (edge_end L eq_refl) as (Hlt & Heq & L').
    destruct (deliver_end st v f s g Hg Hlt) as [u Hu]. rewrite Heq in Hu.
    cbn [act]. erewrite st_bind_eq; [|exact Hu]. case_bool_decide.
    + exists [AEdges x st v rest true]. eexists _, u, waiting. rewrite orb_true_r in L'.
      split_and!; [done|exact L'|unfold weight; simpl; lia].
    + exists [AEdges x st v rest c]. eexists _, u, waiting. rewrite orb_false_r in L'.
      split_and!; [done|exact L'|unfold weight; simpl; lia].
  - destruct (edge_waiting L Hy) as (n & k & Hn0 & Hn & Hw & Hc).
    destruct y as [| |i]; [by apply start_not_node in Hy|by apply end_not_node in Hy|].
    destruct (deliver_node st v i f s g _ Hg Hn) as [u Hu]; cbn [set_received signals_received signals_expected] in *;
      [lia|].
    cbn [act]. erewrite st_bind_eq; [|exact Hu].
    destruct (decide (into (Node i) (undelivered (AEdges x st v rest c :: acts) (posted ++ waiting)) = 0%nat)) as [Hz|Hz].
    + rewrite (proj2 (Z.eqb_eq _ _)) by lia.
      destruct (edge_node_triggers L n k Hy Hn0 Hn Hw Hz) as (waiting' & HP & L').
      exists [ARun (Node i); AEdges x st v rest c]. eexists _, u, waiting'. split_and!; [done|exact L'|].
      unfold weight. rewrite HP. simpl. lia.
    + rewrite (proj2 (Z.eqb_neq _ _)) by lia.
      exists [AEdges x st v rest c]. eexists _, u, waiting.
      split_and!; [done|exact (edge_node_waits L n k Hy Hn0 Hn Hw Hc Hz)|unfold weight; simpl; lia].
Qed.

(** Every activity of a live state can act, and what it does keeps the invariant. *)
Lemma step_any g acts posted log waiting dn a s :
  live g (a :: acts) posted log waiting dn -> gs_graph s = Some g ->
  exists new p s' m, act a s = Ok ((new, p), s')
    /\ ginv m (mk_gconfig (new ++ acts) (p ++ posted) s' (logs a ++ log))
    /\ (m < weight (a :: acts) posted waiting)%nat.
Proof.
  intros L Hg. destruct a as [x|x st|x st v [|e r] c].
  - destruct (step_run _ _ _ _ _ _ _ _ L Hg) as (new & p & s' & H1 & H2 & H3 & H4).
    exists new, p, s', (weight (new ++ acts) (p ++ posted) waiting). split_and!; [done| |].
    + unfold ginv. cbn. rewrite H2. eauto.
    + unfold weight. destruct H4 as [[[st ->] ->]|[-> ->]]; simpl; lia.
  - destruct (step_mark _ _ _ _ _ _ _ _ _ L Hg) as (v & r & g' & u & H1 & H2 & H3).
    eexists _, [], _, _. split_and!; [exact H1|by exists waiting, dn|unfold weight; simpl; lia].
  - destruct c.
    + destruct (step_complete _ _ _ _ _ _ _ _ _ _ L Hg) as (s' & H1 & H2).
      unfold ginv. cbn. destruct (gs_graph s') eqn:Es.
      * destruct H2 as [-> H2]. eexists [], [], s', _. rewrite Es.
        split_and!; [done|by eexists _, _|unfold weight; simpl; lia].
      * eexists [], [], s', _. rewrite Es. split_and!; [done|exact H2|reflexivity|unfold weight; simpl; lia].
    + destruct (step_finish _ _ _ _ _ _ _ _ _ _ L Hg) as (H1 & H2).
      eexists [], [], s, _.
      split_and!; [done|unfold ginv; cbn; rewrite Hg; by eexists _, _|unfold weight; simpl; lia].
  - destruct (step_edge _ _ _ _ _ _ _ _ _ _ _ _ _ L Hg) as (new & g' & u & w & H1 & H2 & H3).
    eexists new, [], _, _. split_and!; [exact H1| |exact H3]. exists w, dn. by destruct c.
Qed.

Lemma ginv_perm m acts acts' posted posted' s log :
  acts ≡ₚ acts' -> posted ≡ₚ posted' ->
  ginv m (mk_gconfig acts posted s log) -> ginv m (mk_gconfig acts' posted' s log).
Proof.
  intros Ha Hp. unfold ginv, weight. cbn. destruct (gs_graph s).
  - intros (w & d & L & ->). exists w, d. split; [by eapply live_perm|]. by rewrite Ha, Hp.
  - intros ([D1 D2 D3 D4 D5 D6 D7] & ->). subst posted. apply Permutation_nil_l in Hp.
    split; [|by rewrite Ha]. split; try done. by rewrite <- Ha.
Qed.

(** Any activity can act at any time. *)
Lemma ginv_acts m c a l1 l2 :
  ginv m c -> c_acts c = l1 ++ a :: l2 ->
  exists new p s' m', act a (c_state c) = Ok ((new, p), s')
    /\ ginv m' (mk_gconfig (l1 ++ new ++ l2) (p ++ c_posted c) s' (logs a ++ c_log c)) /\ (m' < m)%nat.
Proof.
  destruct c as [acts posted s log]. cbn. intros I ->.
  apply (ginv_perm m _ (a :: l1 ++ l2) _ posted) in I; [|solve_Permutation|done].
  unfold ginv in I. cbn in I. destruct (gs_graph s) as [g|] eqn:Hg.
  - destruct I as (w & d & L & ->).
    destruct (step_any _ _ _ _ _ _ _ _ L Hg) as (new & p & s' & m' & H1 & H2 & H3).
    exists new, p, s', m'. split_and!; [done| |done]. eapply ginv_perm; [|done|exact H2]. solve_Permutation.
  - destruct I as ([D1 D2 D3 D4 D5 D6 D7] & ->). apply Forall_cons in D1 as [(x & st & v & ->) D1].
    exists [], [], s, (weight (l1 ++ l2) [] []). split_and!; [done| |unfold weight; simpl; lia].
    unfold ginv. cbn. rewrite Hg. by split.
Qed.

Lemma ginv_signal m acts p1 x p2 s log status :
  ginv m (mk_gconfig acts (p1 ++ x :: p2) s log) ->
  exists m', ginv m' (mk_gconfig (AMark x status :: acts) (p1 ++ p2) s log) /\ (m' < m)%nat.
Proof.
  unfold ginv. cbn. destruct (gs_graph s) as [g|].
  - intros (w & d & L & ->). eexists. split; [exists w, d; split; [|done]|].
    + eapply live_same; [exact L| | | |done|done|apply L|done| |apply L].
      * simpl. solve_Permutation.
      * unfold undelivered. simpl. rewrite <- !app_assoc, !bind_app. simpl. solve_Permutation.
      * intros y. rewrite over_cons. naive_solver.
      * intros y Hy. apply (lv_posted _ _ _ _ _ _ L). set_solver.
    + unfold weight. rewrite !sum_list_with_app. simpl. lia.
  - intros [[_ I _ _ _ _ _] _]. by destruct p1.
Qed.

Lemma ginv_step m c c' : ginv m c -> step c c' -> exists m', ginv m' c' /\ (m' < m)%nat.
Proof.
  intros I S. destruct S as [l1 a l2 posted s log new p s' Ha|acts p1 x p2 s log status].
  - destruct (ginv_acts _ _ a l1 l2 I eq_refl) as (new' & p' & s'' & m' & H1 & H2 & H3).
    cbn [c_state c_posted c_log] in H1, H2. rewrite Ha in H1. injection H1 as <- <- <-. eauto.
  - by eapply ginv_signal.
Qed.

Lemma ginv_nsteps n m c c' : nsteps step n c c' -> ginv m c -> exists m', ginv m' c' /\ (m' + n <= m)%nat.
Proof.
  intros R. revert m. induction R as [|n c1 c2 c3 S _ IH]; intros m I; [exists m; split; [done|lia]|].
  destruct (ginv_step _ _ _ I S) as (m1 & I1 & H1). destruct (IH _ I1) as (m2 & I2 & H2).
  exists m2. split; [done|lia].
Qed.

(** ** Quiescent states *)

Lemma list_minimum {A} (f : A -> nat) (l : list A) :
  l <> [] -> exists y, y ∈ l /\ forall z, z ∈ l -> (f y <= f z)%nat.
Proof.
  induction l as [|w l IH]; [done|]. intros _. destruct (decide (l = [])) as [->|Hne].
  - exists w. split; [by left|]. intros z Hz%list_elem_of_singleton. by subst.
  - destruct (IH Hne) as (y & Hy & Hm). destruct (decide (f y <= f w)%nat).
    + exists y. split; [by right|]. intros z [->|Hz]%elem_of_cons; [done|by apply Hm].
    + exists w. split; [by left|]. intros z [->|Hz]%elem_of_cons; [done|]. apply Hm in Hz. lia.
Qed.

(** Nothing waits for nothing. *)
Lemma quiet_waiting g log waiting dn : live g [] [] log waiting dn -> waiting = [].
Proof.
  intros L. destruct (decide (waiting = [])) as [|Hne]; [done|exfalso].
  destruct (gw_acyclic _ wf) as [rank Hr].
  destruct (list_minimum rank waiting Hne) as (y & Hy & Hm).
  destruct (lv_wait _ _ _ _ _ _ L y Hy) as (_ & _ & _ & Hpos). apply into_pos in Hpos as [x Hx].
  pose proof (Hr _ _ (lv_sub _ _ _ _ _ _ L _ Hx)) as Hlt.
  unfold undelivered in Hx. simpl in Hx. apply list_elem_of_bind in Hx as (z & Hz & Hzw).
  pose proof (outs_source _ _ _ _ Hz) as ->.
  apply Hm in Hzw. lia.
Qed.

(** What a finished run leaves. *)
Record complete (c : gconfig) : Prop := mk_complete {
  cp_ran : ran (c_log c) ≡ₚ all_nodes g0;
  cp_once : ends (c_log c) = 1%nat;
  cp_graph : match gs_graph (c_state c) with
    | None => comp_is_empty (m_comp g0) = false
    | Some g => comp_is_empty (m_comp g0) = true
        /\ m_end_signals_received g = m_end_signals_expected g
        /\ forall y n, y ∈ all_nodes g0 -> the_node g y = Some n -> signals_received n = 0
    end
}.

Lemma quiet_complete m c : ginv m c -> c_acts c = [] -> c_posted c = [] -> complete c.
Proof.
  destruct c as [acts posted s log]. unfold ginv. cbn. intros I -> ->.
  destruct (gs_graph s) as [g|] eqn:Hg.
  - destruct I as (w & d & L & _). pose proof (quiet_waiting _ _ _ _ L) as ->.
    pose proof (lv_flag _ _ _ _ _ _ L) as Hf. rewrite decide_True in Hf by done. simpl in Hf.
    split; cbn; [|done|rewrite Hg; split_and!].
    + rewrite <- (lv_runs _ _ _ _ _ _ L). simpl. by rewrite app_nil_r.
    + apply (lv_deleted _ _ _ _ _ _ L). lia.
    + pose proof (lv_end _ _ _ _ _ _ L) as He. cbn in He. lia.
    + intros y n Hy Hn. apply (lv_reset _ _ _ _ _ _ L y n); [|done]. left.
      pose proof (lv_part _ _ _ _ _ _ L) as HP. simpl in HP. rewrite HP. by right.
  - destruct I as [[D1 D2 D3 D4 D5 D6 D7] _]. split; cbn; [done|done|by rewrite Hg].
Qed.

(** ** The code as a run *)

(** [mark_complete], called with enough fuel, succeeds; what it does is a sequence
    of steps at whose end its activity is over. *)
Definition fuel_runs (fuel : nat) : Prop := forall m x st acts posted s log,
  ginv m (mk_gconfig (AMark x st :: acts) posted s log) -> (m < fuel)%nat ->
  exists p' s' log' m', mark_complete run_fn run_edge run_free signal_impl fuel x st s = Ok (tt, s')
    /\ rtc step (mk_gconfig (AMark x st :: acts) posted s log) (mk_gconfig acts p' s' log')
    /\ ginv m' (mk_gconfig acts p' s' log') /\ (m' < m)%nat.

Lemma step_head a acts posted s log new p s' :
  act a s = Ok ((new, p), s') ->
  step (mk_gconfig (a :: acts) posted s log) (mk_gconfig (new ++ acts) (p ++ posted) s' (logs a ++ log)).
Proof. intros H. exact (step_act [] a acts posted s log new p s' H). Qed.

Lemma trigger_runs fuel m y acts posted s log :
  fuel_runs fuel -> ginv m (mk_gconfig (ARun y :: acts) posted s log) -> (m <= fuel)%nat ->
  exists p' s' log' m',
    trigger_node_with run_fn (mark_complete run_fn run_edge run_free signal_impl fuel) y s = Ok (tt, s')
    /\ rtc step (mk_gconfig (ARun y :: acts) posted s log) (mk_gconfig acts p' s' log')
    /\ ginv m' (mk_gconfig acts p' s' log') /\ (m' < m)%nat.
Proof.
  intros IH I Hm. destruct (ginv_acts _ _ (ARun y) [] acts I eq_refl) as (new & p & s1 & m1 & Ha & I1 & Hm1).
  pose proof (step_head _ acts posted s log _ _ _ Ha) as S. cbn [c_state c_posted c_log app] in *.
  cbn [act] in Ha. apply st_bind_Ok in Ha as (status & s0 & Hrun & Ha).
  unfold trigger_node_with. rewrite (st_bind_eq _ _ _ _ _ Hrun).
  destruct (is_done (st_error status)).
  - injection Ha as <- <- ->. simpl in I1, S.
    destruct (IH _ _ _ _ _ _ _ I1 ltac:(lia)) as (p' & s' & log' & m' & H1 & H2 & H3 & H4).
    exists p', s', log', m'. split_and!; [done| |done|lia]. by eapply rtc_l.
  - apply st_bind_Ok in Ha as (? & s2 & Has & [= <- <- ->]). rewrite Has. destruct x.
    eexists _, s1, _, m1. split_and!; [done| |exact I1|lia]. by apply rtc_once.
Qed.

Lemma edges_run fuel x st v acts : fuel_runs fuel -> forall edges m c posted s log,
  ginv m (mk_gconfig (AEdges x st v edges c :: acts) posted s log) -> (m <= fuel)%nat ->
  exists c' p' s' log' m',
    mark_edges run_edge (trigger_node_with run_fn (mark_complete run_fn run_edge run_free signal_impl fuel))
      st v edges c s = Ok (c', s')
    /\ rtc step (mk_gconfig (AEdges x st v edges c :: acts) posted s log)
         (mk_gconfig (AEdges x st v [] c' :: acts) p' s' log')
    /\ ginv m' (mk_gconfig (AEdges x st v [] c' :: acts) p' s' log') /\ (m' <= m)%nat.
Proof.
  intros IH. induction edges as [|e edges IHe]; intros m c posted s log I Hm.
  - exists c, posted, s, log, m. split_and!; [done|done|done|lia].
  - destruct (ginv_acts _ _ _ [] acts I eq_refl) as (new & p & s1 & m1 & Ha & I1 & Hm1).
    pose proof (step_head _ acts posted s log _ _ _ Ha) as S. cbn [c_state c_posted c_log app] in *.
    cbn [act] in Ha. apply st_bind_Ok in Ha as (o & s0 & Hd & Ha). injection Ha as <- <- ->.
    cbn [mark_edges]. rewrite (st_bind_eq _ _ _ _ _ Hd). simpl in I1, S.
    assert (Hlog : (if c then [] else []) ++ log = log) by by destruct c.
    assert (Hlog' : forall (d : bool) (l : list event), (if d then l else l) = l) by by intros [].
    rewrite ?Hlog' in I1, S. simpl in I1, S.
    destruct o as [|y|].
    + destruct (IHe _ _ _ _ _ I1 ltac:(lia)) as (c' & p' & s' & log' & m' & H1 & H2 & H3 & H4).
      exists c', p', s', log', m'. split_and!; [done|by eapply rtc_l|done|lia].
    + destruct (trigger_runs fuel m1 y _ _ _ _ IH I1 ltac:(lia)) as (p2 & s2 & log2 & m2 & T1 & T2 & T3 & T4).
      rewrite (st_bind_eq _ _ _ _ _ T1).
      destruct (IHe _ _ _ _ _ T3 ltac:(lia)) as (c' & p' & s' & log' & m' & H1 & H2 & H3 & H4).
      exists c', p', s', log', m'. split_and!; [done| |done|lia].
      eapply rtc_l; [exact S|]. by etrans.
    + destruct (IHe _ _ _ _ _ I1 ltac:(lia)) as (c' & p' & s' & log' & m' & H1 & H2 & H3 & H4).
      exists c', p', s', log', m'. split_and!; [done|by eapply rtc_l|done|lia].
Qed.

Lemma mark_complete_runs fuel : fuel_runs fuel.
Proof.
  induction fuel as [|fuel IH]; intros m x st acts posted s log I Hm; [lia|].
  destruct (ginv_acts _ _ _ [] acts I eq_refl) as (new & p & s1 & m1 & Ha & I1 & Hm1).
  pose proof (step_head _ acts posted s log _ _ _ Ha) as S. cbn [c_state c_posted c_log app] in *.
  cbn [act] in Ha. apply st_bind_Ok in Ha as (n & s0 & Hb & Ha). injection Ha as <- <- ->.
  cbn [mark_complete]. rewrite (st_bind_eq _ _ _ _ _ Hb).
  destruct (edges_run fuel x st (value n) acts IH _ _ _ _ _ _ I1 ltac:(lia))
    as (c2 & p2 & s2 & log2 & m2 & H1 & H2 & H3 & H4).
  rewrite (st_bind_eq _ _ _ _ _ H1).
  destruct (ginv_acts _ _ _ [] acts H3 eq_refl) as (new & p & s3 & m3 & Ha & I3 & Hm3).
  pose proof (step_head _ acts p2 s2 log2 _ _ _ Ha) as S3. cbn [c_state c_posted c_log app] in *.
  cbn [act] in Ha. apply st_bind_Ok in Ha as ([] & s4 & He & Ha). injection Ha as <- <- ->.
  rewrite He. eexists _, s3, _, m3. split_and!; [done| |exact I3|lia].
  eapply rtc_l; [exact S|]. eapply rtc_r; [exact H2|exact S3].
Qed.

(** *** What the log says *)

Lemma elem_of_ran x log : x ∈ ran log <-> EvRun x ∈ log.
Proof.
  unfold ran. rewrite list_elem_of_omap. split.
  - intros (e & He & Hx). destruct e; by simplify_eq.
  - intros H. by exists (EvRun x).
Qed.

(** A node that was marked complete had run. *)
Lemma ginv_marked_ran m c x :
  ginv m c -> x ∈ all_nodes g0 -> EvMark x ∈ c_log c -> EvRun x ∈ c_log c.
Proof.
  unfold ginv. intros I Hx Hm. apply elem_of_ran. destruct (gs_graph _) as [g|].
  - destruct I as (w & d & L & _). apply (lv_log _ _ _ _ _ _ L) in Hm.
    pose proof (live_nodup L) as Hnd. rewrite !NoDup_app in Hnd.
    destruct Hnd as (Hno & Hd1 & _ & Hd2 & _ & Hd3 & _).
    rewrite <- (lv_runs _ _ _ _ _ _ L), !elem_of_app in Hx. destruct Hx as [Hx|[Hx|Hx]]; [done|exfalso..].
    + unfold running in Hx. apply list_elem_of_omap in Hx as (a & Ha & Hx). destruct a; [|done..].
      injection Hx as ->. destruct Hm as [Hm|(st & v & r & e & Hm)].
      * apply (Hd1 x); [|set_solver]. by apply (list_elem_of_fmap_2 owner) in Ha.
      * apply list_elem_of_split in Ha as (l1 & l2 & E).
        assert (Hin : x ∈ owner <$> (l1 ++ l2)).
        { apply list_elem_of_fmap. exists (AEdges x st v r e). split; [done|]. rewrite E in Hm. set_solver. }
        rewrite E, fmap_app, fmap_cons in Hno. rewrite fmap_app in Hin.
        apply NoDup_app in Hno as (_ & Hn1 & Hn2). apply NoDup_cons in Hn2 as [Hn2 _].
        apply elem_of_app in Hin as [Hin|Hin]; [apply (Hn1 x Hin); by left|done].
    + destruct Hm as [Hm|(st & v & r & e & Hm)]; [by apply (Hd3 x)|].
      apply (Hd1 x); [|set_solver]. by apply (list_elem_of_fmap_2 owner) in Hm.
  - destruct I as [[_ _ _ _ D5 _ _] _]. by rewrite D5.
Qed.

(** The sources of its edges are marked when a node runs. *)
Lemma ginv_run_sources m c x y :
  ginv m c -> EvRun y ∈ c_log c -> (x, y) ∈ all_edges g0 -> EvMark x ∈ c_log c.
Proof.
  intros I (l1 & l2 & E)%list_elem_of_split Hxy.
  assert (Ho : ordered (c_log c)).
  { unfold ginv in I. destruct (gs_graph _); [destruct I as (w & d & L & _); apply L|apply I]. }
  rewrite E. apply elem_of_app. right. right. by eapply Ho.
Qed.

(** The graph is over: [EvEnd] happened, or [test] says done. *)
Definition is_over (c : gconfig) : Prop :=
  ends (c_log c) <> 0%nat
  \/ exists g, gs_graph (c_state c) = Some g /\ m_end_signals_received g = m_end_signals_expected g.

Lemma ginv_over_sources m c x :
  ginv m c -> is_over c -> (x, GRAPH_END) ∈ all_edges g0 -> EvMark x ∈ c_log c.
Proof.
  unfold ginv, is_over. intros I Ho Hx. destruct (gs_graph _) as [g|].
  - destruct I as (w & d & L & _). apply (source_marked L x GRAPH_END Hx).
    pose proof (lv_flag _ _ _ _ _ _ L) as Hf. pose proof (lv_end _ _ _ _ _ _ L) as He.
    destruct Ho as [Ho|(g' & [= <-] & Ho)]; [destruct (decide _); lia|lia].
  - destruct I as [D _]. apply (dl_marks _ _ _ D). apply list_elem_of_bind in Hx as (z & Hz & Hzn).
    by pose proof (outs_source _ _ _ _ Hz) as ->.
Qed.

Lemma ginv_facts m c : ginv m c ->
  NoDup (ran (c_log c)) /\ ordered (c_log c) /\ (ends (c_log c) <= 1)%nat.
Proof.
  unfold ginv. pose proof (all_nodes_nodup g0) as [_ Hnd]%NoDup_cons. destruct (gs_graph _).
  - intros (w & d & L & _). split_and!; [|apply L|].
    + rewrite <- (lv_runs _ _ _ _ _ _ L) in Hnd. by apply NoDup_app in Hnd as (? & _).
    + pose proof (lv_flag _ _ _ _ _ _ L) as Hf. destruct (decide _); lia.
  - intros [[_ _ D3 D4 D5 _ _] _]. split_and!; [by rewrite D5|done|lia].
Qed.
End Invariant.

(** C8: in every run of a well-formed graph, whatever threads deliver the edges and
    in whatever order completions are signalled, no activity ever fails an
    assertion or touches the graph after its deletion; every node's function is
    called at most once and only after all nodes with an edge to it are complete;
    the graph is completed at most once. A run has a bounded number of steps, and
    when nothing is active or posted any more, every node has run, the graph has
    been completed exactly once, and either it is deleted (when it has a completion
    object to signal) or its counters are back at zero and [test] says done. *)
Theorem graph_nodes_once g u n c :
  well_formed g -> (forall f v w, is_retry (st_error (run_fn f v w).1) = false) ->
  nsteps step n (starts g u) c ->
  (n <= step_bound g)%nat
  /\ (forall a, a ∈ c_acts c -> is_ok (act a (c_state c)) = true)
  /\ NoDup (ran (c_log c)) /\ ordered g (c_log c) /\ (ends (c_log c) <= 1)%nat
  /\ (c_acts c = [] -> c_posted c = [] -> complete g c).
Proof.
  intros Hwf Hr R. destruct (ginv_nsteps g Hwf Hr n _ _ _ R (live_starts g Hwf u)) as (m & I & Hm).
  destruct (ginv_facts g m c I) as (F1 & F2 & F3). split_and!; try done; [lia| |].
  - intros a (l1 & l2 & E)%list_elem_of_split.
    by destruct (ginv_acts g Hwf Hr _ _ _ _ _ I E) as (new & p & s' & m' & -> & _).
  - by eapply quiet_complete.
Qed.

(** [graph_start], given enough fuel for the recursion between [mark_complete]
    and [trigger_node], returns, and what it did is a run in which the calling
    thread has nothing left to do; if no node function left an operation posted,
    the graph is complete when it returns. *)
Theorem graph_start_runs g u fuel :
  well_formed g -> (forall f v w, is_retry (st_error (run_fn f v w).1) = false) ->
  (step_bound g < fuel)%nat ->
  exists posted s' log,
    graph_start run_fn run_edge run_free signal_impl fuel (mk_gstate (Some g) u) = Ok (tt, s')
    /\ rtc step (starts g u) (mk_gconfig [] posted s' log)
    /\ (posted = [] -> complete g (mk_gconfig [] posted s' log)).
Proof.
  intros Hwf Hr Hf.
  destruct (mark_complete_runs g Hwf Hr fuel _ _ _ _ _ _ _ (live_starts g Hwf u) Hf)
    as (p & s' & log & m & H1 & H2 & H3 & _).
  exists p, s', log. split_and!; [exact H1|exact H2|]. intros ->. by eapply quiet_complete.
Qed.
End Runs.

(** ** A small graph

    Two operations that are posted and one node between them and the end. *)
Definition small_fn (posted : bool) (v : Z) (log : list Z) : status_t * list Z :=
  (if posted then set_posted status_init else set_done status_init, v :: log).
Definition small_graph : graph_t (F := bool) (EF := unit) (FC := unit) :=
  let g := graph_new 0 0 0 in
  let '(a, g) := add_node (Some true) 10 None g in
  let '(b, g) := add_node (Some true) 11 None g in
  let '(d, g) := add_node None 12 None g in
  match (g ← add_edge GRAPH_START a None g ; g ← add_edge GRAPH_START b None g ;
         g ← add_edge a d None g ; g ← add_edge b d None g ; add_edge d GRAPH_END None g) with
  | Ok g => g
  | Err _ => g
  end.

Lemma small_graph_wf : well_formed small_graph.
Proof.
  split.
  - intros x y H. vm_compute in H |- *. repeat (apply elem_of_cons in H as [[= -> ->]|H]; [set_solver|]).
    by apply elem_of_nil in H.
  - intros y n Hy. vm_compute in Hy.
    repeat (apply elem_of_cons in Hy as [->|Hy]; [intros [= <-]; vm_compute; intuition (done || lia)|]).
    by apply elem_of_nil in Hy.
  - vm_compute. done.
  - done.
  - exists (fun x => match x with GRAPH_START => 0 | Node i => if decide (i = 2) then 2 else 1 | GRAPH_END => 3 end)%nat.
    intros x y H. vm_compute in H. repeat (apply elem_of_cons in H as [[= -> ->]|H]; [simpl; lia|]).
    by apply elem_of_nil in H.
Qed.

#[local] Abbreviation small_step :=
  (step small_fn (fun (_ : unit) _ _ _ u => u) (fun (_ : unit) _ u => u) (fun _ _ u => u)).

Lemma small_run : exists c, nsteps small_step 18 (starts small_graph []) c
  /\ c_acts c = [] /\ c_posted c = [].
Proof.
  eexists. split.
  - do 6 (eapply nsteps_l; [apply step_head; vm_compute; reflexivity|]). cbn [app].
    eapply nsteps_l; [apply (step_signal _ _ _ _ [] [] (Node 1) [Node 0] _ _ (set_done status_init))|].
    do 3 (eapply nsteps_l; [apply step_head; vm_compute; reflexivity|]). cbn [app].
    eapply nsteps_l; [apply (step_signal _ _ _ _ [] [] (Node 0) [] _ _ (set_done status_init))|].
    do 7 (eapply nsteps_l; [apply step_head; vm_compute; reflexivity|]). cbn [app].
    apply nsteps_O.
  - split; reflexivity.
Qed.

Lemma small_no_retry f v w : is_retry (st_error (small_fn f v w).1) = false.
Proof. by destruct f. Qed.

Lemma graph_nodes_once_witness :
  exists c, nsteps small_step 18 (starts small_graph []) c /\ complete small_graph c
    /\ NoDup (ran (c_log c)).
Proof.
  destruct small_run as (c & R & Ha & Hp). exists c. split; [exact R|].
  destruct (graph_nodes_once small_fn (fun (_ : unit) _ _ _ u => u) (fun (_ : unit) _ u => u)
    (fun _ _ u => u) small_graph [] 18 c small_graph_wf small_no_retry R) as (_ & _ & H1 & _ & _ & H2).
  split; [exact (H2 Ha Hp)|exact H1].
Defined.

Lemma graph_start_runs_witness :
  exists posted s' log,
    graph_start small_fn (fun (_ : unit) _ _ _ u => u) (fun (_ : unit) _ u => u) (fun _ _ u => u) 100
      (mk_gstate (Some small_graph) []) = Ok (tt, s')
    /\ rtc small_step (starts small_graph []) (mk_gconfig [] posted s' log)
    /\ (posted = [] -> complete small_graph (mk_gconfig [] posted s' log)).
Proof.
  apply (graph_start_runs small_fn (fun (_ : unit) _ _ _ u => u) (fun (_ : unit) _ u => u)
    (fun _ _ u => u) small_graph [] 100 small_graph_wf small_no_retry).
  vm_compute. lia.
Defined.
