(* ===== verification/GraphBuild.v ===== *)
(** * Graphs as their builders make them

    What [add_node] and [add_edge] do to the list of nodes and the multiset of
    edges, and when the graph that results is well formed. *)
From stdpp Require Import base numbers list gmap strings relations.
From Stdlib Require Import ZArith Lia.
From S2P Require Import Prelude Status Graph GraphRuns.

Section Build.
Context {F EF FC : Type}.
#[local] Abbreviation graph := (graph_t (F := F) (EF := EF) (FC := FC)).
Implicit Types g : graph.

(** [g] has nodes with the functions [ops], the edges [es], fresh counters, and
    expects as many signals as there are edges. *)
Record gshape g (comp : Z) (ops : list (option F)) (es : list (graph_node_t * graph_node_t)) : Prop :=
  mk_gshape {
    sh_comp : m_comp g = comp;
    sh_ops : fn <$> nodes g = ops;
    sh_edges : all_edges g ≡ₚ es;
    sh_targets : Forall (fun e => e.2 = GRAPH_END \/ e.2 ∈ all_nodes g) es;
    sh_nodes : forall y n, y ∈ all_nodes g -> the_node g y = Some n ->
      signals_expected n = Z.of_nat (into y es) /\ signals_received n = 0;
    sh_end : m_end_signals_expected g = Z.of_nat (into GRAPH_END es)
  }.

Lemma shape_new comp v garbage : gshape (graph_new comp v garbage) comp [] [].
Proof. split; try done. intros y n Hy. by apply elem_of_nil in Hy. Qed.

Lemma shape_length g comp ops es : gshape g comp ops es -> length (nodes g) = length ops.
Proof. intros H. rewrite <- (sh_ops _ _ _ _ H). by rewrite length_fmap. Qed.

Lemma all_nodes_length g g' : length (nodes g) = length (nodes g') -> all_nodes g = all_nodes g'.
Proof. unfold all_nodes. by intros ->. Qed.

Lemma shape_valid g comp ops es x :
  gshape g comp ops es -> x ∈ all_nodes g <-> exists i, x = Node i /\ (i < length ops)%nat.
Proof.
  intros H. unfold all_nodes. rewrite list_elem_of_fmap, (shape_length _ _ _ _ H).
  setoid_rewrite elem_of_seq. naive_solver lia.
Qed.

Lemma into_none y (es : list (graph_node_t * graph_node_t)) :
  (forall x, (x, y) ∉ es) -> into y es = 0%nat.
Proof.
  intros H. destruct (into y es) eqn:E; [done|]. destruct (proj1 (into_pos y es)) as [x Hx]; [lia|].
  by destruct (H x).
Qed.

Lemma list_bind_eq {A B} (f h : A -> list B) (l : list A) :
  (forall x, x ∈ l -> f x = h x) -> l ≫= f = l ≫= h.
Proof.
  induction l as [|x l IH]; intros H; [done|]. cbn. rewrite H by (by left). f_equal. apply IH.
  intros y Hy. apply H. by right.
Qed.

Lemma shape_node g comp ops es f v fc :
  gshape g comp ops es ->
  (add_node f v fc g).1 = Node (length ops) /\ gshape (add_node f v fc g).2 comp (ops ++ [f]) es.
Proof.
  intros H. pose proof (shape_length _ _ _ _ H) as Hl. destruct H as [H1 H2 H3 H4 H5 H6].
  set (g' := (add_node f v fc g).2).
  assert (Hall : all_nodes g' = all_nodes g ++ [Node (length ops)]).
  { unfold all_nodes. simpl. rewrite length_app. simpl. by rewrite seq_app, fmap_app, Hl. }
  assert (Hold : forall x, x ∈ GRAPH_START :: all_nodes g -> the_node g' x = the_node g x).
  { intros x [n Hn]%the_node_all. rewrite Hn. destruct x as [| |i]; [done..|]. simpl in *.
    by apply lookup_app_l_Some. }
  assert (Hnew : the_node g' (Node (length ops)) = Some (mk_gnode 0 0 f v fc [])).
  { simpl. rewrite lookup_app_r by lia. by rewrite <- Hl, Nat.sub_diag. }
  assert (Hes : all_edges g' = all_edges g).
  { unfold all_edges. rewrite Hall. cbn [app]. rewrite bind_cons, bind_app. simpl.
    rewrite app_nil_r. unfold outs at 3. rewrite Hnew. simpl. rewrite app_nil_r. f_equal.
    apply list_bind_eq. intros x Hx. unfold outs. by rewrite Hold by (by right). }
  split; [simpl; by rewrite Hl|]. split; try done.
  - simpl. rewrite fmap_app. by rewrite H2.
  - by rewrite Hes.
  - eapply Forall_impl; [exact H4|]. intros e [?|?]; [by left|right]. rewrite Hall. set_solver.
  - intros y n. rewrite Hall. intros [Hy|Hy]%elem_of_app.
    + rewrite Hold by (by right). by apply H5.
    + apply list_elem_of_singleton in Hy as ->. rewrite Hnew. intros [= <-]. simpl. split; [|done].
      rewrite into_none; [done|]. intros x Hx. rewrite Forall_forall in H4.
      destruct (H4 _ Hx) as [?|Hn]; [done|]. simpl in Hn. unfold all_nodes in Hn.
      apply list_elem_of_fmap in Hn as (i & E & Hi). injection E as E. apply elem_of_seq in Hi. lia.
Qed.

(** One more edge out of [src]. *)
Lemma all_edges_put g src n n' dst f :
  the_node g src = Some n -> out_edges n' = out_edges n ++ [(dst, f)] ->
  all_edges (put_node src n' g) ≡ₚ (src, dst) :: all_edges g.
Proof.
  intros Hn Hout. pose proof (all_nodes_nodup g) as Hnd.
  assert (Hin : src ∈ GRAPH_START :: all_nodes g) by (apply the_node_all; eauto).
  assert (Hall : all_nodes (put_node src n' g) = all_nodes g).
  { apply all_nodes_length. destruct src; simpl; try done. by rewrite length_insert. }
  unfold all_edges. rewrite Hall. apply list_elem_of_split in Hin as (l1 & l2 & E). rewrite E in *.
  assert (Hother : forall x, x <> src -> outs (put_node src n' g) x = outs g x).
  { intros x Hx. unfold outs. by rewrite (the_node_put _ _ _ _ _ Hn), decide_False. }
  rewrite !bind_app, !bind_cons.
  rewrite (list_bind_eq (outs (put_node src n' g)) (outs g) l1), (list_bind_eq (outs (put_node src n' g)) (outs g) l2).
  - assert (outs (put_node src n' g) src = outs g src ++ [(src, dst)]) as ->; [|solve_Permutation].
    unfold outs. rewrite (the_node_put _ _ _ _ _ Hn), decide_True, Hn, Hout by done. by rewrite fmap_app.
  - intros x Hx. apply Hother. intros ->. apply NoDup_app in Hnd as (_ & _ & Hnd).
    by apply NoDup_cons in Hnd as [? _].
  - intros x Hx. apply Hother. intros ->. apply NoDup_app in Hnd as (_ & Hd & _). apply (Hd src Hx). by left.
Qed.

Lemma all_edges_same g x n n' :
  the_node g x = Some n -> out_edges n' = out_edges n -> all_edges (put_node x n' g) = all_edges g.
Proof.
  intros Hn Hout.
  assert (Hall : all_nodes (put_node x n' g) = all_nodes g).
  { apply all_nodes_length. destruct x; simpl; try done. by rewrite length_insert. }
  unfold all_edges. rewrite Hall. apply list_bind_eq. intros y _. unfold outs.
  rewrite (the_node_put _ _ _ _ _ Hn). destruct (decide (y = x)) as [->|]; [by rewrite Hn, Hout|done].
Qed.

Lemma put_node_ops g x n n' :
  the_node g x = Some n -> fn n' = fn n -> fn <$> nodes (put_node x n' g) = fn <$> nodes g.
Proof.
  intros Hn Hf. destruct x as [| |i]; [done..|]. simpl in *. rewrite list_fmap_insert.
  apply list_insert_id. by rewrite list_lookup_fmap, Hn, Hf.
Qed.

Lemma shape_edge g comp ops es src dst f :
  gshape g comp ops es -> src ∈ GRAPH_START :: all_nodes g -> (dst = GRAPH_END \/ dst ∈ all_nodes g) ->
  exists g', add_edge src dst f g = Ok g' /\ gshape g' comp ops ((src, dst) :: es)
    /\ all_nodes g' = all_nodes g.
Proof.
  intros [H1 H2 H3 H4 H5 H6] Hsrc Hdst. pose proof (proj1 (the_node_all g src) Hsrc) as [n Hn].
  unfold add_edge. rewrite !bool_decide_eq_true_2.
  2:{ intros ->. destruct Hdst as [?|Hd]; [done|by apply start_not_node in Hd]. }
  2:{ intros ->. apply elem_of_cons in Hsrc as [?|Hs]; [done|by apply end_not_node in Hs]. }
  cbn. rewrite Hn. set (g1 := put_node src (push_edge (dst, f) n) g).
  assert (He1 : all_edges g1 ≡ₚ (src, dst) :: all_edges g) by (by eapply all_edges_put).
  assert (Ho1 : fn <$> nodes g1 = ops) by (rewrite <- H2; by eapply put_node_ops).
  assert (Ha1 : all_nodes g1 = all_nodes g).
  { apply all_nodes_length. unfold g1. destruct src; simpl; try done. by rewrite length_insert. }
  assert (Hn1 : forall y m, the_node g1 y = Some m -> exists m0, the_node g y = Some m0
    /\ signals_expected m = signals_expected m0 /\ signals_received m = signals_received m0).
  { intros y m. unfold g1. rewrite (the_node_put _ _ _ _ _ Hn). destruct (decide (y = src)) as [->|]; [intros [= <-]; by exists n|].
    intros Hm. by exists m. }
  destruct (put_node_fields (FC := FC) src (push_edge (dst, f) n) g) as (F1 & F2 & _). fold g1 in F1, F2.
  destruct Hdst as [->|Hd].
  - eexists. split; [done|]. split; [|done]. split; try done.
    + simpl. congruence.
    + change (all_edges g1 ≡ₚ (src, GRAPH_END) :: es). by rewrite He1, H3.
    + constructor; [by left|]. eapply Forall_impl; [exact H4|]. intros e [?|He]; [by left|right].
      by rewrite <- Ha1 in He.
    + intros y m Hy Hm. change (all_nodes _) with (all_nodes g1) in Hy. rewrite Ha1 in Hy.
      assert (Hm' : the_node g1 y = Some m) by (by destruct y).
      destruct (Hn1 y m Hm') as (m0 & E1 & -> & ->). rewrite into_cons, decide_False; [by apply H5|].
      intros <-. by apply end_not_node in Hy.
    + cbn [m_end_signals_expected]. rewrite F2, H6, into_cons, decide_True by done. lia.
  - assert (Hdn : dst <> GRAPH_END) by (intros ->; by apply end_not_node in Hd).
    destruct (proj1 (the_node_all g1 dst)) as [d Hdd]; [right; by rewrite Ha1|].
    set (g2 := put_node dst (expect_one d) g1).
    assert (Hfin : gshape g2 comp ops ((src, dst) :: es) /\ all_nodes g2 = all_nodes g).
    { destruct (put_node_fields (FC := FC) dst (expect_one d) g1) as (K1 & K2 & _). fold g2 in K1, K2.
      assert (Ha2 : all_nodes g2 = all_nodes g).
      { rewrite <- Ha1. apply all_nodes_length. unfold g2. destruct dst; simpl; try done. by rewrite length_insert. }
      split; [|done]. split.
      - congruence.
      - rewrite <- Ho1. by eapply put_node_ops.
      - unfold g2. erewrite all_edges_same; [|exact Hdd|done]. by rewrite He1, H3.
      - constructor; [right; by rewrite Ha2|]. eapply Forall_impl; [exact H4|].
        intros e [?|He]; [by left|right]. by rewrite Ha2.
      - intros y m Hy. rewrite Ha2 in Hy. unfold g2. rewrite (the_node_put _ _ _ _ _ Hdd), into_cons.
        destruct (decide (y = dst)) as [->|Hne].
        + intros [= <-]. destruct (Hn1 dst d Hdd) as (m0 & E1 & E2 & E3). simpl.
          destruct (H5 dst m0 Hy E1) as [E4 E5]. rewrite decide_True by done. lia.
        + intros Hm. destruct (Hn1 y m Hm) as (m0 & E1 & -> & ->). rewrite decide_False by done. by apply H5.
      - rewrite K2, F2, H6, into_cons, decide_False by done. lia. }
    destruct dst; [|done|]; rewrite Hdd; by eexists.
Qed.

Lemma shape_well_formed g comp ops es :
  gshape g comp ops es ->
  (forall i, (i < length ops)%nat -> (exists x, (x, Node i) ∈ es) /\ exists y, (Node i, y) ∈ es) ->
  (exists x, (x, GRAPH_END) ∈ es) -> (exists y, (GRAPH_START, y) ∈ es) ->
  (exists rank : graph_node_t -> nat, forall x y, (x, y) ∈ es -> (rank x < rank y)%nat) ->
  well_formed g.
Proof.
  intros H Hio Hend Hstart [rank Hrank]. pose proof H as [H1 H2 H3 H4 H5 H6].
  assert (Hout : forall x y n, (x, y) ∈ es -> the_node g x = Some n -> out_edges n <> []).
  { intros x y n Hxy Hn. rewrite <- H3 in Hxy. apply list_elem_of_bind in Hxy as (z & Hz & _).
    pose proof (outs_source _ _ _ _ Hz) as ->. unfold outs in Hz. rewrite Hn in Hz.
    intros E. rewrite E in Hz. by apply elem_of_nil in Hz. }
  split.
  - intros x y. rewrite H3. intros Hxy. rewrite Forall_forall in H4. by apply (H4 _ Hxy).
  - intros y n Hy Hn. destruct (H5 y n Hy Hn) as [E1 E2].
    apply (shape_valid _ _ _ _ _ H) in Hy as (i & -> & Hi). destruct (Hio i Hi) as [[x Hx] [z Hz]].
    rewrite (into_perm _ _ _ H3). split_and!; [done| |done|by eapply Hout].
    assert (0 < into (Node i) es)%nat by (apply into_pos; eauto). lia.
  - rewrite (into_perm _ _ _ H3). split; [done|]. rewrite H6.
    assert (0 < into GRAPH_END es)%nat by (by apply into_pos). lia.
  - destruct Hstart as [y Hy]. by eapply Hout.
  - exists rank. intros x y. rewrite H3. apply Hrank.
Qed.
End Build.
