(* ===== verification/Collective.v ===== *)
(** * Collective operations (src/src/collective)

    A collective builds a completion graph whose nodes post sends and receives and
    whose edges order them, starts it and, without a completion object, waits for
    it; [reduce] and [allgather] post their operations directly. The definitions
    here are the graphs and the operation lists that one rank builds. *)
From stdpp Require Import base numbers list gmap strings.
From Stdlib Require Import ZArith Lia.
From S2P Require Import Prelude Status Memory Graph.

(** The functions of the nodes: an operation posted with the graph as completion
    object and [allow_retry(false)], or one of the callbacks. *)
Inductive coll_op : Type :=
  | OpSend (rank buffer size : Z)
  | OpRecv (rank buffer size : Z)
  | OpDone
  | OpReduce (left right dst count : Z)
  | OpFree (tmp_buffer : Z).
#[export] Instance coll_op_eq_dec : EqDecision coll_op.
Proof. solve_decision. Defined.

(** Operations are copied into their node and deleted with it; edges have no
    function. *)
#[global] Abbreviation coll_graph := (graph_t (F := coll_op) (EF := Empty_set) (FC := unit)).
#[local] Abbreviation B := (ST coll_graph).

Definition graph_add_node_op (op : coll_op) : B graph_node_t := fun g =>
  Ok (add_node (Some op) 0 (Some tt) g).
Definition graph_add_node (f : option coll_op) : B graph_node_t := fun g => Ok (add_node f 0 None g).
Definition graph_add_edge (src dst : graph_node_t) : B unit := fun g =>
  match add_edge src dst None g with Ok g => Ok (tt, g) | Err f => Err f end.

(** [std::ceil(n / 2.0)] *)
Definition ceil_half (n : Z) : Z := (n + 1) / 2.

(** What the call does besides building: signal at once, or start the graph and
    possibly wait for it. *)
Inductive coll_plan : Type :=
  | PNothing
  | PSignal (comp : Z)
  | PGraph (g : coll_graph) (wait : bool).

Definition single_rank (comp : Z) : coll_plan :=
  if comp_is_empty comp then PNothing else PSignal comp.
Definition plan (comp : Z) (build : B unit) : result coll_plan :=
  '(_, g) ← build (graph_new comp 0 0) ;
  Ok (PGraph g (comp_is_empty comp)).

Section Rank.
(** [get_rank_me()] and [get_rank_n()] *)
Variables rank nranks : Z.

(** ** Barrier *)

Fixpoint barrier_rounds (fuel : nat) (jump : Z) (old_node : graph_node_t) : B unit :=
  if negb (jump <? nranks) then mret tt
  else match fuel with
  | O => fail_with OutOfFuel
  | S fuel =>
      let rank_to_recv := (rank - jump + nranks) mod nranks in
      let rank_to_send := (rank + jump) mod nranks in
      dummy_node ← (if nranks <=? jump * 2 then mret GRAPH_END else graph_add_node (Some OpDone)) ;
      recv_node ← graph_add_node_op (OpRecv rank_to_recv 0 0) ;
      send_node ← graph_add_node_op (OpSend rank_to_send 0 0) ;
      graph_add_edge old_node recv_node ;;
      graph_add_edge old_node send_node ;;
      graph_add_edge recv_node dummy_node ;;
      graph_add_edge send_node dummy_node ;;
      barrier_rounds fuel (jump * 2) dummy_node
  end.
Definition barrier_x (comp : Z) : result coll_plan :=
  if nranks =? 1 then Ok (single_rank comp)
  else plan comp (barrier_rounds (Z.to_nat nranks) 1 GRAPH_START).

(** ** Broadcast *)

(** One target of the root, [i] counting from 0. *)
Definition direct_send (buffer size : Z) (i : nat) : B unit :=
  let target := (Z.of_nat i + rank) mod nranks in
  if target =? rank then mret tt
  else
    send_node ← graph_add_node_op (OpSend target buffer size) ;
    graph_add_edge GRAPH_START send_node ;;
    graph_add_edge send_node GRAPH_END.
Fixpoint for_each {A} (f : A -> B unit) (l : list A) : B unit :=
  match l with [] => mret tt | x :: l => f x ;; for_each f l end.
Definition build_graph_direct (buffer size root : Z) : B unit :=
  if rank =? root then for_each (direct_send buffer size) (seq 0 (Z.to_nat nranks))
  else
    recv_node ← graph_add_node_op (OpRecv root buffer size) ;
    graph_add_edge GRAPH_START recv_node ;;
    graph_add_edge recv_node GRAPH_END.

(** The position of a rank in the binomial tree. *)
Record tree_state : Type := mk_tree {
  has_data : bool; distance_left : Z; distance_right : Z; tree_jump : Z
}.
Definition tree_init (root : Z) : tree_state :=
  mk_tree (rank =? root) ((rank + nranks - root) mod nranks) ((root - 1 - rank + nranks) mod nranks)
          (ceil_half nranks).
(** What the rank does in a round: send to a rank, receive from one, or nothing. *)
Definition tree_action (t : tree_state) : option (bool * Z) :=
  if has_data t && (tree_jump t <=? distance_right t) then
    Some (true, (rank + tree_jump t) mod nranks)
  else if distance_left t =? tree_jump t then
    Some (false, (rank - tree_jump t + nranks) mod nranks)
  else None.
(** The distances after the round; [tree_jump] is left. *)
Definition tree_update (t : tree_state) : tree_state :=
  let has_data' := match tree_action t with Some (false, _) => true | _ => has_data t end in
  if tree_jump t <=? distance_left t then
    mk_tree has_data' (distance_left t - tree_jump t) (distance_right t) (tree_jump t)
  else
    mk_tree has_data' (distance_left t)
      (Z.min (tree_jump t - distance_left t - 1) (distance_right t)) (tree_jump t).
Definition tree_next (t : tree_state) : tree_state :=
  mk_tree (has_data t) (distance_left t) (distance_right t) (ceil_half (tree_jump t)).

(** The [while (true)] loop; it ends after the round with jump 1. *)
Fixpoint tree_rounds (fuel : nat) (buffer size : Z) (t : tree_state) (old_node : graph_node_t) :
    B graph_node_t :=
  match fuel with
  | O => fail_with OutOfFuel
  | S fuel =>
      old_node ←
        match tree_action t with
        | Some (true, rank_to_send) =>
            send_node ← graph_add_node_op (OpSend rank_to_send buffer size) ;
            graph_add_edge old_node send_node ;;
            mret send_node
        | Some (false, rank_to_recv) =>
            recv_node ← graph_add_node_op (OpRecv rank_to_recv buffer size) ;
            graph_add_edge old_node recv_node ;;
            mret recv_node
        | None => mret old_node
        end ;
      let t := tree_update t in
      if tree_jump t =? 1 then mret old_node
      else tree_rounds fuel buffer size (tree_next t) old_node
  end.
Definition build_graph_tree (buffer size root : Z) : B unit :=
  old_node ← tree_rounds (Z.to_nat nranks) buffer size (tree_init root) GRAPH_START ;
  graph_add_edge old_node GRAPH_END.

(** The ring; pieces have [step_size] bytes, computed in [size_t]. *)
Definition ring_step_size (size nsteps : Z) : Z := u64 (size + nsteps - 1) / nsteps.
Definition ring_buffer (buffer size nsteps idx : Z) : Z :=
  u64 (buffer + idx * ring_step_size size nsteps).
Definition ring_size (size nsteps idx : Z) : Z :=
  Z.min (ring_step_size size nsteps) (u64 (size - idx * ring_step_size size nsteps)).
Definition ring_step (buffer size root nsteps : Z) (step : Z) (old_node : graph_node_t) :
    B graph_node_t :=
  let left := (rank - 1 + nranks) mod nranks in
  let right := (rank + 1) mod nranks in
  if ((step =? 0) && (rank =? root)) || ((step =? nsteps) && (right =? root)) then
    (if step =? nsteps then graph_add_edge old_node GRAPH_END else mret tt) ;;
    mret old_node
  else
    next_node ← (if step =? nsteps then mret GRAPH_END else graph_add_node None) ;
    (if negb (step =? nsteps) && negb (rank =? root) then
       recv_node ← graph_add_node_op (OpRecv left (ring_buffer buffer size nsteps step)
                                             (ring_size size nsteps step)) ;
       graph_add_edge old_node recv_node ;;
       graph_add_edge recv_node next_node
     else mret tt) ;;
    (if negb (step =? 0) && negb (right =? root) then
       send_node ← graph_add_node_op (OpSend right (ring_buffer buffer size nsteps (step - 1))
                                             (ring_size size nsteps (step - 1))) ;
       graph_add_edge old_node send_node ;;
       graph_add_edge send_node next_node
     else mret tt) ;;
    mret next_node.
Fixpoint ring_steps (buffer size root nsteps : Z) (steps : list Z) (old_node : graph_node_t) : B unit :=
  match steps with
  | [] => mret tt
  | step :: steps =>
      old_node ← ring_step buffer size root nsteps step old_node ;
      ring_steps buffer size root nsteps steps old_node
  end.
Definition build_graph_ring (buffer size root nsteps : Z) : B unit :=
  if nsteps =? 0 then fail_with (Undefined "division by zero")
  else ring_steps buffer size root nsteps (Z.of_nat <$> seq 0 (Z.to_nat (nsteps + 1))) GRAPH_START.

Inductive broadcast_algorithm_t : Type := bcast_none | bcast_direct | bcast_tree | bcast_ring.
Definition choose_broadcast (algorithm : broadcast_algorithm_t) (size : Z) : broadcast_algorithm_t :=
  match algorithm with
  | bcast_none => if size <=? 65536 then if nranks <=? 8 then bcast_direct else bcast_tree else bcast_ring
  | _ => algorithm
  end.
Definition broadcast_x (buffer size root comp : Z) (algorithm : broadcast_algorithm_t)
    (ring_nsteps : Z) : result coll_plan :=
  if nranks =? 1 then Ok (single_rank comp)
  else plan comp
    match choose_broadcast algorithm size with
    | bcast_direct => build_graph_direct buffer size root
    | bcast_tree => build_graph_tree buffer size root
    | bcast_ring => build_graph_ring buffer size root ring_nsteps
    | bcast_none => fail_with (AssertFailed "Unsupported broadcast algorithm")
    end.

(** ** All to all *)

Definition alltoall_pair (sendbuf recvbuf size : Z) (i : nat) : B unit :=
  let i := Z.of_nat i in
  if i =? rank then mret tt
  else
    recv_node ← graph_add_node_op (OpRecv i (u64 (recvbuf + i * size)) size) ;
    send_node ← graph_add_node_op (OpSend i (u64 (sendbuf + i * size)) size) ;
    graph_add_edge GRAPH_START recv_node ;;
    graph_add_edge GRAPH_START send_node ;;
    graph_add_edge recv_node GRAPH_END ;;
    graph_add_edge send_node GRAPH_END.
(** The copy of the own part comes first. *)
Definition alltoall_self (sendbuf recvbuf size : Z) (m : memory) : memory :=
  memcpy (u64 (recvbuf + rank * size)) (u64 (sendbuf + rank * size)) size m.
Definition alltoall_x (sendbuf recvbuf size comp : Z) (m : memory) : result (memory * coll_plan) :=
  let m := alltoall_self sendbuf recvbuf size m in
  if nranks =? 1 then Ok (m, single_rank comp)
  else p ← plan comp (for_each (alltoall_pair sendbuf recvbuf size) (seq 0 (Z.to_nat nranks))) ;
       Ok (m, p).

(** ** All-reduce and reduce-scatter *)

(** One peer: its data goes to [p], a reduction follows the one before it. *)
Definition reduce_peer (send_node_to : graph_node_t) (recvbuf count item_size : Z)
    (send_buffer : Z -> Z) (i : nat) (s : graph_node_t * Z) : B (graph_node_t * Z) :=
  let '(prev_reduce_node, p) := s in
  let target := (Z.of_nat i + rank) mod nranks in
  send_node ← graph_add_node_op (OpSend target (send_buffer target) (u64 (count * item_size))) ;
  graph_add_edge GRAPH_START send_node ;;
  graph_add_edge send_node send_node_to ;;
  recv_node ← graph_add_node_op (OpRecv target p (u64 (count * item_size))) ;
  reduce_node ← graph_add_node (Some (OpReduce p recvbuf recvbuf count)) ;
  graph_add_edge GRAPH_START recv_node ;;
  graph_add_edge recv_node reduce_node ;;
  (if decide (prev_reduce_node = GRAPH_START) then mret tt
   else graph_add_edge prev_reduce_node reduce_node) ;;
  mret (reduce_node, u64 (p + count * item_size)).
(** [prev_reduce_node] is null, here [GRAPH_START], before the first peer. *)
Fixpoint reduce_peers (send_node_to : graph_node_t) (recvbuf count item_size : Z)
    (send_buffer : Z -> Z) (peers : list nat) (s : graph_node_t * Z) : B (graph_node_t * Z) :=
  match peers with
  | [] => mret s
  | i :: peers =>
      s ← reduce_peer send_node_to recvbuf count item_size send_buffer i s ;
      reduce_peers send_node_to recvbuf count item_size send_buffer peers s
  end.

(** [tmp_buffer] is what [malloc] returned. *)
Definition allreduce_graph (sendbuf recvbuf count item_size tmp_buffer : Z) : B unit :=
  let in_place := recvbuf =? sendbuf in
  let send_from := if in_place then tmp_buffer else sendbuf in
  let p := if in_place then u64 (tmp_buffer + count * item_size) else tmp_buffer in
  free_node ← graph_add_node (Some (OpFree tmp_buffer)) ;
  '(prev_reduce_node, _) ←
    reduce_peers free_node recvbuf count item_size (fun _ => send_from)
      (seq 1 (Z.to_nat (nranks - 1))) (GRAPH_START, p) ;
  graph_add_edge prev_reduce_node free_node ;;
  graph_add_edge free_node GRAPH_END.
Definition allreduce_tmp_size (sendbuf recvbuf count item_size : Z) : Z :=
  if recvbuf =? sendbuf then u64 (count * item_size * nranks) else u64 (count * item_size * (nranks - 1)).
Definition allreduce_copy (sendbuf recvbuf count item_size tmp_buffer : Z) (m : memory) : memory :=
  if recvbuf =? sendbuf then memcpy tmp_buffer sendbuf (u64 (count * item_size)) m
  else memcpy recvbuf sendbuf (u64 (count * item_size)) m.
Definition allreduce_x (sendbuf recvbuf count item_size comp tmp_buffer : Z) (m : memory) :
    result (memory * coll_plan) :=
  if nranks =? 1 then
    Ok (if recvbuf =? sendbuf then m else memcpy recvbuf sendbuf (u64 (item_size * count)) m,
        single_rank comp)
  else p ← plan comp (allreduce_graph sendbuf recvbuf count item_size tmp_buffer) ;
       Ok (allreduce_copy sendbuf recvbuf count item_size tmp_buffer m, p).

Definition reduce_scatter_graph (sendbuf recvbuf recvcount item_size tmp_buffer : Z) : B unit :=
  free_node ← graph_add_node (Some (OpFree tmp_buffer)) ;
  '(prev_reduce_node, _) ←
    reduce_peers GRAPH_END recvbuf recvcount item_size
      (fun target => u64 (sendbuf + target * recvcount * item_size))
      (seq 1 (Z.to_nat (nranks - 1))) (GRAPH_START, tmp_buffer) ;
  graph_add_edge prev_reduce_node free_node ;;
  graph_add_edge free_node GRAPH_END.
Definition reduce_scatter_copy (sendbuf recvbuf recvcount item_size : Z) (m : memory) : memory :=
  let own := u64 (sendbuf + rank * recvcount * item_size) in
  if recvbuf =? own then m else memcpy recvbuf own (u64 (recvcount * item_size)) m.
Definition reduce_scatter_x (sendbuf recvbuf recvcount item_size comp tmp_buffer : Z) (m : memory) :
    result (memory * coll_plan) :=
  if nranks =? 1 then
    Ok (if recvbuf =? sendbuf then m else memcpy recvbuf sendbuf (u64 (item_size * recvcount)) m,
        single_rank comp)
  else p ← plan comp (reduce_scatter_graph sendbuf recvbuf recvcount item_size tmp_buffer) ;
       Ok (reduce_scatter_copy sendbuf recvbuf recvcount item_size m, p).

(** ** All-gather: receives, then sends, each retried until accepted *)

Definition allgather_ops (sendbuf recvbuf size : Z) : list coll_op :=
  let peer i := (rank + Z.of_nat i) mod nranks in
  let peers := seq 1 (Z.to_nat (nranks - 1)) in
  ((fun i => OpRecv (peer i) (u64 (recvbuf + peer i * size)) size) <$> peers)
  ++ ((fun i => OpSend (peer i) sendbuf size) <$> peers).
Definition allgather_threshold : Z := 2 * nranks - 2.
Definition allgather_self (sendbuf recvbuf size : Z) (m : memory) : memory :=
  if nranks =? 1 then memcpy recvbuf sendbuf size m
  else memcpy (u64 (recvbuf + rank * size)) sendbuf size m.

(** ** Reduce: the broadcast tree replayed from the leaves *)

(** The actions of the rounds, first round first. *)
Fixpoint reduce_actions (fuel : nat) (t : tree_state) : result (list (option (bool * Z))) :=
  match fuel with
  | O => Err OutOfFuel
  | S fuel =>
      let a := tree_action t in
      let t := tree_update t in
      if tree_jump t =? 1 then Ok [a]
      else l ← reduce_actions fuel (tree_next t) ; Ok (a :: l)
  end.
Definition nchildren (actions : list (option (bool * Z))) : nat :=
  length (filter (fun a => from_option fst false a = true) actions).

(** The replay, last round first; it stops after the send. *)
Fixpoint reduce_replay (sendbuf tmp_buffer data_buffer count item_size : Z) (has_received : bool)
    (actions : list (option (bool * Z))) : list coll_op :=
  match actions with
  | [] => []
  | None :: actions => reduce_replay sendbuf tmp_buffer data_buffer count item_size has_received actions
  | Some (false, target) :: _ =>
      [OpSend target (if has_received then data_buffer else sendbuf) (u64 (item_size * count))]
  | Some (true, target) :: actions =>
      OpRecv target tmp_buffer (u64 (item_size * count))
      :: OpReduce tmp_buffer (if has_received then data_buffer else sendbuf) data_buffer count
      :: reduce_replay sendbuf tmp_buffer data_buffer count item_size true actions
  end.
(** [a1] and [a2] are what [malloc] would return; the flags say which are freed. *)
Definition reduce_buffers (sendbuf recvbuf root a1 a2 : Z) (n : nat) : Z * Z * bool * bool :=
  if rank =? root then
    if (n =? 1)%nat && negb (sendbuf =? recvbuf) then (recvbuf, recvbuf, false, false)
    else (a1, recvbuf, true, false)
  else if (n =? 1)%nat then (a1, a1, true, false)
  else (a1, a2, true, true).
Definition reduce_x (sendbuf recvbuf count item_size root a1 a2 : Z) (m : memory) :
    result (memory * list coll_op) :=
  if nranks =? 1 then
    Ok (if recvbuf =? sendbuf then m else memcpy recvbuf sendbuf (u64 (item_size * count)) m, [])
  else
    actions ← reduce_actions (Z.to_nat nranks) (tree_init root) ;
    let '(tmp_buffer, data_buffer, _, _) := reduce_buffers sendbuf recvbuf root a1 a2 (nchildren actions) in
    Ok (m, reduce_replay sendbuf tmp_buffer data_buffer count item_size false (rev actions)).
End Rank.
