(* ===== verification/World.v ===== *)
(** * Ranks running the graphs of a collective

    Every rank starts its graph when it enters the collective. A send that runs
    puts a message into flight, whose bytes are read from the buffer at some later
    time; a receive that runs is posted; a message whose bytes were read and a
    posted receive of its two ranks meet in any order, the bytes are stored in the
    receive's buffer, and the completions are signalled to the graphs at some later
    time. An operation that is done when it is posted is one that is signalled at
    once. *)
From stdpp Require Import base numbers functions list gmap strings relations.
From Stdlib Require Import ZArith Lia.
From S2P Require Import Prelude Status Memory Graph GraphRuns Collective.

(** Messages between ranks, from the send node [ms_node] of [ms_from]. *)
Record message : Type := mk_message {
  ms_from : Z; ms_node : graph_node_t; ms_to : Z; ms_buffer : Z; ms_size : Z;
  ms_data : option (list Z)
}.
Record receive : Type := mk_receive {
  rv_rank : Z; rv_node : graph_node_t; rv_from : Z; rv_buffer : Z; rv_size : Z
}.

(** What the functions of the nodes return; sends and receives are posted, not
    retried. *)
Definition coll_run (op : coll_op) (_ : Z) (u : unit) : status_t * unit :=
  (match op with
   | OpSend _ _ _ | OpRecv _ _ _ => set_posted status_init
   | _ => set_done status_init
   end, u).
Definition no_edge_fn (f : Empty_set) (_ : status_t) (_ _ : Z) (u : unit) : unit := u.
Definition no_free (_ : unit) (_ : Z) (u : unit) : unit := u.
Definition no_signal (_ : Z) (_ : status_t) (u : unit) : unit := u.

#[global] Abbreviation coll_config :=
  (gconfig (F := coll_op) (EF := Empty_set) (FC := unit) (U := unit)).
#[global] Abbreviation coll_act := (act coll_run no_edge_fn no_free no_signal).

(** [w_got] records which send each receive got its bytes from. *)
Record world : Type := mk_world {
  w_conf : Z -> option coll_config;
  w_mem : Z -> memory;
  w_msgs : list message;
  w_recvs : list receive;
  w_ready : list (Z * graph_node_t);
  w_got : list (receive * message)
}.

Lemma coll_no_retry f v u : is_retry (st_error (coll_run f v u).1) = false.
Proof. by destruct f. Qed.

(** A node about to run has not run. *)
Lemma ginv_running (g0 : coll_graph) m (c : coll_config) x :
  ginv g0 m c -> ARun x ∈ c_acts c ->
  x ∈ all_nodes g0 /\ (EvRun x ∉ c_log c)
  /\ exists g n k, gs_graph (c_state c) = Some g /\ the_node g0 x = Some n
       /\ the_node g x = Some (set_received k n).
Proof.
  unfold ginv. intros I Hx. destruct (gs_graph (c_state c)) as [g|].
  - destruct I as (wt & d & L & _).
    assert (Hr : x ∈ running (c_acts c)) by (apply list_elem_of_omap; by exists (ARun x)).
    pose proof (lv_runs _ _ _ _ _ _ _ L) as HP.
    assert (Hn : x ∈ all_nodes g0) by (rewrite <- HP; set_solver).
    split_and!; [done| |].
    + rewrite <- elem_of_ran. pose proof (all_nodes_nodup g0) as [_ Hnd]%NoDup_cons.
      rewrite <- HP in Hnd. apply NoDup_app in Hnd as (_ & Hd & _). intros Hran. apply (Hd _ Hran). set_solver.
    + destruct (proj1 (the_node_all g0 x)) as [n Hn']; [by right|].
      destruct (ss_nodes _ _ (lv_shape _ _ _ _ _ _ _ L) x n Hn') as [k Hk]. by exists g, n, k.
  - destruct I as [[D _ _ _ _ _ _] _]. rewrite Forall_forall in D. by destruct (D _ Hx) as (? & ? & ? & ?).
Qed.
Lemma ginv_posted (g0 : coll_graph) m (c : coll_config) : ginv g0 m c -> NoDup (c_posted c).
Proof.
  unfold ginv. intros I. destruct (gs_graph (c_state c)) as [g|].
  - destruct I as (wt & d & L & _). pose proof (all_nodes_nodup g0) as Hnd.
    rewrite <- (lv_part _ _ _ _ _ _ _ L) in Hnd. apply NoDup_app in Hnd as (_ & _ & Hnd).
    by apply NoDup_app in Hnd as (? & _).
  - destruct I as [[_ D _ _ _ _ _] _]. rewrite D. constructor.
Qed.

Section World.
Variable nranks : Z.
Variable graphs : Z -> coll_graph.
(** [op(left, right, dst, count)] of the user. *)
Variable reduce_op : Z -> Z -> Z -> Z -> memory -> memory.

Definition op_of (r : Z) (x : graph_node_t) : option coll_op :=
  match x with Node i => nodes (graphs r) !! i ≫= fn | _ => None end.

Definition set_conf (r : Z) (c : coll_config) (w : world) : world :=
  mk_world (<[r := Some c]> (w_conf w)) (w_mem w) (w_msgs w) (w_recvs w) (w_ready w) (w_got w).

(** What the function of node [x] of rank [r] does outside the graph. *)
Definition effect (r : Z) (x : graph_node_t) (w : world) : world :=
  match op_of r x with
  | Some (OpSend d b n) =>
      mk_world (w_conf w) (w_mem w) (w_msgs w ++ [mk_message r x d b n None]) (w_recvs w) (w_ready w) (w_got w)
  | Some (OpRecv q b n) =>
      mk_world (w_conf w) (w_mem w) (w_msgs w) (w_recvs w ++ [mk_receive r x q b n]) (w_ready w) (w_got w)
  | Some (OpReduce l r' d n) =>
      mk_world (w_conf w) (<[r := reduce_op l r' d n (w_mem w r)]> (w_mem w)) (w_msgs w) (w_recvs w) (w_ready w) (w_got w)
  | _ => w
  end.
Definition effects (r : Z) (a : activity (EF := Empty_set)) (w : world) : world :=
  match a with ARun x => effect r x w | _ => w end.

Definition with_data (m : message) (d : list Z) : message :=
  mk_message (ms_from m) (ms_node m) (ms_to m) (ms_buffer m) (ms_size m) (Some d).

Inductive wstep : world -> world -> Prop :=
  | ws_enter w r :
      0 <= r < nranks -> w_conf w r = None ->
      wstep w (set_conf r (starts (graphs r) tt) w)
  | ws_act w r l1 a l2 posted s log new p s' :
      w_conf w r = Some (mk_gconfig (l1 ++ a :: l2) posted s log) ->
      coll_act a s = Ok ((new, p), s') ->
      wstep w (set_conf r (mk_gconfig (l1 ++ new ++ l2) (p ++ posted) s' (logs a ++ log)) (effects r a w))
  | ws_read conf mem m1 m m2 recvs ready got :
      ms_data m = None ->
      wstep (mk_world conf mem (m1 ++ m :: m2) recvs ready got)
            (mk_world conf mem
               (m1 ++ with_data m (load_bytes (mem (ms_from m)) (ms_buffer m) (ms_size m)) :: m2)
               recvs ((ms_from m, ms_node m) :: ready) got)
  | ws_deliver conf mem m1 m m2 r1 v r2 ready got d :
      ms_data m = Some d -> rv_rank v = ms_to m -> rv_from v = ms_from m ->
      wstep (mk_world conf mem (m1 ++ m :: m2) (r1 ++ v :: r2) ready got)
            (mk_world conf (<[rv_rank v := store_bytes (rv_buffer v) d (mem (rv_rank v))]> mem)
               (m1 ++ m2) (r1 ++ r2) ((rv_rank v, rv_node v) :: ready) ((v, m) :: got))
  | ws_signal conf mem msgs recvs q1 r x q2 got acts p1 p2 s log status :
      conf r = Some (mk_gconfig acts (p1 ++ x :: p2) s log) ->
      wstep (mk_world conf mem msgs recvs (q1 ++ (r, x) :: q2) got)
            (set_conf r (mk_gconfig (AMark x status :: acts) (p1 ++ p2) s log)
               (mk_world conf mem msgs recvs (q1 ++ q2) got)).

Definition world_init (mem : Z -> memory) : world := mk_world (fun _ => None) mem [] [] [] [].

(** ** The invariant *)

Definition is_send (r : Z) (x : graph_node_t) : Prop := exists d b n, op_of r x = Some (OpSend d b n).
Definition is_recv (r : Z) (x : graph_node_t) : Prop := exists q b n, op_of r x = Some (OpRecv q b n).

Definition ran_at (w : world) (r : Z) (x : graph_node_t) : Prop :=
  exists c, w_conf w r = Some c /\ EvRun x ∈ c_log c.
Definition marked_at (w : world) (r : Z) (x : graph_node_t) : Prop :=
  exists c, w_conf w r = Some c /\ EvMark x ∈ c_log c.
Definition entered (w : world) (r : Z) : Prop := w_conf w r <> None.

Definition a_send (m : message) : Prop := op_of (ms_from m) (ms_node m) = Some (OpSend (ms_to m) (ms_buffer m) (ms_size m)).
Definition a_recv (v : receive) : Prop := op_of (rv_rank v) (rv_node v) = Some (OpRecv (rv_from v) (rv_buffer v) (rv_size v)).

(** What is signalled or was. *)
Definition over_at (w : world) (r : Z) (x : graph_node_t) : Prop :=
  (r, x) ∈ w_ready w
  \/ exists c, w_conf w r = Some c /\ (EvMark x ∈ c_log c \/ exists st, AMark x st ∈ c_acts c).

Record winv (w : world) : Prop := mk_winv {
  wi_ranks : forall r, entered w r -> 0 <= r < nranks;
  wi_conf : forall r c, w_conf w r = Some c -> exists m, ginv (graphs r) m c;
  wi_msgs : forall m, m ∈ w_msgs w ++ (snd <$> w_got w) -> a_send m /\ ran_at w (ms_from m) (ms_node m);
  wi_recvs : forall v, v ∈ w_recvs w ++ (fst <$> w_got w) -> a_recv v /\ ran_at w (rv_rank v) (rv_node v);
  wi_met : forall v m, (v, m) ∈ w_got w -> ms_to m = rv_rank v /\ ms_from m = rv_from v;
  wi_sent : forall r x, ran_at w r x -> is_send r x ->
    exists m, m ∈ w_msgs w ++ (snd <$> w_got w) /\ ms_from m = r /\ ms_node m = x;
  wi_received : forall r x, ran_at w r x -> is_recv r x ->
    exists v, v ∈ w_recvs w ++ (fst <$> w_got w) /\ rv_rank v = r /\ rv_node v = x;
  wi_over_recv : forall r x, over_at w r x -> is_recv r x ->
    exists v, v ∈ (fst <$> w_got w) /\ rv_rank v = r /\ rv_node v = x;
  wi_nodup_msgs : NoDup ((fun m => (ms_from m, ms_node m)) <$> (w_msgs w ++ (snd <$> w_got w)));
  wi_nodup_recvs : NoDup ((fun v => (rv_rank v, rv_node v)) <$> (w_recvs w ++ (fst <$> w_got w)));
  wi_posted : forall r c x, w_conf w r = Some c -> x ∈ c_posted c ->
    (r, x) ∈ w_ready w \/ (exists m, m ∈ w_msgs w /\ ms_from m = r /\ ms_node m = x /\ ms_data m = None)
    \/ (exists v, v ∈ w_recvs w /\ rv_rank v = r /\ rv_node v = x)
}.

Hypothesis wf : forall r, 0 <= r < nranks -> well_formed (graphs r).


Lemma op_of_node r x n : x ∈ all_nodes (graphs r) -> the_node (graphs r) x = Some n -> op_of r x = fn n.
Proof.
  intros Hx Hn. destruct x as [| |i]; [by apply start_not_node in Hx|done|]. simpl in *. by rewrite Hn.
Qed.

(** The operation of a node decides whether it is posted. *)
Definition posts (r : Z) (x : graph_node_t) : Prop := is_send r x \/ is_recv r x.
Lemma run_posts r m (c : coll_config) x new p s' :
  ginv (graphs r) m c -> ARun x ∈ c_acts c -> coll_act (ARun x) (c_state c) = Ok ((new, p), s') ->
  (posts r x /\ new = [] /\ p = [x]) \/ (~ posts r x /\ p = [] /\ exists st, new = [AMark x st]).
Proof.
  intros I Hx Ha. destruct (ginv_running _ _ _ _ I Hx) as (Hn & _ & g & n & k & Hg & H0 & Hk).
  pose proof (op_of_node _ _ _ Hn H0) as Hop.
  cbn [act] in Ha. destruct (run_node_eq coll_run x (c_state c) g _ Hg Hk) as (status & u & Hrun & Hst).
  rewrite (st_bind_eq _ _ _ _ _ Hrun) in Ha. simpl in Hst. unfold posts, is_send, is_recv.
  rewrite Hop. destruct (fn n) as [[]|]; subst status; cbn in Ha; injection Ha as <- <- <-; naive_solver.
Qed.

Lemma step_marks a (s : gstate) new p s' x st :
  coll_act a s = Ok ((new, p), s') -> AMark x st ∈ new -> a = ARun x.
Proof.
  destruct a as [y|y st'|y st' v [|e rest] b]; cbn [act]; intros (? & ? & ? & Ha)%st_bind_Ok Hin.
  - destruct (is_done _); [injection Ha as <- <- <-|apply st_bind_Ok in Ha as (? & ? & _ & Ha); injection Ha as <- <- <-].
    + by apply list_elem_of_singleton in Hin as [= <- _].
    + by apply elem_of_nil in Hin.
  - injection Ha as <- <- <-. by apply list_elem_of_singleton in Hin.
  - injection Ha as <- <- <-. by apply elem_of_nil in Hin.
  - injection Ha as <- <- <-. destruct x0; set_solver.
Qed.

(** *** The invariant is kept *)

Definition new_msgs (r : Z) (a : activity (EF := Empty_set)) : list message :=
  match a with
  | ARun x => match op_of r x with Some (OpSend d b n) => [mk_message r x d b n None] | _ => [] end
  | _ => []
  end.
Definition new_recvs (r : Z) (a : activity (EF := Empty_set)) : list receive :=
  match a with
  | ARun x => match op_of r x with Some (OpRecv q b n) => [mk_receive r x q b n] | _ => [] end
  | _ => []
  end.
Lemma effects_eq r a w : exists mem,
  effects r a w
  = mk_world (w_conf w) mem (w_msgs w ++ new_msgs r a) (w_recvs w ++ new_recvs r a) (w_ready w) (w_got w).
Proof.
  destruct w as [cf mm ms rs rd gt]. destruct a as [x| |]; cbn;
    [|eexists; by rewrite !app_nil_r..].
  unfold effect. destruct (op_of r x) as [[]|]; eexists; cbn; by rewrite ?app_nil_r.
Qed.
Lemma new_msgs_in r a m :
  m ∈ new_msgs r a -> a = ARun (ms_node m) /\ ms_from m = r /\ a_send m /\ ms_data m = None.
Proof.
  destruct a as [x| |]; cbn; [|by intros ?%elem_of_nil..].
  destruct (op_of r x) as [[]|] eqn:E; cbn; try by intros ?%elem_of_nil.
  by intros ->%list_elem_of_singleton.
Qed.
Lemma new_recvs_in r a v :
  v ∈ new_recvs r a -> a = ARun (rv_node v) /\ rv_rank v = r /\ a_recv v.
Proof.
  destruct a as [x| |]; cbn; [|by intros ?%elem_of_nil..].
  destruct (op_of r x) as [[]|] eqn:E; cbn; try by intros ?%elem_of_nil.
  by intros ->%list_elem_of_singleton.
Qed.

Lemma logs_run (a : activity (EF := Empty_set)) x : EvRun x ∈ logs a -> a = ARun x.
Proof. destruct a as [y|y st|y st v [] []]; cbn; set_solver. Qed.
Lemma logs_mark (a : activity (EF := Empty_set)) x : EvMark x ∈ logs a -> exists st, a = AMark x st.
Proof. destruct a as [y|y st|y st v [] []]; cbn; set_solver. Qed.

Lemma ran_at_conf w w' r r' c' x :
  w_conf w' = <[r := Some c']> (w_conf w) ->
  ran_at w' r' x <-> if decide (r' = r) then EvRun x ∈ c_log c' else ran_at w r' x.
Proof.
  unfold ran_at. intros ->. destruct (decide (r' = r)) as [->|Hne].
  - rewrite fn_lookup_insert. naive_solver.
  - by rewrite fn_lookup_insert_ne.
Qed.
Lemma conf_insert w w' r r' (c c' : coll_config) :
  w_conf w' = <[r := Some c]> (w_conf w) -> w_conf w' r' = Some c' ->
  (r' = r /\ c' = c) \/ (r' <> r /\ w_conf w r' = Some c').
Proof.
  intros ->. destruct (decide (r' = r)) as [->|Hne].
  - rewrite fn_lookup_insert. intros [= ->]. by left.
  - rewrite fn_lookup_insert_ne by done. by right.
Qed.

Lemma winv_init mem : winv (world_init mem).
Proof.
  split; unfold entered, ran_at, over_at; cbn; try naive_solver; try (by intros ? ?%elem_of_nil).
  - by intros ? ? ?%elem_of_nil.
  - intros r x [?%elem_of_nil|(? & ? & _)]; done.
  - constructor.
  - constructor.
Qed.

(** An activity of rank [r] acts. *)
Section Act.
Context (w : world) (r : Z) (l1 l2 : list (activity (EF := Empty_set))) (a : activity (EF := Empty_set)).
Context (posted : list graph_node_t) (s s' : gstate (F := coll_op) (EF := Empty_set) (FC := unit) (U := unit)).
Context (log : list event) (new : list (activity (EF := Empty_set))) (p : list graph_node_t).
#[local] Abbreviation old_conf := (mk_gconfig (l1 ++ a :: l2) posted s log).
#[local] Abbreviation new_conf := (mk_gconfig (l1 ++ new ++ l2) (p ++ posted) s' (logs a ++ log)).
#[local] Abbreviation w' := (set_conf r new_conf (effects r a w)).
Hypothesis W : winv w.
Hypothesis Hc : w_conf w r = Some old_conf.
Hypothesis Ha : coll_act a s = Ok ((new, p), s').

Lemma act_ginv : (exists m, ginv (graphs r) m old_conf) /\ exists m, ginv (graphs r) m new_conf.
Proof.
  destruct (wi_conf _ W _ _ Hc) as [m I].
  assert (Hr : 0 <= r < nranks) by (apply (wi_ranks _ W); unfold entered; by rewrite Hc).
  pose proof (ginv_acts coll_run no_edge_fn no_free no_signal _ (wf r Hr) coll_no_retry _ _ a l1 l2 I eq_refl)
    as (new' & p' & s'' & m' & Ha' & I' & _).
  cbn [c_state c_posted c_log] in Ha', I'. rewrite Ha in Ha'. injection Ha' as <- <- <-. eauto.
Qed.
Lemma act_conf : w_conf w' = <[r := Some new_conf]> (w_conf w).
Proof. destruct (effects_eq r a w) as [mem ->]. done. Qed.
Lemma act_msgs : w_msgs w' = w_msgs w ++ new_msgs r a.
Proof. destruct (effects_eq r a w) as [mem ->]. done. Qed.
Lemma act_recvs : w_recvs w' = w_recvs w ++ new_recvs r a.
Proof. destruct (effects_eq r a w) as [mem ->]. done. Qed.
Lemma act_got : w_got w' = w_got w.
Proof. destruct (effects_eq r a w) as [mem ->]. done. Qed.
Lemma act_ready : w_ready w' = w_ready w.
Proof. destruct (effects_eq r a w) as [mem ->]. done. Qed.

Lemma act_ran_at r' x : ran_at w' r' x <-> ran_at w r' x \/ (r' = r /\ a = ARun x).
Proof.
  rewrite (ran_at_conf w w' _ _ _ _ act_conf). destruct (decide (r' = r)) as [->|]; [|naive_solver].
  cbn. unfold ran_at. rewrite Hc, elem_of_app. split.
  - intros [Hx%logs_run|Hx]; [by right|left]. by eexists.
  - intros [(? & [= <-] & Hx)|[_ ->]]; [by right|left]. by left.
Qed.
Lemma act_fresh x : a = ARun x -> ~ ran_at w r x.
Proof.
  intros E. destruct act_ginv as [[m I] _]. unfold ran_at. rewrite Hc. intros (? & [= <-] & Hx). revert Hx.
  apply (ginv_running _ _ _ x I). rewrite E. cbn. set_solver.
Qed.

Lemma act_over_recv r' x : over_at w' r' x -> is_recv r' x -> over_at w r' x.
Proof.
  intros [Ho|(c2 & Hc2 & Ho)] Hs; [left; by rewrite <- act_ready|right].
  apply (conf_insert w w' _ _ _ _ act_conf) in Hc2 as [[-> ->]|[_ Hc2]]; [|by eexists].
  eexists. split; [exact Hc|]. cbn in *. destruct Ho as [[[st ->]%logs_mark|Ho]%elem_of_app|(st & Ho)].
  - right. exists st. set_solver.
  - by left.
  - rewrite !elem_of_app in Ho. destruct Ho as [Ho|[Ho|Ho]]; [right; exists st; set_solver| |right; exists st; set_solver].
    pose proof (step_marks _ _ _ _ _ _ _ Ha Ho) as Ea. destruct act_ginv as [[m I] _]. revert Ha. rewrite Ea. intros Ha'.
    destruct (run_posts r m _ x new p s' I) as [(_ & -> & _)|[Hn _]]; [rewrite Ea; cbn; set_solver|exact Ha'|by apply elem_of_nil in Ho|].
    destruct Hn. by right.
Qed.

Lemma act_nodup_msgs :
  NoDup ((fun m => (ms_from m, ms_node m)) <$> (w_msgs w' ++ (snd <$> w_got w'))).
Proof.
  rewrite act_msgs, act_got, <- app_assoc, (Permutation_app_comm (new_msgs r a)), app_assoc, fmap_app.
  apply NoDup_app. split_and!; [apply W| |].
  - intros [r' x] (m & [= -> ->] & Hm)%list_elem_of_fmap (m' & [= E1 E2] & Hm')%list_elem_of_fmap.
    apply new_msgs_in in Hm' as (Ea & Er & _). destruct (wi_msgs _ W m Hm) as [_ Hx].
    rewrite E1, Er, E2 in Hx. by apply (act_fresh _ Ea).
  - unfold new_msgs. destruct a as [x| |]; cbn; [|constructor..].
    destruct (op_of r x) as [[]|]; cbn; try constructor; [|constructor]. by intros ?%elem_of_nil.
Qed.
Lemma act_nodup :
  NoDup ((fun v => (rv_rank v, rv_node v)) <$> (w_recvs w' ++ (fst <$> w_got w'))).
Proof.
  rewrite act_recvs, act_got, <- app_assoc, (Permutation_app_comm (new_recvs r a)), app_assoc, fmap_app.
  apply NoDup_app. split_and!; [apply W| |].
  - intros [r' x] (v & [= -> ->] & Hv)%list_elem_of_fmap (v' & [= E1 E2] & Hv')%list_elem_of_fmap.
    apply new_recvs_in in Hv' as (Ea & Er & _). destruct (wi_recvs _ W v Hv) as [_ Hx].
    rewrite E1, Er, E2 in Hx. by apply (act_fresh _ Ea).
  - unfold new_recvs. destruct a as [x| |]; cbn; [|constructor..].
    destruct (op_of r x) as [[]|]; cbn; try constructor; [|constructor]. by intros ?%elem_of_nil.
Qed.

Lemma act_new_posted x :
  x ∈ p -> (exists m, m ∈ new_msgs r a /\ ms_from m = r /\ ms_node m = x /\ ms_data m = None)
    \/ exists v, v ∈ new_recvs r a /\ rv_rank v = r /\ rv_node v = x.
Proof.
  intros Hx. destruct act_ginv as [[m I] _]. assert (Hact : a ∈ c_acts old_conf) by (cbn; set_solver).
  destruct a as [y|y st|y st v [|e rest] b].
  - destruct (run_posts r m _ y new p s' I Hact Ha) as [(Hp & _ & ->)|(_ & -> & _)]; [|by apply elem_of_nil in Hx].
    apply list_elem_of_singleton in Hx as ->. unfold new_msgs, new_recvs.
    destruct Hp as [(d & b & n & Hp)|(d & b & n & Hp)]; rewrite Hp; [left|right]; (eexists; split; [by left|done]).
  - cbn [act] in Ha. apply st_bind_Ok in Ha as (? & ? & _ & [= <- <- <-]). by apply elem_of_nil in Hx.
  - cbn [act] in Ha. apply st_bind_Ok in Ha as (? & ? & _ & [= <- <- <-]). by apply elem_of_nil in Hx.
  - cbn [act] in Ha. apply st_bind_Ok in Ha as (? & ? & _ & [= <- <- <-]). by apply elem_of_nil in Hx.
Qed.

Lemma act_posted r' c x : w_conf w' r' = Some c -> x ∈ c_posted c ->
  (r', x) ∈ w_ready w' \/ (exists m, m ∈ w_msgs w' /\ ms_from m = r' /\ ms_node m = x /\ ms_data m = None)
  \/ (exists v, v ∈ w_recvs w' /\ rv_rank v = r' /\ rv_node v = x).
Proof.
  rewrite act_ready, act_msgs, act_recvs. setoid_rewrite elem_of_app.
  intros [[-> ->]|[_ Hc2]]%(conf_insert w w' _ _ _ _ act_conf) Hx.
  - cbn in Hx. apply elem_of_app in Hx as [Hx%act_new_posted|Hx]; [naive_solver|].
    destruct (wi_posted _ W r _ x Hc Hx) as [?|[(m0 & ? & ?)|(v & ? & ?)]]; naive_solver.
  - destruct (wi_posted _ W r' _ x Hc2 Hx) as [?|[(m0 & ? & ?)|(v & ? & ?)]]; naive_solver.
Qed.

Lemma winv_act : winv w'.
Proof.
  split.
  - intros r' He. apply (wi_ranks _ W). unfold entered in *. rewrite act_conf in He.
    destruct (decide (r' = r)) as [->|Hne]; [by rewrite Hc|]. by rewrite fn_lookup_insert_ne in He.
  - intros r' c2 [[-> ->]|[_ Hc2]]%(conf_insert w w' _ _ _ _ act_conf); [apply act_ginv|by apply (wi_conf _ W)].
  - intros m. rewrite act_msgs, act_got, act_ran_at, !elem_of_app. intros [[Hm|Hm]|Hm].
    + destruct (wi_msgs _ W m) as [? ?]; [set_solver|]. naive_solver.
    + apply new_msgs_in in Hm as (E & <- & ? & _). naive_solver.
    + destruct (wi_msgs _ W m) as [? ?]; [set_solver|]. naive_solver.
  - intros v. rewrite act_recvs, act_got, act_ran_at, !elem_of_app. intros [[Hm|Hm]|Hm].
    + destruct (wi_recvs _ W v) as [? ?]; [set_solver|]. naive_solver.
    + apply new_recvs_in in Hm as (E & <- & ?). naive_solver.
    + destruct (wi_recvs _ W v) as [? ?]; [set_solver|]. naive_solver.
  - rewrite act_got. apply W.
  - intros r' x Hx Hs. rewrite act_msgs, act_got. apply act_ran_at in Hx as [Hx|[-> Ea]].
    + destruct (wi_sent _ W r' x Hx Hs) as (m & Hm & ?). exists m. split; [set_solver|done].
    + destruct Hs as (d & b & n & Hs). exists (mk_message r x d b n None). rewrite Ea. cbn. rewrite Hs. set_solver.
  - intros r' x Hx Hs. rewrite act_recvs, act_got. apply act_ran_at in Hx as [Hx|[-> Ea]].
    + destruct (wi_received _ W r' x Hx Hs) as (m & Hm & ?). exists m. split; [set_solver|done].
    + destruct Hs as (d & b & n & Hs). exists (mk_receive r x d b n). rewrite Ea. cbn. rewrite Hs. set_solver.
  - intros r' x Ho Hs. rewrite act_got. apply (wi_over_recv _ W); [by apply act_over_recv|done].
  - exact act_nodup_msgs.
  - exact act_nodup.
  - exact act_posted.
Qed.
End Act.

Lemma winv_enter w r :
  winv w -> 0 <= r < nranks -> w_conf w r = None -> winv (set_conf r (starts (graphs r) tt) w).
Proof.
  intros W Hr Hc. set (w' := set_conf _ _ w).
  assert (Hw : w_conf w' = <[r := Some (starts (graphs r) tt)]> (w_conf w)) by done.
  assert (Hran : forall r' x, ran_at w' r' x <-> ran_at w r' x).
  { intros r' x. rewrite (ran_at_conf w w' _ _ _ _ Hw). destruct (decide (r' = r)) as [->|]; [|done].
    unfold ran_at. rewrite Hc. cbn. split; [by intros ?%elem_of_nil|naive_solver]. }
  split.
  - intros r' He. destruct (decide (r' = r)) as [->|Hne]; [done|]. apply (wi_ranks _ W).
    unfold entered in *. by rewrite Hw, fn_lookup_insert_ne in He.
  - intros r' c2 [[-> ->]|[_ Hc2]]%(conf_insert w w' _ _ _ _ Hw); [|by apply (wi_conf _ W)].
    eexists. apply live_starts. by apply wf.
  - intros m. rewrite Hran. apply W.
  - intros m. rewrite Hran. apply W.
  - apply W.
  - intros r' x. rewrite Hran. apply W.
  - intros r' x. rewrite Hran. apply W.
  - intros r' x Ho Hs. apply (wi_over_recv _ W); [|done]. destruct Ho as [Ho|(c2 & Hc2 & Ho)]; [by left|right].
    apply (conf_insert w w' _ _ _ _ Hw) in Hc2 as [[-> ->]|[_ Hc2]]; [|by eexists].
    exfalso. destruct Ho as [?%elem_of_nil|[st Ho%list_elem_of_singleton]]; [done|]. injection Ho as -> _.
    by destruct Hs as (? & ? & ? & ?).
  - apply W.
  - apply W.
  - intros r' c2 x [[-> ->]|[_ Hc2]]%(conf_insert w w' _ _ _ _ Hw) Hx; [by apply elem_of_nil in Hx|].
    by apply (wi_posted _ W r' _ x Hc2 Hx).
Qed.
Lemma winv_read conf mem m1 m m2 recvs ready got d :
  winv (mk_world conf mem (m1 ++ m :: m2) recvs ready got) ->
  winv (mk_world conf mem (m1 ++ with_data m d :: m2) recvs ((ms_from m, ms_node m) :: ready) got).
Proof.
  intros W. pose proof (wi_msgs _ W m ltac:(cbn; set_solver)) as [Hm Hran]. split; try apply W.
  - intros m' Hm'. cbn in Hm'. rewrite !elem_of_app, elem_of_cons in Hm'. destruct Hm' as [[?|[->|?]]|?].
    + apply (wi_msgs _ W m'). cbn. set_solver.
    + by split.
    + apply (wi_msgs _ W m'). cbn. set_solver.
    + apply (wi_msgs _ W m'). cbn. set_solver.
  - intros r x Hx Hs. destruct (wi_sent _ W r x Hx Hs) as (m' & Hm' & E1 & E2). cbn in Hm'.
    rewrite !elem_of_app, elem_of_cons in Hm'. destruct Hm' as [[?|[->|?]]|?]; [| |by exists m'; cbn; set_solver..].
    + exists m'. cbn. set_solver.
    + exists (with_data m d). cbn. set_solver.
  - intros r x [[[= -> ->]|Ho]%elem_of_cons|Ho] Hs.
    + destruct Hs as (? & ? & ? & Hs). unfold a_send in Hm. by rewrite Hs in Hm.
    + apply (wi_over_recv _ W); [by left|done].
    + apply (wi_over_recv _ W); [by right|done].
  - pose proof (wi_nodup_msgs _ W) as Hnd. cbn in *. by rewrite !fmap_app, fmap_cons in *.
  - intros r c x Hc Hx. destruct (wi_posted _ W r c x Hc Hx) as [?|[(m' & Hm' & E1 & E2 & E3)|?]].
    + left. cbn in *. set_solver.
    + cbn in Hm'. apply elem_of_app in Hm' as [Hm'|[->|Hm']%elem_of_cons].
      * right. left. exists m'. cbn. set_solver.
      * left. cbn. rewrite E1, E2. by left.
      * right. left. exists m'. cbn. set_solver.
    + by right; right.
Qed.

Lemma winv_deliver conf mem mem' m1 m m2 r1 v r2 ready got d :
  ms_data m = Some d -> rv_rank v = ms_to m -> rv_from v = ms_from m ->
  winv (mk_world conf mem (m1 ++ m :: m2) (r1 ++ v :: r2) ready got) ->
  winv (mk_world conf mem' (m1 ++ m2) (r1 ++ r2) ((rv_rank v, rv_node v) :: ready) ((v, m) :: got)).
Proof.
  intros Hd H1 H2 W.
  assert (HM : (m1 ++ m2) ++ (snd <$> (v, m) :: got) ≡ₚ (m1 ++ m :: m2) ++ (snd <$> got)).
  { rewrite fmap_cons. solve_Permutation. }
  assert (HR : (r1 ++ r2) ++ (fst <$> (v, m) :: got) ≡ₚ (r1 ++ v :: r2) ++ (fst <$> got)).
  { rewrite fmap_cons. solve_Permutation. }
  split; try apply W.
  - intros m' Hm'. cbn [w_msgs w_got] in Hm'. rewrite HM in Hm'. by apply (wi_msgs _ W m').
  - intros v' Hv'. cbn [w_recvs w_got] in Hv'. rewrite HR in Hv'. by apply (wi_recvs _ W v').
  - intros v' m' [[= -> ->]|Hg]%elem_of_cons; [done|by apply (wi_met _ W)].
  - intros r x Hx Hs. destruct (wi_sent _ W r x Hx Hs) as (m' & Hm' & E). exists m'.
    cbn [w_msgs w_got]. by rewrite HM.
  - intros r x Hx Hs. destruct (wi_received _ W r x Hx Hs) as (v' & Hv' & E). exists v'.
    cbn [w_recvs w_got]. by rewrite HR.
  - intros r x Ho Hs. cbn [w_got]. rewrite fmap_cons. cbn [fst].
    assert ((r, x) = (rv_rank v, rv_node v) \/ over_at (mk_world conf mem (m1 ++ m :: m2) (r1 ++ v :: r2) ready got) r x)
      as [[= -> ->]|Ho'].
    { destruct Ho as [[E|Ho]%elem_of_cons|Ho]; [by left|right; by left|right; by right]. }
    + exists v. split; [by left|done].
    + destruct (wi_over_recv _ W r x Ho' Hs) as (v' & Hv' & E). exists v'. split; [by right|done].
  - cbn [w_msgs w_got]. rewrite HM. apply W.
  - cbn [w_recvs w_got]. rewrite HR. apply W.
  - intros r c x Hc Hx. destruct (wi_posted _ W r c x Hc Hx) as [?|[(m' & Hm' & E1 & E2 & E3)|(v' & Hv' & E1 & E2)]].
    + left. cbn in *. set_solver.
    + right. left. exists m'. cbn in *. split; [|done]. assert (m' <> m) by congruence. set_solver.
    + cbn in Hv'. apply elem_of_app in Hv' as [Hv'|[->|Hv']%elem_of_cons].
      * right. right. exists v'. cbn. set_solver.
      * left. cbn. rewrite E1, E2. by left.
      * right. right. exists v'. cbn. set_solver.
Qed.

Lemma winv_signal conf mem msgs recvs q1 r x q2 got acts p1 p2 s log status :
  conf r = Some (mk_gconfig acts (p1 ++ x :: p2) s log) ->
  winv (mk_world conf mem msgs recvs (q1 ++ (r, x) :: q2) got) ->
  winv (set_conf r (mk_gconfig (AMark x status :: acts) (p1 ++ p2) s log)
          (mk_world conf mem msgs recvs (q1 ++ q2) got)).
Proof.
  intros Hc W. set (w := mk_world _ _ _ _ (q1 ++ _ :: q2) _) in *. set (w' := set_conf _ _ _).
  assert (Hw : w_conf w' = <[r := Some (mk_gconfig (AMark x status :: acts) (p1 ++ p2) s log)]> (w_conf w)) by done.
  assert (Hran : forall r' y, ran_at w' r' y <-> ran_at w r' y).
  { intros r' y. rewrite (ran_at_conf w w' _ _ _ _ Hw). destruct (decide (r' = r)) as [->|]; [|done].
    unfold ran_at. cbn [w_conf w]. rewrite Hc. naive_solver. }
  destruct (wi_conf _ W r _ Hc) as [m I].
  assert (Hr : 0 <= r < nranks) by (apply (wi_ranks _ W); unfold entered; cbn [w_conf w]; by rewrite Hc).
  split.
  - intros r' He. destruct (decide (r' = r)) as [->|Hne]; [done|]. apply (wi_ranks _ W).
    unfold entered in *. by rewrite Hw, fn_lookup_insert_ne in He.
  - intros r' c2 [[-> ->]|[_ Hc2]]%(conf_insert w w' _ _ _ _ Hw); [|by apply (wi_conf _ W)].
    destruct (ginv_signal coll_run no_signal (graphs r) (wf r Hr) coll_no_retry _ _ _ _ _ _ _ status I) as (m' & I' & _). eauto.
  - intros m'. rewrite Hran. apply W.
  - intros m'. rewrite Hran. apply W.
  - apply W.
  - intros r' y. rewrite Hran. apply W.
  - intros r' y. rewrite Hran. apply W.
  - intros r' y Ho Hs. apply (wi_over_recv _ W); [|done].
    destruct Ho as [Ho|(c2 & Hc2 & Ho)]; [left; cbn in *; set_solver|].
    apply (conf_insert w w' _ _ _ _ Hw) in Hc2 as [[-> ->]|[_ Hc2]]; [|right; by eexists].
    destruct Ho as [Ho|(st & [[= -> _]|Ho]%elem_of_cons)].
    + right. eexists. split; [exact Hc|by left].
    + left. cbn. set_solver.
    + right. eexists. split; [exact Hc|]. right. by exists st.
  - apply W.
  - apply W.
  - pose proof (ginv_posted _ _ _ I) as Hnd. cbn in Hnd. rewrite <- Permutation_middle in Hnd.
    apply NoDup_cons in Hnd as [Hnd _].
    intros r' c2 y Hc2 Hy.
    assert ((r', y) <> (r, x) /\ exists c, w_conf w r' = Some c /\ y ∈ c_posted c) as [Hne (c & Hc' & Hy')].
    { apply (conf_insert w w' _ _ _ _ Hw) in Hc2 as [[-> ->]|[Hne Hc2]].
      - cbn in Hy. split; [by intros [= ->]|]. eexists. split; [exact Hc|]. cbn. set_solver.
      - split; [congruence|]. by eexists. }
    destruct (wi_posted _ W r' c y Hc' Hy') as [Hrd|?]; [left|by right]. cbn in *. set_solver.
Qed.

Lemma winv_step w w' : winv w -> wstep w w' -> winv w'.
Proof.
  intros W S. destruct S.
  - by apply winv_enter.
  - by eapply winv_act.
  - by apply winv_read.
  - by eapply winv_deliver.
  - by eapply winv_signal.
Qed.
Lemma winv_run mem w : rtc wstep (world_init mem) w -> winv w.
Proof.
  intros R. refine (rtc_ind_r (fun w => winv w) _ (winv_init mem) _ _ R). intros x y _ S W. by eapply winv_step.
Qed.

(** ** What a state tells about the ranks *)

Section Facts.
Variable w : world.
Hypothesis W : winv w.

Lemma conf_range r c : w_conf w r = Some c -> 0 <= r < nranks.
Proof. intros Hc. apply (wi_ranks _ W). unfold entered. by rewrite Hc. Qed.
Lemma ran_range r x : ran_at w r x -> 0 <= r < nranks.
Proof. intros (c & Hc & _). by eapply conf_range. Qed.
Lemma marked_range r x : marked_at w r x -> 0 <= r < nranks.
Proof. intros (c & Hc & _). by eapply conf_range. Qed.
Lemma marked_entered r x : marked_at w r x -> entered w r.
Proof. intros (c & Hc & _). unfold entered. by rewrite Hc. Qed.

(** What comes before a node that ran, or before the end, is marked. *)
Lemma ran_source r x y : ran_at w r y -> (x, y) ∈ all_edges (graphs r) -> marked_at w r x.
Proof.
  intros (c & Hc & Hy) Hxy. exists c. split; [done|]. destruct (wi_conf _ W _ _ Hc) as [m I].
  by eapply ginv_run_sources.
Qed.
Lemma over_source r c x :
  w_conf w r = Some c -> is_over c -> (x, GRAPH_END) ∈ all_edges (graphs r) -> marked_at w r x.
Proof.
  intros Hc Ho Hx. exists c. split; [done|]. destruct (wi_conf _ W _ _ Hc) as [m I].
  eapply ginv_over_sources; [apply wf; by eapply conf_range|exact coll_no_retry|exact I|exact Ho|exact Hx].
Qed.
Lemma marked_ran r x : marked_at w r x -> x ∈ all_nodes (graphs r) -> ran_at w r x.
Proof.
  intros Hm Hx. pose proof (marked_range _ _ Hm) as Hr. destruct Hm as (c & Hc & Hm). exists c. split; [done|].
  destruct (wi_conf _ W _ _ Hc) as [m I].
  eapply (ginv_marked_ran coll_run no_signal (graphs r) (wf r Hr) coll_no_retry); [exact I|done..].
Qed.

(** A receive that is complete got the bytes of a send that ran. *)
Lemma marked_got r y q b n :
  marked_at w r y -> op_of r y = Some (OpRecv q b n) ->
  exists v m, (v, m) ∈ w_got w /\ rv_rank v = r /\ rv_from v = q /\ rv_buffer v = b
    /\ ms_from m = q /\ ms_to m = r /\ a_send m /\ ran_at w q (ms_node m).
Proof.
  intros (c & Hc & Hm) Hop.
  destruct (wi_over_recv _ W r y) as (v & ((v', m) & -> & Hv)%list_elem_of_fmap & E1 & E2);
    [right; exists c; split; [done|by left]|by repeat eexists|]. cbn [fst] in *.
  destruct (wi_met _ W _ _ Hv) as [M1 M2].
  destruct (wi_recvs _ W v') as [Hrv _]; [apply elem_of_app; right; by apply (list_elem_of_fmap_2 fst) in Hv|].
  destruct (wi_msgs _ W m) as [Hms Hran]; [apply elem_of_app; right; by apply (list_elem_of_fmap_2 snd) in Hv|].
  unfold a_recv in Hrv. rewrite E1, E2, Hop in Hrv. injection Hrv as -> -> _. exists v', m.
  rewrite <- M2 at 3. by split_and!; try congruence.
Qed.
Lemma recv_sent r y q b n :
  marked_at w r y -> op_of r y = Some (OpRecv q b n) ->
  exists x b' n', op_of q x = Some (OpSend r b' n') /\ ran_at w q x.
Proof.
  intros Hm Hop. destruct (marked_got _ _ _ _ _ Hm Hop) as (v & m & _ & _ & _ & _ & <- & <- & Hs & Hran).
  exists (ms_node m), (ms_buffer m), (ms_size m). by split.
Qed.

(** A receive that waits is not one that got its bytes. *)
Lemma got_not_posted v v' m : v ∈ w_recvs w -> (v', m) ∈ w_got w -> rv_rank v' = rv_rank v -> rv_node v' <> rv_node v.
Proof.
  intros Hv Hg Er En. pose proof (wi_nodup_recvs _ W) as Hnd. rewrite fmap_app in Hnd.
  apply NoDup_app in Hnd as (_ & Hnd & _).
  apply (Hnd (rv_rank v, rv_node v)); [apply list_elem_of_fmap; by exists v|].
  rewrite <- list_fmap_compose. apply list_elem_of_fmap. exists (v', m). split; [cbn; congruence|done].
Qed.
Lemma got_recv v m : (v, m) ∈ w_got w -> a_recv v.
Proof.
  intros Hv. by destruct (wi_recvs _ W v) as [? _]; [apply elem_of_app; right; apply (list_elem_of_fmap_2 fst) in Hv|].
Qed.
Lemma got_send v m : (v, m) ∈ w_got w -> a_send m.
Proof.
  intros Hv. by destruct (wi_msgs _ W m) as [? _]; [apply elem_of_app; right; apply (list_elem_of_fmap_2 snd) in Hv|].
Qed.
Lemma op_of_valid r x op : op_of r x = Some op -> x ∈ all_nodes (graphs r).
Proof.
  destruct x as [| |i]; [done..|]. cbn. intros H. apply list_elem_of_fmap. exists i. split; [done|].
  apply elem_of_seq. destruct (nodes (graphs r) !! i) eqn:E; [|done]. apply lookup_lt_Some in E. lia.
Qed.
End Facts.
End World.
