(* ===== verification/WorldRuns.v ===== *)
(** * Collectives terminate

    When the sends and receives of the graphs of all ranks match each other and a
    level function shows that no rank waits in a circle, every run of the world is
    bounded and ends with all graphs complete, even if a send completes only when
    its receive has been posted. *)
From stdpp Require Import base numbers functions list gmap strings relations.
From Stdlib Require Import ZArith Lia.
From S2P Require Import Prelude Status Memory Graph GraphRuns Collective World.

Section WorldRuns.
Variable nranks : Z.
Variable graphs : Z -> coll_graph.
Variable reduce_op : Z -> Z -> Z -> Z -> memory -> memory.
#[local] Abbreviation op_of := (op_of graphs).
#[local] Abbreviation winv := (winv nranks graphs).
#[local] Abbreviation wstep := (wstep nranks graphs reduce_op).

(** The sends and receives of two ranks are each other's peers, one at most for
    every two ranks in each direction. *)
Record matched (level : Z -> graph_node_t -> nat) : Prop := mk_matched {
  mt_wf : forall r, 0 <= r < nranks -> well_formed (graphs r);
  mt_level : forall r x y, 0 <= r < nranks -> (x, y) ∈ all_edges (graphs r) -> (level r x < level r y)%nat;
  mt_send : forall r x d b n, 0 <= r < nranks -> op_of r x = Some (OpSend d b n) ->
    0 <= d < nranks /\ exists y b', op_of d y = Some (OpRecv r b' n) /\ level d y = level r x;
  mt_recv : forall r y q b n, 0 <= r < nranks -> op_of r y = Some (OpRecv q b n) ->
    0 <= q < nranks /\ exists x b', op_of q x = Some (OpSend r b' n) /\ level q x = level r y;
  mt_one_send : forall r x x' d b b' n n', 0 <= r < nranks ->
    op_of r x = Some (OpSend d b n) -> op_of r x' = Some (OpSend d b' n') -> x = x';
  mt_one_recv : forall r y y' q b b' n n', 0 <= r < nranks ->
    op_of r y = Some (OpRecv q b n) -> op_of r y' = Some (OpRecv q b' n') -> y = y'
}.

(** Every rank is in the collective and nothing happens any more: no thread has
    anything to do, nothing is to be signalled, and no message in flight meets a
    posted receive. *)
Record stalled (w : world) : Prop := mk_stalled {
  sd_conf : forall r, 0 <= r < nranks -> exists c, w_conf w r = Some c /\ c_acts c = [];
  sd_ready : forall r c x, w_conf w r = Some c -> x ∈ c_posted c -> (r, x) ∉ w_ready w;
  sd_meet : forall m v, m ∈ w_msgs w -> v ∈ w_recvs w -> ms_to m = rv_rank v -> ms_from m <> rv_from v
}.

(** A node that has not run waits for a posted one of a lower level. *)
Lemma waiting_blocked (g0 : coll_graph) m (c : coll_config) (level : graph_node_t -> nat) y :
  (forall x y, (x, y) ∈ all_edges g0 -> (level x < level y)%nat) ->
  ginv g0 m c -> c_acts c = [] -> y ∈ all_nodes g0 -> EvRun y ∉ c_log c ->
  exists z, z ∈ c_posted c /\ (level z < level y)%nat.
Proof.
  unfold ginv. intros Hl I Ha Hy Hn. rewrite Ha in I. destruct (gs_graph _) as [g|].
  - destruct I as (wt & d & L & _).
    assert (Hw : y ∈ wt).
    { pose proof (lv_runs _ _ _ _ _ _ _ L) as HP. rewrite <- HP in Hy. simpl in Hy.
      apply elem_of_app in Hy as [Hy%elem_of_ran|Hy]; done. }
    destruct (list_minimum level (filter (fun z => level z <= level y)%nat wt)) as (y0 & Hy0 & Hmin).
    { intros E. apply (filter_nil_not_elem_of _ _ y E); [lia|done]. }
    apply list_elem_of_filter in Hy0 as [Hle Hy0].
    destruct (lv_wait _ _ _ _ _ _ _ L y0 Hy0) as (_ & _ & _ & [x Hx]%into_pos).
    pose proof (Hl _ _ (lv_sub _ _ _ _ _ _ _ L _ Hx)) as Hlt.
    unfold undelivered in Hx. simpl in Hx. apply list_elem_of_bind in Hx as (z & Hz & Hzw).
    pose proof (outs_source _ _ _ _ Hz) as ->. exists x.
    apply elem_of_app in Hzw as [?|Hzw]; [split; [done|lia]|].
    assert (x ∈ filter (fun z => level z <= level y)%nat wt) as Hf by (apply list_elem_of_filter; split; [lia|done]).
    apply Hmin in Hf. lia.
  - destruct I as [[_ _ _ _ D _ _] _]. destruct Hn. apply elem_of_ran. by rewrite D.
Qed.

Section Matched.
Variable level : Z -> graph_node_t -> nat.
Hypothesis M : matched level.
Variable w : world.
Hypothesis W : winv w.
Hypothesis S : stalled w.

(** A posted operation waits for a peer that has not run. *)
Lemma posted_peer r c x :
  0 <= r < nranks -> w_conf w r = Some c -> x ∈ c_posted c ->
  exists d y, 0 <= d < nranks /\ level d y = level r x /\ y ∈ all_nodes (graphs d) /\ ~ ran_at w d y.
Proof.
  intros Hr Hc Hx. destruct (wi_posted _ _ _ W r c x Hc Hx) as [?|[(m & Hm & E1 & E2 & E3)|(v & Hv & E1 & E2)]].
  - by destruct (sd_ready _ S r c x Hc Hx).
  - destruct (wi_msgs _ _ _ W m ltac:(set_solver)) as [Hop _]. unfold a_send in Hop. rewrite E1, E2 in Hop.
    destruct (mt_send _ M _ _ _ _ _ Hr Hop) as (Hd & y & b & Hy & Hl). exists (ms_to m), y.
    split; [done|]. split; [done|]. split; [by eapply op_of_valid|]. intros Hran.
    destruct (wi_received _ _ _ W _ _ Hran) as (v & Hv & F1 & F2); [by repeat eexists|].
    destruct (wi_recvs _ _ _ W v Hv) as [Hrv _]. unfold a_recv in Hrv. rewrite F1, F2, Hy in Hrv. injection Hrv as Hq _ _.
    apply elem_of_app in Hv as [Hv|((v', m') & -> & Hg)%list_elem_of_fmap]; [by apply (sd_meet _ S m v); congruence|].
    cbn in *. destruct (wi_met _ _ _ W _ _ Hg) as [G1 G2].
    pose proof (got_send _ _ _ W _ _ Hg) as Hop'. unfold a_send in Hop'. rewrite G1, G2, F1, <- Hq in Hop'.
    pose proof (mt_one_send _ M _ _ _ _ _ _ _ _ Hr Hop Hop') as Ex.
    pose proof (wi_nodup_msgs _ _ _ W) as Hnd. rewrite fmap_app in Hnd. apply NoDup_app in Hnd as (_ & Hnd & _).
    apply (Hnd (r, x)); [apply list_elem_of_fmap; exists m; split; [congruence|done]|].
    rewrite <- list_fmap_compose. apply list_elem_of_fmap. exists (v', m'). split; [cbn; congruence|done].
  - destruct (wi_recvs _ _ _ W v ltac:(set_solver)) as [Hop _]. unfold a_recv in Hop. rewrite E1, E2 in Hop.
    destruct (mt_recv _ M _ _ _ _ _ Hr Hop) as (Hd & y & b & Hy & Hl). exists (rv_from v), y.
    split; [done|]. split; [done|]. split; [by eapply op_of_valid|]. intros Hran.
    destruct (wi_sent _ _ _ W _ _ Hran) as (m & Hm & F1 & F2); [by repeat eexists|].
    destruct (wi_msgs _ _ _ W m Hm) as [Hms _]. unfold a_send in Hms. rewrite F1, F2, Hy in Hms. injection Hms as Hq _ _.
    apply elem_of_app in Hm as [Hm|((v', m') & -> & Hg)%list_elem_of_fmap]; [by apply (sd_meet _ S m v); congruence|].
    cbn in *. destruct (wi_met _ _ _ W _ _ Hg) as [G1 G2].
    pose proof (got_recv _ _ _ W _ _ Hg) as Hop'. unfold a_recv in Hop'. rewrite <- G1, <- G2, F1, <- Hq in Hop'.
    pose proof (mt_one_recv _ M _ _ _ _ _ _ _ _ Hr Hop Hop') as Ex.
    apply (got_not_posted _ _ _ W v v' m'); congruence.
Qed.

Lemma nothing_posted n : forall r c x, (level r x < n)%nat ->
  0 <= r < nranks -> w_conf w r = Some c -> x ∉ c_posted c.
Proof.
  induction n as [|n IH]; intros r c x Hn Hr Hc Hx; [lia|].
  destruct (posted_peer r c x Hr Hc Hx) as (d & y & Hd & Hl & Hy & Hran).
  destruct (sd_conf _ S d Hd) as (c' & Hc' & Ha). destruct (wi_conf _ _ _ W _ _ Hc') as [m I].
  destruct (waiting_blocked _ _ _ (level d) y (fun x y => mt_level _ M d x y Hd) I Ha Hy) as (z & Hz & Hlt).
  - intros Hlog. apply Hran. by exists c'.
  - apply (IH d c' z); [lia|done..].
Qed.

Lemma stalled_complete r : 0 <= r < nranks ->
  exists c, w_conf w r = Some c /\ c_acts c = [] /\ c_posted c = [] /\ complete (graphs r) c.
Proof.
  intros Hr. destruct (sd_conf _ S r Hr) as (c & Hc & Ha). exists c. split; [done|].
  assert (Hp : c_posted c = []).
  { destruct (c_posted c) as [|x l] eqn:E; [done|exfalso].
    apply (nothing_posted (Datatypes.S (level r x)) r c x); [lia|done..|]. rewrite E. by left. }
  destruct (wi_conf _ _ _ W _ _ Hc) as [m I]. split_and!; [done|done|].
  by eapply (quiet_complete (graphs r) (mt_wf _ M r Hr)).
Qed.
End Matched.

(** ** Bounded runs *)

Section Bound.
Hypothesis wf : forall r, 0 <= r < nranks -> well_formed (graphs r).

(** [f] bounds the steps that each rank's graph has still to make. *)
Definition bounds_at (f : Z -> nat) (w : world) : Prop := forall r, 0 <= r < nranks ->
  match w_conf w r with
  | None => f r = Datatypes.S (step_bound (graphs r))
  | Some c => ginv (graphs r) (f r) c
  end.
Definition ranks : list Z := seqZ 0 nranks.
Definition flight (m : message) : nat := match ms_data m with None => 2 | Some _ => 1 end.
Definition potential (f : Z -> nat) (w : world) : nat :=
  3 * sum_list_with f ranks + sum_list_with flight (w_msgs w) + length (w_recvs w).

Lemma sum_insert (f : Z -> nat) r k :
  0 <= r < nranks -> (sum_list_with (<[r := k]> f) ranks + f r = sum_list_with f ranks + k)%nat.
Proof.
  intros Hr. assert (Hin : r ∈ ranks) by (apply elem_of_seqZ; lia).
  pose proof (NoDup_seqZ 0 nranks) as Hnd. fold ranks in Hnd.
  assert (Hout : forall l, r ∉ l -> sum_list_with (<[r := k]> f) l = sum_list_with f l).
  { induction l as [|x l IH]; [done|]. intros [H1 H2]%not_elem_of_cons. cbn.
    rewrite fn_lookup_insert_ne by done. by rewrite IH. }
  apply list_elem_of_split in Hin as (a & b & E). rewrite E in *.
  apply NoDup_app in Hnd as (_ & Hd & [Hn _]%NoDup_cons).
  rewrite !sum_list_with_app. cbn. rewrite fn_lookup_insert, !Hout; [lia|done|].
  intros Ha. apply (Hd _ Ha). by left.
Qed.

Lemma bounds_insert f k (w w' : world) r c :
  bounds_at f w -> w_conf w' = <[r := Some c]> (w_conf w) -> ginv (graphs r) k c ->
  bounds_at (<[r := k]> f) w'.
Proof.
  intros B E I r' Hr'. rewrite E. destruct (decide (r' = r)) as [->|Hne].
  - by rewrite !fn_lookup_insert.
  - rewrite !fn_lookup_insert_ne by done. by apply B.
Qed.

Lemma new_counts r a :
  (sum_list_with flight (new_msgs graphs r a) + length (new_recvs graphs r a) <= 2)%nat.
Proof.
  destruct a as [x| |]; cbn; [|lia..]. destruct (op_of r x) as [[]|]; cbn; lia.
Qed.

Lemma potential_step f w w' :
  winv w -> bounds_at f w -> wstep w w' ->
  exists f', bounds_at f' w' /\ (potential f' w' < potential f w)%nat.
Proof.
  intros W B St. unfold potential. destruct St as
    [w r Hr Hc|w r l1 a l2 posted s log new p s' Hc Ha|conf mem m1 m m2 recvs ready got Hd
    |conf mem m1 m m2 r1 v r2 ready got d Hd|conf mem msgs recvs q1 r x q2 got acts p1 p2 s log status Hc].
  - exists (<[r := step_bound (graphs r)]> f). split.
    + eapply bounds_insert; [exact B|done|]. apply live_starts. by apply wf.
    + pose proof (B r Hr) as E. rewrite Hc in E. pose proof (sum_insert f r (step_bound (graphs r)) Hr).
      cbn [w_msgs w_recvs set_conf]. lia.
  - assert (Hr : 0 <= r < nranks) by (apply (wi_ranks _ _ _ W); unfold entered; by rewrite Hc).
    pose proof (B r Hr) as I. rewrite Hc in I.
    pose proof (ginv_acts coll_run no_edge_fn no_free no_signal _ (wf r Hr) coll_no_retry _ _ a l1 l2 I eq_refl)
      as (new' & p' & s'' & m' & Ha' & I' & Hlt).
    cbn [c_state c_posted c_log] in Ha', I'. rewrite Ha in Ha'. injection Ha' as <- <- <-.
    exists (<[r := m']> f). split.
    + eapply bounds_insert; [exact B| |exact I']. apply (act_conf graphs reduce_op).
    + rewrite (act_msgs graphs reduce_op), (act_recvs graphs reduce_op), sum_list_with_app, length_app.
      pose proof (sum_insert f r m' Hr). pose proof (new_counts r a). lia.
  - exists f. split; [exact B|]. cbn [w_msgs w_recvs]. rewrite !sum_list_with_app. cbn [sum_list_with].
    assert (flight m = 2%nat) by (unfold flight; by rewrite Hd).
    assert (flight (with_data m (load_bytes (mem (ms_from m)) (ms_buffer m) (ms_size m))) = 1%nat) by done. lia.
  - exists f. split; [exact B|]. cbn [w_msgs w_recvs].
    rewrite !sum_list_with_app, !length_app. cbn [sum_list_with length]. lia.
  - assert (Hr : 0 <= r < nranks) by (apply (wi_ranks _ _ _ W); unfold entered; cbn; by rewrite Hc).
    pose proof (B r Hr) as I. cbn in I. rewrite Hc in I.
    destruct (ginv_signal coll_run no_signal (graphs r) (wf r Hr) coll_no_retry _ _ _ _ _ _ _ status I) as (m' & I' & Hlt).
    exists (<[r := m']> f). split.
    + eapply bounds_insert; [exact B|done|exact I'].
    + pose proof (sum_insert f r m' Hr). cbn [w_msgs w_recvs set_conf]. lia.
Qed.

Definition world_bound : nat := 3 * sum_list_with (fun r => Datatypes.S (step_bound (graphs r))) ranks.

Lemma potential_nsteps n w w' : nsteps wstep n w w' -> forall f, winv w -> bounds_at f w ->
  exists f', bounds_at f' w' /\ (potential f' w' + n <= potential f w)%nat.
Proof.
  induction 1 as [|n w1 w2 w3 St _ IH]; intros f W B; [exists f; split; [done|lia]|].
  destruct (potential_step _ _ _ W B St) as (f1 & B1 & H1).
  destruct (IH f1) as (f2 & B2 & H2); [by eapply winv_step|done|]. exists f2. split; [done|lia].
Qed.
Lemma world_bounded mem n w : nsteps wstep n (world_init mem) w -> (n <= world_bound)%nat.
Proof.
  intros R. set (f := fun r => Datatypes.S (step_bound (graphs r))).
  assert (B : bounds_at f (world_init mem)) by (by intros r Hr).
  destruct (potential_nsteps _ _ _ R f (winv_init nranks graphs reduce_op mem) B) as (f' & _ & Hle).
  unfold world_bound. fold f. unfold potential in Hle. cbn [w_msgs w_recvs world_init sum_list_with length] in Hle. lia.
Qed.
End Bound.

(** A world in which nothing can happen is stalled. *)
Lemma no_step_stalled w :
  (forall r, 0 <= r < nranks -> well_formed (graphs r)) -> winv w -> (forall w', ~ wstep w w') -> stalled w.
Proof.
  intros wf W Hno. split.
  - intros r Hr. destruct (w_conf w r) as [c|] eqn:Hc; [|by destruct (Hno _ (ws_enter _ _ _ w r Hr Hc))].
    exists c. split; [done|]. destruct (c_acts c) as [|a l] eqn:Ha; [done|exfalso].
    destruct (wi_conf _ _ _ W _ _ Hc) as [m I].
    destruct (ginv_acts coll_run no_edge_fn no_free no_signal _ (wf r Hr) coll_no_retry _ _ a [] l I Ha)
      as (new & p & s' & m' & Hact & _). destruct c as [acts posted s log]. cbn in Ha, Hact. subst acts.
    exact (Hno _ (ws_act _ _ _ w r [] a l posted s log new p s' Hc Hact)).
  - intros r c x Hc (p1 & p2 & Hp)%list_elem_of_split (q1 & q2 & Hq)%list_elem_of_split.
    destruct w as [conf mem msgs recvs ready got]. destruct c as [acts posted s log]. cbn in *. subst.
    exact (Hno _ (ws_signal _ _ _ conf mem msgs recvs q1 r x q2 got acts p1 p2 s log status_init Hc)).
  - intros m v (m1 & m2 & Hm)%list_elem_of_split (r1 & r2 & Hr)%list_elem_of_split H1 H2.
    destruct w as [conf mem msgs recvs ready got]. cbn in *. subst. destruct (ms_data m) as [d|] eqn:Hd.
    + exact (Hno _ (ws_deliver _ _ _ conf mem m1 m m2 r1 v r2 ready got d Hd (eq_sym H1) (eq_sym H2))).
    + exact (Hno _ (ws_read _ _ _ conf mem m1 m m2 (r1 ++ v :: r2) ready got Hd)).
Qed.

(** Runs are bounded, and a run that cannot go on has completed every graph. *)
Definition terminates : Prop := forall mem n w, nsteps wstep n (world_init mem) w ->
  (n <= world_bound)%nat
  /\ (stalled w \/ (forall w', ~ wstep w w') -> forall r, 0 <= r < nranks ->
       exists c, w_conf w r = Some c /\ c_acts c = [] /\ c_posted c = [] /\ complete (graphs r) c).
Lemma matched_terminates level : matched level -> terminates.
Proof.
  intros M mem n w R. pose proof (mt_wf _ M) as wf.
  assert (W : winv w).
  { apply (winv_run nranks graphs reduce_op wf mem). apply rtc_nsteps. by exists n. }
  split; [by eapply world_bounded|]. intros H r Hr. eapply stalled_complete; [exact M|exact W| |done].
  destruct H as [?|Hno]; [done|]. by apply no_step_stalled.
Qed.
End WorldRuns.
