(* ===== verification/CollectiveBuild.v ===== *)
(** * What the graph builders of the collectives build

    Rules for the monad in which the collectives build their graphs: the functions
    of the nodes and the edges after each step. *)
From stdpp Require Import base numbers functions list gmap strings relations.
From Stdlib Require Import ZArith Lia.
From S2P Require Import Prelude Status Memory Graph GraphRuns GraphBuild Collective World.

#[local] Abbreviation B := (ST coll_graph).
#[local] Abbreviation edges := (list (graph_node_t * graph_node_t)).

(** [m] returns [a] and takes graphs with nodes [ops] and edges [es] to graphs with
    [ops'] and [es']. *)
Definition builds {A} (m : B A) (ops : list (option coll_op)) (es : edges) (a : A)
    (ops' : list (option coll_op)) (es' : edges) : Prop :=
  forall comp g, gshape g comp ops es -> exists g', m g = Ok (a, g') /\ gshape g' comp ops' es'.

Definition src_ok (ops : list (option coll_op)) (x : graph_node_t) : Prop :=
  match x with GRAPH_START => True | GRAPH_END => False | Node i => (i < length ops)%nat end.
Definition dst_ok (ops : list (option coll_op)) (x : graph_node_t) : Prop :=
  match x with GRAPH_START => False | GRAPH_END => True | Node i => (i < length ops)%nat end.

Lemma builds_ret {A} (a : A) ops es : builds (mret a) ops es a ops es.
Proof. intros comp g H. by exists g. Qed.
Lemma builds_bind {A C} (m : B A) (k : A -> B C) ops es a ops1 es1 c ops2 es2 :
  builds m ops es a ops1 es1 -> builds (k a) ops1 es1 c ops2 es2 -> builds (m ≫= k) ops es c ops2 es2.
Proof.
  intros H1 H2 comp g Hg. destruct (H1 comp g Hg) as (g1 & E1 & Hg1). destruct (H2 comp g1 Hg1) as (g2 & E2 & Hg2).
  exists g2. by rewrite (st_bind_eq _ _ _ _ _ E1).
Qed.
Lemma builds_op op ops es :
  builds (graph_add_node_op op) ops es (Node (length ops)) (ops ++ [Some op]) es.
Proof.
  intros comp g Hg. destruct (shape_node g comp ops es (Some op) 0 (Some tt) Hg) as [E H].
  eexists. split; [|exact H]. unfold graph_add_node_op. by rewrite <- E, <- surjective_pairing.
Qed.
Lemma builds_node f ops es : builds (graph_add_node f) ops es (Node (length ops)) (ops ++ [f]) es.
Proof.
  intros comp g Hg. destruct (shape_node g comp ops es f 0 None Hg) as [E H].
  eexists. split; [|exact H]. unfold graph_add_node. by rewrite <- E, <- surjective_pairing.
Qed.
Lemma builds_edge src dst ops es :
  src_ok ops src -> dst_ok ops dst -> builds (graph_add_edge src dst) ops es tt ops ((src, dst) :: es).
Proof.
  intros Hs Hd comp g Hg. destruct (shape_edge g comp ops es src dst None Hg) as (g' & E & H & _).
  - destruct src; [by left|done|right]. apply (shape_valid _ _ _ _ _ Hg). eauto.
  - destruct dst; [done|by left|right]. apply (shape_valid _ _ _ _ _ Hg). eauto.
  - exists g'. unfold graph_add_edge. by rewrite E.
Qed.
(** The list of edges counts as a multiset. *)
Lemma builds_perm {A} (m : B A) ops es a ops' es1 es2 :
  es1 ≡ₚ es2 -> builds m ops es a ops' es1 -> builds m ops es a ops' es2.
Proof.
  intros HP H comp g Hg. destruct (H comp g Hg) as (g' & E & [H1 H2 H3 H4 H5 H6]). exists g'. split; [done|].
  split; try done.
  - by rewrite <- HP.
  - by rewrite <- HP.
  - intros y n Hy Hn. rewrite <- (into_perm _ _ _ HP). by apply H5.
  - by rewrite <- (into_perm _ _ _ HP).
Qed.

(** Nodes and edges added by a step of a loop. *)
Ltac build :=
  repeat first
    [ eapply builds_bind; [first [apply builds_op | apply builds_node | apply builds_ret | apply builds_edge; [done||(cbn; rewrite ?length_app; cbn; lia)|done||(cbn; rewrite ?length_app; cbn; lia)]]|]
    | apply builds_ret ].

Lemma plan_builds comp (m : B unit) ops es :
  builds m [] [] tt ops es ->
  exists g, plan comp m = Ok (PGraph g (comp_is_empty comp)) /\ gshape g comp ops es.
Proof.
  intros H. destruct (H comp _ (shape_new comp 0 0)) as (g & E & Hg). exists g. split; [|done].
  unfold plan. by rewrite E.
Qed.

(** ** From shapes to worlds *)

Lemma shape_op_of (graphs : Z -> coll_graph) r comp ops es x :
  gshape (graphs r) comp ops es ->
  op_of graphs r x = match x with Node i => mjoin (ops !! i) | _ => None end.
Proof.
  intros [_ H _ _ _ _]. destruct x as [| |i]; [done..|]. cbn. rewrite <- H, list_lookup_fmap.
  by destruct (nodes (graphs r) !! i).
Qed.
Lemma shape_edges (graphs : Z -> coll_graph) r comp ops es e :
  gshape (graphs r) comp ops es -> e ∈ all_edges (graphs r) <-> e ∈ es.
Proof. intros [_ _ H _ _ _]. by rewrite H. Qed.

(** A graph for every rank. *)
Lemma choose_graphs nranks (P : Z -> coll_graph -> Prop) :
  (forall r, 0 <= r < nranks -> exists g, P r g) ->
  exists graphs : Z -> coll_graph, forall r, 0 <= r < nranks -> P r (graphs r).
Proof.
  intros H. destruct (Z.le_gt_cases nranks 0) as [Hn|Hn]; [exists (fun _ => graph_new 0 0 0); lia|].
  assert (Hk : forall k : nat, Z.of_nat k <= nranks ->
    exists graphs : Z -> coll_graph, forall r, 0 <= r < Z.of_nat k -> P r (graphs r)).
  { induction k as [|k IH]; intros Hk; [exists (fun _ => graph_new 0 0 0); lia|].
    destruct IH as [graphs Hg]; [lia|]. destruct (H (Z.of_nat k)) as [g HP]; [lia|].
    exists (<[Z.of_nat k := g]> graphs). intros r Hr. destruct (decide (r = Z.of_nat k)) as [->|Hne].
    - by rewrite fn_lookup_insert.
    - rewrite fn_lookup_insert_ne by done. apply Hg. lia. }
  destruct (Hk (Z.to_nat nranks)) as [graphs Hg]; [lia|]. exists graphs. intros r Hr. apply Hg. lia.
Qed.

(** ** Loops over indices *)

Lemma bind_seq_S {A} (f : nat -> list A) k : seq 0 (S k) ≫= f = (seq 0 k ≫= f) ++ f k.
Proof. rewrite seq_S, bind_app. cbn. by rewrite app_nil_r. Qed.

Lemma div3 k o : (o < 3)%nat -> ((3 * k + o) / 3 = k /\ (3 * k + o) mod 3 = o)%nat.
Proof.
  intros Ho. split; symmetry; [apply (Nat.div_unique _ 3 k o)|apply (Nat.mod_unique _ 3 k o)]; lia.
Qed.

(** ** Ranks on a ring *)

Lemma wrap_up n r j : 0 <= r < n -> 0 <= j < n -> (r + j) mod n = if r + j <? n then r + j else r + j - n.
Proof.
  intros Hr Hj. destruct (r + j <? n) eqn:E; [apply Z.mod_small; lia|].
  symmetry. apply (Z.mod_unique_pos _ _ 1); lia.
Qed.
Lemma wrap_down n r j : 0 <= r < n -> 0 <= j < n -> (r - j + n) mod n = if j <=? r then r - j else r - j + n.
Proof.
  intros Hr Hj. destruct (j <=? r) eqn:E; [|apply Z.mod_small; lia].
  symmetry. apply (Z.mod_unique_pos _ _ 1); lia.
Qed.
Lemma wrap_range n r : 0 < n -> 0 <= r mod n < n.
Proof. apply Z.mod_pos_bound. Qed.
Lemma up_down n r j : 0 <= r < n -> 0 <= j < n -> ((r + j) mod n - j + n) mod n = r.
Proof.
  intros Hr Hj. pose proof (wrap_range n (r + j) ltac:(lia)).
  rewrite wrap_down by lia. rewrite wrap_up by lia. destruct (r + j <? n) eqn:E; destruct (_ <=? _) eqn:E'; lia.
Qed.
Lemma down_up n r j : 0 <= r < n -> 0 <= j < n -> ((r - j + n) mod n + j) mod n = r.
Proof.
  intros Hr Hj. pose proof (wrap_range n (r - j + n) ltac:(lia)).
  rewrite wrap_up by lia. rewrite wrap_down by lia. destruct (j <=? r) eqn:E; destruct (_ <? _) eqn:E'; lia.
Qed.
Lemma up_inj n r j j' : 0 <= r < n -> 0 <= j < n -> 0 <= j' < n -> (r + j) mod n = (r + j') mod n -> j = j'.
Proof.
  intros Hr Hj Hj'. rewrite !wrap_up by lia. destruct (r + j <? n) eqn:E; destruct (r + j' <? n) eqn:E'; lia.
Qed.
Lemma down_inj n r j j' :
  0 <= r < n -> 0 <= j < n -> 0 <= j' < n -> (r - j + n) mod n = (r - j' + n) mod n -> j = j'.
Proof.
  intros Hr Hj Hj'. rewrite !wrap_down by lia. destruct (j <=? r) eqn:E; destruct (j' <=? r) eqn:E'; lia.
Qed.

(** ** Chains: nodes that run one after the other *)

Definition prev (i : nat) : graph_node_t := match i with O => GRAPH_START | S i => Node i end.
Fixpoint chain (m : nat) : edges := match m with O => [] | S m => (prev m, Node m) :: chain m end.
Definition chain_all (m : nat) : edges := (prev m, GRAPH_END) :: chain m.

Lemma elem_of_chain e m : e ∈ chain m <-> exists i, (i < m)%nat /\ e = (prev i, Node i).
Proof.
  induction m as [|m IH]; cbn; [split; [by intros ?%elem_of_nil|intros (i & ? & _); lia]|].
  rewrite elem_of_cons, IH. split.
  - intros [->|(i & Hi & ->)]; [exists m|exists i]; (split; [lia|done]).
  - intros (i & Hi & ->). destruct (decide (i = m)) as [->|]; [by left|right]. exists i. split; [lia|done].
Qed.
Lemma elem_of_chain_all e m :
  e ∈ chain_all m <-> e = (prev m, GRAPH_END) \/ exists i, (i < m)%nat /\ e = (prev i, Node i).
Proof. unfold chain_all. by rewrite elem_of_cons, elem_of_chain. Qed.

Lemma chain_wf (g : coll_graph) comp ops : gshape g comp ops (chain_all (length ops)) -> well_formed g.
Proof.
  intros Hg. eapply shape_well_formed; [exact Hg| | | |].
  - intros i Hi. split; [exists (prev i); apply elem_of_chain_all; right; eauto|].
    destruct (decide (S i = length ops)) as [E|Hne].
    + exists GRAPH_END. apply elem_of_chain_all. left. by rewrite <- E.
    + exists (Node (S i)). apply elem_of_chain_all. right. exists (S i). split; [lia|done].
  - exists (prev (length ops)). by left.
  - destruct (length ops) eqn:E; [exists GRAPH_END; by left|]. exists (Node 0).
    apply elem_of_chain_all. right. exists 0%nat. split; [lia|done].
  - exists (fun x => match x with GRAPH_START => 0 | Node i => S i | GRAPH_END => S (length ops) end)%nat.
    intros x y [[= -> ->]|(i & Hi & [= -> ->])]%elem_of_chain_all; [destruct (length ops)|destruct i]; cbn; lia.
Qed.

Section Chain.
Context (nranks : Z) (graphs : Z -> coll_graph) (w : world) (r : Z) (comp : Z) (ops : list (option coll_op)).
Hypothesis wf : forall r, 0 <= r < nranks -> well_formed (graphs r).
Hypothesis W : winv nranks graphs w.
Hypothesis Hg : gshape (graphs r) comp ops (chain_all (length ops)).

Lemma chain_valid i : (i < length ops)%nat -> Node i ∈ all_nodes (graphs r).
Proof. intros Hi. apply (shape_valid _ _ _ _ _ Hg). eauto. Qed.
Lemma chain_marked i j : marked_at w r (prev i) -> (i <= length ops)%nat -> (j < i)%nat -> marked_at w r (Node j).
Proof.
  induction i as [|i IH]; intros Hm Hi Hj; [lia|]. destruct (decide (j = i)) as [->|Hne]; [done|].
  apply IH; [|lia|lia]. apply (ran_source _ _ _ W r _ (Node i)).
  - apply (marked_ran nranks graphs wf w W); [done|]. apply chain_valid. lia.
  - apply (shape_edges _ _ _ _ _ _ Hg), elem_of_chain_all. right. exists i. split; [lia|done].
Qed.
Lemma chain_before i j : ran_at w r (Node i) -> (i < length ops)%nat -> (j < i)%nat -> marked_at w r (Node j).
Proof.
  intros Hr Hi Hj. apply (chain_marked i); [|lia|done]. apply (ran_source _ _ _ W r _ (Node i)); [done|].
  apply (shape_edges _ _ _ _ _ _ Hg), elem_of_chain_all. right. exists i. split; [lia|done].
Qed.
Lemma chain_over c j : w_conf w r = Some c -> is_over c -> (j < length ops)%nat -> marked_at w r (Node j).
Proof.
  intros Hc Ho Hj. apply (chain_marked (length ops)); [|lia|done].
  apply (over_source nranks graphs wf w W r c); [done|done|].
  apply (shape_edges _ _ _ _ _ _ Hg), elem_of_chain_all. by left.
Qed.
End Chain.

(** ** Stars: nodes between the start and the end *)

Fixpoint star (m : nat) : edges :=
  match m with O => [] | S m => (Node m, GRAPH_END) :: (GRAPH_START, Node m) :: star m end.
Lemma elem_of_star e m :
  e ∈ star m <-> exists i, (i < m)%nat /\ (e = (GRAPH_START, Node i) \/ e = (Node i, GRAPH_END)).
Proof.
  induction m as [|m IH]; cbn [star]; [split; [by intros ?%elem_of_nil|intros (i & ? & _); lia]|].
  rewrite !elem_of_cons, IH. split.
  - intros [->|[->|(i & Hi & He)]]; [exists m; split; [lia|by right]|exists m; split; [lia|by left]|exists i; split; [lia|done]].
  - intros (i & Hi & He). destruct (decide (i = m)) as [->|]; [naive_solver|]. right. right. exists i. split; [lia|done].
Qed.
Definition star_level (x : graph_node_t) : nat :=
  match x with GRAPH_START => 0 | Node _ => 1 | GRAPH_END => 2 end.
Lemma star_edge_level m x y : (x, y) ∈ star m -> (star_level x < star_level y)%nat.
Proof. intros (i & _ & [[= -> ->]|[= -> ->]])%elem_of_star; cbn; lia. Qed.
Lemma star_wf (g : coll_graph) comp ops :
  gshape g comp ops (star (length ops)) -> (0 < length ops)%nat -> well_formed g.
Proof.
  intros Hg Hl. eapply shape_well_formed; [exact Hg| | | |exists star_level; apply star_edge_level].
  - intros i Hi. split; [exists GRAPH_START|exists GRAPH_END]; apply elem_of_star; exists i; naive_solver.
  - exists (Node 0). apply elem_of_star. exists 0%nat. split; [done|by right].
  - exists (Node 0). apply elem_of_star. exists 0%nat. split; [done|by left].
Qed.
Lemma star_over nranks graphs w r comp ops c i :
  (forall r, 0 <= r < nranks -> well_formed (graphs r)) -> winv nranks graphs w ->
  gshape (graphs r) comp ops (star (length ops)) -> w_conf w r = Some c -> is_over c ->
  (i < length ops)%nat -> marked_at w r (Node i).
Proof.
  intros wf W Hg Hc Ho Hi. apply (over_source nranks graphs wf w W r c); [done|done|].
  apply (shape_edges _ _ _ _ _ _ Hg), elem_of_star. exists i. split; [done|by right].
Qed.
