(* ===== verification/Barrier.v ===== *)
(** * The barrier synchronizes

    The dissemination barrier of src/src/collective/barrier.cpp: the shape of the
    graph that [barrier_x] builds, the matching of its sends and receives, and that
    a rank leaves only after every rank has entered. *)
From stdpp Require Import base numbers functions list gmap strings relations.
From Stdlib Require Import ZArith Lia.
From S2P Require Import Prelude Status Memory Graph GraphRuns GraphBuild Collective World WorldRuns CollectiveBuild.

Section Barrier.
Variable nranks : Z.
Hypothesis Hn : 2 <= nranks.

(** The number of rounds; a last round has no dummy node. *)
Definition rounds : nat := Z.to_nat (Z.log2_up nranks).
Definition jump (k : nat) : Z := 2 ^ Z.of_nat k.
Definition is_last (k : nat) : bool := (S k =? rounds)%nat.

Lemma rounds_pos : (0 < rounds)%nat.
Proof. unfold rounds. pose proof (Z.log2_up_pos nranks). lia. Qed.
Lemma jump_lt k : (k < rounds)%nat <-> jump k < nranks.
Proof.
  unfold rounds, jump. pose proof (Z.log2_up_nonneg nranks). split; intros Hk.
  - apply Z.log2_up_lt_pow2; lia.
  - apply Z.log2_up_lt_pow2 in Hk; lia.
Qed.
Lemma jump_S k : jump (S k) = 2 * jump k.
Proof. unfold jump. rewrite Nat2Z.inj_succ, Z.pow_succ_r by lia. lia. Qed.
Lemma jump_pos k : 0 < jump k.
Proof. unfold jump. apply Z.pow_pos_nonneg; lia. Qed.
Lemma jump_inj k k' : jump k = jump k' -> k = k'.
Proof. unfold jump. intros H. apply Z.pow_inj_r in H; lia. Qed.
(** The nodes of round [k]. *)
Definition recv_ix (k : nat) : nat := if is_last k then 3 * k else 3 * k + 1.
Definition send_ix (k : nat) : nat := S (recv_ix k).
Definition dummy_of (k : nat) : graph_node_t := if is_last k then GRAPH_END else Node (3 * k).
Definition old_of (k : nat) : graph_node_t := match k with O => GRAPH_START | S k => dummy_of k end.

Section Rank.
Variable rank : Z.
Definition to_recv (k : nat) : Z := (rank - jump k + nranks) mod nranks.
Definition to_send (k : nat) : Z := (rank + jump k) mod nranks.
Definition round_ops (k : nat) : list (option coll_op) :=
  (if is_last k then [] else [Some OpDone]) ++ [Some (OpRecv (to_recv k) 0 0); Some (OpSend (to_send k) 0 0)].
Definition round_edges (k : nat) : list (graph_node_t * graph_node_t) :=
  [(Node (send_ix k), dummy_of k); (Node (recv_ix k), dummy_of k);
   (old_of k, Node (send_ix k)); (old_of k, Node (recv_ix k))].
Definition barrier_ops : list (option coll_op) := seq 0 rounds ≫= round_ops.
Definition barrier_edges : list (graph_node_t * graph_node_t) := seq 0 rounds ≫= round_edges.

Lemma length_rounds k : (k < rounds)%nat -> length (seq 0 k ≫= round_ops) = (3 * k)%nat.
Proof.
  induction k as [|k IH]; intros Hk; [done|]. rewrite bind_seq_S, length_app, IH by lia.
  unfold round_ops, is_last. rewrite (proj2 (Nat.eqb_neq _ _)) by lia. cbn. lia.
Qed.

Lemma builds_rounds fuel : forall k es, (k <= rounds)%nat -> (rounds <= k + fuel)%nat ->
  builds (barrier_rounds rank nranks fuel (jump k) (old_of k)) (seq 0 k ≫= round_ops) es tt
    barrier_ops ((seq k (rounds - k) ≫= round_edges) ++ es).
Proof.
  induction fuel as [|fuel IH]; intros k es Hk Hf; cbn [barrier_rounds].
  - pose proof (jump_lt k). rewrite (proj2 (Z.ltb_ge _ _)) by lia. replace k with rounds by lia.
    rewrite Nat.sub_diag. apply builds_ret.
  - destruct (decide (k = rounds)) as [->|Hne].
    { pose proof (jump_lt rounds). rewrite (proj2 (Z.ltb_ge _ _)) by lia. rewrite Nat.sub_diag. apply builds_ret. }
    rewrite (proj2 (Z.ltb_lt _ _)) by (apply jump_lt; lia). cbn [negb].
    pose proof (length_rounds k ltac:(lia)) as Hl.
    assert (Hlast : (nranks <=? jump k * 2) = is_last k).
    { pose proof (jump_lt (S k)) as Hj. rewrite jump_S in Hj. unfold is_last.
      destruct (S k =? rounds)%nat eqn:E; [apply Nat.eqb_eq in E|apply Nat.eqb_neq in E]; lia. }
    assert (Hes : forall es, (seq k (rounds - k) ≫= round_edges) ++ es
      ≡ₚ (seq (S k) (rounds - S k) ≫= round_edges) ++ round_edges k ++ es).
    { intros es'. replace (rounds - k)%nat with (S (rounds - S k)) by lia. cbn [seq]. rewrite bind_cons. solve_Permutation. }
    assert (Hold : src_ok (seq 0 k ≫= round_ops) (old_of k)).
    { destruct k as [|k']; [done|]. cbn [old_of]. unfold dummy_of, is_last. rewrite (proj2 (Nat.eqb_neq _ _)) by lia.
      cbn [src_ok]. lia. }
    assert (Hmono : forall l, src_ok ((seq 0 k ≫= round_ops) ++ l) (old_of k)).
    { intros l. destruct (old_of k); cbn in *; [done..|]. rewrite length_app. lia. }
    eapply builds_perm; [symmetry; apply Hes|]. replace (jump k * 2) with (jump (S k)) in * by (rewrite jump_S; lia).
    rewrite Hlast. specialize (IH (S k)). rewrite bind_seq_S in IH. cbn [old_of] in IH.
    generalize dependent (seq 0 k ≫= round_ops). intros pre IH Hl Hold Hmono.
    unfold dummy_of, round_ops in IH. unfold round_edges, send_ix, recv_ix, dummy_of.
    fold (to_recv k). fold (to_send k). destruct (is_last k) eqn:El; cbn [app] in *.
    + eapply builds_bind; [apply builds_ret|]. eapply builds_bind; [apply builds_op|].
      eapply builds_bind; [apply builds_op|]. rewrite <- app_assoc. cbn [app]. rewrite length_app. rewrite Hl. cbn [length].
      rewrite Nat.add_1_r.
      do 4 (eapply builds_bind; [apply builds_edge; [done||(cbn; rewrite length_app, Hl; cbn; lia)|done||(cbn; rewrite length_app, Hl; cbn; lia)]|]).
      apply IH; lia.
    + eapply builds_bind; [apply builds_node|]. eapply builds_bind; [apply builds_op|].
      eapply builds_bind; [apply builds_op|]. rewrite <- !app_assoc. cbn [app]. rewrite !length_app, Hl. cbn [length].
      replace (3 * k + 2)%nat with (S (3 * k + 1)) by lia.
      do 4 (eapply builds_bind; [apply builds_edge; [done||(cbn; rewrite length_app, Hl; cbn; lia)|done||(cbn; rewrite length_app, Hl; cbn; lia)]|]).
      apply IH; lia.
Qed.

(** *** Nodes and edges *)

Lemma ops_at k o : (k < rounds)%nat ->
  round_ops k !! o <> None -> barrier_ops !! (3 * k + o)%nat = round_ops k !! o.
Proof.
  intros Hk Ho. unfold barrier_ops. replace rounds with (S k + (rounds - S k))%nat by lia.
  rewrite seq_app, bind_app, bind_seq_S, <- app_assoc, lookup_app_r by (rewrite length_rounds; lia).
  rewrite length_rounds by lia. replace (3 * k + o - 3 * k)%nat with o by lia.
  destruct (round_ops k !! o) eqn:E; [|done]. by apply lookup_app_l_Some.
Qed.
Lemma ops_inv i op : barrier_ops !! i = Some op ->
  exists k o, (k < rounds)%nat /\ i = (3 * k + o)%nat /\ round_ops k !! o = Some op.
Proof.
  unfold barrier_ops. assert (forall K, (K <= rounds)%nat -> (seq 0 K ≫= round_ops) !! i = Some op ->
    exists k o, (k < K)%nat /\ i = (3 * k + o)%nat /\ round_ops k !! o = Some op) as H; [|by apply H].
  induction K as [|K IH]; intros HK; [done|]. rewrite bind_seq_S. intros [Hi|[Hi1 Hi2]]%lookup_app_Some.
  - destruct IH as (k & o & Hk & ? & ?); [lia|done|]. exists k, o. split; [lia|done].
  - rewrite length_rounds in Hi1, Hi2 by lia. exists K, (i - 3 * K)%nat. split; [lia|]. split; [lia|done].
Qed.

(** The operation of a node. *)
Definition node_op (x : graph_node_t) : option coll_op :=
  match x with Node i => mjoin (barrier_ops !! i) | _ => None end.
Lemma recv_op k : (k < rounds)%nat -> node_op (Node (recv_ix k)) = Some (OpRecv (to_recv k) 0 0).
Proof.
  intros Hk. cbn. unfold recv_ix. destruct (is_last k) eqn:E.
  - rewrite <- (Nat.add_0_r (3 * k)), ops_at; unfold round_ops; rewrite ?E; done.
  - rewrite ops_at; unfold round_ops; rewrite ?E; done.
Qed.
Lemma send_op k : (k < rounds)%nat -> node_op (Node (send_ix k)) = Some (OpSend (to_send k) 0 0).
Proof.
  intros Hk. cbn. unfold send_ix, recv_ix. destruct (is_last k) eqn:E.
  - rewrite <- (Nat.add_1_r (3 * k)), ops_at; unfold round_ops; rewrite ?E; done.
  - replace (S (3 * k + 1)) with (3 * k + 2)%nat by lia. rewrite ops_at; unfold round_ops; rewrite ?E; done.
Qed.
Lemma node_op_inv x op : node_op x = Some op ->
  exists k, (k < rounds)%nat /\
    ((x = Node (recv_ix k) /\ op = OpRecv (to_recv k) 0 0) \/ (x = Node (send_ix k) /\ op = OpSend (to_send k) 0 0)
     \/ op = OpDone).
Proof.
  destruct x as [| |i]; [done..|]. cbn. destruct (barrier_ops !! i) as [op'|] eqn:E; [|done]. cbn. intros ->.
  apply ops_inv in E as (k & o & Hk & -> & E). exists k. split; [done|]. unfold round_ops, recv_ix, send_ix, recv_ix in *.
  destruct (is_last k); cbn in E.
  - destruct o as [|[|o]]; [left|right; left|done]; injection E as <-.
    + by rewrite Nat.add_0_r.
    + by rewrite Nat.add_1_r.
  - destruct o as [|[|[|o]]]; [right; right|left|right; left|done]; injection E as <-; [done|done|].
    split; [f_equal; lia|done].
Qed.
End Rank.

Lemma edge_inv e : e ∈ barrier_edges -> exists k, (k < rounds)%nat /\ e ∈ round_edges k.
Proof.
  intros (k & He & Hk)%list_elem_of_bind. apply elem_of_seq in Hk. exists k. split; [lia|done].
Qed.
Lemma edge_in k e : (k < rounds)%nat -> e ∈ round_edges k -> e ∈ barrier_edges.
Proof. intros Hk He. apply list_elem_of_bind. exists k. split; [done|]. apply elem_of_seq. lia. Qed.

(** Levels: round [k] is between [2 k] and [2 k + 2]. *)
Definition node_level (x : graph_node_t) : nat :=
  match x with
  | GRAPH_START => 0
  | GRAPH_END => 2 * rounds
  | Node i => let k := (i / 3)%nat in
      if negb (is_last k) && (i mod 3 =? 0)%nat then 2 * k + 2 else 2 * k + 1
  end.
Lemma recv_level k : node_level (Node (recv_ix k)) = (2 * k + 1)%nat.
Proof.
  unfold node_level, recv_ix. destruct (is_last k) eqn:E.
  - destruct (div3 k 0) as [H1 H2]; [lia|]. rewrite Nat.add_0_r in H1, H2. by rewrite H1, E.
  - destruct (div3 k 1) as [H1 H2]; [lia|]. by rewrite H1, H2, E.
Qed.
Lemma send_level k : node_level (Node (send_ix k)) = (2 * k + 1)%nat.
Proof.
  unfold node_level, send_ix, recv_ix. destruct (is_last k) eqn:E.
  - destruct (div3 k 1) as [H1 H2]; [lia|]. rewrite Nat.add_1_r in H1, H2. by rewrite H1, E.
  - destruct (div3 k 2) as [H1 H2]; [lia|]. replace (S (3 * k + 1)) with (3 * k + 2)%nat by lia.
    by rewrite H1, H2, E.
Qed.
Lemma dummy_level k : (k < rounds)%nat -> node_level (dummy_of k) = (2 * k + 2)%nat.
Proof.
  intros Hk. unfold dummy_of. destruct (is_last k) eqn:E.
  - unfold is_last in E. apply Nat.eqb_eq in E. cbn. lia.
  - destruct (div3 k 0) as [H1 H2]; [lia|]. rewrite Nat.add_0_r in H1, H2. unfold node_level. by rewrite H1, H2, E.
Qed.
Lemma old_level k : (k <= rounds)%nat -> node_level (old_of k) = (2 * k)%nat.
Proof. intros Hk. destruct k as [|k]; [done|]. cbn [old_of]. rewrite dummy_level by lia. lia. Qed.
Lemma edge_level x y : (x, y) ∈ barrier_edges -> (node_level x < node_level y)%nat.
Proof.
  intros (k & Hk & He)%edge_inv. pose proof (recv_level k). pose proof (send_level k).
  pose proof (dummy_level k Hk). pose proof (old_level k ltac:(lia)).
  unfold round_edges in He. rewrite !elem_of_cons, elem_of_nil in He.
  destruct He as [[= -> ->]|[[= -> ->]|[[= -> ->]|[[= -> ->]|[]]]]]; lia.
Qed.

Lemma barrier_graph rank comp :
  exists g, barrier_x rank nranks comp = Ok (PGraph g (comp_is_empty comp))
    /\ gshape g comp (barrier_ops rank) barrier_edges.
Proof.
  unfold barrier_x. rewrite (proj2 (Z.eqb_neq _ _)) by lia. apply plan_builds.
  pose proof (builds_rounds rank (Z.to_nat nranks) 0 []) as H. change (jump 0) with 1 in H.
  rewrite Nat.sub_0_r, app_nil_r in H. apply H; [lia|].
  assert (H1 : Z.log2_up nranks <= nranks) by (apply Z.log2_up_le_lin; lia). unfold rounds. lia.
Qed.

Lemma length_barrier rank : length (barrier_ops rank) = (3 * rounds - 1)%nat.
Proof.
  unfold barrier_ops. pose proof rounds_pos. destruct rounds as [|k] eqn:E; [lia|].
  rewrite bind_seq_S, length_app, length_rounds by lia. unfold round_ops, is_last.
  rewrite E, Nat.eqb_refl. cbn. lia.
Qed.

Lemma barrier_wf rank (g : coll_graph) comp : gshape g comp (barrier_ops rank) barrier_edges -> well_formed g.
Proof.
  intros Hg. pose proof rounds_pos as Hp. eapply shape_well_formed; [exact Hg| | | |exists node_level; apply edge_level].
  - intros i Hi. rewrite length_barrier in Hi.
    assert (exists k, (k < rounds)%nat /\ (i = recv_ix k \/ i = send_ix k \/ (is_last k = false /\ i = 3 * k)%nat))
      as (k & Hk & [->|[->|[El ->]]]).
    { pose proof (Nat.div_mod_eq i 3) as Ei. pose proof (Nat.mod_upper_bound i 3).
      assert (Hk : (i / 3 < rounds)%nat) by (apply Nat.Div0.div_lt_upper_bound; lia).
      exists (i / 3)%nat. split; [done|]. unfold send_ix, recv_ix, is_last.
      destruct (Nat.eqb_spec (S (i / 3)) rounds); destruct (i mod 3)%nat as [|[|[|o]]]; lia. }
    + split; [exists (old_of k)|exists (dummy_of k)]; apply (edge_in k); unfold round_edges; set_solver.
    + split; [exists (old_of k)|exists (dummy_of k)]; apply (edge_in k); unfold round_edges; set_solver.
    + assert (Hd : Node (3 * k) = dummy_of k) by (unfold dummy_of; by rewrite El). rewrite Hd. split.
      * exists (Node (recv_ix k)). apply (edge_in k); [done|]. unfold round_edges. set_solver.
      * exists (Node (recv_ix (S k))). unfold is_last in El. apply Nat.eqb_neq in El.
        apply (edge_in (S k)); [lia|]. unfold round_edges. cbn [old_of]. set_solver.
  - exists (Node (recv_ix (rounds - 1))). apply (edge_in (rounds - 1)); [lia|]. unfold round_edges.
    assert (dummy_of (rounds - 1) = GRAPH_END) as ->; [|set_solver].
    unfold dummy_of, is_last. by rewrite (proj2 (Nat.eqb_eq _ _)) by lia.
  - exists (Node (recv_ix 0)). apply (edge_in 0); [lia|]. unfold round_edges. cbn [old_of]. set_solver.
Qed.

(** ** All ranks *)

Section World.
Variable graphs : Z -> coll_graph.
Variable comps : Z -> Z.
Hypothesis Hg : forall r, 0 <= r < nranks -> gshape (graphs r) (comps r) (barrier_ops r) barrier_edges.

Lemma op_of_barrier r x : 0 <= r < nranks -> op_of graphs r x = node_op r x.
Proof. intros Hr. apply (shape_op_of _ _ _ _ _ _ (Hg r Hr)). Qed.

Lemma jump_range k : (k < rounds)%nat -> 0 <= jump k < nranks.
Proof. intros Hk%jump_lt. pose proof (jump_pos k). lia. Qed.

Lemma barrier_send r x d b n : 0 <= r < nranks -> op_of graphs r x = Some (OpSend d b n) ->
  exists k, (k < rounds)%nat /\ x = Node (send_ix k) /\ d = to_send r k /\ n = 0.
Proof.
  intros Hr. rewrite op_of_barrier by done.
  intros (k & Hk & [[_ [=]]|[[-> [= -> -> ->]]|[=]]])%node_op_inv. by exists k.
Qed.
Lemma barrier_recv r x q b n : 0 <= r < nranks -> op_of graphs r x = Some (OpRecv q b n) ->
  exists k, (k < rounds)%nat /\ x = Node (recv_ix k) /\ q = to_recv r k /\ n = 0.
Proof.
  intros Hr. rewrite op_of_barrier by done.
  intros (k & Hk & [[-> [= -> -> ->]]|[[_ [=]]|[=]]])%node_op_inv. by exists k.
Qed.

Lemma barrier_matched : matched nranks graphs (fun _ => node_level).
Proof.
  split.
  - intros r Hr. by apply (barrier_wf r _ (comps r)), Hg.
  - intros r x y Hr. rewrite (shape_edges _ _ _ _ _ _ (Hg r Hr)). apply edge_level.
  - intros r x d b n Hr (k & Hk & -> & -> & ->)%barrier_send; [|done].
    pose proof (jump_range k Hk). assert (Hd : 0 <= to_send r k < nranks) by (apply wrap_range; lia).
    split; [done|]. exists (Node (recv_ix k)), 0. rewrite op_of_barrier, recv_op by done. unfold to_recv, to_send.
    by rewrite up_down, recv_level, send_level by lia.
  - intros r x d b n Hr (k & Hk & -> & -> & ->)%barrier_recv; [|done].
    pose proof (jump_range k Hk). assert (Hd : 0 <= to_recv r k < nranks) by (apply wrap_range; lia).
    split; [done|]. exists (Node (send_ix k)), 0. rewrite op_of_barrier, send_op by done. unfold to_recv, to_send.
    by rewrite down_up, recv_level, send_level by lia.
  - intros r x x' d b b' n n' Hr (k & Hk & -> & -> & ->)%barrier_send (k' & Hk' & -> & E & ->)%barrier_send; [|done..].
    pose proof (jump_range k Hk). pose proof (jump_range k' Hk').
    apply up_inj in E; [|lia..]. by apply jump_inj in E as ->.
  - intros r x x' d b b' n n' Hr (k & Hk & -> & -> & ->)%barrier_recv (k' & Hk' & -> & E & ->)%barrier_recv; [|done..].
    pose proof (jump_range k Hk). pose proof (jump_range k' Hk').
    apply down_inj in E; [|lia..]. by apply jump_inj in E as ->.
Qed.

Section State.
Variable w : world.
Hypothesis W : winv nranks graphs w.

Lemma ran_before r x y : ran_at w r y -> (x, y) ∈ barrier_edges -> marked_at w r x.
Proof.
  intros Hran Hxy. eapply ran_source; [exact W|exact Hran|].
  apply (shape_edges _ _ _ _ _ _ (Hg r (ran_range _ _ _ W _ _ Hran))). exact Hxy.
Qed.
(** A rank in round [k] has received in the round before. *)
Lemma old_marked r k : (k < rounds)%nat -> marked_at w r (old_of (S k)) -> (k + 1)%nat <> rounds ->
  marked_at w r (Node (recv_ix k)).
Proof.
  intros Hk Hm Hl. cbn [old_of] in Hm.
  apply (ran_before r _ (dummy_of k)); [|apply (edge_in k); [done|unfold round_edges; set_solver]].
  pose proof (marked_range _ _ _ W _ _ Hm) as Hr.
  apply (marked_ran nranks graphs (fun r Hr => barrier_wf r _ _ (Hg r Hr)) w W); [done|].
  unfold dummy_of, is_last. rewrite (proj2 (Nat.eqb_neq _ _)) by lia.
  apply (shape_valid _ _ _ _ _ (Hg r Hr)). exists (3 * k)%nat. split; [done|]. rewrite length_barrier. lia.
Qed.

(** A rank that received in round [k] knows of [2^(k+1)] ranks that entered. *)
Lemma received_entered k : forall r, (k < rounds)%nat -> marked_at w r (Node (recv_ix k)) ->
  forall d, 0 <= d < jump (S k) -> entered w ((r - d) mod nranks).
Proof.
  induction k as [k IH] using lt_wf_ind. intros r Hk Hm d Hd. pose proof (marked_range _ _ _ W _ _ Hm) as Hr.
  pose proof (jump_range k Hk) as Hj. rewrite jump_S in Hd.
  assert (Hold : forall r', marked_at w r' (old_of k) -> forall d, 0 <= d < jump k -> entered w ((r' - d) mod nranks)).
  { intros r' Hm' d' Hd'. pose proof (marked_range _ _ _ W _ _ Hm') as Hr'. destruct k as [|k].
    - assert (d' = 0) as -> by (change (jump 0) with 1 in Hd'; lia). rewrite Z.sub_0_r, Z.mod_small by lia.
      by eapply marked_entered.
    - apply (IH k); [lia|lia| |done]. apply old_marked; [lia|done|lia]. }
  assert (Hop : op_of graphs r (Node (recv_ix k)) = Some (OpRecv (to_recv r k) 0 0)).
  { rewrite op_of_barrier by done. by apply recv_op. }
  destruct (Z.lt_ge_cases d (jump k)) as [Hlt|Hge].
  - apply Hold; [|lia]. apply (ran_before r _ (Node (recv_ix k))); [|apply (edge_in k); [done|unfold round_edges; set_solver]].
    apply (marked_ran nranks graphs (fun r Hr => barrier_wf r _ _ (Hg r Hr)) w W); [done|]. by eapply op_of_valid.
  - destruct (recv_sent _ _ _ W _ _ _ _ _ Hm Hop) as (x & b & n & Hx & Hran).
    pose proof (ran_range _ _ _ W _ _ Hran) as Hq.
    destruct (barrier_send _ _ _ _ _ Hq Hx) as (k' & Hk' & -> & E & _).
    assert (k' = k) as ->.
    { pose proof (jump_range k' Hk'). unfold to_send, to_recv in E.
      apply jump_inj. apply (up_inj nranks ((r - jump k + nranks) mod nranks)); [done|lia|lia|].
      rewrite <- E. by rewrite down_up by lia. }
    replace ((r - d) mod nranks) with ((to_recv r k - (d - jump k)) mod nranks).
    + apply Hold; [|lia]. apply (ran_before _ _ (Node (send_ix k))); [done|].
      apply (edge_in k); [done|unfold round_edges; set_solver].
    + unfold to_recv. rewrite Zminus_mod_idemp_l. replace (r - jump k + nranks - (d - jump k)) with (r - d + 1 * nranks) by lia.
      apply Z.mod_add. lia.
Qed.

Lemma over_all_entered r c q : w_conf w r = Some c -> is_over c -> 0 <= q < nranks -> entered w q.
Proof.
  intros Hc Ho Hq. pose proof rounds_pos as Hp. pose proof (conf_range _ _ _ W _ _ Hc) as Hr.
  assert (Hm : marked_at w r (Node (recv_ix (rounds - 1)))).
  { apply (over_source nranks graphs (fun r Hr => barrier_wf r _ _ (Hg r Hr)) w W _ c); [done|done|]. apply (shape_edges _ _ _ _ _ _ (Hg r Hr)).
    apply (edge_in (rounds - 1)); [lia|]. unfold round_edges.
    assert (dummy_of (rounds - 1) = GRAPH_END) as ->; [|set_solver].
    unfold dummy_of, is_last. by rewrite (proj2 (Nat.eqb_eq _ _)) by lia. }
  replace q with ((r - (r - q) mod nranks) mod nranks).
  - apply (received_entered (rounds - 1)); [lia|done|]. pose proof (wrap_range nranks (r - q) ltac:(lia)).
    replace (S (rounds - 1)) with rounds by lia. pose proof (jump_lt rounds). lia.
  - rewrite Zminus_mod_idemp_r. replace (r - (r - q)) with q by lia. apply Z.mod_small. lia.
Qed.
End State.
End World.
End Barrier.

(** C7: the dissemination barrier. For two or more ranks every rank builds a graph,
    and whatever the ranks' threads and the network do: a rank's graph is over
    (complete, or [test] says done) only when every rank has entered the barrier;
    the number of steps is bounded; and when nothing can happen any more, every
    rank's graph is complete, even if sends complete only when their receive is
    posted. *)
Theorem barrier_synchronizes nranks comps reduce_op :
  2 <= nranks ->
  exists graphs,
    (forall r, 0 <= r < nranks ->
       barrier_x r nranks (comps r) = Ok (PGraph (graphs r) (comp_is_empty (comps r))))
    /\ (forall mem w, rtc (wstep nranks graphs reduce_op) (world_init mem) w ->
         forall r c q, w_conf w r = Some c -> is_over c -> 0 <= q < nranks -> entered w q)
    /\ terminates nranks graphs reduce_op.
Proof.
  intros Hn.
  destruct (choose_graphs nranks (fun r g => barrier_x r nranks (comps r) = Ok (PGraph g (comp_is_empty (comps r)))
    /\ gshape g (comps r) (barrier_ops nranks r) (barrier_edges nranks))) as [graphs Hg].
  { intros r Hr. by apply barrier_graph. }
  assert (Hs : forall r, 0 <= r < nranks -> gshape (graphs r) (comps r) (barrier_ops nranks r) (barrier_edges nranks))
    by (intros r Hr; by apply Hg).
  pose proof (barrier_matched nranks Hn graphs comps Hs) as M. exists graphs. split_and!.
  - intros r Hr. by apply Hg.
  - intros mem w R. apply (over_all_entered nranks Hn graphs comps Hs).
    apply (winv_run nranks graphs reduce_op (mt_wf _ _ _ M) mem w R).
  - by eapply matched_terminates.
Qed.
Lemma barrier_synchronizes_witness :
  exists graphs, barrier_x 2 5 0 = Ok (PGraph (graphs 2) true)
    /\ terminates 5 graphs (fun _ _ _ _ m => m).
Proof.
  destruct (barrier_synchronizes 5 (fun _ => 0) (fun _ _ _ _ m => m)) as (graphs & H1 & _ & H2); [lia|].
  exists graphs. split; [apply (H1 2); lia|exact H2].
Defined.
