(* ===== verification/Tree.v ===== *)
(** * The binomial tree

    The positions of the ranks in the rounds of the tree that [broadcast] and
    [reduce] compute (src/src/collective/broadcast.cpp, reduce.cpp). At all times
    the ranks, counted from the root, are divided into segments whose first rank
    has the data; a rank knows its distance to both ends of its segment. A round
    with jump [j] cuts every longer segment [j] ranks from its start. *)
From stdpp Require Import base numbers list.
From Stdlib Require Import ZArith Lia.
From S2P Require Import Prelude Status Memory Graph GraphRuns GraphBuild Collective World CollectiveBuild.

Section Tree.
Variables nranks root : Z.
Hypothesis Hn : 2 <= nranks.
Hypothesis Hroot : 0 <= root < nranks.

(** ** Jumps *)

Fixpoint jmp (t : nat) : Z := match t with O => ceil_half nranks | S t => ceil_half (jmp t) end.
Definition tree_last : nat := Z.to_nat (Z.log2_up nranks) - 1.

Lemma ceil_half_bounds x : 0 <= x -> x <= 2 * ceil_half x <= x + 1.
Proof. intros Hx. unfold ceil_half. pose proof (Z.div_mod (x + 1) 2). pose proof (Z.mod_pos_bound (x + 1) 2). lia. Qed.
Lemma jmp_pos t : 1 <= jmp t.
Proof. induction t; cbn; [pose proof (ceil_half_bounds nranks)|pose proof (ceil_half_bounds (jmp t))]; lia. Qed.
Lemma jmp_S t : jmp t <= 2 * jmp (S t) <= jmp t + 1.
Proof. pose proof (jmp_pos t). apply ceil_half_bounds. lia. Qed.
(** [jmp t] is [nranks / 2^(t+1)], rounded up. *)
Lemma jmp_pow t : (jmp t - 1) * 2 ^ Z.of_nat (S t) < nranks <= jmp t * 2 ^ Z.of_nat (S t).
Proof.
  induction t as [|t IH]; [cbn; pose proof (ceil_half_bounds nranks); lia|].
  rewrite (Nat2Z.inj_succ (S t)), Z.pow_succ_r by lia. pose proof (jmp_S t).
  assert (0 < 2 ^ Z.of_nat (S t)) by (apply Z.pow_pos_nonneg; lia). nia.
Qed.
Lemma jmp_one t : jmp t = 1 <-> (tree_last <= t)%nat.
Proof.
  pose proof (jmp_pow t) as Hp. pose proof (jmp_pos t). unfold tree_last.
  assert (0 < 2 ^ Z.of_nat (S t)) by (apply Z.pow_pos_nonneg; lia).
  pose proof (Z.log2_up_le_pow2 nranks (Z.of_nat (S t)) ltac:(lia)) as Hl.
  pose proof (Z.log2_up_pos nranks ltac:(lia)). split; intros H'.
  - rewrite H' in Hp. assert (Z.log2_up nranks <= Z.of_nat (S t)) by (apply Hl; lia). lia.
  - assert (nranks <= 2 ^ Z.of_nat (S t)) by (apply Hl; lia). nia.
Qed.
Lemma jmp_decreases t t' : (t < t')%nat -> (t' <= tree_last)%nat -> jmp t' < jmp t.
Proof.
  induction 1 as [|t' Ht IH]; intros Hl.
  - pose proof (jmp_S t). pose proof (jmp_pos t). pose proof (jmp_one t). lia.
  - pose proof (jmp_S t'). pose proof (jmp_pos t'). pose proof (jmp_one t'). lia.
Qed.
Lemma jmp_lt t : jmp t < nranks.
Proof.
  induction t as [|t IH]; [cbn; pose proof (ceil_half_bounds nranks); lia|].
  pose proof (jmp_S t). pose proof (jmp_pos t). lia.
Qed.

(** ** Positions *)

(** The state of a rank before round [t]. *)
Fixpoint tstate (rank : Z) (t : nat) : tree_state :=
  match t with
  | O => tree_init rank nranks root
  | S t => tree_next (tree_update rank nranks (tstate rank t))
  end.
Definition tact (rank : Z) (t : nat) : option (bool * Z) := tree_action rank nranks (tstate rank t).

(** The [d]-th rank from the root. *)
Definition rank_at (d : Z) : Z := (root + d) mod nranks.
Definition dist (r : Z) : Z := (r + nranks - root) mod nranks.
Lemma rank_at_range d : 0 <= rank_at d < nranks.
Proof. apply wrap_range. lia. Qed.
Lemma dist_range r : 0 <= dist r < nranks.
Proof. apply wrap_range. lia. Qed.
Lemma dist_eq r : 0 <= r < nranks -> dist r = if root <=? r then r - root else r - root + nranks.
Proof. intros Hr. unfold dist. replace (r + nranks - root) with (r - root + nranks) by lia. by apply wrap_down. Qed.
Lemma rank_at_eq d : 0 <= d < nranks -> rank_at d = if root + d <? nranks then root + d else root + d - nranks.
Proof. intros Hd. by apply wrap_up. Qed.
Lemma rank_at_dist r : 0 <= r < nranks -> rank_at (dist r) = r.
Proof.
  intros Hr. pose proof (dist_range r). rewrite rank_at_eq, dist_eq by done.
  destruct (root <=? r) eqn:E; destruct (_ <? _) eqn:E'; lia.
Qed.
Lemma dist_rank_at d : 0 <= d < nranks -> dist (rank_at d) = d.
Proof.
  intros Hd. pose proof (rank_at_range d). rewrite dist_eq, rank_at_eq by done.
  destruct (root + d <? nranks) eqn:E; destruct (_ <=? _) eqn:E'; lia.
Qed.
Lemma rank_at_inj d d' : 0 <= d < nranks -> 0 <= d' < nranks -> rank_at d = rank_at d' -> d = d'.
Proof. intros Hd Hd' E. by rewrite <- (dist_rank_at d), E, dist_rank_at. Qed.

#[local] Abbreviation L d t := (distance_left (tstate (rank_at d) t)).
#[local] Abbreviation R d t := (distance_right (tstate (rank_at d) t)).

Lemma tstate_jump r t : tree_jump (tstate r t) = jmp t.
Proof.
  induction t as [|t IH]; [done|]. cbn [tstate jmp]. unfold tree_next, tree_update. cbn [tree_jump].
  destruct (_ <=? _); cbn; by rewrite IH.
Qed.

Record tree_inv (t : nat) (d : Z) : Prop := mk_tree_inv {
  ti_pos : 0 <= L d t <= d /\ 0 <= R d t < nranks - d;
  ti_bound : L d t + R d t + 1 <= 2 * jmp t;
  ti_data : has_data (tstate (rank_at d) t) = (L d t =? 0);
  ti_right : forall k, 0 <= k <= R d t -> L (d + k) t = L d t + k /\ R (d + k) t = R d t - k;
  ti_left : forall k, 0 <= k <= L d t -> L (d - k) t = L d t - k /\ R (d - k) t = R d t + k
}.

Lemma L_S r t : distance_left (tstate r (S t))
  = if jmp t <=? distance_left (tstate r t) then distance_left (tstate r t) - jmp t else distance_left (tstate r t).
Proof. cbn [tstate]. unfold tree_next, tree_update. rewrite tstate_jump. by destruct (_ <=? _). Qed.
Lemma R_S r t : distance_right (tstate r (S t))
  = if jmp t <=? distance_left (tstate r t) then distance_right (tstate r t)
    else Z.min (jmp t - distance_left (tstate r t) - 1) (distance_right (tstate r t)).
Proof. cbn [tstate]. unfold tree_next, tree_update. rewrite tstate_jump. by destruct (_ <=? _). Qed.
Lemma has_S r t : has_data (tstate r (S t))
  = match tact r t with Some (false, _) => true | _ => has_data (tstate r t) end.
Proof. cbn [tstate]. unfold tree_next, tree_update, tact. by destruct (_ <=? _). Qed.

Lemma tact_eq r t : tact r t
  = if has_data (tstate r t) && (jmp t <=? distance_right (tstate r t)) then Some (true, (r + jmp t) mod nranks)
    else if distance_left (tstate r t) =? jmp t then Some (false, (r - jmp t + nranks) mod nranks) else None.
Proof. unfold tact, tree_action. by rewrite tstate_jump. Qed.

Lemma tree_inv_init d : 0 <= d < nranks -> tree_inv 0 d.
Proof.
  intros Hd.
  assert (HL : forall d, 0 <= d < nranks -> L d 0 = d) by (intros d' Hd'; by apply dist_rank_at).
  assert (HR : forall d, 0 <= d < nranks -> R d 0 = nranks - 1 - d).
  { intros d' Hd'. cbn. replace (root - 1 - rank_at d' + nranks) with (nranks - 1 - (rank_at d' - root)) by lia.
    rewrite rank_at_eq by done. destruct (root + d' <? nranks) eqn:E.
    - rewrite Z.mod_small; lia.
    - symmetry. apply (Z.mod_unique_pos _ _ 1); lia. }
  split; rewrite ?HL, ?HR by done; try lia.
  - cbn [jmp]. pose proof (ceil_half_bounds nranks). lia.
  - cbn. rewrite rank_at_eq by done. destruct (root + d <? nranks) eqn:E; lia.
  - intros k Hk. rewrite HL, HR by lia. lia.
  - intros k Hk. rewrite HL, HR by lia. lia.
Qed.
Lemma tree_inv_S t d : 0 <= d < nranks -> tree_inv t d -> tree_inv (S t) d.
Proof.
  intros Hd [[H1 H1'] H2 H3 H4 H5]. pose proof (jmp_pos t) as Hj. pose proof (jmp_S t) as Hj'.
  split; rewrite ?L_S, ?R_S.
  - destruct (_ <=? _) eqn:E; lia.
  - destruct (_ <=? _) eqn:E; lia.
  - rewrite has_S, tact_eq, H3. destruct (L d t =? 0) eqn:E0; cbn.
    + destruct (jmp t <=? R d t) eqn:E1; [|destruct (L d t =? jmp t) eqn:E2; [lia|]]; destruct (jmp t <=? L d t) eqn:E3; lia.
    + destruct (L d t =? jmp t) eqn:E2; destruct (jmp t <=? L d t) eqn:E3; lia.
  - intros k Hk. rewrite !L_S, !R_S. destruct (H4 k) as [-> ->]; [destruct (_ <=? _) eqn:E in Hk; lia|].
    destruct (jmp t <=? L d t) eqn:E; destruct (jmp t <=? L d t + k) eqn:E'; lia.
  - intros k Hk. rewrite !L_S, !R_S. destruct (H5 k) as [-> ->]; [destruct (_ <=? _) eqn:E in Hk; lia|].
    destruct (jmp t <=? L d t) eqn:E; destruct (jmp t <=? L d t - k) eqn:E'; lia.
Qed.
Lemma tree_inv_all t d : 0 <= d < nranks -> tree_inv t d.
Proof. intros Hd. induction t; [by apply tree_inv_init|by apply tree_inv_S]. Qed.

(** *** What the rounds do *)

Lemma tact_send d t r : 0 <= d < nranks ->
  tact (rank_at d) t = Some (true, r) <-> L d t = 0 /\ jmp t <= R d t /\ r = rank_at (d + jmp t).
Proof.
  intros Hd. destruct (tree_inv_all t d Hd) as [[H1 H1'] H2 H3 H4 H5]. pose proof (jmp_pos t). rewrite tact_eq, H3.
  assert (Hr : (rank_at d + jmp t) mod nranks = rank_at (d + jmp t)).
  { unfold rank_at. rewrite Zplus_mod_idemp_l. f_equal. lia. }
  rewrite Hr. destruct (L d t =? 0) eqn:E; destruct (jmp t <=? R d t) eqn:E'; cbn; [|destruct (L d t =? jmp t) eqn:E2..];
    split; try lia; intros Hs; try discriminate.
  - injection Hs as <-. lia.
  - destruct Hs as (_ & _ & ->). done.
Qed.
Lemma tact_recv d t r : 0 <= d < nranks ->
  tact (rank_at d) t = Some (false, r) <-> L d t = jmp t /\ r = rank_at (d - jmp t).
Proof.
  intros Hd. destruct (tree_inv_all t d Hd) as [[H1 H1'] H2 H3 H4 H5]. pose proof (jmp_pos t). rewrite tact_eq, H3.
  assert (Hr : (rank_at d - jmp t + nranks) mod nranks = rank_at (d - jmp t)).
  { unfold rank_at. replace ((root + d) mod nranks - jmp t + nranks) with ((root + d) mod nranks + (nranks - jmp t)) by lia.
    rewrite Zplus_mod_idemp_l. replace (root + d + (nranks - jmp t)) with (root + (d - jmp t) + 1 * nranks) by lia.
    apply Z.mod_add. lia. }
  rewrite Hr. destruct (L d t =? 0) eqn:E; destruct (jmp t <=? R d t) eqn:E'; cbn; try (destruct (L d t =? jmp t) eqn:E2);
    split; try lia; intros Hs; try discriminate; try (injection Hs as <-; lia); by destruct Hs as (_ & ->).
Qed.

(** The first rank of a segment and the rank [jmp t] after it act together. *)
Lemma send_has_recv d t r : 0 <= d < nranks -> tact (rank_at d) t = Some (true, r) ->
  0 <= d + jmp t < nranks /\ r = rank_at (d + jmp t) /\ tact r t = Some (false, rank_at d).
Proof.
  intros Hd (H1 & H2 & ->)%tact_send; [|done]. pose proof (jmp_pos t).
  destruct (tree_inv_all t d Hd) as [[I1 I1'] I2 I3 I4 I5]. assert (Hd' : 0 <= d + jmp t < nranks) by lia.
  split; [done|]. split; [done|]. apply tact_recv; [done|]. destruct (I4 (jmp t)) as [-> _]; [lia|].
  split; [lia|]. f_equal. lia.
Qed.
Lemma recv_has_send d t r : 0 <= d < nranks -> tact (rank_at d) t = Some (false, r) ->
  0 <= d - jmp t < nranks /\ r = rank_at (d - jmp t) /\ tact r t = Some (true, rank_at d).
Proof.
  intros Hd (H1 & ->)%tact_recv; [|done]. pose proof (jmp_pos t).
  destruct (tree_inv_all t d Hd) as [[I1 I1'] I2 I3 I4 I5]. assert (Hd' : 0 <= d - jmp t < nranks) by lia.
  split; [done|]. split; [done|]. apply tact_send; [done|]. destruct (I5 (jmp t)) as [-> ->]; [lia|].
  split; [lia|]. split; [lia|]. f_equal. lia.
Qed.

Lemma L_mono d t t' : 0 <= d < nranks -> (t <= t')%nat -> L d t' <= L d t.
Proof.
  intros Hd. induction 1 as [|t' Ht IH]; [lia|]. rewrite L_S. pose proof (jmp_pos t'). destruct (_ <=? _); lia.
Qed.
(** A rank receives at most once; then it is the first of its segment. *)
Lemma recv_then_first d t t' r : 0 <= d < nranks -> tact (rank_at d) t = Some (false, r) -> (t < t')%nat -> L d t' = 0.
Proof.
  intros Hd (H1 & _)%tact_recv Ht; [|done]. pose proof (L_mono d (S t) t' Hd ltac:(lia)) as Hm.
  destruct (tree_inv_all t' d Hd) as [[I _] _ _ _ _]. rewrite L_S in Hm.
  destruct (_ <=? _) eqn:E; lia.
Qed.
(** The first of a segment is the root or has received. *)
Lemma first_received d t : 0 <= d < nranks -> L d t = 0 ->
  d = 0 \/ exists t' r, (t' < t)%nat /\ tact (rank_at d) t' = Some (false, r).
Proof.
  intros Hd. induction t as [|t IH]; intros H0.
  - left. rewrite <- (dist_rank_at d Hd). exact H0.
  - destruct (tree_inv_all t d Hd) as [[I1 _] _ _ _ _]. rewrite L_S in H0. destruct (jmp t <=? L d t) eqn:E.
    + right. exists t, (rank_at (d - jmp t)). split; [lia|]. apply tact_recv; [done|]. split; [lia|done].
    + destruct (IH H0) as [?|(t' & r & ? & ?)]; [by left|right]. exists t', r. split; [lia|done].
Qed.
(** After the last round all segments have one rank. *)
Lemma tree_ends d t : 0 <= d < nranks -> (tree_last <= t)%nat -> L d (S t) = 0 /\ R d (S t) = 0.
Proof.
  intros Hd Ht. destruct (tree_inv_all t d Hd) as [[I1 I1'] I2 _ _ _]. pose proof (proj2 (jmp_one t) Ht) as Hj.
  rewrite L_S, R_S. destruct (jmp t <=? L d t) eqn:E; lia.
Qed.
End Tree.
