(* ===== verification/BroadcastTree.v ===== *)
(** * Broadcast over the binomial tree

    The chain of sends and receives that [build_graph_tree] of
    src/src/collective/broadcast.cpp builds for a rank, and their matching. *)
From stdpp Require Import base numbers functions list gmap strings relations.
From Stdlib Require Import ZArith Lia.
From S2P Require Import Prelude Status Memory Graph GraphRuns GraphBuild Collective World WorldRuns CollectiveBuild Tree.

Section BroadcastTree.
Variables nranks root size : Z.
Variable buffer : Z -> Z.
Hypothesis Hn : 2 <= nranks.
Hypothesis Hroot : 0 <= root < nranks.
#[local] Abbreviation tact := (tact nranks root).
#[local] Abbreviation tstate := (tstate nranks root).
#[local] Abbreviation last := (tree_last nranks).
#[local] Abbreviation rank_at := (rank_at nranks root).
#[local] Abbreviation dist := (dist nranks root).
#[local] Abbreviation jmp := (jmp nranks).

(** ** The chain of a rank *)

(** The rounds before [t] in which the rank acts. *)
Definition acts_in (r : Z) (t : nat) : list nat := filter (fun t => is_Some (tact r t)) (seq 0 t).
Definition top (r : Z) (t : nat) : option coll_op :=
  match tact r t with
  | Some (true, d) => Some (OpSend d (buffer r) size)
  | Some (false, q) => Some (OpRecv q (buffer r) size)
  | None => None
  end.
Definition tops (r : Z) (t : nat) : list (option coll_op) := top r <$> acts_in r t.

Lemma acts_in_S r t : acts_in r (S t) = acts_in r t ++ (match tact r t with Some _ => [t] | None => [] end).
Proof.
  unfold acts_in. rewrite seq_S, filter_app. f_equal. rewrite filter_cons, filter_nil. cbn.
  destruct (tact r t); [by rewrite decide_True|]. rewrite decide_False; [done|by intros [? ?]].
Qed.
Lemma length_tops r t : length (tops r t) = length (acts_in r t).
Proof. apply length_fmap. Qed.

Lemma acts_in_lookup r t i k : acts_in r t !! i = Some k -> (k < t)%nat /\ is_Some (tact r k).
Proof.
  intros H%list_elem_of_lookup_2. apply list_elem_of_filter in H as [H1 H2]. apply elem_of_seq in H2. split; [lia|done].
Qed.
Lemma acts_in_sorted r t i j k l :
  acts_in r t !! i = Some k -> acts_in r t !! j = Some l -> (i < j)%nat -> (k < l)%nat.
Proof.
  induction t as [|t IH]; [done|]. rewrite acts_in_S. intros Hi Hj Hij.
  apply lookup_app_Some in Hj as [Hj|[Hj1 Hj2]].
  - apply IH; [|done|done]. rewrite lookup_app_l in Hi; [done|]. apply lookup_lt_Some in Hj. lia.
  - destruct (tact r t); [|done]. apply list_lookup_singleton_Some in Hj2 as [Hj2 <-].
    rewrite lookup_app_l in Hi by lia. by apply acts_in_lookup in Hi as [? _].
Qed.
Lemma acts_in_complete r t k : (k < t)%nat -> is_Some (tact r k) -> exists i, acts_in r t !! i = Some k.
Proof. intros Hk Ha. apply list_elem_of_lookup, list_elem_of_filter. split; [done|]. apply elem_of_seq. lia. Qed.

(** *** Building *)

Lemma builds_tree_rounds r fuel : forall t, (t <= last)%nat -> (last < t + fuel)%nat ->
  builds (tree_rounds r nranks fuel (buffer r) size (tstate r t) (prev (length (acts_in r t))))
    (tops r t) (chain (length (acts_in r t)))
    (prev (length (acts_in r (S last)))) (tops r (S last)) (chain (length (acts_in r (S last)))).
Proof.
  induction fuel as [|fuel IH]; intros t Ht Hf; [lia|]. cbn [tree_rounds]. fold (tact r t).
  eapply (builds_bind _ _ _ _ (prev (length (acts_in r (S t)))) (tops r (S t)) (chain (length (acts_in r (S t))))).
  - unfold tops. rewrite acts_in_S, fmap_app, length_app.
    assert (Hsrc : forall o, src_ok (tops r t ++ [o]) (prev (length (acts_in r t)))).
    { intros o. pose proof (length_tops r t) as E. destruct (length (acts_in r t)); [done|]. cbn. rewrite length_app. cbn. lia. }
    fold (tops r t). pose proof (length_tops r t) as E.
    destruct (tact r t) as [[[] d]|] eqn:Ha; cbn [length]; rewrite ?Nat.add_1_r, ?Nat.add_0_r.
    + eapply builds_bind; [apply builds_op|]. rewrite E. eapply builds_bind; [apply builds_edge; [apply Hsrc|]|].
      * cbn. rewrite length_app, E. cbn. lia.
      * cbn [fmap list_fmap]. unfold top. rewrite Ha. apply builds_ret.
    + eapply builds_bind; [apply builds_op|]. rewrite E. eapply builds_bind; [apply builds_edge; [apply Hsrc|]|].
      * cbn. rewrite length_app, E. cbn. lia.
      * cbn [fmap list_fmap]. unfold top. rewrite Ha. apply builds_ret.
    + cbn [fmap list_fmap]. rewrite app_nil_r. apply builds_ret.
  - assert (tree_jump (tree_update r nranks (tstate r t)) = jmp t) as ->.
    { rewrite <- (tstate_jump nranks root r t). unfold tree_update. by destruct (_ <=? _). }
    pose proof (jmp_one nranks Hn t) as Hj. destruct (jmp t =? 1) eqn:E1.
    + replace t with last by lia. apply builds_ret.
    + apply (IH (S t)); lia.
Qed.

Definition tree_ops (r : Z) : list (option coll_op) := tops r (S last).
Lemma builds_tree r : builds (build_graph_tree r nranks (buffer r) size root) [] [] tt
  (tree_ops r) (chain_all (length (tree_ops r))).
Proof.
  unfold build_graph_tree. eapply builds_bind; [apply (builds_tree_rounds r _ 0); [lia|]|].
  - unfold tree_last. assert (Z.log2_up nranks <= nranks) by (apply Z.log2_up_le_lin; lia). lia.
  - unfold tree_ops. rewrite length_tops. apply builds_edge; [|done].
    pose proof (length_tops r (S last)) as E. destruct (length (acts_in r (S last))); [done|]. cbn [prev src_ok]. lia.
Qed.

(** ** All ranks *)

Section World.
Variable graphs : Z -> coll_graph.
Variable comps : Z -> Z.
Hypothesis Hg : forall r, 0 <= r < nranks -> gshape (graphs r) (comps r) (tree_ops r) (chain_all (length (tree_ops r))).
#[local] Abbreviation acts r := (acts_in r (S last)).

Lemma tree_wf r : 0 <= r < nranks -> well_formed (graphs r).
Proof. intros Hr. by eapply chain_wf, Hg. Qed.

Lemma tree_op_at r i k : 0 <= r < nranks -> acts r !! i = Some k -> op_of graphs r (Node i) = top r k.
Proof.
  intros Hr Hi. rewrite (shape_op_of _ _ _ _ _ _ (Hg r Hr)). unfold tree_ops, tops. by rewrite list_lookup_fmap, Hi.
Qed.
Lemma tree_op_inv r x op : 0 <= r < nranks -> op_of graphs r x = Some op ->
  exists i k, x = Node i /\ acts r !! i = Some k /\ top r k = Some op.
Proof.
  intros Hr. rewrite (shape_op_of _ _ _ _ _ _ (Hg r Hr)). destruct x as [| |i]; [done..|].
  unfold tree_ops, tops. rewrite list_lookup_fmap. destruct (acts r !! i) as [k|] eqn:E; [|done]. cbn. eauto.
Qed.
Lemma tree_send r x d b n : 0 <= r < nranks -> op_of graphs r x = Some (OpSend d b n) ->
  exists i k, x = Node i /\ acts r !! i = Some k /\ tact r k = Some (true, d) /\ b = buffer r /\ n = size.
Proof.
  intros Hr (i & k & -> & Hi & Ht)%tree_op_inv; [|done]. exists i, k. unfold top in Ht.
  destruct (tact r k) as [[[] ?]|]; naive_solver.
Qed.
Lemma tree_recv r x q b n : 0 <= r < nranks -> op_of graphs r x = Some (OpRecv q b n) ->
  exists i k, x = Node i /\ acts r !! i = Some k /\ tact r k = Some (false, q) /\ b = buffer r /\ n = size.
Proof.
  intros Hr (i & k & -> & Hi & Ht)%tree_op_inv; [|done]. exists i, k. unfold top in Ht.
  destruct (tact r k) as [[[] ?]|]; naive_solver.
Qed.

(** The level of a node is its round. *)
Definition tree_level (r : Z) (x : graph_node_t) : nat :=
  match x with
  | GRAPH_START => 0
  | GRAPH_END => S (S (S last))
  | Node i => S (default 0%nat (acts r !! i))
  end.

Lemma tree_send_peer r k d : 0 <= r < nranks -> tact r k = Some (true, d) ->
  0 <= d < nranks /\ tact d k = Some (false, r) /\ d = rank_at (dist r + jmp k) /\ dist r + jmp k < nranks.
Proof.
  intros Hr Ha. pose proof (dist_range nranks root Hn r). pose proof (jmp_pos nranks Hn k).
  rewrite <- (rank_at_dist nranks root Hn Hroot r) in Ha by done.
  destruct (send_has_recv nranks root Hn Hroot _ _ _ ltac:(done) Ha) as (H1 & -> & H2).
  rewrite rank_at_dist in H2 by done. split_and!; try done; try lia; by apply rank_at_range.
Qed.
Lemma tree_recv_peer r k q : 0 <= r < nranks -> tact r k = Some (false, q) ->
  0 <= q < nranks /\ tact q k = Some (true, r) /\ q = rank_at (dist r - jmp k) /\ 0 <= dist r - jmp k.
Proof.
  intros Hr Ha. pose proof (dist_range nranks root Hn r). pose proof (jmp_pos nranks Hn k).
  rewrite <- (rank_at_dist nranks root Hn Hroot r) in Ha by done.
  destruct (recv_has_send nranks root Hn Hroot _ _ _ ltac:(done) Ha) as (H1 & -> & H2).
  rewrite rank_at_dist in H2 by done. split_and!; try done; try lia; by apply rank_at_range.
Qed.

Lemma recv_once r k q k' q' : 0 <= r < nranks ->
  tact r k = Some (false, q) -> tact r k' = Some (false, q') -> ~ (k < k')%nat.
Proof.
  intros Hr Ha Ha' Hlt. pose proof (dist_range nranks root Hn r) as Hd.
  rewrite <- (rank_at_dist nranks root Hn Hroot r) in Ha, Ha' by done.
  pose proof (recv_then_first nranks root Hn Hroot _ _ _ _ Hd Ha Hlt) as H0.
  apply tact_recv in Ha' as [Ha' _]; [|done..]. pose proof (jmp_pos nranks Hn k'). lia.
Qed.

Lemma tree_matched : matched nranks graphs tree_level.
Proof.
  split.
  - exact tree_wf.
  - intros r x y Hr. rewrite (shape_edges _ _ _ _ _ _ (Hg r Hr)). unfold tree_ops. rewrite length_tops.
    intros [[= -> ->]|(i & Hi & [= -> ->])]%elem_of_chain_all.
    + destruct (length (acts r)) as [|i] eqn:E; cbn [prev tree_level]; [lia|].
      destruct (acts r !! i) as [k|] eqn:Hk; cbn [from_option id]; [|lia]. apply acts_in_lookup in Hk as [? _]. lia.
    + destruct (lookup_lt_is_Some_2 _ _ Hi) as [k Hk]. destruct i as [|i]; cbn [prev tree_level]; [lia|]. rewrite Hk.
      destruct (lookup_lt_is_Some_2 (acts r) i ltac:(lia)) as [l Hl]. rewrite Hl. cbn [from_option id].
      pose proof (acts_in_sorted _ _ _ _ _ _ Hl Hk). lia.
  - intros r x d b n Hr (i & k & -> & Hi & Ha & -> & ->)%tree_send; [|done].
    destruct (tree_send_peer _ _ _ Hr Ha) as (Hd & Ha' & _). split; [done|].
    destruct (acts_in_complete d (S last) k) as [j Hj]; [by apply acts_in_lookup in Hi as [? _]|by eexists|].
    exists (Node j), (buffer d). rewrite (tree_op_at _ _ _ Hd Hj). unfold top. rewrite Ha'. split; [done|].
    cbn [tree_level]. by rewrite Hi, Hj.
  - intros r x d b n Hr (i & k & -> & Hi & Ha & -> & ->)%tree_recv; [|done].
    destruct (tree_recv_peer _ _ _ Hr Ha) as (Hd & Ha' & _). split; [done|].
    destruct (acts_in_complete d (S last) k) as [j Hj]; [by apply acts_in_lookup in Hi as [? _]|by eexists|].
    exists (Node j), (buffer d). rewrite (tree_op_at _ _ _ Hd Hj). unfold top. rewrite Ha'. split; [done|].
    cbn [tree_level]. by rewrite Hi, Hj.
  - intros r x x' d b b' n n' Hr (i & k & -> & Hi & Ha & _)%tree_send (i' & k' & -> & Hi' & Ha' & _)%tree_send; [|done..].
    destruct (tree_send_peer _ _ _ Hr Ha) as (_ & _ & E & Hj). destruct (tree_send_peer _ _ _ Hr Ha') as (_ & _ & E' & Hj').
    pose proof (dist_range nranks root Hn r). pose proof (jmp_pos nranks Hn k). pose proof (jmp_pos nranks Hn k').
    rewrite E in E'. apply rank_at_inj in E'; [|lia..].
    pose proof (proj1 (acts_in_lookup _ _ _ _ Hi)). pose proof (proj1 (acts_in_lookup _ _ _ _ Hi')).
    assert (k = k') as ->.
    { destruct (lt_eq_lt_dec k k') as [[Hlt|?]|Hlt]; [|done|].
      - pose proof (jmp_decreases nranks Hn _ _ Hlt). lia.
      - pose proof (jmp_decreases nranks Hn _ _ Hlt). lia. }
    f_equal. destruct (lt_eq_lt_dec i i') as [[Hlt|?]|Hlt]; [|done|].
    + pose proof (acts_in_sorted _ _ _ _ _ _ Hi Hi' Hlt). lia.
    + pose proof (acts_in_sorted _ _ _ _ _ _ Hi' Hi Hlt). lia.
  - intros r x x' d b b' n n' Hr (i & k & -> & Hi & Ha & _)%tree_recv (i' & k' & -> & Hi' & Ha' & _)%tree_recv; [|done..].
    f_equal. destruct (lt_eq_lt_dec i i') as [[Hlt|?]|Hlt]; [|done|].
    + pose proof (acts_in_sorted _ _ _ _ _ _ Hi Hi' Hlt). by destruct (recv_once _ _ _ _ _ Hr Ha Ha').
    + pose proof (acts_in_sorted _ _ _ _ _ _ Hi' Hi Hlt). by destruct (recv_once _ _ _ _ _ Hr Ha' Ha).
Qed.

(** *** Who has the data *)

(** A rank other than the root receives, and before it sends. *)
Lemma tree_receives r : 0 <= r < nranks -> r <> root ->
  exists j k q, acts r !! j = Some k /\ tact r k = Some (false, q).
Proof.
  intros Hr Hne. pose proof (dist_range nranks root Hn r) as Hd.
  destruct (tree_ends nranks root Hn Hroot (dist r) last Hd ltac:(lia)) as [H0 _].
  apply first_received in H0; [|done..]. rewrite rank_at_dist in H0 by done. destruct H0 as [H0|(k & q & Hk & Ha)].
  - destruct Hne. rewrite <- (rank_at_dist nranks root Hn Hroot r), H0 by done. unfold Tree.rank_at.
    rewrite Z.add_0_r. by apply Z.mod_small.
  - destruct (acts_in_complete r (S last) k) as [j Hj]; [lia|by eexists|]. eauto.
Qed.
Lemma tree_send_after r i k d : 0 <= r < nranks -> r <> root -> acts r !! i = Some k -> tact r k = Some (true, d) ->
  exists j k' q, (j < i)%nat /\ acts r !! j = Some k' /\ tact r k' = Some (false, q).
Proof.
  intros Hr Hne Hi Ha. pose proof (dist_range nranks root Hn r) as Hd.
  rewrite <- (rank_at_dist nranks root Hn Hroot r) in Ha by done. apply tact_send in Ha as (H0 & _ & _); [|done..].
  apply first_received in H0; [|done..]. rewrite rank_at_dist in H0 by done. destruct H0 as [H0|(k' & q & Hk & Ha)].
  - destruct Hne. rewrite <- (rank_at_dist nranks root Hn Hroot r), H0 by done. unfold Tree.rank_at.
    rewrite Z.add_0_r. by apply Z.mod_small.
  - destruct (acts_in_complete r (S last) k') as [j Hj]; [apply acts_in_lookup in Hi; lia|by eexists|].
    exists j, k', q. split; [|done]. destruct (lt_eq_lt_dec i j) as [[Hlt|Hij]|?]; [|exfalso|done].
    + pose proof (acts_in_sorted _ _ _ _ _ _ Hi Hj Hlt). lia.
    + subst j. rewrite Hi in Hj. injection Hj as ->. lia.
Qed.
Lemma tree_root_no_recv k q : tact root k <> Some (false, q).
Proof.
  intros Ha. assert (E : rank_at 0 = root) by (unfold Tree.rank_at; rewrite Z.add_0_r; by apply Z.mod_small).
  assert (Ha' : tact (rank_at 0) k = Some (false, q)) by (by rewrite E).
  apply tact_recv in Ha' as [H0 _]; [|lia..].
  destruct (tree_inv_all nranks root Hn Hroot k 0) as [[H1 _] _ _ _ _]; [lia|]. pose proof (jmp_pos nranks Hn k). lia.
Qed.
End World.
End BroadcastTree.
