(* ===== verification/Broadcast.v ===== *)
(** * Broadcasts deliver

    The direct and the tree algorithm of src/src/collective/broadcast.cpp: when a
    rank's graph is over, its buffer holds the bytes of the root. *)
From stdpp Require Import base numbers functions list gmap strings relations.
From Stdlib Require Import ZArith Lia.
From S2P Require Import Prelude Status Memory Graph GraphRuns GraphBuild Collective World WorldRuns CollectiveBuild Tree BroadcastTree.

(** ** Spreading bytes *)

Section Spread.
Variables (nranks root size : Z) (buffer : Z -> Z) (graphs : Z -> coll_graph).
Variable reduce_op : Z -> Z -> Z -> Z -> memory -> memory.
Variable bytes : list Z.
Hypothesis Hsize : Z.of_nat (length bytes) = size.
Hypothesis wf : forall r, 0 <= r < nranks -> well_formed (graphs r).

(** All operations are about the rank's buffer, the root does not receive, and no
    rank sends before it has received. *)
Record spreads : Prop := mk_spreads {
  sp_ops : forall r x op, 0 <= r < nranks -> op_of graphs r x = Some op ->
    (exists d, op = OpSend d (buffer r) size) \/ (exists q, op = OpRecv q (buffer r) size /\ r <> root);
  sp_send : forall w r x, winv nranks graphs w -> ran_at w r x -> is_send graphs r x -> r <> root ->
    exists y, is_recv graphs r y /\ marked_at w r y;
  sp_over : forall w r c, winv nranks graphs w -> w_conf w r = Some c -> is_over c -> r <> root ->
    exists y, is_recv graphs r y /\ marked_at w r y
}.
Hypothesis Sp : spreads.

Definition has_bytes (w : world) (r : Z) : Prop := load_bytes (w_mem w r) (buffer r) size = bytes.
Record dinv (w : world) : Prop := mk_dinv {
  di_root : has_bytes w root;
  di_got : forall v m, (v, m) ∈ w_got w -> has_bytes w (rv_rank v);
  di_msgs : forall m d, m ∈ w_msgs w -> ms_data m = Some d -> d = bytes
}.

Lemma marked_has_bytes w r y :
  winv nranks graphs w -> dinv w -> marked_at w r y -> is_recv graphs r y -> has_bytes w r.
Proof.
  intros W D (c & Hc & Hm) Hy.
  destruct (wi_over_recv _ _ _ W r y) as (v & ((v', m) & -> & Hv)%list_elem_of_fmap & <- & _);
    [right; exists c; split; [done|by left]|done|]. by apply (di_got _ D _ _ Hv).
Qed.

Lemma dinv_step w w' : winv nranks graphs w -> dinv w -> wstep nranks graphs reduce_op w w' -> dinv w'.
Proof.
  intros W D S. destruct S as
    [w r Hr Hc|w r l1 a l2 posted s log new p s' Hc Ha|conf mem m1 m m2 recvs ready got Hd
    |conf mem m1 m m2 r1 v r2 ready got d Hd H1 H2|conf mem msgs recvs q1 r x q2 got acts p1 p2 s log status Hc].
  - destruct D. by split.
  - pose proof (conf_range _ _ _ W _ _ Hc) as Hr.
    assert (Hmem : w_mem (effects graphs reduce_op r a w) = w_mem w).
    { destruct a as [x| |]; [|done..]. cbn. unfold effect. destruct (op_of graphs r x) as [op|] eqn:E; [|done].
      by destruct (sp_ops Sp r x op Hr E) as [[d ->]|(q & -> & _)]. }
    split; unfold has_bytes; cbn [w_mem set_conf]; rewrite ?Hmem; [apply D| |].
    + intros v m. rewrite (act_got graphs reduce_op). apply D.
    + intros m d. rewrite (act_msgs graphs reduce_op). intros [Hm|Hm]%elem_of_app; [by apply D|].
      apply new_msgs_in in Hm as (_ & _ & _ & ->). done.
  - split; [apply D|apply D|]. cbn. intros m' d Hm' Hd'.
    rewrite elem_of_app, elem_of_cons in Hm'. destruct Hm' as [?|[->|?]]; [by apply (di_msgs _ D m'); cbn; set_solver| |by apply (di_msgs _ D m'); cbn; set_solver].
    destruct (wi_msgs _ _ _ W m ltac:(cbn; set_solver)) as [Hs Hran]. pose proof (ran_range _ _ _ W _ _ Hran) as Hr.
    injection Hd' as <-. destruct (sp_ops Sp _ _ _ Hr Hs) as [[d' [= _ -> ->]]|(q & [=] & _)].
    destruct (decide (ms_from m = root)) as [->|Hne]; [apply D|].
    destruct (sp_send Sp _ _ _ W Hran) as (y & Hy & Hm); [by repeat eexists|done|].
    by apply (marked_has_bytes _ _ _ W D Hm Hy).
  - pose proof (di_msgs _ D m d ltac:(cbn; set_solver) Hd) as ->.
    destruct (wi_recvs _ _ _ W v ltac:(cbn; set_solver)) as [Hs Hran]. pose proof (ran_range _ _ _ W _ _ Hran) as Hr.
    destruct (sp_ops Sp _ _ _ Hr Hs) as [[d' [=]]|(q & [= _ Eb En] & Hne)].
    assert (Hnew : forall r, has_bytes (mk_world conf mem (m1 ++ m :: m2) (r1 ++ v :: r2) ready got) r \/ r = rv_rank v ->
      load_bytes ((<[rv_rank v := store_bytes (rv_buffer v) bytes (mem (rv_rank v))]> mem) r) (buffer r) size = bytes).
    { intros r Ho. destruct (decide (r = rv_rank v)) as [->|Hr']; [rewrite fn_lookup_insert|rewrite fn_lookup_insert_ne by done].
      - rewrite Eb, <- Hsize. apply load_store_bytes.
      - by destruct Ho as [Ho|]. }
    split; unfold has_bytes; cbn.
    + apply Hnew. left. apply D.
    + intros v' m' [[= -> ->]|Hv']%elem_of_cons; apply Hnew; [by right|left]. by apply (di_got _ D _ _ Hv').
    + intros m' d' Hm'. apply (di_msgs _ D). cbn. set_solver.
  - destruct D. by split.
Qed.

Lemma spread_over mem w r c :
  load_bytes (mem root) (buffer root) size = bytes ->
  rtc (wstep nranks graphs reduce_op) (world_init mem) w ->
  w_conf w r = Some c -> is_over c -> has_bytes w r.
Proof.
  intros H0 R Hc Ho.
  assert (winv nranks graphs w /\ dinv w) as [W D].
  { refine (rtc_ind_r (fun w => winv nranks graphs w /\ dinv w) _ _ _ _ R).
    - split; [by apply (winv_init nranks graphs reduce_op)|]. split; [done|..]; cbn.
      + by intros v m ?%elem_of_nil.
      + by intros m d ?%elem_of_nil.
    - intros x y _ St [W D]. split; [by eapply winv_step|by eapply dinv_step]. }
  destruct (decide (r = root)) as [->|Hne]; [apply D|].
  destruct (sp_over Sp _ _ _ W Hc Ho Hne) as (y & Hy & Hm). by eapply marked_has_bytes.
Qed.
End Spread.

(** ** The tree *)

Section TreeSpreads.
Variables (nranks root size : Z) (buffer : Z -> Z) (graphs : Z -> coll_graph) (comps : Z -> Z).
Hypothesis Hn : 2 <= nranks.
Hypothesis Hroot : 0 <= root < nranks.
Hypothesis Hg : forall r, 0 <= r < nranks ->
  gshape (graphs r) (comps r) (tree_ops nranks root size buffer r) (chain_all (length (tree_ops nranks root size buffer r))).

Lemma tree_recv_node r j k q : 0 <= r < nranks ->
  acts_in nranks root r (S (tree_last nranks)) !! j = Some k -> tact nranks root r k = Some (false, q) ->
  is_recv graphs r (Node j) /\ (j < length (tree_ops nranks root size buffer r))%nat.
Proof.
  intros Hr Hj Ha. split.
  - exists q, (buffer r), size. rewrite (tree_op_at nranks root size buffer graphs comps Hg r j k Hr Hj). unfold top. by rewrite Ha.
  - unfold tree_ops. rewrite length_tops. by eapply lookup_lt_Some.
Qed.

Lemma tree_spreads : spreads nranks root size buffer graphs.
Proof.
  pose proof (fun r Hr => tree_wf nranks root size buffer graphs comps Hg r Hr) as wf. split.
  - intros r x op Hr Hop. destruct op as [d b n|q b n| | |].
    + apply (tree_send nranks root size buffer Hroot graphs comps Hg) in Hop as (i & k & -> & _ & _ & -> & ->); [|done..]. left. by exists d.
    + apply (tree_recv nranks root size buffer Hroot graphs comps Hg) in Hop as (i & k & -> & _ & Ha & -> & ->); [|done..]. right. exists q. split; [done|].
      intros ->. by apply (tree_root_no_recv nranks root Hn Hroot k q).
    + apply (tree_op_inv nranks root size buffer graphs comps Hg) in Hop as (i & k & _ & _ & Ht); [|done..]. unfold top in Ht. by repeat case_match.
    + apply (tree_op_inv nranks root size buffer graphs comps Hg) in Hop as (i & k & _ & _ & Ht); [|done..]. unfold top in Ht. by repeat case_match.
    + apply (tree_op_inv nranks root size buffer graphs comps Hg) in Hop as (i & k & _ & _ & Ht); [|done..]. unfold top in Ht. by repeat case_match.
  - intros w r x W Hran (d & b & n & Hop) Hne. pose proof (ran_range _ _ _ W _ _ Hran) as Hr.
    apply (tree_send nranks root size buffer Hroot graphs comps Hg) in Hop as (i & k & -> & Hi & Ha & _); [|done..].
    destruct (tree_send_after nranks root Hn Hroot r i k d Hr Hne Hi Ha) as (j & k' & q & Hlt & Hj & Ha').
    destruct (tree_recv_node r j k' q Hr Hj Ha') as [Hy Hl]. exists (Node j). split; [done|].
    eapply (chain_before nranks graphs w r _ _ wf W (Hg r Hr) i); [done| |done].
    unfold tree_ops. rewrite length_tops. by eapply lookup_lt_Some.
  - intros w r c W Hc Ho Hne. pose proof (conf_range _ _ _ W _ _ Hc) as Hr.
    destruct (tree_receives nranks root Hn Hroot r Hr Hne) as (j & k & q & Hj & Ha).
    destruct (tree_recv_node r j k q Hr Hj Ha) as [Hy Hl]. exists (Node j). split; [done|].
    by eapply (chain_over nranks graphs w r _ _ wf W (Hg r Hr)).
Qed.
End TreeSpreads.

(** ** Direct *)

Section Direct.
Variables (nranks root size : Z) (buffer : Z -> Z).
Hypothesis Hn : 2 <= nranks.
Hypothesis Hroot : 0 <= root < nranks.

Definition direct_ops (r : Z) : list (option coll_op) :=
  if r =? root then (fun i => Some (OpSend ((Z.of_nat i + root) mod nranks) (buffer r) size)) <$> seq 1 (Z.to_nat nranks - 1)
  else [Some (OpRecv root (buffer r) size)].

Lemma target_other i : (0 < i < Z.to_nat nranks)%nat -> (Z.of_nat i + root) mod nranks <> root.
Proof. intros Hi. rewrite Z.add_comm, wrap_up by lia. destruct (_ <? _) eqn:E; lia. Qed.

Lemma builds_sends k : forall a, (0 < a)%nat -> (a + k <= Z.to_nat nranks)%nat ->
  builds (for_each (direct_send root nranks (buffer root) size) (seq a k))
    ((fun i => Some (OpSend ((Z.of_nat i + root) mod nranks) (buffer root) size)) <$> seq 1 (a - 1)) (star (a - 1)) tt
    ((fun i => Some (OpSend ((Z.of_nat i + root) mod nranks) (buffer root) size)) <$> seq 1 (a + k - 1)) (star (a + k - 1)).
Proof.
  induction k as [|k IH]; intros a Ha Hk; cbn [seq for_each].
  - rewrite Nat.add_0_r. apply builds_ret.
  - eapply builds_bind; [|rewrite <- Nat.add_succ_comm; apply (IH (S a)); lia].
    unfold direct_send. rewrite (proj2 (Z.eqb_neq _ _)) by (apply target_other; lia).
    replace (S a - 1)%nat with (S (a - 1)) by lia. rewrite seq_S, fmap_app. cbn [star fmap list_fmap].
    replace (1 + (a - 1))%nat with a by lia.
    eapply builds_bind; [apply builds_op|]. rewrite length_fmap, length_seq.
    eapply builds_bind; [apply builds_edge; [done|]|apply builds_edge; [|done]].
    + cbn. rewrite length_app, length_fmap, length_seq. cbn. lia.
    + cbn. rewrite length_app, length_fmap, length_seq. cbn. lia.
Qed.

Lemma length_direct r : length (direct_ops r) = if r =? root then (Z.to_nat nranks - 1)%nat else 1%nat.
Proof. unfold direct_ops. destruct (r =? root); [by rewrite length_fmap, length_seq|done]. Qed.
Lemma builds_direct r : builds (build_graph_direct r nranks (buffer r) size root) [] [] tt
  (direct_ops r) (star (length (direct_ops r))).
Proof.
  rewrite length_direct. unfold build_graph_direct, direct_ops. destruct (Z.eqb_spec r root) as [->|Hne].
  - destruct (Z.to_nat nranks) as [|k] eqn:E; [lia|]. cbn [seq for_each].
    eapply builds_bind; [unfold direct_send|].
    + rewrite Z.add_0_l, Z.mod_small, Z.eqb_refl by done. apply builds_ret.
    + replace (S k - 1)%nat with (1 + k - 1)%nat by lia. apply (builds_sends k 1); lia.
  - eapply builds_bind; [apply builds_op|].
    eapply builds_bind; [apply builds_edge; cbn; [done|lia]|apply builds_edge; cbn; [lia|done]].
Qed.

Section World.
Variables (graphs : Z -> coll_graph) (comps : Z -> Z).
Hypothesis Hg : forall r, 0 <= r < nranks -> gshape (graphs r) (comps r) (direct_ops r) (star (length (direct_ops r))).

Lemma direct_wf r : 0 <= r < nranks -> well_formed (graphs r).
Proof.
  intros Hr. eapply star_wf; [by apply Hg|]. rewrite length_direct. destruct (r =? root); lia.
Qed.
Lemma direct_op_inv r x op : 0 <= r < nranks -> op_of graphs r x = Some op ->
  exists i, x = Node i /\
    ((r = root /\ (i < Z.to_nat nranks - 1)%nat /\ op = OpSend ((Z.of_nat (S i) + root) mod nranks) (buffer r) size)
     \/ (r <> root /\ i = 0%nat /\ op = OpRecv root (buffer r) size)).
Proof.
  intros Hr. rewrite (shape_op_of _ _ _ _ _ _ (Hg r Hr)). destruct x as [| |i]; [done..|]. intros Hop. exists i.
  split; [done|]. unfold direct_ops in Hop. destruct (Z.eqb_spec r root) as [->|Hne].
  - left. rewrite list_lookup_fmap in Hop. destruct (seq 1 _ !! i) as [k|] eqn:E; [|done].
    apply lookup_seq in E as [-> E]. cbn in Hop. by injection Hop as <-.
  - right. destruct i as [|i]; [|done]. by injection Hop as <-.
Qed.
Lemma direct_op_root i : (i < Z.to_nat nranks - 1)%nat ->
  op_of graphs root (Node i) = Some (OpSend ((Z.of_nat (S i) + root) mod nranks) (buffer root) size).
Proof.
  intros Hi. rewrite (shape_op_of _ _ _ _ _ _ (Hg root Hroot)). unfold direct_ops. rewrite Z.eqb_refl.
  by rewrite list_lookup_fmap, lookup_seq_lt.
Qed.
Lemma direct_op_other r : 0 <= r < nranks -> r <> root ->
  op_of graphs r (Node 0) = Some (OpRecv root (buffer r) size).
Proof.
  intros Hr Hne. rewrite (shape_op_of _ _ _ _ _ _ (Hg r Hr)). unfold direct_ops. by rewrite (proj2 (Z.eqb_neq _ _)).
Qed.

Lemma direct_matched : matched nranks graphs (fun _ => star_level).
Proof.
  split.
  - exact direct_wf.
  - intros r x y Hr. rewrite (shape_edges _ _ _ _ _ _ (Hg r Hr)). apply star_edge_level.
  - intros r x d b n Hr (i & -> & [(-> & Hi & [= -> -> ->])|(_ & _ & [=])])%direct_op_inv; [|done].
    assert (Hd : 0 <= (Z.of_nat (S i) + root) mod nranks < nranks) by (apply wrap_range; lia).
    split; [done|]. exists (Node 0), (buffer ((Z.of_nat (S i) + root) mod nranks)).
    rewrite direct_op_other; [done|done|apply target_other; lia].
  - intros r y q b n Hr (i & -> & [(_ & _ & [=])|(Hne & -> & [= -> -> ->])])%direct_op_inv; [|done].
    split; [done|]. pose proof (wrap_range nranks (r - root + nranks) ltac:(lia)) as Hd.
    set (d := (r - root + nranks) mod nranks) in *. assert (E : (root + d) mod nranks = r).
    { unfold d. rewrite Zplus_mod_idemp_r. replace (root + (r - root + nranks)) with (r + 1 * nranks) by lia.
      rewrite Z.mod_add by lia. by apply Z.mod_small. }
    assert (d <> 0) by (intros Hz; rewrite Hz, Z.add_0_r, Z.mod_small in E; lia).
    exists (Node (Z.to_nat (d - 1))), (buffer root). rewrite direct_op_root by lia. split; [|done]. do 2 f_equal.
    etransitivity; [|exact E]. f_equal. lia.
  - intros r x x' d b b' n n' Hr (i & -> & [(-> & Hi & [= E1 _ _])|(_ & _ & [=])])%direct_op_inv
      (i' & -> & [(_ & Hi' & [= E2 _ _])|(_ & _ & [=])])%direct_op_inv; [|done..].
    rewrite E1, (Z.add_comm _ root), (Z.add_comm _ root) in E2. apply up_inj in E2; [|lia..]. f_equal. lia.
  - intros r x x' d b b' n n' Hr (i & -> & [(_ & _ & [=])|(_ & -> & _)])%direct_op_inv
      (i' & -> & [(_ & _ & [=])|(_ & -> & _)])%direct_op_inv; done.
Qed.

Lemma direct_spreads : spreads nranks root size buffer graphs.
Proof.
  split.
  - intros r x op Hr (i & -> & [(-> & _ & ->)|(Hne & _ & ->)])%direct_op_inv; [left; by eexists|right; by exists root|done].
  - intros w r x W Hran (d & b & n & Hop) Hne. pose proof (ran_range _ _ _ W _ _ Hran) as Hr.
    by apply direct_op_inv in Hop as (i & -> & [(-> & _ & _)|(_ & _ & [=])]).
  - intros w r c W Hc Ho Hne. pose proof (conf_range _ _ _ W _ _ Hc) as Hr. exists (Node 0). split.
    + exists root, (buffer r), size. by apply direct_op_other.
    + eapply star_over; [exact direct_wf|exact W|apply Hg, Hr|exact Hc|exact Ho|]. rewrite length_direct.
      rewrite (proj2 (Z.eqb_neq r root) Hne). lia.
Qed.
End World.
End Direct.

(** C6: the direct and the tree broadcast. Every rank builds a graph; whatever the
    ranks' threads and the network do, when a rank's graph is over, its buffer holds
    the bytes that the root's buffer had at the start; the number of steps is
    bounded, and when nothing can happen any more, every rank's graph is complete. *)
Theorem broadcast_delivers nranks root size buffer comps algorithm ring_nsteps reduce_op :
  2 <= nranks -> 0 <= root < nranks -> 0 <= size -> choose_broadcast nranks algorithm size <> bcast_ring ->
  exists graphs,
    (forall r, 0 <= r < nranks ->
       broadcast_x r nranks (buffer r) size root (comps r) algorithm ring_nsteps
       = Ok (PGraph (graphs r) (comp_is_empty (comps r))))
    /\ (forall mem w, rtc (wstep nranks graphs reduce_op) (world_init mem) w ->
         forall r c, w_conf w r = Some c -> is_over c ->
         load_bytes (w_mem w r) (buffer r) size = load_bytes (mem root) (buffer root) size)
    /\ terminates nranks graphs reduce_op.
Proof.
  intros Hn Hroot Hsize Hring.
  assert (exists (ops : Z -> list (option coll_op)) (es : Z -> list (graph_node_t * graph_node_t)),
    (forall r, builds match choose_broadcast nranks algorithm size with
       | bcast_direct => build_graph_direct r nranks (buffer r) size root
       | bcast_tree => build_graph_tree r nranks (buffer r) size root
       | bcast_ring => build_graph_ring r nranks (buffer r) size root ring_nsteps
       | bcast_none => fail_with (AssertFailed "Unsupported broadcast algorithm")
       end [] [] tt (ops r) (es r))
    /\ forall graphs, (forall r, 0 <= r < nranks -> gshape (graphs r) (comps r) (ops r) (es r)) ->
       spreads nranks root size buffer graphs /\ exists level, matched nranks graphs level) as (ops & es & Hb & Hs).
  { destruct (choose_broadcast nranks algorithm size) eqn:Ec; [| | |done].
    - exfalso. unfold choose_broadcast in Ec. by repeat case_match.
    - exists (direct_ops nranks root size buffer), (fun r => star (length (direct_ops nranks root size buffer r))).
      split; [intros r; by apply builds_direct|]. intros graphs Hg. split; [by eapply direct_spreads|].
      eexists. by eapply direct_matched.
    - exists (tree_ops nranks root size buffer), (fun r => chain_all (length (tree_ops nranks root size buffer r))).
      split; [intros r; by apply builds_tree|]. intros graphs Hg. split; [by eapply tree_spreads|].
      eexists. by eapply tree_matched. }
  destruct (choose_graphs nranks (fun r g => broadcast_x r nranks (buffer r) size root (comps r) algorithm ring_nsteps
    = Ok (PGraph g (comp_is_empty (comps r))) /\ gshape g (comps r) (ops r) (es r))) as [graphs Hg].
  { intros r Hr. unfold broadcast_x. rewrite (proj2 (Z.eqb_neq _ _)) by lia. by apply plan_builds. }
  destruct (Hs graphs) as [Sp [level M]]; [intros r Hr; by apply Hg|]. exists graphs. split_and!.
  - intros r Hr. by apply Hg.
  - intros mem w R r c Hc Ho.
    eapply (spread_over nranks root size buffer graphs reduce_op); [|exact (mt_wf _ _ _ M)|exact Sp|done|exact R|exact Hc|exact Ho].
    rewrite length_load_bytes. lia.
  - by eapply matched_terminates.
Qed.
Lemma broadcast_delivers_witness :
  exists graphs, broadcast_x 3 11 100 64 5 0 bcast_none 10 = Ok (PGraph (graphs 3) true)
    /\ terminates 11 graphs (fun _ _ _ _ m => m).
Proof.
  destruct (broadcast_delivers 11 5 64 (fun _ => 100) (fun _ => 0) bcast_none 10 (fun _ _ _ _ m => m))
    as (graphs & H1 & _ & H2); [lia|lia|lia|done|].
  exists graphs. split; [apply (H1 3); lia|exact H2].
Defined.

(** ** The ring *)

Section Ring.
Variables rank nranks buffer size root nsteps : Z.
Hypothesis Hn : 2 <= nranks.
Hypothesis Hrank : 0 <= rank < nranks.
Hypothesis Hroot : 0 <= root < nranks.
Hypothesis Hsize : 0 <= size.
Hypothesis Hsteps : 1 <= nsteps.
(** The addresses up to the end of the last piece. *)
Hypothesis Hbuffer : 0 <= buffer.
Hypothesis Haddr : buffer + size + nsteps <= 2 ^ 64.
#[local] Abbreviation step_size := (ring_step_size size nsteps).
#[local] Abbreviation left := ((rank - 1 + nranks) mod nranks).
#[local] Abbreviation right := ((rank + 1) mod nranks).

Definition ring_recv (step : Z) : coll_op := OpRecv left (ring_buffer buffer size nsteps step) (ring_size size nsteps step).
Definition ring_send (step : Z) : coll_op := OpSend right (ring_buffer buffer size nsteps (step - 1)) (ring_size size nsteps (step - 1)).
(** The nodes that a step of the loop adds. *)
Definition ring_nodes (step : Z) : list (option coll_op) :=
  if ((step =? 0) && (rank =? root)) || ((step =? nsteps) && (right =? root)) then []
  else (if step =? nsteps then [] else [None])
       ++ (if negb (step =? nsteps) && negb (rank =? root) then [Some (ring_recv step)] else [])
       ++ (if negb (step =? 0) && negb (right =? root) then [Some (ring_send step)] else []).

Lemma src_ok_app ops ops' x : src_ok ops x -> src_ok (ops ++ ops') x.
Proof. destruct x; cbn; [done|done|]. rewrite length_app. lia. Qed.
Lemma builds_ring_step step old ops es : src_ok ops old ->
  exists next es', builds (ring_step rank nranks buffer size root nsteps step old) ops es next (ops ++ ring_nodes step) es'
    /\ (step <> nsteps -> src_ok (ops ++ ring_nodes step) next).
Proof.
  intros Hold. unfold ring_step, ring_nodes. fold left right. destruct (_ || _).
  { exists old. destruct (step =? nsteps).
    - eexists. rewrite app_nil_r. split; [|done]. eapply builds_bind; [apply builds_edge; done|apply builds_ret].
    - exists es. rewrite app_nil_r. split; [|done]. eapply builds_bind; apply builds_ret. }
  set (nx := if step =? nsteps then GRAPH_END else Node (length ops)).
  set (o1 := ops ++ (if step =? nsteps then [] else [None])).
  assert (Hnext : builds (if step =? nsteps then mret GRAPH_END else graph_add_node None) ops es nx o1 es).
  { unfold nx, o1. destruct (step =? nsteps); [rewrite app_nil_r; apply builds_ret|apply builds_node]. }
  assert (Hdst : forall more, dst_ok (o1 ++ more) nx).
  { intros more. unfold nx, o1. destruct (step =? nsteps); [done|]. cbn. rewrite !length_app. cbn. lia. }
  assert (Hadd : forall (b : bool) op o es0, (exists more, o = o1 ++ more) -> exists es1,
    builds (if b then node ← graph_add_node_op op ; graph_add_edge old node ;; graph_add_edge node nx else mret tt) o es0 tt
      (o ++ (if b then [Some op] else [])) es1).
  { intros b op o es0 [more ->]. destruct b; [|exists es0; rewrite app_nil_r; apply builds_ret]. eexists.
    eapply builds_bind; [apply builds_op|]. eapply builds_bind; [apply builds_edge|apply builds_edge].
    - unfold o1. rewrite <- !app_assoc. by apply src_ok_app.
    - cbn. rewrite !length_app. cbn. lia.
    - cbn. rewrite !length_app. cbn. lia.
    - rewrite <- app_assoc. apply Hdst. }
  destruct (Hadd (negb (step =? nsteps) && negb (rank =? root)) (ring_recv step) o1 es) as [es1 H1]; [exists []; by rewrite app_nil_r|].
  destruct (Hadd (negb (step =? 0) && negb (right =? root)) (ring_send step)
    (o1 ++ (if negb (step =? nsteps) && negb (rank =? root) then [Some (ring_recv step)] else [])) es1) as [es2 H2]; [by eexists|].
  exists nx, es2. split.
  - rewrite !app_assoc. eapply builds_bind; [exact Hnext|]. eapply builds_bind; [exact H1|]. eapply builds_bind; [exact H2|apply builds_ret].
  - intros Hne. unfold nx. rewrite (proj2 (Z.eqb_neq _ _) Hne). cbn. rewrite !length_app. cbn. lia.
Qed.
Lemma builds_ring_steps k : forall a old ops es, Z.of_nat (a + k) = nsteps + 1 -> (k = 0%nat \/ src_ok ops old) ->
  exists es', builds (ring_steps rank nranks buffer size root nsteps (Z.of_nat <$> seq a k) old) ops es tt
    (ops ++ (seq a k ≫= fun i => ring_nodes (Z.of_nat i))) es'.
Proof.
  induction k as [|k IH]; intros a old ops es Hk Hold; cbn [seq fmap list_fmap ring_steps].
  - exists es. cbn. rewrite app_nil_r. apply builds_ret.
  - destruct Hold as [|Hold]; [done|]. destruct (builds_ring_step (Z.of_nat a) old ops es Hold) as (next & es1 & H1 & Hnext).
    destruct (IH (S a) next (ops ++ ring_nodes (Z.of_nat a)) es1) as [es2 H2]; [lia|destruct k; [by left|right; apply Hnext; lia]|].
    exists es2. rewrite bind_cons, app_assoc. by eapply builds_bind.
Qed.

(** The pieces. *)
Lemma ring_step_size_ok : 0 <= step_size /\ size <= nsteps * step_size <= size + nsteps - 1.
Proof.
  unfold ring_step_size, u64. rewrite Z.mod_small by lia. pose proof (Z.div_mod (size + nsteps - 1) nsteps ltac:(lia)).
  pose proof (Z.mod_pos_bound (size + nsteps - 1) nsteps ltac:(lia)). split; [apply Z.div_pos; lia|lia].
Qed.
Lemma ring_piece idx : 0 <= idx < nsteps ->
  ring_buffer buffer size nsteps idx = buffer + idx * step_size
  /\ 0 <= ring_size size nsteps idx
  /\ (idx * step_size <= size -> ring_size size nsteps idx = Z.min step_size (size - idx * step_size)).
Proof.
  intros Hi. destruct ring_step_size_ok as [Hs Hm]. assert (0 <= idx * step_size) by nia. assert (idx * step_size <= size + nsteps - 1) by nia.
  unfold ring_buffer, ring_size, u64. split_and!.
  - rewrite Z.mod_small by lia. done.
  - pose proof (Z.mod_pos_bound (size - idx * step_size) (2 ^ 64) ltac:(lia)). lia.
  - intros Hle. by rewrite Z.mod_small by lia.
Qed.
Definition in_buffer (op : coll_op) : Prop :=
  match op with OpSend _ b n | OpRecv _ b n => buffer <= b /\ b + n <= buffer + size | _ => True end.
Lemma piece_in idx : 0 <= idx < nsteps ->
  (buffer <= ring_buffer buffer size nsteps idx /\ ring_buffer buffer size nsteps idx + ring_size size nsteps idx <= buffer + size)
  <-> idx * step_size <= size.
Proof.
  intros Hi. destruct (ring_piece idx Hi) as (-> & Hp & Hs). destruct ring_step_size_ok as [H0 _]. assert (0 <= idx * step_size) by nia.
  split; [lia|]. intros Hle. rewrite Hs by done. lia.
Qed.
(** The operations of the graph: every piece is received but at the root and sent but before it. *)
Definition ring_graph_ops : list (option coll_op) := seq 0 (Z.to_nat (nsteps + 1)) ≫= fun i => ring_nodes (Z.of_nat i).
Lemma ring_graph_op op : Some op ∈ ring_graph_ops <->
  exists idx, 0 <= idx < nsteps /\ ((rank <> root /\ op = ring_recv idx) \/ (right <> root /\ op = ring_send (idx + 1))).
Proof.
  unfold ring_graph_ops. rewrite list_elem_of_bind. split.
  - intros (i & Hop & Hi%elem_of_seq). unfold ring_nodes in Hop. destruct (_ || _); [by apply not_elem_of_nil in Hop|].
    rewrite !elem_of_app in Hop. destruct Hop as [Hop|[Hop|Hop]].
    + destruct (_ =? _); [by apply not_elem_of_nil in Hop|]. by apply list_elem_of_singleton in Hop.
    + destruct (Z.eqb_spec (Z.of_nat i) nsteps), (Z.eqb_spec rank root); cbn [negb andb] in Hop; try (by apply not_elem_of_nil in Hop).
      apply list_elem_of_singleton in Hop as [= ->]. exists (Z.of_nat i). split; [lia|by left].
    + destruct (Z.eqb_spec (Z.of_nat i) 0), (Z.eqb_spec right root); cbn [negb andb] in Hop; try (by apply not_elem_of_nil in Hop).
      apply list_elem_of_singleton in Hop as [= ->]. exists (Z.of_nat i - 1). split; [lia|right]. by rewrite Z.sub_add.
  - intros (idx & Hi & [[Hne ->]|[Hne ->]]).
    + exists (Z.to_nat idx). rewrite elem_of_seq, Z2Nat.id by lia. split; [|lia]. unfold ring_nodes.
      rewrite (proj2 (Z.eqb_neq rank root)), (proj2 (Z.eqb_neq idx nsteps)) by (done || lia). rewrite andb_false_r. cbn. set_solver.
    + exists (Z.to_nat (idx + 1)). rewrite elem_of_seq, Z2Nat.id by lia. split; [|lia]. unfold ring_nodes.
      rewrite (proj2 (Z.eqb_neq right root)), (proj2 (Z.eqb_neq (idx + 1) 0)) by (done || lia). rewrite andb_false_r. cbn [orb negb andb].
      rewrite !elem_of_app. right. right. set_solver.
Qed.
Lemma ring_has_piece idx : 0 <= idx < nsteps -> exists op, Some op ∈ ring_graph_ops /\ (in_buffer op <-> idx * step_size <= size).
Proof.
  intros Hi. destruct (decide (rank = root)) as [E|Hne].
  - exists (ring_send (idx + 1)). split.
    + apply ring_graph_op. exists idx. split; [done|right]. split; [|done]. rewrite <- E. intros H.
      destruct (decide (rank + 1 = nranks)) as [E1|]; [rewrite E1, Z.mod_same in H by lia; lia|rewrite Z.mod_small in H by lia; lia].
    + cbn [ring_send in_buffer]. replace (idx + 1 - 1) with idx by lia. by apply piece_in.
  - exists (ring_recv idx). split; [|by apply piece_in]. apply ring_graph_op. exists idx. split; [done|by left].
Qed.
Lemma ring_in_buffer : (forall op, Some op ∈ ring_graph_ops -> in_buffer op) <-> (nsteps - 1) * step_size <= size.
Proof.
  destruct ring_step_size_ok as [H0 _]. split.
  - intros H. destruct (ring_has_piece (nsteps - 1)) as (op & Hop & Hin); [lia|]. by apply Hin, H.
  - intros Hle op (idx & Hi & [[_ ->]|[_ ->]])%ring_graph_op.
    + apply piece_in; [done|]. nia.
    + cbn [ring_send in_buffer]. replace (idx + 1 - 1) with idx by lia. apply piece_in; [done|]. nia.
Qed.
(** The byte at [x] is in a piece. *)
Lemma ring_covers x : 0 <= x < size -> exists idx, 0 <= idx < nsteps
  /\ ring_buffer buffer size nsteps idx <= buffer + x < ring_buffer buffer size nsteps idx + ring_size size nsteps idx.
Proof.
  intros Hx. destruct ring_step_size_ok as [H0 Hm]. assert (0 < step_size) by nia.
  pose proof (Z.div_mod x step_size ltac:(lia)). pose proof (Z.mod_pos_bound x step_size ltac:(lia)).
  assert (Hi : 0 <= x / step_size < nsteps) by (split; [apply Z.div_pos; lia|apply Z.div_lt_upper_bound; lia]).
  exists (x / step_size). split; [done|]. destruct (ring_piece _ Hi) as (-> & _ & ->); [lia|]. lia.
Qed.
End Ring.

(** C40: the ring broadcast and its buffer. For every rank and every number of steps below
    [INT_MAX] the graph is built. Every byte of the buffer is in a piece that the rank receives from its left
    neighbour, unless it is the root, and that it sends to its right neighbour, unless that
    one is the root. The operations stay in the buffer exactly if the pieces before the last
    one, whose size is rounded up, fit in it; otherwise, as what is left is computed in
    [size_t], a rank sends and receives after the end of its buffer. *)
Theorem ring_within_buffer rank nranks root size buffer comp nsteps :
  2 <= nranks -> 0 <= rank < nranks -> 0 <= root < nranks -> 0 <= size -> 1 <= nsteps < 2 ^ 31 - 1 -> 0 <= buffer -> buffer + size + nsteps <= 2 ^ 64 ->
  exists g, broadcast_x rank nranks buffer size root comp bcast_ring nsteps = Ok (PGraph g (comp_is_empty comp))
    /\ (rank <> root -> forall x, buffer <= x < buffer + size -> exists i b n,
          op_of (fun _ => g) rank (Node i) = Some (OpRecv ((rank - 1 + nranks) mod nranks) b n) /\ b <= x < b + n)
    /\ ((rank + 1) mod nranks <> root -> forall x, buffer <= x < buffer + size -> exists i b n,
          op_of (fun _ => g) rank (Node i) = Some (OpSend ((rank + 1) mod nranks) b n) /\ b <= x < b + n)
    /\ ((forall i op, op_of (fun _ => g) rank (Node i) = Some op -> in_buffer buffer size op)
        <-> (nsteps - 1) * ((size + nsteps - 1) / nsteps) <= size).
Proof.
  intros Hn Hrank Hroot Hsize [Hsteps _] Hbuffer Haddr.
  set (ops := ring_graph_ops rank nranks buffer size root nsteps).
  destruct (builds_ring_steps rank nranks buffer size root nsteps (Z.to_nat (nsteps + 1)) 0 GRAPH_START [] []) as [es Hb]; [lia|by right|].
  destruct (plan_builds comp (build_graph_ring rank nranks buffer size root nsteps) ops es) as (g & Eg & Hg).
  { unfold build_graph_ring. rewrite (proj2 (Z.eqb_neq _ _)) by lia. exact Hb. }
  assert (Hop : forall op, Some op ∈ ops <-> exists i, op_of (fun _ => g) rank (Node i) = Some op).
  { intros op. setoid_rewrite (shape_op_of (fun _ => g) rank comp ops es) ; [|done]. rewrite list_elem_of_lookup. split.
    - intros [i Hi]. exists i. by rewrite Hi.
    - intros [i Hi]. exists i. destruct (ops !! i) as [[o|]|]; cbn in Hi; by simplify_eq. }
  exists g. split_and!.
  - unfold broadcast_x. rewrite (proj2 (Z.eqb_neq _ _)) by lia. exact Eg.
  - intros Hne x Hx. destruct (ring_covers buffer size nsteps Hsize Hsteps Hbuffer Haddr (x - buffer)) as (idx & Hi & Hc); [lia|].
    destruct (proj1 (Hop (ring_recv rank nranks buffer size nsteps idx))) as [i Ho]; [apply ring_graph_op; [lia..|]; exists idx; by auto|].
    eexists i, _, _. split; [exact Ho|]. lia.
  - intros Hne x Hx. destruct (ring_covers buffer size nsteps Hsize Hsteps Hbuffer Haddr (x - buffer)) as (idx & Hi & Hc); [lia|].
    destruct (proj1 (Hop (ring_send rank nranks buffer size nsteps (idx + 1)))) as [i Ho]; [apply ring_graph_op; [lia..|]; exists idx; by auto|].
    eexists i, _, _. split; [exact Ho|]. replace (idx + 1 - 1) with idx by lia. lia.
  - assert (Ess : ring_step_size size nsteps = (size + nsteps - 1) / nsteps) by (unfold ring_step_size, u64; by rewrite Z.mod_small by lia).
    rewrite <- Ess, <- (ring_in_buffer rank nranks buffer size root nsteps Hn Hrank Hroot Hsize Hsteps Hbuffer Haddr). fold ops. split.
    + intros H op [i Ho]%Hop. by eapply H.
    + intros H i op Ho. apply H, Hop. by exists i.
Qed.
(** The default algorithm and number of steps, 351 ranks and 65537 bytes: the ring leaves
    the buffer. *)
Lemma ring_within_buffer_witness :
  choose_broadcast 351 bcast_none 65537 = bcast_ring
  /\ exists g, broadcast_x 1 351 4096 65537 0 0 bcast_ring 350 = Ok (PGraph g true)
    /\ ~ forall i op, op_of (fun _ => g) 1 (Node i) = Some op -> in_buffer 4096 65537 op.
Proof.
  split; [reflexivity|].
  destruct (ring_within_buffer 1 351 0 65537 4096 0 350) as (g & E & _ & _ & H); [lia|lia|lia|lia|lia|lia|lia|].
  exists g. split; [exact E|]. rewrite H. vm_compute. intros Hle. apply Hle. reflexivity.
Defined.
