(* ===== verification/Exchange.v ===== *)
(** * Exchange and reduce

    The graph that [allreduce] and [reduce_scatter] build (src/src/collective): a
    send to and a receive from every other rank, and reductions one after the
    other, in the order of the ranks that follow. *)
From stdpp Require Import base numbers functions list gmap strings relations.
From Stdlib Require Import ZArith Lia.
From S2P Require Import Prelude Status Memory Graph GraphRuns GraphBuild Collective World WorldRuns CollectiveBuild.

Section Exchange.
Variables nranks count item_size : Z.
Hypothesis Hn : 2 <= nranks.
#[local] Abbreviation bytes := (count * item_size).
Hypothesis Hbytes : 0 <= bytes.
#[local] Abbreviation peers := (Z.to_nat nranks - 1)%nat.

(** Of every rank: where it reduces, its temporary buffer, the first slot that it
    receives in, and where what it sends to a rank is. *)
Variables (recvbuf tmp slots : Z -> Z) (send_buffer : Z -> Z -> Z).
(** What the sends of a rank come before. *)
Variable send_to : graph_node_t.
Hypothesis Hto : send_to = Node 0 \/ send_to = GRAPH_END.
Hypothesis Hslots : forall r, 0 <= slots r /\ slots r + (nranks - 1) * bytes < 2 ^ 64.

Definition peer (r : Z) (j : nat) : Z := (Z.of_nat (S j) + r) mod nranks.
Definition slot (r : Z) (j : nat) : Z := slots r + Z.of_nat j * bytes.
Definition x_send_ix (j : nat) : nat := 3 * j + 1.
Definition x_recv_ix (j : nat) : nat := 3 * j + 2.
Definition x_red_ix (j : nat) : nat := 3 * j + 3.
Definition prev_red (j : nat) : graph_node_t := match j with O => GRAPH_START | S j => Node (x_red_ix j) end.

Definition peer_ops (r : Z) (j : nat) : list (option coll_op) :=
  [Some (OpSend (peer r j) (send_buffer r (peer r j)) bytes); Some (OpRecv (peer r j) (slot r j) bytes);
   Some (OpReduce (slot r j) (recvbuf r) (recvbuf r) count)].
Definition prev_edge (j : nat) : list (graph_node_t * graph_node_t) :=
  match j with O => [] | S j' => [(Node (x_red_ix j'), Node (x_red_ix j))] end.
Definition peer_edges (j : nat) : list (graph_node_t * graph_node_t) :=
  [(GRAPH_START, Node (x_send_ix j)); (Node (x_send_ix j), send_to); (GRAPH_START, Node (x_recv_ix j));
   (Node (x_recv_ix j), Node (x_red_ix j))]
  ++ prev_edge j.
Definition ops_upto (r : Z) (k : nat) : list (option coll_op) := Some (OpFree (tmp r)) :: (seq 0 k ≫= peer_ops r).
Definition edges_upto (k : nat) : list (graph_node_t * graph_node_t) := seq 0 k ≫= peer_edges.
Definition exchange_ops (r : Z) : list (option coll_op) := ops_upto r peers.
Definition exchange_edges : list (graph_node_t * graph_node_t) :=
  (Node 0, GRAPH_END) :: (prev_red peers, Node 0) :: edges_upto peers.

(** ** Building *)

Lemma length_ops r k : length (ops_upto r k) = (3 * k + 1)%nat.
Proof.
  unfold ops_upto. cbn [length]. induction k as [|k IH]; [done|]. rewrite bind_seq_S, length_app. cbn [peer_ops length]. lia.
Qed.
Lemma ops_upto_S r k : ops_upto r (S k) = ops_upto r k ++ peer_ops r k.
Proof. unfold ops_upto. by rewrite bind_seq_S. Qed.

Lemma bytes_u64 : u64 bytes = bytes.
Proof. pose proof (Hslots 0). apply Z.mod_small. nia. Qed.
Lemma slot_next r j : (j < peers)%nat -> u64 (slot r j + bytes) = slot r (S j).
Proof.
  intros Hj. pose proof (Hslots r). unfold slot, u64. rewrite Z.mod_small; [lia|].
  assert (Z.of_nat j * bytes + bytes <= (nranks - 1) * bytes) by nia. nia.
Qed.

Lemma builds_prev ops j es : (x_red_ix j < length ops)%nat ->
  builds (if decide (prev_red j = GRAPH_START) then mret tt else graph_add_edge (prev_red j) (Node (x_red_ix j)))
    ops es tt ops (prev_edge j ++ es).
Proof.
  intros Hl. destruct j as [|j]; cbn [prev_red prev_edge].
  - rewrite decide_True by done. apply builds_ret.
  - rewrite decide_False by done. apply builds_edge; [|done]. unfold x_red_ix in *. cbn [src_ok]. lia.
Qed.
Lemma builds_peer r j es : (j < peers)%nat ->
  builds (reduce_peer r nranks send_to (recvbuf r) count item_size (send_buffer r) (S j) (prev_red j, slot r j))
    (ops_upto r j) es (prev_red (S j), slot r (S j)) (ops_upto r (S j)) (peer_edges j ++ es).
Proof.
  intros Hj. pose proof (length_ops r j) as Hl. change (3 * j + 1)%nat with (x_send_ix j) in Hl.
  unfold reduce_peer. fold (peer r j). rewrite ops_upto_S. unfold peer_ops. rewrite bytes_u64.
  assert (Hto' : forall l, dst_ok (ops_upto r j ++ l) send_to).
  { intros l. destruct Hto as [->| ->]; [|done]. cbn [dst_ok]. rewrite length_app, Hl. unfold x_send_ix. lia. }
  assert (E1 : (x_send_ix j + 1)%nat = x_recv_ix j) by (unfold x_send_ix, x_recv_ix; lia).
  assert (E2 : (x_send_ix j + 2)%nat = x_red_ix j) by (unfold x_send_ix, x_red_ix; lia).
  eapply builds_perm.
  2:{ eapply builds_bind; [apply builds_op|]. rewrite Hl.
      eapply builds_bind; [apply builds_edge; [done|cbn [dst_ok]; rewrite length_app, Hl; cbn [length]; lia]|].
      eapply builds_bind; [apply builds_edge; [cbn [src_ok]; rewrite length_app, Hl; cbn [length]; lia|apply Hto']|].
      eapply builds_bind; [apply builds_op|]. rewrite <- app_assoc. cbn [app].
      eapply builds_bind; [apply builds_node|]. rewrite <- app_assoc. cbn [app]. rewrite !length_app, Hl. cbn [length].
      rewrite E1, E2.
      eapply builds_bind; [apply builds_edge; [done|cbn [dst_ok]; rewrite length_app, Hl; cbn [length]; lia]|].
      eapply builds_bind; [apply builds_edge; cbn [src_ok dst_ok]; rewrite length_app, Hl; cbn [length]; lia|].
      eapply builds_bind; [apply builds_prev; rewrite length_app, Hl; cbn [length]; lia|].
      rewrite slot_next by done. apply builds_ret. }
  unfold peer_edges. solve_Permutation.
Qed.

Lemma builds_peers r k : forall j, (j + k <= peers)%nat ->
  builds (reduce_peers r nranks send_to (recvbuf r) count item_size (send_buffer r) (seq (S j) k) (prev_red j, slot r j))
    (ops_upto r j) (edges_upto j) (prev_red (j + k), slot r (j + k)) (ops_upto r (j + k)) (edges_upto (j + k)).
Proof.
  induction k as [|k IH]; intros j Hj; cbn [seq reduce_peers].
  - rewrite Nat.add_0_r. apply builds_ret.
  - rewrite <- Nat.add_succ_comm. eapply builds_bind; [|apply (IH (S j)); lia].
    eapply builds_perm; [|apply builds_peer; lia]. unfold edges_upto. rewrite bind_seq_S. solve_Permutation.
Qed.

(** The whole graph, as both builders write it. *)
Lemma builds_exchange r :
  builds (free_node ← graph_add_node (Some (OpFree (tmp r))) ;
          '(prev_reduce_node, _) ←
            reduce_peers r nranks (if decide (send_to = GRAPH_END) then GRAPH_END else free_node) (recvbuf r) count item_size
              (send_buffer r) (seq 1 (Z.to_nat (nranks - 1))) (GRAPH_START, slots r) ;
          graph_add_edge prev_reduce_node free_node ;;
          graph_add_edge free_node GRAPH_END)
    [] [] tt (exchange_ops r) exchange_edges.
Proof.
  assert (Hs : slots r = slot r 0) by (unfold slot; lia). rewrite Hs.
  eapply builds_bind; [apply builds_node|]. cbn [length app].
  assert ((if decide (send_to = GRAPH_END) then GRAPH_END else Node 0) = send_to) as ->.
  { destruct Hto as [->| ->]; [by rewrite decide_False|by rewrite decide_True]. }
  replace (Z.to_nat (nranks - 1)) with peers by lia.
  eapply builds_bind; [apply (builds_peers r peers 0); lia|]. cbn [Nat.add].
  eapply builds_bind; apply builds_edge; try done.
  - destruct peers as [|k] eqn:E; [lia|]. cbn [prev_red src_ok]. rewrite length_ops. unfold x_red_ix. lia.
  - cbn. lia.
  - cbn. lia.
Qed.

(** ** Nodes and edges *)

Definition x_node_op (r : Z) (x : graph_node_t) : option coll_op :=
  match x with Node i => mjoin (exchange_ops r !! i) | _ => None end.
Lemma x_ops_at r j o : (j < peers)%nat -> (o < 3)%nat -> exchange_ops r !! (3 * j + 1 + o)%nat = peer_ops r j !! o.
Proof.
  intros Hj Ho. unfold exchange_ops. replace peers with (S j + (peers - S j))%nat by lia.
  unfold ops_upto. rewrite seq_app, bind_app, app_comm_cons. fold (ops_upto r (S j)).
  rewrite ops_upto_S, <- app_assoc, lookup_app_r by (rewrite length_ops; lia).
  rewrite length_ops. replace (3 * j + 1 + o - (3 * j + 1))%nat with o by lia.
  by rewrite lookup_app_l by (cbn; lia).
Qed.
Lemma x_ops_inv r i op : exchange_ops r !! i = Some op ->
  (i = 0%nat /\ op = Some (OpFree (tmp r)))
  \/ exists j o, (j < peers)%nat /\ (o < 3)%nat /\ i = (3 * j + 1 + o)%nat /\ peer_ops r j !! o = Some op.
Proof.
  unfold exchange_ops. assert (forall k, ops_upto r k !! i = Some op -> (i = 0%nat /\ op = Some (OpFree (tmp r)))
    \/ exists j o, (j < k)%nat /\ (o < 3)%nat /\ i = (3 * j + 1 + o)%nat /\ peer_ops r j !! o = Some op) as H; [|by apply H].
  induction k as [|k IH].
  - cbn. destruct i; [intros [= <-]; by left|done].
  - rewrite ops_upto_S. intros [Hi|[Hi1 Hi2]]%lookup_app_Some.
    + destruct (IH Hi) as [?|(j & o & ? & ?)]; [by left|right]. exists j, o. split; [lia|done].
    + right. rewrite length_ops in Hi1, Hi2. exists k, (i - (3 * k + 1))%nat.
      pose proof (lookup_lt_Some _ _ _ Hi2) as Hlt. cbn in Hlt. split; [lia|]. split; [lia|]. split; [lia|done].
Qed.

Lemma x_send_op r j : (j < peers)%nat ->
  x_node_op r (Node (x_send_ix j)) = Some (OpSend (peer r j) (send_buffer r (peer r j)) bytes).
Proof.
  intros Hj. unfold x_send_ix. cbn [x_node_op]. rewrite <- (Nat.add_0_r (3 * j + 1)). by rewrite (x_ops_at r j 0) by lia.
Qed.
Lemma x_recv_op r j : (j < peers)%nat -> x_node_op r (Node (x_recv_ix j)) = Some (OpRecv (peer r j) (slot r j) bytes).
Proof.
  intros Hj. unfold x_recv_ix. cbn [x_node_op]. replace (3 * j + 2)%nat with (3 * j + 1 + 1)%nat by lia.
  by rewrite (x_ops_at r j 1) by lia.
Qed.
Lemma x_red_op r j : (j < peers)%nat ->
  x_node_op r (Node (x_red_ix j)) = Some (OpReduce (slot r j) (recvbuf r) (recvbuf r) count).
Proof.
  intros Hj. unfold x_red_ix. cbn [x_node_op]. replace (3 * j + 3)%nat with (3 * j + 1 + 2)%nat by lia.
  by rewrite (x_ops_at r j 2) by lia.
Qed.
Lemma x_node_op_inv r x op : x_node_op r x = Some op ->
  op = OpFree (tmp r)
  \/ exists j, (j < peers)%nat /\
       ((x = Node (x_send_ix j) /\ op = OpSend (peer r j) (send_buffer r (peer r j)) bytes)
        \/ (x = Node (x_recv_ix j) /\ op = OpRecv (peer r j) (slot r j) bytes)
        \/ (x = Node (x_red_ix j) /\ op = OpReduce (slot r j) (recvbuf r) (recvbuf r) count)).
Proof.
  destruct x as [| |i]; [done..|]. cbn [x_node_op]. destruct (exchange_ops r !! i) as [op'|] eqn:E; [|done].
  cbn. intros ->. apply x_ops_inv in E as [[_ [= ->]]|(j & o & Hj & Ho & -> & E)]; [by left|right].
  exists j. split; [done|]. unfold x_send_ix, x_recv_ix, x_red_ix.
  destruct o as [|[|[|o]]]; [left|right; left|right; right|lia]; cbn in E; injection E as <-;
    (split; [f_equal; lia|done]).
Qed.

Definition x_node_level (x : graph_node_t) : nat :=
  match x with
  | GRAPH_START => 0
  | GRAPH_END => peers + 4
  | Node O => peers + 3
  | Node (S i) => if (i mod 3 =? 2)%nat then i / 3 + 2 else 1
  end.
Lemma level_at j o : (o < 3)%nat -> x_node_level (Node (3 * j + 1 + o)) = if (o =? 2)%nat then (j + 2)%nat else 1%nat.
Proof.
  intros Ho. replace (3 * j + 1 + o)%nat with (S (3 * j + o)) by lia. cbn [x_node_level].
  by destruct (div3 j o Ho) as [-> ->].
Qed.
Lemma x_send_level j : x_node_level (Node (x_send_ix j)) = 1%nat.
Proof. unfold x_send_ix. rewrite <- (Nat.add_0_r (3 * j + 1)). by rewrite level_at by lia. Qed.
Lemma x_recv_level j : x_node_level (Node (x_recv_ix j)) = 1%nat.
Proof. unfold x_recv_ix. replace (3 * j + 2)%nat with (3 * j + 1 + 1)%nat by lia. by rewrite level_at by lia. Qed.
Lemma x_red_level j : x_node_level (Node (x_red_ix j)) = (j + 2)%nat.
Proof. unfold x_red_ix. replace (3 * j + 3)%nat with (3 * j + 1 + 2)%nat by lia. by rewrite level_at by lia. Qed.

Lemma x_edge_inv e : e ∈ exchange_edges ->
  e = (Node 0, GRAPH_END) \/ e = (prev_red peers, Node 0) \/ exists j, (j < peers)%nat /\ e ∈ peer_edges j.
Proof.
  unfold exchange_edges. rewrite !elem_of_cons. intros [?|[?|(j & He & Hj)%list_elem_of_bind]]; [by left|by right; left|].
  right. right. apply elem_of_seq in Hj. exists j. split; [lia|done].
Qed.
Lemma x_edge_in j e : (j < peers)%nat -> e ∈ peer_edges j -> e ∈ exchange_edges.
Proof.
  intros Hj He. unfold exchange_edges. rewrite !elem_of_cons. right. right. apply list_elem_of_bind. exists j.
  split; [done|]. apply elem_of_seq. lia.
Qed.
Lemma x_edge_level x y : (x, y) ∈ exchange_edges -> (x_node_level x < x_node_level y)%nat.
Proof.
  assert (Hp : (x_node_level (prev_red peers) < peers + 3)%nat).
  { destruct peers as [|k] eqn:E; [lia|]. cbn [prev_red]. rewrite x_red_level. lia. }
  assert (Ht : (1 < x_node_level send_to)%nat) by (destruct Hto as [->| ->]; cbn [x_node_level]; lia).
  intros [[= -> ->]|[[= -> ->]|(j & Hj & He)]]%x_edge_inv; [cbn [x_node_level]; lia|exact Hp|].
  unfold peer_edges in He. rewrite elem_of_app, !elem_of_cons, elem_of_nil in He.
  destruct He as [[[= -> ->]|[[= -> ->]|[[= -> ->]|[[= -> ->]|[]]]]]|He];
    rewrite ?x_send_level, ?x_recv_level, ?x_red_level; try (cbn [x_node_level]; lia).
  destruct j as [|j]; cbn [prev_edge] in He; [by apply elem_of_nil in He|].
  apply list_elem_of_singleton in He as [= -> ->]. rewrite !x_red_level. lia.
Qed.

Lemma exchange_wf r (g : coll_graph) comp : gshape g comp (exchange_ops r) exchange_edges -> well_formed g.
Proof.
  intros Hg. eapply shape_well_formed; [exact Hg| | | |exists x_node_level; apply x_edge_level].
  - intros i Hi. unfold exchange_ops in Hi. rewrite length_ops in Hi.
    destruct i as [|i].
    { split; [exists (prev_red peers)|exists GRAPH_END]; unfold exchange_edges; set_solver. }
    pose proof (Nat.div_mod_eq i 3) as Ei. pose proof (Nat.mod_upper_bound i 3).
    assert (exists j, (j < peers)%nat /\ (S i = x_send_ix j \/ S i = x_recv_ix j \/ S i = x_red_ix j)) as (j & Hj & Hc).
    { exists (i / 3)%nat. unfold x_send_ix, x_recv_ix, x_red_ix. split; [apply Nat.Div0.div_lt_upper_bound; lia|].
      destruct (i mod 3)%nat as [|[|[|o]]]; lia. }
    destruct Hc as [->|[->| ->]].
    + split; [exists GRAPH_START|exists send_to]; apply (x_edge_in j); try done; unfold peer_edges; set_solver.
    + split; [exists GRAPH_START|exists (Node (x_red_ix j))]; apply (x_edge_in j); try done; unfold peer_edges; set_solver.
    + split; [exists (Node (x_recv_ix j)); apply (x_edge_in j); try done; unfold peer_edges; set_solver|].
      destruct (decide (S j = peers)) as [E|Hne].
      * exists (Node 0). unfold exchange_edges. rewrite <- E. cbn [prev_red]. set_solver.
      * exists (Node (x_red_ix (S j))). apply (x_edge_in (S j)); [lia|]. unfold peer_edges. cbn [prev_edge]. set_solver.
  - exists (Node 0). by left.
  - exists (Node (x_send_ix 0)). apply (x_edge_in 0); [lia|]. unfold peer_edges. set_solver.
Qed.

(** ** All ranks *)

Section World.
Variables (graphs : Z -> coll_graph) (comps : Z -> Z).
Hypothesis Hg : forall r, 0 <= r < nranks -> gshape (graphs r) (comps r) (exchange_ops r) exchange_edges.

Lemma op_of_exchange r x : 0 <= r < nranks -> op_of graphs r x = x_node_op r x.
Proof. intros Hr. apply (shape_op_of _ _ _ _ _ _ (Hg r Hr)). Qed.
Lemma exchange_graphs_wf r : 0 <= r < nranks -> well_formed (graphs r).
Proof. intros Hr. by eapply exchange_wf, Hg. Qed.

Lemma peer_range r j : 0 <= peer r j < nranks.
Proof. apply wrap_range. lia. Qed.
Lemma peer_eq r j : 0 <= r < nranks -> (j < peers)%nat -> peer r j = (r + Z.of_nat (S j)) mod nranks.
Proof. intros _ _. unfold peer. f_equal. lia. Qed.
Lemma peer_other r j : 0 <= r < nranks -> (j < peers)%nat -> peer r j <> r.
Proof.
  intros Hr Hj E. rewrite peer_eq in E by done. assert (H0 : (r + Z.of_nat (S j)) mod nranks = (r + 0) mod nranks).
  { rewrite E, Z.add_0_r. symmetry. by apply Z.mod_small. }
  apply up_inj in H0; lia.
Qed.
(** The peer counts back. *)
Lemma peer_back r j : 0 <= r < nranks -> (j < peers)%nat ->
  (peers - 1 - j < peers)%nat /\ peer (peer r j) (peers - 1 - j) = r.
Proof.
  intros Hr Hj. split; [lia|]. unfold peer. rewrite Zplus_mod_idemp_r.
  replace (Z.of_nat (S (peers - 1 - j)) + (Z.of_nat (S j) + r)) with (r + 1 * nranks) by lia.
  rewrite Z.mod_add by lia. by apply Z.mod_small.
Qed.
Lemma peer_inj r j j' : 0 <= r < nranks -> (j < peers)%nat -> (j' < peers)%nat -> peer r j = peer r j' -> j = j'.
Proof. intros Hr Hj Hj' E. rewrite !peer_eq in E by done. apply up_inj in E; lia. Qed.

Lemma exchange_send r x d b n : 0 <= r < nranks -> op_of graphs r x = Some (OpSend d b n) ->
  exists j, (j < peers)%nat /\ x = Node (x_send_ix j) /\ d = peer r j /\ b = send_buffer r d /\ n = bytes.
Proof.
  intros Hr. rewrite op_of_exchange by done.
  intros [[=]|(j & Hj & [[-> [= -> -> ->]]|[[_ [=]]|[_ [=]]]])]%x_node_op_inv. by exists j.
Qed.
Lemma exchange_recv r x q b n : 0 <= r < nranks -> op_of graphs r x = Some (OpRecv q b n) ->
  exists j, (j < peers)%nat /\ x = Node (x_recv_ix j) /\ q = peer r j /\ b = slot r j /\ n = bytes.
Proof.
  intros Hr. rewrite op_of_exchange by done.
  intros [[=]|(j & Hj & [[_ [=]]|[[-> [= -> -> ->]]|[_ [=]]]])]%x_node_op_inv. by exists j.
Qed.

Lemma exchange_matched : matched nranks graphs (fun _ => x_node_level).
Proof.
  split.
  - exact exchange_graphs_wf.
  - intros r x y Hr. rewrite (shape_edges _ _ _ _ _ _ (Hg r Hr)). apply x_edge_level.
  - intros r x d b n Hr (j & Hj & -> & -> & _ & ->)%exchange_send; [|done]. pose proof (peer_range r j) as Hp.
    destruct (peer_back r j Hr Hj) as [Hb E]. split; [done|]. exists (Node (x_recv_ix (peers - 1 - j))).
    rewrite op_of_exchange, x_recv_op, E, x_recv_level, x_send_level by done. eauto.
  - intros r x d b n Hr (j & Hj & -> & -> & _ & ->)%exchange_recv; [|done]. pose proof (peer_range r j) as Hp.
    destruct (peer_back r j Hr Hj) as [Hb E]. split; [done|]. exists (Node (x_send_ix (peers - 1 - j))).
    rewrite op_of_exchange, x_send_op, E, x_recv_level, x_send_level by done. eauto.
  - intros r x x' d b b' n n' Hr (j & Hj & -> & -> & _)%exchange_send (j' & Hj' & -> & E & _)%exchange_send; [|done..].
    by rewrite (peer_inj r j j' Hr Hj Hj' E).
  - intros r x x' d b b' n n' Hr (j & Hj & -> & -> & _)%exchange_recv (j' & Hj' & -> & E & _)%exchange_recv; [|done..].
    by rewrite (peer_inj r j j' Hr Hj Hj' E).
Qed.

(** *** The data *)

(** What the user's operation computes. *)
Variable f : list Z -> list Z -> list Z.
Hypothesis Hf : forall a b, Z.of_nat (length a) = bytes -> Z.of_nat (length b) = bytes -> Z.of_nat (length (f a b)) = bytes.
Definition byte_op (left right dst n : Z) (m : memory) : memory :=
  store_bytes dst (f (load_bytes m left (n * item_size)) (load_bytes m right (n * item_size))) m.
(** The user's function. Its documentation allows [right] and [dst] to be the same pointer, and no
    other overlap with [dst]. *)
Definition op_documented (op : Z -> Z -> Z -> Z -> memory -> memory) : Prop := forall left right dst n m,
  disjoint left (n * item_size) dst (n * item_size) -> right = dst \/ disjoint right (n * item_size) dst (n * item_size) ->
  op left right dst n m = byte_op left right dst n m.
Variable op : Z -> Z -> Z -> Z -> memory -> memory.
Hypothesis Hop : op_documented op.
Variable mem0 : Z -> memory.
#[local] Abbreviation wstep := (wstep nranks graphs op).

(** What is sent, what is received in and what is reduced in do not overlap. *)
Hypothesis apart_send_slot : forall r q j, 0 <= r < nranks -> 0 <= q < nranks -> q <> r -> (j < peers)%nat ->
  disjoint (slot r j) bytes (send_buffer r q) bytes.
Hypothesis apart_send_recv : forall r q, 0 <= r < nranks -> 0 <= q < nranks -> q <> r ->
  disjoint (recvbuf r) bytes (send_buffer r q) bytes.
Hypothesis apart_slot_recv : forall r j, 0 <= r < nranks -> (j < peers)%nat ->
  disjoint (slot r j) bytes (recvbuf r) bytes.

(** What [q] sends to [r], and what [r] has after [k] reductions. *)
Definition part (q r : Z) : list Z := load_bytes (mem0 q) (send_buffer q r) bytes.
Fixpoint reduced (r : Z) (k : nat) : list Z :=
  match k with O => load_bytes (mem0 r) (recvbuf r) bytes | S k => f (part (peer r k) r) (reduced r k) end.

Lemma length_part q r : Z.of_nat (length (part q r)) = bytes.
Proof. unfold part. rewrite length_load_bytes. lia. Qed.
Lemma length_reduced r k : Z.of_nat (length (reduced r k)) = bytes.
Proof.
  induction k as [|k IH]; cbn [reduced]; [rewrite length_load_bytes; lia|]. apply Hf; [apply length_part|done].
Qed.

Record xinv (w : world) : Prop := mk_xinv {
  xi_send : forall r q, 0 <= r < nranks -> 0 <= q < nranks -> q <> r ->
    load_bytes (w_mem w r) (send_buffer r q) bytes = part r q;
  xi_msgs : forall m d, m ∈ w_msgs w -> ms_data m = Some d -> d = part (ms_from m) (ms_to m);
  xi_got : forall v m, (v, m) ∈ w_got w ->
    load_bytes (w_mem w (rv_rank v)) (rv_buffer v) bytes = part (rv_from v) (rv_rank v);
  xi_red : forall r, 0 <= r < nranks -> exists k, (k <= peers)%nat
    /\ load_bytes (w_mem w r) (recvbuf r) bytes = reduced r k
    /\ forall j, (j < peers)%nat -> ran_at w r (Node (x_red_ix j)) <-> (j < k)%nat
}.

Lemma disjoint_sym a n b k : disjoint a n b k -> disjoint b k a n.
Proof. unfold disjoint. lia. Qed.
Lemma slots_apart r j j' : j <> j' -> disjoint (slot r j) bytes (slot r j') bytes.
Proof. intros Hne. unfold disjoint, slot. destruct (decide (j < j')%nat); nia. Qed.
Lemma load_other m a (bs : list Z) b :
  Z.of_nat (length bs) = bytes -> disjoint a bytes b bytes -> load_bytes (store_bytes a bs m) b bytes = load_bytes m b bytes.
Proof. intros Hl Hd. apply load_bytes_store_disjoint. by rewrite Hl. Qed.

Lemma xinv_same w w' :
  w_mem w' = w_mem w -> w_got w' = w_got w ->
  (forall m d, m ∈ w_msgs w' -> ms_data m = Some d -> d = part (ms_from m) (ms_to m)) ->
  (forall r j, (j < peers)%nat -> ran_at w' r (Node (x_red_ix j)) <-> ran_at w r (Node (x_red_ix j))) ->
  xinv w -> xinv w'.
Proof.
  intros E1 E2 Hm Hran X. split; rewrite ?E1, ?E2; [apply X|exact Hm|apply X|].
  intros r Hr. destruct (xi_red _ X r Hr) as (k & Hk & Hl & Hj). exists k. split; [done|]. split; [done|].
  intros j Hlt. rewrite Hran by done. by apply Hj.
Qed.

(** The slot of a receive that is complete. *)
Lemma slot_filled w r j : winv nranks graphs w -> xinv w -> 0 <= r < nranks -> (j < peers)%nat ->
  marked_at w r (Node (x_recv_ix j)) -> load_bytes (w_mem w r) (slot r j) bytes = part (peer r j) r.
Proof.
  intros W X Hr Hj Hm.
  assert (Hrv : op_of graphs r (Node (x_recv_ix j)) = Some (OpRecv (peer r j) (slot r j) bytes)).
  { rewrite op_of_exchange by done. by apply x_recv_op. }
  destruct (marked_got _ _ _ W _ _ _ _ _ Hm Hrv) as (v & m & Hv & E1 & E2 & E3 & _).
  pose proof (xi_got _ X _ _ Hv) as Hl. by rewrite E1, E2, E3 in Hl.
Qed.

(** A reduction runs. *)
Lemma xinv_reduce w w' r j :
  winv nranks graphs w -> winv nranks graphs w' -> xinv w -> 0 <= r < nranks -> (j < peers)%nat ->
  w_mem w' = <[r := op (slot r j) (recvbuf r) (recvbuf r) count (w_mem w r)]> (w_mem w) ->
  w_msgs w' = w_msgs w -> w_got w' = w_got w ->
  (forall r' x, ran_at w' r' x <-> ran_at w r' x \/ (r' = r /\ x = Node (x_red_ix j))) ->
  (forall x, marked_at w' r x -> marked_at w r x) -> ~ ran_at w r (Node (x_red_ix j)) -> xinv w'.
Proof.
  intros W W' X Hr Hj Emem Emsg Egot Hran Hmark Hfresh.
  assert (Hsrc : forall x, (x, Node (x_red_ix j)) ∈ exchange_edges -> marked_at w r x).
  { intros x Hx. apply Hmark. apply (ran_source _ _ _ W' r _ (Node (x_red_ix j))); [apply Hran; by right|].
    by apply (shape_edges _ _ _ _ _ _ (Hg r Hr)). }
  pose proof (slot_filled w r j W X Hr Hj) as Hslot.
  destruct (xi_red _ X r Hr) as (k & Hk & Hl & Hjs).
  assert (k = j) as ->.
  { assert (~ (j < k)%nat) by (rewrite <- Hjs; done). destruct j as [|j']; [lia|].
    assert (j' < k)%nat; [|lia]. apply Hjs; [lia|].
    apply (marked_ran nranks graphs exchange_graphs_wf w W).
    - apply Hsrc, (x_edge_in (S j')); [done|]. unfold peer_edges. cbn [prev_edge]. set_solver.
    - eapply op_of_valid. rewrite op_of_exchange by done. apply x_red_op. lia. }
  assert (Hlf : Z.of_nat (length (f (part (peer r j) r) (reduced r j))) = bytes) by (apply (length_reduced r (S j))).
  assert (Enew : op (slot r j) (recvbuf r) (recvbuf r) count (w_mem w r)
    = store_bytes (recvbuf r) (f (part (peer r j) r) (reduced r j)) (w_mem w r)).
  { rewrite Hop by (try (by left); by apply apart_slot_recv). unfold byte_op. rewrite Hslot, Hl; [done|]. apply Hsrc, (x_edge_in j); [done|]. unfold peer_edges. set_solver. }
  rewrite Enew in Emem. split; rewrite ?Emem, ?Emsg, ?Egot.
  - intros r' q Hr' Hq Hne. destruct (decide (r' = r)) as [->|]; [rewrite fn_lookup_insert|rewrite fn_lookup_insert_ne by done; by apply X].
    rewrite load_other; [by apply X|done|by apply apart_send_recv].
  - apply X.
  - intros v m Hv. destruct (decide (rv_rank v = r)) as [Er|]; [rewrite Er, fn_lookup_insert|rewrite fn_lookup_insert_ne by done; by apply (xi_got _ X _ m)].
    pose proof (got_recv _ _ _ W v m Hv) as Hrv. unfold a_recv in Hrv. rewrite Er in Hrv. apply exchange_recv in Hrv as (j' & Hj' & _ & _ & Eb & _); [|done].
    rewrite load_other; [rewrite <- Er; by apply (xi_got _ X _ m)|done|]. rewrite Eb. by apply disjoint_sym, apart_slot_recv.
  - intros r' Hr'. destruct (decide (r' = r)) as [->|Hne].
    + exists (S j). split; [lia|]. rewrite fn_lookup_insert. split; [rewrite <- Hlf; apply load_store_bytes|].
      intros j' Hj'. rewrite Hran, Hjs by done. unfold x_red_ix. split.
      * intros [?|[_ [= E]]]; lia.
      * intros Hlt. destruct (decide (j' = j)) as [->|]; [by right|left; lia].
    + rewrite fn_lookup_insert_ne by done. destruct (xi_red _ X r' Hr') as (k' & Hk' & Hl' & Hjs'). exists k'.
      split; [done|]. split; [done|]. intros j' Hj'. rewrite Hran, Hjs' by done. naive_solver.
Qed.

Lemma xinv_act w r l1 a l2 posted s log new p s' :
  winv nranks graphs w -> xinv w -> w_conf w r = Some (mk_gconfig (l1 ++ a :: l2) posted s log) ->
  coll_act a s = Ok ((new, p), s') ->
  xinv (set_conf r (mk_gconfig (l1 ++ new ++ l2) (p ++ posted) s' (logs a ++ log)) (effects graphs op r a w)).
Proof.
  intros W X Hc Ha. pose proof (conf_range _ _ _ W _ _ Hc) as Hr. set (w' := set_conf _ _ _).
  assert (W' : winv nranks graphs w') by (eapply winv_act; [exact exchange_graphs_wf|done..]).
  assert (Hran : forall r' x, ran_at w' r' x <-> ran_at w r' x \/ (r' = r /\ a = ARun x)).
  { intros r' x. eapply act_ran_at; [exact exchange_graphs_wf|exact Hc|exact Ha]. }
  assert (Hother : (forall j, (j < peers)%nat -> a <> ARun (Node (x_red_ix j))) ->
    w_mem (effects graphs op r a w) = w_mem w -> xinv w').
  { intros Hne Hmem. eapply xinv_same; [exact Hmem|apply act_got| |intros r' j Hj; rewrite Hran; naive_solver|exact X].
    intros m d. unfold w'. rewrite act_msgs. intros [Hm|Hm]%elem_of_app; [by apply X|].
    apply new_msgs_in in Hm as (_ & _ & _ & ->). done. }
  destruct a as [x| |]; [|by apply Hother..]. cbn [effects] in *.
  destruct (op_of graphs r x) as [o|] eqn:Eop.
  2:{ apply Hother; [|unfold effect; by rewrite Eop]. intros j Hj [= ->]. rewrite op_of_exchange, x_red_op in Eop; done. }
  pose proof Eop as Ho. rewrite op_of_exchange in Ho by done.
  apply x_node_op_inv in Ho as [->|(j & Hj & [[-> ->]|[[-> ->]|[-> ->]]])].
  - apply Hother; [|unfold effect; by rewrite Eop]. intros j Hj [= ->]. rewrite op_of_exchange, x_red_op in Eop; done.
  - apply Hother; [|unfold effect; by rewrite Eop]. intros j' Hj' [= E]. unfold x_send_ix, x_red_ix in E. lia.
  - apply Hother; [|unfold effect; by rewrite Eop]. intros j' Hj' [= E]. unfold x_recv_ix, x_red_ix in E. lia.
  - apply (xinv_reduce w w' r j); try done.
    + unfold w', effect. by rewrite Eop.
    + unfold w', effect. by rewrite Eop.
    + unfold w', effect. by rewrite Eop.
    + intros r' x. rewrite Hran. naive_solver.
    + intros x (c & Hc' & Hm). exists (mk_gconfig (l1 ++ ARun (Node (x_red_ix j)) :: l2) posted s log). split; [done|].
      unfold w' in Hc'. cbn in Hc'. rewrite fn_lookup_insert in Hc'. injection Hc' as <-. cbn in Hm |- *. set_solver.
    + intros (c & Hc' & Hx). rewrite Hc in Hc'. injection Hc' as <-. destruct (wi_conf _ _ _ W _ _ Hc) as [m I].
      revert Hx. apply (ginv_running _ _ _ _ I). cbn. set_solver.
Qed.

Lemma xinv_deliver conf mem m1 m m2 r1 v r2 ready got d :
  ms_data m = Some d -> rv_rank v = ms_to m -> rv_from v = ms_from m ->
  winv nranks graphs (mk_world conf mem (m1 ++ m :: m2) (r1 ++ v :: r2) ready got) ->
  xinv (mk_world conf mem (m1 ++ m :: m2) (r1 ++ v :: r2) ready got) ->
  xinv (mk_world conf (<[rv_rank v := store_bytes (rv_buffer v) d (mem (rv_rank v))]> mem)
          (m1 ++ m2) (r1 ++ r2) ((rv_rank v, rv_node v) :: ready) ((v, m) :: got)).
Proof.
  intros Hd H1 H2 W X. pose proof (xi_msgs _ X m d ltac:(cbn; set_solver) Hd) as Ed. rewrite <- H1, <- H2 in Ed.
  destruct (wi_recvs _ _ _ W v ltac:(cbn; set_solver)) as [Hs Hran]. pose proof (ran_range _ _ _ W _ _ Hran) as Hr.
  destruct (exchange_recv _ _ _ _ _ Hr Hs) as (j & Hj & Ex & Eq & Eb & _).
  assert (Hld : Z.of_nat (length d) = bytes) by (rewrite Ed; apply length_part).
  split; cbn.
  - intros r q Hr' Hq Hne. destruct (decide (r = rv_rank v)) as [->|]; [rewrite fn_lookup_insert|rewrite fn_lookup_insert_ne by done; by apply X].
    rewrite load_other; [by apply X|done|]. rewrite Eb. by apply apart_send_slot.
  - intros m' d' Hm'. apply (xi_msgs _ X). cbn. set_solver.
  - intros v' m' [[= -> ->]|Hv']%elem_of_cons.
    { rewrite fn_lookup_insert, <- Hld, load_store_bytes. exact Ed. }
    destruct (decide (rv_rank v' = rv_rank v)) as [Er|]; [|rewrite fn_lookup_insert_ne by done; by apply (xi_got _ X _ m')].
    rewrite Er, fn_lookup_insert. rewrite load_other; [rewrite <- Er; by apply (xi_got _ X _ m')|done|].
    pose proof (got_recv _ _ _ W v' m' Hv') as Hs'. unfold a_recv in Hs'. rewrite Er in Hs'. destruct (exchange_recv _ _ _ _ _ Hr Hs') as (j' & Hj' & Ex' & _ & Eb' & _).
    rewrite Eb, Eb'. apply slots_apart. intros <-.
    apply (got_not_posted _ _ _ W v v' m'); [cbn; set_solver|done|done|congruence].
  - intros r Hr'. destruct (xi_red _ X r Hr') as (k & Hk & Hl & Hjs). exists k. split; [done|]. split; [|done].
    destruct (decide (r = rv_rank v)) as [->|]; [rewrite fn_lookup_insert|by rewrite fn_lookup_insert_ne by done].
    rewrite load_other; [done|done|]. rewrite Eb. by apply apart_slot_recv.
Qed.

Lemma xinv_step w w' : winv nranks graphs w -> xinv w -> wstep w w' -> xinv w'.
Proof.
  intros W X St. destruct St as
    [w r Hr Hc|w r l1 a l2 posted s log new p s' Hc Ha|conf mem m1 m m2 recvs ready got Hd
    |conf mem m1 m m2 r1 v r2 ready got d Hd H1 H2|conf mem msgs recvs q1 r x q2 got acts p1 p2 s log status Hc].
  - apply (xinv_same w); [done|done|apply X| |exact X]. intros r' j _. unfold ran_at. cbn.
    destruct (decide (r' = r)) as [->|]; [rewrite fn_lookup_insert, Hc|by rewrite fn_lookup_insert_ne].
    split; [intros (? & [= <-] & H%elem_of_nil); done|naive_solver].
  - by eapply xinv_act.
  - eapply (xinv_same (mk_world conf mem (m1 ++ m :: m2) recvs ready got)); [done|done| |done|exact X]. cbn. intros m' d' Hm' Hd'.
    rewrite elem_of_app, elem_of_cons in Hm'. destruct Hm' as [?|[->|?]]; [by apply (xi_msgs _ X m'); cbn; set_solver| |by apply (xi_msgs _ X m'); cbn; set_solver].
    destruct (wi_msgs _ _ _ W m ltac:(cbn; set_solver)) as [Hs Hran]. pose proof (ran_range _ _ _ W _ _ Hran) as Hr.
    destruct (exchange_send _ _ _ _ _ Hr Hs) as (j & Hj & _ & Ed & Eb & En). injection Hd' as <-.
    cbn. rewrite Eb, En. apply (xi_send _ X); [done|rewrite Ed; apply peer_range|rewrite Ed; by apply peer_other].
  - by eapply xinv_deliver.
  - eapply (xinv_same (mk_world conf mem msgs recvs (q1 ++ (r, x) :: q2) got)); [done|done|apply X| |exact X]. intros r' j _. unfold ran_at. cbn.
    destruct (decide (r' = r)) as [->|]; [rewrite fn_lookup_insert, Hc|by rewrite fn_lookup_insert_ne].
    naive_solver.
Qed.

Lemma exchange_over w r c : rtc wstep (world_init mem0) w -> w_conf w r = Some c -> is_over c ->
  load_bytes (w_mem w r) (recvbuf r) bytes = reduced r peers.
Proof.
  intros R Hc Ho.
  assert (winv nranks graphs w /\ xinv w) as [W X].
  { refine (rtc_ind_r (fun w => winv nranks graphs w /\ xinv w) _ _ _ _ R).
    - split; [by apply (winv_init nranks graphs op)|]. split; cbn [w_mem w_msgs w_got world_init].
      + done.
      + by intros m d ?%elem_of_nil.
      + by intros v m ?%elem_of_nil.
      + intros r' Hr'. exists 0%nat. split; [lia|]. split; [done|]. intros j Hj.
        split; [by intros (? & ? & _)|lia].
    - intros x y _ St [W X]. split; [by eapply winv_step; [exact exchange_graphs_wf|..]|by eapply xinv_step]. }
  pose proof (conf_range _ _ _ W _ _ Hc) as Hr. destruct (xi_red _ X r Hr) as (k & Hk & Hl & Hjs). rewrite Hl.
  assert (Hedge : forall e, e ∈ exchange_edges -> e ∈ all_edges (graphs r)) by (intros e; apply (shape_edges _ _ _ _ _ _ (Hg r Hr))).
  assert (Hfree : marked_at w r (Node 0)).
  { apply (over_source nranks graphs exchange_graphs_wf w W r c); [done|done|]. apply Hedge. by left. }
  assert (Ep : prev_red peers = Node (x_red_ix (peers - 1))).
  { destruct peers as [|k'] eqn:E; [lia|]. cbn [prev_red]. by rewrite Nat.sub_succ, Nat.sub_0_r. }
  assert (Hlast : ran_at w r (Node (x_red_ix (peers - 1)))).
  { apply (marked_ran nranks graphs exchange_graphs_wf w W).
    - apply (ran_source _ _ _ W r _ (Node 0)).
      + apply (marked_ran nranks graphs exchange_graphs_wf w W); [done|]. apply (shape_valid _ _ _ _ _ (Hg r Hr)).
        exists 0%nat. split; [done|]. unfold exchange_ops. rewrite length_ops. lia.
      + apply Hedge. rewrite <- Ep. right. left.
    - eapply op_of_valid. rewrite op_of_exchange by done. apply x_red_op. lia. }
  apply Hjs in Hlast; [|lia]. replace k with peers by lia. reflexivity.
Qed.
End World.
End Exchange.
