(* ===== verification/Allreduce.v ===== *)
(** * All-reduce and reduce-scatter

    What the ranks have when [allreduce] and [reduce_scatter] of
    src/src/collective are over: their own contribution combined with that of every
    other rank, in the order of the ranks that follow. *)
From stdpp Require Import base numbers functions list gmap strings relations.
From Stdlib Require Import ZArith Lia.
From S2P Require Import Prelude Status Memory Graph GraphRuns GraphBuild Collective World WorldRuns CollectiveBuild Exchange.

(** The ranks after [r]. *)
Definition ranks_after (nranks r : Z) : list Z :=
  (fun i => (Z.of_nat i + r) mod nranks) <$> seq 1 (Z.to_nat nranks - 1).
(** [f] of what the others have, the next rank first, and of what [r] has. *)
Definition combined (f : list Z -> list Z -> list Z) (nranks : Z) (contribution : Z -> list Z) (r : Z) : list Z :=
  foldl (fun acc q => f (contribution q) acc) (contribution r) (ranks_after nranks r).

Lemma reduced_combined nranks count item_size recvbuf send_buffer f mem0 contribution r :
  load_bytes (mem0 r) (recvbuf r) (count * item_size) = contribution r ->
  (forall j, (j < Z.to_nat nranks - 1)%nat ->
     load_bytes (mem0 (peer nranks r j)) (send_buffer (peer nranks r j) r) (count * item_size) = contribution (peer nranks r j)) ->
  reduced nranks count item_size recvbuf send_buffer f mem0 r (Z.to_nat nranks - 1) = combined f nranks contribution r.
Proof.
  intros H0 Hp. unfold combined, ranks_after. induction (Z.to_nat nranks - 1)%nat as [|k IH]; [exact H0|].
  cbn [reduced]. rewrite seq_S, fmap_app, foldl_app. cbn [fmap list_fmap foldl]. rewrite IH by (intros; apply Hp; lia).
  unfold part. rewrite Hp by lia. done.
Qed.

(** [f] is what the user's operation does to items of [item_size] bytes. *)
Definition keeps_length (f : list Z -> list Z -> list Z) (n : Z) : Prop :=
  forall a b, Z.of_nat (length a) = n -> Z.of_nat (length b) = n -> Z.of_nat (length (f a b)) = n.

Section Allreduce.
Variables (nranks count item_size : Z) (sendbuf recvbuf tmp : Z -> Z).
#[local] Abbreviation bytes := (count * item_size).

(** Buffers: [tmp r] is what [malloc] returned; a rank may reduce in place. *)
Record allreduce_buffers (r : Z) : Prop := mk_allreduce_buffers {
  ab_tmp : 0 <= tmp r /\ tmp r + nranks * bytes < 2 ^ 64;
  ab_tmp_send : disjoint (tmp r) (allreduce_tmp_size nranks (sendbuf r) (recvbuf r) count item_size) (sendbuf r) bytes;
  ab_tmp_recv : disjoint (tmp r) (allreduce_tmp_size nranks (sendbuf r) (recvbuf r) count item_size) (recvbuf r) bytes;
  ab_send_recv : recvbuf r = sendbuf r \/ disjoint (sendbuf r) bytes (recvbuf r) bytes
}.
Hypothesis Hn : 2 <= nranks.
Hypothesis Hbytes : 0 <= bytes.
Hypothesis Hb : forall r, allreduce_buffers r.

#[local] Abbreviation in_place r := (recvbuf r =? sendbuf r).
Definition ar_send_from (r : Z) : Z := if in_place r then tmp r else sendbuf r.
Definition ar_slots (r : Z) : Z := if in_place r then tmp r + bytes else tmp r.

Lemma tmp_size r : allreduce_tmp_size nranks (sendbuf r) (recvbuf r) count item_size
  = if in_place r then bytes * nranks else bytes * (nranks - 1).
Proof.
  destruct (ab_tmp _ (Hb r)) as [H1 H2]. unfold allreduce_tmp_size. destruct (in_place r); apply Z.mod_small; nia.
Qed.
Lemma ar_slots_range r : 0 <= ar_slots r /\ ar_slots r + (nranks - 1) * bytes < 2 ^ 64.
Proof. destruct (ab_tmp _ (Hb r)). unfold ar_slots. destruct (in_place r); nia. Qed.

Lemma builds_allreduce r :
  builds (allreduce_graph r nranks (sendbuf r) (recvbuf r) count item_size (tmp r)) [] [] tt
    (exchange_ops nranks count item_size recvbuf tmp ar_slots (fun r _ => ar_send_from r) r)
    (exchange_edges nranks (Node 0)).
Proof.
  pose proof (builds_exchange nranks count item_size Hn Hbytes recvbuf tmp ar_slots (fun r _ => ar_send_from r)
    (Node 0) (or_introl eq_refl) ar_slots_range r) as H.
  unfold allreduce_graph.
  replace (u64 (tmp r + bytes)) with (tmp r + bytes); [exact H|].
  destruct (ab_tmp _ (Hb r)). symmetry. apply Z.mod_small. nia.
Qed.

Variable f : list Z -> list Z -> list Z.
Hypothesis Hf : keeps_length f bytes.
Variable mem : Z -> memory.
(** The memories after the copies that the call makes. *)
Definition ar_mem (r : Z) : memory := allreduce_copy (sendbuf r) (recvbuf r) count item_size (tmp r) (mem r).
Definition contribution (q : Z) : list Z := load_bytes (mem q) (sendbuf q) bytes.

Lemma ar_mem_eq r : ar_mem r
  = if in_place r then memcpy (tmp r) (sendbuf r) bytes (mem r) else memcpy (recvbuf r) (sendbuf r) bytes (mem r).
Proof.
  unfold ar_mem, allreduce_copy. replace (u64 bytes) with bytes; [done|].
  destruct (ab_tmp _ (Hb r)). symmetry. apply Z.mod_small. nia.
Qed.
Lemma disjoint_part a n a' n' b k : disjoint a n b k -> a <= a' -> a' + n' <= a + n -> disjoint a' n' b k.
Proof. unfold disjoint. lia. Qed.
Lemma ar_own r : load_bytes (ar_mem r) (recvbuf r) bytes = contribution r.
Proof.
  rewrite ar_mem_eq. pose proof (tmp_size r) as Hs. destruct (in_place r) eqn:E; [|by apply memcpy_load].
  apply Z.eqb_eq in E. rewrite load_bytes_memcpy_disjoint; [by rewrite E|].
  eapply disjoint_part; [apply (ab_tmp_recv _ (Hb r))|lia|]. rewrite Hs. nia.
Qed.
Lemma ar_sent r : load_bytes (ar_mem r) (ar_send_from r) bytes = contribution r.
Proof.
  rewrite ar_mem_eq. unfold ar_send_from. destruct (in_place r) eqn:E; [by apply memcpy_load|].
  apply load_bytes_memcpy_disjoint. apply Z.eqb_neq in E.
  destruct (ab_send_recv _ (Hb r)) as [?|H]; [done|]. unfold disjoint in *. lia.
Qed.

Lemma slot_in r j : (j < Z.to_nat nranks - 1)%nat ->
  tmp r <= slot count item_size ar_slots r j
  /\ slot count item_size ar_slots r j + bytes <= tmp r + allreduce_tmp_size nranks (sendbuf r) (recvbuf r) count item_size.
Proof. intros Hj. rewrite tmp_size. unfold slot, ar_slots. destruct (in_place r); nia. Qed.
Lemma ar_apart_send_slot r j : (j < Z.to_nat nranks - 1)%nat ->
  disjoint (slot count item_size ar_slots r j) bytes (ar_send_from r) bytes.
Proof.
  intros Hj. destruct (slot_in r j Hj) as [H1 H2]. unfold ar_send_from. destruct (in_place r) eqn:E.
  - unfold disjoint, slot, ar_slots. rewrite E. nia.
  - eapply disjoint_part; [apply (ab_tmp_send _ (Hb r))|done|done].
Qed.
Lemma ar_apart_send_recv r : disjoint (recvbuf r) bytes (ar_send_from r) bytes.
Proof.
  unfold ar_send_from. pose proof (tmp_size r) as Hs. destruct (in_place r) eqn:E.
  - apply disjoint_sym. eapply disjoint_part; [apply (ab_tmp_recv _ (Hb r))|lia|rewrite Hs; nia].
  - apply Z.eqb_neq in E. destruct (ab_send_recv _ (Hb r)) as [?|H]; [done|]. by apply disjoint_sym.
Qed.
Lemma ar_apart_slot_recv r j : (j < Z.to_nat nranks - 1)%nat ->
  disjoint (slot count item_size ar_slots r j) bytes (recvbuf r) bytes.
Proof.
  intros Hj. destruct (slot_in r j Hj) as [H1 H2]. eapply disjoint_part; [apply (ab_tmp_recv _ (Hb r))|done|done].
Qed.
End Allreduce.

(** C4: the all-reduce. Every rank builds a graph; whatever the ranks' threads and
    the network do, when a rank's graph is over, its receive buffer holds its
    contribution combined with that of every other rank in the order of the ranks
    that follow, also when it reduces in place, for every user function that keeps to its
    documentation; the number of steps is bounded, and when nothing can happen any more,
    every rank's graph is complete. *)
Theorem allreduce_combines nranks count item_size sendbuf recvbuf tmp comps f op mem :
  2 <= nranks -> 0 <= count * item_size -> op_documented item_size f op ->
  (forall r, allreduce_buffers nranks count item_size sendbuf recvbuf tmp r) ->
  keeps_length f (count * item_size) ->
  exists graphs mem0,
    (forall r, 0 <= r < nranks ->
       allreduce_x r nranks (sendbuf r) (recvbuf r) count item_size (comps r) (tmp r) (mem r)
       = Ok (mem0 r, PGraph (graphs r) (comp_is_empty (comps r))))
    /\ (forall w, rtc (wstep nranks graphs op) (world_init mem0) w ->
         forall r c, w_conf w r = Some c -> is_over c ->
         load_bytes (w_mem w r) (recvbuf r) (count * item_size)
         = combined f nranks (fun q => load_bytes (mem q) (sendbuf q) (count * item_size)) r)
    /\ terminates nranks graphs op.
Proof.
  intros Hn Hbytes Hop Hb Hf.
  set (slots := ar_slots count item_size sendbuf recvbuf tmp). set (from := ar_send_from sendbuf recvbuf tmp).
  set (ops := exchange_ops nranks count item_size recvbuf tmp slots (fun r _ => from r)).
  destruct (choose_graphs nranks (fun r g =>
      allreduce_x r nranks (sendbuf r) (recvbuf r) count item_size (comps r) (tmp r) (mem r)
      = Ok (ar_mem count item_size sendbuf recvbuf tmp mem r, PGraph g (comp_is_empty (comps r)))
      /\ gshape g (comps r) (ops r) (exchange_edges nranks (Node 0)))) as [graphs Hg].
  { intros r Hr. destruct (plan_builds (comps r) _ _ _
      (builds_allreduce nranks count item_size sendbuf recvbuf tmp Hn Hbytes Hb r)) as (g & E & Hs).
    exists g. split; [|exact Hs]. unfold allreduce_x. rewrite (proj2 (Z.eqb_neq _ _)) by lia. by rewrite E. }
  assert (Hs : forall r, 0 <= r < nranks -> gshape (graphs r) (comps r) (ops r) (exchange_edges nranks (Node 0)))
    by (intros r Hr; by apply Hg).
  pose proof (ar_slots_range nranks count item_size sendbuf recvbuf tmp Hn Hbytes Hb) as Hslots.
  exists graphs, (ar_mem count item_size sendbuf recvbuf tmp mem). split_and!.
  - intros r Hr. by apply Hg.
  - intros w R r c Hc Ho. rewrite (exchange_over nranks count item_size Hn Hbytes recvbuf tmp slots (fun r _ => from r)
      (Node 0) (or_introl eq_refl) Hslots graphs comps Hs f Hf op Hop (ar_mem count item_size sendbuf recvbuf tmp mem)) with (c := c); try done.
    + apply (reduced_combined _ _ _ _ (fun r _ => from r) _ _ (contribution count item_size sendbuf mem)).
      * by apply (ar_own nranks).
      * intros j Hj. by apply (ar_sent nranks).
    + intros r' q j _ _ _. by apply (ar_apart_send_slot nranks).
    + intros r' q _ _ _. by apply (ar_apart_send_recv nranks).
    + intros r' j _. by apply (ar_apart_slot_recv nranks).
  - eapply matched_terminates, (exchange_matched nranks count item_size Hn Hbytes recvbuf tmp slots (fun r _ => from r) (Node 0) (or_introl eq_refl) Hslots graphs comps Hs).
Qed.
Lemma allreduce_combines_witness :
  exists graphs mem0, allreduce_x 1 3 1000 1000 2 4 0 5000 (fun a => a) = Ok (mem0 1, PGraph (graphs 1) true)
    /\ terminates 3 graphs (byte_op 4 (fun a b => a)).
Proof.
  destruct (allreduce_combines 3 2 4 (fun _ => 1000) (fun _ => 1000) (fun _ => 5000) (fun _ => 0) (fun a b => a) (byte_op 4 (fun a b => a)) (fun _ a => a))
    as (graphs & mem0 & H1 & _ & H2); [lia|lia|done| |by intros a b|].
  - intros r. split; [lia|right; by vm_compute|right; by vm_compute|by left].
  - exists graphs, mem0. split; [apply (H1 1); lia|exact H2].
Defined.

Section ReduceScatter.
Variables (nranks count item_size : Z) (sendbuf recvbuf tmp : Z -> Z).
#[local] Abbreviation bytes := (count * item_size).

(** Buffers: [sendbuf r] has a part for every rank; a rank may reduce in its own
    part. *)
Record scatter_buffers (r : Z) : Prop := mk_scatter_buffers {
  sb_tmp : 0 <= tmp r /\ tmp r + nranks * bytes < 2 ^ 64;
  sb_send : 0 <= sendbuf r /\ sendbuf r + nranks * bytes < 2 ^ 64;
  sb_tmp_send : disjoint (tmp r) (bytes * (nranks - 1)) (sendbuf r) (nranks * bytes);
  sb_tmp_recv : disjoint (tmp r) (bytes * (nranks - 1)) (recvbuf r) bytes;
  sb_send_recv : recvbuf r = sendbuf r + r * bytes \/ disjoint (sendbuf r) (nranks * bytes) (recvbuf r) bytes
}.
Hypothesis Hn : 2 <= nranks.
Hypothesis Hbytes : 0 <= bytes.
Hypothesis Hb : forall r, scatter_buffers r.

Definition rs_send (r q : Z) : Z := u64 (sendbuf r + q * count * item_size).
Lemma rs_send_eq r q : 0 <= q < nranks -> rs_send r q = sendbuf r + q * bytes.
Proof.
  intros Hq. destruct (sb_send _ (Hb r)). unfold rs_send. rewrite <- Z.mul_assoc. apply Z.mod_small. nia.
Qed.
Lemma rs_slots_range r : 0 <= tmp r /\ tmp r + (nranks - 1) * bytes < 2 ^ 64.
Proof. destruct (sb_tmp _ (Hb r)). nia. Qed.
Lemma rs_bytes (r : Z) : u64 bytes = bytes.
Proof. destruct (sb_tmp _ (Hb r)). apply Z.mod_small. nia. Qed.

Lemma builds_scatter r :
  builds (reduce_scatter_graph r nranks (sendbuf r) (recvbuf r) count item_size (tmp r)) [] [] tt
    (exchange_ops nranks count item_size recvbuf tmp tmp rs_send r) (exchange_edges nranks GRAPH_END).
Proof.
  exact (builds_exchange nranks count item_size Hn Hbytes recvbuf tmp tmp rs_send
    GRAPH_END (or_intror eq_refl) rs_slots_range r).
Qed.

Variable mem : Z -> memory.
Definition rs_mem (r : Z) : memory := reduce_scatter_copy r (sendbuf r) (recvbuf r) count item_size (mem r).
(** What [q] has for [r]. *)
Definition rs_part (q r : Z) : list Z := load_bytes (mem q) (sendbuf q + r * bytes) bytes.

Lemma rs_own r : 0 <= r < nranks -> load_bytes (rs_mem r) (recvbuf r) bytes = rs_part r r.
Proof.
  intros Hr. unfold rs_mem, reduce_scatter_copy. fold (rs_send r r). rewrite rs_send_eq, (rs_bytes r) by done.
  destruct (Z.eqb_spec (recvbuf r) (sendbuf r + r * bytes)) as [->|_]; [done|by apply memcpy_load].
Qed.
Lemma rs_sent r q : 0 <= r < nranks -> 0 <= q < nranks -> load_bytes (rs_mem r) (rs_send r q) bytes = rs_part r q.
Proof.
  intros Hr Hq. unfold rs_mem, reduce_scatter_copy. fold (rs_send r r). rewrite !rs_send_eq, (rs_bytes r) by done.
  destruct (Z.eqb_spec (recvbuf r) (sendbuf r + r * bytes)) as [E|Hne]; [done|].
  apply load_bytes_memcpy_disjoint. destruct (sb_send_recv _ (Hb r)) as [?|H]; [done|]. unfold disjoint in *. nia.
Qed.
Lemma rs_apart_send_slot r q j : 0 <= q < nranks -> (j < Z.to_nat nranks - 1)%nat ->
  disjoint (slot count item_size tmp r j) bytes (rs_send r q) bytes.
Proof.
  intros Hq Hj. rewrite rs_send_eq by done. pose proof (sb_tmp_send _ (Hb r)) as H. unfold disjoint, slot in *.
  assert (Z.of_nat j * bytes + bytes <= (nranks - 1) * bytes) by nia. nia.
Qed.
Lemma rs_apart_send_recv r q : 0 <= r < nranks -> 0 <= q < nranks -> q <> r ->
  disjoint (recvbuf r) bytes (rs_send r q) bytes.
Proof.
  intros Hr Hq Hne. rewrite rs_send_eq by done. destruct (sb_send_recv _ (Hb r)) as [->|H]; unfold disjoint in *; nia.
Qed.
Lemma rs_apart_slot_recv r j : (j < Z.to_nat nranks - 1)%nat ->
  disjoint (slot count item_size tmp r j) bytes (recvbuf r) bytes.
Proof.
  intros Hj. pose proof (sb_tmp_recv _ (Hb r)) as H. unfold disjoint, slot in *.
  assert (Z.of_nat j * bytes + bytes <= (nranks - 1) * bytes) by nia. nia.
Qed.
End ReduceScatter.

(** C23: the reduce-scatter. As for the all-reduce; each rank ends with its own part
    of every rank's send buffer combined. *)
Theorem reduce_scatter_combines nranks count item_size sendbuf recvbuf tmp comps f op mem :
  2 <= nranks -> 0 <= count * item_size -> op_documented item_size f op ->
  (forall r, scatter_buffers nranks count item_size sendbuf recvbuf tmp r) ->
  keeps_length f (count * item_size) ->
  exists graphs mem0,
    (forall r, 0 <= r < nranks ->
       reduce_scatter_x r nranks (sendbuf r) (recvbuf r) count item_size (comps r) (tmp r) (mem r)
       = Ok (mem0 r, PGraph (graphs r) (comp_is_empty (comps r))))
    /\ (forall w, rtc (wstep nranks graphs op) (world_init mem0) w ->
         forall r c, w_conf w r = Some c -> is_over c ->
         load_bytes (w_mem w r) (recvbuf r) (count * item_size)
         = combined f nranks (fun q => load_bytes (mem q) (sendbuf q + r * (count * item_size)) (count * item_size)) r)
    /\ terminates nranks graphs op.
Proof.
  intros Hn Hbytes Hop Hb Hf.
  set (send := rs_send count item_size sendbuf). set (mem0 := rs_mem count item_size sendbuf recvbuf mem).
  set (ops := exchange_ops nranks count item_size recvbuf tmp tmp send).
  destruct (choose_graphs nranks (fun r g =>
      reduce_scatter_x r nranks (sendbuf r) (recvbuf r) count item_size (comps r) (tmp r) (mem r)
      = Ok (mem0 r, PGraph g (comp_is_empty (comps r)))
      /\ gshape g (comps r) (ops r) (exchange_edges nranks GRAPH_END))) as [graphs Hg].
  { intros r Hr. destruct (plan_builds (comps r) _ _ _
      (builds_scatter nranks count item_size sendbuf recvbuf tmp Hn Hbytes Hb r)) as (g & E & Hs).
    exists g. split; [|exact Hs]. unfold reduce_scatter_x. rewrite (proj2 (Z.eqb_neq _ _)) by lia. by rewrite E. }
  assert (Hs : forall r, 0 <= r < nranks -> gshape (graphs r) (comps r) (ops r) (exchange_edges nranks GRAPH_END))
    by (intros r Hr; by apply Hg).
  pose proof (rs_slots_range nranks count item_size sendbuf recvbuf tmp Hn Hbytes Hb) as Hslots.
  pose proof (exchange_matched nranks count item_size Hn Hbytes recvbuf tmp tmp send GRAPH_END (or_intror eq_refl) Hslots
    graphs comps Hs) as M.
  exists graphs, mem0. split_and!.
  - intros r Hr. by apply Hg.
  - intros w R r c Hc Ho.
    assert (Hr : 0 <= r < nranks).
    { eapply conf_range; [|exact Hc]. by eapply winv_run; [apply M|]. }
    rewrite (exchange_over nranks count item_size Hn Hbytes recvbuf tmp tmp send
      GRAPH_END (or_intror eq_refl) Hslots graphs comps Hs f Hf op Hop mem0) with (c := c); try done.
    + apply (reduced_combined _ _ _ _ send _ _ (fun q => rs_part count item_size sendbuf mem q r)).
      * by apply (rs_own nranks count item_size sendbuf recvbuf tmp).
      * intros j Hj. apply (rs_sent nranks count item_size sendbuf recvbuf tmp); try done. by apply peer_range.
    + intros r' q j _ Hq _. by apply (rs_apart_send_slot nranks count item_size sendbuf recvbuf tmp).
    + intros r' q. by apply (rs_apart_send_recv nranks count item_size sendbuf recvbuf tmp).
    + intros r' j _. by apply (rs_apart_slot_recv nranks count item_size sendbuf recvbuf tmp).
  - by eapply matched_terminates.
Qed.
Lemma reduce_scatter_combines_witness :
  exists graphs mem0, reduce_scatter_x 1 3 1000 3000 2 4 0 5000 (fun a => a) = Ok (mem0 1, PGraph (graphs 1) true)
    /\ terminates 3 graphs (byte_op 4 (fun a b => a)).
Proof.
  destruct (reduce_scatter_combines 3 2 4 (fun _ => 1000) (fun _ => 3000) (fun _ => 5000) (fun _ => 0) (fun a b => a) (byte_op 4 (fun a b => a)) (fun _ a => a))
    as (graphs & mem0 & H1 & _ & H2); [lia|lia|done| |by intros a b|].
  - intros r. split; [lia|lia|right; by vm_compute|right; by vm_compute|right; left; by vm_compute].
  - exists graphs, mem0. split; [apply (H1 1); lia|exact H2].
Defined.
