(* ===== verification/Alltoall.v ===== *)
(** * All to all

    The graph of src/src/collective/alltoall.cpp, one send to and one receive from
    every other rank between the start and the end, and what the ranks have when
    it is over. *)
From stdpp Require Import base numbers functions list gmap strings relations.
From Stdlib Require Import ZArith Lia.
From S2P Require Import Prelude Status Memory Graph GraphRuns GraphBuild Collective World WorldRuns CollectiveBuild.

Section Alltoall.
Variables (nranks size : Z) (sendbuf recvbuf : Z -> Z).
Hypothesis Hn : 2 <= nranks.
Hypothesis Hsize : 0 <= size.

(** Buffers with a part for every rank. *)
Record alltoall_buffers (r : Z) : Prop := mk_alltoall_buffers {
  aa_send : 0 <= sendbuf r /\ sendbuf r + nranks * size < 2 ^ 64;
  aa_recv : 0 <= recvbuf r /\ recvbuf r + nranks * size < 2 ^ 64;
  aa_apart : disjoint (recvbuf r) (nranks * size) (sendbuf r) (nranks * size)
}.
Hypothesis Hb : forall r, alltoall_buffers r.

Definition sent_at (r q : Z) : Z := u64 (sendbuf r + q * size).
Definition recv_at (r q : Z) : Z := u64 (recvbuf r + q * size).
Lemma sent_at_eq r q : 0 <= q < nranks -> sent_at r q = sendbuf r + q * size.
Proof. intros Hq. destruct (aa_send _ (Hb r)). apply Z.mod_small. nia. Qed.
Lemma recv_at_eq r q : 0 <= q < nranks -> recv_at r q = recvbuf r + q * size.
Proof. intros Hq. destruct (aa_recv _ (Hb r)). apply Z.mod_small. nia. Qed.

(** ** The star of a rank *)

Definition others (r : Z) (k : nat) : list Z := filter (fun q => q <> r) (Z.of_nat <$> seq 0 k).
Definition pair_ops (r q : Z) : list (option coll_op) :=
  [Some (OpRecv q (recv_at r q) size); Some (OpSend q (sent_at r q) size)].
Definition aa_ops_upto (r : Z) (k : nat) : list (option coll_op) := others r k ≫= pair_ops r.
Definition aa_ops (r : Z) : list (option coll_op) := aa_ops_upto r (Z.to_nat nranks).

Lemma others_S r k : others r (S k) = others r k ++ (if Z.of_nat k =? r then [] else [Z.of_nat k]).
Proof.
  unfold others. rewrite seq_S, fmap_app, filter_app. f_equal. cbn [fmap list_fmap Nat.add]. rewrite filter_cons, filter_nil.
  destruct (Z.eqb_spec (Z.of_nat k) r); [rewrite decide_False; naive_solver|by rewrite decide_True].
Qed.
Lemma elem_of_others r q k : q ∈ others r k <-> q <> r /\ 0 <= q < Z.of_nat k.
Proof.
  unfold others. rewrite list_elem_of_filter, list_elem_of_fmap. setoid_rewrite elem_of_seq. split.
  - intros (? & i & -> & ?). lia.
  - intros (? & ?). split; [done|]. exists (Z.to_nat q). lia.
Qed.
Lemma others_nodup r k : NoDup (others r k).
Proof. apply NoDup_filter, NoDup_fmap_2; [intros ???; lia|apply NoDup_seq]. Qed.

Lemma aa_ops_S r k :
  aa_ops_upto r (S k) = aa_ops_upto r k ++ (if Z.of_nat k =? r then [] else pair_ops r (Z.of_nat k)).
Proof. unfold aa_ops_upto. rewrite others_S, bind_app. f_equal. by destruct (_ =? _). Qed.

Lemma builds_pairs r k : forall i,
  builds (for_each (alltoall_pair r (sendbuf r) (recvbuf r) size) (seq i k))
    (aa_ops_upto r i) (star (length (aa_ops_upto r i))) tt (aa_ops_upto r (i + k)) (star (length (aa_ops_upto r (i + k)))).
Proof.
  induction k as [|k IH]; intros i; cbn [seq for_each]; [rewrite Nat.add_0_r; apply builds_ret|].
  rewrite <- Nat.add_succ_comm. eapply builds_bind; [|apply IH]. unfold alltoall_pair.
  rewrite aa_ops_S. destruct (Z.of_nat i =? r); [rewrite app_nil_r; apply builds_ret|].
  fold (recv_at r (Z.of_nat i)). fold (sent_at r (Z.of_nat i)). rewrite length_app. unfold pair_ops. cbn [length].
  set (pre := aa_ops_upto r i). clearbody pre.
  eapply builds_perm.
  2:{ eapply builds_bind; [apply builds_op|]. eapply builds_bind; [apply builds_op|]. rewrite <- app_assoc. cbn [app].
      rewrite length_app. cbn [length].
      do 3 (eapply builds_bind; [apply builds_edge; try done; cbn [src_ok dst_ok]; rewrite length_app; cbn [length]; lia|]).
      apply builds_edge; [|done]. cbn [src_ok]. rewrite length_app. cbn [length]. lia. }
  rewrite Nat.add_1_r. replace (length pre + 2)%nat with (S (S (length pre))) by lia. cbn [star]. solve_Permutation.
Qed.

(** ** Nodes *)

Lemma pairs_at r (l : list Z) k q : l !! k = Some q ->
  (l ≫= pair_ops r) !! (2 * k)%nat = Some (Some (OpRecv q (recv_at r q) size))
  /\ (l ≫= pair_ops r) !! (2 * k + 1)%nat = Some (Some (OpSend q (sent_at r q) size)).
Proof.
  revert k. induction l as [|x l IH]; intros k Hk; [done|]. rewrite bind_cons. destruct k as [|k].
  - by injection Hk as ->.
  - destruct (IH k Hk) as [H1 H2]. replace (2 * S k)%nat with (S (S (2 * k))) by lia. by split.
Qed.
Lemma pairs_inv r (l : list Z) i op : (l ≫= pair_ops r) !! i = Some op ->
  exists k q, l !! k = Some q /\ ((i = 2 * k /\ op = Some (OpRecv q (recv_at r q) size))%nat
    \/ (i = 2 * k + 1 /\ op = Some (OpSend q (sent_at r q) size))%nat).
Proof.
  revert i. induction l as [|x l IH]; intros i Hi; [done|]. rewrite bind_cons in Hi.
  destruct i as [|[|i]]; cbn in Hi.
  - injection Hi as <-. exists 0%nat, x. split; [done|by left].
  - injection Hi as <-. exists 0%nat, x. split; [done|by right].
  - destruct (IH i Hi) as (k & q & Hk & Hc). exists (S k), q. split; [done|].
    destruct Hc as [[-> ->]|[-> ->]]; [left|right]; (split; [lia|done]).
Qed.

Section World.
Variables (graphs : Z -> coll_graph) (comps : Z -> Z).
Hypothesis Hg : forall r, 0 <= r < nranks -> gshape (graphs r) (comps r) (aa_ops r) (star (length (aa_ops r))).
#[local] Abbreviation others r := (others r (Z.to_nat nranks)).

Lemma other_ix r q : 0 <= q < nranks -> q <> r -> exists k, others r !! k = Some q.
Proof. intros Hq Hne. apply list_elem_of_lookup, elem_of_others. lia. Qed.
Lemma other_valid r k q : others r !! k = Some q -> 0 <= q < nranks /\ q <> r.
Proof. intros H%list_elem_of_lookup_2%elem_of_others. lia. Qed.
Lemma other_same r k k' q : others r !! k = Some q -> others r !! k' = Some q -> k = k'.
Proof. intros H1 H2. by apply (NoDup_lookup _ _ _ _ (others_nodup r (Z.to_nat nranks)) H1 H2). Qed.

Lemma aa_recv_op r k q : 0 <= r < nranks -> others r !! k = Some q ->
  op_of graphs r (Node (2 * k)) = Some (OpRecv q (recv_at r q) size).
Proof.
  intros Hr Hk. rewrite (shape_op_of _ _ _ _ _ _ (Hg r Hr)). unfold aa_ops, aa_ops_upto.
  by rewrite (proj1 (pairs_at r _ _ _ Hk)).
Qed.
Lemma aa_send_op r k q : 0 <= r < nranks -> others r !! k = Some q ->
  op_of graphs r (Node (2 * k + 1)) = Some (OpSend q (sent_at r q) size).
Proof.
  intros Hr Hk. rewrite (shape_op_of _ _ _ _ _ _ (Hg r Hr)). unfold aa_ops, aa_ops_upto.
  by rewrite (proj2 (pairs_at r _ _ _ Hk)).
Qed.
Lemma aa_op_inv r x op : 0 <= r < nranks -> op_of graphs r x = Some op ->
  exists k q, others r !! k = Some q /\ ((x = Node (2 * k) /\ op = OpRecv q (recv_at r q) size)
    \/ (x = Node (2 * k + 1) /\ op = OpSend q (sent_at r q) size)).
Proof.
  intros Hr. rewrite (shape_op_of _ _ _ _ _ _ (Hg r Hr)). destruct x as [| |i]; [done..|].
  destruct (aa_ops r !! i) as [op'|] eqn:E; [|done]. cbn. intros ->.
  apply pairs_inv in E as (k & q & Hk & Hc). exists k, q. split; [done|].
  destruct Hc as [[-> [= ->]]|[-> [= ->]]]; [by left|by right].
Qed.
Lemma aa_send_inv r x d b n : 0 <= r < nranks -> op_of graphs r x = Some (OpSend d b n) ->
  exists k, others r !! k = Some d /\ x = Node (2 * k + 1) /\ b = sent_at r d /\ n = size.
Proof. intros Hr (k & q & Hk & [[_ [=]]|[-> [= -> -> ->]]])%aa_op_inv; [|done]. by exists k. Qed.
Lemma aa_recv_inv r x q b n : 0 <= r < nranks -> op_of graphs r x = Some (OpRecv q b n) ->
  exists k, others r !! k = Some q /\ x = Node (2 * k) /\ b = recv_at r q /\ n = size.
Proof. intros Hr (k & q' & Hk & [[-> [= -> -> ->]]|[_ [=]]])%aa_op_inv; [|done]. by exists k. Qed.

Lemma length_aa r k q : others r !! k = Some q -> (2 * k + 1 < length (aa_ops r))%nat.
Proof. intros Hk. eapply lookup_lt_Some, (pairs_at r _ _ _ Hk). Qed.
Lemma aa_wf r : 0 <= r < nranks -> well_formed (graphs r).
Proof.
  intros Hr. eapply star_wf; [by apply Hg|]. destruct (other_ix r (if r =? 0 then 1 else 0)) as [k Hk].
  - destruct (r =? 0); lia.
  - destruct (Z.eqb_spec r 0); lia.
  - apply length_aa in Hk. lia.
Qed.

Lemma aa_matched : matched nranks graphs (fun _ => star_level).
Proof.
  split.
  - exact aa_wf.
  - intros r x y Hr. rewrite (shape_edges _ _ _ _ _ _ (Hg r Hr)). apply star_edge_level.
  - intros r x d b n Hr (k & Hk & -> & _ & ->)%aa_send_inv; [|done]. apply other_valid in Hk as [Hd Hne].
    split; [done|]. destruct (other_ix d r) as [k' Hk']; [done|done|]. exists (Node (2 * k')).
    rewrite (aa_recv_op _ _ _ Hd Hk'). eauto.
  - intros r x d b n Hr (k & Hk & -> & _ & ->)%aa_recv_inv; [|done]. apply other_valid in Hk as [Hd Hne].
    split; [done|]. destruct (other_ix d r) as [k' Hk']; [done|done|]. exists (Node (2 * k' + 1)).
    rewrite (aa_send_op _ _ _ Hd Hk'). eauto.
  - intros r x x' d b b' n n' Hr (k & Hk & -> & _)%aa_send_inv (k' & Hk' & -> & _)%aa_send_inv; [|done..].
    by rewrite (other_same _ _ _ _ Hk Hk').
  - intros r x x' d b b' n n' Hr (k & Hk & -> & _)%aa_recv_inv (k' & Hk' & -> & _)%aa_recv_inv; [|done..].
    by rewrite (other_same _ _ _ _ Hk Hk').
Qed.

(** ** The data *)

Variable reduce_op : Z -> Z -> Z -> Z -> memory -> memory.
Variable mem0 : Z -> memory.

Record ainv (w : world) : Prop := mk_ainv {
  ai_send : forall r q, 0 <= q < nranks ->
    load_bytes (w_mem w r) (sent_at r q) size = load_bytes (mem0 r) (sent_at r q) size;
  ai_own : forall r, 0 <= r < nranks ->
    load_bytes (w_mem w r) (recv_at r r) size = load_bytes (mem0 r) (recv_at r r) size;
  ai_msgs : forall m d, m ∈ w_msgs w -> ms_data m = Some d ->
    d = load_bytes (mem0 (ms_from m)) (sent_at (ms_from m) (ms_to m)) size;
  ai_got : forall v m, (v, m) ∈ w_got w ->
    load_bytes (w_mem w (rv_rank v)) (rv_buffer v) size
    = load_bytes (mem0 (rv_from v)) (sent_at (rv_from v) (rv_rank v)) size
}.

Lemma parts_apart r q q' : 0 <= q < nranks -> 0 <= q' < nranks -> q <> q' ->
  disjoint (recv_at r q) size (recv_at r q') size.
Proof. intros Hq Hq' Hne. rewrite !recv_at_eq by done. unfold disjoint. nia. Qed.
Lemma recv_send_apart r q q' : 0 <= q < nranks -> 0 <= q' < nranks ->
  disjoint (recv_at r q) size (sent_at r q') size.
Proof.
  intros Hq Hq'. rewrite recv_at_eq, sent_at_eq by done. pose proof (aa_apart _ (Hb r)) as H. unfold disjoint in *. nia.
Qed.

Lemma ainv_deliver conf mem m1 m m2 r1 v r2 ready got d :
  ms_data m = Some d -> rv_rank v = ms_to m -> rv_from v = ms_from m ->
  winv nranks graphs (mk_world conf mem (m1 ++ m :: m2) (r1 ++ v :: r2) ready got) ->
  ainv (mk_world conf mem (m1 ++ m :: m2) (r1 ++ v :: r2) ready got) ->
  ainv (mk_world conf (<[rv_rank v := store_bytes (rv_buffer v) d (mem (rv_rank v))]> mem)
          (m1 ++ m2) (r1 ++ r2) ((rv_rank v, rv_node v) :: ready) ((v, m) :: got)).
Proof.
  intros Hd H1 H2 W X. pose proof (ai_msgs _ X m d ltac:(cbn; set_solver) Hd) as Ed. rewrite <- H1, <- H2 in Ed.
  destruct (wi_recvs _ _ _ W v ltac:(cbn; set_solver)) as [Hs Hran]. pose proof (ran_range _ _ _ W _ _ Hran) as Hr.
  destruct (aa_recv_inv _ _ _ _ _ Hr Hs) as (k & Hk & Ex & Eb & _). apply other_valid in Hk as Hq. destruct Hq as [Hq Hne].
  assert (Hld : Z.of_nat (length d) = size) by (rewrite Ed, length_load_bytes; lia).
  assert (Hother : forall b, disjoint (rv_buffer v) size b size ->
    load_bytes (store_bytes (rv_buffer v) d (mem (rv_rank v))) b size = load_bytes (mem (rv_rank v)) b size).
  { intros b Hb'. apply load_bytes_store_disjoint. by rewrite Hld. }
  split; cbn.
  - intros r q Hq'. destruct (decide (r = rv_rank v)) as [->|]; [rewrite fn_lookup_insert|rewrite fn_lookup_insert_ne by done; by apply X].
    rewrite Hother; [by apply X|]. rewrite Eb. by apply recv_send_apart.
  - intros r Hr'. destruct (decide (r = rv_rank v)) as [->|]; [rewrite fn_lookup_insert|rewrite fn_lookup_insert_ne by done; by apply X].
    rewrite Hother; [by apply X|]. rewrite Eb. by apply parts_apart.
  - intros m' d' Hm'. apply (ai_msgs _ X). cbn. set_solver.
  - intros v' m' [[= -> ->]|Hv']%elem_of_cons.
    { rewrite fn_lookup_insert, <- Hld, load_store_bytes. rewrite Hld. exact Ed. }
    destruct (decide (rv_rank v' = rv_rank v)) as [Er|]; [|rewrite fn_lookup_insert_ne by done; by apply (ai_got _ X _ m')].
    rewrite Er, fn_lookup_insert. rewrite Hother; [rewrite <- Er; by apply (ai_got _ X _ m')|].
    pose proof (got_recv _ _ _ W v' m' Hv') as Hs'. unfold a_recv in Hs'. rewrite Er in Hs'. destruct (aa_recv_inv _ _ _ _ _ Hr Hs') as (k' & Hk' & Ex' & Eb' & _).
    rewrite Eb, Eb'. apply parts_apart; [done|exact (proj1 (other_valid _ _ _ Hk'))|]. intros E. rewrite <- E in Hk'.
    pose proof (other_same _ _ _ _ Hk Hk') as ->. apply (got_not_posted _ _ _ W v v' m'); [cbn; set_solver|done|done|congruence].
Qed.

Lemma ainv_step w w' : winv nranks graphs w -> ainv w -> wstep nranks graphs reduce_op w w' -> ainv w'.
Proof.
  intros W X St. destruct St as
    [w r Hr Hc|w r l1 a l2 posted s log new p s' Hc Ha|conf mem m1 m m2 recvs ready got Hd
    |conf mem m1 m m2 r1 v r2 ready got d Hd H1 H2|conf mem msgs recvs q1 r x q2 got acts p1 p2 s log status Hc].
  - destruct X. by split.
  - pose proof (conf_range _ _ _ W _ _ Hc) as Hr.
    assert (Hmem : w_mem (effects graphs reduce_op r a w) = w_mem w).
    { destruct a as [x| |]; [|done..]. cbn. unfold effect. destruct (op_of graphs r x) as [op|] eqn:E; [|done].
      by apply aa_op_inv in E as (k & q & _ & [[_ ->]|[_ ->]]). }
    split; cbn [w_mem set_conf]; rewrite ?Hmem; [apply X|apply X| |].
    + intros m d. rewrite (act_msgs graphs reduce_op). intros [Hm|Hm]%elem_of_app; [by apply X|].
      apply new_msgs_in in Hm as (_ & _ & _ & ->). done.
    + intros v m. rewrite (act_got graphs reduce_op). apply X.
  - split; [apply X|apply X| |apply X]. cbn. intros m' d Hm' Hd'.
    rewrite elem_of_app, elem_of_cons in Hm'. destruct Hm' as [?|[->|?]]; [by apply (ai_msgs _ X m'); cbn; set_solver| |by apply (ai_msgs _ X m'); cbn; set_solver].
    destruct (wi_msgs _ _ _ W m ltac:(cbn; set_solver)) as [Hs Hran]. pose proof (ran_range _ _ _ W _ _ Hran) as Hr.
    destruct (aa_send_inv _ _ _ _ _ Hr Hs) as (k & Hk & _ & Eb & En). injection Hd' as <-. cbn. rewrite Eb, En.
    apply (ai_send _ X), (proj1 (other_valid _ _ _ Hk)).
  - by eapply ainv_deliver.
  - destruct X. by split.
Qed.

Lemma alltoall_over w r c q : rtc (wstep nranks graphs reduce_op) (world_init mem0) w ->
  w_conf w r = Some c -> is_over c -> 0 <= q < nranks ->
  load_bytes (w_mem w r) (recv_at r q) size
  = if q =? r then load_bytes (mem0 r) (recv_at r r) size else load_bytes (mem0 q) (sent_at q r) size.
Proof.
  intros R Hc Ho Hq.
  assert (winv nranks graphs w /\ ainv w) as [W X].
  { refine (rtc_ind_r (fun w => winv nranks graphs w /\ ainv w) _ _ _ _ R).
    - split; [by apply (winv_init nranks graphs reduce_op)|]. split; cbn; [done|done|..].
      + by intros m d ?%elem_of_nil.
      + by intros v m ?%elem_of_nil.
    - intros x y _ St [W X]. split; [by eapply winv_step; [exact aa_wf|..]|by eapply ainv_step]. }
  pose proof (conf_range _ _ _ W _ _ Hc) as Hr. destruct (Z.eqb_spec q r) as [->|Hne]; [by apply X|].
  destruct (other_ix r q Hq Hne) as [k Hk]. pose proof (aa_recv_op _ _ _ Hr Hk) as Hop.
  assert (Hm : marked_at w r (Node (2 * k))).
  { eapply star_over; [exact aa_wf|exact W|apply Hg, Hr|exact Hc|exact Ho|]. apply length_aa in Hk. lia. }
  destruct (marked_got _ _ _ W _ _ _ _ _ Hm Hop) as (v & m & Hv & E1 & E2 & E3 & _).
  pose proof (ai_got _ X _ _ Hv) as Hl. by rewrite E1, E2, E3 in Hl.
Qed.
End World.
End Alltoall.

(** C16: the all-to-all. Every rank builds a graph; whatever the ranks' threads and
    the network do, when a rank's graph is over, part [q] of its receive buffer is
    the part for it of rank [q]'s send buffer, for every [q]; the number of steps is
    bounded, and when nothing can happen any more, every rank's graph is complete. *)
Theorem alltoall_exchanges nranks size sendbuf recvbuf comps reduce_op mem :
  2 <= nranks -> 0 <= size -> (forall r, alltoall_buffers nranks size sendbuf recvbuf r) ->
  exists graphs mem0,
    (forall r, 0 <= r < nranks ->
       alltoall_x r nranks (sendbuf r) (recvbuf r) size (comps r) (mem r)
       = Ok (mem0 r, PGraph (graphs r) (comp_is_empty (comps r))))
    /\ (forall w, rtc (wstep nranks graphs reduce_op) (world_init mem0) w ->
         forall r c q, w_conf w r = Some c -> is_over c -> 0 <= q < nranks ->
         load_bytes (w_mem w r) (recvbuf r + q * size) size = load_bytes (mem q) (sendbuf q + r * size) size)
    /\ terminates nranks graphs reduce_op.
Proof.
  intros Hn Hsize Hb. set (mem0 := fun r => alltoall_self r (sendbuf r) (recvbuf r) size (mem r)).
  set (ops := aa_ops nranks size sendbuf recvbuf).
  destruct (choose_graphs nranks (fun r g => alltoall_x r nranks (sendbuf r) (recvbuf r) size (comps r) (mem r)
      = Ok (mem0 r, PGraph g (comp_is_empty (comps r))) /\ gshape g (comps r) (ops r) (star (length (ops r))))) as [graphs Hg].
  { intros r Hr. destruct (plan_builds (comps r) _ _ _ (builds_pairs size sendbuf recvbuf r (Z.to_nat nranks) 0))
      as (g & E & Hs). exists g. split; [|exact Hs]. unfold alltoall_x. rewrite (proj2 (Z.eqb_neq _ _)) by lia. by rewrite E. }
  assert (Hs : forall r, 0 <= r < nranks -> gshape (graphs r) (comps r) (ops r) (star (length (ops r))))
    by (intros r Hr; by apply Hg).
  pose proof (aa_matched nranks size sendbuf recvbuf Hn graphs comps Hs) as M.
  exists graphs, mem0. split_and!; [intros r Hr; by apply Hg| |by eapply matched_terminates].
  intros w R r c q Hc Ho Hq. assert (Hr : 0 <= r < nranks).
  { eapply conf_range; [|exact Hc]. by eapply winv_run; [apply M|]. }
  rewrite <- (recv_at_eq nranks size sendbuf recvbuf Hn Hsize Hb) by done.
  rewrite (alltoall_over nranks size sendbuf recvbuf Hn Hsize Hb graphs comps Hs reduce_op mem0 w r c q R Hc Ho Hq).
  assert (Hcopy : forall r, mem0 r = memcpy (recv_at size recvbuf r r) (sent_at size sendbuf r r) size (mem r)) by done.
  destruct (Z.eqb_spec q r) as [->|Hne]; rewrite Hcopy.
  - rewrite memcpy_load by done. by rewrite (sent_at_eq nranks size sendbuf recvbuf Hn Hsize Hb).
  - rewrite load_bytes_memcpy_disjoint by (by apply (recv_send_apart nranks size sendbuf recvbuf Hn Hsize Hb)).
    by rewrite (sent_at_eq nranks size sendbuf recvbuf Hn Hsize Hb).
Qed.
Lemma alltoall_exchanges_witness :
  exists graphs mem0, alltoall_x 1 3 1000 3000 8 0 (fun a => a) = Ok (mem0 1, PGraph (graphs 1) true)
    /\ terminates 3 graphs (fun _ _ _ _ m => m).
Proof.
  destruct (alltoall_exchanges 3 8 (fun _ => 1000) (fun _ => 3000) (fun _ => 0) (fun _ _ _ _ m => m) (fun _ a => a))
    as (graphs & mem0 & H1 & _ & H2); [lia|lia| |].
  - intros r. split; [lia|lia|right; by vm_compute].
  - exists graphs, mem0. split; [apply (H1 1); lia|exact H2].
Defined.
