(* ===== verification/ReduceTree.v ===== *)
(** * Values in the reduction tree

    [reduce] (src/src/collective/reduce.cpp) replays the broadcast tree from the last
    round to the first with the messages reversed. This file computes what each rank
    has after each replayed round, for any way of combining two values. *)
From stdpp Require Import base numbers list.
From Stdlib Require Import ZArith Lia.
From S2P Require Import Prelude Status Memory Graph GraphRuns GraphBuild Collective World CollectiveBuild Tree BroadcastTree.

Section ReduceTree.
Variables nranks root : Z.
Hypothesis Hn : 2 <= nranks.
Hypothesis Hroot : 0 <= root < nranks.
#[local] Abbreviation tact := (tact nranks root).
#[local] Abbreviation tstate := (tstate nranks root).
#[local] Abbreviation last := (tree_last nranks).
#[local] Abbreviation rank_at := (rank_at nranks root).
#[local] Abbreviation dist := (dist nranks root).
#[local] Abbreviation jmp := (jmp nranks).

(** ** The rounds *)

(** The code's vector has [ceil(log2(nranks))] elements. *)
Lemma reduce_actions_eq r fuel : forall t, (t <= last)%nat -> (last < t + fuel)%nat ->
  reduce_actions r nranks fuel (tstate r t) = Ok (tact r <$> seq t (S last - t)).
Proof.
  induction fuel as [|fuel IH]; intros t Ht Hf; [lia|]. cbn [reduce_actions]. fold (tact r t).
  assert (tree_jump (tree_update r nranks (tstate r t)) = jmp t) as ->.
  { rewrite <- (tstate_jump nranks root r t). unfold tree_update. by destruct (_ <=? _). }
  pose proof (jmp_one nranks Hn t) as Hj. destruct (jmp t =? 1) eqn:E1.
  - replace t with last by lia. by replace (S last - last)%nat with 1%nat by lia.
  - change (tree_next (tree_update r nranks (tstate r t))) with (tstate r (S t)). rewrite (IH (S t)) by lia.
    replace (S last - t)%nat with (S (S last - S t)) by lia. done.
Qed.
Definition actions (r : Z) : list (option (bool * Z)) := tact r <$> seq 0 (S last).
Lemma actions_eq r : reduce_actions r nranks (Z.to_nat nranks) (tree_init r nranks root) = Ok (actions r).
Proof.
  apply (reduce_actions_eq r _ 0); [lia|]. unfold tree_last.
  assert (Z.log2_up nranks <= nranks) by (apply Z.log2_up_le_lin; lia). lia.
Qed.
Lemma length_actions r : Z.of_nat (length (actions r)) = Z.log2_up nranks.
Proof.
  unfold actions. rewrite length_fmap, length_seq. unfold tree_last. pose proof (Z.log2_up_pos nranks ltac:(lia)). lia.
Qed.

(** The rounds of the replay, and of those the ones in which the rank receives. *)
Definition replay_rounds (k : nat) : list nat := (fun i => last - i)%nat <$> seq 0 k.
Lemma replay_rounds_S k : replay_rounds (S k) = replay_rounds k ++ [(last - k)%nat].
Proof. unfold replay_rounds. by rewrite seq_S, fmap_app. Qed.
Lemma replay_rounds_rev : rev (seq 0 (S last)) = replay_rounds (S last).
Proof.
  assert (forall k, (k <= S last)%nat -> rev (seq (S last - k) k) = replay_rounds k) as H.
  { induction k as [|k IH]; intros Hk; [done|]. replace (S last - k)%nat with (S (last - k)) in IH by lia.
    replace (S last - S k)%nat with (last - k)%nat by lia. cbn [seq rev]. rewrite IH by lia. by rewrite replay_rounds_S. }
  specialize (H (S last) ltac:(lia)). by rewrite Nat.sub_diag in H.
Qed.
Lemma rev_actions r : rev (actions r) = tact r <$> replay_rounds (S last).
Proof. unfold actions. rewrite <- replay_rounds_rev. unfold fmap. by rewrite <- map_rev. Qed.

(** The child of round [t], if there is one. *)
Definition child_in (r : Z) (t : nat) : option Z := match tact r t with Some (true, q) => Some q | _ => None end.
Definition children_upto (r : Z) (k : nat) : list Z := omap (child_in r) (replay_rounds k).
Definition children (r : Z) : list Z := children_upto r (S last).
Lemma children_S r k : children_upto r (S k)
  = children_upto r k ++ match child_in r (last - k) with Some q => [q] | None => [] end.
Proof. unfold children_upto. rewrite replay_rounds_S, omap_app. cbn. by destruct (child_in r (last - k)). Qed.

(** The rounds in which the rank receives from a child. *)
Definition child_rounds (r : Z) (k : nat) : list nat := filter (fun t => is_Some (child_in r t)) (replay_rounds k).
Lemma child_rounds_S r k : child_rounds r (S k)
  = child_rounds r k ++ match child_in r (last - k) with Some _ => [(last - k)%nat] | None => [] end.
Proof.
  unfold child_rounds. rewrite replay_rounds_S, filter_app. f_equal. rewrite filter_cons, filter_nil.
  destruct (child_in r (last - k)); [by rewrite decide_True|]. rewrite decide_False; [done|by intros [? ?]].
Qed.
Lemma child_rounds_lookup r k i t : (k <= S last)%nat -> child_rounds r k !! i = Some t ->
  (last - t < k)%nat /\ (t <= last)%nat /\ is_Some (child_in r t).
Proof.
  intros Hk H%list_elem_of_lookup_2. apply list_elem_of_filter in H as [H1 H2].
  apply list_elem_of_fmap in H2 as (j & -> & Hj%elem_of_seq). split; [lia|]. split; [lia|done].
Qed.
Lemma child_rounds_sorted r k i j t t' : (k <= S last)%nat ->
  child_rounds r k !! i = Some t -> child_rounds r k !! j = Some t' -> (i < j)%nat -> (t' < t)%nat.
Proof.
  induction k as [|k IH]; intros Hk; [done|]. rewrite child_rounds_S. intros Hi Hj Hij.
  apply lookup_app_Some in Hj as [Hj|[Hj1 Hj2]].
  - apply IH; [lia| |done|done]. rewrite lookup_app_l in Hi; [done|]. apply lookup_lt_Some in Hj. lia.
  - destruct (child_in r (last - k)); [|done]. apply list_lookup_singleton_Some in Hj2 as [Hj2 <-].
    rewrite lookup_app_l in Hi by lia. apply child_rounds_lookup in Hi; lia.
Qed.
Lemma child_rounds_complete r t : (t <= last)%nat -> is_Some (child_in r t) ->
  exists i, child_rounds r (S last) !! i = Some t.
Proof.
  intros Ht Hc. apply list_elem_of_lookup, list_elem_of_filter. split; [done|]. apply list_elem_of_fmap.
  exists (last - t)%nat. split; [lia|]. apply elem_of_seq. lia.
Qed.
Lemma children_lookup r k i : children_upto r k !! i = child_rounds r k !! i ≫= child_in r.
Proof.
  revert i. induction k as [|k IH]; intros i; [done|]. rewrite children_S, child_rounds_S.
  assert (Hl : length (children_upto r k) = length (child_rounds r k)).
  { clear. induction k as [|k IH]; [done|]. rewrite children_S, child_rounds_S, !length_app, IH. by destruct (child_in _ _). }
  destruct (decide (i < length (children_upto r k))%nat) as [Hi|Hi].
  - rewrite !lookup_app_l by lia. apply IH.
  - rewrite !lookup_app_r, Hl by lia. destruct (child_in r (last - k)) eqn:E; [|done].
    destruct (i - length (child_rounds r k))%nat; cbn; [by rewrite E|done].
Qed.

(** ** Values *)

Context {V : Type}.
Variable f : V -> V -> V.
Variable x : Z -> V.

(** What rank [r] has after the last [k] rounds were replayed. *)
Fixpoint replayed (k : nat) (r : Z) : V :=
  match k with
  | O => x r
  | S k => match child_in r (last - k) with Some q => f (replayed k q) (replayed k r) | None => replayed k r end
  end.
Definition final (r : Z) : V := replayed (S last) r.

(** A rank has no children in the rounds up to the one it received in. *)
Lemma no_child_before r t q t' : 0 <= r < nranks -> tact r t = Some (false, q) -> (t' <= t)%nat -> child_in r t' = None.
Proof.
  intros Hr Ha Hle. unfold child_in. destruct (tact r t') as [[[] d]|] eqn:E; [exfalso|done..].
  pose proof (dist_range nranks root Hn r) as Hd.
  rewrite <- (rank_at_dist nranks root Hn Hroot r) in Ha, E by done.
  apply tact_recv in Ha as [HL _]; [|done..]. apply tact_send in E as (HL' & _); [|done..].
  pose proof (L_mono nranks root Hn (dist r) t' t Hd Hle). pose proof (jmp_pos nranks Hn t). lia.
Qed.
Lemma replayed_stable r t q k : 0 <= r < nranks -> tact r t = Some (false, q) ->
  (last - t <= k)%nat -> (k <= S last)%nat -> (t <= last)%nat -> replayed k r = replayed (last - t) r.
Proof.
  intros Hr Ha Hk Hk' Ht. induction k as [|k IH]; [by replace (last - t)%nat with 0%nat by lia|].
  destruct (decide (S k = last - t)%nat) as [->|Hne]; [done|]. cbn [replayed].
  rewrite (no_child_before r t q) by (done || lia). apply IH; lia.
Qed.

(** A child's value is final when it is sent. *)
Lemma child_final r t q : 0 <= r < nranks -> (t <= last)%nat -> child_in r t = Some q ->
  0 <= q < nranks /\ tact q t = Some (false, r) /\ replayed (last - t) q = final q.
Proof.
  intros Hr Ht Hc. unfold child_in in Hc. destruct (tact r t) as [[[] d]|] eqn:E; simplify_eq.
  destruct (tree_send_peer nranks root Hn Hroot r t q Hr E) as (Hq & Ha & _). split; [done|]. split; [done|].
  symmetry. apply (replayed_stable q t r); [done|done|lia|lia|done].
Qed.

(** In terms of the children one after the other. *)
Definition with_children (r : Z) (cs : list Z) : V := foldl (fun a q => f (final q) a) (x r) cs.
Lemma replayed_children r k : 0 <= r < nranks -> (k <= S last)%nat -> replayed k r = with_children r (children_upto r k).
Proof.
  intros Hr. induction k as [|k IH]; intros Hk; [done|]. cbn [replayed]. rewrite children_S.
  unfold with_children. rewrite foldl_app. fold (with_children r (children_upto r k)). rewrite <- IH by lia.
  destruct (child_in r (last - k)) as [q|] eqn:E; [|done]. cbn [foldl].
  destruct (child_final r (last - k) q Hr ltac:(lia) E) as (_ & _ & <-). by replace (last - (last - k))%nat with k by lia.
Qed.
Lemma final_children r : 0 <= r < nranks -> final r = with_children r (children r).
Proof. intros Hr. by apply replayed_children. Qed.

(** ** The order *)

(** [x (d + k) * (... * (x (d + 1) * x d))], ranks counted from the root. *)
Fixpoint segment (d : Z) (k : nat) : V :=
  match k with O => x (rank_at d) | S k => f (x (rank_at (d + Z.of_nat (S k)))) (segment d k) end.
Hypothesis assoc : forall a b c, f (f a b) c = f a (f b c).

Lemma segment_split d j k : f (segment (d + Z.of_nat (S j)) k) (segment d j) = segment d (S j + k).
Proof.
  induction k as [|k IH]; [by rewrite Nat.add_0_r|]. rewrite Nat.add_succ_r. cbn [segment].
  rewrite assoc, IH. do 3 f_equal. lia.
Qed.
Lemma replayed_segment k d : (k <= S last)%nat -> 0 <= d < nranks ->
  distance_left (tstate (rank_at d) (S last - k)) = 0 ->
  replayed k (rank_at d) = segment d (Z.to_nat (distance_right (tstate (rank_at d) (S last - k)))).
Proof.
  revert d. induction k as [|k IH]; intros d Hk Hd HL.
  - destruct (tree_ends nranks root Hn Hroot d last Hd ltac:(lia)) as [_ HR]. rewrite Nat.sub_0_r. by rewrite HR.
  - replace (S last - S k)%nat with (last - k)%nat in HL |- * by lia. set (t := (last - k)%nat) in *.
    destruct (tree_inv_all nranks root Hn Hroot t d Hd) as [[I1 I2] I3 I4 I5 I6].
    pose proof (jmp_pos nranks Hn t) as Hj.
    assert (ES : (S last - k)%nat = S t) by lia. rewrite ES in IH.
    assert (HL' : distance_left (tstate (rank_at d) (S t)) = 0).
    { rewrite L_S, HL by done. destruct (_ <=? _) eqn:E; lia. }
    assert (HR' : distance_right (tstate (rank_at d) (S t)) = Z.min (jmp t - 1) (distance_right (tstate (rank_at d) t))).
    { rewrite R_S, HL by done. destruct (_ <=? _) eqn:E; lia. }
    cbn [replayed]. fold t. unfold child_in. destruct (tact (rank_at d) t) as [[[] q]|] eqn:E.
    + apply tact_send in E as (_ & Hle & ->); [|done..]. set (R := distance_right (tstate (rank_at d) t)) in *.
      destruct (I5 (jmp t)) as [J1 J2]; [lia|].
      rewrite (IH d) by (lia || done). rewrite (IH (d + jmp t)); [|lia|lia|].
      * rewrite HR'. rewrite (R_S nranks root (rank_at (d + jmp t)) t), J1, J2, HL, Z.add_0_l, Z.leb_refl.
        replace (d + jmp t) with (d + Z.of_nat (S (Z.to_nat (jmp t - 1)))) by lia.
        replace (Z.min (jmp t - 1) R) with (jmp t - 1) by lia. rewrite segment_split. f_equal. lia.
      * rewrite (L_S nranks root (rank_at (d + jmp t)) t), J1, HL, Z.add_0_l, Z.leb_refl. lia.
    + apply tact_recv in E as (E & _); [|done..]. lia.
    + rewrite (IH d), HR' by (lia || done). f_equal.
      assert (~ jmp t <= distance_right (tstate (rank_at d) t)); [|lia]. intros Hle.
      assert (tact (rank_at d) t = Some (true, rank_at (d + jmp t))) as E' by (by apply tact_send).
      by rewrite E' in E.
Qed.
Lemma root_at : rank_at 0 = root.
Proof. unfold Tree.rank_at. rewrite Z.add_0_r. by apply Z.mod_small. Qed.
Lemma final_root : final root = segment 0 (Z.to_nat nranks - 1).
Proof.
  unfold final. rewrite <- root_at at 1. rewrite replayed_segment; [|lia|lia|]; rewrite Nat.sub_diag.
  - f_equal. destruct (tree_inv_init nranks root Hn Hroot 0) as [_ _ _ _ _]; [lia|].
    cbn [Tree.tstate tree_init distance_right]. rewrite root_at.
    replace (root - 1 - root + nranks) with (nranks - 1) by lia. rewrite Z.mod_small by lia. lia.
  - destruct (tree_inv_init nranks root Hn Hroot 0) as [H _ _ _ _]; lia.
Qed.
End ReduceTree.

(** C39: the rounds of a reduction fit in the vector that holds their actions. The
    loop that lays out the tree ends, at every rank, after as many rounds as the
    vector has elements, [ceil(log2(nranks))]. *)
Theorem reduce_rounds_fit nranks root r :
  2 <= nranks -> 0 <= root < nranks ->
  exists actions, reduce_actions r nranks (Z.to_nat nranks) (tree_init r nranks root) = Ok actions
    /\ Z.of_nat (length actions) = Z.log2_up nranks.
Proof.
  intros Hn Hroot. exists (actions nranks root r). split; [by apply actions_eq|by apply length_actions].
Qed.
Lemma reduce_rounds_fit_witness :
  exists actions, reduce_actions 3 7 7 (tree_init 3 7 2) = Ok actions /\ length actions = 3%nat.
Proof.
  destruct (reduce_rounds_fit 7 2 3) as (a & H1 & H2); [lia|lia|]. exists a. split; [exact H1|].
  change (Z.log2_up 7) with 3 in H2. lia.
Defined.
