(* ===== verification/Reduce.v ===== *)
(** * Reduce

    [reduce] of src/src/collective/reduce.cpp: a rank blocks in one operation after
    the other, which is a chain of nodes. When the root is through, its receive
    buffer holds the contributions of all ranks combined. *)
From stdpp Require Import base numbers functions list gmap strings relations.
From Stdlib Require Import ZArith Lia.
From S2P Require Import Prelude Status Memory Graph GraphRuns GraphBuild Collective World WorldRuns CollectiveBuild Tree BroadcastTree ReduceTree Exchange Allreduce.

(** ** Blocking operations as a graph *)

Fixpoint blocking (ops : list coll_op) (old_node : graph_node_t) : ST coll_graph unit :=
  match ops with
  | [] => graph_add_edge old_node GRAPH_END
  | op :: ops => node ← graph_add_node_op op ; graph_add_edge old_node node ;; blocking ops node
  end.
Lemma builds_blocking ops : forall pre,
  builds (blocking ops (prev (length pre))) (Some <$> pre) (chain (length pre)) tt
    (Some <$> (pre ++ ops)) (chain_all (length (pre ++ ops))).
Proof.
  induction ops as [|op ops IH]; intros pre; cbn [blocking].
  - rewrite app_nil_r. apply builds_edge; [|done]. destruct pre; [done|]. cbn. rewrite length_fmap. lia.
  - eapply builds_bind; [apply builds_op|]. rewrite length_fmap.
    eapply builds_bind; [apply builds_edge; [destruct pre; [done|]|]; cbn; rewrite length_app, length_fmap; cbn; lia|].
    replace (pre ++ op :: ops) with ((pre ++ [op]) ++ ops) by (by rewrite <- app_assoc).
    specialize (IH (pre ++ [op])). rewrite length_app, Nat.add_1_r, fmap_app in IH. exact IH.
Qed.

(** ** The operations of a rank *)

Section Reduce.
Variables nranks root count item_size : Z.
Hypothesis Hn : 2 <= nranks.
Hypothesis Hroot : 0 <= root < nranks.
#[local] Abbreviation bytes := (count * item_size).
Hypothesis Hbytes : 0 <= bytes < 2 ^ 64.
Variables sendbuf recvbuf a1 a2 : Z -> Z.
#[local] Abbreviation tact := (tact nranks root).
#[local] Abbreviation last := (tree_last nranks).
#[local] Abbreviation child_in := (child_in nranks root).
#[local] Abbreviation children := (children nranks root).
#[local] Abbreviation rounds r := (child_rounds nranks root r (S last)).

Definition buffers_of (r : Z) : Z * Z * bool * bool :=
  reduce_buffers r (sendbuf r) (recvbuf r) root (a1 r) (a2 r) (length (children r)).
Definition tmpb (r : Z) : Z := (buffers_of r).1.1.1.
Definition datab (r : Z) : Z := (buffers_of r).1.1.2.
(** The buffer with the result so far. *)
Definition current (r : Z) (i : nat) : Z := if (i =? 0)%nat then sendbuf r else datab r.

Definition child_ops (r : Z) (i : nat) (q : Z) : list coll_op :=
  [OpRecv q (tmpb r) bytes; OpReduce (tmpb r) (current r i) (datab r) count].
Fixpoint children_ops (r : Z) (i : nat) (cs : list Z) : list coll_op :=
  match cs with [] => [] | q :: cs => child_ops r i q ++ children_ops r (S i) cs end.
Definition parent_round (r : Z) (t : nat) (q : Z) : Prop := (t <= last)%nat /\ tact r t = Some (false, q).

Lemma bytes_eq : u64 (item_size * count) = bytes.
Proof. rewrite Z.mul_comm. by apply Z.mod_small. Qed.
Lemma current_eq r i : (if negb (i =? 0)%nat then datab r else sendbuf r) = current r i.
Proof. unfold current. by destruct (i =? 0)%nat. Qed.
Lemma replay_no_parent r ts : forall i, Forall (fun t => forall q, tact r t <> Some (false, q)) ts ->
  reduce_replay (sendbuf r) (tmpb r) (datab r) count item_size (negb (i =? 0)%nat) (tact r <$> ts)
  = children_ops r i (omap (child_in r) ts).
Proof.
  induction ts as [|t ts IH]; intros i HF; [done|]. apply Forall_cons in HF as [Ht HF]. cbn [fmap list_fmap reduce_replay].
  cbn [omap list_omap]. change (child_in r t) with (match tact r t with Some (true, q) => Some q | _ => None end).
  destruct (tact r t) as [[[] q]|]; [|by destruct (Ht q)|by apply IH].
  cbn [children_ops child_ops app]. specialize (IH (S i) HF). cbn [Nat.eqb negb] in IH. by rewrite IH, bytes_eq, current_eq.
Qed.
Lemma replay_parent r ts t q ts' : forall i, Forall (fun t => forall q, tact r t <> Some (false, q)) ts ->
  tact r t = Some (false, q) ->
  reduce_replay (sendbuf r) (tmpb r) (datab r) count item_size (negb (i =? 0)%nat) (tact r <$> ts ++ t :: ts')
  = children_ops r i (omap (child_in r) ts) ++ [OpSend q (current r (i + length (omap (child_in r) ts))) bytes].
Proof.
  induction ts as [|s ts IH]; intros i HF Ht.
  - cbn [app fmap list_fmap reduce_replay omap list_omap length children_ops]. by rewrite Ht, bytes_eq, Nat.add_0_r, current_eq.
  - apply Forall_cons in HF as [Hs HF]. cbn [app fmap list_fmap reduce_replay omap list_omap].
    change (child_in r s) with (match tact r s with Some (true, q) => Some q | _ => None end).
    destruct (tact r s) as [[[] p]|]; [|by destruct (Hs p)|by apply IH].
    cbn [children_ops child_ops app length]. specialize (IH (S i) HF Ht). cbn [Nat.eqb negb] in IH.
    by rewrite IH, bytes_eq, current_eq, Nat.add_succ_comm.
Qed.

Lemma nchildren_eq r : nchildren (actions nranks root r) = length (children r).
Proof.
  unfold ReduceTree.children, children_upto. rewrite <- (replay_rounds_rev nranks). unfold nchildren, actions.
  generalize (seq 0 (S last)). intros l. induction l as [|t l IH]; [done|].
  cbn [fmap list_fmap rev]. rewrite omap_app, length_app, <- IH, filter_cons. cbn [omap list_omap].
  change (child_in r t) with (match tact r t with Some (true, q) => Some q | _ => None end).
  destruct (tact r t) as [[[] q]|]; cbn [from_option fst]; [rewrite decide_True by done|rewrite decide_False by done..];
    cbn [length]; lia.
Qed.

Lemma has_parent r : 0 <= r < nranks -> r <> root -> exists t q, parent_round r t q.
Proof.
  intros Hr Hne. destruct (tree_receives nranks root Hn Hroot r Hr Hne) as (j & t & q & Hj & Ha).
  apply acts_in_lookup in Hj as [Hj _]. exists t, q. split; [lia|done].
Qed.
Lemma parent_unique r t q t' q' : 0 <= r < nranks -> parent_round r t q -> parent_round r t' q' -> t = t' /\ q = q'.
Proof.
  intros Hr [_ H] [_ H']. pose proof (recv_once nranks root Hn Hroot r t q t' q' Hr H H').
  pose proof (recv_once nranks root Hn Hroot r t' q' t q Hr H' H). assert (t = t') as -> by lia.
  rewrite H in H'. by injection H' as ->.
Qed.

Definition reduce_ops (r : Z) : list coll_op :=
  reduce_replay (sendbuf r) (tmpb r) (datab r) count item_size false (rev (actions nranks root r)).
Lemma ops_root : reduce_ops root = children_ops root 0 (children root).
Proof.
  unfold reduce_ops. rewrite rev_actions. apply (replay_no_parent root _ 0). apply Forall_forall.
  intros t _ q. by apply tree_root_no_recv.
Qed.
Lemma ops_other r t q : 0 <= r < nranks -> parent_round r t q ->
  reduce_ops r = children_ops r 0 (children r) ++ [OpSend q (current r (length (children r))) bytes].
Proof.
  intros Hr [Ht Ha]. unfold reduce_ops. rewrite rev_actions.
  assert (Hsplit : replay_rounds nranks (S last) = replay_rounds nranks (last - t) ++ t :: ((fun i => last - i)%nat <$> seq (S (last - t)) t)).
  { unfold replay_rounds. replace (S last) with ((last - t) + S t)%nat by lia. rewrite seq_app, fmap_app. f_equal.
    cbn [seq fmap list_fmap]. f_equal. lia. }
  assert (Hc : omap (child_in r) (replay_rounds nranks (last - t)) = children r).
  { unfold ReduceTree.children, children_upto. rewrite Hsplit, omap_app. cbn [omap list_omap].
    rewrite (no_child_before nranks root Hn Hroot r t q t) by (done || lia).
    assert (forall l, Forall (fun s => s <= t)%nat l -> omap (child_in r) l = []) as H0.
    { induction 1 as [|s l Hs _ IHl]; [done|]. cbn [omap list_omap].
      by rewrite (no_child_before nranks root Hn Hroot r t q s). }
    rewrite (H0 (_ <$> _)); [symmetry; apply app_nil_r|].
    apply Forall_forall. intros s (j & -> & Hj)%list_elem_of_fmap. apply elem_of_seq in Hj. lia. }
  rewrite Hsplit, (replay_parent r _ t q _ 0); [by rewrite Hc| |done].
  apply Forall_forall. intros s (j & -> & Hj)%list_elem_of_fmap q' Ha'. apply elem_of_seq in Hj.
  destruct (parent_unique r t q (last - j) q' Hr) as [E _]; [by split|split; [lia|done]|lia].
Qed.

(** *** Indices *)

Lemma children_ops_at r cs k q : forall i, cs !! k = Some q ->
  children_ops r i cs !! (2 * k)%nat = Some (OpRecv q (tmpb r) bytes)
  /\ children_ops r i cs !! (2 * k + 1)%nat = Some (OpReduce (tmpb r) (current r (i + k)) (datab r) count).
Proof.
  revert k. induction cs as [|c cs IH]; intros k i Hk; [done|]. destruct k as [|k].
  - injection Hk as ->. rewrite Nat.add_0_r. done.
  - destruct (IH k (S i) Hk) as [H1 H2]. replace (2 * S k)%nat with (S (S (2 * k))) by lia.
    replace (i + S k)%nat with (S i + k)%nat by lia. by split.
Qed.
Lemma length_children_ops r cs : forall i, length (children_ops r i cs) = (2 * length cs)%nat.
Proof. induction cs as [|c cs IH]; intros i; [done|]. cbn [children_ops child_ops app length]. rewrite IH. lia. Qed.
Lemma children_ops_inv r cs j op : forall i, children_ops r i cs !! j = Some op ->
  exists k q, cs !! k = Some q /\ ((j = 2 * k /\ op = OpRecv q (tmpb r) bytes)%nat
    \/ (j = 2 * k + 1 /\ op = OpReduce (tmpb r) (current r (i + k)) (datab r) count)%nat).
Proof.
  revert j. induction cs as [|c cs IH]; intros j i Hj; [done|]. destruct j as [|[|j]]; cbn in Hj.
  - injection Hj as <-. exists 0%nat, c. split; [done|by left].
  - injection Hj as <-. exists 0%nat, c. split; [done|right]. by rewrite Nat.add_0_r.
  - destruct (IH j (S i) Hj) as (k & q & Hk & Hc). exists (S k), q. split; [done|].
    replace (i + S k)%nat with (S i + k)%nat by lia.
    destruct Hc as [[-> ->]|[-> ->]]; [left|right]; (split; [lia|done]).
Qed.
#[local] Abbreviation degree r := (length (children r)).

Lemma reduce_ops_at r k q : 0 <= r < nranks -> children r !! k = Some q ->
  reduce_ops r !! (2 * k)%nat = Some (OpRecv q (tmpb r) bytes)
  /\ reduce_ops r !! (2 * k + 1)%nat = Some (OpReduce (tmpb r) (current r k) (datab r) count).
Proof.
  intros Hr Hk. destruct (children_ops_at r _ k q 0 Hk) as [H1 H2]. cbn [Nat.add] in H2.
  destruct (decide (r = root)) as [->|Hne]; [by rewrite ops_root|].
  destruct (has_parent r Hr Hne) as (t & p & Hp). rewrite (ops_other r t p Hr Hp).
  by rewrite !(lookup_app_l_Some _ _ _ _ H1), !(lookup_app_l_Some _ _ _ _ H2).
Qed.
Lemma reduce_ops_send r t p : 0 <= r < nranks -> parent_round r t p ->
  reduce_ops r !! (2 * degree r)%nat = Some (OpSend p (current r (degree r)) bytes).
Proof.
  intros Hr Hp. rewrite (ops_other r t p Hr Hp), lookup_app_r; rewrite length_children_ops; [|done]. by rewrite Nat.sub_diag.
Qed.
Lemma reduce_ops_inv r j op : 0 <= r < nranks -> reduce_ops r !! j = Some op ->
  (exists k q, children r !! k = Some q /\ ((j = 2 * k /\ op = OpRecv q (tmpb r) bytes)%nat
    \/ (j = 2 * k + 1 /\ op = OpReduce (tmpb r) (current r k) (datab r) count)%nat))
  \/ (exists t p, parent_round r t p /\ j = (2 * degree r)%nat /\ op = OpSend p (current r (degree r)) bytes).
Proof.
  intros Hr Hj. destruct (decide (r = root)) as [->|Hne].
  - rewrite ops_root in Hj. left. by apply children_ops_inv in Hj.
  - destruct (has_parent r Hr Hne) as (t & p & Hp). rewrite (ops_other r t p Hr Hp) in Hj.
    apply lookup_app_Some in Hj as [Hj|[Hj1 Hj2]]; [left; by apply children_ops_inv in Hj|right].
    rewrite length_children_ops in Hj1, Hj2. apply list_lookup_singleton_Some in Hj2 as [Hj2 <-].
    exists t, p. split; [done|]. split; [lia|done].
Qed.
Lemma length_reduce_ops r : 0 <= r < nranks ->
  length (reduce_ops r) = (2 * degree r + if decide (r = root) then 0 else 1)%nat.
Proof.
  intros Hr. destruct (decide (r = root)) as [->|Hne]; [rewrite ops_root, length_children_ops; lia|].
  destruct (has_parent r Hr Hne) as (t & p & Hp). by rewrite (ops_other r t p Hr Hp), length_app, length_children_ops.
Qed.

(** ** Every receive has its send *)

Definition receives (r : Z) (t : nat) : bool := match tact r t with Some (false, _) => true | _ => false end.
Definition parent_time (r : Z) : nat := default 0%nat (head (filter (fun t => receives r t = true) (seq 0 (S last)))).
Lemma parent_time_eq r t q : 0 <= r < nranks -> parent_round r t q -> parent_time r = t.
Proof.
  intros Hr [Ht Ha]. unfold parent_time.
  assert (Hin : t ∈ filter (fun t => receives r t = true) (seq 0 (S last))).
  { apply list_elem_of_filter. split; [unfold receives; by rewrite Ha|apply elem_of_seq; lia]. }
  destruct (filter _ _) as [|t' l] eqn:E; [by apply elem_of_nil in Hin|]. cbn [head default from_option id].
  assert (Hin' : t' ∈ filter (fun t => receives r t = true) (seq 0 (S last))) by (rewrite E; left).
  apply list_elem_of_filter in Hin' as [Hrec Hs]. apply elem_of_seq in Hs. unfold receives in Hrec.
  destruct (tact r t') as [[[] q']|] eqn:E'; try done.
  by destruct (parent_unique r t' q' t q Hr) as [-> _]; [split; [lia|done]|by split|].
Qed.

(** Replayed rounds, a receive or send before the reduction. *)
Definition reduce_level (r : Z) (x : graph_node_t) : nat :=
  match x with
  | GRAPH_START => 0
  | GRAPH_END => 2 * last + 4
  | Node i => match rounds r !! (i / 2)%nat with
              | Some t => 2 * (last - t) + 1 + i mod 2
              | None => 2 * (last - parent_time r) + 1
              end
  end%nat.

Lemma children_at r k : children r !! k = rounds r !! k ≫= child_in r.
Proof. apply children_lookup. Qed.
Lemma children_round r k q : children r !! k = Some q ->
  exists t, rounds r !! k = Some t /\ (t <= last)%nat /\ child_in r t = Some q.
Proof.
  rewrite children_at. intros H. destruct (rounds r !! k) as [t|] eqn:E; [|done].
  exists t. split; [done|]. split; [|done]. by apply child_rounds_lookup in E as (_ & ? & _); [|lia].
Qed.
Lemma round_children r t q : (t <= last)%nat -> child_in r t = Some q ->
  exists k, rounds r !! k = Some t /\ children r !! k = Some q.
Proof.
  intros Ht Hc. destruct (child_rounds_complete nranks root r t Ht) as [k Hk]; [by exists q|]. exists k. split; [done|].
  by rewrite children_at, Hk.
Qed.
Lemma length_child_rounds r : length (rounds r) = degree r.
Proof.
  apply Nat.le_antisymm; apply Nat.le_ngt; intros Hlt.
  - destruct (lookup_lt_is_Some_2 (rounds r) (degree r) Hlt) as [t Hk].
    assert (E : children r !! degree r = child_in r t) by (by rewrite children_at, Hk).
    apply child_rounds_lookup in Hk as (_ & _ & [q Hq]); [|lia]. rewrite Hq in E. apply lookup_lt_Some in E. lia.
  - destruct (lookup_lt_is_Some_2 (children r) (length (rounds r)) Hlt) as [q Hk].
    apply children_round in Hk as (t & Hk & _). apply lookup_lt_Some in Hk. lia.
Qed.
Lemma child_in_send r t q : child_in r t = Some q -> tact r t = Some (true, q).
Proof.
  change (child_in r t) with (match tact r t with Some (true, q) => Some q | _ => None end).
  destruct (tact r t) as [[[] q']|]; congruence.
Qed.

Lemma level_recv r k t : rounds r !! k = Some t -> reduce_level r (Node (2 * k)) = (2 * (last - t) + 1)%nat.
Proof.
  intros Hk. unfold reduce_level. rewrite (Nat.mul_comm 2 k), Nat.div_mul, Hk, Nat.Div0.mod_mul by done. lia.
Qed.
Lemma level_reduce r k t : rounds r !! k = Some t -> reduce_level r (Node (2 * k + 1)) = (2 * (last - t) + 2)%nat.
Proof.
  intros Hk. unfold reduce_level. rewrite (Nat.add_comm _ 1), (Nat.mul_comm 2 k), Nat.div_add, Nat.Div0.mod_add by done.
  cbn [Nat.add Nat.div Nat.divmod fst]. change (1 mod 2)%nat with 1%nat. rewrite Hk. lia.
Qed.
Lemma level_send r t q : 0 <= r < nranks -> parent_round r t q -> reduce_level r (Node (2 * degree r)) = (2 * (last - t) + 1)%nat.
Proof.
  intros Hr Hp. unfold reduce_level. rewrite (Nat.mul_comm 2), Nat.div_mul by done.
  rewrite (lookup_ge_None_2 (rounds r)) by (by rewrite length_child_rounds). by rewrite (parent_time_eq r t q).
Qed.

Section World.
Variables (graphs : Z -> coll_graph) (comps : Z -> Z).
Hypothesis Hg : forall r, 0 <= r < nranks ->
  gshape (graphs r) (comps r) (Some <$> reduce_ops r) (chain_all (length (Some <$> reduce_ops r))).

Lemma reduce_wf r : 0 <= r < nranks -> well_formed (graphs r).
Proof. intros Hr. eapply chain_wf. by apply Hg. Qed.
Lemma reduce_op_of r i : 0 <= r < nranks -> op_of graphs r (Node i) = reduce_ops r !! i.
Proof.
  intros Hr. rewrite (shape_op_of _ _ _ _ _ _ (Hg r Hr)), list_lookup_fmap. by destruct (reduce_ops r !! i).
Qed.
Lemma reduce_op_inv r x op : 0 <= r < nranks -> op_of graphs r x = Some op ->
  (exists k q t, rounds r !! k = Some t /\ children r !! k = Some q /\ (t <= last)%nat /\ tact r t = Some (true, q)
     /\ ((x = Node (2 * k) /\ op = OpRecv q (tmpb r) bytes)
        \/ (x = Node (2 * k + 1) /\ op = OpReduce (tmpb r) (current r k) (datab r) count)))
  \/ (exists t p, parent_round r t p /\ x = Node (2 * degree r) /\ op = OpSend p (current r (degree r)) bytes).
Proof.
  intros Hr Hop. destruct x as [| |i]; [done..|]. rewrite reduce_op_of in Hop by done.
  apply reduce_ops_inv in Hop as [(k & q & Hk & Hc)|(t & p & Hp & -> & ->)]; [left|right; by eauto|done].
  destruct (children_round r k q Hk) as (t & Ht & Hle & Hci). exists k, q, t. apply child_in_send in Hci.
  split_and!; [done..|]. destruct Hc as [[-> ->]|[-> ->]]; [by left|by right].
Qed.

Lemma reduce_levels r x y : 0 <= r < nranks -> (x, y) ∈ all_edges (graphs r) -> (reduce_level r x < reduce_level r y)%nat.
Proof.
  intros Hr. rewrite (shape_edges _ _ _ _ _ _ (Hg r Hr)), length_fmap.
  assert (Hbound : forall i, (i <= length (reduce_ops r))%nat -> (reduce_level r (prev i) < 2 * last + 4)%nat).
  { intros [|i] Hi; cbn [prev reduce_level]; [lia|]. pose proof (Nat.mod_upper_bound i 2 ltac:(lia)).
    destruct (rounds r !! (i / 2)%nat); lia. }
  assert (Hprev : forall k t t', (k < degree r)%nat -> rounds r !! k = Some t -> (t' < t)%nat ->
    (reduce_level r (Node (2 * k + 1)) < 2 * (last - t') + 1)%nat).
  { intros k t t' Hk Ht Hlt. rewrite (level_reduce r k t Ht). apply child_rounds_lookup in Ht as (_ & ? & _); lia. }
  intros [[= -> ->]|(i & Hi & [= -> ->])]%elem_of_chain_all; [by apply Hbound|].
  apply lookup_lt_is_Some_2 in Hi as [op Hop]. pose proof (reduce_ops_inv r i op Hr Hop) as [(k & q & Hk & Hc)|(t & p & Hp & -> & _)].
  - destruct (children_round r k q Hk) as (t & Ht & Hle & Hci). destruct Hc as [[-> _]|[-> _]].
    + rewrite (level_recv r k t Ht). destruct k as [|k]; [cbn; lia|].
      replace (prev (2 * S k)) with (Node (2 * k + 1)) by (replace (2 * S k)%nat with (S (2 * k + 1)) by lia; done).
      apply lookup_lt_Some in Hk. destruct (lookup_lt_is_Some_2 (rounds r) k) as [t' Ht']; [rewrite length_child_rounds; lia|].
      apply (Hprev k t'); [lia|done|]. apply (child_rounds_sorted nranks root r (S last) k (S k)); (done || lia).
    + rewrite (level_reduce r k t Ht). replace (2 * k + 1)%nat with (S (2 * k)) by lia. cbn [prev].
      rewrite (level_recv r k t Ht). lia.
  - rewrite (level_send r t p Hr Hp). destruct (degree r) as [|k] eqn:E; [cbn; lia|].
    replace (prev (2 * S k)) with (Node (2 * k + 1)) by (replace (2 * S k)%nat with (S (2 * k + 1)) by lia; done).
    destruct (lookup_lt_is_Some_2 (rounds r) k) as [t' Ht']; [rewrite length_child_rounds; lia|].
    apply (Hprev k t'); [lia|done|]. apply Nat.lt_nge. intros Hle. apply child_rounds_lookup in Ht' as (_ & _ & [q Hq]); [|lia].
    by rewrite (no_child_before nranks root Hn Hroot r t p t' Hr (proj2 Hp) Hle) in Hq.
Qed.

Lemma reduce_matched : matched nranks graphs reduce_level.
Proof.
  split.
  - exact reduce_wf.
  - exact reduce_levels.
  - intros r x d b n Hr [(k & q & t & _ & _ & _ & _ & [[_ [=]]|[_ [=]]])|(t & p & Hp & -> & [= -> -> ->])]%reduce_op_inv; [|done].
    destruct Hp as [Ht Ha]. destruct (tree_recv_peer nranks root Hn Hroot r t p Hr Ha) as (Hd & Ha' & _). split; [done|].
    destruct (round_children p t r Ht) as (k & Hk & Hc); [unfold ReduceTree.child_in; by rewrite Ha'|].
    exists (Node (2 * k)), (tmpb p). rewrite reduce_op_of by done. split; [by apply reduce_ops_at|].
    by rewrite (level_recv p k t Hk), (level_send r t p Hr).
  - intros r y q b n Hr [(k & q' & t & Hk & Hc & Ht & Ha & [[-> [= -> -> ->]]|[_ [=]]])|(t & p & Hp & -> & [=])]%reduce_op_inv; [|done].
    destruct (tree_send_peer nranks root Hn Hroot r t q' Hr Ha) as (Hd & Ha' & _). split; [done|].
    exists (Node (2 * degree q')), (current q' (degree q')). rewrite reduce_op_of by done.
    split; [by apply (reduce_ops_send q' t)|]. by rewrite (level_recv r k t Hk), (level_send q' t r).
  - intros r x x' d b b' n n' Hr [(k & q & t & _ & _ & _ & _ & [[_ [=]]|[_ [=]]])|(t & p & _ & -> & _)]%reduce_op_inv
      [(k' & q' & t' & _ & _ & _ & _ & [[_ [=]]|[_ [=]]])|(t' & p' & _ & -> & _)]%reduce_op_inv; done.
  - intros r x x' d b b' n n' Hr [(k & q & t & Hk & Hc & Ht & Ha & [[-> [= <- _ _]]|[_ [=]]])|(t & p & Hp & -> & [=])]%reduce_op_inv
      [(k' & q' & t' & Hk' & Hc' & Ht' & Ha' & [[-> [= <- _ _]]|[_ [=]]])|(t' & p' & Hp' & -> & [=])]%reduce_op_inv; [|done..].
    destruct (tree_send_peer nranks root Hn Hroot r t d Hr Ha) as (Hd & F & _).
    destruct (tree_send_peer nranks root Hn Hroot r t' d Hr Ha') as (_ & F' & _).
    destruct (parent_unique d t r t' r Hd) as [-> _]; [by split..|]. do 2 f_equal.
    pose proof (fun i j Hi Hj => child_rounds_sorted nranks root r (S last) i j t' t' ltac:(lia) Hi Hj) as Hs.
    destruct (lt_eq_lt_dec k k') as [[Hlt|?]|Hlt]; [pose proof (Hs _ _ Hk Hk' Hlt); lia|done|pose proof (Hs _ _ Hk' Hk Hlt); lia].
Qed.

(** ** The data *)

Variable f : list Z -> list Z -> list Z.
Hypothesis Hf : keeps_length f bytes.
(** The user's function, in the calls that the code makes. *)
Variable op : Z -> Z -> Z -> Z -> memory -> memory.
Hypothesis Hop : forall r k m, 0 <= r < nranks -> (k < degree r)%nat ->
  op (tmpb r) (current r k) (datab r) count m = byte_op item_size f (tmpb r) (current r k) (datab r) count m.
Variable mem0 : Z -> memory.
#[local] Abbreviation wstep := (wstep nranks graphs op).
Hypothesis apart_tmp_send : forall r, 0 <= r < nranks -> (0 < degree r)%nat -> disjoint (tmpb r) bytes (sendbuf r) bytes.
Hypothesis apart_tmp_data : forall r, 0 <= r < nranks -> (1 < degree r)%nat -> disjoint (tmpb r) bytes (datab r) bytes.

Definition own (q : Z) : list Z := load_bytes (mem0 q) (sendbuf q) bytes.
#[local] Abbreviation final := (final nranks root f own).
#[local] Abbreviation with_children := (with_children nranks root f own).

Lemma length_final r : Z.of_nat (length (final r)) = bytes.
Proof.
  unfold ReduceTree.final. generalize (S last). intros k. revert r. induction k as [|k IH]; intros r; cbn [replayed].
  - unfold own. rewrite length_load_bytes. lia.
  - destruct (child_in r (last - k)); [by apply Hf|done].
Qed.
Lemma length_with r cs : Z.of_nat (length (with_children r cs)) = bytes.
Proof.
  unfold ReduceTree.with_children. assert (H : Z.of_nat (length (own r)) = bytes) by (unfold own; rewrite length_load_bytes; lia).
  revert H. generalize (own r). induction cs as [|c cs IH]; intros a Ha; [done|]. cbn [foldl]. apply IH, Hf; [apply length_final|done].
Qed.

Record rinv (w : world) : Prop := mk_rinv {
  ri_msgs : forall m d, m ∈ w_msgs w -> ms_data m = Some d -> d = final (ms_from m);
  ri_got : forall v m k, (v, m) ∈ w_got w -> rv_node v = Node (2 * k) -> ~ ran_at w (rv_rank v) (Node (2 * k + 1)) ->
    load_bytes (w_mem w (rv_rank v)) (tmpb (rv_rank v)) bytes = final (rv_from v);
  ri_cur : forall r, 0 <= r < nranks -> exists i, (i <= degree r)%nat
    /\ load_bytes (w_mem w r) (current r i) bytes = with_children r (take i (children r))
    /\ forall j, (j < degree r)%nat -> ran_at w r (Node (2 * j + 1)) <-> (j < i)%nat
}.

Lemma node_lt r i o : 0 <= r < nranks -> op_of graphs r (Node i) = Some o -> (i < length (Some <$> reduce_ops r))%nat.
Proof. intros Hr. rewrite reduce_op_of, length_fmap by done. by intros ?%lookup_lt_Some. Qed.
Lemma node_before w r i j : winv nranks graphs w -> 0 <= r < nranks -> ran_at w r (Node i) -> is_Some (op_of graphs r (Node i)) ->
  (j < i)%nat -> marked_at w r (Node j) /\ ran_at w r (Node j).
Proof.
  intros W Hr Hran [o Ho] Hlt. apply node_lt in Ho; [|done].
  assert (Hm : marked_at w r (Node j)) by (by eapply (chain_before nranks graphs w r _ _ reduce_wf W (Hg r Hr) i)).
  split; [done|]. apply (marked_ran nranks graphs reduce_wf w W); [done|]. eapply chain_valid; [by apply Hg|lia].
Qed.
Lemma is_reduce r k : 0 <= r < nranks -> (k < degree r)%nat ->
  op_of graphs r (Node (2 * k + 1)) = Some (OpReduce (tmpb r) (current r k) (datab r) count).
Proof.
  intros Hr Hk. destruct (lookup_lt_is_Some_2 _ _ Hk) as [q Hq]. rewrite reduce_op_of by done. by eapply reduce_ops_at.
Qed.
Lemma is_receive r k : 0 <= r < nranks -> (k < degree r)%nat ->
  exists q, children r !! k = Some q /\ op_of graphs r (Node (2 * k)) = Some (OpRecv q (tmpb r) bytes).
Proof.
  intros Hr Hk. destruct (lookup_lt_is_Some_2 _ _ Hk) as [q Hq]. exists q. split; [done|].
  rewrite reduce_op_of by done. by eapply reduce_ops_at.
Qed.

Lemma rinv_same w w' :
  w_mem w' = w_mem w -> w_got w' = w_got w ->
  (forall m d, m ∈ w_msgs w' -> ms_data m = Some d -> d = final (ms_from m)) ->
  (forall r j, 0 <= r < nranks -> (j < degree r)%nat -> ran_at w' r (Node (2 * j + 1)) <-> ran_at w r (Node (2 * j + 1))) ->
  winv nranks graphs w -> rinv w -> rinv w'.
Proof.
  intros E1 E2 Hm Hran W X. split; rewrite ?E1, ?E2; [exact Hm| |].
  - intros v m k Hv Ek Hn'. apply (ri_got _ X v m k Hv Ek). intros Hk. apply Hn'. apply Hran; [|  |done].
    + by eapply ran_range.
    + pose proof (ran_range _ _ _ W _ _ Hk) as Hr. pose proof (got_recv _ _ _ W v m Hv) as Hs. unfold a_recv in Hs. rewrite Ek in Hs.
      apply reduce_op_inv in Hs as [(k' & q & t & _ & Hc & _ & _ & [[[= E] _]|[_ [=]]])|(? & ? & _ & _ & [=])]; [|done].
      apply lookup_lt_Some in Hc. lia.
  - intros r Hr. destruct (ri_cur _ X r Hr) as (i & Hi & Hl & Hj). exists i. split; [done|]. split; [done|].
    intros j Hlt. rewrite Hran by done. by apply Hj.
Qed.

(** A receive that is complete and not reduced. *)
Lemma tmp_filled w r k q : winv nranks graphs w -> rinv w -> 0 <= r < nranks -> children r !! k = Some q ->
  marked_at w r (Node (2 * k)) -> ~ ran_at w r (Node (2 * k + 1)) ->
  load_bytes (w_mem w r) (tmpb r) bytes = final q.
Proof.
  intros W X Hr Hq (c & Hc & Hm) Hnr.
  destruct (is_receive r k Hr) as (q' & Hq' & Hope); [by eapply lookup_lt_Some|]. rewrite Hq in Hq'. injection Hq' as <-.
  destruct (wi_over_recv _ _ _ W r (Node (2 * k))) as (v & ((v', m) & -> & Hv)%list_elem_of_fmap & E1 & E2);
    [right; exists c; split; [done|by left]|by repeat eexists|]. cbn [fst] in *.
  pose proof (got_recv _ _ _ W v' m Hv) as Hs. unfold a_recv in Hs. rewrite E1, E2, Hope in Hs. injection Hs as -> _ _.
  rewrite <- E1. apply (ri_got _ X v' m k Hv E2). by rewrite E1.
Qed.

Lemma rinv_reduce w w' r k :
  winv nranks graphs w -> winv nranks graphs w' -> rinv w -> 0 <= r < nranks -> (k < degree r)%nat ->
  w_mem w' = <[r := op (tmpb r) (current r k) (datab r) count (w_mem w r)]> (w_mem w) ->
  w_msgs w' = w_msgs w -> w_got w' = w_got w ->
  (forall r' x, ran_at w' r' x <-> ran_at w r' x \/ (r' = r /\ x = Node (2 * k + 1))) ->
  (forall x, marked_at w' r x -> marked_at w r x) -> ~ ran_at w r (Node (2 * k + 1)) -> rinv w'.
Proof.
  intros W W' X Hr Hk Emem Emsg Egot Hran Hmark Hfresh.
  assert (Hope : is_Some (op_of graphs r (Node (2 * k + 1)))) by (rewrite is_reduce by done; by eexists).
  assert (Hb : forall j, (j < 2 * k + 1)%nat -> marked_at w r (Node j) /\ ran_at w r (Node j)).
  { intros j Hj. destruct (node_before w' r (2 * k + 1) j W' Hr) as [Hm Hrn]; [apply Hran; by right|done|done|].
    split; [by apply Hmark|]. apply Hran in Hrn as [?|[_ [= E]]]; [done|lia]. }
  destruct (lookup_lt_is_Some_2 _ _ Hk) as [q Hq].
  pose proof (tmp_filled w r k q W X Hr Hq (proj1 (Hb (2 * k)%nat ltac:(lia))) Hfresh) as Htmp.
  destruct (ri_cur _ X r Hr) as (i & Hi & Hl & Hjs).
  assert (i = k) as ->.
  { assert (~ (k < i)%nat) by (by rewrite <- Hjs). destruct k as [|k']; [lia|].
    assert (k' < i)%nat; [|lia]. apply Hjs; [lia|]. apply Hb. lia. }
  assert (Enew : op (tmpb r) (current r k) (datab r) count (w_mem w r)
    = store_bytes (datab r) (f (final q) (with_children r (take k (children r)))) (w_mem w r)).
  { rewrite Hop by done. unfold byte_op. by rewrite Htmp, Hl. }
  assert (Elen : Z.of_nat (length (f (final q) (with_children r (take k (children r))))) = bytes)
    by (apply Hf; [apply length_final|apply length_with]).
  rewrite Enew in Emem. split; rewrite ?Emem, ?Emsg, ?Egot.
  - apply X.
  - intros v m j Hv Ej Hnr. destruct (decide (rv_rank v = r)) as [Er|Hne].
    + exfalso. rewrite Er in Hnr. pose proof (got_recv _ _ _ W v m Hv) as Hs. unfold a_recv in Hs. rewrite Er, Ej in Hs.
      pose proof Hs as Hope'. apply reduce_op_inv in Hope' as [(k' & q' & t & _ & Hc & _ & _ & [[[= E] _]|[_ [=]]])|(? & ? & _ & _ & [=])]; [|done].
      assert (j = k') as -> by lia. apply lookup_lt_Some in Hc. destruct (lt_eq_lt_dec k' k) as [[Hlt| ->]|Hlt].
      * apply Hnr, Hran. left. by apply Hjs.
      * apply Hnr, Hran. by right.
      * apply Hfresh. apply (node_before w r (2 * k') (2 * k + 1) W Hr); [|by eexists|lia].
        destruct (wi_recvs _ _ _ W v) as [_ Hrv]; [apply elem_of_app; right; by apply (list_elem_of_fmap_2 fst) in Hv|].
        by rewrite Er, Ej in Hrv.
    + rewrite fn_lookup_insert_ne by done. apply (ri_got _ X v m j); [done..|]. intros Hk'. apply Hnr, Hran. by left.
  - intros r' Hr'. destruct (decide (r' = r)) as [->|Hne].
    + exists (S k). split; [lia|]. rewrite fn_lookup_insert. split.
      * unfold current. cbn [Nat.eqb]. rewrite <- Elen at 1. rewrite load_store_bytes, (take_S_r _ _ q Hq).
        unfold ReduceTree.with_children. by rewrite foldl_app.
      * intros j Hj. rewrite Hran, Hjs by done. split.
        -- intros [?|[_ [= E]]]; lia.
        -- intros Hlt. destruct (decide (j = k)) as [->|]; [by right|left; lia].
    + rewrite fn_lookup_insert_ne by done. destruct (ri_cur _ X r' Hr') as (i' & Hi' & Hl' & Hjs'). exists i'.
      split; [done|]. split; [done|]. intros j Hj. rewrite Hran, Hjs' by done. naive_solver.
Qed.

Lemma rinv_act w r l1 a l2 posted s log new p s' :
  winv nranks graphs w -> rinv w -> w_conf w r = Some (mk_gconfig (l1 ++ a :: l2) posted s log) ->
  coll_act a s = Ok ((new, p), s') ->
  rinv (set_conf r (mk_gconfig (l1 ++ new ++ l2) (p ++ posted) s' (logs a ++ log)) (effects graphs op r a w)).
Proof.
  intros W X Hc Ha. pose proof (conf_range _ _ _ W _ _ Hc) as Hr. set (w' := set_conf _ _ _).
  assert (W' : winv nranks graphs w') by (eapply winv_act; [exact reduce_wf|done..]).
  assert (Hran : forall r' x, ran_at w' r' x <-> ran_at w r' x \/ (r' = r /\ a = ARun x)).
  { intros r' x. eapply act_ran_at; [exact reduce_wf|exact Hc|exact Ha]. }
  assert (Hother : (forall k, (k < degree r)%nat -> a <> ARun (Node (2 * k + 1))) ->
    w_mem (effects graphs op r a w) = w_mem w -> rinv w').
  { intros Hne Hmem. eapply rinv_same; [exact Hmem|apply act_got| |intros r' j _ Hj; rewrite Hran; naive_solver|exact W|exact X].
    intros m d. unfold w'. rewrite act_msgs. intros [Hm|Hm]%elem_of_app; [by apply X|].
    apply new_msgs_in in Hm as (_ & _ & _ & ->). done. }
  destruct a as [x| |]; [|by apply Hother..]. cbn [effects] in *.
  destruct (op_of graphs r x) as [o|] eqn:Eop.
  2:{ apply Hother; [|unfold effect; by rewrite Eop]. intros j Hj Ex. assert (x = Node (2 * j + 1)) as -> by congruence. by rewrite is_reduce in Eop. }
  pose proof Eop as Hope. apply reduce_op_inv in Hope as [(k & q & t & _ & Hq & _ & _ & [[-> ->]|[-> ->]])|(t & q & _ & -> & ->)]; [| | |done].
  - apply Hother; [|unfold effect; by rewrite Eop]. intros j Hj [= E]. lia.
  - apply (rinv_reduce w w' r k); try done; [by eapply lookup_lt_Some|unfold w', effect; by rewrite Eop..| | |].
    + intros r' x. rewrite Hran. naive_solver.
    + intros x (c & Hc' & Hm). exists (mk_gconfig (l1 ++ ARun (Node (2 * k + 1)) :: l2) posted s log). split; [done|].
      unfold w' in Hc'. cbn in Hc'. rewrite fn_lookup_insert in Hc'. injection Hc' as <-. cbn in Hm |- *. set_solver.
    + by eapply act_fresh; [exact op|exact reduce_wf|exact W|exact Hc|exact Ha|].
  - apply Hother; [|unfold effect; by rewrite Eop]. intros j Hj [= E]. lia.
Qed.

Lemma rinv_deliver conf mem m1 m m2 r1 v r2 ready got d :
  ms_data m = Some d -> rv_rank v = ms_to m -> rv_from v = ms_from m ->
  winv nranks graphs (mk_world conf mem (m1 ++ m :: m2) (r1 ++ v :: r2) ready got) ->
  rinv (mk_world conf mem (m1 ++ m :: m2) (r1 ++ v :: r2) ready got) ->
  rinv (mk_world conf (<[rv_rank v := store_bytes (rv_buffer v) d (mem (rv_rank v))]> mem)
          (m1 ++ m2) (r1 ++ r2) ((rv_rank v, rv_node v) :: ready) ((v, m) :: got)).
Proof.
  intros Hd H1 H2 W X. set (w := mk_world _ _ _ _ _ _) in W, X. pose proof (ri_msgs _ X m d ltac:(cbn; set_solver) Hd) as Ed. rewrite <- H2 in Ed.
  destruct (wi_recvs _ _ _ W v ltac:(cbn; set_solver)) as [Hs Hran]. pose proof (ran_range _ _ _ W _ _ Hran) as Hr.
  assert (Hld : Z.of_nat (length d) = bytes) by (rewrite Ed; apply length_final).
  pose proof Hs as Hope. apply reduce_op_inv in Hope as [(k & q & t & _ & Hq & _ & _ & [[Ex [= _ Eb _]]|[_ [=]]])|(? & ? & _ & _ & [=])]; [|done].
  pose proof (lookup_lt_Some _ _ _ Hq) as Hk.
  assert (Hbefore : forall j, (j < 2 * k)%nat -> ran_at w (rv_rank v) (Node j)).
  { intros j Hj. apply (node_before w _ (2 * k) j W Hr); [by rewrite <- Ex|rewrite <- Ex; by eexists|done]. }
  assert (Hlate : forall j, (2 * k < j)%nat -> is_Some (op_of graphs (rv_rank v) (Node j)) -> ~ ran_at w (rv_rank v) (Node j)).
  { intros j Hj Ho Hrn. destruct (node_before w _ j (2 * k) W Hr Hrn Ho Hj) as [(c & Hc & Hm) _].
    destruct (wi_over_recv _ _ _ W (rv_rank v) (Node (2 * k))) as (v' & ((v'', m') & -> & Hv)%list_elem_of_fmap & E1 & E2);
      [right; exists c; split; [done|by left]|rewrite <- Ex; by repeat eexists|].
    apply (got_not_posted _ _ _ W v v'' m'); [cbn; set_solver|done|done|]. by rewrite Ex. }
  split; cbn [w_msgs w_got w_mem].
  - intros m' d' Hm'. apply (ri_msgs _ X). cbn. set_solver.
  - intros v' m' j [[= -> ->]|Hv']%elem_of_cons Ej Hnr.
    { rewrite fn_lookup_insert, Eb, <- Hld, load_store_bytes. exact Ed. }
    destruct (decide (rv_rank v' = rv_rank v)) as [Er|]; [exfalso|rewrite fn_lookup_insert_ne by done; by apply (ri_got _ X v' m' j)].
    destruct (wi_recvs _ _ _ W v') as [Hs' Hran']; [apply elem_of_app; right; by apply (list_elem_of_fmap_2 fst) in Hv'|].
    unfold a_recv in Hs'. rewrite Er, Ej in Hs', Hran'. rewrite Er in Hnr. destruct (lt_eq_lt_dec j k) as [[Hlt| ->]|Hlt].
    + apply Hnr. apply (Hbefore (2 * j + 1)%nat). lia.
    + apply (got_not_posted _ _ _ W v v' m'); [cbn; set_solver|done|done|congruence].
    + by apply (Hlate (2 * j)%nat); [lia|eexists|].
  - intros r Hr'. destruct (ri_cur _ X r Hr') as (i & Hi & Hl & Hjs). exists i. split; [done|]. split; [|done].
    destruct (decide (r = rv_rank v)) as [->|]; [rewrite fn_lookup_insert|by rewrite fn_lookup_insert_ne by done].
    assert (i = k) as ->.
    { assert (~ (k < i)%nat).
      { intros Hlt. apply (Hlate (2 * k + 1)%nat); [lia|rewrite is_reduce by done; by eexists|by apply Hjs]. }
      destruct k as [|k']; [lia|]. assert (k' < i)%nat; [|lia]. apply Hjs; [lia|]. apply Hbefore. lia. }
    rewrite load_bytes_store_disjoint; [exact Hl|]. rewrite Hld, Eb. unfold current. destruct k as [|k']; cbn [Nat.eqb].
    + apply apart_tmp_send; [done|lia].
    + apply apart_tmp_data; [done|lia].
Qed.

(** Everything is reduced when the last operations run. *)
Lemma all_reduced w r : winv nranks graphs w -> rinv w -> 0 <= r < nranks ->
  (forall j, (j < degree r)%nat -> ran_at w r (Node (2 * j + 1))) ->
  load_bytes (w_mem w r) (current r (degree r)) bytes = final r.
Proof.
  intros W X Hr Hj. destruct (ri_cur _ X r Hr) as (i & Hi & Hl & Hjs).
  assert (i = degree r) as ->.
  { destruct (decide (i = degree r)) as [|Hne]; [done|]. assert (i < i)%nat; [|lia]. apply Hjs; [lia|]. apply Hj. lia. }
  rewrite Hl, take_ge by done. symmetry. by apply final_children.
Qed.

Lemma rinv_step w w' : winv nranks graphs w -> rinv w -> wstep w w' -> rinv w'.
Proof.
  intros W X St. destruct St as
    [w r Hr Hc|w r l1 a l2 posted s log new p s' Hc Ha|conf mem m1 m m2 recvs ready got Hd
    |conf mem m1 m m2 r1 v r2 ready got d Hd H1 H2|conf mem msgs recvs q1 r x q2 got acts p1 p2 s log status Hc].
  - apply (rinv_same w); [done|done|apply X| |exact W|exact X]. intros r' j _ _. unfold ran_at. cbn.
    destruct (decide (r' = r)) as [->|]; [rewrite fn_lookup_insert, Hc|by rewrite fn_lookup_insert_ne].
    split; [intros (? & [= <-] & H%elem_of_nil); done|naive_solver].
  - by eapply rinv_act.
  - eapply (rinv_same (mk_world conf mem (m1 ++ m :: m2) recvs ready got)); [done|done| |done|exact W|exact X]. cbn. intros m' d' Hm' Hd'.
    rewrite elem_of_app, elem_of_cons in Hm'. destruct Hm' as [?|[->|?]]; [by apply (ri_msgs _ X m'); cbn; set_solver| |by apply (ri_msgs _ X m'); cbn; set_solver].
    destruct (wi_msgs _ _ _ W m ltac:(cbn; set_solver)) as [Hs Hran]. pose proof (ran_range _ _ _ W _ _ Hran) as Hr.
    pose proof Hs as Hope. apply reduce_op_inv in Hope as [(? & ? & ? & _ & _ & _ & _ & [[_ [=]]|[_ [=]]])|(t & q & _ & Ex & [= _ Eb En])]; [|done].
    injection Hd' as <-. cbn. rewrite Eb, En. apply (all_reduced _ _ W X Hr). intros j Hj.
    apply (node_before _ _ (2 * degree (ms_from m)) _ W Hr); [by rewrite <- Ex|rewrite <- Ex; by eexists|lia].
  - by eapply rinv_deliver.
  - eapply (rinv_same (mk_world conf mem msgs recvs (q1 ++ (r, x) :: q2) got)); [done|done|apply X| |exact W|exact X]. intros r' j _ _. unfold ran_at. cbn.
    destruct (decide (r' = r)) as [->|]; [rewrite fn_lookup_insert, Hc|by rewrite fn_lookup_insert_ne].
    naive_solver.
Qed.

Lemma reduce_over w r c : rtc wstep (world_init mem0) w -> w_conf w r = Some c -> is_over c ->
  load_bytes (w_mem w r) (current r (degree r)) bytes = final r.
Proof.
  intros R Hc Ho.
  assert (winv nranks graphs w /\ rinv w) as [W X].
  { refine (rtc_ind_r (fun w => winv nranks graphs w /\ rinv w) _ _ _ _ R).
    - split; [by apply (winv_init nranks graphs op)|]. split; cbn [w_mem w_msgs w_got world_init].
      + by intros m d ?%elem_of_nil.
      + by intros v m k ?%elem_of_nil.
      + intros r' Hr'. exists 0%nat. split; [lia|]. split; [done|]. intros j Hj.
        split; [by intros (? & ? & _)|lia].
    - intros x y _ St [W X]. split; [by eapply winv_step; [exact reduce_wf|..]|by eapply rinv_step]. }
  pose proof (conf_range _ _ _ W _ _ Hc) as Hr. apply (all_reduced _ _ W X Hr). intros j Hj.
  apply (marked_ran nranks graphs reduce_wf w W); [|eapply op_of_valid; by apply is_reduce].
  eapply (chain_over nranks graphs w r _ _ reduce_wf W (Hg r Hr)); [done|done|]. eapply node_lt; [done|by apply is_reduce].
Qed.
End World.

(** ** The buffers *)

(** [a1 r] and [a2 r] are what [malloc] returns; the root may reduce in place. *)
Record reduce_memory (r : Z) : Prop := mk_reduce_memory {
  rm_send : disjoint (a1 r) bytes (sendbuf r) bytes;
  rm_send2 : disjoint (a2 r) bytes (sendbuf r) bytes;
  rm_both : disjoint (a1 r) bytes (a2 r) bytes;
  rm_recv : r = root -> disjoint (a1 r) bytes (recvbuf r) bytes;
  rm_root : r = root -> sendbuf r = recvbuf r \/ disjoint (recvbuf r) bytes (sendbuf r) bytes
}.
Lemma root_degree : (0 < degree root)%nat.
Proof.
  destruct (round_children root 0 (rank_at nranks root (0 + jmp nranks 0))) as (k & _ & Hk); [lia| |by apply lookup_lt_Some in Hk; lia].
  unfold ReduceTree.child_in. rewrite <- (root_at nranks root Hroot) at 2.
  rewrite (proj2 (tact_send nranks root Hn Hroot 0 0 (rank_at nranks root (0 + jmp nranks 0)) ltac:(lia))); [done|].
  destruct (tree_inv_init nranks root Hn Hroot 0 ltac:(lia)) as [H _ _ _ _]. split_and!; [lia| |done].
  cbn [Tree.tstate tree_init distance_right]. rewrite (root_at nranks root Hroot).
  replace (root - 1 - root + nranks) with (nranks - 1) by lia. rewrite Z.mod_small by lia.
  pose proof (jmp_lt nranks Hn 0). lia.
Qed.
Lemma buffers_eq r : (tmpb r, datab r) =
  if r =? root then if (degree r =? 1)%nat && negb (sendbuf r =? recvbuf r) then (recvbuf r, recvbuf r) else (a1 r, recvbuf r)
  else if (degree r =? 1)%nat then (a1 r, a1 r) else (a1 r, a2 r).
Proof.
  unfold tmpb, datab, buffers_of, reduce_buffers. destruct (r =? root); [destruct (_ && _)|destruct (_ =? _)%nat]; done.
Qed.
Lemma reduce_apart r : reduce_memory r ->
  disjoint (tmpb r) bytes (sendbuf r) bytes /\ ((1 < degree r)%nat -> disjoint (tmpb r) bytes (datab r) bytes).
Proof.
  intros [H1 _ H2 H3 H4]. pose proof (buffers_eq r) as E. destruct (Z.eqb_spec r root) as [->|Hne].
  - destruct (Nat.eqb_spec (degree root) 1) as [E1|]; destruct (Z.eqb_spec (sendbuf root) (recvbuf root)) as [E2|];
      cbn [andb negb] in E; injection E as -> ->; (split; [|intros; try lia]); try done; try by apply H3.
    by destruct (H4 eq_refl).
  - destruct (Nat.eqb_spec (degree r) 1); injection E as -> ->; split; try done; lia.
Qed.
(** The calls keep to the documentation but for [left] and [dst], the same pointer at a
    rank with one child. *)
Lemma reduce_calls f op : (forall r, 0 <= r < nranks -> reduce_memory r) -> op_documented item_size f op ->
  (forall r left right n m, 0 <= r < nranks -> OpReduce left right left n ∈ reduce_ops r ->
     op left right left n m = byte_op item_size f left right left n m) ->
  forall r k m, 0 <= r < nranks -> (k < degree r)%nat ->
    op (tmpb r) (current r k) (datab r) count m = byte_op item_size f (tmpb r) (current r k) (datab r) count m.
Proof.
  intros Hm Hdoc Halias r k m Hr Hk. destruct (lookup_lt_is_Some_2 _ _ Hk) as [q Hq].
  pose proof (list_elem_of_lookup_2 _ _ _ (proj2 (reduce_ops_at r k q Hr Hq))) as Hin.
  pose proof (buffers_eq r) as E. specialize (Hm r Hr) as [H1 H2 H3 H4 H5]. unfold current in *.
  destruct (Z.eqb_spec r root) as [->|Hne].
  - destruct (_ && _); injection E as E1 E2; rewrite E1, E2 in *; [by apply (Halias root)|].
    apply Hdoc; [by apply H4|]. destruct (k =? 0)%nat; [|by left]. destruct (H5 eq_refl) as [->|Hd]; [by left|right].
    unfold disjoint in *. lia.
  - destruct (_ =? 1)%nat; injection E as E1 E2; rewrite E1, E2 in *; [by apply (Halias r)|].
    apply Hdoc; [done|]. destruct (k =? 0)%nat; [right|by left]. unfold disjoint in *. lia.
Qed.
Lemma root_data : datab root = recvbuf root.
Proof. pose proof (buffers_eq root) as E. rewrite Z.eqb_refl in E. destruct (_ && _); by injection E. Qed.
Lemma combined_segment f x :
  segment nranks root f x 0 (Z.to_nat nranks - 1) = combined f nranks x root.
Proof.
  unfold combined, ranks_after. induction (Z.to_nat nranks - 1)%nat as [|k IH]; [cbn; by rewrite root_at|].
  cbn [segment]. rewrite IH, seq_S, fmap_app, foldl_app. cbn [fmap list_fmap foldl]. do 2 f_equal. unfold rank_at. f_equal. lia.
Qed.
Lemma reduce_x_eq r m : 0 <= r < nranks ->
  reduce_x r nranks (sendbuf r) (recvbuf r) count item_size root (a1 r) (a2 r) m = Ok (m, reduce_ops r).
Proof.
  intros Hr. unfold reduce_x. rewrite (proj2 (Z.eqb_neq nranks 1)) by lia. rewrite (actions_eq nranks root Hn r).
  cbn [mbind result_bind]. rewrite (nchildren_eq r). fold (buffers_of r). unfold reduce_ops, tmpb, datab.
  by destruct (buffers_of r) as [[[]]].
Qed.
End Reduce.

(** C5: the reduction. Every rank blocks in its operations one after the other. The user's
    function does what its documentation asks, and also works in the calls in which the
    code passes the same pointer as [left] and [dst], which the documentation does not
    allow. Then, whatever the ranks' threads and the network do, when the root is through
    its operations, its receive buffer holds its contribution combined with that of every
    other rank in the order of the ranks that follow, for an associative operation; the
    number of steps is bounded, and when nothing can happen any more, every rank is
    through. *)
Theorem reduce_combines nranks root count item_size sendbuf recvbuf a1 a2 comps f op mem :
  2 <= nranks -> 0 <= root < nranks -> 0 <= count * item_size < 2 ^ 64 ->
  (forall r, 0 <= r < nranks -> reduce_memory root count item_size sendbuf recvbuf a1 a2 r) ->
  keeps_length f (count * item_size) -> (forall a b c, f (f a b) c = f a (f b c)) -> op_documented item_size f op ->
  exists graphs ops,
    (forall r, 0 <= r < nranks ->
       reduce_x r nranks (sendbuf r) (recvbuf r) count item_size root (a1 r) (a2 r) (mem r) = Ok (mem r, ops r)
       /\ plan (comps r) (blocking (ops r) GRAPH_START) = Ok (PGraph (graphs r) (comp_is_empty (comps r))))
    /\ ((forall r left right n m, 0 <= r < nranks -> OpReduce left right left n ∈ ops r ->
           op left right left n m = byte_op item_size f left right left n m) ->
        forall w, rtc (wstep nranks graphs op) (world_init mem) w ->
         forall c, w_conf w root = Some c -> is_over c ->
         load_bytes (w_mem w root) (recvbuf root) (count * item_size)
         = combined f nranks (fun q => load_bytes (mem q) (sendbuf q) (count * item_size)) root)
    /\ terminates nranks graphs op.
Proof.
  intros Hn Hroot Hbytes Hm Hf Hassoc Hdoc.
  set (ops := reduce_ops nranks root count item_size sendbuf recvbuf a1 a2).
  destruct (choose_graphs nranks (fun r g => plan (comps r) (blocking (ops r) GRAPH_START) = Ok (PGraph g (comp_is_empty (comps r)))
      /\ gshape g (comps r) (Some <$> ops r) (chain_all (length (Some <$> ops r))))) as [graphs Hg].
  { intros r Hr. rewrite length_fmap. apply plan_builds. apply (builds_blocking (ops r) []). }
  pose proof (fun r Hr => proj2 (Hg r Hr)) as Hs. cbn beta in Hs.
  exists graphs, ops. split_and!.
  - intros r Hr. split; [by apply reduce_x_eq|by apply Hg].
  - intros Halias w R c Hc Ho.
    pose proof (fun r Hr => reduce_apart nranks root count item_size sendbuf recvbuf a1 a2 r (Hm r Hr)) as Hd.
    pose proof (reduce_calls nranks root count item_size Hn Hroot Hbytes sendbuf recvbuf a1 a2 f op Hm Hdoc Halias) as Hop.
    rewrite <- (root_data nranks root sendbuf recvbuf a1 a2).
    pose proof (root_degree nranks root Hn Hroot) as Hdeg.
    pose proof (reduce_over nranks root count item_size Hn Hroot Hbytes sendbuf recvbuf a1 a2 graphs comps Hs f Hf op Hop mem
      (fun r Hr _ => proj1 (Hd r Hr)) (fun r Hr => proj2 (Hd r Hr)) w root c R Hc Ho) as Hl.
    unfold current in Hl. rewrite (proj2 (Nat.eqb_neq _ 0)) in Hl by lia. rewrite Hl, final_root, combined_segment by done. done.
  - eapply matched_terminates, (reduce_matched nranks root count item_size Hn Hroot Hbytes sendbuf recvbuf a1 a2 graphs comps Hs).
Qed.
Lemma reduce_combines_witness :
  exists graphs ops, reduce_x 1 3 1000 3000 2 4 0 5000 7000 (fun a => a) = Ok ((fun a => a), ops 1)
    /\ (forall w, rtc (wstep 3 graphs (byte_op 4 (fun a b => a))) (world_init (fun _ a => a)) w ->
        forall c, w_conf w 0 = Some c -> is_over c ->
        load_bytes (w_mem w 0) 3000 8 = combined (fun a b => a) 3 (fun q => load_bytes (fun a => a) 1000 8) 0)
    /\ terminates 3 graphs (byte_op 4 (fun a b => a)).
Proof.
  destruct (reduce_combines 3 0 2 4 (fun _ => 1000) (fun _ => 3000) (fun _ => 5000) (fun _ => 7000) (fun _ => 0) (fun a b => a)
    (byte_op 4 (fun a b => a)) (fun _ a => a)) as (graphs & ops & H1 & H2 & H3); [lia|lia|lia| |by intros a b|done|done|].
  - intros r Hr. split; unfold disjoint; lia.
  - exists graphs, ops. split_and!; [apply (H1 1); lia|by apply H2|exact H3].
Defined.

(** What [reduce] passes to the user's operation. The root of two ranks that does
    not reduce in place receives in the buffer it reduces in, so that [left] and
    [dst] are the same pointer. *)
Theorem reduce_left_aliases_dst sendbuf recvbuf count item_size a1 a2 m :
  sendbuf <> recvbuf ->
  reduce_x 0 2 sendbuf recvbuf count item_size 0 a1 a2 m
  = Ok (m, [OpRecv 1 recvbuf (u64 (item_size * count)); OpReduce recvbuf sendbuf recvbuf count]).
Proof. intros Hne. unfold reduce_x, reduce_buffers. cbn -[u64 Z.mul]. by rewrite (proj2 (Z.eqb_neq _ _)). Qed.
Lemma reduce_left_aliases_dst_witness :
  reduce_x 0 2 1000 3000 2 4 0 5000 7000 (fun a => a) = Ok (fun a => a, [OpRecv 1 3000 8; OpReduce 3000 1000 3000 2]).
Proof. apply (reduce_left_aliases_dst 1000 3000 2 4 5000 7000 (fun a => a)). done. Defined.
