(* ===== verification/ShmRing.v ===== *)
(** * The ring in shared memory

    [ring_t] of src/src/shm/ring.hpp and ring.cpp: a ring of fixed-size slots that
    any number of producers and consumers use without locks. The control words and
    the slots are atomic cells; an operation is an agent that makes one access at a
    time, so that a step function describes it alone and among others. *)
From stdpp Require Import base numbers functions list gmap strings.
From Stdlib Require Import ZArith Lia.
From S2P Require Import Prelude Status.

(** ** Geometry *)

Definition LCI_CACHE_LINE : Z := 64.
Definition control_size : Z := 2 * LCI_CACHE_LINE.
Definition maximum_position : Z := Z.shiftl 1 63 - 1.
Definition SIZE_MAX : Z := 2 ^ 64 - 1.
Definition UINT32_MAX : Z := 2 ^ 32 - 1.
(** The header has a sequence of 8 bytes and three fields of 4, and is padded. *)
Definition sizeof_slot_header_t : Z := 24.

Definition is_power_of_two (value : Z) : bool :=
  negb (value =? 0) && (Z.land value (u64 (value - 1)) =? 0).
Definition required_size (slot_count slot_size : Z) : Z :=
  if negb (is_power_of_two slot_count) || (maximum_position <? slot_count)
     || (slot_size <? sizeof_slot_header_t) || negb (slot_size mod LCI_CACHE_LINE =? 0)
     || (UINT32_MAX <? slot_size - sizeof_slot_header_t)
     || ((SIZE_MAX - control_size) / slot_size <? slot_count)
  then 0
  else control_size + slot_count * slot_size.
Definition payload_capacity (slot_size : Z) : Z :=
  if sizeof_slot_header_t <=? slot_size then slot_size - sizeof_slot_header_t else 0.

Lemma power_of_two v : 0 <= v < 2 ^ 64 -> is_power_of_two v = true -> exists k, 0 <= k /\ v = 2 ^ k.
Proof.
  intros Hv [H0 H1]%andb_true_iff. apply negb_true_iff, Z.eqb_neq in H0. apply Z.eqb_eq in H1.
  unfold u64 in H1. rewrite Z.mod_small in H1 by lia. pose proof (Z.log2_nonneg v). exists (Z.log2 v). split; [done|].
  destruct (Z.log2_spec v ltac:(lia)) as [Hl Hu]. destruct (Z.eq_dec v (2 ^ Z.log2 v)) as [|Hne]; [done|exfalso].
  assert (Z.log2 (v - 1) = Z.log2 v) as El by (apply Z.log2_unique; lia).
  assert (Z.testbit (Z.land v (v - 1)) (Z.log2 v) = true) as Ht; [|by rewrite H1, Z.bits_0 in Ht].
  rewrite Z.land_spec, Z.bit_log2 by lia. rewrite <- El. by rewrite Z.bit_log2 by lia.
Qed.
Lemma required_size_inv slot_count slot_size : 0 <= slot_count < 2 ^ 64 -> 0 <= slot_size < 2 ^ 64 ->
  required_size slot_count slot_size <> 0 ->
  (exists k, 0 <= k /\ slot_count = 2 ^ k) /\ slot_count <= maximum_position /\ sizeof_slot_header_t <= slot_size
  /\ slot_size mod LCI_CACHE_LINE = 0 /\ slot_size - sizeof_slot_header_t <= UINT32_MAX
  /\ required_size slot_count slot_size = control_size + slot_count * slot_size
  /\ control_size + slot_count * slot_size <= SIZE_MAX.
Proof.
  intros Hc Hs. unfold required_size. destruct (_ || _) eqn:E; [done|]. intros _.
  rewrite !orb_false_iff, !negb_false_iff, !Z.ltb_ge in E. destruct E as (((((E1 & E2) & E3) & E4) & E5) & E6).
  apply Z.eqb_eq in E4. apply power_of_two in E1; [|done]. split_and!; try done.
  unfold sizeof_slot_header_t in E3. assert (slot_count * slot_size <= SIZE_MAX - control_size); [|lia].
  pose proof (Z.mul_div_le (SIZE_MAX - control_size) slot_size ltac:(lia)). nia.
Qed.

Inductive slot_state_t : Type := reusable | published.
Definition state_val (st : slot_state_t) : Z := match st with reusable => 0 | published => 1 end.
Definition encode_sequence (position : Z) (state : slot_state_t) : Z :=
  Z.lor (u64 (Z.shiftl position 1)) (state_val state).

Lemma encode_eq p st : 0 <= p <= maximum_position -> encode_sequence p st = 2 * p + state_val st.
Proof.
  intros Hp. unfold encode_sequence, u64. assert (maximum_position = 2 ^ 63 - 1) by done.
  rewrite Z.shiftl_mul_pow2, Z.mod_small by lia. change (2 ^ 1) with 2. rewrite (Z.mul_comm p 2).
  destruct st; cbn [state_val]; [rewrite Z.lor_0_r; lia|]. destruct p; [done|done|lia].
Qed.
Lemma encode_inj p p' st st' : 0 <= p <= maximum_position -> 0 <= p' <= maximum_position ->
  encode_sequence p st = encode_sequence p' st' -> p = p' /\ st = st'.
Proof.
  intros Hp Hp'. rewrite !encode_eq by done. destruct st, st'; cbn [state_val]; intros; first [exfalso; lia|split; [lia|done]].
Qed.

(** ** The shared region *)

Record slot_header_t : Type := mk_slot {
  sequence : Z;
  payload_size : Z;
  imm_data : Z;
  source_global_rank : Z;
  payload : list Z
}.
Record ring_t : Type := mk_ring {
  producer_position : Z;
  consumer_position : Z;
  slots : list slot_header_t
}.

(** The view of a claimed slot; its payload stays in the slot. *)
Record recv_slot_t : Type := mk_recv_slot {
  rs_source_global_rank : Z;
  rs_imm_data : Z;
  rs_size : Z;
  rs_position : Z
}.

Record ring_config : Type := mk_ring_config {
  slot_count : Z;
  slot_size : Z;
  producer_cas_attempts : nat;
  consumer_cas_attempts : nat
}.

Section Ring.
Variable cfg : ring_config.
#[local] Abbreviation slot_count := (slot_count cfg).
#[local] Abbreviation slot_size := (slot_size cfg).

Definition slot_index (position : Z) : Z := Z.land position (slot_count - 1).
Definition slot_address (region position : Z) : Z := region + control_size + slot_index position * slot_size.
Definition max_payload_size : Z := payload_capacity slot_size.

Definition initial_slot (initial_position : Z) (i : nat) : slot_header_t :=
  let delta := Z.land (u64 (Z.of_nat i - slot_index initial_position)) (slot_count - 1) in
  mk_slot (encode_sequence (initial_position + delta) reusable) 0 0 (-1) (replicate (Z.to_nat max_payload_size) 0).
Definition initialize_at (region initial_position : Z) : result ring_t :=
  LCI_Assert (negb (region =? 0)) "SHM ring region is null" ;;
  LCI_Assert (negb (required_size slot_count slot_size =? 0)) "Invalid SHM ring geometry" ;;
  LCI_Assert (initial_position <=? maximum_position) "Invalid SHM ring initial position" ;;
  LCI_Assert (initial_position <=? maximum_position - (slot_count - 1))
    "SHM ring initial position leaves an unencodable generation" ;;
  LCI_Assert (region mod LCI_CACHE_LINE =? 0) "SHM ring region is not cache-line aligned" ;;
  Ok (mk_ring initial_position initial_position (initial_slot initial_position <$> seq 0 (Z.to_nat slot_count))).
Definition initialize (region : Z) : result ring_t := initialize_at region 0.

(** The constructor only checks its arguments. *)
Definition ring_new (region : Z) : result unit :=
  LCI_Assert (negb (region =? 0)) "SHM ring region is null" ;;
  LCI_Assert (negb (required_size slot_count slot_size =? 0)) "Invalid SHM ring geometry" ;;
  LCI_Assert (negb (producer_cas_attempts cfg =? 0)%nat) "SHM ring producer CAS attempts must be nonzero" ;;
  LCI_Assert (negb (consumer_cas_attempts cfg =? 0)%nat) "SHM ring consumer CAS attempts must be nonzero" ;;
  LCI_Assert (region mod LCI_CACHE_LINE =? 0) "SHM ring region is not cache-line aligned".

Definition is_consistent_empty (r : ring_t) : bool :=
  (producer_position r =? 0) && (consumer_position r =? 0)
  && forallb (fun i => match slots r !! i with
                       | Some s => sequence s =? encode_sequence (Z.of_nat i) reusable
                       | None => false
                       end) (seq 0 (Z.to_nat slot_count)).
Definition recv_available_approx (r : ring_t) : Z :=
  Z.min (u64 (producer_position r - consumer_position r)) slot_count.

Definition slot_at (r : ring_t) (position : Z) : option slot_header_t := slots r !! Z.to_nat (slot_index position).
Definition set_slot (position : Z) (s : slot_header_t) (r : ring_t) : ring_t :=
  mk_ring (producer_position r) (consumer_position r) (<[Z.to_nat (slot_index position) := s]> (slots r)).
Definition set_sequence (v : Z) (s : slot_header_t) : slot_header_t :=
  mk_slot v (payload_size s) (imm_data s) (source_global_rank s) (payload s).

Definition previous_generation (position : Z) : Z := position - slot_count.
Definition is_previous_generation (seqn position : Z) : bool :=
  if position <? slot_count then false
  else (seqn =? encode_sequence (previous_generation position) reusable)
       || (seqn =? encode_sequence (previous_generation position) published).

(** ** Operations as agents *)

(** The arguments of [post_send]; [None] is a null buffer. *)
Record post_args : Type := mk_post {
  pa_source : Z;
  pa_buffer : option (list Z);
  pa_size : Z;
  pa_imm : Z
}.
Definition pa_bytes (m : post_args) : list Z := take (Z.to_nat (pa_size m)) (default [] (pa_buffer m)).

(** Where an operation is; [k] counts the attempts that are left. *)
Inductive agent : Type :=
  | Idle
  | PLoad (k : nat) (m : post_args)
  | PSeq (k : nat) (m : post_args) (position : Z)
  | PRecheck (k : nat) (m : post_args) (position seqn : Z)
  | PCas (k : nat) (m : post_args) (position : Z)
  | PCheck (m : post_args) (position : Z)
  | PWrite (field : nat) (m : post_args) (position : Z)
  | PReturn (e : errorcode_t)
  | CLoad (k : nat)
  | CSeq (k : nat) (position : Z)
  | CRecheck (k : nat) (position seqn : Z)
  | CCas (k : nat) (position : Z)
  | CMeta (position : Z)
  | CView (view : recv_slot_t)
  | CEmpty
  | RCheck (view : recv_slot_t)
  | RStore (view : recv_slot_t)
  | RDone
  | Raised (what : string).

(** What a call does before it touches the ring. *)
Definition post_send (m : post_args) : agent :=
  if (pa_source m <? 0) || (max_payload_size <? pa_size m)
     || (negb (pa_size m =? 0) && bool_decide (pa_buffer m = None))
  then PReturn ec_fatal
  else PLoad (producer_cas_attempts cfg) m.
(** [out] is the position of the view that the caller passes, if it holds a slot. *)
Definition poll (out : option Z) : agent :=
  match out with Some _ => CEmpty | None => CLoad (consumer_cas_attempts cfg) end.
Definition release (view : recv_slot_t) : agent := RCheck view.

(** The non-atomic stores of [publish], in order. *)
Definition write_field (field : nat) (m : post_args) (s : slot_header_t) : slot_header_t :=
  match field with
  | 0%nat => mk_slot (sequence s) (u32 (pa_size m)) (imm_data s) (source_global_rank s) (payload s)
  | 1%nat => mk_slot (sequence s) (payload_size s) (pa_imm m) (source_global_rank s) (payload s)
  | 2%nat => mk_slot (sequence s) (payload_size s) (imm_data s) (pa_source m) (payload s)
  | _ => mk_slot (sequence s) (payload_size s) (imm_data s) (source_global_rank s)
           (pa_bytes m ++ drop (length (pa_bytes m)) (payload s))
  end.

(** The store that makes a slot reusable for the next generation, unless that could
    not be encoded. *)
Definition recycle (position : Z) (s : slot_header_t) (r : ring_t) : ring_t :=
  if position <=? maximum_position - slot_count
  then set_slot position (set_sequence (encode_sequence (position + slot_count) reusable) s) r
  else r.

(** One access of an agent. A weak compare-and-swap may fail when [weak] says so. *)
Definition agent_step (weak : bool) (a : agent) (r : ring_t) : option (agent * ring_t) :=
  match a with
  | PLoad 0 m => Some (PReturn ec_retry_lock, r)
  | PLoad (S k) m =>
      let position := producer_position r in
      Some (if maximum_position <=? position then PReturn ec_fatal else PSeq k m position, r)
  | PSeq k m position =>
      s ← slot_at r position ;
      Some (if sequence s =? encode_sequence position reusable then PCas k m position
            else PRecheck k m position (sequence s), r)
  | PRecheck k m position seqn =>
      Some (if negb (producer_position r =? position) then PLoad k m
            else if is_previous_generation seqn position then PReturn ec_retry_nomem
            else PReturn ec_fatal, r)
  | PCas k m position =>
      Some (if (producer_position r =? position) && negb weak
            then (PCheck m position, mk_ring (position + 1) (consumer_position r) (slots r))
            else (PLoad k m, r))
  | PCheck m position =>
      s ← slot_at r position ;
      Some (if sequence s =? encode_sequence position reusable then PWrite 0 m position
            else Raised "SHM ring reservation state is corrupted", r)
  | PWrite field m position =>
      s ← slot_at r position ;
      Some (if (field <? 4)%nat then (PWrite (S field) m position, set_slot position (write_field field m s) r)
            else (PReturn ec_done, set_slot position (set_sequence (encode_sequence position published) s) r))
  | CLoad 0 => Some (CEmpty, r)
  | CLoad (S k) => Some (CSeq k (consumer_position r), r)
  | CSeq k position =>
      s ← slot_at r position ;
      Some (if sequence s =? encode_sequence position published then CCas k position
            else CRecheck k position (sequence s), r)
  | CRecheck k position seqn =>
      Some (if negb (consumer_position r =? position) then CLoad k
            else if (seqn =? encode_sequence position reusable)
                    || ((slot_count <=? position)
                        && (seqn =? encode_sequence (previous_generation position) published))
            then CEmpty
            else Raised "SHM ring slot sequence is inconsistent", r)
  | CCas k position =>
      Some (if (consumer_position r =? position) && negb weak
            then (CMeta position, mk_ring (producer_position r) (position + 1) (slots r))
            else (CLoad k, r))
  | CMeta position =>
      s ← slot_at r position ;
      Some (if (max_payload_size <? payload_size s) || (source_global_rank s <? 0)
            then (Raised "SHM ring slot metadata is corrupted", recycle position s r)
            else (CView (mk_recv_slot (source_global_rank s) (imm_data s) (payload_size s) position), r))
  | RCheck v =>
      s ← slot_at r (rs_position v) ;
      Some (if sequence s =? encode_sequence (rs_position v) published then RStore v
            else Raised "SHM ring claimed slot state is corrupted", r)
  | RStore v =>
      s ← slot_at r (rs_position v) ;
      Some (RDone, recycle (rs_position v) s r)
  | Idle | PReturn _ | CView _ | CEmpty | RDone | Raised _ => None
  end.

(** What the holder of a view reads. *)
Definition view_payload (v : recv_slot_t) (r : ring_t) : option (list Z) :=
  s ← slot_at r (rs_position v) ; Some (take (Z.to_nat (rs_size v)) (payload s)).

(** An agent that no other disturbs. *)
Fixpoint run_alone (fuel : nat) (a : agent) (r : ring_t) : agent * ring_t :=
  match fuel with
  | O => (a, r)
  | S fuel => match agent_step false a r with Some (a, r) => run_alone fuel a r | None => (a, r) end
  end.

(** ** Operations end *)

(** The steps that an agent can still make. *)
Definition steps_left (a : agent) : nat :=
  match a with
  | PLoad k _ => 3 * k + 7
  | PSeq k _ _ => 3 * k + 9
  | PRecheck k _ _ _ | PCas k _ _ => 3 * k + 8
  | PCheck _ _ => 6
  | PWrite field _ _ => 1 + (4 - field)
  | CLoad k => 3 * k + 2
  | CSeq k _ => 3 * k + 4
  | CRecheck k _ _ | CCas k _ => 3 * k + 3
  | CMeta _ => 1
  | RCheck _ => 2
  | RStore _ => 1
  | _ => 0
  end%nat.
Lemma agent_step_left weak a r a' r' : agent_step weak a r = Some (a', r') -> (steps_left a' < steps_left a)%nat.
Proof.
  destruct a as [| [|k] m|k m p|k m p q|k m p|m p|j m p|e|[|k]|k p|k p q|k p|p|v| |v|v| |s]; cbn [agent_step]; intros H; try done;
    try (apply bind_Some in H as (s & _ & H)); simplify_eq; try (cbn; lia).
  - destruct (_ <=? _); cbn; lia.
  - destruct (_ =? _); cbn; lia.
  - destruct (negb _); [|destruct (is_previous_generation _ _)]; cbn; lia.
  - destruct (_ && _); simplify_eq; cbn; lia.
  - destruct (_ =? _); cbn; lia.
  - destruct (Nat.ltb_spec j 4); simplify_eq; cbn [steps_left]; lia.
  - destruct (_ =? _); cbn; lia.
  - destruct (negb _); [|destruct (_ || _)]; cbn; lia.
  - destruct (_ && _); simplify_eq; cbn; lia.
  - destruct (_ || _); simplify_eq; cbn; lia.
  - destruct (_ =? _); cbn; lia.
Qed.

(** Accesses of one agent, whatever happens to the ring between them. *)
Inductive accesses : nat -> agent -> agent -> Prop :=
  | acc_none a : accesses 0 a a
  | acc_step n a a' a'' weak r r' : agent_step weak a r = Some (a', r') -> accesses n a' a'' -> accesses (S n) a a''.
Lemma accesses_left n a a' : accesses n a a' -> (n + steps_left a' <= steps_left a)%nat.
Proof. induction 1 as [|n a a' a'' weak r r' Hs _ IH]; [lia|]. apply agent_step_left in Hs. lia. Qed.

(** Whether the operation is over. *)
Definition finished (a : agent) : bool :=
  match a with Idle | PReturn _ | CView _ | CEmpty | RDone | Raised _ => true | _ => false end.
Lemma agent_step_total weak a r : (forall p, is_Some (slot_at r p)) -> finished a = false -> is_Some (agent_step weak a r).
Proof.
  intros Hs Hf. destruct a as [| [|k] m|k m p|k m p q|k m p|m p|j m p|e|[|k]|k p|k p q|k p|p|v| |v|v| |w]; try done; cbn [agent_step];
    try (by eexists); match goal with |- context [slot_at r ?p] => destruct (Hs p) as [s ->] end; by eexists.
Qed.
End Ring.

(** The operations of the ring are wait-free. However the ring changes between its
    accesses, a [post_send] is over after at most [3 * k + 7] accesses for [k] attempts,
    a [poll] after [3 * k + 2] and a [release] after 2; and until then it can always
    make its next access. *)
Theorem ring_wait_free cfg weak r m v n a :
  (accesses cfg n (post_send cfg m) a -> (n <= 3 * producer_cas_attempts cfg + 7)%nat)
  /\ (accesses cfg n (poll cfg None) a -> (n <= 3 * consumer_cas_attempts cfg + 2)%nat)
  /\ (accesses cfg n (release v) a -> (n <= 2)%nat)
  /\ ((forall p, is_Some (slot_at cfg r p)) -> finished a = false -> is_Some (agent_step cfg weak a r)).
Proof.
  split_and!; [| | |apply agent_step_total]; intros H%accesses_left; cbn in H; try lia.
  unfold post_send in H. destruct (_ || _); cbn in H; lia.
Qed.
Lemma ring_wait_free_witness :
  accesses (mk_ring_config 4 64 2 1) 1 (poll (mk_ring_config 4 64 2 1) None) (CSeq 0 0) /\ (1 <= 3 * 1 + 2)%nat.
Proof.
  assert (H : accesses (mk_ring_config 4 64 2 1) 1 (poll (mk_ring_config 4 64 2 1) None) (CSeq 0 0)).
  { eapply (acc_step _ 0 _ (CSeq 0 0) _ false (mk_ring 0 0 [])); [reflexivity|constructor]. }
  destruct (ring_wait_free (mk_ring_config 4 64 2 1) false (mk_ring 0 0 []) (mk_post 0 None 0 0) (mk_recv_slot 0 0 0 0) 1 (CSeq 0 0))
    as (_ & Hp & _). exact (conj H (Hp H)).
Defined.

(** The layout of the ring. Every slot lies between the control words and the end of
    the region, is aligned to a cache line, has room for the largest payload after its
    header, and overlaps no slot with another index. *)
Theorem ring_layout cfg region p q :
  is_u64 (slot_count cfg) -> is_u64 (slot_size cfg) -> required_size (slot_count cfg) (slot_size cfg) <> 0 ->
  region mod LCI_CACHE_LINE = 0 -> 0 <= p -> 0 <= q ->
  region + control_size <= slot_address cfg region p
  /\ slot_address cfg region p + slot_size cfg <= region + required_size (slot_count cfg) (slot_size cfg)
  /\ slot_address cfg region p mod LCI_CACHE_LINE = 0
  /\ sizeof_slot_header_t + max_payload_size cfg = slot_size cfg
  /\ (slot_index cfg p <> slot_index cfg q ->
       slot_address cfg region p + slot_size cfg <= slot_address cfg region q
       \/ slot_address cfg region q + slot_size cfg <= slot_address cfg region p).
Proof.
  intros Hc Hs Hr Ha Hp Hq.
  destruct (required_size_inv _ _ Hc Hs Hr) as ((k & Hk & E) & _ & Hsz & Hal & _ & -> & _).
  assert (Hi : forall x, 0 <= slot_index cfg x < slot_count cfg).
  { intros x. unfold slot_index. rewrite E, Z.sub_1_r, <- Z.ones_equiv, Z.land_ones by done. apply Z.mod_pos_bound. by apply Z.pow_pos_nonneg. }
  pose proof (Hi p). pose proof (Hi q). unfold slot_address, sizeof_slot_header_t in *. split_and!.
  - nia.
  - nia.
  - rewrite Z.add_mod, (Z.mul_mod (slot_index cfg p)), Hal, Z.mul_0_r, (Z.add_mod region), Ha by done. done.
  - unfold max_payload_size, payload_capacity. unfold sizeof_slot_header_t. rewrite (proj2 (Z.leb_le _ _)) by lia. lia.
  - nia.
Qed.
Lemma ring_layout_witness :
  slot_address (mk_ring_config 8 128 4 1) 4096 13 + 128 <= 4096 + required_size 8 128.
Proof.
  apply (ring_layout (mk_ring_config 8 128 4 1) 4096 13 2); [unfold is_u64; cbn; lia|unfold is_u64; cbn; lia|by vm_compute|done|lia|lia].
Defined.
