(* ===== verification/ShmRingRuns.v ===== *)
(** * Producers and consumers of the ring in shared memory

    Any number of agents (ShmRing) in any interleaving. The positions order the
    messages: the message of a position is the one whose producer won it, and the
    consumer that wins the position gets that message. *)
From stdpp Require Import base numbers functions list gmap strings relations.
From Stdlib Require Import ZArith Lia.
From S2P Require Import Prelude Status ShmRing.

Section Runs.
Variable cfg : ring_config.
#[local] Abbreviation N := (slot_count cfg).
#[local] Abbreviation slot_at := (slot_at cfg).
#[local] Abbreviation agent_step := (agent_step cfg).

(** [s_sent] lists the messages in the order in which their positions were won. *)
Record sys : Type := mk_sys { s_ring : ring_t; s_agents : nat -> agent; s_sent : list post_args }.

Definition idle (a : agent) : bool :=
  match a with Idle | PReturn _ | CEmpty | RDone => true | _ => false end.
Definition wins (a a' : agent) : list post_args :=
  match a, a' with PCas _ m _, PCheck _ _ => [m] | _, _ => [] end.

(** What [post_send] may be called with: a rank, and a buffer with [size] bytes that
    fit in a slot. *)
Definition valid_post (m : post_args) : Prop :=
  0 <= pa_source m /\ 0 <= pa_size m <= max_payload_size cfg
  /\ pa_size m <= Z.of_nat (length (default [] (pa_buffer m))).

(** What a poll that returns a view gives to its caller, agent [dl_consumer]. *)
Record delivery : Type := mk_delivery { dl_consumer : nat; dl_view : recv_slot_t; dl_bytes : list Z }.
Definition gets (t : nat) (a a' : agent) (r : ring_t) : list delivery :=
  match a, a' with CMeta _, CView v => [mk_delivery t v (default [] (view_payload cfg v r))] | _, _ => [] end.

Lemma post_send_valid m : valid_post m -> post_send cfg m = PLoad (producer_cas_attempts cfg) m.
Proof.
  intros (V1 & V2 & V3). unfold post_send. rewrite (proj2 (Z.ltb_ge _ _)), (proj2 (Z.ltb_ge _ _)) by lia. cbn [orb].
  destruct (Z.eqb_spec (pa_size m) 0) as [|Hne]; [done|]. cbn [negb andb]. rewrite bool_decide_false; [done|].
  intros Hn. rewrite Hn in V3. cbn in V3. lia.
Qed.

(** A step, with the views it gives to a caller. *)
Inductive sys_step : sys -> list delivery -> sys -> Prop :=
  | sys_post r ag sent t m : idle (ag t) = true -> valid_post m ->
      sys_step (mk_sys r ag sent) [] (mk_sys r (<[t := post_send cfg m]> ag) sent)
  | sys_poll r ag sent t : idle (ag t) = true ->
      sys_step (mk_sys r ag sent) [] (mk_sys r (<[t := poll cfg None]> ag) sent)
  | sys_release r ag sent t v : ag t = CView v ->
      sys_step (mk_sys r ag sent) [] (mk_sys r (<[t := release v]> ag) sent)
  | sys_act r ag sent t weak a' r' : agent_step weak (ag t) r = Some (a', r') ->
      sys_step (mk_sys r ag sent) (gets t (ag t) a' r') (mk_sys r' (<[t := a']> ag) (sent ++ wins (ag t) a')).
(** A run, with all the views that were given, in the order of the returns. *)
Inductive sys_run : sys -> list delivery -> sys -> Prop :=
  | run_none s : sys_run s [] s
  | run_step s ds s1 d s2 : sys_run s ds s1 -> sys_step s1 d s2 -> sys_run s (ds ++ d) s2.

(** The position whose slot the agent fills, and the one whose slot it holds. *)
Definition owner (a : agent) : option Z :=
  match a with PCheck _ p | PWrite _ _ p => Some p | _ => None end.
Definition holder (a : agent) : option Z :=
  match a with CMeta p => Some p | CView v | RCheck v | RStore v => Some (rs_position v) | _ => None end.

(** ** The invariant *)

Definition seq_is (r : ring_t) (p : Z) (st : slot_state_t) : Prop :=
  exists s, slot_at r p = Some s /\ sequence s = encode_sequence p st.
Definition holds (s : slot_header_t) (m : post_args) : Prop :=
  payload_size s = pa_size m /\ imm_data s = pa_imm m /\ source_global_rank s = pa_source m
  /\ take (Z.to_nat (pa_size m)) (payload s) = pa_bytes m.
(** The fields written so far. *)
Definition written (k : nat) (s : slot_header_t) (m : post_args) : Prop :=
  ((0 < k)%nat -> payload_size s = pa_size m) /\ ((1 < k)%nat -> imm_data s = pa_imm m)
  /\ ((2 < k)%nat -> source_global_rank s = pa_source m)
  /\ ((3 < k)%nat -> take (Z.to_nat (pa_size m)) (payload s) = pa_bytes m).

Section Invariant.
Variable p0 : Z.
Definition message_at (sent : list post_args) (p : Z) (m : post_args) : Prop :=
  p0 <= p /\ sent !! Z.to_nat (p - p0) = Some m.
Definition stored (sent : list post_args) (r : ring_t) (p : Z) : Prop :=
  exists s m, slot_at r p = Some s /\ sequence s = encode_sequence p published
    /\ message_at sent p m /\ valid_post m /\ holds s m.
Definition view_of (p : Z) (m : post_args) : recv_slot_t := mk_recv_slot (pa_source m) (pa_imm m) (pa_size m) p.

Definition agent_ok (r : ring_t) (sent : list post_args) (a : agent) : Prop :=
  let P := producer_position r in
  let C := consumer_position r in
  match a with
  | Idle | CEmpty | RDone | CLoad _ => True
  | PReturn e => e = ec_fatal -> P = maximum_position
  | PLoad _ m => valid_post m
  | PSeq _ m p => valid_post m /\ p0 <= p <= P /\ p < maximum_position
  | PRecheck _ m p q => valid_post m /\ p0 <= p <= P /\ (P = p -> is_previous_generation cfg q p = true)
  | PCas _ m p => valid_post m /\ p0 <= p <= P /\ p < maximum_position /\ (P = p -> seq_is r p reusable)
  | PCheck m p => valid_post m /\ C <= p < P /\ message_at sent p m /\ seq_is r p reusable
  | PWrite k m p => valid_post m /\ C <= p < P /\ message_at sent p m
      /\ exists s, slot_at r p = Some s /\ sequence s = encode_sequence p reusable /\ written k s m /\ (k <= 4)%nat
  | CSeq _ p => p0 <= p <= C
  | CRecheck _ p q => p0 <= p <= C /\ (C = p -> q = encode_sequence p reusable
      \/ (N <= p /\ q = encode_sequence (p - N) published))
  | CCas _ p => p0 <= p <= C /\ (C = p -> p < P /\ seq_is r p published)
  | CMeta p => p < C /\ stored sent r p
  | CView v | RCheck v | RStore v => exists p m, v = view_of p m /\ p < C /\ message_at sent p m /\ stored sent r p
  | Raised _ => False
  end.

(** What a slot with the sequence of position [p] is for. *)
Definition slot_ok (r : ring_t) (ag : nat -> agent) (sent : list post_args) (p : Z) (st : slot_state_t) : Prop :=
  match st with
  | reusable => producer_position r <= p \/ exists t, owner (ag t) = Some p
  | published => p < producer_position r /\ stored sent r p
      /\ (consumer_position r <= p \/ (exists t, holder (ag t) = Some p) \/ maximum_position - N < p)
  end.

Record sys_inv (s : sys) : Prop := mk_sys_inv {
  iv_range : p0 <= consumer_position (s_ring s) <= producer_position (s_ring s)
    /\ producer_position (s_ring s) <= maximum_position;
  iv_len : Z.of_nat (length (slots (s_ring s))) = N;
  iv_sent : Z.of_nat (length (s_sent s)) = producer_position (s_ring s) - p0;
  iv_slot : forall i, 0 <= i < N -> exists p st, seq_is (s_ring s) p st /\ p mod N = i /\ p0 <= p <= maximum_position
    /\ producer_position (s_ring s) - N <= p < producer_position (s_ring s) + N
    /\ slot_ok (s_ring s) (s_agents s) (s_sent s) p st;
  iv_live : forall p, consumer_position (s_ring s) <= p < producer_position (s_ring s) -> exists st, seq_is (s_ring s) p st;
  iv_agents : forall t, agent_ok (s_ring s) (s_sent s) (s_agents s t);
  iv_owner : forall t t' p, owner (s_agents s t) = Some p -> owner (s_agents s t') = Some p -> t = t';
  iv_holder : forall t t' p, holder (s_agents s t) = Some p -> holder (s_agents s t') = Some p -> t = t'
}.

(** ** Slots *)

Hypothesis Hp0 : 0 <= p0.
Hypothesis HN : exists k, 0 <= k /\ N = 2 ^ k.
Hypothesis Hmax : N <= maximum_position.
Hypothesis Hcap : max_payload_size cfg <= UINT32_MAX.

Lemma N_pos : 0 < N.
Proof. destruct HN as (k & Hk & ->). by apply Z.pow_pos_nonneg. Qed.
Lemma slot_index_mod p : slot_index cfg p = p mod N.
Proof.
  destruct HN as (k & Hk & E). unfold slot_index. rewrite E, Z.sub_1_r, <- Z.ones_equiv. by apply Z.land_ones.
Qed.
Lemma slot_at_mod r p q : p mod N = q mod N -> slot_at r p = slot_at r q.
Proof. intros H. unfold ShmRing.slot_at. by rewrite !slot_index_mod, H. Qed.
Lemma same_slot r p q st st' : 0 <= p <= maximum_position -> 0 <= q <= maximum_position ->
  seq_is r p st -> seq_is r q st' -> p mod N = q mod N -> p = q /\ st = st'.
Proof.
  intros Hp Hq (s & Hs & Es) (s' & Hs' & Es') E. rewrite (slot_at_mod r p q E), Hs' in Hs. injection Hs as <-.
  rewrite Es in Es'. by apply encode_inj in Es'.
Qed.
Lemma slot_at_set r p q s : slot_at (set_slot cfg q s r) p
  = if decide (p mod N = q mod N) then match slot_at r q with Some _ => Some s | None => None end else slot_at r p.
Proof.
  pose proof N_pos. unfold ShmRing.slot_at, set_slot. cbn [slots]. rewrite !slot_index_mod. destruct (decide _) as [->|Hne].
  - destruct (slots r !! Z.to_nat (q mod N)) eqn:E; [apply list_lookup_insert_eq; by eapply lookup_lt_Some|].
    by rewrite list_insert_ge by (by apply lookup_ge_None).
  - apply list_lookup_insert_ne. pose proof (Z.mod_pos_bound p N ltac:(lia)). pose proof (Z.mod_pos_bound q N ltac:(lia)). lia.
Qed.
Lemma slot_at_other r p q s : p mod N <> q mod N -> slot_at (set_slot cfg q s r) p = slot_at r p.
Proof. intros. rewrite slot_at_set. by rewrite decide_False. Qed.
Lemma slot_at_this r q s s0 : slot_at r q = Some s0 -> slot_at (set_slot cfg q s r) q = Some s.
Proof. intros H. by rewrite slot_at_set, decide_True, H. Qed.

(** ** Agents that do not move *)

(** The positions whose slots an agent relies on. *)
Definition relevant (r : ring_t) (a : agent) (p : Z) : Prop :=
  match a with
  | PCas _ _ q => q = p /\ producer_position r = p
  | CCas _ q => q = p /\ consumer_position r = p
  | _ => owner a = Some p \/ holder a = Some p
  end.
Lemma message_at_prefix sent sent' p m : sent `prefix_of` sent' -> message_at sent p m -> message_at sent' p m.
Proof. intros [k ->] [H1 H2]. split; [done|]. by apply lookup_app_l_Some. Qed.
Lemma stored_frame r r' sent sent' p : sent `prefix_of` sent' -> slot_at r' p = slot_at r p -> stored sent r p -> stored sent' r' p.
Proof.
  intros Hs He (s & m & H1 & H2 & H3 & H4). exists s, m. rewrite He. split; [done|]. split; [done|].
  split; [by eapply message_at_prefix|done].
Qed.
Lemma seq_is_frame r r' p st : slot_at r' p = slot_at r p -> seq_is r p st -> seq_is r' p st.
Proof. intros He (s & Hs). exists s. by rewrite He. Qed.
Lemma agent_ok_frame r r' sent sent' a :
  producer_position r <= producer_position r' <= maximum_position -> consumer_position r <= consumer_position r' ->
  sent `prefix_of` sent' -> (forall p, relevant r' a p -> slot_at r' p = slot_at r p) ->
  (forall p, owner a = Some p -> consumer_position r' <= p) ->
  agent_ok r sent a -> agent_ok r' sent' a.
Proof.
  intros HP HC Hs Hr Ho. pose proof (fun p m => message_at_prefix _ _ p m Hs) as Hm.
  pose proof (fun p => stored_frame r r' _ _ p Hs) as Hst.
  destruct a as [| k m|k m p|k m p q|k m p|m p|j m p|e|k|k p|k p q|k p|p|v| |v|v| |w];
    cbn [agent_ok relevant owner holder] in *; try done; try lia.
  - intros (H1 & H2 & H3). split; [done|]. lia.
  - intros (H1 & H2 & H3). split; [done|]. split; [lia|]. intros E. apply H3. lia.
  - intros (H1 & H2 & H3 & H4). split; [done|]. split; [lia|]. split; [done|]. intros E.
    eapply seq_is_frame; [by apply Hr|]. apply H4. lia.
  - intros (H1 & H2 & H3 & H4). specialize (Ho p eq_refl). split; [done|]. split; [lia|]. split; [by apply Hm|].
    eapply seq_is_frame; [apply Hr; by left|done].
  - intros (H1 & H2 & H3 & H4). specialize (Ho p eq_refl). split; [done|]. split; [lia|]. split; [by apply Hm|].
    rewrite (Hr p) by (by left). done.
  - intros H E. specialize (H E). lia.
  - intros (H1 & H2). split; [lia|]. intros E. destruct H2 as [H2 H3]; [lia|]. split; [lia|].
    eapply seq_is_frame; [by apply Hr|done].
  - intros (H1 & H2). split; [lia|]. apply Hst; [apply Hr; by right|done].
  - intros (p & m & -> & H1 & H2 & H3). exists p, m. split; [done|]. split; [lia|]. split; [by apply Hm|].
    apply Hst; [apply Hr; by right|done].
  - intros (p & m & -> & H1 & H2 & H3). exists p, m. split; [done|]. split; [lia|]. split; [by apply Hm|].
    apply Hst; [apply Hr; by right|done].
  - intros (p & m & -> & H1 & H2 & H3). exists p, m. split; [done|]. split; [lia|]. split; [by apply Hm|].
    apply Hst; [apply Hr; by right|done].
Qed.

(** ** Steps *)

Lemma agents_insert (ag : nat -> agent) t a t' : (<[t := a]> ag) t' = if decide (t' = t) then a else ag t'.
Proof. destruct (decide (t' = t)) as [->|]; [apply fn_lookup_insert|by apply fn_lookup_insert_ne]. Qed.

Section Step.
Context (r : ring_t) (ag : nat -> agent) (sent : list post_args) (t : nat).
#[local] Abbreviation P := (producer_position r).
#[local] Abbreviation C := (consumer_position r).
Hypothesis I : sys_inv (mk_sys r ag sent).

Lemma all_ok t' : agent_ok r sent (ag t').
Proof. apply (iv_agents _ I). Qed.
Lemma owner_ok t' p : owner (ag t') = Some p -> C <= p < P /\ seq_is r p reusable.
Proof.
  intros Ho. pose proof (all_ok t') as H. destruct (ag t'); try done; cbn in Ho, H; injection Ho as ->.
  - by destruct H as (_ & ? & _ & ?).
  - destruct H as (_ & ? & _ & s & ? & ? & _). split; [done|]. by exists s.
Qed.
Lemma holder_ok t' p : holder (ag t') = Some p -> p < C /\ stored sent r p.
Proof.
  intros Ho. pose proof (all_ok t') as H. destruct (ag t'); try done; cbn in Ho, H; injection Ho as <-;
    [done|destruct H as (? & ? & -> & ? & _ & ?); by split..].
Qed.
Lemma stored_seq p : stored sent r p -> seq_is r p published /\ p0 <= p.
Proof. intros (s & m & H1 & H2 & [H3 _] & _). split; [by exists s|done]. Qed.
(** The sequence of a slot tells its position. *)
Lemma slot_at_pos p st : p0 <= p <= maximum_position -> seq_is r p st -> P - N <= p < P + N /\ slot_ok r ag sent p st.
Proof.
  intros Hp Hs. pose proof N_pos. destruct (iv_slot _ I (p mod N)) as (q & st' & Hq & Em & Hr & Hb & Hok); [by apply Z.mod_pos_bound|].
  destruct (same_slot r p q st st') as [<- <-]; [lia|lia|done..].
Qed.

Lemma inv_same a' :
  owner a' = owner (ag t) -> holder a' = holder (ag t) -> agent_ok r sent a' -> sys_inv (mk_sys r (<[t := a']> ag) sent).
Proof.
  intros Ho Hh Ha. destruct I as [I1 I2 I3 I4 I5 I6 I7 I8]. cbn [s_ring s_agents s_sent] in *.
  assert (Eo : forall t', owner ((<[t := a']> ag) t') = owner (ag t')).
  { intros t'. rewrite agents_insert. by destruct (decide (t' = t)) as [->|]. }
  assert (Eh : forall t', holder ((<[t := a']> ag) t') = holder (ag t')).
  { intros t'. rewrite agents_insert. by destruct (decide (t' = t)) as [->|]. }
  split; cbn [s_ring s_agents s_sent]; try done.
  - intros i Hi. destruct (I4 i Hi) as (p & st & H1 & H2 & H3 & H4 & H5). exists p, st. split_and!; try done; try lia.
    destruct st; cbn in *; setoid_rewrite Eo || setoid_rewrite Eh; done.
  - intros t'. rewrite agents_insert. by destruct (decide (t' = t)).
  - intros t1 t2 p. rewrite !Eo. apply I7.
  - intros t1 t2 p. rewrite !Eh. apply I8.
Qed.

(** A producer wins a position. *)
Lemma inv_reserve k m : ag t = PCas k m P ->
  sys_inv (mk_sys (mk_ring (P + 1) C (slots r)) (<[t := PCheck m P]> ag) (sent ++ [m])).
Proof.
  intros Ea. pose proof (all_ok t) as Hok. rewrite Ea in Hok. destruct Hok as (Hv & Hp & Hlt & Hseq). specialize (Hseq eq_refl).
  pose proof N_pos as HNp. set (r' := mk_ring _ _ _).
  assert (Hpre : sent `prefix_of` sent ++ [m]) by (by eexists).
  destruct I as [[I1 I1'] I2 I3 I4 I5 I6 I7 I8]. cbn [s_ring s_agents s_sent] in *.
  assert (Hold : forall t', t' <> t -> (<[t := PCheck m P]> ag) t' = ag t').
  { intros t' Hne. rewrite agents_insert. by rewrite decide_False. }
  assert (Hnew : (<[t := PCheck m P]> ag) t = PCheck m P) by (apply fn_lookup_insert).
  split; cbn [s_ring s_agents s_sent producer_position consumer_position slots r'].
  - lia.
  - done.
  - rewrite length_app. cbn [length]. lia.
  - intros i Hi. destruct (decide (i = P mod N)) as [->|Hne].
    { exists P, reusable. split; [done|]. split_and!; [done|lia|lia|lia|lia|]. right. exists t. by rewrite Hnew. }
    destruct (I4 i Hi) as (p & st & H1 & H2 & H3 & H4 & H5). exists p, st. split; [done|].
    assert (p <> P) by (by intros ->). assert (p <> P - N).
    { intros ->. rewrite Zminus_mod, Z_mod_same_full, Z.sub_0_r, Z.mod_mod in H2 by lia. done. }
    split_and!; [done|lia|lia|lia|lia|]. destruct st; cbn [slot_ok producer_position consumer_position r'] in *.
    + destruct H5 as [?|(t0 & Ht0)]; [left; lia|right]. exists t0. rewrite Hold; [done|]. intros ->. by rewrite Ea in Ht0.
    + destruct H5 as (? & Hst & Hc). split; [lia|]. split; [by eapply stored_frame|]. destruct Hc as [?|[(t0 & Ht0)|?]]; [by left| |by right; right].
      right; left. exists t0. rewrite Hold; [done|]. intros ->. by rewrite Ea in Ht0.
  - intros p Hp'. destruct (decide (p = P)) as [->|]; [by exists reusable|]. apply I5. lia.
  - intros t'. destruct (decide (t' = t)) as [->|Hne].
    + rewrite Hnew. cbn [agent_ok producer_position consumer_position r']. split; [done|]. split; [lia|]. split; [|done]. split; [lia|].
      rewrite lookup_app_r by lia. by replace (Z.to_nat (P - p0) - length sent)%nat with 0%nat by lia.
    + rewrite Hold by done. apply (agent_ok_frame r r' sent); cbn [producer_position consumer_position r']; try done; try lia.
      intros p Ho. apply (owner_ok _ _ Ho).
  - assert (Hx : forall t', t' <> t -> owner (ag t') <> Some P) by (intros t' _ Ho; apply owner_ok in Ho; lia).
    intros t1 t2 p. destruct (decide (t1 = t)) as [->|H1], (decide (t2 = t)) as [->|H2]; [done|..]; rewrite ?Hnew, ?Hold by done.
    + intros [= <-] Ho. by destruct (Hx _ H2 Ho).
    + intros Ho [= <-]. by destruct (Hx _ H1 Ho).
    + apply I7.
  - intros t1 t2 p. destruct (decide (t1 = t)) as [->|H1], (decide (t2 = t)) as [->|H2]; [done|..]; rewrite ?Hnew, ?Hold by done; try done. apply I8.
Qed.

(** A consumer wins a position. *)
Lemma inv_claim k : ag t = CCas k C ->
  sys_inv (mk_sys (mk_ring P (C + 1) (slots r)) (<[t := CMeta C]> ag) sent).
Proof.
  intros Ea. pose proof (all_ok t) as Hok. rewrite Ea in Hok. destruct Hok as (Hp & Hseq). destruct (Hseq eq_refl) as [Hlt Hs].
  set (r' := mk_ring _ _ _). destruct I as [[I1 I1'] I2 I3 I4 I5 I6 I7 I8]. cbn [s_ring s_agents s_sent] in *.
  destruct (slot_at_pos C published ltac:(lia) Hs) as [_ (_ & Hst & _)].
  assert (Hold : forall t', t' <> t -> (<[t := CMeta C]> ag) t' = ag t').
  { intros t' Hne. rewrite agents_insert. by rewrite decide_False. }
  assert (Hnew : (<[t := CMeta C]> ag) t = CMeta C) by (apply fn_lookup_insert).
  split; cbn [s_ring s_agents s_sent producer_position consumer_position slots r']; [lia|done|done| |intros p ?; apply I5; lia|..].
  - intros i Hi. destruct (I4 i Hi) as (p & st & H1 & H2 & H3 & H4 & H5). exists p, st. split; [done|].
    split_and!; [done|lia|lia|lia|lia|]. destruct st; cbn [slot_ok producer_position consumer_position r'] in *.
    + destruct H5 as [?|(t0 & Ht0)]; [by left|right]. exists t0. rewrite Hold; [done|]. intros ->. by rewrite Ea in Ht0.
    + destruct H5 as (? & Hst' & Hc). split; [done|]. split; [done|]. destruct (decide (p = C)) as [->|]; [right; left; exists t; by rewrite Hnew|].
      destruct Hc as [?|[(t0 & Ht0)|?]]; [left; lia| |by right; right].
      right; left. exists t0. rewrite Hold; [done|]. intros ->. by rewrite Ea in Ht0.
  - intros t'. destruct (decide (t' = t)) as [->|Hne].
    + rewrite Hnew. cbn [agent_ok consumer_position r']. split; [lia|done].
    + rewrite Hold by done. apply (agent_ok_frame r r' sent); cbn [producer_position consumer_position r']; try done; try lia.
      intros p Ho. apply owner_ok in Ho as [Hr Hs']. destruct (decide (p = C)) as [->|]; [|lia].
      destruct (same_slot r C C reusable published) as [_ [=]]; (done || lia).
  - intros t1 t2 p. destruct (decide (t1 = t)) as [->|H1], (decide (t2 = t)) as [->|H2]; [done|..]; rewrite ?Hnew, ?Hold by done; try done. apply I7.
  - assert (Hx : forall t', t' <> t -> holder (ag t') <> Some C) by (intros t' _ Ho; apply holder_ok in Ho; lia).
    intros t1 t2 p. destruct (decide (t1 = t)) as [->|H1], (decide (t2 = t)) as [->|H2]; [done|..]; rewrite ?Hnew, ?Hold by done.
    + intros [= <-] Ho. by destruct (Hx _ H2 Ho).
    + intros Ho [= <-]. by destruct (Hx _ H1 Ho).
    + apply I8.
Qed.

(** An agent changes the slot it fills or holds. *)
Definition role (st : slot_state_t) (p : Z) : Prop :=
  match st with reusable => owner (ag t) = Some p | published => holder (ag t) = Some p end.
Lemma role_ok st p : role st p -> seq_is r p st /\ p0 <= p <= maximum_position /\ p < P.
Proof.
  pose proof (iv_range _ I) as [? ?]. cbn in *. destruct st; cbn; intros Hrl.
  - apply owner_ok in Hrl as [? ?]. split; [done|lia].
  - apply holder_ok in Hrl as [? Hs]. apply stored_seq in Hs as [? ?]. split; [done|lia].
Qed.
Lemma others_apart st p t' q : role st p -> t' <> t -> relevant r (ag t') q -> q mod N <> p mod N.
Proof.
  intros Hrole Hne Hrel E. destruct (role_ok st p Hrole) as (Hs & Hp & Hlt). pose proof (iv_range _ I) as [? ?]. cbn in *.
  assert (exists st', seq_is r q st' /\ p0 <= q <= maximum_position /\ (q = p -> st' = st -> False)) as (st' & Hs' & Hq & Hc).
  { assert (owner (ag t') = Some q \/ holder (ag t') = Some q -> exists st', seq_is r q st'
      /\ p0 <= q <= maximum_position /\ (q = p -> st' = st -> False)) as Hboth.
    { intros [Ho|Ho].
      - exists reusable. destruct (owner_ok _ _ Ho) as [? ?]. split; [done|]. split; [lia|]. intros -> <-. by apply Hne, (iv_owner _ I t' t p).
      - exists published. destruct (holder_ok _ _ Ho) as [? Hst]. apply stored_seq in Hst as [? ?]. split; [done|]. split; [lia|].
        intros -> <-. by apply Hne, (iv_holder _ I t' t p). }
    pose proof (all_ok t') as Hok. destruct (ag t') eqn:Ea; try (by apply Hboth); cbn in Hrel, Hok.
    - destruct Hrel as [-> <-]. destruct Hok as (_ & ? & ? & Hk). exists reusable. split; [by apply Hk|]. split; [lia|]. lia.
    - destruct Hrel as [-> <-]. destruct Hok as (? & Hk). exists published. destruct Hk as [? ?]; [done|]. split; [done|]. split; [lia|].
      intros Eq <-. cbn in Hrole. apply holder_ok in Hrole. lia. }
  destruct (same_slot r q p st' st) as [? ?]; [lia|lia|done..|auto].
Qed.
Lemma inv_update st p s0 s1 p1 st1 a' :
  role st p -> slot_at r p = Some s0 -> sequence s1 = encode_sequence p1 st1 -> p1 mod N = p mod N ->
  p0 <= p1 <= maximum_position -> P - N <= p1 < P + N -> (C <= p -> p1 = p) ->
  slot_ok (set_slot cfg p s1 r) (<[t := a']> ag) sent p1 st1 ->
  agent_ok (set_slot cfg p s1 r) sent a' ->
  (forall q, owner a' = Some q -> owner (ag t) = Some q) -> (forall q, holder a' = Some q -> holder (ag t) = Some q) ->
  sys_inv (mk_sys (set_slot cfg p s1 r) (<[t := a']> ag) sent).
Proof.
  intros Hrole Hs0 Hs1 Em Hp1 Hb1 Hlive Hok1 Ha' Ho' Hh'. destruct (role_ok st p Hrole) as (Hs & Hp & Hlt).
  set (r' := set_slot cfg p s1 r). pose proof (slot_at_this r p s1 s0 Hs0) as Hs1'. fold r' in Hs1'.
  assert (Hseq1 : seq_is r' p1 st1) by (exists s1; split; [by rewrite (slot_at_mod r' p1 p Em)|done]).
  assert (Hother : forall q, q mod N <> p mod N -> slot_at r' q = slot_at r q) by (intros q; apply slot_at_other).
  pose proof I as [I1 I2 I3 I4 I5 I6 I7 I8]. cbn [s_ring s_agents s_sent] in *.
  split; cbn [s_ring s_agents s_sent]; change (producer_position r') with P; change (consumer_position r') with C.
  - done.
  - cbn [r' set_slot slots]. by rewrite length_insert.
  - done.
  - intros i Hi. destruct (decide (i = p mod N)) as [->|Hne]; [exists p1, st1; done|].
    destruct (I4 i Hi) as (q & st' & H1 & H2 & H3 & H4 & H5). exists q, st'. assert (Hq : q mod N <> p mod N) by congruence.
    split; [by eapply seq_is_frame; [apply Hother|]|]. split; [done|]. split; [done|]. split; [done|].
    assert (q <> p) by (by intros ->). destruct st'; cbn [slot_ok] in *.
    + destruct H5 as [?|(t0 & Ht0)]; [by left|right]. exists t0. rewrite agents_insert. destruct (decide (t0 = t)) as [->|]; [|done].
      exfalso. apply owner_ok in Ht0 as Hx. destruct st; cbn in Hrole; [congruence|]. by destruct (ag t).
    + destruct H5 as (? & Hst & Hc). split; [done|]. split; [eapply stored_frame; [done|by apply Hother|done]|].
      destruct Hc as [?|[(t0 & Ht0)|?]]; [by left|right; left|by right; right]. exists t0. rewrite agents_insert.
      destruct (decide (t0 = t)) as [->|]; [|done]. exfalso. destruct st; cbn in Hrole; [by destruct (ag t)|congruence].
  - intros q Hq. destruct (I5 q Hq) as [st' Hst']. destruct (decide (q mod N = p mod N)) as [E|Hne].
    + destruct (same_slot r q p st' st) as [-> ->]; [lia|lia|done..|]. exists st1. by rewrite <- (Hlive ltac:(lia)).
    + exists st'. eapply seq_is_frame; [by apply Hother|done].
  - intros t'. rewrite agents_insert. destruct (decide (t' = t)) as [->|Hne]; [done|].
    apply (agent_ok_frame r r' sent sent); [split; [done|apply I1]|done|done| |intros q Ho; by apply owner_ok in Ho as [[? _] _]|apply I6].
    intros q Hrel. apply Hother. apply (others_apart st p t' q Hrole Hne). by destruct (ag t').
  - intros t1 t2 q. rewrite !agents_insert. intros H1 H2. apply (I7 t1 t2 q);
      [destruct (decide (t1 = t)) as [->|]|destruct (decide (t2 = t)) as [->|]]; auto.
  - intros t1 t2 q. rewrite !agents_insert. intros H1 H2. apply (I8 t1 t2 q);
      [destruct (decide (t1 = t)) as [->|]|destruct (decide (t2 = t)) as [->|]]; auto.
Qed.

Lemma inv_write k m p s : ag t = PWrite k m p -> (k < 4)%nat -> slot_at r p = Some s ->
  sys_inv (mk_sys (set_slot cfg p (write_field k m s) r) (<[t := PWrite (S k) m p]> ag) sent).
Proof.
  intros Ea Hk Hs. pose proof (all_ok t) as Hok. rewrite Ea in Hok. destruct Hok as (Hv & Hp & Hm & s' & Hs' & Hq & Hw & _).
  rewrite Hs in Hs'. injection Hs' as <-.
  assert (Hseq : sequence (write_field k m s) = encode_sequence p reusable) by (by destruct k as [|[|[|]]]).
  assert (Hwr : written (S k) (write_field k m s) m).
  { destruct Hv as (_ & Hsz & Hlen). assert (Hl : length (pa_bytes m) = Z.to_nat (pa_size m)) by (unfold pa_bytes; rewrite length_take; lia).
    unfold written in *. destruct k as [|[|[|[|]]]]; [| | | |lia]; cbn [write_field payload_size imm_data source_global_rank payload]; split_and!; try (intros; lia); try done;
      try (intros _; apply Hw; lia).
    - intros _. unfold u32. apply Z.mod_small. unfold UINT32_MAX in Hcap. lia.
    - intros _. rewrite take_app_length' by done. done. }
  assert (Hrole : role reusable p) by (cbn; by rewrite Ea). pose proof (role_ok _ _ Hrole) as (Hsq & Hpr & _).
  apply (inv_update reusable p s (write_field k m s) p reusable); try done; try lia.
  - by apply (slot_at_pos p reusable).
  - right. exists t. rewrite agents_insert. by rewrite decide_True.
  - cbn [agent_ok]. split; [done|]. split; [done|]. split; [done|]. exists (write_field k m s).
    split; [by eapply slot_at_this|]. split; [done|]. split; [done|lia].
  - intros q [= <-]. by rewrite Ea.
Qed.
Lemma inv_publish m p s : ag t = PWrite 4 m p -> slot_at r p = Some s ->
  sys_inv (mk_sys (set_slot cfg p (set_sequence (encode_sequence p published) s) r) (<[t := PReturn ec_done]> ag) sent).
Proof.
  intros Ea Hs. pose proof (all_ok t) as Hok. rewrite Ea in Hok. destruct Hok as (Hv & Hp & Hm & s' & Hs' & Hq & Hw & _).
  rewrite Hs in Hs'. injection Hs' as <-.
  assert (Hrole : role reusable p) by (cbn; by rewrite Ea). pose proof (role_ok _ _ Hrole) as (Hsq & Hpr & _).
  apply (inv_update reusable p s _ p published); try done; try lia.
  - by apply (slot_at_pos p reusable).
  - cbn [slot_ok]. change (producer_position (set_slot _ _ _ _)) with P. change (consumer_position (set_slot _ _ _ _)) with C.
    split; [lia|]. split; [|left; lia]. exists (set_sequence (encode_sequence p published) s), m. split; [by eapply slot_at_this|].
    split; [done|]. split; [done|]. split; [done|]. destruct Hw as (H1 & H2 & H3 & H4). split_and!; [apply H1|apply H2|apply H3|apply H4]; lia.
Qed.
Lemma inv_recycle v s : ag t = RStore v -> slot_at r (rs_position v) = Some s ->
  sys_inv (mk_sys (recycle cfg (rs_position v) s r) (<[t := RDone]> ag) sent).
Proof.
  intros Ea Hs. set (p := rs_position v) in *. assert (Hrole : role published p) by (cbn; by rewrite Ea).
  pose proof (role_ok _ _ Hrole) as (Hsq & Hpr & Hlt). destruct (holder_ok t p ltac:(by rewrite Ea)) as [HC Hst].
  destruct (slot_at_pos p published ltac:(lia) Hsq) as [Hb _]. pose proof N_pos. unfold recycle. destruct (Z.leb_spec p (maximum_position - N)).
  - apply (inv_update published p s _ (p + N) reusable); try done; try lia.
    + rewrite <- (Z.mul_1_l N) at 1. apply Z.mod_add. lia.
    + left. change (producer_position (set_slot _ _ _ _)) with P. lia.
  - assert (E : set_slot cfg p s r = r).
    { unfold set_slot, ShmRing.slot_at in *. rewrite list_insert_id by done. by destruct r. }
    rewrite <- E. destruct Hsq as (s' & Hs' & Hq). rewrite Hs in Hs'. injection Hs' as <-.
    apply (inv_update published p s s p published); try done; try lia; rewrite E.
    cbn [slot_ok]. split; [done|]. split; [done|]. right. right. lia.
Qed.

Lemma window p q : q mod N = p mod N -> p - N <= q < p + N -> q = p \/ q = p - N.
Proof.
  intros E Hb. pose proof N_pos. pose proof (Z.div_mod q N ltac:(lia)). pose proof (Z.div_mod p N ltac:(lia)).
  assert (Hd : q - p = N * (q / N - p / N)) by lia. set (d := q / N - p / N) in *. assert (-1 <= d < 1) by nia.
  assert (d = 0 \/ d = -1) as [Ed|Ed] by lia; rewrite Ed in Hd; lia.
Qed.
(** What stands in the slot of the next position to be won. *)
Lemma next_slot p s : p0 <= p -> p = P -> slot_at r p = Some s -> sequence s <> encode_sequence p reusable ->
  is_previous_generation cfg (sequence s) p = true.
Proof.
  intros Hp -> Hs Hne. pose proof N_pos. destruct (iv_slot _ I (P mod N)) as (q & st & (s' & Hs' & Hq) & Em & Hr & Hb & Hok); [by apply Z.mod_pos_bound|].
  cbn [s_ring s_agents s_sent] in *. rewrite (slot_at_mod r q P Em), Hs in Hs'. injection Hs' as <-.
  destruct (window P q Em Hb) as [->| ->].
  - destruct st; [done|]. cbn in Hok. lia.
  - unfold is_previous_generation, previous_generation. destruct (Z.ltb_spec P N); [lia|]. rewrite Hq.
    destruct st; rewrite Z.eqb_refl; [done|]. by rewrite orb_true_r.
Qed.
Lemma head_slot p s : p0 <= p -> p = C -> slot_at r p = Some s -> sequence s <> encode_sequence p published ->
  sequence s = encode_sequence p reusable \/ (N <= p /\ sequence s = encode_sequence (p - N) published).
Proof.
  intros Hp -> Hs Hne. pose proof N_pos. pose proof (iv_range _ I) as [HR HR']. cbn [s_ring] in *.
  destruct (decide (C < P)) as [Hlt|Hge].
  { destruct (iv_live _ I C ltac:(cbn; lia)) as [st (s' & Hs' & Hq)]. cbn in Hs'. rewrite Hs in Hs'. injection Hs' as <-.
    destruct st; [by left|done]. }
  destruct (iv_slot _ I (C mod N)) as (q & st & (s' & Hs' & Hq) & Em & Hr & Hb & Hok); [by apply Z.mod_pos_bound|].
  cbn [s_ring s_agents s_sent] in *. rewrite (slot_at_mod r q C Em), Hs in Hs'. injection Hs' as <-.
  destruct (window C q Em ltac:(lia)) as [->| ->]; destruct st; [by left|done| |right; split; [lia|done]].
  destruct Hok as [?|(t0 & Ho)]; [lia|]. apply owner_ok in Ho. lia.
Qed.

Lemma inv_act weak a' r' : agent_step weak (ag t) r = Some (a', r') ->
  sys_inv (mk_sys r' (<[t := a']> ag) (sent ++ wins (ag t) a')).
Proof.
  intros Hstep. pose proof (all_ok t) as Hok. pose proof (iv_range _ I) as [HR HR']. cbn [s_ring] in *.
  assert (Hsame : forall a1, wins (ag t) a1 = [] -> owner a1 = owner (ag t) -> holder a1 = holder (ag t) -> agent_ok r sent a1 ->
    sys_inv (mk_sys r (<[t := a1]> ag) (sent ++ wins (ag t) a1))) by (intros a1 -> Ho Hh Ha; rewrite app_nil_r; by apply inv_same).
  destruct (ag t) as [| [|k] m|k m p|k m p q|k m p|m p|j m p|e|[|k]|k p|k p q|k p|p|v| |v|v| |w] eqn:Ea; cbn [ShmRing.agent_step] in Hstep; try done;
    try (apply bind_Some in Hstep as (s & Hs & Hstep)).
  - injection Hstep as <- <-. by apply Hsame.
  - injection Hstep as <- <-. destruct (Z.leb_spec maximum_position P); apply Hsame; try done; cbn; [lia|].
    split; [done|lia].
  - injection Hstep as <- <-. destruct Hok as (Hv & Hp & Hm). destruct (Z.eqb_spec (sequence s) (encode_sequence p reusable)) as [E|E]; apply Hsame; try done.
    + cbn. split; [done|]. split; [lia|]. split; [done|]. intros _. by exists s.
    + cbn. split; [done|]. split; [lia|]. intros EP. by apply (next_slot p s); [lia|..].
  - injection Hstep as <- <-. destruct Hok as (Hv & Hp & Hm). destruct (Z.eqb_spec P p) as [E|E]; cbn [negb]; [|by apply Hsame].
    rewrite (Hm E). by apply Hsame.
  - destruct Hok as (Hv & Hp & Hm & Hq). destruct (Z.eqb_spec P p) as [<-|E]; destruct weak; cbn [andb negb] in Hstep; injection Hstep as <- <-;
      try (by apply Hsame). by apply (inv_reserve k).
  - injection Hstep as <- <-. destruct Hok as (Hv & Hp & Hm & s' & Hs' & Hq). rewrite Hs in Hs'. injection Hs' as <-.
    rewrite Hq, Z.eqb_refl. apply Hsame; try done. cbn [agent_ok]. split; [done|]. split; [done|]. split; [done|].
    exists s. split; [done|]. split; [done|]. unfold written. split_and!; lia.
  - cbn [wins]. rewrite app_nil_r. destruct (Nat.ltb_spec j 4) as [Hj|Hj]; injection Hstep as <- <-; [by apply inv_write|].
    destruct Hok as (_ & _ & _ & _ & _ & _ & _ & Hj'). assert (j = 4%nat) as -> by lia. by apply (inv_publish m).
  - injection Hstep as <- <-. by apply Hsame.
  - injection Hstep as <- <-. apply Hsame; try done. cbn. lia.
  - injection Hstep as <- <-. cbn in Hok. destruct (Z.eqb_spec (sequence s) (encode_sequence p published)) as [E|E]; apply Hsame; try done; cbn; (split; [lia|]).
    + intros Ep. assert (Hseq : seq_is r p published) by (by exists s). split; [|done].
      by destruct (slot_at_pos p published ltac:(lia) Hseq) as [_ [? _]].
    + intros Ep. apply head_slot; (done || lia).
  - injection Hstep as <- <-. destruct Hok as (Hp & Hm). destruct (Z.eqb_spec C p) as [E|E]; cbn [negb]; [|by apply Hsame].
    unfold previous_generation. destruct (Hm E) as [->|[HNp ->]]; rewrite Z.eqb_refl; [by apply Hsame|].
    rewrite (proj2 (Z.leb_le _ _) HNp), orb_true_r. by apply Hsame.
  - destruct Hok as (Hp & Hm). cbn [wins]. destruct (Z.eqb_spec C p) as [<-|E]; destruct weak; cbn [andb negb] in Hstep; injection Hstep as <- <-;
      try (by apply Hsame). rewrite app_nil_r. by apply (inv_claim k).
  - destruct Hok as (Hp & Hst). pose proof Hst as (s' & m & Hs' & Hq & Hm & Hv & H1 & H2 & H3 & H4). rewrite Hs in Hs'. injection Hs' as <-.
    destruct Hv as (V1 & V2 & V3). rewrite H1, H2, H3 in Hstep. rewrite (proj2 (Z.ltb_ge _ _)), (proj2 (Z.ltb_ge _ _)) in Hstep by lia.
    cbn [orb] in Hstep. injection Hstep as <- <-. apply Hsame; try done. cbn. by exists p, m.
  - injection Hstep as <- <-. destruct Hok as (p & m & -> & Hp & Hm & Hst). pose proof Hst as (s' & _ & Hs' & Hq & _).
    cbn [view_of rs_position] in *. rewrite Hs in Hs'. injection Hs' as <-. rewrite Hq, Z.eqb_refl. apply Hsame; try done. cbn. by exists p, m.
  - injection Hstep as <- <-. cbn [wins]. rewrite app_nil_r. by apply inv_recycle.
Qed.
End Step.

Lemma sys_inv_step s d s' : sys_inv s -> sys_step s d s' -> sys_inv s'.
Proof.
  intros I St. destruct St as [r ag sent t m Hi Hv|r ag sent t Hi|r ag sent t v Ev|r ag sent t weak a' r' Hs].
  - assert (E : owner (ag t) = None /\ holder (ag t) = None) by (by destruct (ag t)). destruct E as [Eo Eh].
    rewrite (post_send_valid m Hv). apply inv_same; [done|by rewrite Eo|by rewrite Eh|done].
  - assert (E : owner (ag t) = None /\ holder (ag t) = None) by (by destruct (ag t)). destruct E as [Eo Eh].
    apply inv_same; [done|by rewrite Eo|by rewrite Eh|done].
  - apply inv_same; [done|by rewrite Ev|by rewrite Ev|]. pose proof (all_ok r ag sent I t) as Hok. by rewrite Ev in Hok.
  - by eapply inv_act.
Qed.

Lemma sys_inv_init region r : p0 <= maximum_position -> initialize_at cfg region p0 = Ok r ->
  sys_inv (mk_sys r (fun _ => Idle) []).
Proof.
  intros Hm Hi. unfold initialize_at in Hi. inv_ok. pose proof N_pos as HNp.
  match goal with H : (p0 <=? maximum_position - _) = true |- _ => apply Z.leb_le in H as Hle end.
  assert (Hslot : forall i, 0 <= i < N -> seq_is (mk_ring p0 p0 (initial_slot cfg p0 <$> seq 0 (Z.to_nat N))) (p0 + (i - p0) mod N) reusable
    /\ (p0 + (i - p0) mod N) mod N = i).
  { intros i Hi. assert (Em : (p0 + (i - p0) mod N) mod N = i).
    { rewrite Zplus_mod_idemp_r. replace (p0 + (i - p0)) with i by lia. by apply Z.mod_small. }
    split; [|done]. exists (initial_slot cfg p0 (Z.to_nat i)). split.
    - unfold ShmRing.slot_at. cbn [slots]. rewrite slot_index_mod, Em, list_lookup_fmap, lookup_seq_lt by lia. done.
    - cbn [initial_slot sequence]. f_equal. fold (slot_index cfg (u64 (Z.of_nat (Z.to_nat i) - slot_index cfg p0))).
      rewrite !slot_index_mod, Z2Nat.id by lia. unfold u64. f_equal. rewrite Z.mod_mod_divide; [by rewrite Zminus_mod_idemp_r|].
      destruct HN as (k & Hk & E). exists (2 ^ (64 - k)). rewrite E. assert (maximum_position = 2 ^ 63 - 1) by done.
      assert (k < 63) by (apply (Z.pow_lt_mono_r_iff 2); lia). rewrite <- Z.pow_add_r by lia. f_equal. lia. }
  split; cbn [s_ring s_agents s_sent producer_position consumer_position slots]; try done.
  - rewrite length_fmap, length_seq. lia.
  - cbn. lia.
  - intros i Hi. destruct (Hslot i Hi) as [Hsq Hmd]. pose proof (Z.mod_pos_bound (i - p0) N HNp).
    exists (p0 + (i - p0) mod N), reusable. split; [done|]. split; [done|]. split; [lia|]. split; [lia|]. left. cbn. lia.
  - lia.
Qed.
End Invariant.

Section Deliveries.
Variable p0 : Z.
Definition dl_position (d : delivery) : Z := rs_position (dl_view d).
(** A delivery gives the message of its position as its sender passed it. *)
Definition delivers (sent : list post_args) (d : delivery) : Prop :=
  exists m, message_at p0 sent (dl_position d) m /\ dl_view d = view_of (dl_position d) m /\ dl_bytes d = pa_bytes m.
(** The deliveries to one consumer are in the order of the positions. *)
Definition in_order (ds : list delivery) : Prop :=
  forall i j d d', (i < j)%nat -> ds !! i = Some d -> ds !! j = Some d' -> dl_consumer d = dl_consumer d' -> dl_position d < dl_position d'.

Record dl_inv (s : sys) (ds : list delivery) : Prop := {
  di_range : forall d, d ∈ ds -> p0 <= dl_position d < consumer_position (s_ring s);
  di_once : NoDup (dl_position <$> ds);
  di_right : Forall (delivers (s_sent s)) ds;
  di_all : forall p, p0 <= p < consumer_position (s_ring s) -> p ∈ dl_position <$> ds \/ exists t, s_agents s t = CMeta p;
  di_fresh : forall t p d, s_agents s t = CMeta p -> d ∈ ds -> dl_position d <> p /\ (dl_consumer d = t -> dl_position d < p);
  di_order : in_order ds
}.

Lemma delivers_prefix sent sent' d : sent `prefix_of` sent' -> delivers sent d -> delivers sent' d.
Proof. intros Hs (m & Hm & H). exists m. split; [by eapply message_at_prefix|done]. Qed.
Lemma dl_inv_same r r' ag sent sent' t a' ds :
  consumer_position r' = consumer_position r -> sent `prefix_of` sent' -> (forall p, ag t <> CMeta p) -> (forall p, a' <> CMeta p) ->
  dl_inv (mk_sys r ag sent) ds -> dl_inv (mk_sys r' (<[t := a']> ag) sent') ds.
Proof.
  intros HC Hs Hn Hn' [D1 D2 D3 D4 D5 D6]. cbn [s_ring s_agents s_sent] in *.
  split; cbn [s_ring s_agents s_sent]; rewrite ?HC; try done.
  - eapply Forall_impl; [exact D3|]. intros d. by apply delivers_prefix.
  - intros p Hp. destruct (D4 p Hp) as [|(t' & Ht')]; [by left|right]. exists t'. rewrite agents_insert.
    destruct (decide (t' = t)) as [->|]; [by destruct (Hn p)|done].
  - intros t' p d. rewrite agents_insert. destruct (decide (t' = t)) as [->|]; [intros E; by destruct (Hn' p)|apply D5].
Qed.
(** What an access does to the positions of the consumers. *)
Lemma act_kinds weak a r a' r' : agent_step weak a r = Some (a', r') ->
  (consumer_position r' = consumer_position r /\ (forall p, a <> CMeta p) /\ (forall p, a' <> CMeta p))
  \/ (a' = CMeta (consumer_position r) /\ consumer_position r' = consumer_position r + 1 /\ forall p, a <> CMeta p)
  \/ (exists p, a = CMeta p /\ r' = r /\ exists v, a' = CView v /\ rs_position v = p) \/ (exists w, a' = Raised w).
Proof.
  intros H. destruct a as [| [|k] m|k m p|k m p q|k m p|m p|j m p|e|[|k]|k p|k p q|k p|p|v| |v|v| |w]; cbn [ShmRing.agent_step] in H; try done;
    try (apply bind_Some in H as (s & Hs & H)); simplify_eq; try (left; by split_and!).
  - left. by destruct (_ <=? _).
  - left. by destruct (_ =? _).
  - left. destruct (negb _); [done|]. by destruct (ShmRing.is_previous_generation _ _ _).
  - left. by destruct (_ && _); simplify_eq.
  - left. by destruct (_ =? _).
  - left. by destruct (_ <? _)%nat; simplify_eq.
  - left. by destruct (_ =? _).
  - left. destruct (negb _); [done|]. by destruct (_ || _).
  - destruct (Z.eqb_spec (consumer_position r) p) as [<-|]; destruct weak; cbn [andb negb] in H; simplify_eq; try (left; by split_and!).
    right. left. by split_and!.
  - destruct (_ || _); simplify_eq; [right; right; right; by eexists|]. right. right. left. exists p. split; [done|]. split; [done|]. by eexists.
  - left. by destruct (_ =? _).
  - left. unfold recycle. by destruct (_ <=? _).
Qed.
Lemma dl_inv_step s d s' ds : sys_inv p0 s -> sys_inv p0 s' -> sys_step s d s' -> dl_inv s ds -> dl_inv s' (ds ++ d).
Proof.
  intros I I' St D. destruct St as [r ag sent t m Hi Hv|r ag sent t Hi|r ag sent t v Ev|r ag sent t weak a' r' Hs].
  { rewrite app_nil_r. apply (dl_inv_same r _ _ sent); [done|done| | |done]; intros p E; [by rewrite E in Hi|]. by rewrite (post_send_valid m Hv) in E. }
  { rewrite app_nil_r. apply (dl_inv_same r _ _ sent); [done|done| | |done]; intros p E; [by rewrite E in Hi|done]. }
  { rewrite app_nil_r. apply (dl_inv_same r _ _ sent); [done|done| | |done]; intros p E; [by rewrite E in Ev|done]. }
  destruct (act_kinds _ _ _ _ _ Hs) as [(HC & Hn & Hn')|[(-> & HC & Hn)|[(p & Ea & -> & v & -> & Ep)|(w & ->)]]].
  - assert (gets t (ag t) a' r' = []) as ->.
    { unfold gets. destruct (ag t) eqn:Ea; try done. by destruct (Hn position). }
    rewrite app_nil_r. apply (dl_inv_same r _ _ sent); try done. by eexists.
  - assert (gets t (ag t) (CMeta (consumer_position r)) r' = []) as -> by (unfold gets; by destruct (ag t)).
    assert (wins (ag t) (CMeta (consumer_position r)) = []) as -> by (unfold wins; by destruct (ag t)). rewrite !app_nil_r.
    destruct D as [D1 D2 D3 D4 D5 D6]. cbn [s_ring s_agents s_sent] in *. split; cbn [s_ring s_agents s_sent]; rewrite ?HC; try done.
    + intros d Hd. specialize (D1 d Hd). lia.
    + intros p Hp. destruct (decide (p = consumer_position r)) as [->|]; [right; exists t; apply fn_lookup_insert|].
      destruct (D4 p ltac:(lia)) as [|(t' & Ht')]; [by left|right]. exists t'. rewrite agents_insert. destruct (decide (t' = t)) as [->|]; [by destruct (Hn p)|done].
    + intros t' p d. rewrite agents_insert. destruct (decide (t' = t)) as [->|]; [|apply D5]. intros [= <-] Hd. specialize (D1 d Hd). lia.
  - rewrite Ea. cbn [gets wins]. rewrite app_nil_r. destruct D as [D1 D2 D3 D4 D5 D6]. cbn [s_ring s_agents s_sent] in *.
    pose proof (iv_agents _ _ I t) as Hok. cbn [s_ring s_agents s_sent] in Hok. rewrite Ea in Hok. destruct Hok as [Hlt Hst].
    pose proof (iv_agents _ _ I' t) as Hok'. cbn [s_ring s_agents s_sent] in Hok'. rewrite fn_lookup_insert, Ea in Hok'. cbn [wins] in Hok'. rewrite app_nil_r in Hok'.
    destruct Hok' as (p' & m & -> & _ & Hm & _). cbn [view_of rs_position] in Ep. subst p'.
    set (d := mk_delivery _ _ _). assert (Ed : dl_position d = p) by done.
    split; cbn [s_ring s_agents s_sent].
    + intros d' [Hd|Hd%list_elem_of_singleton]%elem_of_app; [by apply D1|]. subst d'. rewrite Ed. destruct Hm. lia.
    + rewrite fmap_app. apply NoDup_app. split; [done|]. split; [|cbn; apply NoDup_singleton]. intros q (d' & -> & Hd)%list_elem_of_fmap Hq.
      cbn in Hq. apply list_elem_of_singleton in Hq. by destruct (D5 t p d' Ea Hd).
    + apply Forall_app. split; [done|]. apply Forall_singleton. exists m. rewrite Ed. split; [done|]. split; [done|].
      destruct Hst as (s & m' & Hs' & _ & [_ Hm'] & _ & _ & _ & _ & Hb). destruct Hm as [_ Hm]. rewrite Hm in Hm'. injection Hm' as <-.
      cbn [d dl_bytes]. unfold view_payload. cbn [view_of rs_position rs_size]. rewrite Hs'. cbn. by rewrite Hb.
    + intros q Hq. rewrite fmap_app, elem_of_app. destruct (decide (q = p)) as [->|Hne]; [left; right; rewrite list_fmap_singleton, Ed; by left|].
      destruct (D4 q Hq) as [|(t' & Ht')]; [by left; left|right]. exists t'. rewrite agents_insert.
      destruct (decide (t' = t)) as [->|]; [|done]. rewrite Ea in Ht'. by injection Ht'.
    + intros t' q d'. rewrite agents_insert. destruct (decide (t' = t)) as [->|Hne]; [done|]. intros Ht' [Hd|Hd%list_elem_of_singleton]%elem_of_app; [by apply D5|].
      subst d'. rewrite Ed. split; [|by intros <-]. intros ->. apply Hne, (iv_holder _ _ I t' t q); cbn [s_agents]; [by rewrite Ht'|by rewrite Ea].
    + intros i j d1 d2 Hij H1 H2 Hc. apply lookup_app_Some in H2 as [H2|[Hle H2]].
      * rewrite lookup_app_l in H1 by (apply lookup_lt_Some in H2; lia). by eapply D6.
      * apply list_lookup_singleton_Some in H2 as [Hj <-]. rewrite lookup_app_l in H1 by lia. rewrite Ed.
        apply (D5 t p d1 Ea); [by eapply list_elem_of_lookup_2|done].
  - pose proof (iv_agents _ _ I' t) as Hok'. cbn [s_ring s_agents s_sent] in Hok'. by rewrite fn_lookup_insert in Hok'.
Qed.
End Deliveries.

(** ** What an agent that is left alone achieves *)

Section Alone.
Context (p0 : Z) (s : sys).
Hypothesis I : sys_inv p0 s.
Hypothesis Hp0 : 0 <= p0.
Hypothesis HN : exists k, 0 <= k /\ N = 2 ^ k.
Hypothesis Hcap : max_payload_size cfg <= UINT32_MAX.
#[local] Abbreviation r := (s_ring s).
#[local] Abbreviation P := (producer_position r).
#[local] Abbreviation C := (consumer_position r).

Lemma run_alone_step n a r0 a' r' : agent_step false a r0 = Some (a', r') -> run_alone cfg (S n) a r0 = run_alone cfg n a' r'.
Proof. intros H. cbn [run_alone]. by rewrite H. Qed.
Lemma poll_alone : (0 < consumer_cas_attempts cfg)%nat -> C < P -> (forall t, owner (s_agents s t) <> Some C) ->
  exists m r', message_at p0 (s_sent s) C m /\ run_alone cfg 4 (poll cfg None) r = (CView (view_of C m), r').
Proof.
  intros Ha Hlt Ho. pose proof (iv_range _ _ I) as [? ?]. destruct s as [rg ag sent] eqn:Es. cbn [s_ring s_agents s_sent] in *.
  destruct (iv_live _ _ I (consumer_position rg) ltac:(cbn; lia)) as [st Hst]. cbn [s_ring] in Hst.
  destruct (slot_at_pos p0 Hp0 HN rg ag sent I (consumer_position rg) st ltac:(lia) Hst) as [_ Hok].
  destruct st; cbn in Hok.
  { destruct Hok as [?|(t & Ht)]; [lia|by destruct (Ho t)]. }
  destruct Hok as (_ & (sl & m & Hs & Hq & Hm & (V1 & V2 & V3) & H1 & H2 & H3 & _) & _).
  exists m, (mk_ring (producer_position rg) (consumer_position rg + 1) (slots rg)). split; [done|]. unfold poll.
  destruct (consumer_cas_attempts cfg) as [|k]; [lia|]. cbn [run_alone ShmRing.agent_step]. rewrite Hs. cbn [mbind option_bind].
  rewrite Hq, Z.eqb_refl. cbn [run_alone ShmRing.agent_step]. rewrite Z.eqb_refl. cbn [andb negb run_alone ShmRing.agent_step].
  change (ShmRing.slot_at cfg (mk_ring _ _ (slots rg)) (consumer_position rg)) with (slot_at rg (consumer_position rg)). rewrite Hs. cbn [mbind option_bind].
  rewrite H1, H2, H3, (proj2 (Z.ltb_ge _ _)), (proj2 (Z.ltb_ge _ _)) by lia. done.
Qed.

(** The slot of the next position is free. *)
Lemma room_slot : P < maximum_position -> P - C < N -> (forall t, holder (s_agents s t) <> Some (P - N)) -> seq_is r P reusable.
Proof.
  intros Hm Hroom Hh. pose proof (iv_range _ _ I) as [? ?]. pose proof (N_pos HN) as HNp. destruct s as [rg ag sent] eqn:Es. cbn [s_ring s_agents s_sent] in *.
  destruct (iv_slot _ _ I (producer_position rg mod N)) as (q & st & Hs & Em & Hr & Hb & Hok); [by apply Z.mod_pos_bound|]. cbn [s_ring s_agents s_sent] in *.
  destruct (window HN (producer_position rg) q Em Hb) as [->| ->]; destruct st; cbn in Hok; [done|lia| |].
  - destruct Hok as [?|(t & Ht)]; [lia|]. apply (owner_ok p0 rg ag sent I) in Ht. lia.
  - destruct Hok as (_ & _ & [?|[(t & Ht)|?]]); [lia|by destruct (Hh t)|lia].
Qed.
Lemma post_alone m : (0 < producer_cas_attempts cfg)%nat -> valid_post m -> P < maximum_position -> P - C < N ->
  (forall t, holder (s_agents s t) <> Some (P - N)) ->
  exists r', run_alone cfg 9 (post_send cfg m) r = (PReturn ec_done, r') /\ producer_position r' = P + 1 /\ stored p0 (s_sent s ++ [m]) r' P.
Proof.
  intros Ha Hv Hm Hroom Hh. pose proof (iv_range _ _ I) as [Hr1 Hr2]. pose proof (iv_sent _ _ I) as Hl.
  destruct (room_slot Hm Hroom Hh) as (sl & Hs & Hq). rewrite (post_send_valid m Hv).
  destruct (producer_cas_attempts cfg) as [|k]; [lia|]. set (rg := r) in *. set (p := producer_position rg) in *.
  assert (Hset : forall r0 x, slot_at r0 p <> None -> slot_at (set_slot cfg p x r0) p = Some x).
  { intros r0 x Hx. destruct (slot_at r0 p) as [y|] eqn:Ey; [by eapply slot_at_this|done]. }
  assert (Hw : forall n f x r0, slot_at r0 p = Some x -> (f < 4)%nat ->
    run_alone cfg (S n) (PWrite f m p) r0 = run_alone cfg n (PWrite (S f) m p) (set_slot cfg p (write_field f m x) r0)).
  { intros n f x r0 Hx Hf. apply run_alone_step. cbn [ShmRing.agent_step]. rewrite Hx. cbn [mbind option_bind]. by rewrite (proj2 (Nat.ltb_lt _ _) Hf). }
  set (r1 := mk_ring (p + 1) (consumer_position rg) (slots rg)). assert (H1 : slot_at r1 p = Some sl) by exact Hs.
  rewrite (run_alone_step 8 _ rg (PSeq k m p) rg) by (cbn [ShmRing.agent_step]; by rewrite (proj2 (Z.leb_gt _ _)) by lia).
  rewrite (run_alone_step 7 _ rg (PCas k m p) rg) by (cbn [ShmRing.agent_step]; rewrite Hs; cbn [mbind option_bind]; by rewrite Hq, Z.eqb_refl).
  rewrite (run_alone_step 6 _ rg (PCheck m p) r1) by (cbn [ShmRing.agent_step]; fold p; by rewrite Z.eqb_refl).
  rewrite (run_alone_step 5 _ r1 (PWrite 0 m p) r1) by (cbn [ShmRing.agent_step]; rewrite H1; cbn [mbind option_bind]; by rewrite Hq, Z.eqb_refl).
  pose proof Hv as (V1 & V2 & V3).
  set (s1 := write_field 0 m sl). set (s2 := write_field 1 m s1). set (s3 := write_field 2 m s2). set (s4 := write_field 3 m s3).
  set (r5 := set_slot cfg p s4 (set_slot cfg p s3 (set_slot cfg p s2 (set_slot cfg p s1 r1)))).
  assert (E1 : slot_at (set_slot cfg p s1 r1) p = Some s1) by (apply Hset; by rewrite H1).
  assert (E2 : slot_at (set_slot cfg p s2 (set_slot cfg p s1 r1)) p = Some s2) by (apply Hset; by rewrite E1).
  assert (E3 : slot_at (set_slot cfg p s3 (set_slot cfg p s2 (set_slot cfg p s1 r1))) p = Some s3) by (apply Hset; by rewrite E2).
  assert (H5 : slot_at r5 p = Some s4) by (apply Hset; by rewrite E3).
  exists (set_slot cfg p (set_sequence (encode_sequence p published) s4) r5).
  split; [|split; [done|]].
  - rewrite (Hw 4%nat 0%nat sl), (Hw 3%nat 1%nat s1), (Hw 2%nat 2%nat s2), (Hw 1%nat 3%nat s3) by (done || lia).
    fold r5. rewrite (run_alone_step 0 _ r5 (PReturn ec_done) (set_slot cfg p (set_sequence (encode_sequence p published) s4) r5)); [done|].
    cbn [ShmRing.agent_step]. by rewrite H5.
  - exists (set_sequence (encode_sequence p published) s4), m. split; [apply Hset; by rewrite H5|]. split; [done|]. split.
    + split; [lia|]. rewrite lookup_app_r by lia. by replace (Z.to_nat (p - p0) - length (s_sent s))%nat with 0%nat by lia.
    + split; [done|]. unfold holds. cbn [s1 s2 s3 s4 set_sequence write_field payload_size imm_data source_global_rank payload].
      split_and!; [unfold u32; apply Z.mod_small; unfold UINT32_MAX in Hcap; lia|done|done|].
      rewrite take_app_length'; [done|]. unfold pa_bytes. rewrite length_take. lia.
Qed.
End Alone.

Lemma sys_inv_init_run region p0 r s ds :
  is_u64 N -> is_u64 (slot_size cfg) -> 0 <= p0 -> initialize_at cfg region p0 = Ok r ->
  sys_run (mk_sys r (fun _ => Idle) []) ds s ->
  (exists k, 0 <= k /\ N = 2 ^ k) /\ max_payload_size cfg <= UINT32_MAX /\ sys_inv p0 s /\ dl_inv p0 s ds.
Proof.
  intros Hc Hs Hp Hi R.
  assert (required_size N (slot_size cfg) <> 0 /\ p0 <= maximum_position /\ consumer_position r = p0) as (Hr & Hle & HC).
  { clear R. unfold initialize_at in Hi. inv_ok. split_and!; [by apply Z.eqb_neq, negb_true_iff|by apply Z.leb_le|done]. }
  destruct (required_size_inv _ _ Hc Hs Hr) as (HN & Hmax & Hsz & _ & Hcap & _).
  assert (Hcap' : max_payload_size cfg <= UINT32_MAX).
  { unfold max_payload_size, payload_capacity. rewrite (proj2 (Z.leb_le _ _)) by done. done. }
  split; [done|]. split; [done|]. remember (mk_sys r (fun _ => Idle) []) as s0 eqn:E0. induction R as [s|s ds s1 d s2 R IH St]; subst s.
  - split; [by eapply sys_inv_init|].
    split; cbn [s_ring s_agents s_sent]; try done.
    + by intros d ?%elem_of_nil.
    + constructor.
    + lia.
  - destruct (IH eq_refl) as [I1 D1]. assert (sys_inv p0 s2) as I2 by (by eapply sys_inv_step). split; [done|]. exact (dl_inv_step p0 s1 d s2 ds I1 I2 St D1).
Qed.

(** Deliveries to a single consumer. *)
Lemma increasing_range (l : list Z) : forall a n, (forall i j x y, (i < j)%nat -> l !! i = Some x -> l !! j = Some y -> x < y) ->
  (forall x, x ∈ l <-> a <= x < a + Z.of_nat n) -> l = (fun i => a + Z.of_nat i) <$> seq 0 n.
Proof.
  induction l as [|y l IH]; intros a n Hs He.
  - destruct n as [|n]; [done|]. exfalso. apply (not_elem_of_nil a), He. lia.
  - assert (Hmin : forall x, x ∈ l -> y < x) by (intros x [i Hi]%list_elem_of_lookup; apply (Hs 0%nat (S i)); [lia|done|done]).
    assert (y = a) as ->.
    { assert (a <= y < a + Z.of_nat n) as Hy by (apply He; by left). assert (a ∈ y :: l) as [->|Ha]%elem_of_cons by (apply He; lia); [done|]. specialize (Hmin a Ha). lia. }
    destruct n as [|n]; [exfalso; assert (a <= a < a + 0) by (apply He; by left); lia|].
    rewrite (IH (a + 1) n).
    + cbn [seq fmap list_fmap]. rewrite Z.add_0_r. f_equal. rewrite <- fmap_S_seq, <- list_fmap_compose. apply list_fmap_ext. intros i k _. cbn. lia.
    + intros i j x z Hij Hx Hz. apply (Hs (S i) (S j)); [lia|done|done].
    + intros x. split.
      * intros Hx. specialize (Hmin x Hx). assert (a <= x < a + Z.of_nat (S n)) by (apply He; by right). lia.
      * intros Hx. assert (x ∈ a :: l) as [->|?]%elem_of_cons by (apply He; lia); [lia|done].
Qed.
Lemma one_consumer p0 s ds c : sys_inv p0 s -> dl_inv p0 s ds ->
  (forall d, d ∈ ds -> dl_consumer d = c) -> (forall t p, s_agents s t <> CMeta p) ->
  exists k, ds = imap (fun i m => mk_delivery c (view_of (p0 + Z.of_nat i) m) (pa_bytes m)) (take k (s_sent s))
    /\ consumer_position (s_ring s) = p0 + Z.of_nat k.
Proof.
  intros I [D1 D2 D3 D4 D5 D6] Hc Hn. pose proof (iv_range _ _ I) as [? ?]. pose proof (iv_sent _ _ I) as Hl.
  exists (Z.to_nat (consumer_position (s_ring s) - p0)). split; [|lia]. set (n := Z.to_nat _).
  assert (E : dl_position <$> ds = (fun i => p0 + Z.of_nat i) <$> seq 0 n).
  { apply increasing_range.
    - intros i j x y Hij (d & -> & Hx)%list_lookup_fmap_Some (d' & -> & Hy)%list_lookup_fmap_Some. apply (D6 i j); [done..|].
      rewrite !Hc; [done| |]; by eapply list_elem_of_lookup_2.
    - intros x. split; [intros (d & -> & Hd)%list_elem_of_fmap; specialize (D1 d Hd); lia|]. intros Hx.
      destruct (D4 x ltac:(lia)) as [|(t & Ht)]; [done|by destruct (Hn t x)]. }
  assert (Hlen : length ds = n) by (apply (f_equal length) in E; by rewrite !length_fmap, length_seq in E).
  apply list_eq. intros i. rewrite list_lookup_imap. destruct (ds !! i) as [d|] eqn:Ed.
  - assert (Hi : (i < n)%nat) by (rewrite <- Hlen; by eapply lookup_lt_Some). rewrite lookup_take_lt by done.
    assert (Ep : dl_position d = p0 + Z.of_nat i).
    { apply (f_equal (fun l => l !! i)) in E. rewrite !list_lookup_fmap, Ed, lookup_seq_lt in E by done. by injection E. }
    rewrite Forall_lookup in D3. destruct (D3 i d Ed) as (m & [_ Hm] & Hv & Hb). rewrite Ep in Hm, Hv.
    replace (Z.to_nat (p0 + Z.of_nat i - p0)) with i in Hm by lia. rewrite Hm. cbn. f_equal.
    rewrite <- Hv, <- Hb, <- (Hc d) by (by eapply list_elem_of_lookup_2). by destruct d.
  - rewrite lookup_take_ge; [done|]. apply lookup_ge_None in Ed. lia.
Qed.
End Runs.

(** C9: the ring delivers every message once and in order, for any number of producers
    and consumers in any interleaving. Nothing is ever found corrupted, and a send of
    valid arguments fails for good only when the positions are used up. The views that
    polls have returned hold, each, the sender's rank, size, immediate data and bytes of
    the message that won the position; no position is delivered twice, and every
    position that a consumer has won was delivered or is about to be, by the consumer
    that won it; a consumer gets positions in increasing order, so that a single
    consumer gets exactly the first messages, in order. A view keeps its message until
    it is released. A poll that is left alone returns the next message as soon as that
    one is published, and a send that is left alone succeeds as soon as its slot is
    free. *)
Theorem ring_fifo cfg region p0 r s ds :
  is_u64 (slot_count cfg) -> is_u64 (slot_size cfg) -> 0 <= p0 -> initialize_at cfg region p0 = Ok r ->
  sys_run cfg (mk_sys r (fun _ => Idle) []) ds s ->
  (forall t w, s_agents s t <> Raised w)
  /\ (forall t, s_agents s t = PReturn ec_fatal -> producer_position (s_ring s) = maximum_position)
  /\ Z.of_nat (length (s_sent s)) = producer_position (s_ring s) - p0
  /\ Forall (delivers p0 (s_sent s)) ds /\ NoDup (dl_position <$> ds) /\ in_order ds
  /\ (forall p, p0 <= p < consumer_position (s_ring s) -> p ∈ dl_position <$> ds \/ exists t, s_agents s t = CMeta p)
  /\ (forall c, (forall d, d ∈ ds -> dl_consumer d = c) -> (forall t p, s_agents s t <> CMeta p) ->
        exists k, ds = imap (fun i m => mk_delivery c (view_of (p0 + Z.of_nat i) m) (pa_bytes m)) (take k (s_sent s))
          /\ consumer_position (s_ring s) = p0 + Z.of_nat k)
  /\ (forall t v, s_agents s t = CView v -> exists m,
        message_at p0 (s_sent s) (rs_position v) m /\ v = view_of (rs_position v) m /\ view_payload cfg v (s_ring s) = Some (pa_bytes m))
  /\ ((0 < consumer_cas_attempts cfg)%nat -> consumer_position (s_ring s) < producer_position (s_ring s) ->
      (forall t, owner (s_agents s t) <> Some (consumer_position (s_ring s))) ->
      exists m r', message_at p0 (s_sent s) (consumer_position (s_ring s)) m
        /\ run_alone cfg 4 (poll cfg None) (s_ring s) = (CView (view_of (consumer_position (s_ring s)) m), r'))
  /\ (forall m, (0 < producer_cas_attempts cfg)%nat -> valid_post cfg m -> producer_position (s_ring s) < maximum_position ->
      producer_position (s_ring s) - consumer_position (s_ring s) < slot_count cfg ->
      (forall t, holder (s_agents s t) <> Some (producer_position (s_ring s) - slot_count cfg)) ->
      exists r', run_alone cfg 9 (post_send cfg m) (s_ring s) = (PReturn ec_done, r')
        /\ producer_position r' = producer_position (s_ring s) + 1 /\ stored cfg p0 (s_sent s ++ [m]) r' (producer_position (s_ring s))).
Proof.
  intros Hc Hs Hp Hi R. destruct (sys_inv_init_run cfg region p0 r s ds Hc Hs Hp Hi R) as (HN & Hcap & I & D). split_and!.
  - intros t w E. pose proof (iv_agents _ _ _ I t) as Hok. by rewrite E in Hok.
  - intros t E. pose proof (iv_agents _ _ _ I t) as Hok. rewrite E in Hok. by apply Hok.
  - apply (iv_sent _ _ _ I).
  - apply D.
  - apply D.
  - apply D.
  - apply D.
  - intros c. by apply (one_consumer cfg).
  - intros t v E. pose proof (iv_agents _ _ _ I t) as Hok. rewrite E in Hok.
    destruct Hok as (p & m & -> & Hlt & Hm & s' & m' & Hs' & _ & Hm' & _ & _ & _ & _ & Hb). exists m. cbn [view_of rs_position].
    split; [done|]. split; [done|]. unfold view_payload. cbn [view_of rs_position rs_size]. rewrite Hs'. cbn.
    destruct Hm as [_ Hm], Hm' as [_ Hm']. rewrite Hm in Hm'. injection Hm' as <-. by rewrite Hb.
  - by apply poll_alone.
  - intros m. by apply post_alone.
Qed.

(** A step of agent [t], computed. *)
Definition act_fn (cfg : ring_config) (t : nat) (x : sys * list delivery) : option (sys * list delivery) :=
  let '(s, ds) := x in
  '(a', r') ← agent_step cfg false (s_agents s t) (s_ring s) ;
  Some (mk_sys r' (<[t := a']> (s_agents s)) (s_sent s ++ wins (s_agents s t) a'), ds ++ gets cfg t (s_agents s t) a' r').
Fixpoint act_all (cfg : ring_config) (n t : nat) (x : sys * list delivery) : sys * list delivery :=
  match n with
  | O => x
  | S n => match act_fn cfg t x with Some x => act_all cfg n t x | None => x end
  end.
Lemma act_all_run cfg n t s0 x : sys_run cfg s0 x.2 x.1 -> sys_run cfg s0 (act_all cfg n t x).2 (act_all cfg n t x).1.
Proof.
  revert x. induction n as [|n IH]; intros [s ds] R; [done|]. cbn [act_all]. destruct (act_fn cfg t (s, ds)) as [x'|] eqn:E; [|done]. apply IH.
  unfold act_fn in E. apply bind_Some in E as ([a' r'] & H & [= <-]). cbn [fst snd] in *. eapply run_step; [exact R|]. destruct s as [r ag sent]. by eapply sys_act.
Qed.
Lemma ring_fifo_witness :
  let cfg := mk_ring_config 2 64 2 1 in
  exists r s, initialize_at cfg 4096 5 = Ok r /\ sys_run cfg (mk_sys r (fun _ => Idle) []) [mk_delivery 1 (mk_recv_slot 3 77 3 5) [7; 8; 9]] s.
Proof.
  set (cfg := mk_ring_config 2 64 2 1). set (m := mk_post 3 (Some [7; 8; 9]) 3 77).
  destruct (initialize_at cfg 4096 5) as [r|] eqn:Er; [|by vm_compute in Er].
  set (x0 := (mk_sys r (<[0%nat := post_send cfg m]> (fun _ => Idle)) [], [] : list delivery)).
  set (x1 := act_all cfg 20 0 x0).
  set (x2 := act_all cfg 20 1 (mk_sys (s_ring x1.1) (<[1%nat := poll cfg None]> (s_agents x1.1)) (s_sent x1.1), x1.2 ++ [])).
  assert (R : sys_run cfg (mk_sys r (fun _ => Idle) []) x2.2 x2.1).
  { apply act_all_run. cbn [fst snd]. apply (run_step cfg _ x1.2 x1.1).
    - apply act_all_run. apply (run_step cfg _ [] (mk_sys r (fun _ => Idle) []) []); [apply run_none|].
      apply (sys_post cfg r (fun _ => Idle) [] 0 m); [reflexivity|]. unfold valid_post. vm_compute. split_and!; discriminate.
    - assert (Hi : idle (s_agents x1.1 1) = true) by (unfold x1, x0; vm_compute in Er; injection Er as <-; vm_compute; reflexivity).
      destruct x1.1 as [r1 ag1 sent1]. apply (sys_poll cfg r1 ag1 sent1 1). exact Hi. }
  destruct (ring_fifo cfg 4096 5 r x2.1 x2.2) as (_ & _ & _ & _ & _ & _ & _ & Hone & _);
    [unfold is_u64; cbn; lia|unfold is_u64; cbn; lia|lia|exact Er|exact R|].
  exists r, x2.1. split; [exact Er|]. vm_compute in Er. injection Er as <-.
  destruct (Hone 1%nat) as (k & E & HC).
  - intros d Hd. assert (E2 : x2.2 = [mk_delivery 1 (mk_recv_slot 3 77 3 5) [7; 8; 9]]) by (vm_compute; reflexivity).
    rewrite E2 in Hd. apply list_elem_of_singleton in Hd as ->. reflexivity.
  - intros [|[|t]] p; vm_compute; discriminate.
  - assert (E2 : x2.2 = [mk_delivery 1 (mk_recv_slot 3 77 3 5) [7; 8; 9]]) by (vm_compute; reflexivity). rewrite <- E2. exact R.
Defined.
