(* ===== verification/ShmPosix.v ===== *)
(** * The mapping of a ring

    src/src/shm/posix_ring.hpp and posix_ring.cpp: the name of a ring's POSIX
    object, the handle that tells a peer about it, and the owner's and the peers'
    mappings. Characters are their codes. *)
From stdpp Require Import base numbers functions list gmap strings.
From Stdlib Require Import ZArith Lia.
From S2P Require Import Prelude Status ShmRing.

Definition posix_ring_handle_version : Z := 1.
Definition posix_ring_portable_name_max : Z := 30.
Definition posix_ring_name_capacity : Z := posix_ring_portable_name_max + 1.

(** ** Names *)

Definition base36_digit (d : Z) : Z := if d <? 10 then 48 + d else 87 + d.
Definition base32hex_digit (d : Z) : Z := if d <? 10 then 48 + d else 87 + d.

Definition mix64 (value : Z) : Z :=
  let value := Z.lxor value (Z.shiftr value 30) in
  let value := u64 (value * 0xbf58476d1ce4e5b9) in
  let value := Z.lxor value (Z.shiftr value 27) in
  let value := u64 (value * 0x94d049bb133111eb) in
  Z.lxor value (Z.shiftr value 31).
Definition mix_into (state value : Z) : Z :=
  mix64 (Z.lxor state (u64 (value + 0x9e3779b97f4a7c15 + u64 (Z.shiftl state 6) + Z.shiftr state 2))).

(** The digits are produced last first and reversed. *)
Fixpoint base36_digits_rev (fuel : nat) (value : Z) : result (list Z) :=
  match fuel with
  | O => Err OutOfFuel
  | S fuel =>
      let d := base36_digit (value mod 36) in
      let value := value / 36 in
      if value =? 0 then Ok [d] else l ← base36_digits_rev fuel value ; Ok (d :: l)
  end.
Definition encode_base36 (value : Z) : result (list Z) :=
  l ← base36_digits_rev 7 value ; Ok (rev l).

Definition digest_bytes (high64 low16 : Z) : list Z :=
  ((fun i => Z.shiftr high64 ((7 - Z.of_nat i) * 8) mod 256) <$> seq 0 8)
  ++ [Z.shiftr low16 8 mod 256; low16 mod 256].
Definition digest_value (bytes : list Z) (i : nat) : Z :=
  foldl (fun value bit =>
    let source_bit := (i * 5 + bit)%nat in
    let byte_index := (source_bit / 8)%nat in
    let bit_index := 7 - Z.of_nat (source_bit mod 8) in
    Z.lor (Z.shiftl value 1) (Z.land (Z.shiftr (default 0 (bytes !! byte_index)) bit_index) 1) mod 256)
    0 (seq 0 5).
Definition encode_base32hex_80 (high64 low16 : Z) : list Z :=
  (fun i => base32hex_digit (digest_value (digest_bytes high64 low16) i)) <$> seq 0 16.

(** ["/lci-"] *)
Definition name_prefix : list Z := [47; 108; 99; 105; 45].
Definition make_posix_ring_name (job_nonce : Z * Z) (device_uid owner_global_rank : Z) : result (list Z) :=
  let rank := if owner_global_rank <? 0 then 0 else owner_global_rank in
  let h0 := mix_into 0x6c63692d73686d30 job_nonce.1 in
  let h0 := mix_into h0 job_nonce.2 in
  let h0 := mix_into h0 device_uid in
  let h0 := mix_into h0 rank in
  let h1 := mix_into 0x6c63692d73686d31 device_uid in
  let h1 := mix_into h1 rank in
  let h1 := mix_into h1 job_nonce.2 in
  let h1 := mix_into h1 job_nonce.1 in
  r ← encode_base36 rank ;
  Ok (name_prefix ++ r ++ [45] ++ encode_base32hex_80 h0 (Z.shiftr h1 48 mod 2 ^ 16)).

(** [memchr] of the terminator, and the C string before it. *)
Definition find_nul (chars : list Z) : option nat := fst <$> list_find (fun c => c = 0) chars.
Definition c_string (chars : list Z) : list Z := match find_nul chars with Some n => take n chars | None => chars end.

(** [name] is the array of [capacity] characters. *)
Definition valid_object_name (name : list Z) : bool :=
  match find_nul name with
  | None => false
  | Some size =>
      negb ((size <? 2)%nat || negb (default 0 (name !! 0%nat) =? 47))
      && negb (existsb (fun c => c =? 47) (take (size - 1) (drop 1 name)))
      && forallb (fun c => c =? 0) (drop (S size) name)
  end.

(** ** Handles *)

Record posix_ring_handle_t : Type := mk_handle {
  h_version : Z; h_owner_global_rank : Z; h_device_uid : Z; h_mapping_size : Z;
  h_slot_count : Z; h_slot_size : Z; h_max_message_size : Z;
  h_name : list Z
}.
Record posix_ring_expected_t : Type := mk_expected {
  e_owner_global_rank : Z; e_device_uid : Z; e_mapping_size : Z;
  e_slot_count : Z; e_slot_size : Z; e_max_message_size : Z;
  e_name : list Z
}.

Section Posix.
(** What [sysconf(_SC_PAGESIZE)] returns. *)
Variable page_size : Z.

Definition posix_ring_mapping_size (slot_count slot_size : Z) : Z :=
  let required := required_size slot_count slot_size in
  if required =? 0 then 0
  else if page_size <=? 0 then 0
  else if SIZE_MAX - (page_size - 1) <? required then 0
  else (required + page_size - 1) / page_size * page_size.

(** The first complaint, if there is one. *)
Definition valid_expected (e : posix_ring_expected_t) : option string :=
  if (e_owner_global_rank e <? 0) || (e_device_uid e =? 0)
  then Some "invalid expected POSIX ring owner or device UID"%string
  else if (posix_ring_name_capacity <=? Z.of_nat (length (e_name e)))
          || existsb (fun c => c =? 0) (e_name e)
          || negb (valid_object_name (e_name e ++ [0]))
  then Some "invalid expected POSIX shared-memory object name"%string
  else
    let mapping_size := posix_ring_mapping_size (e_slot_count e) (e_slot_size e) in
    if (mapping_size =? 0) || negb (e_mapping_size e =? mapping_size)
       || (payload_capacity (e_slot_size e) <? e_max_message_size e)
    then Some "invalid expected POSIX ring geometry"%string
    else None.
Definition validate_handle (h : posix_ring_handle_t) : option string :=
  if negb (h_version h =? posix_ring_handle_version) then Some "unsupported POSIX ring handle version"%string
  else if (h_owner_global_rank h <? 0) || (h_device_uid h =? 0)
  then Some "invalid POSIX ring owner or device UID"%string
  else if negb (valid_object_name (h_name h)) then Some "invalid POSIX shared-memory object name"%string
  else
    let mapping_size := posix_ring_mapping_size (h_slot_count h) (h_slot_size h) in
    if (mapping_size =? 0) || negb (h_mapping_size h =? mapping_size)
       || (payload_capacity (h_slot_size h) <? h_max_message_size h)
    then Some "inconsistent POSIX ring geometry or mapping size"%string
    else None.
Definition validate_posix_ring_handle (h : posix_ring_handle_t) (e : posix_ring_expected_t) : option string :=
  match valid_expected e with
  | Some error => Some error
  | None =>
      match validate_handle h with
      | Some error => Some error
      | None =>
          if negb (h_owner_global_rank h =? e_owner_global_rank e)
             || negb (h_device_uid h =? e_device_uid e)
             || negb (h_mapping_size h =? e_mapping_size e)
             || negb (h_slot_count h =? e_slot_count e)
             || negb (h_slot_size h =? e_slot_size e)
             || negb (h_max_message_size h =? e_max_message_size e)
             || negb (bool_decide (e_name e = c_string (h_name h)))
          then Some "received POSIX ring handle does not match expected identity and geometry"%string
          else None
      end
  end.

(** ** The operating system

    Objects with their size and ring, the names linked to them, the open file
    descriptors and the mappings. [calls] says which system calls of an operation
    succeed; a [close] that fails has released the descriptor, as on Linux. *)
Record shm_object : Type := mk_object { ob_size : Z; ob_ring : ring_t }.
Record os : Type := mk_os {
  os_linked : list (list Z * nat);
  os_objects : list shm_object;
  os_fds : list nat;
  os_maps : list nat
}.
Record calls : Type := mk_calls {
  open_ok : bool; truncate_ok : bool; stat_ok : bool; mmap_ok : bool; close_ok : bool; munmap_ok : bool; unlink_ok : bool;
  (** Where a mapping is placed. *)
  map_address : Z
}.

Definition name_linked (name : list Z) (o : os) : option nat :=
  snd <$> (snd <$> list_find (fun e => e.1 = name) (os_linked o)).
Definition unlink (name : list Z) (o : os) : os :=
  mk_os (filter (fun e => e.1 <> name) (os_linked o)) (os_objects o) (os_fds o) (os_maps o).
Fixpoint remove_one (x : nat) (l : list nat) : list nat :=
  match l with [] => [] | y :: l => if (x =? y)%nat then l else y :: remove_one x l end.
Definition close_fd (ob : nat) (o : os) : os :=
  mk_os (os_linked o) (os_objects o) (remove_one ob (os_fds o)) (os_maps o).
Definition munmap (ob : nat) (o : os) : os :=
  mk_os (os_linked o) (os_objects o) (os_fds o) (remove_one ob (os_maps o)).
Definition map_object (ob : nat) (o : os) : os :=
  mk_os (os_linked o) (os_objects o) (os_fds o) (ob :: os_maps o).
Definition set_object (ob : nat) (x : shm_object) (o : os) : os :=
  mk_os (os_linked o) (<[ob := x]> (os_objects o)) (os_fds o) (os_maps o).

(** The calls whose result the code ignores. *)
Definition sys_munmap (c : calls) (ob : nat) (o : os) : os := if munmap_ok c then munmap ob o else o.
Definition sys_unlink (c : calls) (name : list Z) (o : os) : os := if unlink_ok c then unlink name o else o.

(** [shm_open(name, O_CREAT | O_EXCL | O_RDWR)] *)
Definition open_new (c : calls) (name : list Z) (o : os) : option (nat * os) :=
  if negb (open_ok c) || bool_decide (is_Some (name_linked name o)) then None
  else let ob := length (os_objects o) in
       Some (ob, mk_os ((name, ob) :: os_linked o) (os_objects o ++ [mk_object 0 (mk_ring 0 0 [])])
                  (ob :: os_fds o) (os_maps o)).
(** [shm_open(name, O_RDWR)] *)
Definition open_existing (c : calls) (name : list Z) (o : os) : option (nat * os) :=
  if negb (open_ok c) then None
  else ob ← name_linked name o ;
       Some (ob, mk_os (os_linked o) (os_objects o) (ob :: os_fds o) (os_maps o)).

(** ** Mappings *)

Record mapping_t : Type := mk_mapping {
  mp_object : nat;
  mp_region_size : Z;
  mp_handle : posix_ring_handle_t;
  mp_attempts : nat * nat;
  name_is_linked : bool
}.
Definition handle_cfg (h : posix_ring_handle_t) (attempts : nat * nat) : ring_config :=
  mk_ring_config (h_slot_count h) (h_slot_size h) attempts.1 attempts.2.

(** The handle that [create] fills in; its name array starts zeroed. *)
Definition new_handle (name : list Z) (owner_global_rank device_uid slot_count slot_size max_message_size : Z) :
    posix_ring_handle_t :=
  mk_handle posix_ring_handle_version owner_global_rank device_uid (posix_ring_mapping_size slot_count slot_size)
    slot_count slot_size max_message_size
    (name ++ replicate (Z.to_nat posix_ring_name_capacity - length name) 0).
Definition OFF_T_MAX : Z := 2 ^ 63 - 1.

(** [None] stands for a null pointer and an error message. *)
Definition owner_create (c : calls) (name : list Z)
    (owner_global_rank device_uid slot_count slot_size max_message_size : Z) (attempts : nat * nat) :
    ST os (option mapping_t) := fun o =>
  if (posix_ring_name_capacity <=? Z.of_nat (length name)) || existsb (fun ch => ch =? 0) name then Ok (None, o)
  else
    let handle := new_handle name owner_global_rank device_uid slot_count slot_size max_message_size in
    if bool_decide (is_Some (validate_handle handle)) || (OFF_T_MAX <? h_mapping_size handle) then Ok (None, o)
    else match open_new c name o with
    | None => Ok (None, o)
    | Some (ob, o) =>
        let mapped := truncate_ok c && mmap_ok c in
        let o := if truncate_ok c then set_object ob (mk_object (h_mapping_size handle) (mk_ring 0 0 [])) o else o in
        let o := if mapped then map_object ob o else o in
        let o := close_fd ob o in
        if negb mapped then Ok (None, sys_unlink c name o)
        else if negb (close_ok c) then Ok (None, sys_unlink c name (sys_munmap c ob o))
        else
          let cfg := handle_cfg handle attempts in
          ring ← initialize cfg (map_address c) ;
          let o := set_object ob (mk_object (h_mapping_size handle) ring) o in
          ring_new cfg (map_address c) ;;
          LCI_Assert (is_consistent_empty cfg ring) "New POSIX ring mapping is not empty" ;;
          Ok (Some (mk_mapping ob (h_mapping_size handle) handle attempts true), o)
    end.

(** The destructors. *)
Definition owner_delete (c : calls) (m : mapping_t) (o : os) : os :=
  let o := sys_munmap c (mp_object m) o in
  if name_is_linked m then sys_unlink c (c_string (h_name (mp_handle m))) o else o.
Definition peer_delete (c : calls) (m : mapping_t) (o : os) : os := sys_munmap c (mp_object m) o.

(** [shm_unlink] succeeds or finds no such name; [fails] is any other error. *)
Definition unlink_name (fails : bool) (m : mapping_t) (o : os) : bool * mapping_t * os :=
  if negb (name_is_linked m) then (true, m, o)
  else if fails then (false, m, o)
  else (true, mk_mapping (mp_object m) (mp_region_size m) (mp_handle m) (mp_attempts m) false,
        unlink (c_string (h_name (mp_handle m))) o).

Definition peer_attach (c : calls) (h : posix_ring_handle_t) (e : posix_ring_expected_t) (attempts : nat * nat) :
    ST os (option mapping_t) := fun o =>
  if bool_decide (is_Some (validate_posix_ring_handle h e)) then Ok (None, o)
  else match open_existing c (c_string (h_name h)) o with
  | None => Ok (None, o)
  | Some (ob, o) =>
      if negb (stat_ok c) then Ok (None, close_fd ob o)
      else match os_objects o !! ob with
      | None => Err (Undefined "no such object")
      | Some x =>
          if negb (ob_size x =? h_mapping_size h) then Ok (None, close_fd ob o)
          else if negb (mmap_ok c) then Ok (None, close_fd ob o)
          else
            let o := close_fd ob (map_object ob o) in
            if negb (close_ok c) then Ok (None, sys_munmap c ob o)
            else
              let cfg := handle_cfg h attempts in
              ring_new cfg (map_address c) ;;
              let m := mk_mapping ob (h_mapping_size h) h attempts false in
              if is_consistent_empty cfg (ob_ring x) then Ok (Some m, o)
              else Ok (None, peer_delete c m o)
      end
  end.
End Posix.

(** ** Names fit and differ *)

(** A digit or a lower-case letter. *)
Definition is_alnum (c : Z) : Prop := 48 <= c <= 57 \/ 97 <= c <= 122.
Definition undigit (c : Z) : Z := if c <? 58 then c - 48 else c - 87.
Definition decode_rev (l : list Z) : Z := foldr (fun c acc => undigit c + 36 * acc) 0 l.

Lemma base36_digit_ok d : 0 <= d < 36 -> is_alnum (base36_digit d) /\ undigit (base36_digit d) = d.
Proof.
  intros Hd. unfold base36_digit, undigit, is_alnum. destruct (Z.ltb_spec d 10).
  - split; [lia|]. rewrite (proj2 (Z.ltb_lt _ _)) by lia. lia.
  - split; [lia|]. rewrite (proj2 (Z.ltb_ge _ _)) by lia. lia.
Qed.
Lemma base36_rev_ok fuel v : 0 <= v < 36 ^ Z.of_nat fuel -> (0 < fuel)%nat ->
  exists l, (forall more, base36_digits_rev (fuel + more) v = Ok l) /\ (0 < length l <= fuel)%nat /\ Forall is_alnum l /\ decode_rev l = v.
Proof.
  revert v. induction fuel as [|fuel IH]; intros v Hv Hf; [lia|]. cbn [Nat.add base36_digits_rev].
  destruct (base36_digit_ok (v mod 36)) as [Ha Hu]; [apply Z.mod_pos_bound; lia|]. pose proof (Z.div_mod v 36 ltac:(lia)) as Hdm.
  rewrite Nat2Z.inj_succ, Z.pow_succ_r in Hv by lia. destruct (Z.eqb_spec (v / 36) 0) as [E|E].
  - exists [base36_digit (v mod 36)]. split; [done|]. split; [cbn; lia|]. split; [constructor; [done|constructor]|]. cbn. lia.
  - assert (0 <= v / 36) by (apply Z.div_pos; lia). assert (0 <= v / 36 < 36 ^ Z.of_nat fuel) by (split; [done|apply Z.div_lt_upper_bound; lia]).
    destruct (IH (v / 36)) as (l & Hl & Hlen & Hall & Hdec); [done|destruct fuel; [cbn in *; lia|lia]|].
    exists (base36_digit (v mod 36) :: l). split; [intros more; by rewrite Hl|]. split; [cbn; lia|]. split; [by constructor|].
    cbn. fold (decode_rev l). lia.
Qed.
Lemma encode_base36_ok v : 0 <= v < 2 ^ 31 ->
  exists l, encode_base36 v = Ok l /\ (0 < length l <= 6)%nat /\ Forall is_alnum l /\ decode_rev (rev l) = v.
Proof.
  intros Hv. destruct (base36_rev_ok 6 v) as (l & Hl & Hlen & Hall & Hdec); [cbn; lia|lia|].
  exists (rev l). unfold encode_base36. specialize (Hl 1%nat); cbn [Nat.add] in Hl; rewrite Hl. split; [done|]. rewrite length_rev, rev_involutive. split; [done|].
  split; [by apply Forall_rev|done].
Qed.

(** The digest indexes the table of 32 digits. *)
Lemma digest_step_range value b k : 0 <= k <= 7 -> 0 <= value < 2 ^ k ->
  0 <= Z.lor (Z.shiftl value 1) (Z.land b 1) mod 256 < 2 ^ (k + 1).
Proof.
  intros Hk Hv. assert (E : Z.lor (Z.shiftl value 1) (Z.land b 1) = 2 * value + b mod 2).
  { change 1 with (Z.ones 1) at 2. rewrite Z.land_ones by lia. change (2 ^ 1) with 2. rewrite Z.shiftl_mul_pow2 by lia. change (2 ^ 1) with 2.
    pose proof (Z.mod_pos_bound b 2 ltac:(lia)). assert (b mod 2 = 0 \/ b mod 2 = 1) as [-> | ->] by lia; [rewrite Z.lor_0_r; lia|].
    rewrite (Z.mul_comm value 2). destruct value; [done|done|lia]. }
  rewrite E. pose proof (Z.mod_pos_bound b 2 ltac:(lia)). rewrite Z.pow_add_r by lia. change (2 ^ 1) with 2.
  assert (2 ^ k <= 2 ^ 7) by (apply Z.pow_le_mono_r; lia). rewrite Z.mod_small by lia. lia.
Qed.
Lemma digest_value_range bytes i : 0 <= digest_value bytes i < 32.
Proof.
  unfold digest_value. assert (H : forall l k v, 0 <= k -> k + Z.of_nat (length l) <= 8 -> 0 <= v < 2 ^ k ->
    0 <= foldl (fun value bit => Z.lor (Z.shiftl value 1) (Z.land (Z.shiftr (default 0 (bytes !! ((i * 5 + bit) / 8)%nat))
      (7 - Z.of_nat ((i * 5 + bit) mod 8))) 1) mod 256) v l < 2 ^ (k + Z.of_nat (length l))).
  { induction l as [|b l IH]; intros k v Hk Hl Hv; cbn [foldl]; [by rewrite Z.add_0_r|]. cbn [length] in *.
    replace (k + Z.of_nat (S (length l))) with (k + 1 + Z.of_nat (length l)) by lia. apply IH; [lia|lia|].
    apply digest_step_range; lia. }
  apply (H (seq 0 5) 0 0); cbn; lia.
Qed.
Lemma base32hex_digits_ok high low : length (encode_base32hex_80 high low) = 16%nat /\ Forall is_alnum (encode_base32hex_80 high low).
Proof.
  unfold encode_base32hex_80. split; [by rewrite length_fmap|]. apply Forall_fmap, Forall_forall. intros i _.
  pose proof (digest_value_range (digest_bytes high low) i). change (is_alnum (base32hex_digit (digest_value (digest_bytes high low) i))). unfold base32hex_digit, is_alnum. destruct (Z.ltb_spec (digest_value (digest_bytes high low) i) 10); lia.
Qed.
Lemma ring_name_eq nonce uid rank : 0 <= rank < 2 ^ 31 -> exists r d,
  make_posix_ring_name nonce uid rank = Ok (name_prefix ++ r ++ [45] ++ d)
  /\ (0 < length r <= 6)%nat /\ length d = 16%nat /\ Forall is_alnum r /\ Forall is_alnum d /\ decode_rev (rev r) = rank.
Proof.
  intros Hr. destruct (encode_base36_ok rank Hr) as (r & Er & Hl & Ha & Hd). unfold make_posix_ring_name.
  rewrite (proj2 (Z.ltb_ge _ _)) by lia. rewrite Er. eexists r, _. split; [reflexivity|].
  split; [done|]. split; [apply base32hex_digits_ok|]. split; [done|]. split; [apply base32hex_digits_ok|done].
Qed.

Lemma find_nul_app name rest : Forall (fun c => c <> 0) name -> find_nul (name ++ 0 :: rest) = Some (length name).
Proof.
  intros H. unfold find_nul. rewrite list_find_app_r; [|by apply list_find_None; eapply Forall_impl; [exact H|]].
  cbn [list_find]. by rewrite decide_True by done.
Qed.
Lemma c_string_app name rest : Forall (fun c => c <> 0) name -> c_string (name ++ 0 :: rest) = name.
Proof. intros H. unfold c_string. rewrite find_nul_app by done. by rewrite take_app_length. Qed.
(** The names that [valid_object_name] accepts, in an array padded with zeros. *)
Lemma valid_name_padded tl n : (0 < length tl)%nat -> Forall (fun c => c <> 0 /\ c <> 47) tl ->
  valid_object_name ((47 :: tl) ++ replicate (S n) 0) = true.
Proof.
  intros Hl Ha. unfold valid_object_name. cbn [replicate]. rewrite find_nul_app.
  2:{ constructor; [done|]. eapply Forall_impl; [exact Ha|]. by intros ? [? _]. }
  cbn [length]. rewrite (proj2 (Nat.ltb_ge _ _)) by lia. cbn [orb negb andb lookup list_lookup default from_option id app drop].
  replace (S (length tl) - 1)%nat with (length tl) by lia. rewrite drop_0, take_app_length, Z.eqb_refl.
  replace (existsb _ tl) with false; cbn [negb andb].
  - replace (S (length tl)) with (length (tl ++ [0])) by (rewrite length_app; cbn; lia).
    replace (tl ++ 0 :: replicate n 0) with ((tl ++ [0]) ++ replicate n 0) by (by rewrite <- app_assoc).
    rewrite drop_app_length. apply forallb_forall. intros x Hx%list_elem_of_In. apply elem_of_replicate in Hx as [-> _]. done.
  - symmetry. apply not_true_iff_false. intros (x & Hx%list_elem_of_In & Ex)%existsb_exists. apply Z.eqb_eq in Ex as ->.
    rewrite Forall_forall in Ha. by destruct (Ha _ Hx).
Qed.
Lemma alnum_char c : is_alnum c -> c <> 0 /\ c <> 47.
Proof. unfold is_alnum. lia. Qed.
Lemma ring_name_shape nonce uid rank name : 0 <= rank < 2 ^ 31 -> make_posix_ring_name nonce uid rank = Ok name ->
  exists tl, name = 47 :: tl /\ (0 < length tl <= 27)%nat /\ Forall (fun c => c <> 0 /\ c <> 47) tl.
Proof.
  intros Hr Hn. destruct (ring_name_eq nonce uid rank Hr) as (r & d & E & Hl & Hd & Ha & Hb & _). rewrite Hn in E. injection E as ->.
  exists ([108; 99; 105; 45] ++ r ++ [45] ++ d). split; [done|]. rewrite !length_app. cbn [length]. split; [lia|].
  rewrite !Forall_app. split_and!; [repeat constructor; lia|by eapply Forall_impl, alnum_char|repeat constructor; lia|by eapply Forall_impl, alnum_char].
Qed.

(** The names of rings. Every rank gets a name that fits in the handle with its
    terminator and that [valid_object_name] accepts, and different ranks never get the
    same name, whatever the nonces and device numbers are. *)
Theorem ring_names nonce uid rank :
  0 <= rank < 2 ^ 31 ->
  exists name, make_posix_ring_name nonce uid rank = Ok name
    /\ Z.of_nat (length name) <= posix_ring_portable_name_max
    /\ valid_object_name (name ++ replicate (Z.to_nat posix_ring_name_capacity - length name) 0) = true
    /\ forall nonce' uid' rank', 0 <= rank' < 2 ^ 31 ->
         make_posix_ring_name nonce' uid' rank' = Ok name -> rank' = rank.
Proof.
  intros Hr. destruct (ring_name_eq nonce uid rank Hr) as (r & d & E & Hl & Hd & _ & _ & Hdec). eexists. split; [exact E|].
  destruct (ring_name_shape _ _ _ _ Hr E) as (tl & En & Hlen & Hch). split_and!.
  - rewrite En. cbn [length]. unfold posix_ring_portable_name_max. lia.
  - rewrite En. change (Z.to_nat posix_ring_name_capacity) with 31%nat.
    cbn [length]; replace (31 - S (length tl))%nat with (S (29 - length tl)) by lia. apply valid_name_padded; [lia|done].
  - intros nonce' uid' rank' Hr' E'. destruct (ring_name_eq nonce' uid' rank' Hr') as (r' & d' & F & Hl' & Hd' & _ & _ & Hdec').
    rewrite F in E'. injection E' as E'. assert (length r' = length r).
    { apply (f_equal (@length Z)) in E'. rewrite !length_app in E'. cbn [length] in E'. lia. }
    apply app_inj_1 in E' as [-> _]; [by rewrite <- Hdec', <- Hdec|done].
Qed.
Lemma ring_names_witness : exists name, make_posix_ring_name (1, 2) 3 1295 = Ok name /\ Z.of_nat (length name) <= 30.
Proof. destruct (ring_names (1, 2) 3 1295) as (name & H1 & H2 & _); [lia|]. exists name. split; [exact H1|exact H2]. Defined.

(** ** Nothing is left behind *)

Lemma remove_one_head x l : remove_one x (x :: l) = l.
Proof. cbn. by rewrite Nat.eqb_refl. Qed.
Lemma name_linked_None name o : name_linked name o = None -> filter (fun e => e.1 <> name) (os_linked o) = os_linked o.
Proof.
  unfold name_linked. intros H. apply fmap_None, fmap_None, list_find_None in H.
  induction (os_linked o) as [|e l IH]; [done|]. apply Forall_cons in H as [He Hl]. rewrite filter_cons, decide_True by done. by rewrite IH.
Qed.
Lemma open_new_inv c name o ob o' : open_new c name o = Some (ob, o') ->
  name_linked name o = None /\ os_linked o' = (name, ob) :: os_linked o /\ os_fds o' = ob :: os_fds o /\ os_maps o' = os_maps o
  /\ ob = length (os_objects o) /\ length (os_objects o') = S ob.
Proof.
  unfold open_new. destruct (name_linked name o) eqn:E; [rewrite bool_decide_true by (by eexists); by rewrite orb_true_r|].
  rewrite bool_decide_false by (by intros [? ?]). destruct (open_ok c); [|done]. cbn. intros [= <- <-]. cbn. rewrite length_app. cbn.
  split_and!; try done. lia.
Qed.

(** The descriptors of two states agree, and so do the mappings and the names, up to a
    mapping that [munmap] and a name that [shm_unlink] did not give back. *)
Definition same_maps (c : calls) (o o' : os) : Prop :=
  os_fds o' = os_fds o /\ (os_maps o' = os_maps o \/ munmap_ok c = false /\ exists ob, os_maps o' = ob :: os_maps o).
Definition same_names (c : calls) (name : list Z) (o o' : os) : Prop :=
  os_linked o' = os_linked o \/ unlink_ok c = false /\ exists ob, os_linked o' = (name, ob) :: os_linked o.

Section Clean.
Variable page_size : Z.

Lemma sys_unlink_new c name ob o o1 : name_linked name o = None -> os_linked o1 = (name, ob) :: os_linked o -> same_names c name o (sys_unlink c name o1).
Proof.
  intros H E. unfold same_names, sys_unlink. destruct (unlink_ok c); [left|right; split; [done|by exists ob]].
  cbn [unlink os_linked]. rewrite E, filter_cons, decide_False by (by intros []). by apply name_linked_None.
Qed.
Lemma sys_munmap_new c ob o o1 : os_maps o1 = ob :: os_maps o -> os_fds o1 = os_fds o -> same_maps c o (sys_munmap c ob o1).
Proof.
  intros E F. unfold same_maps, sys_munmap. destruct (munmap_ok c); cbn [munmap os_maps os_fds].
  - rewrite E, remove_one_head. by auto.
  - rewrite E. split; [done|]. right. by eauto.
Qed.
Lemma sys_unlink_maps c name o : os_maps (sys_unlink c name o) = os_maps o /\ os_fds (sys_unlink c name o) = os_fds o.
Proof. unfold sys_unlink. by destruct (unlink_ok c). Qed.
Lemma sys_munmap_names c ob o : os_linked (sys_munmap c ob o) = os_linked o.
Proof. unfold sys_munmap. by destruct (munmap_ok c). Qed.

Lemma owner_create_clean c name rank uid count size max attempts o o' :
  owner_create page_size c name rank uid count size max attempts o = Ok (None, o') -> same_maps c o o' /\ same_names c name o o'.
Proof.
  assert (Hsame : same_maps c o o /\ same_names c name o o) by (split; [split; [done|by left]|by left]).
  unfold owner_create. destruct (_ || _); [by intros [= <-]|]. destruct (_ || _); [by intros [= <-]|].
  destruct (open_new c name o) as [[ob o1]|] eqn:Eo; [|by intros [= <-]].
  apply open_new_inv in Eo as (Hn & E1 & E2 & E3 & _).
  assert (Hu : forall o2, os_linked o2 = os_linked o1 -> os_maps o2 = os_maps o -> os_fds o2 = os_fds o ->
    same_maps c o (sys_unlink c name o2) /\ same_names c name o (sys_unlink c name o2)).
  { intros o2 H1 H2 H3. split; [|eapply sys_unlink_new; [done|by rewrite H1]]. destruct (sys_unlink_maps c name o2) as [F1 F2].
    unfold same_maps. rewrite F1, F2. by auto. }
  destruct (truncate_ok c), (mmap_ok c); cbn [andb negb].
  - destruct (close_ok c); cbn [negb]; [intros; inv_ok|]. intros [= <-]. set (o2 := close_fd ob _).
    assert (os_linked o2 = os_linked o1 /\ os_maps o2 = ob :: os_maps o /\ os_fds o2 = os_fds o) as (F1 & F2 & F3).
    { cbn [o2 close_fd map_object set_object os_linked os_fds os_maps]. by rewrite E2, E3, remove_one_head. }
    split; [|eapply sys_unlink_new; [done|by rewrite sys_munmap_names, F1, E1]].
    destruct (sys_unlink_maps c name (sys_munmap c ob o2)) as [G1 G2]. unfold same_maps. rewrite G1, G2. by apply sys_munmap_new.
  - intros [= <-]. apply Hu; cbn [close_fd set_object os_linked os_fds os_maps]; rewrite ?E2, ?remove_one_head; done.
  - intros [= <-]. apply Hu; cbn [close_fd os_linked os_fds os_maps]; rewrite ?E2, ?remove_one_head; done.
  - intros [= <-]. apply Hu; cbn [close_fd os_linked os_fds os_maps]; rewrite ?E2, ?remove_one_head; done.
Qed.
Lemma peer_attach_clean c h e attempts o o' :
  peer_attach page_size c h e attempts o = Ok (None, o') -> same_maps c o o' /\ os_linked o' = os_linked o.
Proof.
  assert (Hsame : same_maps c o o /\ os_linked o = os_linked o) by (split; [split; [done|by left]|done]).
  unfold peer_attach. destruct (bool_decide _); [by intros [= <-]|]. unfold open_existing.
  destruct (open_ok c); cbn [negb]; [|by intros [= <-]]. destruct (name_linked _ o) as [ob|]; cbn [mbind option_bind]; [|by intros [= <-]].
  set (o1 := mk_os _ _ _ _). assert (Hc : same_maps c o (close_fd ob o1) /\ os_linked (close_fd ob o1) = os_linked o).
  { unfold same_maps. cbn [o1 close_fd os_linked os_fds os_maps]. rewrite remove_one_head. by auto. }
  destruct (stat_ok c); cbn [negb]; [|by intros [= <-]].
  destruct (os_objects o1 !! ob) as [x|]; [|done]. destruct (ob_size x =? _); cbn [negb]; [|by intros [= <-]].
  destruct (mmap_ok c); cbn [negb]; [|by intros [= <-]].
  set (o2 := close_fd ob (map_object ob o1)). assert (Hm : same_maps c o (sys_munmap c ob o2) /\ os_linked (sys_munmap c ob o2) = os_linked o).
  { split; [|by rewrite sys_munmap_names]. apply sys_munmap_new; cbn [o1 o2 close_fd map_object os_fds os_maps]; by rewrite ?remove_one_head. }
  destruct (close_ok c); cbn [negb]; [|by intros [= <-]].
  intros H. apply bind_Ok in H as (u & _ & H). destruct (is_consistent_empty _ _); [done|]. by injection H as <-.
Qed.
Lemma peer_attach_new c h e attempts o m o' :
  peer_attach page_size c h e attempts o = Ok (Some m, o') ->
  os_linked o' = os_linked o /\ os_fds o' = os_fds o /\ os_maps o' = mp_object m :: os_maps o.
Proof.
  unfold peer_attach. destruct (bool_decide _); [done|]. unfold open_existing.
  destruct (open_ok c); cbn [negb]; [|done]. destruct (name_linked _ o) as [ob|]; cbn [mbind option_bind]; [|done].
  destruct (stat_ok c); cbn [negb]; [|done]. cbn [os_objects]. destruct (os_objects o !! ob) as [x|]; [|done].
  destruct (ob_size x =? _); cbn [negb]; [|done]. destruct (mmap_ok c); cbn [negb]; [|done]. destruct (close_ok c); cbn [negb]; [|done].
  intros H. apply bind_Ok in H as (u & _ & H). destruct (is_consistent_empty _ _); [|done]. injection H as <- <-.
  cbn [map_object close_fd os_linked os_fds os_maps mp_object]. by rewrite remove_one_head.
Qed.
Lemma owner_create_new c name rank uid count size max attempts o m o' :
  owner_create page_size c name rank uid count size max attempts o = Ok (Some m, o') ->
  name_linked name o = None /\ existsb (fun ch => ch =? 0) name = false /\ Z.of_nat (length name) < posix_ring_name_capacity
  /\ validate_handle page_size (mp_handle m) = None
  /\ mp_handle m = new_handle page_size name rank uid count size max /\ name_is_linked m = true
  /\ os_linked o' = (name, mp_object m) :: os_linked o /\ os_fds o' = os_fds o /\ os_maps o' = mp_object m :: os_maps o
  /\ exists ring, os_objects o' !! mp_object m = Some (mk_object (h_mapping_size (mp_handle m)) ring)
       /\ is_consistent_empty (handle_cfg (mp_handle m) attempts) ring = true.
Proof.
  unfold owner_create. destruct (_ || _) eqn:En; [done|]. apply orb_false_iff in En as [En1 En2]. apply Z.leb_gt in En1.
  destruct (bool_decide _ || _) eqn:Ev; [done|]. apply orb_false_iff in Ev as [Ev _]. apply bool_decide_eq_false in Ev.
  destruct (validate_handle _ _) eqn:Ev'; [by destruct Ev; eexists|].
  destruct (open_new c name o) as [[ob o1]|] eqn:Eo; [|done]. apply open_new_inv in Eo as (Hn & E1 & E2 & E3 & E4 & E5).
  destruct (truncate_ok c), (mmap_ok c); cbn [andb negb]; try done. destruct (close_ok c); cbn [negb]; [|done].
  intros H. apply bind_Ok in H as (ring & Hring & H). apply bind_Ok in H as ([] & _ & H). apply bind_Ok in H as ([] & Hemp%LCI_Assert_Ok & H).
  injection H as <- <-. cbn [close_fd map_object set_object os_linked os_fds os_maps os_objects mp_object mp_handle name_is_linked].
  rewrite E2, E3, remove_one_head. split_and!; try done. exists ring. split; [|done].
  apply list_lookup_insert_eq. rewrite length_insert. lia.
Qed.
End Clean.

(** C38: a failed set-up leaves nothing behind. Whichever system calls fail, no descriptor
    stays open. When [create] or [attach] returns a null pointer, the mappings and the
    linked names are what they were, and a mapping that is destroyed gives both back; the
    only exceptions are the mapping that [munmap] and the name that [shm_unlink] themselves
    did not give back, as the code ignores their results. *)
Theorem mappings_leave_nothing page_size c name rank uid count size max attempts h e o o' :
  (owner_create page_size c name rank uid count size max attempts o = Ok (None, o') -> same_maps c o o' /\ same_names c name o o')
  /\ (peer_attach page_size c h e attempts o = Ok (None, o') -> same_maps c o o' /\ os_linked o' = os_linked o)
  /\ (forall m c', owner_create page_size c name rank uid count size max attempts o = Ok (Some m, o') ->
        os_fds o' = os_fds o /\ same_maps c' o (owner_delete c' m o') /\ same_names c' name o (owner_delete c' m o'))
  /\ (forall m c', peer_attach page_size c h e attempts o = Ok (Some m, o') ->
        os_fds o' = os_fds o /\ same_maps c' o (peer_delete c' m o') /\ os_linked (peer_delete c' m o') = os_linked o).
Proof.
  split_and!; [apply owner_create_clean|apply peer_attach_clean| |].
  - intros m c' Hm. destruct (owner_create_new _ _ _ _ _ _ _ _ _ _ _ _ Hm) as (Hn & Hz & Hlen & _ & Eh & El & E1 & E2 & E3 & _).
    split; [done|]. unfold owner_delete. rewrite El, Eh. cbn [new_handle h_name].
    assert (Hnz : Forall (fun c => c <> 0) name).
    { apply Forall_forall. intros x Hx ->. apply not_true_iff_false in Hz. apply Hz, existsb_exists. exists 0. split; [by apply list_elem_of_In|done]. }
    change (Z.to_nat posix_ring_name_capacity) with 31%nat. unfold posix_ring_name_capacity, posix_ring_portable_name_max in Hlen.
    destruct (31 - length name)%nat as [|k] eqn:Ek; [lia|]. cbn [replicate]. rewrite c_string_app by done.
    split; [|eapply sys_unlink_new; [done|by rewrite sys_munmap_names]]. unfold same_maps.
    destruct (sys_unlink_maps c' name (sys_munmap c' (mp_object m) o')) as [-> ->]. by apply sys_munmap_new.
  - intros m c' Hm. apply peer_attach_new in Hm as (E1 & E2 & E3). split; [done|].
    split; [by apply sys_munmap_new|]. unfold peer_delete. by rewrite sys_munmap_names.
Qed.
Lemma mappings_leave_nothing_witness :
  let c := mk_calls true true true false true true true 65536 in
  let o := mk_os [] [] [] [] in
  exists o', owner_create 4096 c (name_prefix ++ [48]) 0 9 4 128 104 (4%nat, 1%nat) o = Ok (None, o')
    /\ same_maps c o o' /\ same_names c (name_prefix ++ [48]) o o'.
Proof.
  intros c o. eexists. split; [vm_compute; reflexivity|].
  destruct (mappings_leave_nothing 4096 c (name_prefix ++ [48]) 0 9 4 128 104 (4%nat, 1%nat) (mk_handle 0 0 0 0 0 0 0 [])
    (mk_expected 0 0 0 0 0 0 []) o (mk_os [] [mk_object 4096 (mk_ring 0 0 [])] [] [])) as [H _].
  apply H. vm_compute. reflexivity.
Defined.

(** ** A peer finds the ring *)

Lemma mapping_size_ok page_size count size : is_u64 count -> is_u64 size -> posix_ring_mapping_size page_size count size <> 0 ->
  required_size count size <> 0 /\ 0 < page_size /\ required_size count size <= posix_ring_mapping_size page_size count size <= SIZE_MAX
  /\ posix_ring_mapping_size page_size count size mod page_size = 0.
Proof.
  intros Hc Hs. unfold posix_ring_mapping_size. destruct (Z.eqb_spec (required_size count size) 0) as [|Hr]; [done|].
  destruct (Z.leb_spec page_size 0); [done|]. destruct (Z.ltb_spec (SIZE_MAX - (page_size - 1)) (required_size count size)); [done|].
  intros _. split; [done|]. split; [done|]. rewrite Z.mod_mul by lia. split; [|done].
  pose proof (Z.div_mod (required_size count size + page_size - 1) page_size ltac:(lia)).
  pose proof (Z.mod_pos_bound (required_size count size + page_size - 1) page_size ltac:(lia)). lia.
Qed.
Lemma initial_ring_empty cfg : (exists k, 0 <= k /\ slot_count cfg = 2 ^ k) -> slot_count cfg <= maximum_position ->
  is_consistent_empty cfg (mk_ring 0 0 (initial_slot cfg 0 <$> seq 0 (Z.to_nat (slot_count cfg)))) = true.
Proof.
  intros (k & Hk & E) Hm. unfold is_consistent_empty. cbn [producer_position consumer_position slots Z.eqb andb].
  apply forallb_forall. intros i Hi%list_elem_of_In. apply elem_of_seq in Hi. rewrite list_lookup_fmap, lookup_seq_lt by lia. cbn [fmap option_fmap option_map].
  unfold initial_slot. cbn [sequence]. apply Z.eqb_eq. f_equal. unfold slot_index. rewrite Z.land_0_l, Z.sub_0_r, Z.add_0_l.
  assert (maximum_position = 2 ^ 63 - 1) by done. unfold u64. rewrite Z.mod_small by lia.
  rewrite E, Z.sub_1_r, <- Z.ones_equiv, Z.land_ones, Z.mod_small by lia. lia.
Qed.

(** What [expected_ring] of src/src/shm/transport.cpp fills in. *)
Definition expected_of (page_size : Z) (name : list Z) (rank uid count size max : Z) : posix_ring_expected_t :=
  mk_expected rank uid (posix_ring_mapping_size page_size count size) count size max name.

Section Attach.
Variables (page_size uid rank count size max : Z) (attempts : nat * nat) (name tl : list Z).
Hypothesis Hrank : 0 <= rank.
Hypothesis Huid : uid <> 0.
Hypothesis Hcount : is_u64 count.
Hypothesis Hsize : is_u64 size.
Hypothesis Hms : posix_ring_mapping_size page_size count size <> 0.
Hypothesis Hmax : max <= payload_capacity size.
Hypothesis Hname : name = 47 :: tl.
Hypothesis Hlen : (0 < length tl <= 27)%nat.
Hypothesis Hchars : Forall (fun c => c <> 0 /\ c <> 47) tl.
Hypothesis Hattempts : attempts.1 <> 0%nat /\ attempts.2 <> 0%nat.
#[local] Abbreviation h := (new_handle page_size name rank uid count size max).
#[local] Abbreviation cfg := (handle_cfg h attempts).

Lemma name_chars : Forall (fun c => c <> 0) name.
Proof. rewrite Hname. constructor; [done|]. eapply Forall_impl; [exact Hchars|by intros ? [? _]]. Qed.
Lemma name_no_nul : existsb (fun c => c =? 0) name = false.
Proof.
  apply not_true_iff_false. intros (x & Hx%list_elem_of_In & Ex)%existsb_exists. apply Z.eqb_eq in Ex as ->.
  pose proof name_chars as Hc. rewrite Forall_forall in Hc. by apply (Hc _ Hx).
Qed.
Lemma name_padded : exists k, h_name h = name ++ 0 :: replicate k 0.
Proof.
  exists (30 - length name)%nat. cbn [new_handle h_name]. change (Z.to_nat posix_ring_name_capacity) with 31%nat.
  assert (length name = S (length tl)) as -> by (by rewrite Hname). by replace (31 - S (length tl))%nat with (S (30 - S (length tl))) by lia.
Qed.
Lemma geometry_ok : (posix_ring_mapping_size page_size count size =? 0)
  || negb (posix_ring_mapping_size page_size count size =? posix_ring_mapping_size page_size count size)
  || (payload_capacity size <? max) = false.
Proof. by rewrite Z.eqb_refl, (proj2 (Z.eqb_neq _ _) Hms), (proj2 (Z.ltb_ge _ _) Hmax). Qed.
Lemma owner_named : (rank <? 0) || (uid =? 0) = false.
Proof. by rewrite (proj2 (Z.ltb_ge _ _) Hrank), (proj2 (Z.eqb_neq _ _) Huid). Qed.
Lemma handle_valid : validate_handle page_size h = None.
Proof.
  unfold validate_handle. destruct name_padded as [k ->].
  cbn [new_handle h_version h_owner_global_rank h_device_uid h_mapping_size h_slot_count h_slot_size h_max_message_size].
  rewrite Z.eqb_refl, owner_named, Hname. change (0 :: replicate k 0) with (replicate (S k) 0).
  rewrite valid_name_padded by (done || lia). by rewrite geometry_ok.
Qed.
Lemma expected_valid : valid_expected page_size (expected_of page_size name rank uid count size max) = None.
Proof.
  unfold valid_expected, expected_of. cbn [e_owner_global_rank e_device_uid e_name e_mapping_size e_slot_count e_slot_size e_max_message_size].
  rewrite owner_named, name_no_nul, geometry_ok.
  assert (Hn : valid_object_name (name ++ [0]) = true) by (rewrite Hname; apply (valid_name_padded tl 0); [lia|done]). rewrite Hn.
  rewrite (proj2 (Z.leb_gt _ _)); [done|]. rewrite Hname. cbn [length]. unfold posix_ring_name_capacity, posix_ring_portable_name_max. lia.
Qed.
Lemma handle_matches : validate_posix_ring_handle page_size h (expected_of page_size name rank uid count size max) = None.
Proof.
  unfold validate_posix_ring_handle. rewrite expected_valid, handle_valid. destruct name_padded as [k ->]. rewrite c_string_app by apply name_chars.
  cbn [new_handle expected_of h_owner_global_rank h_device_uid h_mapping_size h_slot_count h_slot_size h_max_message_size
       e_owner_global_rank e_device_uid e_name e_mapping_size e_slot_count e_slot_size e_max_message_size].
  rewrite !Z.eqb_refl, bool_decide_true by done. done.
Qed.

(** The system calls succeed. *)
Definition all_ok (c : calls) : Prop :=
  open_ok c = true /\ truncate_ok c = true /\ stat_ok c = true /\ mmap_ok c = true /\ close_ok c = true
  /\ map_address c <> 0 /\ map_address c mod LCI_CACHE_LINE = 0.

Lemma ring_new_ok c : all_ok c -> ring_new cfg (map_address c) = Ok tt.
Proof.
  intros (_ & _ & _ & _ & _ & Hz & Hal). destruct (mapping_size_ok page_size count size Hcount Hsize Hms) as (Hreq & _).
  unfold ring_new. cbn [handle_cfg new_handle slot_count slot_size h_slot_count h_slot_size producer_cas_attempts consumer_cas_attempts].
  destruct Hattempts. rewrite !LCI_Assert_true; first [done|by apply Z.eqb_eq|by apply negb_true_iff, Z.eqb_neq|by apply negb_true_iff, Nat.eqb_neq].
Qed.
Lemma initialize_ok c : all_ok c -> exists ring, initialize cfg (map_address c) = Ok ring /\ is_consistent_empty cfg ring = true.
Proof.
  intros (_ & _ & _ & _ & _ & Hz & Hal). destruct (mapping_size_ok page_size count size Hcount Hsize Hms) as (Hreq & _).
  destruct (required_size_inv _ _ Hcount Hsize Hreq) as (Hpow & Hle & _).
  exists (mk_ring 0 0 (initial_slot cfg 0 <$> seq 0 (Z.to_nat count))). split; [|by apply (initial_ring_empty cfg)].
  unfold initialize, initialize_at. cbn [handle_cfg new_handle slot_count slot_size h_slot_count h_slot_size].
  rewrite !LCI_Assert_true; first [done|by apply Z.eqb_eq|by apply negb_true_iff, Z.eqb_neq|apply Z.leb_le; lia].
Qed.
Lemma create_succeeds c o : all_ok c -> name_linked name o = None -> posix_ring_mapping_size page_size count size <= OFF_T_MAX ->
  exists m o', owner_create page_size c name rank uid count size max attempts o = Ok (Some m, o').
Proof.
  intros Hc Hnl Hoff. destruct (initialize_ok c Hc) as (ring & Hi & He). pose proof (ring_new_ok c Hc) as Hn.
  destruct Hc as (C1 & C2 & _ & C4 & C5 & _). unfold owner_create. rewrite name_no_nul, (proj2 (Z.leb_gt _ _)).
  2:{ rewrite Hname. cbn [length]. unfold posix_ring_name_capacity, posix_ring_portable_name_max. lia. }
  cbn [orb]. rewrite handle_valid, bool_decide_false by (by intros [? ?]). rewrite (proj2 (Z.ltb_ge _ _)) by done. cbn [orb].
  unfold open_new. rewrite C1, Hnl, bool_decide_false by (by intros [? ?]). cbn [negb orb]. rewrite C2, C4, C5. cbn [andb negb].
  rewrite Hi. cbn [mbind result_bind]. rewrite Hn, (LCI_Assert_true _ _ He). eauto.
Qed.
Lemma attach_succeeds c o ob ring : all_ok c -> name_linked name o = Some ob ->
  os_objects o !! ob = Some (mk_object (posix_ring_mapping_size page_size count size) ring) -> is_consistent_empty cfg ring = true ->
  exists m o', peer_attach page_size c h (expected_of page_size name rank uid count size max) attempts o = Ok (Some m, o')
    /\ mp_object m = ob /\ os_maps o' = ob :: os_maps o.
Proof.
  intros Hc Hnl Hob He. pose proof (ring_new_ok c Hc) as Hn. destruct Hc as (C1 & _ & C3 & C4 & C5 & _). unfold peer_attach.
  rewrite handle_matches, bool_decide_false by (by intros [? ?]). unfold open_existing. rewrite C1. cbn [negb].
  destruct name_padded as [k Hk]. rewrite Hk, c_string_app, Hnl by apply name_chars. cbn [mbind option_bind]. rewrite C3. cbn [negb os_objects].
  rewrite Hob. cbn [ob_size ob_ring]. change (h_mapping_size h) with (posix_ring_mapping_size page_size count size). rewrite Z.eqb_refl, C4, C5. cbn [negb].
  rewrite Hn. cbn [mbind result_bind]. rewrite He. eexists _, _. split; [reflexivity|done].
Qed.
End Attach.

(** A peer finds the ring of an owner. When the system calls succeed and the geometry
    has a mapping, [create] under the owner's name succeeds, and [attach] with the
    handle that it published and what the peer itself computes succeeds as well and
    maps the same object. *)
Theorem peer_attaches page_size c c' nonce uid rank count size max attempts name o :
  0 <= rank < 2 ^ 31 -> uid <> 0 -> is_u64 count -> is_u64 size ->
  posix_ring_mapping_size page_size count size <> 0 -> posix_ring_mapping_size page_size count size <= OFF_T_MAX ->
  max <= payload_capacity size -> make_posix_ring_name nonce uid rank = Ok name -> name_linked name o = None ->
  attempts.1 <> 0%nat /\ attempts.2 <> 0%nat -> all_ok c -> all_ok c' ->
  exists m m' o' o'',
    owner_create page_size c name rank uid count size max attempts o = Ok (Some m, o')
    /\ peer_attach page_size c' (mp_handle m) (expected_of page_size name rank uid count size max) attempts o' = Ok (Some m', o'')
    /\ mp_object m' = mp_object m /\ os_maps o'' = mp_object m :: mp_object m :: os_maps o.
Proof.
  intros Hr Hu Hc Hs Hms Hoff Hmax Hname Hnl Ha Hok Hok'.
  destruct (ring_name_shape _ _ _ _ Hr Hname) as (tl & En & Hlen & Hch).
  destruct (create_succeeds page_size uid rank count size max attempts name tl) with (c := c) (o := o) as (m & o' & Hm); try done; [lia|].
  destruct (owner_create_new _ _ _ _ _ _ _ _ _ _ _ _ Hm) as (_ & _ & _ & _ & Eh & _ & E1 & _ & E3 & ring & Hob & He).
  rewrite Eh in Hob, He.
  destruct (attach_succeeds page_size uid rank count size max attempts name tl) with (c := c') (o := o') (ob := mp_object m) (ring := ring)
    as (m' & o'' & Hm' & Em' & Eo); try done; [lia| |].
  - unfold name_linked. rewrite E1. cbn [list_find]. by rewrite decide_True.
  - exists m, m', o', o''. split; [done|]. rewrite Eh, Eo, E3. done.
Qed.
Lemma peer_attaches_witness :
  let c := mk_calls true true true true true true true 65536 in
  exists name m m' o' o'', owner_create 4096 c name 3 9 4 128 104 (4%nat, 1%nat) (mk_os [] [] [] []) = Ok (Some m, o')
    /\ peer_attach 4096 c (mp_handle m) (expected_of 4096 name 3 9 4 128 104) (4%nat, 1%nat) o' = Ok (Some m', o'').
Proof.
  intros c. destruct (make_posix_ring_name (5, 6) 9 3) as [name|] eqn:E; [|by vm_compute in E]. exists name.
  destruct (peer_attaches 4096 c c (5, 6) 9 3 4 128 104 (4%nat, 1%nat) name (mk_os [] [] [] [])) as (m & m' & o' & o'' & H1 & H2 & _);
    [lia|done|unfold is_u64; lia|unfold is_u64; lia|by vm_compute|by vm_compute|by vm_compute|exact E|reflexivity|done|by unfold all_ok|by unfold all_ok|].
  exists m, m', o', o''. split; [exact H1|exact H2].
Defined.
