(* ===== verification/ShmTransport.v ===== *)
(** * The shared-memory transport

    src/src/shm/transport.cpp: which ranks share a host, the values exchanged at
    start-up, the rings a device is connected to, and sends and polls through them. *)
From stdpp Require Import base numbers functions list gmap strings.
From Stdlib Require Import ZArith Lia.
From S2P Require Import Prelude Text Status ShmRing ShmPosix.

Definition LCT_PMI_STRING_LIMIT : Z := 255.
Definition pmi_max_binary_bytes : Z := (LCT_PMI_STRING_LIMIT - 1) / 2.

(** [value] is a [size_t], so that the loop doubles at most 63 times. *)
Fixpoint round_down_loop (fuel : nat) (rounded value : Z) : result Z :=
  if rounded <=? value / 2 then
    match fuel with O => Err OutOfFuel | S fuel => round_down_loop fuel (u64 (rounded * 2)) value end
  else Ok rounded.
Definition round_down_to_power_of_two (value : Z) : result Z :=
  rounded ← round_down_loop 63 1 value ;
  Ok (if value =? 0 then 0 else rounded).

(** ** Values exchanged at start-up *)

Definition hex_digit (d : Z) : Z := if d <? 10 then 48 + d else 87 + d.
Definition hex_value (c : Z) : result Z :=
  if (48 <=? c) && (c <=? 57) then Ok (c - 48)
  else if (97 <=? c) && (c <=? 102) then Ok (c - 97 + 10)
  else Err (AssertFailed "Invalid SHM PMI hex character").
Fixpoint hex_of (bytes : list Z) : list Z :=
  match bytes with [] => [] | b :: bytes => hex_digit (Z.shiftr b 4) :: hex_digit (Z.land b 0xf) :: hex_of bytes end.
(** The string without its terminator. *)
Definition encode_pmi_value (input : list Z) : result (list Z) :=
  LCI_Assert (Z.of_nat (length input) <=? pmi_max_binary_bytes) "SHM PMI value exceeds encoding limit" ;;
  Ok (hex_of input).
Fixpoint decode_pairs (input : list Z) : result (list Z) :=
  match input with
  | a :: b :: input =>
      ha ← hex_value a ; hb ← hex_value b ; bytes ← decode_pairs input ;
      Ok (Z.lor (Z.shiftl ha 4) hb mod 256 :: bytes)
  | _ => Ok []
  end.
Definition decode_pmi_value (input : list Z) (size : nat) : result (list Z) :=
  LCI_Assert (length input =? 2 * size)%nat "Invalid SHM PMI encoded value length" ;;
  decode_pairs input.

(** The generator that stands in for /dev/urandom. *)
Fixpoint fill_random_fallback (seed : Z) (size : nat) : list Z :=
  match size with
  | O => []
  | S size =>
      let seed := u64 (seed * 6364136223846793005 + 1442695040888963407) in
      Z.shiftr seed 56 mod 256 :: fill_random_fallback seed size
  end.

(** ** The ranks of a host *)

Record context_t : Type := mk_context {
  ctx_enabled : bool;
  global_rank : Z;
  global_size : Z;
  local_rank : Z;
  local_size : Z;
  global_to_local : list Z;
  local_to_global : list Z;
  job_nonce : Z * Z
}.

(** One round of the loop over the ranks' host names. *)
Definition locality_step (me : Z) (my_host : list Z) (st : list Z * list Z * Z) (e : nat * list Z) : list Z * list Z * Z :=
  let '(g2l, l2g, lr) := st in
  let '(rank, host) := e in
  if bool_decide (my_host = c_string host) then
    let l := Z.of_nat (length l2g) in
    (<[rank := l]> g2l, l2g ++ [Z.of_nat rank], if Z.of_nat rank =? me then l else lr)
  else st.
Definition locality (me : Z) (my_host : list Z) (hosts : list (list Z)) : list Z * list Z * Z :=
  foldl (locality_step me my_host) (replicate (length hosts) (-1), [], -1) (imap pair hosts).
(** [records] are the gathered host names with their valid flags, the own one
    among them; [my_host] is the own host name's string. *)
Definition alloc_context (enable : bool) (me : Z) (nonce : Z * Z) (my_host : list Z) (records : list (bool * list Z)) :
    result context_t :=
  let n := Z.of_nat (length records) in
  if n <=? 0 then Ok (mk_context enable me n (-1) 0 [] [] (0, 0))
  else if negb (forallb fst records)
  then Err (Thrown "SHM locality discovery failed: gethostname did not succeed on all ranks")
  else
    let '(g2l, l2g, lr) := locality me my_host (snd <$> records) in
    if lr <? 0 then Err (Thrown "SHM locality discovery failed to identify the local rank")
    else Ok (mk_context enable me n lr (Z.of_nat (length l2g)) g2l l2g nonce).

(** ** Devices *)

Record device_t : Type := mk_device {
  dev_enabled : bool;
  dev_context : option context_t;
  dev_slot_count : Z;
  dev_slot_size : Z;
  max_message_size : Z;
  dev_owner : option mapping_t;
  peer_mappings : list (option mapping_t);
  (** The object behind the route to each rank. *)
  routes : list (option nat)
}.

(** The settings of a device: ring and slot size, attempts, and the payload of a
    packet if there is a packet pool. *)
Record device_args : Type := mk_device_args {
  da_ring_size : Z; da_slot_size : Z; da_attempts : nat * nat; da_packet_payload : option Z
}.
(** Slots, largest message and whether the settings are usable. *)
Definition local_geometry (a : device_args) : result (Z * Z * bool) :=
  match da_packet_payload a with
  | None => Ok (0, 0, false)
  | Some packet_payload =>
      if (da_slot_size a =? 0) || (da_ring_size a <? da_slot_size a) || ((da_attempts a).1 =? 0)%nat
         || ((da_attempts a).2 =? 0)%nat || negb (da_slot_size a mod LCI_CACHE_LINE =? 0)
      then Ok (0, 0, false)
      else
        slot_count ← round_down_to_power_of_two (da_ring_size a / da_slot_size a) ;
        if (slot_count =? 0) || (required_size slot_count (da_slot_size a) =? 0) || (payload_capacity (da_slot_size a) =? 0)
        then Ok (slot_count, 0, false)
        else let effective_max := Z.min (payload_capacity (da_slot_size a)) packet_payload in
             Ok (slot_count, effective_max, negb (effective_max =? 0))
  end.

Section Device.
Variable page_size : Z.

Definition expected_ring (ctx : context_t) (device_uid owner_global_rank slot_count slot_size max_message_size : Z) :
    result posix_ring_expected_t :=
  name ← make_posix_ring_name (job_nonce ctx) device_uid owner_global_rank ;
  Ok (mk_expected owner_global_rank device_uid (posix_ring_mapping_size page_size slot_count slot_size)
        slot_count slot_size max_message_size name).

(** [alloc_device] up to the exchange of handles: the device so far and whether all
    is well. *)
Definition device_create (ctx : context_t) (a : device_args) (device_uid : Z) (c : calls) :
    ST os (device_t * bool) :=
  let has_local_peers := 1 <? local_size ctx in
  '(slot_count, effective_max, ok) ← lift (if has_local_peers then local_geometry a else Ok (0, 0, true)) ;
  let ok := ok && negb (device_uid =? 0) in
  owner ← (if has_local_peers && ok then
             owner_name ← lift (make_posix_ring_name (job_nonce ctx) device_uid (global_rank ctx)) ;
             owner_create page_size c owner_name (global_rank ctx) device_uid slot_count (da_slot_size a)
               effective_max (da_attempts a)
           else mret None) ;
  let ok := ok && (negb has_local_peers || bool_decide (is_Some owner)) in
  let none := replicate (Z.to_nat (global_size ctx)) None in
  mret (mk_device false (Some ctx) slot_count (da_slot_size a) effective_max owner (replicate (Z.to_nat (global_size ctx)) None)
          match owner with Some m => <[Z.to_nat (global_rank ctx) := Some (mp_object m)]> none | None => none end, ok).
(** The handle that a rank publishes. *)
Definition my_handle (d : device_t) : posix_ring_handle_t :=
  match dev_owner d with
  | Some m => mp_handle m
  | None => mk_handle posix_ring_handle_version (-1) 0 0 0 0 0 (replicate (Z.to_nat posix_ring_name_capacity) 0)
  end.

Definition set_peers (ps : list (option mapping_t)) (rs : list (option nat)) (d : device_t) : device_t :=
  mk_device (dev_enabled d) (dev_context d) (dev_slot_count d) (dev_slot_size d) (max_message_size d) (dev_owner d) ps rs.
(** The loop over the ranks of the host. *)
Fixpoint attach_peers (ctx : context_t) (device_uid : Z) (attempts : nat * nat) (handles : list posix_ring_handle_t)
    (cs : Z -> calls) (peers : list Z) (d : device_t) : ST os (device_t * bool) :=
  match peers with
  | [] => mret (d, true)
  | peer_rank :: peers =>
      if peer_rank =? global_rank ctx then attach_peers ctx device_uid attempts handles cs peers d
      else
        expected ← lift (expected_ring ctx device_uid peer_rank (dev_slot_count d) (dev_slot_size d) (max_message_size d)) ;
        handle ← lift match handles !! Z.to_nat peer_rank with Some h => Ok h | None => Err (Undefined "recv_handles") end ;
        peer ← peer_attach page_size (cs peer_rank) handle expected attempts ;
        match peer with
        | None => mret (d, false)
        | Some m =>
            attach_peers ctx device_uid attempts handles cs peers
              (set_peers (<[Z.to_nat peer_rank := Some m]> (peer_mappings d)) (<[Z.to_nat peer_rank := Some (mp_object m)]> (routes d)) d)
        end
  end.

(** The mappings of a device are destroyed: the peers', then the own one. *)
Definition release_mappings (c : calls) (d : device_t) (o : os) : os :=
  let o := foldl (fun o m => match m with Some m => peer_delete c m o | None => o end) o (peer_mappings d) in
  match dev_owner d with Some m => owner_delete c m o | None => o end.
(** The end, after the exchange of the outcomes; [None] is the exception. *)
Definition device_finish (c : calls) (d : device_t) (statuses : list bool) (unlink_fails : bool) : ST os (option device_t) := fun o =>
  if negb (forallb id statuses) then Ok (None, release_mappings c d o)
  else
    let '(owner, o) := match dev_owner d with
      | Some m => let '(_, m, o) := unlink_name unlink_fails m o in (Some m, o)
      | None => (None, o)
      end in
    let has_local_peers := match dev_context d with Some ctx => 1 <? local_size ctx | None => false end in
    Ok (Some (mk_device has_local_peers (dev_context d) (dev_slot_count d) (dev_slot_size d) (max_message_size d) owner
                (peer_mappings d) (routes d)), o).

(** Whether a device is set up at all; the context of a device may be empty. *)
Definition shm_off (enable : bool) (context : option context_t) : bool :=
  negb enable || match context with None => true | Some ctx => negb (ctx_enabled ctx) || (global_size ctx <=? 0) end.
(** What the ranks' own systems and the other ranks contribute: the calls of the owner, of
    the peers and of the clean-up, and what the ranks before and after this one publish. *)
Record surroundings : Type := mk_surroundings {
  su_calls : calls; su_peer_calls : Z -> calls; su_unlink_fails : bool;
  su_handles_before : list posix_ring_handle_t; su_handles_after : list posix_ring_handle_t;
  su_status_before : list bool; su_status_after : list bool
}.
(** The exchange of handles and the loop. *)
Definition device_attach (ctx : context_t) (a : device_args) (device_uid : Z) (su : surroundings) (d : device_t) (ok : bool) :
    ST os (device_t * bool) :=
  let handles := su_handles_before su ++ my_handle d :: su_handles_after su in
  if ok then attach_peers ctx device_uid (da_attempts a) handles (su_peer_calls su) (local_to_global ctx) d else mret (d, false).
Definition alloc_device (context : option context_t) (enable : bool) (a : device_args) (device_uid : Z) (su : surroundings) :
    ST os (option device_t) :=
  match context with
  | Some ctx =>
      if shm_off enable context then mret (Some (mk_device false context 0 0 0 None [] []))
      else
        '(d, ok) ← device_create ctx a device_uid (su_calls su) ;
        '(d, ok) ← device_attach ctx a device_uid su d ok ;
        device_finish (su_calls su) d (su_status_before su ++ ok :: su_status_after su) (su_unlink_fails su)
  | None => mret (Some (mk_device false None 0 0 0 None [] []))
  end.
Definition free_device (c : calls) (d : device_t) (o : os) : os := release_mappings c d o.

(** ** Sends and polls *)

Definition can_send (d : device_t) (rank size : Z) : bool :=
  dev_enabled d && (0 <=? rank) && match dev_context d with Some ctx => rank <? global_size ctx | None => false end
  && (size <=? max_message_size d)
  && match routes d !! Z.to_nat rank with Some (Some _) => true | _ => false end.
(** [results] are the returns of the ring's [post_send], one for each try. *)
Fixpoint post_send_loop (allow_retry : bool) (results : list errorcode_t) : result errorcode_t :=
  match results with
  | [] => Err OutOfFuel
  | e :: results =>
      if negb allow_retry && bool_decide (e = ec_retry_lock) then post_send_loop allow_retry results else Ok e
  end.
Definition transport_post_send (d : device_t) (rank size : Z) (allow_retry : bool) (results : list errorcode_t) :
    result errorcode_t :=
  if negb (can_send d rank size) then Ok ec_fatal else post_send_loop allow_retry results.
Definition transport_recv_available (d : device_t) (r : ring_t) : Z :=
  if negb (dev_enabled d) || bool_decide (dev_owner d = None) then 0
  else recv_available_approx (mk_ring_config (dev_slot_count d) (dev_slot_size d) 1 1) r.
Definition poll_comp (cfg : ring_config) (d : device_t) (out : option Z) : agent :=
  if negb (dev_enabled d) || bool_decide (dev_owner d = None) then CEmpty else poll cfg out.
End Device.

(** ** Facts *)

Lemma round_down_loop_ok value : 0 < value < 2 ^ 64 -> forall fuel k, 0 <= k -> 2 ^ k <= value -> 64 <= k + Z.of_nat fuel + 1 ->
  exists j, round_down_loop fuel (2 ^ k) value = Ok (2 ^ j) /\ 0 <= j /\ 2 ^ j <= value < 2 ^ (j + 1).
Proof.
  intros Hv fuel. induction fuel as [|fuel IH]; intros k Hk Hle Hf; cbn [round_down_loop]; destruct (Z.leb_spec (2 ^ k) (value / 2)) as [Hl|Hl].
  - exfalso. assert (2 ^ 63 <= 2 ^ k) by (apply Z.pow_le_mono_r; lia). assert (value / 2 < 2 ^ 63) by (apply Z.div_lt_upper_bound; lia). lia.
  - exists k. rewrite Z.pow_add_r by lia. pose proof (Z.div_mod value 2 ltac:(lia)). pose proof (Z.mod_pos_bound value 2 ltac:(lia)). split; [done|lia].
  - assert (E : 2 ^ k * 2 = 2 ^ (k + 1)) by (rewrite Z.pow_add_r by lia; lia).
    pose proof (Z.div_mod value 2 ltac:(lia)). pose proof (Z.mod_pos_bound value 2 ltac:(lia)).
    unfold u64. rewrite E, Z.mod_small by lia. apply IH; lia.
  - exists k. rewrite Z.pow_add_r by lia. pose proof (Z.div_mod value 2 ltac:(lia)). pose proof (Z.mod_pos_bound value 2 ltac:(lia)). split; [done|lia].
Qed.
(** The largest power of two that is not larger. *)
Lemma round_down_spec value : 0 < value < 2 ^ 64 ->
  exists j, round_down_to_power_of_two value = Ok (2 ^ j) /\ 0 <= j /\ 2 ^ j <= value < 2 ^ (j + 1).
Proof.
  intros Hv. destruct (round_down_loop_ok value Hv 63 0) as (j & E & Hj); [lia|cbn; lia|lia|]. exists j. split; [|done].
  unfold round_down_to_power_of_two. change (2 ^ 0) with 1 in E. rewrite E. cbn. by rewrite (proj2 (Z.eqb_neq _ _)) by lia.
Qed.

Lemma hex_digit_value d : 0 <= d < 16 -> hex_value (hex_digit d) = Ok d.
Proof.
  intros Hd. unfold hex_value, hex_digit. destruct (Z.ltb_spec d 10).
  - rewrite (proj2 (Z.leb_le _ _)), (proj2 (Z.leb_le _ _)) by lia. cbn. f_equal. lia.
  - rewrite (proj2 (Z.leb_gt (87 + d) 57)), andb_false_r, (proj2 (Z.leb_le _ _)), (proj2 (Z.leb_le _ _)) by lia. cbn. f_equal. lia.
Qed.
Lemma decode_hex_of bytes : Forall (fun b => 0 <= b < 256) bytes -> decode_pairs (hex_of bytes) = Ok bytes.
Proof.
  induction 1 as [|b bytes Hb _ IH]; [done|]. cbn [hex_of decode_pairs]. destruct (nibbles b Hb) as (H1 & H2 & H3).
  rewrite !hex_digit_value, IH by done. cbn. by rewrite H3, Z.mod_small.
Qed.
Lemma length_hex_of bytes : length (hex_of bytes) = (2 * length bytes)%nat.
Proof. induction bytes as [|b bytes IH]; [done|]. cbn [hex_of length]. rewrite IH. lia. Qed.
(** The values exchanged at start-up. *)
Lemma pmi_value_roundtrip bytes : Forall (fun b => 0 <= b < 256) bytes -> Z.of_nat (length bytes) <= pmi_max_binary_bytes ->
  exists s, encode_pmi_value bytes = Ok s /\ Z.of_nat (length s) < LCT_PMI_STRING_LIMIT
    /\ decode_pmi_value s (length bytes) = Ok bytes.
Proof.
  intros Hb Hl. exists (hex_of bytes). unfold encode_pmi_value, decode_pmi_value. rewrite LCI_Assert_true by (by apply Z.leb_le).
  split; [done|]. rewrite length_hex_of. split; [change pmi_max_binary_bytes with 127 in Hl; unfold LCT_PMI_STRING_LIMIT; lia|].
  rewrite LCI_Assert_true by (by apply Nat.eqb_eq). by apply decode_hex_of.
Qed.

(** ** Locality *)

Section Locality.
Variables (me : Z) (my_host : list Z).

(** What the loop has after the hosts [done] of [n]. *)
Definition locality_inv (n : nat) (hosts : list (list Z)) (st : list Z * list Z * Z) : Prop :=
  let '(g2l, l2g, lr) := st in
  length g2l = n
  /\ (forall rank, Z.of_nat rank ∈ l2g <-> exists h, hosts !! rank = Some h /\ c_string h = my_host)
  /\ (forall rank l, l2g !! l = Some rank -> 0 <= rank)
  /\ (forall rank l, g2l !! rank = Some (Z.of_nat l) <-> (rank < n)%nat /\ l2g !! l = Some (Z.of_nat rank))
  /\ (forall rank l, g2l !! rank = Some l -> -1 <= l)
  /\ (lr = -1 \/ exists l, lr = Z.of_nat l /\ l2g !! l = Some me).

Lemma locality_step_inv n hosts host st : (length hosts < n)%nat -> locality_inv n hosts st ->
  locality_inv n (hosts ++ [host]) (locality_step me my_host st (length hosts, host)).
Proof.
  intros Hn. destruct st as [[g2l l2g] lr]. intros (H1 & H2 & H3 & H4 & H5 & H6). unfold locality_step.
  assert (Hnew : forall rank, (exists h, (hosts ++ [host]) !! rank = Some h /\ c_string h = my_host) <->
    (exists h, hosts !! rank = Some h /\ c_string h = my_host) \/ (rank = length hosts /\ c_string host = my_host)).
  { intros rank. split.
    - intros (h & Hh & E). apply lookup_app_Some in Hh as [Hh|[Hle Hh]]; [left; by exists h|right].
      apply list_lookup_singleton_Some in Hh as [Hz <-]. split; [lia|done].
    - intros [(h & Hh & E)|[-> E]]; [exists h; split; [by apply lookup_app_l_Some|done]|]. exists host. split; [|done].
      rewrite lookup_app_r, Nat.sub_diag by done. done. }
  destruct (bool_decide_reflect (my_host = c_string host)) as [E|E].
  - assert (Hfresh : forall l, l2g !! l <> Some (Z.of_nat (length hosts))).
    { intros l Hl. apply list_elem_of_lookup_2, H2 in Hl as (h & Hh & _). apply lookup_lt_Some in Hh. lia. }
    split_and!.
    + by rewrite length_insert.
    + intros rank. rewrite Hnew, elem_of_app, list_elem_of_singleton, H2, Nat2Z.inj_iff. naive_solver.
    + intros rank l [Hl|[_ Hl]]%lookup_app_Some; [by eapply H3|]. apply list_lookup_singleton_Some in Hl as [_ <-]. lia.
    + intros rank l. destruct (decide (rank = length hosts)) as [->|Hne].
      * rewrite list_lookup_insert_eq by lia. split.
        -- intros [= El]. apply Nat2Z.inj in El as <-. split; [lia|]. by rewrite lookup_app_r, Nat.sub_diag.
        -- intros [_ [Hl|[Hle Hl]]%lookup_app_Some]; [by destruct (Hfresh l)|]. apply list_lookup_singleton_Some in Hl as [Hz _].
           do 2 f_equal. lia.
      * rewrite list_lookup_insert_ne, H4 by done. split; [intros [? Hl]; split; [done|by apply lookup_app_l_Some]|].
        intros [? [Hl|[Hle Hl]]%lookup_app_Some]; [done|]. apply list_lookup_singleton_Some in Hl as [_ Hz]. lia.
    + intros rank l. destruct (decide (rank = length hosts)) as [->|Hne]; [rewrite list_lookup_insert_eq by lia; intros [= <-]; lia|].
      rewrite list_lookup_insert_ne by done. apply H5.
    + destruct (Z.eqb_spec (Z.of_nat (length hosts)) me) as [<-|].
      * right. exists (length l2g). split; [done|]. by rewrite lookup_app_r, Nat.sub_diag.
      * destruct H6 as [?|(l & El & Hl)]; [by left|right]. exists l. split; [done|by apply lookup_app_l_Some].
  - split_and!; try done. intros rank. rewrite Hnew, H2. naive_solver.
Qed.
Lemma locality_ok hosts : locality_inv (length hosts) hosts (locality me my_host hosts).
Proof.
  unfold locality. set (n := length hosts). assert (H : forall done, (length done <= n)%nat ->
    locality_inv n done (foldl (locality_step me my_host) (replicate n (-1), [], -1) (imap pair done))).
  { induction done as [|h done IH] using rev_ind; intros Hl.
    - cbn [imap foldl]. split_and!; try done.
      + by rewrite length_replicate.
      + intros rank. split; [by intros ?%elem_of_nil|by intros (? & ? & _)].
      + intros rank l. split; [intros [E _]%lookup_replicate; lia|by intros [_ ?]].
      + intros rank l [-> _]%lookup_replicate. lia.
      + by left.
    - rewrite length_app in Hl. cbn [length] in Hl. rewrite imap_app, foldl_app. cbn [imap foldl Nat.add]. rewrite Nat.add_0_r.
      apply locality_step_inv; [lia|]. apply IH. lia. }
  by apply H.
Qed.
End Locality.

(** Which ranks share a host. The local ranks of a context are exactly the ranks with
    the same host name, [global_to_local] and [local_to_global] are inverse to each other
    and the own rank is where [local_rank] says. *)
Theorem shm_locality enable me nonce my_host records ctx :
  records <> [] -> alloc_context enable me nonce my_host records = Ok ctx ->
  (forall rank, Z.of_nat rank ∈ local_to_global ctx <-> exists h, records !! rank = Some (true, h) /\ c_string h = my_host)
  /\ (forall rank l, (rank < length records)%nat ->
        global_to_local ctx !! rank = Some (Z.of_nat l) <-> local_to_global ctx !! l = Some (Z.of_nat rank))
  /\ local_size ctx = Z.of_nat (length (local_to_global ctx))
  /\ local_to_global ctx !! Z.to_nat (local_rank ctx) = Some me.
Proof.
  intros Hne Ha. unfold alloc_context in Ha. destruct (Z.leb_spec (Z.of_nat (length records)) 0); [by destruct records|].
  destruct (forallb fst records) eqn:Ef; [|done]. cbn [negb] in Ha.
  pose proof (locality_ok me my_host (snd <$> records)) as Hl. rewrite length_fmap in Hl.
  destruct (locality me my_host (snd <$> records)) as [[g2l l2g] lr]. destruct Hl as (H1 & H2 & H3 & H4 & H5 & H6).
  destruct (Z.ltb_spec lr 0); [done|]. injection Ha as <-. cbn [local_to_global global_to_local local_size local_rank]. split_and!.
  - intros rank. rewrite H2. split.
    + intros (h & Hh & E). rewrite list_lookup_fmap in Hh. destruct (records !! rank) as [[b h']|] eqn:Er; [|done]. injection Hh as ->.
      exists h. split; [|done]. rewrite forallb_forall in Ef. do 2 f_equal. apply (Ef (b, h)), list_elem_of_In. by eapply list_elem_of_lookup_2.
    + intros (h & Hh & E). exists h. by rewrite list_lookup_fmap, Hh.
  - intros rank l Hr. rewrite H4. naive_solver.
  - done.
  - destruct H6 as [->|(l & -> & Hl)]; [lia|]. by rewrite Nat2Z.id.
Qed.
Lemma shm_locality_witness :
  exists ctx, alloc_context true 2 (1, 2) [97] [(true, [97; 0]); (true, [98; 0]); (true, [97; 0])] = Ok ctx
    /\ local_to_global ctx !! Z.to_nat (local_rank ctx) = Some 2.
Proof.
  eexists. split; [vm_compute; reflexivity|]. eapply (shm_locality true 2 (1, 2) [97] [(true, [97; 0]); (true, [98; 0]); (true, [97; 0])]);
    [done|vm_compute; reflexivity].
Defined.

(** ** Routes *)

Definition has_route (rs : list (option nat)) (rank : Z) : Prop := exists ob, rs !! Z.to_nat rank = Some (Some ob).

Lemma attach_peers_routes page ctx uid attempts handles cs peers : forall d o d' o',
  Forall (fun p => 0 <= p < Z.of_nat (length (routes d))) peers ->
  attach_peers page ctx uid attempts handles cs peers d o = Ok ((d', true), o') ->
  dev_context d' = dev_context d /\ dev_owner d' = dev_owner d /\ max_message_size d' = max_message_size d /\ length (routes d') = length (routes d)
  /\ forall rank, 0 <= rank -> has_route (routes d') rank <-> has_route (routes d) rank \/ (rank ∈ peers /\ rank <> global_rank ctx).
Proof.
  induction peers as [|p peers IH]; intros d o d' o' HF H; cbn [attach_peers] in H.
  - injection H as <- <-. split_and!; [done..|]. intros rank _. rewrite elem_of_nil. naive_solver.
  - apply Forall_cons in HF as [Hp HF]. destruct (Z.eqb_spec p (global_rank ctx)) as [->|Hne].
    + destruct (IH _ _ _ _ HF H) as (H1 & H2 & H3 & H4 & Hr). split_and!; [done..|]. intros rank H0. rewrite Hr, elem_of_cons by done. naive_solver.
    + apply st_bind_Ok in H as (e & o1 & _ & H). apply st_bind_Ok in H as (h & o2 & _ & H). apply st_bind_Ok in H as (m & o3 & _ & H).
      destruct m as [m|]; [|done]. apply IH in H as (H1 & H2 & H3 & H4 & Hr); [|cbn [set_peers routes]; by rewrite length_insert].
      cbn [set_peers routes dev_context dev_owner max_message_size] in *. rewrite length_insert in H4. split_and!; [done..|].
      intros rank H0. rewrite Hr, elem_of_cons by done. unfold has_route. destruct (decide (rank = p)) as [->|Hrp].
      * rewrite list_lookup_insert_eq by lia. naive_solver.
      * rewrite list_lookup_insert_ne by lia. naive_solver.
Qed.
(** A message fits in a slot and in a packet. *)
Lemma local_geometry_max a sc em : local_geometry a = Ok (sc, em, true) ->
  exists payload, da_packet_payload a = Some payload /\ em = Z.min (payload_capacity (da_slot_size a)) payload.
Proof.
  unfold local_geometry. destruct (da_packet_payload a) as [payload|]; [|done]. destruct (_ || _); [done|].
  intros (n & _ & H)%bind_Ok. destruct (_ || _); [done|]. injection H as _ <- _. by exists payload.
Qed.
Lemma device_create_routes page ctx a uid c o d o1 :
  device_create page ctx a uid c o = Ok ((d, true), o1) -> 1 < local_size ctx -> 0 <= global_rank ctx < global_size ctx ->
  dev_context d = Some ctx /\ length (routes d) = Z.to_nat (global_size ctx)
  /\ (exists payload, da_packet_payload a = Some payload /\ max_message_size d = Z.min (payload_capacity (da_slot_size a)) payload)
  /\ forall rank, 0 <= rank -> has_route (routes d) rank <-> rank = global_rank ctx.
Proof.
  intros H Hl Hme. unfold device_create in H. rewrite (proj2 (Z.ltb_lt _ _) Hl) in H.
  apply st_bind_Ok in H as ([[sc em] ok] & o2 & Hg & H). apply st_bind_Ok in H as (ow & o3 & Hw & H). injection H as <- Eok <-.
  cbn [dev_context routes max_message_size]. cbn [negb orb] in Eok. apply andb_true_iff in Eok as [Eok Ew]. apply bool_decide_eq_true in Ew as [m ->].
  apply andb_true_iff in Eok as [-> _]. assert (local_geometry a = Ok (sc, em, true)) as Hg' by (unfold lift in Hg; by destruct (local_geometry a); simplify_eq).
  split; [done|]. rewrite length_insert, length_replicate. split; [done|]. split; [by eapply local_geometry_max|]. intros rank H0. unfold has_route.
  destruct (decide (rank = global_rank ctx)) as [->|Hne].
  - rewrite list_lookup_insert_eq by (rewrite length_replicate; lia). naive_solver.
  - rewrite list_lookup_insert_ne by lia. split; [|done]. intros (ob & [E _]%lookup_replicate). done.
Qed.

Lemma alloc_context_sizes enable me nonce my_host records ctx :
  records <> [] -> alloc_context enable me nonce my_host records = Ok ctx ->
  global_size ctx = Z.of_nat (length records) /\ global_rank ctx = me
  /\ Forall (fun p => 0 <= p < Z.of_nat (length records)) (local_to_global ctx) /\ me ∈ local_to_global ctx.
Proof.
  intros Hne Ha. unfold alloc_context in Ha. destruct (Z.leb_spec (Z.of_nat (length records)) 0); [by destruct records|].
  destruct (forallb fst records); [|done]. cbn [negb] in Ha.
  pose proof (locality_ok me my_host (snd <$> records)) as Hl. rewrite length_fmap in Hl.
  destruct (locality me my_host (snd <$> records)) as [[g2l l2g] lr]. destruct Hl as (_ & H2 & H3 & _ & _ & H6).
  destruct (Z.ltb_spec lr 0); [done|]. injection Ha as <-. cbn [global_size global_rank local_to_global]. split_and!; try done.
  - apply Forall_forall. intros p Hp. pose proof Hp as [l Hpl]%list_elem_of_lookup. apply H3 in Hpl. split; [done|].
    rewrite <- (Z2Nat.id p) in Hp by done. apply H2 in Hp as (h & Hh & _). apply lookup_lt_Some in Hh. rewrite length_fmap in Hh. lia.
  - destruct H6 as [->|(l & _ & Hl)]; [lia|]. by eapply list_elem_of_lookup_2.
Qed.

(** The devices that are set up; [ok] is the rank's own outcome, one of those that all agree on. *)
Lemma device_finish_some c d before ok after uf o dev o' :
  device_finish c d (before ++ ok :: after) uf o = Ok (Some dev, o') ->
  ok = true /\ dev_context dev = dev_context d /\ routes dev = routes d /\ max_message_size dev = max_message_size d
  /\ dev_enabled dev = match dev_context d with Some ctx => 1 <? local_size ctx | None => false end.
Proof.
  unfold device_finish. rewrite forallb_app. cbn [forallb id]. intros H. destruct (forallb id before); [|done]. destruct ok; [|done].
  destruct (forallb id after); [|done]. cbn [andb negb] in H.
  destruct (dev_owner d) as [m|]; [destruct (unlink_name uf m o) as [[b m'] o1]|]; by injection H as <- _.
Qed.

(** C22: what a device can reach. When the set-up of a device returns, the rank can send
    through shared memory exactly if shared memory is enabled for the device and for its
    context and there is another rank on the host; then to the ranks of the host, itself
    included, the messages that fit in a slot and in a packet. A set-up returns only where
    it succeeded on all ranks. *)
Theorem device_reaches_host page context enable a uid su o dev o' :
  (forall ctx, context = Some ctx -> exists ctx_enable me nonce my_host records, alloc_context ctx_enable me nonce my_host records = Ok ctx) ->
  alloc_device page context enable a uid su o = Ok (Some dev, o') ->
  (forall rank size, can_send dev rank size = true <->
     exists ctx payload, context = Some ctx /\ enable = true /\ ctx_enabled ctx = true /\ 1 < local_size ctx
       /\ rank ∈ local_to_global ctx /\ da_packet_payload a = Some payload
       /\ size <= payload_capacity (da_slot_size a) /\ size <= payload)
  /\ (shm_off enable context = false -> forallb id (su_status_before su ++ su_status_after su) = true).
Proof.
  intros Hctx H. destruct context as [ctx|]; cbn [alloc_device] in H.
  2: { injection H as <- <-. split; [|unfold shm_off; by rewrite orb_true_r]. intros rank size. split; [done|]. by intros (? & ? & ? & _). }
  destruct (shm_off enable (Some ctx)) eqn:Eoff.
  { injection H as <- <-. split; [|done]. intros rank size. split; [done|]. intros (ctx' & payload & [= <-] & -> & He & Hl & Hin & _). exfalso.
    unfold shm_off in Eoff. rewrite He in Eoff. cbn in Eoff. destruct (Hctx ctx eq_refl) as (e & me & nonce & host & records & Ha).
    apply Z.leb_le in Eoff. destruct records as [|x records]; [unfold alloc_context in Ha; by injection Ha as <-|].
    destruct (alloc_context_sizes e me nonce host (x :: records) ctx ltac:(done) Ha) as (Hgs & _). cbn in Hgs. lia. }
  destruct (Hctx ctx eq_refl) as (e & me & nonce & host & records & Ha).
  apply st_bind_Ok in H as ([d ok] & o1 & Hd & H). apply st_bind_Ok in H as ([d' ok'] & o2 & Hp & H).
  pose proof H as Hs. unfold device_finish in Hs. destruct (forallb id (su_status_before su ++ ok' :: su_status_after su)) eqn:Es; [|done].
  clear Hs. apply device_finish_some in H as (-> & Ec & Er & Em & Ee).
  assert (Hall : forallb id (su_status_before su ++ su_status_after su) = true) by (rewrite forallb_app in *; cbn [forallb id] in Es; done).
  split; [|done]. unfold device_attach in Hp. destruct ok; [|done].
  assert (Hne : records <> []).
  { intros ->. unfold alloc_context in Ha. injection Ha as <-. unfold shm_off in Eoff. cbn in Eoff. by rewrite !orb_true_r in Eoff. }
  destruct (alloc_context_sizes e me nonce host records ctx Hne Ha) as (Hgs & Hgr & Hin & Hmine).
  apply orb_false_iff in Eoff as [Een%negb_false_iff [Ece%negb_false_iff _]%orb_false_iff].
  assert (Hc1 : dev_context d = Some ctx /\ length (routes d) = Z.to_nat (global_size ctx)).
  { unfold device_create in Hd. apply st_bind_Ok in Hd as ([[sc em] ok] & o3 & _ & Hd). apply st_bind_Ok in Hd as (ow & o4 & _ & Hd).
    injection Hd as <- _ _. split; [done|]. cbn [routes]. destruct ow; rewrite ?length_insert; by rewrite length_replicate. }
  destruct Hc1 as [Hc Hlen].
  destruct (attach_peers_routes _ _ _ _ _ _ _ _ _ _ _ ltac:(rewrite Hlen, Hgs, Nat2Z.id; exact Hin) Hp) as (F1 & _ & F3 & F4 & Hr').
  intros rank size. unfold can_send. rewrite Ee, Ec, F1, Hc. destruct (Z.ltb_spec 1 (local_size ctx)) as [Hl|Hl]; cbn [andb].
  2: { split; [done|]. intros (ctx' & ? & [= <-] & _ & _ & ? & _). lia. }
  rewrite Forall_forall in Hin. pose proof (Hin me Hmine) as Hme.
  destruct (device_create_routes page ctx a uid (su_calls su) o d o1) as (_ & _ & (payload & Epay & Emax) & Hr); [done|done|lia|].
  assert (Hroute : 0 <= rank -> has_route (routes d') rank <-> rank ∈ local_to_global ctx).
  { intros H0. rewrite Hr', Hr, Hgr by done. destruct (decide (rank = me)) as [->|]; naive_solver. }
  rewrite Er, Em, F3, Emax, !andb_true_iff, Z.ltb_lt, !Z.leb_le, Z.min_glb_iff. split.
  - intros [[[H0 _] [? ?]] Hm]. exists ctx, payload. split_and!; try done. apply Hroute; [done|].
    unfold has_route. destruct (routes d' !! Z.to_nat rank) as [[ob|]|]; [by exists ob|done..].
  - intros (ctx' & payload' & [= <-] & _ & _ & _ & Hrk & Ep & ? & ?). assert (payload' = payload) as -> by congruence.
    pose proof (Hin rank Hrk) as Hrg. destruct (proj2 (Hroute (proj1 Hrg)) Hrk) as [ob ->]. rewrite Hgs. split_and!; try done; lia.
Qed.
(** Two ranks of a host: rank 1 has created its ring when rank 0 creates its own and
    attaches. *)
Module TwoRanks.
Definition records : list (bool * list Z) := [(true, [97; 0]); (true, [97; 0])].
Definition ctx (me : Z) : context_t := mk_context true me 2 me 2 [0; 1] [0; 1] (5, 6).
Definition args : device_args := mk_device_args 1024 128 (4%nat, 1%nat) (Some 8192).
Definition calls_ok : calls := mk_calls true true true true true true true 65536.
Definition no_device : device_t := mk_device false None 0 0 0 None [] [].
Definition no_os : os := mk_os [] [] [] [].
Definition value {A} (d : A) (r : result A) : A := match r with Ok a => a | Err _ => d end.
Definition first : (device_t * bool) * os := value (no_device, false, no_os) (device_create 4096 (ctx 1) args 9 calls_ok no_os).
Definition around : surroundings := mk_surroundings calls_ok (fun _ => calls_ok) false [] [my_handle first.1.1] [] [true].
Definition final : option device_t * os := value (None, no_os) (alloc_device 4096 (Some (ctx 0)) true args 9 around first.2).
End TwoRanks.
Lemma device_reaches_host_witness : exists dev, TwoRanks.final.1 = Some dev /\ can_send dev 1 104 = true.
Proof.
  destruct TwoRanks.final as [[dev|] o'] eqn:E; [|vm_compute in E; discriminate E]. exists dev. split; [reflexivity|].
  destruct (device_reaches_host 4096 (Some (TwoRanks.ctx 0)) true TwoRanks.args 9 TwoRanks.around TwoRanks.first.2 dev o') as [H _].
  - intros c [= <-]. exists true, 0, (5, 6), [97], TwoRanks.records. vm_compute. reflexivity.
  - vm_compute in E. injection E as <- <-. vm_compute. reflexivity.
  - apply H. exists (TwoRanks.ctx 0), 8192. split_and!; try (vm_compute; reflexivity).
    + right. left.
    + vm_compute. discriminate.
    + lia.
Defined.
