(* ===== verification/Bootstrap.v ===== *)
(** * Start-up exchange

    src/src/bootstrap/bootstrap.cpp: the all-to-all exchange of fixed-size records
    through the key-value store of the process manager, whose values are strings. The
    store keeps the last value that was published under a key. *)
From stdpp Require Import base numbers functions list gmap strings.
From Stdlib Require Import ZArith Lia.
From S2P Require Import Prelude Text.

Definition PMI_STRING_LIMIT : Z := 255.

(** ** Values *)

Definition hexCharToValue (c : Z) : result Z :=
  if (48 <=? c) && (c <=? 57) then Ok (c - 48)
  else if (97 <=? c) && (c <=? 102) then Ok (c - 97 + 10)
  else if (65 <=? c) && (c <=? 70) then Ok (c - 65 + 10)
  else Err (Thrown "Invalid hex character").
Definition hexToByte (hi lo : Z) : result Z :=
  h ← hexCharToValue hi ; l ← hexCharToValue lo ; Ok (Z.lor (Z.shiftl h 4) l mod 256).
Definition hex_pair (byte : Z) : list Z := [digit (Z.land (Z.shiftr byte 4) 0x0f); digit (Z.land byte 0x0f)].
(** The string without its terminator, which the caller's [memset] provides. *)
Definition encode_value (origin : list Z) : result (list Z) :=
  LCI_Assert (2 * Z.of_nat (length origin) + 1 <=? PMI_STRING_LIMIT) "Buffer to store encoded address is too short!" ;;
  Ok (concat (hex_pair <$> origin)).
Fixpoint decode_bytes (encoded : list Z) (nbytes : nat) : result (list Z) :=
  match nbytes, encoded with
  | O, _ => Ok []
  | S nbytes, hi :: lo :: encoded => b ← hexToByte hi lo ; bs ← decode_bytes encoded nbytes ; Ok (b :: bs)
  | S _, _ => Err (Undefined "read past the encoded value")
  end.
Definition decode_value (encoded : list Z) (nbytes : nat) : result (list Z) :=
  LCI_Assert (length encoded =? 2 * nbytes)%nat "Encoded buffer length is not correct!" ;;
  decode_bytes encoded nbytes.

(** ** The exchange *)

(** "LCI_BOOTSTRAP_%d_%d_%d": round, receiver, sender. *)
Definition bootstrap_key (round receiver sender : Z) : list Z :=
  chars "LCI_BOOTSTRAP_" ++ print_d round ++ 95 :: print_d receiver ++ 95 :: print_d sender.
(** Record [i] of a buffer. *)
Definition record (size i : nat) (buf : list Z) : list Z := take size (drop (i * size) buf).

(** What a rank publishes before the barrier, for the receivers in order. *)
Fixpoint publish_from (round rank_me : Z) (size : nat) (sendbuf : list Z) (receivers : list nat) : result (list (list Z * list Z)) :=
  match receivers with
  | [] => Ok []
  | i :: receivers =>
      value ← encode_value (record size i sendbuf) ;
      rest ← publish_from round rank_me size sendbuf receivers ;
      Ok ((bootstrap_key round (Z.of_nat i) rank_me, value) :: rest)
  end.
Definition alltoall_publish (round : Z) (rank_n : nat) (rank_me : Z) (size : nat) (sendbuf : list Z) : result (list (list Z * list Z)) :=
  publish_from round rank_me size sendbuf (seq 0 rank_n).
(** What it reads after the barrier, from the senders in order. *)
Fixpoint read_from (kvs : gmap (list Z) (list Z)) (round rank_me : Z) (size : nat) (senders : list nat) : result (list Z) :=
  match senders with
  | [] => Ok []
  | i :: senders =>
      match kvs !! bootstrap_key round rank_me (Z.of_nat i) with
      | None => Err (AssertFailed "LCT_pmi_getname")
      | Some value =>
          bytes ← decode_value value size ;
          rest ← read_from kvs round rank_me size senders ;
          Ok (bytes ++ rest)
      end
  end.
Definition alltoall_read (kvs : gmap (list Z) (list Z)) (round : Z) (rank_n : nat) (rank_me : Z) (size : nat) : result (list Z) :=
  read_from kvs round rank_me size (seq 0 rank_n).
(** The store after publications in some order. *)
Definition publish_all (kvs : gmap (list Z) (list Z)) (puts : list (list Z * list Z)) : gmap (list Z) (list Z) :=
  foldl (fun kvs p => <[p.1 := p.2]> kvs) kvs puts.

(** ** Values round-trip *)

Definition is_byte (b : Z) : Prop := 0 <= b < 256.
Lemma hexCharToValue_digit d : 0 <= d < 16 -> hexCharToValue (digit d) = Ok d.
Proof.
  intros H. unfold hexCharToValue, digit. destruct (Z.ltb_spec d 10).
  - rewrite (proj2 (andb_true_iff _ _)) by lia. f_equal. lia.
  - rewrite (proj2 (andb_false_iff _ _)) by lia. rewrite (proj2 (andb_true_iff _ _)) by lia. f_equal. lia.
Qed.
Lemma hexToByte_pair b : is_byte b -> hexToByte (digit (Z.land (Z.shiftr b 4) 0x0f)) (digit (Z.land b 0x0f)) = Ok b.
Proof.
  intros H. destruct (nibbles b H) as (H1 & H2 & H3).
  assert (Z.land (Z.shiftr b 4) 0x0f = Z.shiftr b 4) as ->.
  { change 0x0f with (Z.ones 4). rewrite Z.land_ones by lia. by apply Z.mod_small. }
  unfold hexToByte. rewrite !hexCharToValue_digit by done. cbn [mbind result_bind]. by rewrite H3, Z.mod_small.
Qed.
Lemma value_roundtrip origin :
  Forall is_byte origin -> 2 * Z.of_nat (length origin) + 1 <= PMI_STRING_LIMIT ->
  exists v, encode_value origin = Ok v /\ decode_value v (length origin) = Ok origin.
Proof.
  intros Hb Hl. unfold encode_value. rewrite LCI_Assert_true by lia. eexists. split; [done|]. unfold decode_value.
  assert (length (concat (hex_pair <$> origin)) = 2 * length origin)%nat as ->.
  { clear. induction origin as [|b l IH]; [done|]. rewrite fmap_cons. cbn [concat]. rewrite length_app, IH. cbn. lia. }
  rewrite LCI_Assert_true by (apply Nat.eqb_refl). cbn [mbind result_bind].
  clear Hl. induction Hb as [|b l Hb _ IH]; [done|]. rewrite fmap_cons. cbn [concat length]. unfold hex_pair at 1. cbn [app decode_bytes].
  rewrite hexToByte_pair by done. cbn [mbind result_bind]. by rewrite IH.
Qed.
Lemma bootstrap_key_inj r a b r' a' b' : 0 <= r -> 0 <= a -> 0 <= b -> 0 <= r' -> 0 <= a' -> 0 <= b' ->
  bootstrap_key r a b = bootstrap_key r' a' b' -> r = r' /\ a = a' /\ b = b'.
Proof.
  intros Hr Ha Hb Hr' Ha' Hb' E. unfold bootstrap_key in E. apply app_inv_head in E.
  apply (fields_inj is_dec_digit) in E as [E1 E]; [|by apply print_d_digits|by apply print_d_digits|done].
  apply (fields_inj is_dec_digit) in E as [E2 E3]; [|by apply print_d_digits|by apply print_d_digits|done].
  by split_and!; apply print_d_inj.
Qed.

(** ** Everyone reads what was meant for it *)

Section Exchange.
Variables (round : Z) (rank_n size : nat) (bufs : nat -> list Z).
Hypothesis Hround : 0 <= round.
Hypothesis Hsize : 2 * Z.of_nat size + 1 <= PMI_STRING_LIMIT.
Hypothesis Hbufs : forall r, (r < rank_n)%nat -> length (bufs r) = (rank_n * size)%nat /\ Forall is_byte (bufs r).

Definition put_of (r i : nat) : list Z * list Z :=
  (bootstrap_key round (Z.of_nat i) (Z.of_nat r), concat (hex_pair <$> record size i (bufs r))).

Lemma record_length r i : (r < rank_n)%nat -> (i < rank_n)%nat -> length (record size i (bufs r)) = size.
Proof. intros Hr Hi. unfold record. rewrite length_take, length_drop. destruct (Hbufs r Hr) as [-> _]. nia. Qed.
Lemma record_bytes r i : (r < rank_n)%nat -> Forall is_byte (record size i (bufs r)).
Proof. intros Hr. unfold record. by apply Forall_take, Forall_drop, Hbufs. Qed.
Lemma record_value r i : (r < rank_n)%nat -> (i < rank_n)%nat ->
  encode_value (record size i (bufs r)) = Ok (put_of r i).2 /\ decode_value (put_of r i).2 size = Ok (record size i (bufs r)).
Proof.
  intros Hr Hi. destruct (value_roundtrip (record size i (bufs r))) as (v & E & D).
  - by apply record_bytes.
  - by rewrite record_length.
  - rewrite record_length in D by done. unfold encode_value in *. apply bind_Ok in E as (u & -> & E). injection E as <-. done.
Qed.
Lemma publish_from_ok r l : (r < rank_n)%nat -> (forall i, i ∈ l -> (i < rank_n)%nat) ->
  publish_from round (Z.of_nat r) size (bufs r) l = Ok (put_of r <$> l).
Proof.
  intros Hr. induction l as [|i l IH]; intros Hl; [done|]. cbn [publish_from].
  destruct (record_value r i Hr ltac:(apply Hl; left)) as [-> _]. cbn [mbind result_bind].
  rewrite IH by (intros j Hj; apply Hl; by right). done.
Qed.
(** All publications of the round, the ranks one after the other. *)
Definition all_puts : list (list Z * list Z) := concat ((fun r => put_of r <$> seq 0 rank_n) <$> seq 0 rank_n).

Lemma put_of_inj r i r' i' : (put_of r i).1 = (put_of r' i').1 -> r = r' /\ i = i'.
Proof. intros E. apply bootstrap_key_inj in E; lia. Qed.
Lemma all_puts_keys : NoDup all_puts.*1.
Proof.
  unfold all_puts. assert (H : forall l, NoDup l -> NoDup (concat ((fun r => put_of r <$> seq 0 rank_n) <$> l)).*1); [|apply H, NoDup_seq].
  induction l as [|r l IH]; intros Hl; [constructor|]. apply NoDup_cons in Hl as [Hr Hl]. rewrite fmap_cons. cbn [concat]. rewrite fmap_app. apply NoDup_app. split_and!.
  - rewrite <- list_fmap_compose. apply NoDup_fmap_2_strong; [|apply NoDup_seq]. intros i i' _ _ E. by apply put_of_inj in E as [_ ->].
  - intros k H1 H2. apply list_elem_of_fmap in H1 as (x & -> & H1), H2 as (y & E & H2). apply list_elem_of_fmap in H1 as (i & -> & _).
    rewrite list_elem_of_In, List.in_concat in H2. destruct H2 as (z & Hz & Hy). apply list_elem_of_In in Hz, Hy.
    apply list_elem_of_fmap in Hz as (r' & -> & Hr'). apply list_elem_of_fmap in Hy as (i' & -> & _). apply put_of_inj in E as [-> _]. done.
  - by apply IH.
Qed.
Lemma publish_all_lookup kvs puts k v : NoDup puts.*1 -> (k, v) ∈ puts -> publish_all kvs puts !! k = Some v.
Proof.
  unfold publish_all. revert kvs. induction puts as [|[k' v'] puts IH]; intros kvs Hn H; [by apply not_elem_of_nil in H|].
  rewrite fmap_cons in Hn. apply NoDup_cons in Hn as [Hk Hn]. cbn [foldl fst snd] in *. apply list_elem_of_In in H as [[= -> ->]|H].
  - clear IH Hn. assert (Hl : forall puts kvs, k ∉ puts.*1 -> foldl (fun kvs p => <[p.1 := p.2]> kvs) kvs puts !! k = (kvs : gmap (list Z) (list Z)) !! k).
    { clear. induction puts as [|p puts IH]; intros kvs Hk; [done|]. cbn [foldl]. rewrite fmap_cons, not_elem_of_cons in Hk. destruct Hk as [Hk1 Hk2].
      rewrite IH by done. by apply lookup_insert_ne. }
    rewrite Hl by done. apply lookup_insert_eq.
  - apply IH; [done|]. by apply list_elem_of_In.
Qed.
Lemma read_from_ok kvs me l : (me < rank_n)%nat -> (forall i, i ∈ l -> (i < rank_n)%nat) ->
  (forall i, (i < rank_n)%nat -> kvs !! (put_of i me).1 = Some (put_of i me).2) ->
  read_from kvs round (Z.of_nat me) size l = Ok (concat ((fun i => record size me (bufs i)) <$> l)).
Proof.
  intros Hme Hl Hk. induction l as [|i l IH]; [done|]. cbn [read_from]. pose proof (Hl i ltac:(left)) as Hi.
  specialize (Hk i Hi) as Hki. cbn [put_of fst] in Hki. rewrite Hki. destruct (record_value i me Hi Hme) as [_ ->]. cbn [mbind result_bind].
  rewrite IH by (intros j Hj; apply Hl; by right). done.
Qed.

Lemma exchange_ok :
  exists puts_of : nat -> list (list Z * list Z),
    (forall r, (r < rank_n)%nat -> alltoall_publish round rank_n (Z.of_nat r) size (bufs r) = Ok (puts_of r))
    /\ forall kvs puts me, puts ≡ₚ concat (puts_of <$> seq 0 rank_n) -> (me < rank_n)%nat ->
         alltoall_read (publish_all kvs puts) round rank_n (Z.of_nat me) size
         = Ok (concat ((fun i => record size me (bufs i)) <$> seq 0 rank_n)).
Proof.
  assert (Hseq : forall i, i ∈ seq 0 rank_n -> (i < rank_n)%nat) by (intros i H; apply elem_of_seq in H; lia).
  exists (fun r => put_of r <$> seq 0 rank_n). split; [intros r Hr; by apply publish_from_ok|].
  intros kvs puts me Hp Hme. apply read_from_ok; [done|done|]. intros i Hi. apply publish_all_lookup.
  - rewrite Hp. apply all_puts_keys.
  - rewrite <- surjective_pairing, Hp. rewrite list_elem_of_In, List.in_concat. exists (put_of i <$> seq 0 rank_n). rewrite <- !list_elem_of_In.
    split; apply list_elem_of_fmap; [exists i|exists me]; (split; [done|]); apply elem_of_seq; lia.
Qed.
(** C31: the start-up exchange is an all-to-all. In whatever order the publications of the
    ranks reach the store, and whatever it held before, each rank reads from each rank
    the record meant for it. *)
Theorem bootstrap_exchanges :
  exists puts_of : nat -> list (list Z * list Z),
    (forall r, (r < rank_n)%nat -> alltoall_publish round rank_n (Z.of_nat r) size (bufs r) = Ok (puts_of r))
    /\ forall kvs puts me, puts ≡ₚ concat (puts_of <$> seq 0 rank_n) -> (me < rank_n)%nat ->
         alltoall_read (publish_all kvs puts) round rank_n (Z.of_nat me) size
         = Ok (concat ((fun i => record size me (bufs i)) <$> seq 0 rank_n)).
Proof. apply exchange_ok. Qed.
End Exchange.

Lemma bootstrap_exchanges_witness :
  exists puts_of : nat -> list (list Z * list Z),
    alltoall_read (publish_all ∅ (puts_of 1%nat ++ puts_of 0%nat)) 3 2 1 2 = Ok [30; 255; 70; 80].
Proof.
  destruct (bootstrap_exchanges 3 2 2 (fun r => if (r =? 0)%nat then [10; 20; 30; 255] else [50; 60; 70; 80])) as (puts_of & _ & H).
  - discriminate.
  - unfold PMI_STRING_LIMIT. lia.
  - intros r Hr. destruct (r =? 0)%nat; (split; [reflexivity|]); repeat constructor; discriminate.
  - exists puts_of. apply (H ∅ (puts_of 1%nat ++ puts_of 0%nat) 1%nat); [|lia]. cbn. rewrite app_nil_r. apply Permutation_app_comm.
Defined.
