(* ===== verification/IbvQps.v ===== *)
(** * The libibverbs backend: queue pairs and completions

    src/src/network/ibv/backend_ibv_inline.hpp: the map from the numbers of queue pairs
    to ranks, rebuilt when endpoints come and go, and the translation of the work
    completions of a poll. *)
From stdpp Require Import base numbers functions list gmap strings.
From Stdlib Require Import ZArith Lia.
From S2P Require Import Prelude Status.

Definition INT32_MAX : Z := 2 ^ 31 - 1.

(** ** The map *)

(** [slots] points to the counter of a rank at an endpoint. *)
Record entry_t : Type := mk_entry { qe_rank : Z; qe_slots : option (nat * nat) }.
Definition entry_new : entry_t := mk_entry (-1) None.

Record snapshot_t : Type := mk_snapshot { sn_mod : Z; sn_table : list entry_t }.
Definition get_entry (s : snapshot_t) (qp_num : Z) : entry_t :=
  match sn_table s with
  | [] => entry_new
  | table =>
      let idx := i32 (qp_num mod sn_mod s) in
      if (idx <? 0) || (Z.of_nat (length table) <=? idx) then entry_new
      else default entry_new (table !! Z.to_nat idx)
  end.

Record qp2rank_map_t : Type := mk_qpmap {
  qp_entries : list (Z * entry_t);
  current_snapshot : option snapshot_t
}.
Definition qp2rank_map_new : qp2rank_map_t := mk_qpmap [] None.

Definition qp_idx (mod_ qp_num : Z) : nat := Z.to_nat (qp_num mod mod_).
(** One pass over the entries; [None] when two of them collide. *)
Fixpoint fill_table (mod_ : Z) (entries : list (Z * entry_t)) (table : list entry_t) : option (list entry_t) :=
  match entries with
  | [] => Some table
  | (qp_num, entry) :: entries =>
      let k := qp_idx mod_ qp_num in
      old ← table !! k ;
      if bool_decide (qe_slots old = None) then fill_table mod_ entries (<[k := entry]> table) else None
  end.
(** The loop that looks for a divisor without collisions. *)
Fixpoint find_mod (fuel : nat) (entries : list (Z * entry_t)) (mod_ : Z) : result snapshot_t :=
  if mod_ <? INT32_MAX then
    match fill_table mod_ entries (replicate (Z.to_nat mod_) entry_new) with
    | Some table => Ok (mk_snapshot mod_ table)
    | None => match fuel with O => Err OutOfFuel | S fuel => find_mod fuel entries (mod_ + 1) end
    end
  else Err (AssertFailed "Cannot find a suitable mod to hold qp2rank map").
(** Above the largest number every number is its own remainder. *)
Definition largest_qp (entries : list (Z * entry_t)) : Z := foldr (fun e acc => Z.max e.1 acc) 0 entries.
Definition rebuild_locked (nranks : Z) (entries : list (Z * entry_t)) : result qp2rank_map_t :=
  match entries with
  | [] => Ok (mk_qpmap [] (Some (mk_snapshot 1 [entry_new])))
  | _ => s ← find_mod (Z.to_nat (largest_qp entries + 1)) entries (Z.max nranks 1) ; Ok (mk_qpmap entries (Some s))
  end.

(** The queue pairs of endpoint [ep], by their numbers. *)
Definition ep_entries (ep : nat) (qps : list Z) : list (Z * entry_t) :=
  imap (fun i qp_num => (qp_num, mk_entry (Z.of_nat i) (Some (ep, i)))) qps.
Definition add_qps (nranks : Z) (ep : nat) (qps : list Z) (m : qp2rank_map_t) : result qp2rank_map_t :=
  match qps with
  | [] => Ok m
  | _ => rebuild_locked nranks (qp_entries m ++ ep_entries ep qps)
  end.
Definition remove_qps (nranks : Z) (qps : list Z) (m : qp2rank_map_t) : result qp2rank_map_t :=
  match qps, qp_entries m with
  | [], _ | _, [] => Ok m
  | _, entries =>
      rebuild_locked nranks (foldl (fun l qp_num => filter (fun e => e.1 <> qp_num) l) entries qps)
  end.

(** ** The search for a divisor ends *)

Section Fill.
Variable m : Z.
Hypothesis Hm : 0 < m.
#[local] Abbreviation idx := (qp_idx m).

Definition has_slots (e : Z * entry_t) : Prop := is_Some (qe_slots e.2).

Lemma fill_table_total entries table :
  NoDup (idx <$> entries.*1) -> length table = Z.to_nat m ->
  (forall q e, (q, e) ∈ entries -> exists old, table !! idx q = Some old /\ qe_slots old = None) ->
  is_Some (fill_table m entries table).
Proof.
  revert table. induction entries as [|[q e] entries IH]; intros table Hnd Hl Hfree; [by eexists|].
  cbn [fill_table]. destruct (Hfree q e) as (old & Ho & Hs); [left|]. rewrite Ho. cbn [mbind option_bind].
  rewrite bool_decide_eq_true_2 by done. rewrite !fmap_cons in Hnd. apply NoDup_cons in Hnd as [Hni Hnd].
  apply IH; [done|by rewrite length_insert|]. intros q' e' Hin. destruct (Hfree q' e') as (old' & Ho' & Hs'); [by right|].
  exists old'. rewrite list_lookup_insert_ne; [done|]. intros E. apply Hni. cbn [fst]. rewrite E.
  apply list_elem_of_fmap. exists q'. split; [done|]. apply list_elem_of_fmap. by exists (q', e').
Qed.
Lemma fill_table_spec entries table t :
  Forall has_slots entries -> fill_table m entries table = Some t ->
  length t = length table
  /\ (forall i old, table !! i = Some old -> is_Some (qe_slots old) -> t !! i = Some old)
  /\ (forall q e, (q, e) ∈ entries -> t !! idx q = Some e).
Proof.
  intros Hs. revert table. induction Hs as [|[q e] entries He _ IH]; intros table H; cbn [fill_table] in H.
  - injection H as <-. split_and!; [done|done|]. intros q e Hin. by apply not_elem_of_nil in Hin.
  - apply bind_Some in H as (old & Ho & H). case_bool_decide as Hold; [|done].
    apply IH in H as (Hl & Hkeep & Hent). rewrite length_insert in Hl.
    assert (Hq : t !! idx q = Some e).
    { apply Hkeep; [|done]. apply list_lookup_insert_eq. by eapply lookup_lt_Some. }
    split_and!; [done| |].
    + intros i o Hi Hso. apply Hkeep; [|done]. rewrite list_lookup_insert_ne; [done|]. intros <-. rewrite Ho in Hi. injection Hi as ->.
      rewrite Hold in Hso. by destruct Hso.
    + intros q' e' Hin. apply list_elem_of_In in Hin as [[= <- <-]|Hin]; [done|]. apply Hent. by apply list_elem_of_In.
Qed.
Lemma fill_table_from entries table t i x : fill_table m entries table = Some t -> t !! i = Some x ->
  table !! i = Some x \/ exists q, (q, x) ∈ entries.
Proof.
  revert table. induction entries as [|[q e] entries IH]; intros table H Hi; cbn [fill_table] in H.
  - injection H as <-. by left.
  - apply bind_Some in H as (old & Ho & H). case_bool_decide; [|done].
    apply (IH _ H) in Hi as [Hi|[q' Hq']]; [|right; exists q'; by right].
    apply list_lookup_insert_Some in Hi as [(_ & -> & _)|[_ Hi]]; [right; exists q; left|by left].
Qed.
End Fill.

Lemma largest_qp_ge entries q e : (q, e) ∈ entries -> q <= largest_qp entries.
Proof.
  induction entries as [|[q' e'] entries IH]; intros H; [by apply not_elem_of_nil in H|]. cbn [largest_qp foldr fst].
  apply list_elem_of_In in H as [[= <- <-]|H]; [lia|]. apply list_elem_of_In, IH in H. unfold largest_qp in H. lia.
Qed.
Lemma largest_qp_lt entries b : 0 < b -> (forall q e, (q, e) ∈ entries -> q < b) -> 0 <= largest_qp entries < b.
Proof.
  intros Hb. induction entries as [|[q e] entries IH]; intros H; [cbn; lia|]. cbn [largest_qp foldr fst].
  pose proof (H q e ltac:(left)). destruct IH as [? ?]; [intros q' e' Hin; eapply H; by right|]. unfold largest_qp in *. lia.
Qed.

(** The numbers that the device hands out: distinct, and below [INT32_MAX - 1]. *)
Record qps_ok (entries : list (Z * entry_t)) : Prop := {
  qo_distinct : NoDup entries.*1;
  qo_range : forall q e, (q, e) ∈ entries -> 0 <= q < INT32_MAX - 1;
  qo_slots : Forall has_slots entries
}.
Lemma fill_table_above entries m : qps_ok entries -> largest_qp entries < m ->
  is_Some (fill_table m entries (replicate (Z.to_nat m) entry_new)).
Proof.
  intros [Hd Hr Hs] Hm.
  assert (Hq : forall q e, (q, e) ∈ entries -> q mod m = q /\ 0 <= q < m).
  { intros q e Hin. pose proof (largest_qp_ge _ _ _ Hin). pose proof (Hr _ _ Hin). split; [apply Z.mod_small|]; lia. }
  apply fill_table_total; [|by rewrite length_replicate|].
  - apply NoDup_fmap_2_strong; [|done]. intros x y Hx Hy E.
    apply list_elem_of_fmap in Hx as ([q e] & -> & Hx), Hy as ([q' e'] & -> & Hy). cbn [fst] in *.
    destruct (Hq _ _ Hx) as [Ex ?], (Hq _ _ Hy) as [Ey ?]. unfold qp_idx in E. rewrite Ex, Ey in E. lia.
  - intros q e Hin. unfold qp_idx. destruct (Hq _ _ Hin) as [-> ?]. exists entry_new. split; [|done]. apply lookup_replicate_2. lia.
Qed.
Lemma find_mod_total fuel entries mod_ :
  qps_ok entries -> 0 < mod_ < INT32_MAX -> largest_qp entries < mod_ + Z.of_nat fuel ->
  exists s, find_mod fuel entries mod_ = Ok s /\ 0 < sn_mod s < INT32_MAX
    /\ fill_table (sn_mod s) entries (replicate (Z.to_nat (sn_mod s)) entry_new) = Some (sn_table s).
Proof.
  intros Hok. revert mod_. induction fuel as [|fuel IH]; intros mod_ Hm Hl; cbn [find_mod];
    rewrite (proj2 (Z.ltb_lt mod_ INT32_MAX)) by lia;
    (destruct (fill_table mod_ _ _) as [t|] eqn:Ef; [by exists (mk_snapshot mod_ t)|]).
  - exfalso. destruct (fill_table_above entries mod_ Hok ltac:(lia)) as [t Et]. congruence.
  - assert (mod_ <= largest_qp entries).
    { destruct (Z.le_gt_cases mod_ (largest_qp entries)) as [|H]; [done|]. destruct (fill_table_above entries mod_ Hok H) as [t Et]. congruence. }
    assert (largest_qp entries < INT32_MAX - 1).
    { apply largest_qp_lt; [done|]. intros q e Hin. by apply (qo_range _ Hok q e). }
    apply IH; lia.
Qed.

(** What the current snapshot answers. *)
Definition finds_all (m : qp2rank_map_t) : Prop :=
  forall q e, (q, e) ∈ qp_entries m -> exists s, current_snapshot m = Some s /\ get_entry s q = e.
Definition finds_only (m : qp2rank_map_t) : Prop :=
  forall s q, current_snapshot m = Some s -> get_entry s q = entry_new \/ exists q', (q', get_entry s q) ∈ qp_entries m.
Lemma get_entry_elem s q : get_entry s q = entry_new \/ get_entry s q ∈ sn_table s.
Proof.
  unfold get_entry. destruct (sn_table s) as [|y t] eqn:E; [by left|]. rewrite <- E. destruct (_ || _); [by left|].
  destruct (sn_table s !! _) eqn:El; [right; by eapply list_elem_of_lookup_2|by left].
Qed.
Lemma rebuild_ok nranks entries : qps_ok entries -> nranks < INT32_MAX ->
  exists m, rebuild_locked nranks entries = Ok m /\ qp_entries m = entries /\ finds_all m /\ finds_only m /\ is_Some (current_snapshot m).
Proof.
  intros Hok Hn. destruct entries as [|x entries].
  { eexists. split_and!; [done|done|intros q e H; by apply not_elem_of_nil in H| |by eexists].
    intros s q [= <-]. left. destruct (get_entry_elem (mk_snapshot 1 [entry_new]) q) as [?|H]; [done|]. cbn in H. set_solver. }
  unfold rebuild_locked. set (l := x :: entries) in *.
  assert (Hl : 0 <= largest_qp l < INT32_MAX - 1).
  { apply largest_qp_lt; [done|]. intros q e Hin. by apply (qo_range _ Hok q e). }
  destruct (find_mod_total (Z.to_nat (largest_qp l + 1)) l (Z.max nranks 1) Hok) as (s & -> & Hm & Hf); [unfold INT32_MAX in *; lia|lia|].
  cbn [mbind result_bind]. eexists. split_and!; [done|done| |intros s' q [= <-]|by eexists].
  2: { destruct (get_entry_elem s q) as [?|H]; [by left|]. apply list_elem_of_lookup in H as [i Hi].
    apply (fill_table_from _ _ _ _ _ _ Hf) in Hi as [[-> _]%lookup_replicate|Hq]; [by left|by right]. }
  intros q e Hin. cbn [qp_entries current_snapshot] in *. exists s. split; [done|].
  destruct (fill_table_spec (sn_mod s) l _ _ (qo_slots _ Hok) Hf) as (Hlen & _ & Hent). rewrite length_replicate in Hlen.
  pose proof (Z.mod_pos_bound q (sn_mod s) ltac:(lia)). specialize (Hent q e Hin). unfold get_entry.
  destruct (sn_table s) as [|y t] eqn:Et; [done|]. rewrite <- Et in *.
  assert (i32 (q mod sn_mod s) = q mod sn_mod s) as ->.
  { unfold i32. unfold INT32_MAX in Hm. rewrite Z.mod_small; lia. }
  rewrite (proj2 (orb_false_iff _ _)) by lia. unfold qp_idx in Hent. by rewrite Hent.
Qed.

(** ** Endpoints come and go *)

Inductive ep_op : Type := AddEp (ep : nat) (qps : list Z) | RemoveEp (ep : nat) (qps : list Z).
Definition ep_step (nranks : Z) (o : ep_op) (m : qp2rank_map_t) : result qp2rank_map_t :=
  match o with AddEp ep qps => add_qps nranks ep qps m | RemoveEp ep qps => remove_qps nranks qps m end.
Fixpoint ep_run (nranks : Z) (ops : list ep_op) (m : qp2rank_map_t) : result qp2rank_map_t :=
  match ops with [] => Ok m | o :: ops => m ← ep_step nranks o m ; ep_run nranks ops m end.
(** The live endpoints after a history. *)
Definition ep_live (o : ep_op) (live : list (nat * list Z)) : list (nat * list Z) :=
  match o with
  | AddEp ep qps => live ++ [(ep, qps)]
  | RemoveEp ep qps => filter (fun e => e.1 <> ep) live
  end.
(** Histories that the device and the verbs library produce: a new endpoint has new
    numbers, and an endpoint is removed with its own numbers. *)
Fixpoint ep_history (ops : list ep_op) (live : list (nat * list Z)) : Prop :=
  match ops with
  | [] => True
  | o :: ops =>
      match o with
      | AddEp ep qps =>
          qps <> [] /\ (ep ∉ live.*1) /\ NoDup (qps ++ concat live.*2) /\ Forall (fun q => 0 <= q < INT32_MAX - 1) qps
      | RemoveEp ep qps => (ep, qps) ∈ live
      end /\ ep_history ops (ep_live o live)
  end.
Definition live_entries (live : list (nat * list Z)) : list (Z * entry_t) :=
  concat ((fun e => ep_entries e.1 e.2) <$> live).

Lemma ep_entries_elem ep qps q e :
  (q, e) ∈ ep_entries ep qps <-> exists i, qps !! i = Some q /\ e = mk_entry (Z.of_nat i) (Some (ep, i)).
Proof.
  unfold ep_entries. rewrite list_elem_of_lookup. setoid_rewrite list_lookup_imap. setoid_rewrite fmap_Some. split.
  - intros (i & q' & Hq & [= <- ->]). by exists i.
  - intros (i & Hq & ->). exists i, q. by split.
Qed.
Lemma ep_entries_nums ep qps : (ep_entries ep qps).*1 = qps.
Proof.
  unfold ep_entries. rewrite fmap_imap. apply list_eq. intros i. rewrite list_lookup_imap. by destruct (qps !! i).
Qed.
Lemma live_entries_nums live : (live_entries live).*1 = concat live.*2.
Proof.
  unfold live_entries. induction live as [|[ep qps] live IH]; [done|].
  rewrite !fmap_cons. cbn [concat fst snd]. by rewrite fmap_app, ep_entries_nums, IH.
Qed.
Lemma live_entries_app l1 l2 : live_entries (l1 ++ l2) = live_entries l1 ++ live_entries l2.
Proof. unfold live_entries. by rewrite fmap_app, concat_app. Qed.
Lemma live_entries_elem live q e : (q, e) ∈ live_entries live <-> exists ep qps, (ep, qps) ∈ live /\ (q, e) ∈ ep_entries ep qps.
Proof.
  unfold live_entries. rewrite list_elem_of_In, List.in_concat. setoid_rewrite <- list_elem_of_In. setoid_rewrite list_elem_of_fmap. split.
  - intros (l & ([ep qps] & -> & Hin) & Hq). by exists ep, qps.
  - intros (ep & qps & Hin & Hq). eexists. split; [by exists (ep, qps)|done].
Qed.

Record live_ok (live : list (nat * list Z)) : Prop := {
  lo_eps : NoDup live.*1;
  lo_nums : NoDup (concat live.*2);
  lo_range : Forall (fun q => 0 <= q < INT32_MAX - 1) (concat live.*2)
}.
Lemma live_qps_ok live : live_ok live -> qps_ok (live_entries live).
Proof.
  intros [_ Hn Hr]. split; [by rewrite live_entries_nums| |].
  - intros q e H. rewrite Forall_forall in Hr. apply Hr. rewrite <- live_entries_nums. apply list_elem_of_fmap. by exists (q, e).
  - apply Forall_forall. intros [q e] H. apply live_entries_elem in H as (ep & qps & _ & H).
    apply ep_entries_elem in H as (i & _ & ->). unfold has_slots. cbn. by eexists.
Qed.

(** The map and the live endpoints. *)
Record map_inv (live : list (nat * list Z)) (m : qp2rank_map_t) : Prop := {
  mi_live : live_ok live;
  mi_ok : qps_ok (qp_entries m);
  mi_same : forall x, x ∈ qp_entries m <-> x ∈ live_entries live;
  mi_finds : finds_all m;
  mi_only : finds_only m
}.
Lemma filter_all (qps : list Z) (l : list (Z * entry_t)) x :
  x ∈ foldl (fun l q => filter (fun e => e.1 <> q) l) l qps <-> x ∈ l /\ x.1 ∉ qps.
Proof.
  revert l. induction qps as [|q qps IH]; intros l; cbn [foldl].
  - split; [|naive_solver]. intros H. split; [done|]. apply not_elem_of_nil.
  - rewrite IH, list_elem_of_filter, not_elem_of_cons. naive_solver.
Qed.
Lemma filter_all_ok qps l : qps_ok l -> qps_ok (foldl (fun l q => filter (fun e : Z * entry_t => e.1 <> q) l) l qps).
Proof.
  revert l. induction qps as [|q qps IH]; intros l Hl; [done|]. apply IH. destruct Hl as [Hd Hr Hs]. split.
  - eapply sublist_NoDup; [done|]. apply fmap_sublist, sublist_filter.
  - intros q' e H. apply list_elem_of_filter in H as [_ H]. by eapply Hr.
  - apply Forall_forall. intros x H. apply list_elem_of_filter in H as [_ H]. rewrite Forall_forall in Hs. by apply Hs.
Qed.
Lemma live_unique live ep qps ep' qps' q : live_ok live -> (ep, qps) ∈ live -> (ep', qps') ∈ live -> 
  (q ∈ qps -> q ∈ qps' -> ep = ep') /\ (ep = ep' -> qps = qps').
Proof.
  intros [He Hn _] H H'. split.
  - intros Hq Hq'. apply list_elem_of_split in H as (l1 & l2 & ->). rewrite !fmap_app, !fmap_cons, concat_app in Hn. cbn [concat fst snd] in Hn.
    assert (Hc : forall l, (ep', qps') ∈ l -> q ∈ concat (l.*2)).
    { intros l' Hl'. rewrite list_elem_of_In, List.in_concat. exists qps'. rewrite <- !list_elem_of_In. split; [|done].
      apply list_elem_of_fmap. by exists (ep', qps'). }
    apply NoDup_app in Hn as (_ & H1 & H2). apply NoDup_app in H2 as (_ & H2 & _).
    apply elem_of_app in H' as [H'|H'].
    + destruct (H1 q (Hc _ H')). apply elem_of_app. by left.
    + apply elem_of_cons in H' as [[= -> ->]|H']; [done|]. by destruct (H2 q Hq (Hc _ H')).
  - intros <-. apply list_elem_of_lookup in H as (i & Hi), H' as (j & Hj).
    assert (i = j) as ->; [|congruence]. eapply NoDup_lookup; [exact He| |]; rewrite list_lookup_fmap; [by rewrite Hi|by rewrite Hj].
Qed.
Lemma remove_elem ep qps live x : live_ok live -> (ep, qps) ∈ live ->
  x ∈ live_entries (filter (fun e => e.1 <> ep) live) <-> x ∈ live_entries live /\ x.1 ∉ qps.
Proof.
  intros Hl Hin. destruct x as [q e]. cbn [fst]. rewrite !live_entries_elem.
  assert (Hq : forall ep' qps', (q, e) ∈ ep_entries ep' qps' -> q ∈ qps').
  { intros ep' qps' H. rewrite <- (ep_entries_nums ep' qps'). apply list_elem_of_fmap. by exists (q, e). }
  split.
  - intros (ep' & qps' & H & He). apply list_elem_of_filter in H as [Hne H]. split; [by exists ep', qps'|].
    intros Hq'. apply Hne. symmetry. by eapply (live_unique live ep qps ep' qps' q); eauto.
  - intros [(ep' & qps' & H & He) Hni]. exists ep', qps'. split; [|done]. apply list_elem_of_filter. split; [|done].
    cbn [fst]. intros ->. apply Hni. destruct (live_unique live ep qps ep qps' q Hl Hin H) as [_ ->]; [by eapply Hq|done].
Qed.
Lemma sublist_concat (l1 l2 : list (nat * list Z)) : l1 `sublist_of` l2 -> concat l1.*2 `sublist_of` concat l2.*2.
Proof.
  induction 1 as [|x l1 l2 _ IH|x l1 l2 _ IH]; [done| |]; rewrite ?fmap_cons; cbn [concat]; [by apply sublist_app|by apply sublist_inserts_l].
Qed.
Lemma ep_live_ok o ops live : live_ok live -> ep_history (o :: ops) live -> live_ok (ep_live o live).
Proof.
  intros [He Hn Hr] [H _]. destruct o as [ep qps|ep qps]; cbn [ep_live].
  - destruct H as (_ & Hne & Hnd & Hq). split; rewrite ?fmap_app; cbn.
    + rewrite (comm (++)). cbn. by apply NoDup_cons.
    + rewrite concat_app. cbn. rewrite app_nil_r, (comm (++)). done.
    + rewrite concat_app. cbn. rewrite app_nil_r. by apply Forall_app.
  - split.
    + eapply sublist_NoDup; [exact He|]. apply fmap_sublist, sublist_filter.
    + eapply sublist_NoDup; [exact Hn|]. apply sublist_concat, sublist_filter.
    + apply Forall_forall. intros q Hq. rewrite Forall_forall in Hr. apply Hr. eapply elem_of_sublist; [exact Hq|]. apply sublist_concat, sublist_filter.
Qed.
Lemma ep_step_inv nranks o ops live m : nranks < INT32_MAX -> map_inv live m -> ep_history (o :: ops) live ->
  exists m', ep_step nranks o m = Ok m' /\ map_inv (ep_live o live) m'.
Proof.
  intros Hn [Hl Ho Hs Hf Hfo] H. pose proof (ep_live_ok _ _ _ Hl H) as Hl'.
  assert (Hr : forall es, qps_ok es -> (forall x, x ∈ es <-> x ∈ live_entries (ep_live o live)) ->
    exists m', rebuild_locked nranks es = Ok m' /\ map_inv (ep_live o live) m').
  { intros es Hes Hsame. destruct (rebuild_ok nranks es Hes Hn) as (m' & Hm & E & Hfa & Hfo' & _). exists m'. split; [done|]. by split; rewrite ?E. }
  destruct H as [H _]. destruct o as [ep qps|ep qps]; cbn [ep_step ep_live] in *.
  - destruct H as (Hne & _ & Hnd & Hq). unfold add_qps. destruct qps as [|q0 qps0]; [done|]. apply Hr.
    + assert (Hsub : forall x, x ∈ qp_entries m ++ ep_entries ep (q0 :: qps0) <-> x ∈ live_entries (live ++ [(ep, q0 :: qps0)])).
      { intros x. rewrite live_entries_app, !elem_of_app, Hs. unfold live_entries at 3. cbn. by rewrite app_nil_r. }
      pose proof (live_qps_ok _ Hl') as [_ Hr' Hs']. split.
      * rewrite fmap_app, ep_entries_nums, (comm (++)). apply NoDup_app in Hnd as (H1 & H2 & _). apply NoDup_app. split_and!; [done| |apply Ho].
        intros q Hin Hin'. apply (H2 q Hin). rewrite <- live_entries_nums. apply list_elem_of_fmap in Hin' as (x & -> & Hx).
        apply list_elem_of_fmap. exists x. by rewrite <- Hs.
      * intros q e Hin. eapply Hr'. by apply Hsub.
      * apply Forall_forall. intros x Hx. rewrite Forall_forall in Hs'. by apply Hs', Hsub.
    + intros x. rewrite live_entries_app, !elem_of_app, Hs. unfold live_entries at 3. cbn. by rewrite app_nil_r.
  - assert (Hsame : forall x, x ∈ foldl (fun l q => filter (fun e => e.1 <> q) l) (qp_entries m) qps
                    <-> x ∈ live_entries (filter (fun e => e.1 <> ep) live)).
    { intros x. by rewrite filter_all, (remove_elem ep qps live x Hl H), Hs. }
    unfold remove_qps. destruct qps as [|q0 qps0]; [exists m; split; [done|by split]|].
    destruct (qp_entries m) as [|e0 es] eqn:Ee.
    + exists m. split; [done|]. split; [done|by rewrite Ee| |done|done]. intros x. rewrite Ee, <- Hsame.
      rewrite filter_all. split; [intros Hx; by apply not_elem_of_nil in Hx|by intros [Hx _]].
    + apply Hr; [|done]. by apply filter_all_ok.
Qed.
Lemma ep_run_inv nranks ops live m : nranks < INT32_MAX -> map_inv live m -> ep_history ops live ->
  exists m', ep_run nranks ops m = Ok m' /\ map_inv (foldl (fun l o => ep_live o l) live ops) m'.
Proof.
  intros Hn. revert live m. induction ops as [|o ops IH]; intros live m Hm H; [by exists m|].
  destruct (ep_step_inv nranks o ops live m Hn Hm H) as (m' & E & Hm'). cbn [ep_run foldl]. rewrite E. apply IH; [done|apply H].
Qed.
Lemma map_inv_new : map_inv [] qp2rank_map_new.
Proof.
  split; [split; constructor| |done| |done].
  - split; [constructor|intros q e H; by apply not_elem_of_nil in H|constructor].
  - intros q e H. by apply not_elem_of_nil in H.
Qed.
(** Once there was an endpoint, there is a snapshot. *)
Lemma rebuild_snapshot nranks es m : rebuild_locked nranks es = Ok m -> is_Some (current_snapshot m).
Proof. destruct es; [by intros [= <-]|]. cbn [rebuild_locked]. intros (s & _ & [= <-])%bind_Ok. by eexists. Qed.
Lemma ep_step_snapshot nranks o m m' : is_Some (current_snapshot m) -> ep_step nranks o m = Ok m' -> is_Some (current_snapshot m').
Proof.
  intros Hs. destruct o as [ep [|q qps]|ep [|q qps]]; cbn [ep_step add_qps remove_qps]; [by intros [= <-]| |by intros [= <-]|].
  - apply rebuild_snapshot.
  - destruct (qp_entries m); [by intros [= <-]|]. apply rebuild_snapshot.
Qed.
Lemma ep_run_snapshot nranks ops m : ops <> [] -> ep_history ops [] -> ep_run nranks ops qp2rank_map_new = Ok m -> is_Some (current_snapshot m).
Proof.
  destruct ops as [|[ep qps|ep qps] ops]; [done| |intros _ [H _]; by apply not_elem_of_nil in H].
  intros _ [(Hne & _) _]. cbn [ep_run ep_step]. intros (m1 & H1 & H)%bind_Ok. destruct qps; [done|]. apply rebuild_snapshot in H1.
  revert m1 H1 H. induction ops as [|o ops IH]; intros m1 H1; cbn [ep_run]; [by intros [= <-]|].
  intros (m2 & H2 & H)%bind_Ok. eapply IH; [|exact H]. by eapply ep_step_snapshot.
Qed.

(** The map from queue pairs to ranks. Through every history of endpoints the map is
    rebuilt without failing, and the snapshot answers, for each queue pair of a live
    endpoint, the rank at the other end and the slot counter of that very queue pair. *)
Theorem qp_rank_found nranks ops :
  nranks < INT32_MAX -> ep_history ops [] ->
  exists m, ep_run nranks ops qp2rank_map_new = Ok m
    /\ forall ep qps i q, (ep, qps) ∈ foldl (fun l o => ep_live o l) [] ops -> qps !! i = Some q ->
         exists s, current_snapshot m = Some s /\ get_entry s q = mk_entry (Z.of_nat i) (Some (ep, i)).
Proof.
  intros Hn H. destruct (ep_run_inv nranks ops [] _ Hn map_inv_new H) as (m & E & [_ _ Hs Hf _]). exists m. split; [done|].
  intros ep qps i q Hin Hq. apply Hf, Hs, live_entries_elem. exists ep, qps. split; [done|]. apply ep_entries_elem. by exists i.
Qed.
Lemma qp_rank_found_witness :
  exists m s, ep_run 2 [AddEp 0 [70; 72]; AddEp 1 [74; 81]; RemoveEp 0 [70; 72]] qp2rank_map_new = Ok m
    /\ current_snapshot m = Some s /\ get_entry s 81 = mk_entry 1 (Some (1%nat, 1%nat)).
Proof.
  destruct (qp_rank_found 2 [AddEp 0 [70; 72]; AddEp 1 [74; 81]; RemoveEp 0 [70; 72]]) as (m & E & H).
  - done.
  - cbn [ep_history ep_live]. split_and!; try done.
    all: try (repeat constructor; unfold INT32_MAX; lia).
    all: refine (bool_decide_unpack _ _); vm_compute; exact I.
  - destruct (H 1%nat [74; 81] 1%nat 81) as (s & Hs & Hg).
    + refine (bool_decide_unpack _ _); vm_compute; exact I.
    + reflexivity.
    + exact (ex_intro _ m (ex_intro _ s (conj E (conj Hs Hg)))).
Defined.

(** The table is not compared with the number: a queue pair that was removed is taken for
    another one. *)
Theorem removed_qp_misattributed :
  exists m s, ep_run 2 [AddEp 0 [70; 71]; AddEp 1 [72; 73]; RemoveEp 1 [72; 73]] qp2rank_map_new = Ok m
    /\ current_snapshot m = Some s /\ get_entry s 72 = mk_entry 0 (Some (0%nat, 0%nat)).
Proof. eexists _, _. split; [vm_compute; reflexivity|]. split; [reflexivity|vm_compute; reflexivity]. Qed.

(** ** Completions *)

Inductive wc_opcode_t : Type :=
  | WC_SEND | WC_RDMA_WRITE | WC_RDMA_READ | WC_RECV | WC_RECV_RDMA_WITH_IMM | WC_OTHER.
#[export] Instance wc_opcode_eq_dec : EqDecision wc_opcode_t.
Proof. solve_decision. Defined.
Record ibv_wc : Type := mk_wc {
  wc_wr_id : Z; wc_ok : bool; wc_opcode : wc_opcode_t; wc_byte_len : Z; wc_imm_data : Z; wc_qp_num : Z
}.
Definition is_receive (w : ibv_wc) : bool :=
  bool_decide (wc_opcode w = WC_RECV) || bool_decide (wc_opcode w = WC_RECV_RDMA_WITH_IMM).

(** What a poll changes: the slot counters of the endpoints and the number of posted
    receives. *)
Record poll_state : Type := mk_poll { ps_slots : gmap (nat * nat) Z; ps_nrecvs_posted : Z }.

(** The counter that a send-side completion with this entry adds to. *)
Definition release_target (nranks : Z) (e : entry_t) : option (nat * nat) :=
  if (0 <=? qe_rank e) && (qe_rank e <? nranks) then qe_slots e else None.
(** A failed send-side completion still releases its slot. *)
Definition release_of (nranks : Z) (e : entry_t) (w : ibv_wc) (s : poll_state) : poll_state :=
  if is_receive w then s
  else match release_target nranks e with
       | Some p => mk_poll (alter (fun n => n + 1) p (ps_slots s)) (ps_nrecvs_posted s)
       | None => s
       end.
Definition fill_status (e : entry_t) (w : ibv_wc) : ST poll_state net_status_t :=
  if negb (wc_ok w) then
    mret (mk_net_status op_ERROR (if is_receive w then -1 else qe_rank e) (if is_receive w then 0 else wc_wr_id w) 0 0)
  else match wc_opcode w with
  | WC_RECV => mret (mk_net_status op_RECV (qe_rank e) (wc_wr_id w) (wc_byte_len w) (wc_imm_data w))
  | WC_RECV_RDMA_WITH_IMM =>
      modify (fun s => mk_poll (ps_slots s) (ps_nrecvs_posted s - 1)) ;;
      mret (mk_net_status op_REMOTE_WRITE 0 (wc_wr_id w) 0 (wc_imm_data w))
  | WC_SEND => mret (mk_net_status op_SEND 0 (wc_wr_id w) 0 0)
  | WC_RDMA_WRITE => mret (mk_net_status op_WRITE 0 (wc_wr_id w) 0 0)
  | o => assert_st (bool_decide (o = WC_RDMA_READ)) "Unexpected IBV opcode!" ;; mret (mk_net_status op_READ 0 (wc_wr_id w) 0 0)
  end.
Fixpoint poll_wcs (nranks : Z) (sn : snapshot_t) (want : bool) (wcs : list ibv_wc) : ST poll_state (list net_status_t) :=
  match wcs with
  | [] => mret []
  | w :: wcs =>
      let e := get_entry sn (wc_qp_num w) in
      modify (release_of nranks e w) ;;
      st ← (if want then st ← fill_status e w ; mret [st] else mret []) ;
      rest ← poll_wcs nranks sn want wcs ;
      mret (st ++ rest)
  end.
(** [polled] is what [ibv_poll_cq] gives, [locked] whether the try-lock fails. *)
Definition poll_comp_impl (nranks : Z) (m : qp2rank_map_t) (want locked : bool) (polled : option (list ibv_wc)) :
    ST poll_state (Z * list net_status_t) :=
  if locked then mret (0, [])
  else match polled with
  | None => fail_with (AssertFailed "ibv_poll_cq failed")
  | Some [] => mret (0, [])
  | Some wcs =>
      match current_snapshot m with
      | None => fail_with (Undefined "get_entry of a null snapshot")
      | Some sn => sts ← poll_wcs nranks sn want wcs ; mret (Z.of_nat (length wcs), sts)
      end
  end.

(** What the status of a completion of the queue pair to [rank] says. *)
Definition reports (rank : Z) (w : ibv_wc) (st : net_status_t) : Prop :=
  (ns_opcode st = if wc_ok w then match wc_opcode w with
     | WC_SEND => op_SEND | WC_RDMA_WRITE => op_WRITE | WC_RDMA_READ => op_READ
     | WC_RECV => op_RECV | WC_RECV_RDMA_WITH_IMM => op_REMOTE_WRITE | WC_OTHER => op_ERROR end else op_ERROR)
  /\ (wc_ok w = true \/ is_receive w = false -> ns_user_context st = wc_wr_id w)
  /\ (wc_ok w = true -> wc_opcode w = WC_RECV -> ns_rank st = rank /\ ns_length st = wc_byte_len w)
  /\ (wc_ok w = true -> is_receive w = true -> ns_imm_data st = wc_imm_data w)
  /\ (wc_ok w = false -> is_receive w = false -> ns_rank st = rank).

Lemma fill_status_ok e w s : (wc_opcode w <> WC_OTHER \/ wc_ok w = false) ->
  exists st, fill_status e w s
      = Ok (st, mk_poll (ps_slots s) (ps_nrecvs_posted s - if wc_ok w && bool_decide (wc_opcode w = WC_RECV_RDMA_WITH_IMM) then 1 else 0))
    /\ reports (qe_rank e) w st.
Proof.
  intros H. destruct s as [sl n], w as [id ok op len imm q]. unfold fill_status, reports, is_receive.
  cbn [wc_ok wc_opcode wc_wr_id wc_byte_len wc_imm_data ps_slots ps_nrecvs_posted] in *.
  destruct ok, op; try (exfalso; naive_solver); cbn; eexists; (split; [rewrite ?Z.sub_0_r; reflexivity|]); cbn; naive_solver.
Qed.

Lemma release_of_nrecvs nranks e w s : ps_nrecvs_posted (release_of nranks e w s) = ps_nrecvs_posted s.
Proof. unfold release_of. by destruct (is_receive w), (release_target nranks e). Qed.

(** The queue pair [p], an endpoint and a rank, is live and has the number [q]. *)
Definition is_qp (live : list (nat * list Z)) (p : nat * nat) (q : Z) : Prop :=
  exists qps, (p.1, qps) ∈ live /\ qps !! p.2 = Some q.
Definition live_numbers (live : list (nat * list Z)) : list Z := concat live.*2.
(** A completion that no code handles. *)
Definition unexpected (w : ibv_wc) : bool := wc_ok w && bool_decide (wc_opcode w = WC_OTHER).

Lemma is_qp_elem live p q : is_qp live p q <-> (q, mk_entry (Z.of_nat p.2) (Some p)) ∈ live_entries live.
Proof.
  destruct p as [ep i]. rewrite live_entries_elem. split.
  - intros (qps & Hin & Hq). exists ep, qps. split; [done|]. apply ep_entries_elem. by exists i.
  - intros (ep' & qps & Hin & He). apply ep_entries_elem in He as (j & Hq & [= _ -> ->]). by exists qps.
Qed.
Lemma is_qp_pair live p p' q : live_ok live -> is_qp live p q -> is_qp live p' q -> p = p'.
Proof.
  intros [_ Hn _] [i Hi]%is_qp_elem%list_elem_of_lookup [j Hj]%is_qp_elem%list_elem_of_lookup. rewrite <- (live_entries_nums live) in Hn.
  assert (i = j) as <-; [|congruence]. eapply NoDup_lookup; [exact Hn| |]; rewrite list_lookup_fmap; [by rewrite Hi|by rewrite Hj].
Qed.
Lemma is_qp_num live p q q' : live_ok live -> is_qp live p q -> is_qp live p q' -> q = q'.
Proof.
  intros Hl (qps & Hin & Hq) (qps' & Hin' & Hq').
  destruct (live_unique live p.1 qps p.1 qps' q Hl Hin Hin') as [_ Hu]. rewrite (Hu eq_refl) in Hq. congruence.
Qed.

Section Poll.
Variables (nranks : Z) (live : list (nat * list Z)) (m : qp2rank_map_t) (sn : snapshot_t).
Hypothesis Hinv : map_inv live m.
Hypothesis Hsn : current_snapshot m = Some sn.
(** An endpoint has one queue pair for each rank. *)
Hypothesis Hranks : forall ep qps, (ep, qps) ∈ live -> Z.of_nat (length qps) <= nranks.

Lemma is_qp_number q : q ∈ live_numbers live <-> exists p, is_qp live p q.
Proof.
  unfold live_numbers. rewrite <- live_entries_nums, list_elem_of_fmap. split.
  - intros ([q' e] & -> & H). pose proof H as (ep & qps & _ & He)%live_entries_elem.
    apply ep_entries_elem in He as (i & _ & ->). exists (ep, i). by apply is_qp_elem.
  - intros [p Hp%is_qp_elem]. by eexists (q, _).
Qed.
Lemma qp_entry p q : is_qp live p q ->
  get_entry sn q = mk_entry (Z.of_nat p.2) (Some p) /\ release_target nranks (get_entry sn q) = Some p.
Proof.
  intros H. pose proof H as Hin%is_qp_elem. destruct Hinv as [_ _ Hsame Hf _].
  destruct (Hf _ _ (proj2 (Hsame _) Hin)) as (s & Hs' & He). assert (s = sn) as -> by congruence. split; [done|]. rewrite He.
  destruct H as (qps & Hl & Hq). apply lookup_lt_Some in Hq. specialize (Hranks _ _ Hl). unfold release_target. cbn [qe_rank qe_slots].
  by rewrite (proj2 (Z.leb_le 0 _)), (proj2 (Z.ltb_lt _ _)) by lia.
Qed.
(** A counter that is added to is one of a live endpoint. *)
Lemma target_live p q : release_target nranks (get_entry sn q) = Some p -> exists q', is_qp live p q'.
Proof.
  destruct Hinv as [_ _ Hsame _ Ho]. unfold release_target. destruct (Ho sn q Hsn) as [->|[q' Hq']]; [done|].
  destruct (_ && _); [|done]. intros Ht. apply Hsame, live_entries_elem in Hq' as (ep & qps & Hin & He).
  apply ep_entries_elem in He as (i & Hq' & Ee). rewrite Ee in Ht. injection Ht as <-. exists q'. by exists qps.
Qed.

(** The send-side completions that add to the counter of [p]: those of [p] itself and
    those of numbers that are not live any more. *)
Definition credits (p : nat * nat) (wcs : list ibv_wc) : Z :=
  tally (fun w => if negb (is_receive w) && bool_decide (release_target nranks (get_entry sn (wc_qp_num w)) = Some p) then 1 else 0) wcs.
Definition sends_of (q : Z) (wcs : list ibv_wc) : Z :=
  tally (fun w => if negb (is_receive w) && bool_decide (wc_qp_num w = q) then 1 else 0) wcs.
Definition strays_of (p : nat * nat) (wcs : list ibv_wc) : Z :=
  credits p (filter (fun w => wc_qp_num w ∉ live_numbers live) wcs).
Definition remote_writes (wcs : list ibv_wc) : Z :=
  tally (fun w => if wc_ok w && bool_decide (wc_opcode w = WC_RECV_RDMA_WITH_IMM) then 1 else 0) wcs.

Lemma credits_live p q wcs : is_qp live p q -> credits p wcs = sends_of q wcs + strays_of p wcs.
Proof.
  intros Hp. induction wcs as [|w wcs IH]; [done|]. unfold strays_of, credits, sends_of in *. rewrite filter_cons, !tally_cons, IH.
  destruct (decide (wc_qp_num w ∉ live_numbers live)) as [Hn|Hl].
  - rewrite tally_cons, (bool_decide_eq_false_2 (_ = q)); [rewrite andb_false_r; lia|].
    intros E. apply Hn. rewrite E. apply is_qp_number. by exists p.
  - apply dec_stable in Hl. apply is_qp_number in Hl as [p' Hp']. rewrite (proj2 (qp_entry _ _ Hp')).
    rewrite (bool_decide_ext (Some p' = Some p) (wc_qp_num w = q)); [lia|]. split.
    + intros [= ->]. by eapply (is_qp_num _ _ _ _ (mi_live _ _ Hinv)).
    + intros <-. f_equal. by eapply (is_qp_pair _ _ _ _ (mi_live _ _ Hinv)).
Qed.
Lemma credits_dead p wcs : (forall q, ~ is_qp live p q) -> credits p wcs = 0.
Proof.
  intros Hp. apply tally_zero. intros i w _. case_bool_decide as E; [|by rewrite andb_false_r].
  apply target_live in E as [q Hq]. by destruct (Hp q).
Qed.
Lemma release_of_lookup e p w s :
  ps_slots (release_of nranks e w s) !! p
  = (fun n => n + if negb (is_receive w) && bool_decide (release_target nranks e = Some p) then 1 else 0) <$> ps_slots s !! p.
Proof.
  assert (Hid : forall o : option Z, o = (fun n => n + 0) <$> o) by (intros [n|]; cbn; [by rewrite Z.add_0_r|done]).
  unfold release_of. destruct (is_receive w); [apply Hid|]. cbn [negb andb]. destruct (release_target nranks e) as [p'|].
  - cbn [ps_slots]. destruct (decide (p' = p)) as [->|Hne].
    + rewrite bool_decide_eq_true_2 by done. apply lookup_alter_eq.
    + rewrite bool_decide_eq_false_2 by congruence. rewrite lookup_alter_ne by done. apply Hid.
  - rewrite bool_decide_eq_false_2 by done. apply Hid.
Qed.

Lemma poll_wcs_ok wcs s : existsb unexpected wcs = false ->
  exists sts s', poll_wcs nranks sn true wcs s = Ok (sts, s')
    /\ Forall2 (fun w st => reports (qe_rank (get_entry sn (wc_qp_num w))) w st) wcs sts
    /\ ps_nrecvs_posted s' = ps_nrecvs_posted s - remote_writes wcs
    /\ (forall p, ps_slots s' !! p = (fun n => n + credits p wcs) <$> ps_slots s !! p).
Proof.
  revert s. induction wcs as [|w wcs IH]; intros s Hw.
  - exists [], s. split_and!; [done|done|change (remote_writes []) with 0; lia|]. intros p. change (credits p []) with 0.
    destruct (ps_slots s !! p); cbn; [by rewrite Z.add_0_r|done].
  - cbn [existsb] in Hw. apply orb_false_iff in Hw as [Hu Hw].
    set (s1 := release_of nranks (get_entry sn (wc_qp_num w)) w s).
    destruct (fill_status_ok (get_entry sn (wc_qp_num w)) w s1) as (st & Hst & Hr).
    { unfold unexpected in Hu. destruct (wc_ok w); [|by right]. left. cbn [andb] in Hu. by apply bool_decide_eq_false_1 in Hu. }
    set (s2 := mk_poll (ps_slots s1) _) in Hst. destruct (IH s2 Hw) as (sts & s' & Hp & Hf & Hn & Hsl). exists (st :: sts), s'. split_and!.
    + cbn [poll_wcs]. unfold modify at 1. unfold mbind at 1, st_bind at 1. fold s1. unfold mbind at 1, st_bind at 1.
      unfold mbind at 1, st_bind at 1. rewrite Hst. unfold mret at 1, st_ret at 1. unfold mbind, st_bind. by rewrite Hp.
    + by constructor.
    + rewrite Hn. unfold remote_writes. rewrite tally_cons. unfold s2. cbn [ps_nrecvs_posted]. unfold s1. rewrite release_of_nrecvs. lia.
    + intros p. rewrite (Hsl p). unfold s2. cbn [ps_slots]. unfold s1. rewrite release_of_lookup.
      unfold credits. rewrite tally_cons, <- option_fmap_compose. apply option_fmap_ext. intros n. cbn. lia.
Qed.
Lemma poll_wcs_unexpected wcs s : existsb unexpected wcs = true ->
  poll_wcs nranks sn true wcs s = Err (AssertFailed "Unexpected IBV opcode!").
Proof.
  revert s. induction wcs as [|w wcs IH]; intros s Hw; [done|]. cbn [poll_wcs]. unfold modify at 1. unfold mbind at 1, st_bind at 1.
  set (s1 := release_of nranks (get_entry sn (wc_qp_num w)) w s). unfold mbind at 1, st_bind at 1. unfold mbind at 1, st_bind at 1.
  destruct (unexpected w) eqn:Hu.
  - unfold unexpected in Hu. apply andb_true_iff in Hu as [Hok Hop%bool_decide_eq_true]. unfold fill_status. by rewrite Hok, Hop.
  - destruct (fill_status_ok (get_entry sn (wc_qp_num w)) w s1) as (st & Hst & _).
    { unfold unexpected in Hu. destruct (wc_ok w); [|by right]. left. cbn [andb] in Hu. by apply bool_decide_eq_false_1 in Hu. }
    rewrite Hst. unfold mret at 1, st_ret at 1. unfold mbind, st_bind. cbn [existsb] in Hw. rewrite Hu in Hw. by rewrite IH.
Qed.
End Poll.

