(* ===== verification/IbvPost.v ===== *)
(** * The libibverbs backend: posting

    src/src/network/ibv/backend_ibv_inline.hpp: the send slots of a queue pair, the work
    requests of the seven posts, and receives; src/src/network/ibv/backend_ibv.cpp:
    registration. The verbs library is a parameter. *)
From stdpp Require Import base numbers functions list gmap strings relations.
From Stdlib Require Import ZArith Lia.
From S2P Require Import Prelude Status Memory Net Endpoint Backlog IbvQps.

Definition ENOMEM : Z := 12.

Inductive wr_opcode_t : Type := WR_SEND_WITH_IMM | WR_RDMA_WRITE | WR_RDMA_WRITE_WITH_IMM | WR_RDMA_READ.
Record ibv_sge : Type := mk_sge { sge_addr : Z; sge_length : Z; sge_lkey : Z }.
(** All requests are signaled; [None] is a field that is not set. *)
Record send_wr : Type := mk_send_wr {
  wr_id : Z;
  wr_sge : option ibv_sge;
  wr_opcode : wr_opcode_t;
  wr_inline : bool;
  wr_imm_data : option Z;
  wr_remote : option (Z * Z)
}.
Record recv_wr : Type := mk_recv_wr { rwr_id : Z; rwr_sge : ibv_sge }.

(** The slot counters of the device's endpoints, and the verbs library. *)
Record ibv_state (V : Type) : Type := mk_ibv { iv_slots : gmap (nat * nat) Z; iv_verbs : V }.
Arguments mk_ibv {V}.
Arguments iv_slots {V}.
Arguments iv_verbs {V}.

Section Post.
Context {V : Type}.
(** The endpoint; the slots reserved for urgent posts, [net_max_sends] times
    [net_send_reserved_pct] as an [int]; the largest inline message; the keys of
    registrations. *)
Variables (ep : nat) (threshold max_inject_size : Z) (get_mr_lkey : Z -> Z).
(** Whether another thread holds the lock of a queue pair. *)
Variable qp_locked : Z -> V -> bool.
(** Queue pair, request, and the error number that comes back. *)
Variable ibv_post_send : Z -> send_wr -> V -> Z * V.

Implicit Types s : ibv_state V.

Definition counter (rank : Z) : ST (ibv_state V) Z := fun s =>
  match iv_slots s !! (ep, Z.to_nat rank) with
  | Some n => if rank <? 0 then Err (Undefined "qp_remaining_slots") else Ok (n, s)
  | None => Err (Undefined "qp_remaining_slots")
  end.
(** [fetch_add]; the old value. *)
Definition fetch_add (rank d : Z) : ST (ibv_state V) Z :=
  n ← counter rank ;
  modify (fun s => mk_ibv (<[(ep, Z.to_nat rank) := i32 (n + d)]> (iv_slots s)) (iv_verbs s)) ;;
  mret n.

Definition try_acquire_slot (rank : Z) (high_priority : bool) : ST (ibv_state V) bool :=
  n ← counter rank ;
  if negb high_priority && (n <=? threshold) then mret false
  else
    prev ← fetch_add rank (-1) ;
    if prev <=? 0 then fetch_add rank 1 ;; mret false else mret true.
Definition release_slot (rank : Z) : ST (ibv_state V) unit := fetch_add rank 1 ;; mret tt.

(** What all posts do with their request. *)
Definition post_wr (short : bool) (rank : Z) (high_priority : bool) (wr : send_wr) : ST (ibv_state V) errorcode_t :=
  acquired ← try_acquire_slot rank high_priority ;
  if negb acquired then mret ec_retry_nomem
  else
    v ← gets iv_verbs ;
    if qp_locked rank v then release_slot rank ;; mret ec_retry_lock
    else
      let '(ret, v) := ibv_post_send rank wr v in
      modify (fun s => mk_ibv (iv_slots s) v) ;;
      if ret =? 0 then mret (if short then ec_done else ec_posted)
      else if ret =? ENOMEM then release_slot rank ;; mret ec_retry_nomem
      else release_slot rank ;; fail_with (AssertFailed "ibv_post_send").

(** A request of no bytes has no scatter-gather entry. *)
Definition sge_of (buffer size lkey : Z) : option ibv_sge :=
  if 0 <? size then Some (mk_sge buffer (u32 size) lkey) else None.
Definition check_inject (size : Z) : ST (ibv_state V) unit :=
  assert_st (size <=? max_inject_size) "exceed the inline message size limit!".
Definition remote_of (rmr : rmr_t) (offset : Z) : Z * Z := (u64 (rmr_base rmr + offset), u32 (rmr_opaque_rkey rmr)).

Definition post_sends_impl (rank buffer size imm_data user_context : Z) (high_priority : bool) : ST (ibv_state V) errorcode_t :=
  check_inject size ;;
  post_wr true rank high_priority
    (mk_send_wr user_context (sge_of buffer size 0) WR_SEND_WITH_IMM true (Some imm_data) None).
Definition post_send_impl (rank buffer size mr imm_data user_context : Z) (high_priority : bool) : ST (ibv_state V) errorcode_t :=
  post_wr false rank high_priority
    (mk_send_wr user_context (sge_of buffer size (get_mr_lkey mr)) WR_SEND_WITH_IMM false (Some imm_data) None).
Definition post_puts_impl (rank buffer size offset : Z) (rmr : rmr_t) (user_context : Z) (high_priority : bool) : ST (ibv_state V) errorcode_t :=
  check_inject size ;;
  post_wr true rank high_priority
    (mk_send_wr user_context (sge_of buffer size 0) WR_RDMA_WRITE true None (Some (remote_of rmr offset))).
Definition post_put_impl (rank buffer size mr offset : Z) (rmr : rmr_t) (user_context : Z) (high_priority : bool) : ST (ibv_state V) errorcode_t :=
  post_wr false rank high_priority
    (mk_send_wr user_context (sge_of buffer size (get_mr_lkey mr)) WR_RDMA_WRITE false None (Some (remote_of rmr offset))).
Definition post_putImms_impl (rank buffer size offset : Z) (rmr : rmr_t) (imm_data user_context : Z) (high_priority : bool) : ST (ibv_state V) errorcode_t :=
  check_inject size ;;
  post_wr true rank high_priority
    (mk_send_wr user_context (sge_of buffer size 0) WR_RDMA_WRITE_WITH_IMM true (Some imm_data) (Some (remote_of rmr offset))).
Definition post_putImm_impl (rank buffer size mr offset : Z) (rmr : rmr_t) (imm_data user_context : Z) (high_priority : bool) : ST (ibv_state V) errorcode_t :=
  post_wr false rank high_priority
    (mk_send_wr user_context (sge_of buffer size (get_mr_lkey mr)) WR_RDMA_WRITE_WITH_IMM false (Some imm_data)
       (Some (remote_of rmr offset))).
Definition post_get_impl (rank buffer size mr offset : Z) (rmr : rmr_t) (user_context : Z) (high_priority : bool) : ST (ibv_state V) errorcode_t :=
  post_wr false rank high_priority
    (mk_send_wr user_context (sge_of buffer size (get_mr_lkey mr)) WR_RDMA_READ false None (Some (remote_of rmr offset))).

(** The virtual call of an endpoint's operation. *)
Definition ibv_post (o : net_op_t) (hp : bool) : ST (ibv_state V) errorcode_t :=
  match no_op o with
  | bo_sends => post_sends_impl (no_rank o) (no_buffer o) (no_size o) (no_imm_data o) (no_user_context o) hp
  | bo_send => post_send_impl (no_rank o) (no_buffer o) (no_size o) (no_mr o) (no_imm_data o) (no_user_context o) hp
  | bo_puts => post_puts_impl (no_rank o) (no_buffer o) (no_size o) (no_offset o) (no_rmr o) (no_user_context o) hp
  | bo_put => post_put_impl (no_rank o) (no_buffer o) (no_size o) (no_mr o) (no_offset o) (no_rmr o) (no_user_context o) hp
  | bo_putImms =>
      post_putImms_impl (no_rank o) (no_buffer o) (no_size o) (no_offset o) (no_rmr o) (no_imm_data o) (no_user_context o) hp
  | bo_putImm =>
      post_putImm_impl (no_rank o) (no_buffer o) (no_size o) (no_mr o) (no_offset o) (no_rmr o) (no_imm_data o)
        (no_user_context o) hp
  | bo_get => post_get_impl (no_rank o) (no_buffer o) (no_size o) (no_mr o) (no_offset o) (no_rmr o) (no_user_context o) hp
  end.
(** As the backend of the endpoint model. A failed assertion ends the process, so that
    the code given for it reaches no caller. *)
Definition ibv_impl (o : net_op_t) (hp : bool) (m : memory) (b : ibv_state V) : errorcode_t * ibv_state V :=
  match ibv_post o hp b with Ok x => x | Err _ => (ec_retry_nomem, b) end.

(** ** What a post does *)

(** The request that describes an operation; the length has 32 bits. *)
Definition describes (o : net_op_t) (w : send_wr) : Prop :=
  wr_id w = no_user_context o
  /\ (wr_opcode w = match no_op o with
        | bo_sends | bo_send => WR_SEND_WITH_IMM | bo_puts | bo_put => WR_RDMA_WRITE
        | bo_putImms | bo_putImm => WR_RDMA_WRITE_WITH_IMM | bo_get => WR_RDMA_READ end)
  /\ wr_inline w = is_short (no_op o)
  /\ (0 < no_size o -> exists key, wr_sge w = Some (mk_sge (no_buffer o) (u32 (no_size o)) key)
        /\ (is_short (no_op o) = false -> key = get_mr_lkey (no_mr o)))
  /\ (no_size o <= 0 -> wr_sge w = None)
  /\ (no_op o = bo_sends \/ no_op o = bo_send \/ no_op o = bo_putImms \/ no_op o = bo_putImm -> wr_imm_data w = Some (no_imm_data o))
  /\ (no_op o <> bo_sends -> no_op o <> bo_send ->
       wr_remote w = Some (u64 (rmr_base (no_rmr o) + no_offset o), u32 (rmr_opaque_rkey (no_rmr o)))).

Lemma sge_of_spec buffer size lkey :
  (0 < size -> sge_of buffer size lkey = Some (mk_sge buffer (u32 size) lkey)) /\ (size <= 0 -> sge_of buffer size lkey = None).
Proof.
  unfold sge_of. split; intros H.
  - by rewrite (proj2 (Z.ltb_lt 0 size)) by lia.
  - by rewrite (proj2 (Z.ltb_ge 0 size)) by lia.
Qed.
(** Every operation is its inline check, if it is short, and one request. *)
Lemma ibv_post_wr o hp s :
  (is_short (no_op o) = true -> no_size o <= max_inject_size) ->
  exists w, ibv_post o hp s = post_wr (is_short (no_op o)) (no_rank o) hp w s /\ describes o w.
Proof.
  intros Hs. unfold ibv_post, post_sends_impl, post_send_impl, post_puts_impl, post_put_impl, post_putImms_impl, post_putImm_impl, post_get_impl.
  assert (Hc : forall k : unit -> ST (ibv_state V) errorcode_t, is_short (no_op o) = true -> (check_inject (no_size o) ≫= k) s = k tt s).
  { intros k Hsh. unfold check_inject, assert_st. rewrite (proj2 (Z.leb_le _ _)) by auto. done. }
  destruct (sge_of_spec (no_buffer o) (no_size o) 0) as [H1 H2].
  destruct (sge_of_spec (no_buffer o) (no_size o) (get_mr_lkey (no_mr o))) as [H3 H4].
  destruct o as [k rank buffer size mr offset rmr imm uctx]. cbn [no_op no_rank no_buffer no_size no_mr no_offset no_rmr no_imm_data no_user_context] in *.
  destruct k; cbn [is_short] in *; try rewrite Hc by done; eexists; (split; [reflexivity|]); unfold describes;
    cbn [no_op no_rank no_buffer no_size no_mr no_offset no_rmr no_imm_data no_user_context wr_id wr_opcode wr_inline wr_sge wr_imm_data wr_remote is_short];
    split_and!; try done; try (intros Hz; eexists; split; [by auto|done]); auto; intros; naive_solver.
Qed.

(** A counter as an [int]. *)
Definition slots_at (s : ibv_state V) (rank n : Z) : Prop :=
  0 <= rank /\ iv_slots s !! (ep, Z.to_nat rank) = Some n /\ - 2 ^ 31 < n < 2 ^ 31.
Definition set_slots (rank n : Z) (s : ibv_state V) : ibv_state V :=
  mk_ibv (<[(ep, Z.to_nat rank) := n]> (iv_slots s)) (iv_verbs s).

Lemma i32_id z : - 2 ^ 31 <= z < 2 ^ 31 -> i32 z = z.
Proof. intros H. unfold i32. rewrite Z.mod_small; lia. Qed.
Lemma fetch_add_ok s rank n d : slots_at s rank n -> - 2 ^ 31 <= n + d < 2 ^ 31 ->
  fetch_add rank d s = Ok (n, set_slots rank (n + d) s).
Proof.
  intros (Hr & Hn & Hi) Hd. unfold fetch_add, counter, mbind, st_bind. rewrite Hn, (proj2 (Z.ltb_ge rank 0)) by done.
  cbn. by rewrite i32_id.
Qed.
Lemma set_slots_at s rank n k : slots_at s rank n -> - 2 ^ 31 < k < 2 ^ 31 -> slots_at (set_slots rank k s) rank k.
Proof. intros (Hr & _ & _) Hk. split; [done|]. split; [apply lookup_insert_eq|done]. Qed.
Lemma set_slots_twice s rank n k : slots_at s rank n -> set_slots rank n (set_slots rank k s) = s.
Proof. intros (_ & Hn & _). destruct s as [sl v]. unfold set_slots. cbn in *. by rewrite insert_insert_eq, insert_id. Qed.
Lemma try_acquire_ok s rank n hp : slots_at s rank n ->
  try_acquire_slot rank hp s
  = Ok (if (hp || (threshold <? n)) && (0 <? n) then (true, set_slots rank (n - 1) s) else (false, s)).
Proof.
  intros Hs. pose proof Hs as (Hr & Hn & Hi). unfold try_acquire_slot.
  assert (counter rank s = Ok (n, s)) as Hc by (unfold counter; by rewrite Hn, (proj2 (Z.ltb_ge rank 0))).
  rewrite (st_bind_eq _ _ _ _ _ Hc). rewrite Z.leb_antisym, <- negb_orb.
  destruct (hp || (threshold <? n)); cbn [negb andb]; [|done].
  rewrite (st_bind_eq _ _ _ _ _ (fetch_add_ok s rank n (-1) Hs ltac:(lia))). rewrite Z.leb_antisym.
  destruct (Z.ltb_spec 0 n); cbn [negb].
  - done.
  - destruct (Z.eq_dec n (- 2 ^ 31 + 1)) as [E|].
    + unfold fetch_add, counter, set_slots, mbind, st_bind. cbn [iv_slots iv_verbs].
      rewrite lookup_insert_eq, (proj2 (Z.ltb_ge rank 0)) by done. cbn. rewrite i32_id by lia. unfold mret, st_ret. do 2 f_equal.
      rewrite insert_insert_eq. destruct s as [sl v]. cbn in *. f_equal. rewrite insert_id; [done|]. rewrite Hn. f_equal. lia.
    + rewrite (st_bind_eq _ _ _ _ _ (fetch_add_ok _ rank (n + -1) 1 (set_slots_at s rank n (n + -1) Hs ltac:(lia)) ltac:(lia))).
      unfold mret, st_ret. do 2 f_equal. replace (n + -1 + 1) with n by lia. by apply set_slots_twice.
Qed.
Lemma release_ok s rank n : slots_at s rank n -> 0 < n -> release_slot rank (set_slots rank (n - 1) s) = Ok (tt, s).
Proof.
  intros Hs Hp. pose proof Hs as (_ & _ & Hi). unfold release_slot.
  rewrite (st_bind_eq _ _ _ _ _ (fetch_add_ok _ rank (n - 1) 1 (set_slots_at s rank n (n - 1) Hs ltac:(lia)) ltac:(lia))).
  unfold mret, st_ret. replace (n - 1 + 1) with n by lia. by rewrite (set_slots_twice s rank n).
Qed.

(** What a post on a queue pair with [n] free slots does: the operation is too long; there
    is no slot, or only reserved ones; another thread has the lock; or the library is called,
    and takes the request, has no room, or fails, which ends the process. *)
Definition free_slot (n : Z) (hp : bool) : bool := (hp || (threshold <? n)) && (0 <? n).
Inductive post_outcome (short : bool) (rank n : Z) (hp : bool) (w : send_wr) s : result (errorcode_t * ibv_state V) -> Prop :=
  | outcome_no_slot : free_slot n hp = false -> post_outcome short rank n hp w s (Ok (ec_retry_nomem, s))
  | outcome_locked :
      free_slot n hp = true -> qp_locked rank (iv_verbs s) = true -> post_outcome short rank n hp w s (Ok (ec_retry_lock, s))
  | outcome_posted v :
      free_slot n hp = true -> qp_locked rank (iv_verbs s) = false -> ibv_post_send rank w (iv_verbs s) = (0, v) ->
      post_outcome short rank n hp w s
        (Ok (if short then ec_done else ec_posted, mk_ibv (<[(ep, Z.to_nat rank) := n - 1]> (iv_slots s)) v))
  | outcome_full v :
      free_slot n hp = true -> qp_locked rank (iv_verbs s) = false -> ibv_post_send rank w (iv_verbs s) = (ENOMEM, v) ->
      post_outcome short rank n hp w s (Ok (ec_retry_nomem, mk_ibv (iv_slots s) v))
  | outcome_fails ret v :
      free_slot n hp = true -> qp_locked rank (iv_verbs s) = false -> ibv_post_send rank w (iv_verbs s) = (ret, v) ->
      ret <> 0 -> ret <> ENOMEM -> post_outcome short rank n hp w s (Err (AssertFailed "ibv_post_send")).

Lemma post_wr_outcome short rank n hp w s : slots_at s rank n -> post_outcome short rank n hp w s (post_wr short rank hp w s).
Proof.
  intros Hs. unfold post_wr. rewrite (st_bind_eq _ _ _ _ _ (eq_trans (try_acquire_ok s rank n hp Hs) (f_equal Ok (surjective_pairing _)))).
  fold (free_slot n hp). destruct (free_slot n hp) eqn:Ea; cbn [fst snd negb]; [|by apply outcome_no_slot].
  pose proof Ea as [_ Ea2%Z.ltb_lt]%andb_true_iff.
  rewrite (st_bind_eq _ _ _ (iv_verbs s) (set_slots rank (n - 1) s)) by done.
  destruct (qp_locked rank (iv_verbs s)) eqn:El.
  { rewrite (st_bind_eq _ _ _ _ _ (release_ok s rank n Hs Ea2)). by apply outcome_locked. }
  destruct (ibv_post_send rank w (iv_verbs s)) as [ret v'] eqn:Ev. unfold modify at 1, mbind at 1, st_bind at 1.
  assert (Hrel : release_slot rank (mk_ibv (iv_slots (set_slots rank (n - 1) s)) v') = Ok (tt, mk_ibv (iv_slots s) v')).
  { apply (release_ok (mk_ibv (iv_slots s) v') rank n); done. }
  destruct (Z.eqb_spec ret 0) as [->|H0]; [by apply outcome_posted|]. destruct (Z.eqb_spec ret ENOMEM) as [->|H1].
  - rewrite (st_bind_eq (release_slot rank) _ _ _ _ Hrel). by apply outcome_full.
  - rewrite (st_bind_eq (release_slot rank) _ _ _ _ Hrel). by eapply outcome_fails.
Qed.
Lemma ibv_post_too_long o hp s : is_short (no_op o) = true -> max_inject_size < no_size o ->
  ibv_post o hp s = Err (AssertFailed "exceed the inline message size limit!").
Proof.
  intros Hs Hl. unfold ibv_post, post_sends_impl, post_puts_impl, post_putImms_impl.
  destruct (no_op o); try done; unfold check_inject, assert_st; by rewrite (proj2 (Z.leb_gt _ _) Hl).
Qed.

(** C19: a post on a libibverbs endpoint, whatever the library answers. A short operation
    above the inline limit fails. Any other is translated into exactly one request, the one
    that describes the operation: without a free slot, where the reserved ones are free to
    urgent posts only, or without the lock the library is not called, the post asks to
    retry and nothing changes; a request that the library takes costs one slot of the queue
    pair of the rank; one that it has no room for costs none and the post asks to retry;
    any other error of the library ends the process. *)
Theorem ibv_post_takes_slot o hp s n :
  slots_at s (no_rank o) n ->
  if is_short (no_op o) && (max_inject_size <? no_size o)
  then ibv_post o hp s = Err (AssertFailed "exceed the inline message size limit!")
  else exists w, describes o w /\ post_outcome (is_short (no_op o)) (no_rank o) n hp w s (ibv_post o hp s).
Proof.
  intros Hs. destruct (_ && _) eqn:E.
  - apply andb_true_iff in E as [E1 E2%Z.ltb_lt]. by apply ibv_post_too_long.
  - destruct (ibv_post_wr o hp s) as (w & -> & Hd).
    { intros Hsh. rewrite Hsh in E. by apply Z.ltb_ge in E. }
    exists w. split; [done|]. by apply post_wr_outcome.
Qed.

Lemma post_wr_codes short rank hp w s e s' : post_wr short rank hp w s = Ok (e, s') -> is_retry e = false ->
  e = if short then ec_done else ec_posted.
Proof.
  unfold post_wr. intros H Hr. apply st_bind_Ok in H as (acq & s1 & _ & H). destruct acq; cbn [negb] in H; [|by injection H as <- _].
  apply st_bind_Ok in H as (v & s2 & _ & H). destruct (qp_locked rank v).
  { apply st_bind_Ok in H as (? & ? & _ & H). by injection H as <- _. }
  destruct (ibv_post_send rank w v) as [ret v']. apply st_bind_Ok in H as (? & ? & _ & H). destruct (ret =? 0); [by injection H as <- _|].
  destruct (ret =? ENOMEM); apply st_bind_Ok in H as (? & ? & _ & H); [by injection H as <- _|discriminate H].
Qed.
(** The libibverbs backend keeps the contract of the endpoint model: whatever it
    answers except retry is done for the short operations and posted for the others. *)
Theorem ibv_backend_codes : backend_codes ibv_impl.
Proof.
  intros o hp m s. cbn zeta. unfold ibv_impl. destruct (ibv_post o hp s) as [[e s']|f] eqn:E; cbn [fst]; [|done].
  assert (H : (is_short (no_op o) = true -> no_size o <= max_inject_size)).
  { intros Hs. unfold ibv_post, post_sends_impl, post_puts_impl, post_putImms_impl in E.
    destruct (no_op o); try done; apply st_bind_Ok in E as (? & ? & E & _); unfold check_inject, assert_st, lift in E;
      by destruct (Z.leb_spec (no_size o) max_inject_size). }
  destruct (ibv_post_wr o hp s H) as (w & Ew & _). rewrite E in Ew. intros Hr. rewrite (post_wr_codes _ _ _ _ _ _ _ (eq_sym Ew) Hr).
  by destruct (is_short (no_op o)).
Qed.
End Post.

(** ** Receives *)

Section Recv.
Context {V : Type}.
Variable get_mr_lkey : Z -> Z.
Variable srq_locked : V -> bool.
Variable ibv_post_srq_recv : recv_wr -> V -> Z * V.

Definition recv_wr_of (buffer size mr user_context : Z) : recv_wr :=
  mk_recv_wr user_context (mk_sge buffer (u32 size) (get_mr_lkey mr)).
Definition post_recv_impl (buffer size mr user_context : Z) : ST V errorcode_t := fun v =>
  if srq_locked v then Ok (ec_retry_lock, v)
  else
    let '(ret, v) := ibv_post_srq_recv (recv_wr_of buffer size mr user_context) v in
    if ret =? 0 then Ok (ec_done, v)
    else if ret =? ENOMEM then Ok (ec_retry_nomem, v)
    else Err (AssertFailed "ibv_post_srq_recv").

(** The loop: requests posted and the last error; [None] is the variable that no call
    has set. *)
Fixpoint post_recvs_loop (recvs : list (Z * Z)) (size mr : Z) (n_posted : Z) (error : option Z) (v : V) : Z * option Z * V :=
  match recvs with
  | [] => (n_posted, error, v)
  | (buffer, user_context) :: recvs =>
      let '(ret, v) := ibv_post_srq_recv (recv_wr_of buffer size mr user_context) v in
      if ret =? 0 then post_recvs_loop recvs size mr (n_posted + 1) (Some ret) v else (n_posted, Some ret, v)
  end.
Definition post_recvs_impl (recvs : list (Z * Z)) (size mr : Z) : ST V Z := fun v =>
  if srq_locked v then Ok (0, v)
  else
    let '(n_posted, error, v) := post_recvs_loop recvs size mr 0 None v in
    match error with
    | None => Err (Undefined "error is read before it is set")
    | Some error => if (error =? 0) || (error =? ENOMEM) then Ok (n_posted, v) else Err (AssertFailed "ibv_post_srq_recv")
    end.

(** The requests that the library takes, in order, up to the first that it refuses. *)
Fixpoint accepted_recvs (recvs : list (Z * Z)) (size mr : Z) (v : V) : nat :=
  match recvs with
  | [] => 0
  | (buffer, user_context) :: recvs =>
      let '(ret, v) := ibv_post_srq_recv (recv_wr_of buffer size mr user_context) v in
      if ret =? 0 then S (accepted_recvs recvs size mr v) else 0
  end.
Lemma post_recvs_loop_spec recvs size mr n e v :
  (forall w v, (ibv_post_srq_recv w v).1 = 0 \/ (ibv_post_srq_recv w v).1 = ENOMEM) ->
  let r := post_recvs_loop recvs size mr n e v in
  r.1.1 = n + Z.of_nat (accepted_recvs recvs size mr v)
  /\ (recvs <> [] -> exists x, r.1.2 = Some x /\ (x = 0 \/ x = ENOMEM)) /\ (recvs = [] -> r.1.2 = e).
Proof.
  intros Hc. revert n e v. induction recvs as [|[b u] recvs IH]; intros n e v; cbn [post_recvs_loop accepted_recvs].
  { split_and!; [cbn; lia|done|done]. }
  pose proof (Hc (recv_wr_of b size mr u) v) as Hr. destruct (ibv_post_srq_recv _ v) as [ret v']. cbn [fst] in Hr.
  destruct (Z.eqb_spec ret 0) as [->|Hne].
  - destruct (IH (n + 1) (Some 0) v') as (H1 & H2 & H3). split_and!; [rewrite H1; lia| |done]. intros _.
    destruct recvs as [|x recvs]; [exists 0; split; [by apply H3|by left]|by apply H2].
  - split_and!; [cbn; lia| |done]. intros _. exists ret. by split.
Qed.
(** Posting receives in a batch: the receives before the first one that the queue has
    no room for are posted, and their number is returned; without the lock none is. An
    empty batch reads a variable that was never set. *)
Theorem post_recvs_counts recvs size mr v :
  (forall w v, (ibv_post_srq_recv w v).1 = 0 \/ (ibv_post_srq_recv w v).1 = ENOMEM) ->
  (recvs <> [] -> exists v', post_recvs_impl recvs size mr v
     = Ok (if srq_locked v then 0 else Z.of_nat (accepted_recvs recvs size mr v), v'))
  /\ (srq_locked v = false -> post_recvs_impl [] size mr v = Err (Undefined "error is read before it is set")).
Proof.
  intros Hc. unfold post_recvs_impl. split; [|by intros ->]. intros Hne. destruct (srq_locked v); [by eexists|].
  destruct (post_recvs_loop_spec recvs size mr 0 None v Hc) as (H1 & H2 & _). destruct (post_recvs_loop _ _ _ _ _ _) as [[n e] v'].
  cbn [fst snd] in *. destruct (H2 Hne) as (x & -> & Hx). exists v'. rewrite H1. by destruct Hx as [-> | ->].
Qed.
End Recv.

(** ** A library that records what it gets and has room for [room] requests *)

Definition rec_post_send (room : nat) (rank : Z) (w : send_wr) (v : list (Z * send_wr)) : Z * list (Z * send_wr) :=
  if (length v <? room)%nat then (0, v ++ [(rank, w)]) else (ENOMEM, v).
Definition rec_post_recv (room : nat) (w : recv_wr) (v : list recv_wr) : Z * list recv_wr :=
  if (length v <? room)%nat then (0, v ++ [w]) else (ENOMEM, v).
Definition rec_put : net_op_t := mk_op bo_put 1 4096 100 7 24 (mk_rmr 8192 8192 77) 0 99.
Definition rec_state : ibv_state (list (Z * send_wr)) := mk_ibv {[(0%nat, 1%nat) := 9]} [].

Lemma ibv_post_takes_slot_witness :
  exists w, describes Z.succ rec_put w
    /\ post_outcome 0 4 (fun _ _ => false) (rec_post_send 8) false 1 9 false w rec_state
         (ibv_post 0 4 64 Z.succ (fun _ _ => false) (rec_post_send 8) rec_put false rec_state).
Proof.
  apply (ibv_post_takes_slot 0 4 64 Z.succ (fun _ _ => false) (rec_post_send 8) rec_put false rec_state 9).
  split; [vm_compute; discriminate|]. split; [reflexivity|lia].
Defined.
Lemma post_recvs_counts_witness :
  exists v', post_recvs_impl Z.succ (fun _ => false) (rec_post_recv 2) [(4096, 1); (8192, 2); (12288, 3)] 64 7 [] = Ok (2, v').
Proof.
  destruct (post_recvs_counts Z.succ (fun _ => false) (rec_post_recv 2) [(4096, 1); (8192, 2); (12288, 3)] 64 7 []) as [H _].
  - intros w v. unfold rec_post_recv. destruct (length v <? 2)%nat; [left|right]; reflexivity.
  - destruct (H ltac:(discriminate)) as (v' & E). exists v'. exact E.
Defined.
