(* ===== verification/IbvSlots.v ===== *)
(** * The libibverbs backend: send slots under concurrency

    The counters of free slots of the queue pairs of a device
    (src/src/network/ibv/backend_ibv_inline.hpp, src/src/network/ibv/backend_ibv.cpp), with
    any number of threads that post and poll, one atomic access at a time, and endpoints
    that come and go. A poll gives a slot back to the queue pair that the map of
    [IbvQps] answers. *)
From stdpp Require Import base numbers functions list gmap strings relations.
From Stdlib Require Import ZArith Lia.
From S2P Require Import Prelude Status IbvQps.

(** A completion: its number, and whether the request is one of a removed endpoint. *)
Abbreviation completion := (Z * bool)%type.
(** Where a thread is: in [try_acquire_slot] before the load, before the decrement and
    before the increment that takes a failed decrement back; in a post before the lock,
    before [ibv_post_send], before the unlock and before [release_slot]; in a poll with
    the lock of the completion queue, and with the completions left to handle. *)
Inductive slot_agent : Type :=
  | AIdle | ACheck (p : nat * nat) (high_priority : bool) | ASub (p : nat * nat) | AUndo (p : nat * nat)
  | ALock (p : nat * nat) | APost (p : nat * nat) | AUnlock (p : nat * nat) (posted : bool) | ARelease (p : nat * nat)
  | APolling (l : list completion) | APolled (l : list completion).

(** [d_sq] counts, for each queue pair, the requests whose completion was not polled yet;
    [d_strays] are the numbers of such requests of removed endpoints, and [d_lost] how many
    there ever were. *)
Record device : Type := mk_device {
  d_map : qp2rank_map_t;
  d_live : list (nat * list Z);
  d_remaining : nat * nat -> Z;
  d_sq : nat * nat -> Z;
  d_lock : nat * option nat -> bool;
  d_cq_lock : bool;
  d_strays : list Z;
  d_lost : Z;
  d_agents : list slot_agent
}.

Section Slots.
(** [per_qp]: whether each queue pair has a lock of its own. *)
Variables (nranks net_max_sends threshold : Z) (per_qp : bool).
Hypothesis Hsends : 0 <= net_max_sends.
Implicit Types (s : device) (p : nat * nat) (q : Z) (l : list completion).

Definition lock_of p : nat * option nat := (p.1, if per_qp then Some p.2 else None).
Definition move (i : nat) (a : slot_agent) s : device :=
  mk_device (d_map s) (d_live s) (d_remaining s) (d_sq s) (d_lock s) (d_cq_lock s) (d_strays s) (d_lost s) (<[i := a]> (d_agents s)).
Definition add_remaining (p : nat * nat) (d : Z) s : device :=
  mk_device (d_map s) (d_live s) (fun p' => d_remaining s p' + if decide (p = p') then d else 0) (d_sq s) (d_lock s) (d_cq_lock s)
    (d_strays s) (d_lost s) (d_agents s).
Definition add_sq (p : nat * nat) (d : Z) s : device :=
  mk_device (d_map s) (d_live s) (d_remaining s) (fun p' => d_sq s p' + if decide (p = p') then d else 0) (d_lock s) (d_cq_lock s)
    (d_strays s) (d_lost s) (d_agents s).
Definition set_lock (k : nat * option nat) (b : bool) s : device :=
  mk_device (d_map s) (d_live s) (d_remaining s) (d_sq s) (fun k' => if decide (k = k') then b else d_lock s k') (d_cq_lock s)
    (d_strays s) (d_lost s) (d_agents s).
Definition set_cq_lock (b : bool) s : device :=
  mk_device (d_map s) (d_live s) (d_remaining s) (d_sq s) (d_lock s) b (d_strays s) (d_lost s) (d_agents s).
Definition set_strays (qs : list Z) s : device :=
  mk_device (d_map s) (d_live s) (d_remaining s) (d_sq s) (d_lock s) (d_cq_lock s) qs (d_lost s) (d_agents s).
(** [fetch_add] on the counter of the entry, if it has one. *)
Definition credit (e : entry_t) s : device :=
  match release_target nranks e with Some p => add_remaining p 1 s | None => s end.

(** The endpoint's constructor and destructor; a request of a removed queue pair may still
    complete. *)
Definition left_behind (ep : nat) (qps : list Z) s : list Z :=
  concat (imap (fun i q => replicate (Z.to_nat (d_sq s (ep, i))) q) qps).
Definition endpoint_step (o : ep_op) (m : qp2rank_map_t) s : device :=
  match o with
  | AddEp ep qps =>
      mk_device m (ep_live o (d_live s)) (fun p => if decide (p.1 = ep) then net_max_sends else d_remaining s p)
        (fun p => if decide (p.1 = ep) then 0 else d_sq s p) (d_lock s) (d_cq_lock s) (d_strays s) (d_lost s) (d_agents s)
  | RemoveEp ep qps =>
      mk_device m (ep_live o (d_live s)) (d_remaining s) (d_sq s) (d_lock s) (d_cq_lock s)
        (left_behind ep qps s ++ d_strays s) (d_lost s + Z.of_nat (length (left_behind ep qps s))) (d_agents s)
  end.
Definition all_idle s : Prop := forall i a, d_agents s !! i = Some a -> a = AIdle.

Inductive slot_step : device -> device -> Prop :=
  | st_start i p q hp s : d_agents s !! i = Some AIdle -> is_qp (d_live s) p q -> slot_step s (move i (ACheck p hp) s)
  | st_reserved i p s :
      d_agents s !! i = Some (ACheck p false) -> d_remaining s p <= threshold -> slot_step s (move i AIdle s)
  | st_check i p hp s :
      d_agents s !! i = Some (ACheck p hp) -> (hp = true \/ threshold < d_remaining s p) -> slot_step s (move i (ASub p) s)
  | st_sub i p s :
      d_agents s !! i = Some (ASub p) ->
      slot_step s (move i (if d_remaining s p <=? 0 then AUndo p else ALock p) (add_remaining p (-1) s))
  | st_undo i p s : d_agents s !! i = Some (AUndo p) -> slot_step s (move i AIdle (add_remaining p 1 s))
  | st_lock i p s :
      d_agents s !! i = Some (ALock p) -> d_lock s (lock_of p) = false -> slot_step s (move i (APost p) (set_lock (lock_of p) true s))
  | st_lock_fails i p s :
      d_agents s !! i = Some (ALock p) -> d_lock s (lock_of p) = true -> slot_step s (move i (ARelease p) s)
  | st_post i p s : d_agents s !! i = Some (APost p) -> slot_step s (move i (AUnlock p true) (add_sq p 1 s))
  | st_post_fails i p s : d_agents s !! i = Some (APost p) -> slot_step s (move i (AUnlock p false) s)
  | st_unlock i p ok s :
      d_agents s !! i = Some (AUnlock p ok) ->
      slot_step s (move i (if ok then AIdle else ARelease p) (set_lock (lock_of p) false s))
  | st_release i p s : d_agents s !! i = Some (ARelease p) -> slot_step s (move i AIdle (add_remaining p 1 s))
  | st_poll i s :
      d_agents s !! i = Some AIdle -> d_cq_lock s = false -> slot_step s (move i (APolling []) (set_cq_lock true s))
  | st_completion i l p q s :
      d_agents s !! i = Some (APolling l) -> is_qp (d_live s) p q -> 0 < d_sq s p ->
      slot_step s (move i (APolling (l ++ [(q, false)])) (add_sq p (-1) s))
  | st_stray i l q qs1 qs2 s :
      d_agents s !! i = Some (APolling l) -> d_strays s = qs1 ++ q :: qs2 ->
      slot_step s (move i (APolling (l ++ [(q, true)])) (set_strays (qs1 ++ qs2) s))
  | st_polled i l s : d_agents s !! i = Some (APolling l) -> slot_step s (move i (APolled l) (set_cq_lock false s))
  | st_credit i q stray l sn s :
      d_agents s !! i = Some (APolled ((q, stray) :: l)) -> current_snapshot (d_map s) = Some sn ->
      slot_step s (move i (APolled l) (credit (get_entry sn q) s))
  | st_return i s : d_agents s !! i = Some (APolled []) -> slot_step s (move i AIdle s)
  (** Replacing the snapshot frees the old one, so no thread is in an operation. *)
  | st_endpoint o m s :
      all_idle s -> ep_history [o] (d_live s) ->
      match o with AddEp _ qps => Z.of_nat (length qps) = nranks | RemoveEp _ _ => True end ->
      ep_step nranks o (d_map s) = Ok m -> slot_step s (endpoint_step o m s).

(** The device's constructor, with [n] threads. *)
Definition device_new (n : nat) : device :=
  mk_device qp2rank_map_new [] (fun _ => 0) (fun _ => 0) (fun _ => false) false [] 0 (replicate n AIdle).

(** ** Who holds what *)

Definition target (a : slot_agent) : option (nat * nat) :=
  match a with
  | ACheck p _ | ASub p | AUndo p | ALock p | APost p | AUnlock p _ | ARelease p => Some p
  | AIdle | APolling _ | APolled _ => None
  end.
Definition polled (a : slot_agent) : list completion := match a with APolling l | APolled l => l | _ => [] end.
Definition one (b : bool) : Z := if b then 1 else 0.
(** The slots of [p], the queue pair with the number [q], that are taken and not in the
    send queue. *)
Definition holds p q (a : slot_agent) : Z :=
  match a with
  | ALock p' | APost p' | AUnlock p' false | ARelease p' => one (bool_decide (p' = p))
  | _ => tally (fun c => one (bool_decide (c = (q, false)))) (polled a)
  end.
(** A decrement that found no slot. *)
Definition undoing p (a : slot_agent) : Z := match a with AUndo p' => one (bool_decide (p' = p)) | _ => 0 end.
Definition in_lock (k : nat * option nat) (a : slot_agent) : Z :=
  match a with APost p | AUnlock p _ => one (bool_decide (lock_of p = k)) | _ => 0 end.
Definition strays (a : slot_agent) : Z := tally (fun c => one c.2) (polled a).

Lemma one_range b : 0 <= one b <= 1.
Proof. destruct b; cbn; lia. Qed.
Lemma tally_nonneg {A} (f : A -> Z) (xs : list A) : (forall a, 0 <= f a) -> 0 <= tally f xs.
Proof. intros H. induction xs as [|a xs IH]; [done|]. rewrite tally_cons. specialize (H a). lia. Qed.
Lemma tally_snoc {A} (f : A -> Z) (xs : list A) x : tally f (xs ++ [x]) = tally f xs + f x.
Proof. induction xs as [|a xs IH]; [cbn; lia|]. cbn [app]. rewrite !tally_cons, IH. lia. Qed.
Lemma holds_nonneg p q a : 0 <= holds p q a.
Proof.
  destruct a as [| | | | | |? []| | |]; cbn [holds polled]; try apply one_range; apply tally_nonneg; intros; apply one_range.
Qed.
Lemma undoing_range p a : 0 <= undoing p a <= 1.
Proof. destruct a; cbn [undoing]; (apply one_range || lia). Qed.
Lemma in_lock_range k a : 0 <= in_lock k a <= 1.
Proof. destruct a; cbn [in_lock]; (apply one_range || lia). Qed.
Lemma strays_nonneg a : 0 <= strays a.
Proof. apply tally_nonneg. intros. apply one_range. Qed.

Definition agent_ok (live : list (nat * list Z)) (a : slot_agent) : Prop :=
  (forall p, target a = Some p -> exists q, is_qp live p q) /\ (forall q, (q, false) ∈ polled a -> exists p, is_qp live p q).

(** [gift]: the slots given to a queue pair by completions that were not its own. *)
Record device_inv (n : nat) (s : device) (gift : nat * nat -> Z) : Prop := {
  dv_map : map_inv (d_live s) (d_map s);
  dv_ranks : forall ep qps, (ep, qps) ∈ d_live s -> Z.of_nat (length qps) <= nranks;
  dv_agents : length (d_agents s) = n;
  dv_ok : forall i a, d_agents s !! i = Some a -> agent_ok (d_live s) a;
  dv_count : forall p q, is_qp (d_live s) p q ->
    d_remaining s p = net_max_sends + gift p - d_sq s p - tally (holds p q) (d_agents s) - tally (undoing p) (d_agents s)
    /\ 0 <= d_sq s p /\ d_sq s p + tally (holds p q) (d_agents s) <= net_max_sends + gift p;
  dv_gift : forall p, 0 <= gift p /\ gift p + Z.of_nat (length (d_strays s)) + tally strays (d_agents s) <= d_lost s;
  dv_lock : forall k, tally (in_lock k) (d_agents s) = one (d_lock s k)
}.

(** One thread moves. *)
Lemma device_inv_move n s gift s' gift' i a b :
  device_inv n s gift -> d_agents s !! i = Some a -> d_agents s' = <[i := b]> (d_agents s) ->
  d_map s' = d_map s -> d_live s' = d_live s -> d_lost s' = d_lost s -> agent_ok (d_live s) b ->
  (forall p q, is_qp (d_live s) p q ->
     d_remaining s' p - d_remaining s p
     = (gift' p - gift p) - (d_sq s' p - d_sq s p) - (holds p q b - holds p q a) - (undoing p b - undoing p a)
     /\ 0 <= d_sq s' p
     /\ (d_sq s' p - d_sq s p) + (holds p q b - holds p q a) <= (gift' p - gift p) + one (0 <? d_remaining s p)) ->
  (forall p, 0 <= gift' p /\ gift' p + Z.of_nat (length (d_strays s')) + strays b <= gift p + Z.of_nat (length (d_strays s)) + strays a) ->
  (forall k, in_lock k b - in_lock k a = one (d_lock s' k) - one (d_lock s k)) ->
  device_inv n s' gift'.
Proof.
  intros [Hm Hr Hn Ho Hc Hg Hl] E Ea Em El Elost Hb Hc' Hg' Hl'.
  split; rewrite ?Ea, ?Em, ?El, ?Elost, ?length_insert; [done|done|done| | | |].
  - intros j c Hj. apply list_lookup_insert_Some in Hj as [(_ & <- & _)|[_ Hj]]; [done|by eapply Ho].
  - intros p q Hp. destruct (Hc p q Hp) as (H1 & H2 & H3), (Hc' p q Hp) as (H4 & H5 & H6).
    rewrite (tally_insert (holds p q) _ _ _ _ E), (tally_insert (undoing p) _ _ _ _ E).
    split_and!; [lia|done|]. destruct (Z.ltb_spec 0 (d_remaining s p)) as [Hpos|]; cbn [one] in H6; [|lia].
    assert (0 <= tally (undoing p) (d_agents s)) by (apply tally_nonneg; intros x; apply undoing_range). lia.
  - intros p. destruct (Hg p), (Hg' p). rewrite (tally_insert strays _ _ _ _ E). split; [done|]. lia.
  - intros k. rewrite (tally_insert (in_lock k) _ _ _ _ E), Hl. specialize (Hl' k). lia.
Qed.
Lemma agent_ok_next live a b : agent_ok live a -> (target b = target a \/ target b = None) -> polled b = [] -> agent_ok live b.
Proof.
  intros [H _] Ht Hp. split; [|rewrite Hp; intros q Hq; by apply not_elem_of_nil in Hq].
  intros p Hb. apply H. destruct Ht as [<-|Hn]; [done|congruence].
Qed.
(** A thread in a post moves: the cases of the queue pairs and locks that it does and does
    not work on. *)
Ltac post_cases := repeat case_decide; simplify_eq; repeat case_bool_decide; simplify_eq; cbn [one] in *; try lia.
Ltac post_step I E := eapply device_inv_move;
  [exact I|exact E|reflexivity|reflexivity|reflexivity|reflexivity
  |eapply agent_ok_next; [by eapply (dv_ok _ _ _ I)|cbn; by auto|done]
  |let p := fresh in let q := fresh in let H := fresh in intros p q H;
   destruct (dv_count _ _ _ I p q H) as (_ & ? & _);
   lazymatch goal with |- context [one ?b] => pose proof (one_range b) end; cbn; split_and!; post_cases
  |let p := fresh in intros p; destruct (dv_gift _ _ _ I p); cbn; lia
  |intros ?; cbn; post_cases].

Lemma lock_held n s gift i a k : device_inv n s gift -> d_agents s !! i = Some a -> in_lock k a = 1 -> d_lock s k = true.
Proof.
  intros I E Ha. pose proof (tally_one (in_lock k) _ i a (in_lock_range k) E). pose proof (dv_lock _ _ _ I k).
  destruct (d_lock s k); [done|]. cbn [one] in *. lia.
Qed.
(** The polls. *)
Lemma inv_completion n s gift i l p q :
  device_inv n s gift -> d_agents s !! i = Some (APolling l) -> is_qp (d_live s) p q -> 0 < d_sq s p ->
  device_inv n (move i (APolling (l ++ [(q, false)])) (add_sq p (-1) s)) gift.
Proof.
  intros I E Hq Hs. eapply device_inv_move; [exact I|exact E|reflexivity|reflexivity|reflexivity|reflexivity| | | |intros k; cbn; lia].
  - split; [done|]. cbn [polled]. intros q' [Hin|Hin]%elem_of_app; [by apply (dv_ok _ _ _ I _ _ E)|].
    apply list_elem_of_singleton in Hin. simplify_eq. by exists p.
  - intros p' q' Hp'. destruct (dv_count _ _ _ I p' q' Hp') as (_ & ? & _). pose proof (one_range (0 <? d_remaining s p')).
    cbn [move add_sq d_remaining d_sq holds undoing polled]. rewrite tally_snoc.
    assert (q' = q <-> p' = p) as Hiff.
    { split; [intros ->; by eapply (is_qp_pair _ _ _ _ (mi_live _ _ (dv_map _ _ _ I)))|intros ->; by eapply (is_qp_num _ _ _ _ (mi_live _ _ (dv_map _ _ _ I)))]. }
    destruct (decide (p = p')) as [<-|Hne].
    + rewrite (proj2 Hiff) by done. rewrite bool_decide_eq_true_2 by done. cbn [one]. lia.
    + rewrite bool_decide_eq_false_2 by naive_solver. cbn [one]. lia.
  - intros p'. destruct (dv_gift _ _ _ I p'). cbn [move add_sq d_strays]. unfold strays. cbn [polled]. rewrite tally_snoc. cbn [one snd]. lia.
Qed.
Lemma inv_stray n s gift i l q qs1 qs2 :
  device_inv n s gift -> d_agents s !! i = Some (APolling l) -> d_strays s = qs1 ++ q :: qs2 ->
  device_inv n (move i (APolling (l ++ [(q, true)])) (set_strays (qs1 ++ qs2) s)) gift.
Proof.
  intros I E Hs. eapply device_inv_move; [exact I|exact E|reflexivity|reflexivity|reflexivity|reflexivity| | | |intros k; cbn; lia].
  - split; [done|]. cbn [polled]. intros q' [Hin|Hin]%elem_of_app; [by apply (dv_ok _ _ _ I _ _ E)|].
    apply list_elem_of_singleton in Hin. simplify_eq.
  - intros p' q' Hp'. destruct (dv_count _ _ _ I p' q' Hp') as (_ & ? & _). pose proof (one_range (0 <? d_remaining s p')).
    cbn [move set_strays d_remaining d_sq holds undoing polled]. rewrite tally_snoc.
    rewrite bool_decide_eq_false_2 by done. cbn [one]. lia.
  - intros p'. destruct (dv_gift _ _ _ I p'). cbn [move set_strays d_strays]. rewrite Hs, !length_app. unfold strays. cbn [polled length].
    rewrite tally_snoc. cbn [one snd]. lia.
Qed.
(** The completion of a live queue pair gives the slot back to that queue pair. *)
Lemma inv_credit n s gift i q stray l sn :
  device_inv n s gift -> d_agents s !! i = Some (APolled ((q, stray) :: l)) -> current_snapshot (d_map s) = Some sn ->
  exists gift', device_inv n (move i (APolled l) (credit (get_entry sn q) s)) gift'.
Proof.
  intros I E Hsn. set (t := release_target nranks (get_entry sn q)).
  assert (Hc : forall p, d_remaining (credit (get_entry sn q) s) p = d_remaining s p + one (bool_decide (t = Some p))
    /\ d_sq (credit (get_entry sn q) s) p = d_sq s p).
  { intros p. unfold credit. fold t. destruct t as [p0|]; cbn [add_remaining d_remaining d_sq].
    - split; [|done]. case_decide; case_bool_decide; simplify_eq; done.
    - rewrite bool_decide_eq_false_2 by done. cbn [one]. lia. }
  assert (Hsame : let s' := credit (get_entry sn q) s in d_agents s' = d_agents s /\ d_map s' = d_map s /\ d_live s' = d_live s
    /\ d_lost s' = d_lost s /\ d_strays s' = d_strays s /\ d_lock s' = d_lock s) by (unfold credit; by destruct (release_target _ _)).
  destruct Hsame as (E1 & E2 & E3 & E4 & E5 & E6).
  exists (fun p => gift p + if stray then one (bool_decide (t = Some p)) else 0).
  eapply device_inv_move; [exact I|exact E|cbn [move d_agents]; by rewrite E1|done|done|done| | | |intros k; cbn [move d_lock]; rewrite E6; cbn; lia].
  - destruct (dv_ok _ _ _ I _ _ E) as [_ Hok]. split; [done|]. intros q' Hin. apply Hok. cbn [polled] in *. by right.
  - intros p' q' Hp'. destruct (dv_count _ _ _ I p' q' Hp') as (_ & ? & _). pose proof (one_range (0 <? d_remaining s p')).
    cbn [move d_remaining d_sq]. destruct (Hc p') as [-> ->]. cbn [holds undoing polled]. rewrite tally_cons.
    destruct stray.
    + rewrite (bool_decide_eq_false_2 (_ = (q', false))) by done. pose proof (one_range (bool_decide (t = Some p'))). cbn [one]. lia.
    + destruct (proj2 (dv_ok _ _ _ I _ _ E) q) as [p0 Hp0]; [cbn; left|].
      destruct (qp_entry nranks _ _ sn (dv_map _ _ _ I) Hsn (dv_ranks _ _ _ I) p0 q Hp0) as [_ Ht]. fold t in Ht. rewrite Ht.
      assert (q = q' <-> p0 = p') as Hiff.
      { split; [intros <-; by eapply (is_qp_pair _ _ _ _ (mi_live _ _ (dv_map _ _ _ I)))|intros <-; by eapply (is_qp_num _ _ _ _ (mi_live _ _ (dv_map _ _ _ I)))]. }
      rewrite (bool_decide_ext ((q, false) = (q', false)) (Some p0 = Some p')) by naive_solver.
      pose proof (one_range (bool_decide (Some p0 = Some p'))). lia.
  - intros p'. destruct (dv_gift _ _ _ I p'). cbn [move d_strays]. rewrite E5. unfold strays. cbn [polled]. rewrite tally_cons. cbn [snd].
    pose proof (one_range (bool_decide (t = Some p'))). destruct stray; cbn [one] in *; lia.
Qed.
Lemma inv_polled n s gift i a b :
  device_inv n s gift -> d_agents s !! i = Some a -> target a = None -> target b = None -> polled b = polled a ->
  forall cq, device_inv n (move i b (set_cq_lock cq s)) gift.
Proof.
  intros I E Ha Hb Hp cq.
  assert (Hz : forall c, target c = None -> (forall p q, holds p q c = tally (fun c => one (bool_decide (c = (q, false)))) (polled c))
    /\ (forall p, undoing p c = 0) /\ (forall k, in_lock k c = 0)) by (by intros []).
  destruct (Hz a Ha) as (Ha1 & Ha2 & Ha3), (Hz b Hb) as (Hb1 & Hb2 & Hb3).
  eapply device_inv_move; [exact I|exact E|reflexivity|reflexivity|reflexivity|reflexivity| | | |intros k; rewrite Ha3, Hb3; cbn; lia].
  - split; [by rewrite Hb|]. rewrite Hp. by apply (dv_ok _ _ _ I _ _ E).
  - intros p q Hq. destruct (dv_count _ _ _ I p q Hq) as (_ & ? & _). pose proof (one_range (0 <? d_remaining s p)).
    rewrite Ha1, Hb1, Ha2, Hb2, Hp. cbn. lia.
  - intros p. destruct (dv_gift _ _ _ I p). unfold strays. rewrite Hp. cbn. lia.
Qed.
Lemma inv_endpoint n s gift o m :
  nranks < INT32_MAX -> device_inv n s gift -> all_idle s -> ep_history [o] (d_live s) ->
  match o with AddEp _ qps => Z.of_nat (length qps) = nranks | RemoveEp _ _ => True end ->
  ep_step nranks o (d_map s) = Ok m -> exists gift', device_inv n (endpoint_step o m s) gift'.
Proof.
  intros Hmax [Hm Hr Hn Ho Hc Hg Hl] Hidle Hh Hlen Hstep.
  destruct (ep_step_inv nranks o [] _ _ Hmax Hm Hh) as (m' & E & Hm'). assert (m' = m) as -> by congruence.
  assert (Hz : forall f : slot_agent -> Z, f AIdle = 0 -> tally f (d_agents s) = 0).
  { intros f Hf. apply tally_zero. intros i a ->%Hidle. done. }
  assert (Hok : forall live i a, d_agents s !! i = Some a -> agent_ok live a).
  { intros live i a ->%Hidle. split; [done|]. intros q Hq. by apply not_elem_of_nil in Hq. }
  destruct o as [ep qps|ep qps].
  - exists (fun p => if decide (p.1 = ep) then 0 else gift p).
    split; cbn [endpoint_step d_map d_live d_remaining d_sq d_lock d_strays d_lost d_agents]; [done| |done|by eauto| | |done].
    + intros ep' qps' [Hin|[= -> ->]%list_elem_of_singleton]%elem_of_app; [by eapply Hr|lia].
    + intros p q (qps' & Hin & Hq). rewrite (Hz (holds p q)), (Hz (undoing p)) by done. destruct (Hg p) as [Hg0 Hg1]. cbn [ep_live] in Hin.
      case_decide as Hep.
      * lia.
      * apply elem_of_app in Hin as [Hin|Hin]; [|apply list_elem_of_singleton in Hin; by simplify_eq].
        destruct (Hc p q) as (H1 & H2 & H3); [by exists qps'|]. rewrite (Hz (holds p q)), (Hz (undoing p)) in H1 by done.
        rewrite (Hz (holds p q)) in H3 by done. done.
    + intros p. destruct (Hg p). case_decide; lia.
  - exists gift. split; cbn [endpoint_step d_map d_live d_remaining d_sq d_lock d_strays d_lost d_agents]; [done| |done|by eauto| | |done].
    + intros ep' qps' [_ Hin]%list_elem_of_filter. by eapply Hr.
    + intros p q (qps' & [_ Hin]%list_elem_of_filter & Hq). apply Hc. by exists qps'.
    + intros p. destruct (Hg p). rewrite length_app. lia.
Qed.

Lemma slot_step_inv n s s' gift : nranks < INT32_MAX -> device_inv n s gift -> slot_step s s' -> exists gift', device_inv n s' gift'.
Proof.
  intros Hmax I H. destruct H as [i p q hp s E Hq|i p s E Hr|i p hp s E Hr|i p s E|i p s E|i p s E Hk|i p s E Hk|i p s E|i p s E|i p ok s E
    |i p s E|i s E Hk|i l p q s E Hq Hs|i l q qs1 qs2 s E Hs|i l s E|i q stray l sn s E Hsn|i s E|o m s Hidle Hh Hlen Hm].
  - exists gift. eapply device_inv_move; [exact I|exact E|reflexivity|reflexivity|reflexivity|reflexivity| | | |intros k; cbn; lia].
    + split; [intros p' [= <-]; by exists q|intros q' Hq'; by apply not_elem_of_nil in Hq'].
    + intros p' q' Hp'. destruct (dv_count _ _ _ I p' q' Hp') as (_ & ? & _). pose proof (one_range (0 <? d_remaining s p')). cbn. lia.
    + intros p'. destruct (dv_gift _ _ _ I p'). cbn. lia.
  - exists gift. post_step I E.
  - exists gift. post_step I E.
  - exists gift. destruct (Z.leb_spec (d_remaining s p) 0); [post_step I E|].
    assert (Hone : one (0 <? d_remaining s p) = 1) by (by rewrite (proj2 (Z.ltb_lt _ _))). post_step I E.
  - exists gift. post_step I E.
  - exists gift. post_step I E. by rewrite Hk.
  - exists gift. post_step I E.
  - exists gift. post_step I E.
  - exists gift. post_step I E.
  - assert (Hk : d_lock s (lock_of p) = true) by (eapply lock_held; [exact I|exact E|]; cbn; by rewrite bool_decide_eq_true_2).
    exists gift. destruct ok; post_step I E; by rewrite Hk.
  - exists gift. post_step I E.
  - exists gift. by eapply inv_polled.
  - exists gift. by eapply inv_completion.
  - exists gift. by eapply inv_stray.
  - exists gift. by eapply inv_polled.
  - by eapply inv_credit.
  - exists gift. replace (move i AIdle s) with (move i AIdle (set_cq_lock (d_cq_lock s) s)) by (by destruct s). by eapply inv_polled.
  - by eapply inv_endpoint.
Qed.
Lemma device_inv_new n : device_inv n (device_new n) (fun _ => 0).
Proof.
  split; cbn [device_new d_map d_live d_remaining d_sq d_lock d_strays d_lost d_agents].
  - apply map_inv_new.
  - intros ep qps H. by apply not_elem_of_nil in H.
  - apply length_replicate.
  - intros i a [-> _]%lookup_replicate. split; [done|]. intros q H. by apply not_elem_of_nil in H.
  - intros p q (qps & H & _). by apply not_elem_of_nil in H.
  - intros p. rewrite tally_replicate. cbn. lia.
  - intros k. rewrite tally_replicate. cbn. lia.
Qed.
Lemma slot_run_inv n s : nranks < INT32_MAX -> rtc slot_step (device_new n) s -> exists gift, device_inv n s gift.
Proof.
  intros Hmax. pose proof (device_inv_new n) as I. revert I. generalize (device_new n), (fun _ : nat * nat => 0). intros s0 gift I H.
  revert gift I. induction H as [s|s s1 s2 Hs _ IH]; intros gift I; [by exists gift|].
  destruct (slot_step_inv n s s1 gift Hmax I Hs) as [gift' I']. by eapply IH.
Qed.

End Slots.

