(* ===== verification/IbvSetup.v ===== *)
(** * The libibverbs backend: set-up

    src/src/network/ibv/backend_ibv_detail.cpp: the choice of a port and of a GID, and
    GIDs as text; src/src/network/ibv/backend_ibv.cpp: the limits of a device, memory
    registration, and the queue pairs of an endpoint from their creation to their
    connection. What the verbs library answers is data. *)
From stdpp Require Import base numbers functions list gmap strings.
From Stdlib Require Import ZArith Lia.
From S2P Require Import Prelude Text Bootstrap.

(** ** GIDs as text *)

Definition le32 (b : list Z) : Z := foldr (fun c acc => c + 256 * acc) 0 b.
Definition to_le32 (x : Z) : list Z := [x mod 256; x / 2 ^ 8 mod 256; x / 2 ^ 16 mod 256; x / 2 ^ 24 mod 256].
(** [htobe32] and [be32toh] of a little-endian machine. *)
Definition bswap32 (x : Z) : Z :=
  x mod 256 * 2 ^ 24 + x / 2 ^ 8 mod 256 * 2 ^ 16 + x / 2 ^ 16 mod 256 * 2 ^ 8 + x / 2 ^ 24 mod 256.

(** "%08x" four times. *)
Definition gid_to_wire_gid (gid : list Z) : list Z :=
  concat ((fun i => print_x 8 (bswap32 (le32 (take 4 (drop (4 * i) gid))))) <$> seq 0 4).
Fixpoint scan_words (n : nat) (wgid : list Z) : result (list Z) :=
  match n with
  | O => Ok []
  | S n =>
      match scan_x (take 8 wgid) with
      | None => Err (AssertFailed "Failed to parse GID component")
      | Some v => rest ← scan_words n (drop 8 wgid) ; Ok (to_le32 (bswap32 v) ++ rest)
      end
  end.
Definition wire_gid_to_gid (wgid : list Z) : result (list Z) := scan_words 4 wgid.

(** A word from its bytes, the lowest first. *)
Definition word (w x y z : Z) : Z := w + 256 * (x + 256 * (y + 256 * z)).
Lemma word_bytes w x y z : is_byte w -> is_byte x -> is_byte y -> is_byte z ->
  to_le32 (word w x y z) = [w; x; y; z] /\ bswap32 (word w x y z) = word z y x w /\ 0 <= word w x y z < 2 ^ 32.
Proof.
  unfold is_byte. intros Hw Hx Hy Hz.
  assert (word w x y z mod 256 = w /\ word w x y z / 2 ^ 8 mod 256 = x /\ word w x y z / 2 ^ 16 mod 256 = y
          /\ word w x y z / 2 ^ 24 mod 256 = z) as (E1 & E2 & E3 & E4).
  { unfold word. change (2 ^ 8) with 256. change (2 ^ 16) with 65536. change (2 ^ 24) with 16777216.
    Z.to_euclidean_division_equations. lia. }
  unfold to_le32, bswap32. rewrite E1, E2, E3, E4. unfold word. split_and!; [done|lia|lia|lia].
Qed.
Lemma bswap_word a b c d : is_byte a -> is_byte b -> is_byte c -> is_byte d ->
  let v := bswap32 (le32 [a; b; c; d]) in 0 <= v < 2 ^ 32 /\ to_le32 (bswap32 v) = [a; b; c; d].
Proof.
  intros Ha Hb Hc Hd. cbn zeta. assert (le32 [a; b; c; d] = word a b c d) as -> by (unfold word; cbn; lia).
  destruct (word_bytes a b c d Ha Hb Hc Hd) as (H1 & -> & _). destruct (word_bytes d c b a Hd Hc Hb Ha) as (_ & -> & H). done.
Qed.
Lemma scan_word w rest n : length w = 4%nat -> Forall is_byte w ->
  scan_words (S n) (print_x 8 (bswap32 (le32 w)) ++ rest) = (r ← scan_words n rest ; Ok (w ++ r)).
Proof.
  intros Hl Hw. destruct w as [|a [|b [|c [|d [|]]]]]; try discriminate Hl.
  rewrite !Forall_cons in Hw. destruct Hw as (Ha & Hb & Hc & Hd & _).
  destruct (bswap_word a b c d Ha Hb Hc Hd) as [Hv E]. cbn zeta in *. set (v := bswap32 (le32 [a; b; c; d])) in *.
  assert (Hp : length (print_x 8 v) = 8%nat) by (apply print_x_length; [lia|done]).
  cbn [scan_words]. rewrite take_app_length', drop_app_length' by done.
  rewrite scan_digits; [|by destruct (print_x 8 v)|apply print_x_digits]. rewrite read_print_x, u32_id by (try apply Hv; done).
  by rewrite E.
Qed.
Lemma wire_gid_roundtrip gid : length gid = 16%nat -> Forall is_byte gid -> wire_gid_to_gid (gid_to_wire_gid gid) = Ok gid.
Proof.
  intros Hl Hg. unfold wire_gid_to_gid, gid_to_wire_gid. cbn [seq fmap list_fmap concat].
  rewrite <- (app_nil_r gid) at 5.
  rewrite !scan_word; try (by apply Forall_take, Forall_drop); try (rewrite length_take, length_drop; lia).
  cbn [scan_words mbind result_bind]. f_equal.
  do 17 (destruct gid as [|? gid]; [try discriminate Hl; try done|]). discriminate Hl.
Qed.

(** ** The choice of a port *)

(** Lanes. *)
Definition translate_width (width : Z) : Z :=
  if width =? 1 then 1 else if width =? 2 then 4 else if width =? 4 then 8 else if width =? 8 then 12 else if width =? 16 then 2 else 0.
(** Speed of a lane, in units of half a Gbps: 2.5 Gbps are 5. *)
Definition translate_speed (speed : Z) : Z :=
  if speed =? 1 then 5 else if speed =? 2 then 10 else if (speed =? 4) || (speed =? 8) then 20 else if speed =? 16 then 28
  else if speed =? 32 then 50 else if speed =? 64 then 100 else if speed =? 128 then 200 else 0.

Inductive link_layer_t : Type := LINK_UNSPECIFIED | LINK_INFINIBAND | LINK_ETHERNET.
Definition is_infiniband (l : link_layer_t) : bool := match l with LINK_INFINIBAND => true | _ => false end.
Definition is_ethernet (l : link_layer_t) : bool := match l with LINK_ETHERNET => true | _ => false end.
(** What [ibv_query_port] answers, if it succeeds. *)
Record port_attr_t : Type := mk_port {
  po_active : bool; po_link_layer : link_layer_t; po_lid : Z; po_active_width : Z; po_active_speed : Z
}.
(** A device with its ports, the first of which has number one; a device that cannot be
    opened or queried has no answer. *)
Record ibv_device_t : Type := mk_ibv_device { dv_name : list Z; dv_ports : option (list (option port_attr_t)) }.

Definition port_speed (p : option port_attr_t) : option Z :=
  match p with
  | None => None
  | Some p =>
      if negb (po_active p) then None
      else if is_infiniband (po_link_layer p) && (po_lid p =? 0) then None
      else if translate_width (po_active_width p) <=? 0 then None
      else if translate_speed (po_active_speed p) <=? 0 then None
      else Some (translate_speed (po_active_speed p) * translate_width (po_active_width p))
  end.
(** Device, port and speed of the best so far; the speed is zero at the beginning. *)
Definition best_t : Type := option (nat * Z) * Z.
Fixpoint ports_loop (device : nat) (port_num : Z) (ports : list (option port_attr_t)) (best : best_t) : best_t :=
  match ports with
  | [] => best
  | p :: ports =>
      let best := match port_speed p with
                  | Some total => if snd best <? total then (Some (device, port_num), total) else best
                  | None => best
                  end in
      ports_loop device (port_num + 1) ports best
  end.
Fixpoint devices_loop (requested : list Z) (device : nat) (devs : list ibv_device_t) (best : best_t) : best_t :=
  match devs with
  | [] => best
  | d :: devs =>
      let best :=
        if negb (bool_decide (requested = [])) && negb (bool_decide (dv_name d = requested)) then best
        else match dv_ports d with None => best | Some ports => ports_loop device 1 ports best end in
      devices_loop requested (S device) devs best
  end.
Definition select_best_device_port (devs : list ibv_device_t) (requested : list Z) : option (nat * Z) :=
  let best := devices_loop requested 0 devs (None, 0) in
  if 0 <? snd best then fst best else None.

(** The usable ports of the devices in question, in order. *)
Definition usable_ports (device : nat) (port_num : Z) (ports : list (option port_attr_t)) : list (nat * Z * Z) :=
  omap id (imap (fun k p => v ← port_speed p ; Some (device, port_num + Z.of_nat k, v)) ports).
Definition candidates (devs : list ibv_device_t) (requested : list Z) (device : nat) : list (nat * Z * Z) :=
  concat (imap (fun i d =>
    if bool_decide (requested = [] \/ dv_name d = requested) then from_option (usable_ports (device + i) 1) [] (dv_ports d) else []) devs).

Definition pick (best : best_t) (c : nat * Z * Z) : best_t := if snd best <? c.2 then (Some c.1, c.2) else best.
Lemma ports_loop_pick device n ports best : ports_loop device n ports best = foldl pick best (usable_ports device n ports).
Proof.
  revert n best. induction ports as [|p ports IH]; intros n best; [done|]. cbn [ports_loop]. rewrite IH. unfold usable_ports. cbn [imap].
  assert (E : omap id (imap (fun k p => v ← port_speed p ; Some (device, n + 1 + Z.of_nat k, v)) ports)
    = omap id (imap ((fun k p => v ← port_speed p ; Some (device, n + Z.of_nat k, v)) ∘ S) ports)).
  { f_equal. apply imap_ext. intros i x _. cbn. destruct (port_speed x); cbn; [|done]. do 3 f_equal. lia. }
  rewrite E. destruct (port_speed p) as [v|]; cbn; [|done]. by rewrite Z.add_0_r.
Qed.
Lemma devices_loop_pick requested device devs best :
  devices_loop requested device devs best = foldl pick best (candidates devs requested device).
Proof.
  revert device best. induction devs as [|d devs IH]; intros device best; [done|]. cbn [devices_loop]. rewrite IH.
  unfold candidates. cbn [imap concat]. rewrite foldl_app, Nat.add_0_r. f_equal.
  - do 2 case_bool_decide; try (case_bool_decide); cbn [negb andb]; try naive_solver.
    all: destruct (dv_ports d) as [ports|]; cbn [from_option]; [by rewrite ports_loop_pick|done].
  - f_equal. apply imap_ext. intros i x _. cbn. by replace (S (device + i)) with (device + S i)%nat by lia.
Qed.
Lemma pick_first_max l b v :
  Forall (fun c => 0 < c.2) l -> 0 <= v ->
  let r := foldl pick (b, v) l in
  (r = (b, v) /\ Forall (fun c => c.2 <= v) l)
  \/ exists l1 c l2, l = l1 ++ c :: l2 /\ r = (Some c.1, c.2) /\ v < c.2 /\ Forall (fun c' => c'.2 < c.2) l1 /\ Forall (fun c' => c'.2 <= c.2) l2.
Proof.
  revert b v. induction l as [|c l IH]; intros b v Hl Hv; [by left|]. apply Forall_cons in Hl as [Hc Hl]. cbn [foldl]. unfold pick at 2 4. cbn [snd].
  destruct (Z.ltb_spec v c.2) as [Hlt|Hge].
  - right. destruct (IH (Some c.1) c.2 Hl ltac:(lia)) as [[-> Hm]|(l1 & x & l2 & -> & -> & Hx & H1 & H2)].
    + exists [], c, l. by split_and!.
    + exists (c :: l1), x, l2. split_and!; [done|done|lia|by constructor|done].
  - destruct (IH b v Hl Hv) as [[-> Hm]|(l1 & x & l2 & -> & -> & Hx & H1 & H2)].
    + left. split; [done|]. by constructor.
    + right. exists (c :: l1), x, l2. split_and!; [done|done|done|constructor; [lia|done]|done].
Qed.
Lemma candidates_positive devs requested device : Forall (fun c => 0 < c.2) (candidates devs requested device).
Proof.
  apply Forall_forall. intros [[i n] v] H. unfold candidates in H. rewrite list_elem_of_In, List.in_concat in H. destruct H as (l & Hl & H).
  apply list_elem_of_In in Hl, H. apply list_elem_of_lookup in Hl as (j & Hj). rewrite list_lookup_imap in Hj. apply fmap_Some in Hj as (d & _ & ->).
  case_bool_decide; [|by apply not_elem_of_nil in H]. destruct (dv_ports d) as [ports|]; cbn in H; [|by apply not_elem_of_nil in H].
  unfold usable_ports in H. apply list_elem_of_omap in H as (o & Ho & E). cbn in E. subst o. apply list_elem_of_lookup in Ho as (k & Hk).
  rewrite list_lookup_imap in Hk. apply fmap_Some in Hk as (p & _ & E). symmetry in E. apply bind_Some in E as (w & Ew & [= _ _ ->]).
  unfold port_speed in Ew. destruct p as [p|]; [|done]. repeat (case_match; try done). injection Ew as <-. cbn. nia.
Qed.

(** The port of a context. Of the usable ports (active, with a LID if the link is
    InfiniBand, with a known width and speed) of the requested device, or of all devices
    if none is requested, the first of those with the greatest speed is chosen; the
    choice fails only if there is no such port. *)
Theorem best_port_chosen devs requested :
  match select_best_device_port devs requested with
  | None => candidates devs requested 0 = []
  | Some c => exists v l1 l2, candidates devs requested 0 = l1 ++ (c, v) :: l2
      /\ Forall (fun c' => c'.2 < v) l1 /\ Forall (fun c' => c'.2 <= v) l2
  end.
Proof.
  unfold select_best_device_port. rewrite devices_loop_pick. pose proof (candidates_positive devs requested 0) as Hp.
  destruct (pick_first_max (candidates devs requested 0) None 0 Hp ltac:(done)) as [[-> Hm]|(l1 & [c v] & l2 & E & -> & Hv & H1 & H2)]; cbn [fst snd] in *.
  - cbn. destruct (candidates devs requested 0) as [|c l]; [done|]. apply Forall_cons in Hm as [Hm _], Hp as [Hp _]. lia.
  - rewrite (proj2 (Z.ltb_lt 0 v)) by done. by exists v, l1, l2.
Qed.

(** ** The choice of a GID *)

Inductive roce_version_t : Type := ROCE_V2 | ROCE_V1 | ROCE_VER_UNKNOWN.
Definition roce_prio (v : roce_version_t) : Z := match v with ROCE_V2 => 0 | ROCE_V1 => 1 | ROCE_VER_UNKNOWN => 2 end.
Definition has_prefix (prefix l : list Z) : bool := bool_decide (take (length prefix) l = prefix).
(** [query_ok]: the GID can be read; [type]: the file with its type, if it can be read. *)
Definition query_gid_roce_version (query_ok : bool) (type : option (list Z)) : roce_version_t :=
  if query_ok then
    match type with
    | Some buf =>
        if has_prefix (chars "IB/RoCE v1") buf then ROCE_V1
        else if has_prefix (chars "RoCE v2") buf then ROCE_V2 else ROCE_VER_UNKNOWN
    | None => ROCE_VER_UNKNOWN
    end
  else ROCE_VER_UNKNOWN.

(** The table of a port: the version of each GID and whether it is operational. *)
Fixpoint gid_loop (table : list (roce_version_t * bool)) (i best_priority best_gid_idx : Z) : Z :=
  match table with
  | [] => best_gid_idx
  | (version, operational) :: table =>
      let priority := roce_prio version in
      if (priority =? 0) && operational then i
      else if (priority <? best_priority) && operational then gid_loop table (i + 1) priority i
      else gid_loop table (i + 1) best_priority best_gid_idx
  end.
Definition select_best_gid_for_roce (table : list (roce_version_t * bool)) : Z :=
  let best_gid_idx := gid_loop table 0 100 (-1) in
  if 0 <=? best_gid_idx then best_gid_idx else 0.

(** The first operational GID of a version. *)
Definition first_gid (v : roce_version_t) (table : list (roce_version_t * bool)) : option Z :=
  (Z.of_nat ∘ fst) <$> list_find (fun e => roce_prio e.1 = roce_prio v /\ e.2 = true) table.
(** The preference among versions: the newer one first. *)
Definition preferred_gid (table : list (roce_version_t * bool)) : option Z :=
  match first_gid ROCE_V2 table, first_gid ROCE_V1 table, first_gid ROCE_VER_UNKNOWN table with
  | Some i, _, _ => Some i
  | None, Some i, _ => Some i
  | None, None, o => o
  end.
Lemma first_gid_cons v e table :
  first_gid v (e :: table) = if (roce_prio e.1 =? roce_prio v) && e.2 then Some 0 else Z.succ <$> first_gid v table.
Proof.
  unfold first_gid. cbn [list_find]. case_decide as H.
  - destruct H as [-> ->]. by rewrite Z.eqb_refl.
  - assert ((roce_prio e.1 =? roce_prio v) && e.2 = false) as ->.
    { apply not_true_iff_false. intros [E1%Z.eqb_eq E2]%andb_true_iff. by apply H. }
    rewrite <- !option_fmap_compose. destruct (list_find _ table) as [[i x]|]; cbn; [|done]. f_equal. lia.
Qed.
Lemma gid_loop_spec table i p b :
  gid_loop table i p b
  = match first_gid ROCE_V2 table, first_gid ROCE_V1 table, first_gid ROCE_VER_UNKNOWN table with
    | Some k, _, _ => i + k
    | None, Some k, o => if 1 <? p then i + k else match o with Some k' => if 2 <? p then i + k' else b | None => b end
    | None, None, Some k => if 2 <? p then i + k else b
    | None, None, None => b
    end.
Proof.
  revert i p b. induction table as [|[v op] table IH]; intros i p b; [done|]. cbn [gid_loop]. rewrite !first_gid_cons. cbn [fst snd].
  destruct v, op; cbn [roce_prio Z.eqb Pos.eqb andb]; rewrite ?andb_false_r, ?andb_true_r; cbv iota; rewrite ?IH;
    destruct (first_gid ROCE_V2 table), (first_gid ROCE_V1 table), (first_gid ROCE_VER_UNKNOWN table); cbn [fmap option_fmap option_map];
    repeat case_match; lia.
Qed.
(** The GID of a RoCE port is the first operational one of the newest version, and the
    first of the table if none is operational. *)
Theorem best_gid_chosen table : select_best_gid_for_roce table = default 0 (preferred_gid table).
Proof.
  unfold select_best_gid_for_roce, preferred_gid. rewrite gid_loop_spec.
  assert (Hpos : forall v i, first_gid v table = Some i -> 0 <= i).
  { intros v i H. unfold first_gid in H. apply fmap_Some in H as (x & _ & ->). cbn. lia. }
  destruct (first_gid ROCE_V2 table) eqn:E2; [|destruct (first_gid ROCE_V1 table) eqn:E1; [|destruct (first_gid ROCE_VER_UNKNOWN table) eqn:E0; [|done]]];
    cbn [default]; change (1 <? 100) with true; change (2 <? 100) with true; cbv iota; rewrite Z.add_0_l.
  all: match goal with H : first_gid ?v _ = Some ?z |- _ => pose proof (Hpos v z H) end; by rewrite (proj2 (Z.leb_le 0 z)) by done.
Qed.

(** ** Connecting an endpoint *)

Record bootstrap_data_t : Type := mk_bootstrap_data {
  bd_source_rank : Z; bd_target_rank : Z; bd_uid : Z; bd_qp_num : Z; bd_lid : Z; bd_wgid : list Z
}.
Definition WIRE_GID_NBYTES : nat := 32.
(** The struct in memory: four words, the LID, the GID's text with its terminator, and a
    byte of padding. *)
Definition sizeof_bootstrap_data : nat := 52.
Definition bd_image (d : bootstrap_data_t) : list Z :=
  to_le32 (u32 (bd_source_rank d)) ++ to_le32 (u32 (bd_target_rank d)) ++ to_le32 (u32 (bd_uid d)) ++ to_le32 (bd_qp_num d)
  ++ take 2 (to_le32 (bd_lid d)) ++ bd_wgid d ++ [0; 0].
Definition bd_of_image (b : list Z) : bootstrap_data_t :=
  mk_bootstrap_data (i32 (le32 (take 4 b))) (i32 (le32 (take 4 (drop 4 b)))) (i32 (le32 (take 4 (drop 8 b))))
    (le32 (take 4 (drop 12 b))) (le32 (take 2 (drop 16 b))) (take WIRE_GID_NBYTES (drop 18 b)).

(** What a rank sends: for each rank the number of the queue pair to it. *)
Definition bootstrap_datav (rank_me uid lid : Z) (gid qps : list Z) : list bootstrap_data_t :=
  imap (fun i qp_num => mk_bootstrap_data rank_me (Z.of_nat i) uid qp_num lid (gid_to_wire_gid gid)) qps.

(** The attributes of a queue pair that is ready to receive; the others are constants. *)
Record rtr_attr : Type := mk_rtr { ra_dest_qp_num : Z; ra_dlid : Z; ra_dgid : option (list Z) }.
(** Whether [gid.global.interface_id] is not zero. *)
Definition has_interface_id (gid : list Z) : bool := existsb (fun b => negb (b =? 0)) (drop 8 gid).
Fixpoint connect_from (rank_me uid i : Z) (datav : list bootstrap_data_t) : result (list rtr_attr) :=
  match datav with
  | [] => Ok []
  | data :: datav =>
      LCI_Assert (bd_source_rank data =? i) "Unexpected source rank" ;;
      LCI_Assert (bd_target_rank data =? rank_me) "Unexpected target rank" ;;
      LCI_Assert (bd_uid data =? uid) "Unexpected uid" ;;
      gid ← wire_gid_to_gid (bd_wgid data) ;
      rest ← connect_from rank_me uid (i + 1) datav ;
      Ok (mk_rtr (bd_qp_num data) (bd_lid data) (if has_interface_id gid then Some gid else None) :: rest)
  end.
(** From the bytes that come out of the exchange. *)
Definition connect (rank_n : nat) (rank_me uid : Z) (recvbuf : list Z) : result (list rtr_attr) :=
  connect_from rank_me uid 0 ((fun i => bd_of_image (record sizeof_bootstrap_data i recvbuf)) <$> seq 0 rank_n).

Lemma le32_to_le32 x : is_u32 x -> le32 (to_le32 x) = x.
Proof.
  intros H. unfold is_u32 in H. unfold to_le32. cbn [le32 foldr]. change (2 ^ 8) with 256. change (2 ^ 16) with 65536. change (2 ^ 24) with 16777216.
  Z.to_euclidean_division_equations. lia.
Qed.
Lemma le32_lid x : 0 <= x < 2 ^ 16 -> le32 (take 2 (to_le32 x)) = x.
Proof. intros H. unfold to_le32. cbn [take le32 foldr]. change (2 ^ 8) with 256. Z.to_euclidean_division_equations. lia. Qed.

Record bd_ok (d : bootstrap_data_t) : Prop := {
  bo_source : - 2 ^ 31 <= bd_source_rank d < 2 ^ 31;
  bo_target : - 2 ^ 31 <= bd_target_rank d < 2 ^ 31;
  bo_uid : - 2 ^ 31 <= bd_uid d < 2 ^ 31;
  bo_qp : is_u32 (bd_qp_num d);
  bo_lid : 0 <= bd_lid d < 2 ^ 16;
  bo_wgid : length (bd_wgid d) = WIRE_GID_NBYTES /\ Forall is_byte (bd_wgid d)
}.
Lemma bd_image_length d : bd_ok d -> length (bd_image d) = sizeof_bootstrap_data.
Proof. intros [_ _ _ _ _ [Hw _]]. unfold bd_image. rewrite !length_app, Hw. done. Qed.
Lemma to_le32_bytes x : Forall is_byte (to_le32 x).
Proof. unfold to_le32. repeat constructor; apply Z.mod_pos_bound; lia. Qed.
Lemma bd_image_bytes d : bd_ok d -> Forall is_byte (bd_image d).
Proof.
  intros [_ _ _ _ _ [_ Hw]]. unfold bd_image. rewrite !Forall_app. split_and!; try apply to_le32_bytes; [apply Forall_take, to_le32_bytes|done|].
  repeat (constructor; [unfold is_byte; lia|]). constructor.
Qed.
Lemma bd_roundtrip d : bd_ok d -> bd_of_image (bd_image d) = d.
Proof.
  intros [Hs Ht Hu Hq Hl [Hw _]]. unfold bd_of_image, bd_image. cbn [app take drop].
  destruct d as [s t u q l w]. cbn [bd_source_rank bd_target_rank bd_uid bd_qp_num bd_lid bd_wgid] in *.
  f_equal.
  - change (i32 (le32 (to_le32 (u32 s))) = s). rewrite le32_to_le32 by apply u32_range. by apply i32_u32.
  - change (i32 (le32 (to_le32 (u32 t))) = t). rewrite le32_to_le32 by apply u32_range. by apply i32_u32.
  - change (i32 (le32 (to_le32 (u32 u))) = u). rewrite le32_to_le32 by apply u32_range. by apply i32_u32.
  - change (le32 (to_le32 q) = q). by apply le32_to_le32.
  - change (le32 (take 2 (to_le32 l)) = l). by apply le32_lid.
  - change (take WIRE_GID_NBYTES (w ++ [0; 0]) = w). rewrite <- Hw. apply take_app_length.
Qed.

Lemma record_concat size (l : list (list Z)) i : Forall (fun r => length r = size) l ->
  (i < length l)%nat -> record size i (concat l) = default [] (l !! i).
Proof.
  intros Hl. unfold record. revert i. induction Hl as [|r l Hr _ IH]; intros i Hi; cbn [length] in Hi; [lia|]. destruct i as [|i]; cbn [concat].
  - rewrite Nat.mul_0_l, drop_0, <- Hr. apply take_app_length.
  - change ((r :: l) !! S i) with (l !! i). rewrite <- (IH i) by lia. f_equal. rewrite Nat.mul_succ_l, Nat.add_comm, <- Hr. apply drop_app_add.
Qed.

Section Connect.
Variables (rank_n : nat) (round uid : Z).
(** Of each rank: LID, GID and the numbers of its queue pairs. *)
Variables (lid : nat -> Z) (gid qps : nat -> list Z).
Hypothesis Hround : 0 <= round.
Hypothesis Hn : Z.of_nat rank_n < 2 ^ 31.
Hypothesis Huid : - 2 ^ 31 <= uid < 2 ^ 31.
Hypothesis Hlid : forall r, 0 <= lid r < 2 ^ 16.
Hypothesis Hgid : forall r, length (gid r) = 16%nat /\ Forall is_byte (gid r).
Hypothesis Hqps : forall r, length (qps r) = rank_n /\ Forall is_u32 (qps r).

Definition datav_of (r : nat) : list bootstrap_data_t := bootstrap_datav (Z.of_nat r) uid (lid r) (gid r) (qps r).
(** The bytes that a rank sends. *)
Definition send_image (r : nat) : list Z := concat (bd_image <$> datav_of r).

Lemma wire_gid_ok g : length g = 16%nat -> Forall is_byte g ->
  length (gid_to_wire_gid g) = WIRE_GID_NBYTES /\ Forall is_byte (gid_to_wire_gid g).
Proof.
  intros Hl Hg. unfold gid_to_wire_gid. cbn [seq fmap list_fmap concat].
  assert (Hw : forall i, (i < 4)%nat -> length (print_x 8 (bswap32 (le32 (take 4 (drop (4 * i) g))))) = 8%nat).
  { intros i Hi. apply print_x_length; [lia|].
    assert (H4 : length (take 4 (drop (4 * i) g)) = 4%nat) by (rewrite length_take, length_drop; lia).
    assert (Hb : Forall is_byte (take 4 (drop (4 * i) g))) by (by apply Forall_take, Forall_drop).
    destruct (take 4 _) as [|a [|b [|c [|d [|]]]]]; try discriminate H4. rewrite !Forall_cons in Hb. destruct Hb as (Ha & Hb & Hc & Hd & _).
    apply (bswap_word a b c d Ha Hb Hc Hd). }
  assert (Hx : forall n, Forall is_byte (print_x 8 n)).
  { intros n. eapply Forall_impl; [apply print_x_digits|]. intros c Hc. unfold is_hex_digit, is_dec_digit in Hc. unfold is_byte. lia. }
  rewrite !length_app, !Hw by lia. split; [done|]. rewrite !Forall_app. split_and!; try apply Hx. constructor.
Qed.
Lemma datav_lookup r i q : qps r !! i = Some q ->
  datav_of r !! i = Some (mk_bootstrap_data (Z.of_nat r) (Z.of_nat i) uid q (lid r) (gid_to_wire_gid (gid r))).
Proof. intros H. unfold datav_of, bootstrap_datav. by rewrite list_lookup_imap, H. Qed.
Lemma datav_ok r d : (r < rank_n)%nat -> d ∈ datav_of r -> bd_ok d.
Proof.
  intros Hr H. apply list_elem_of_lookup in H as (i & H). unfold datav_of, bootstrap_datav in H. rewrite list_lookup_imap in H.
  apply fmap_Some in H as (q & Hq & ->). destruct (Hqps r) as [Hl Hu]. destruct (Hgid r) as [Hg1 Hg2].
  pose proof (lookup_lt_Some _ _ _ Hq). split; cbn; try lia; [|by apply Hlid|by apply wire_gid_ok].
  rewrite Forall_forall in Hu. apply Hu. apply list_elem_of_lookup. by exists i.
Qed.
Lemma send_image_record r i q : (r < rank_n)%nat -> qps r !! i = Some q ->
  exists d, datav_of r !! i = Some d /\ record sizeof_bootstrap_data i (send_image r) = bd_image d.
Proof.
  intros Hr Hq. pose proof (datav_lookup r i q Hq) as Hd. eexists. split; [exact Hd|]. unfold send_image. rewrite record_concat.
  - by rewrite list_lookup_fmap, Hd.
  - apply Forall_forall. intros b Hb. apply list_elem_of_fmap in Hb as (d & -> & H). apply bd_image_length. by eapply datav_ok.
  - rewrite length_fmap. by eapply lookup_lt_Some.
Qed.
Lemma send_image_ok r : (r < rank_n)%nat ->
  length (send_image r) = (rank_n * sizeof_bootstrap_data)%nat /\ Forall is_byte (send_image r).
Proof.
  intros Hr. unfold send_image. assert (Hl : length (datav_of r) = rank_n) by (unfold datav_of, bootstrap_datav; rewrite length_imap; apply Hqps).
  assert (Hok : forall d, d ∈ datav_of r -> bd_ok d) by (intros d; by apply datav_ok). revert Hl Hok. generalize (datav_of r) as l.
  intros l Hl Hok. rewrite <- Hl. clear -Hok. induction l as [|d l IH]; [done|]. rewrite fmap_cons. cbn [concat length]. destruct IH as [IH1 IH2]; [intros x Hx; apply Hok; by right|].
  rewrite length_app, IH1, (bd_image_length d) by (apply Hok; left). split; [lia|]. apply Forall_app. split; [|done].
  apply bd_image_bytes, Hok. left.
Qed.
Lemma connect_from_ok me i l : (me < rank_n)%nat -> (i + length l <= rank_n)%nat ->
  (forall k b, l !! k = Some b -> qps (i + k)%nat !! me = Some (bd_qp_num b)
      /\ b = mk_bootstrap_data (Z.of_nat (i + k)) (Z.of_nat me) uid (bd_qp_num b) (lid (i + k)) (gid_to_wire_gid (gid (i + k)))) ->
  exists attrs, connect_from (Z.of_nat me) uid (Z.of_nat i) l = Ok attrs
    /\ forall k q, (k < length l)%nat -> qps (i + k)%nat !! me = Some q ->
         attrs !! k = Some (mk_rtr q (lid (i + k)) (if has_interface_id (gid (i + k)) then Some (gid (i + k)) else None)).
Proof.
  intros Hme. revert i. induction l as [|b l IH]; intros i Hi Hl.
  { exists []. split; [done|]. intros k q Hk. cbn in Hk. lia. }
  cbn [length] in Hi. destruct (Hl 0%nat b eq_refl) as [Hq Hb]. rewrite Nat.add_0_r in *. destruct (IH (S i)) as (attrs & E & Ha); [lia| |].
  { intros k b' Hk. rewrite Nat.add_succ_l, <- Nat.add_succ_r. by apply (Hl (S k) b'). }
  cbn [connect_from]. rewrite Hb. cbn [bd_source_rank bd_target_rank bd_uid bd_qp_num bd_lid bd_wgid]. rewrite !Z.eqb_refl. cbn [LCI_Assert mbind result_bind].
  destruct (Hgid i) as [Hg1 Hg2]. rewrite wire_gid_roundtrip by done. cbn [mbind result_bind].
  replace (Z.of_nat i + 1) with (Z.of_nat (S i)) by lia. rewrite E. cbn [mbind result_bind]. eexists. split; [done|]. intros [|k] q Hk Hq'.
  - rewrite Nat.add_0_r in *. cbn. congruence.
  - rewrite <- Nat.add_succ_comm in *. cbn [lookup list_lookup]. apply Ha; [cbn in Hk; lia|done].
Qed.

(** C17: the queue pairs of an endpoint are connected in pairs. When all ranks have
    published their records through the start-up exchange, in any order, every rank
    accepts all of them, and the attributes with which it modifies its queue pair for a rank
    have the number of that
    rank's queue pair for it, with that rank's LID and, where it has one, GID. *)
Theorem endpoints_connected :
  exists puts_of : nat -> list (list Z * list Z),
    (forall r, (r < rank_n)%nat -> alltoall_publish round rank_n (Z.of_nat r) sizeof_bootstrap_data (send_image r) = Ok (puts_of r))
    /\ forall kvs puts a, puts ≡ₚ concat (puts_of <$> seq 0 rank_n) -> (a < rank_n)%nat ->
         exists recvbuf attrs, alltoall_read (publish_all kvs puts) round rank_n (Z.of_nat a) sizeof_bootstrap_data = Ok recvbuf
           /\ connect rank_n (Z.of_nat a) uid recvbuf = Ok attrs
           /\ forall b q, (b < rank_n)%nat -> qps b !! a = Some q ->
                attrs !! b = Some (mk_rtr q (lid b) (if has_interface_id (gid b) then Some (gid b) else None)).
Proof.
  destruct (exchange_ok round rank_n sizeof_bootstrap_data send_image Hround) as (puts_of & Hp & Hr); [done|apply send_image_ok|].
  exists puts_of. split; [done|]. intros kvs puts a Hputs Ha. set (buf := concat ((fun i => record sizeof_bootstrap_data a (send_image i)) <$> seq 0 rank_n)).
  set (l := (fun i => bd_of_image (record sizeof_bootstrap_data i buf)) <$> seq 0 rank_n).
  assert (Hlk : forall k b, l !! k = Some b -> qps k !! a = Some (bd_qp_num b)
     /\ b = mk_bootstrap_data (Z.of_nat k) (Z.of_nat a) uid (bd_qp_num b) (lid k) (gid_to_wire_gid (gid k))).
  { intros k b Hk. unfold l in Hk. rewrite list_lookup_fmap in Hk. apply fmap_Some in Hk as (k' & Hk & ->).
    apply lookup_seq in Hk as [-> Hk]. cbn [Nat.add]. 
    destruct (lookup_lt_is_Some_2 (qps k) a) as [q Hq]; [by destruct (Hqps k) as [-> _]|].
    destruct (send_image_record k a q Hk Hq) as (d & Hd & Ed).
    assert (record sizeof_bootstrap_data k buf = bd_image d) as ->.
    { unfold buf. rewrite record_concat; [| |by rewrite length_fmap, length_seq].
      - rewrite list_lookup_fmap, lookup_seq_lt by done. cbn. done.
      - apply Forall_forall. intros x Hx. apply list_elem_of_fmap in Hx as (j & -> & Hj). apply elem_of_seq in Hj.
        apply (record_length rank_n sizeof_bootstrap_data send_image send_image_ok); lia. }
    rewrite bd_roundtrip by (eapply datav_ok; [exact Hk|]; apply list_elem_of_lookup; by exists a).
    rewrite (datav_lookup k a q Hq) in Hd. injection Hd as <-. by split. }
  assert (Hlen : length l = rank_n) by (unfold l; by rewrite length_fmap, length_seq).
  destruct (connect_from_ok a 0 l Ha) as (attrs & E & Hat); [cbn; lia|done|].
  exists buf, attrs. split; [by apply Hr|]. split; [exact E|]. intros b q Hb Hq. apply (Hat b q); [lia|done].
Qed.
End Connect.

(** Two ranks; the first has a GID, the second only a LID. *)
Lemma endpoints_connected_witness :
  exists puts recvbuf attrs,
    alltoall_read (publish_all ∅ puts) 0 2 1 sizeof_bootstrap_data = Ok recvbuf /\ connect 2 1 5 recvbuf = Ok attrs
    /\ attrs !! 0%nat = Some (mk_rtr 101 7 (Some (replicate 16 3))).
Proof.
  destruct (endpoints_connected 2 0 5 (fun r => if (r =? 0)%nat then 7 else 8) (fun r => if (r =? 0)%nat then replicate 16 3 else replicate 16 0)
              (fun r => if (r =? 0)%nat then [100; 101] else [200; 201])) as (puts_of & _ & H).
  - discriminate.
  - reflexivity.
  - lia.
  - intros r. destruct (r =? 0)%nat; lia.
  - intros r. destruct (r =? 0)%nat; (split; [reflexivity|]); apply Forall_replicate; unfold is_byte; lia.
  - intros r. destruct (r =? 0)%nat; (split; [reflexivity|]); repeat (apply Forall_cons; split; [unfold is_u32; lia|]); apply Forall_nil; exact I.
  - destruct (H ∅ (puts_of 0%nat ++ puts_of 1%nat) 1%nat) as (recvbuf & attrs & E1 & E2 & E3).
    + cbn. by rewrite app_nil_r.
    + lia.
    + exists (puts_of 0%nat ++ puts_of 1%nat), recvbuf, attrs. split; [exact E1|]. split; [exact E2|].
      rewrite (E3 0%nat 101); [reflexivity|lia|reflexivity].
Defined.

(** ** What an endpoint owns *)

(** The objects of the verbs library that are alive; numbers below [vb_next] have been
    given out. *)
Record verbs : Type := mk_verbs { vb_next : Z; vb_tds : gset Z; vb_pds : gset Z; vb_qps : gset Z }.
(** Thread domain, if there is one, and protection domain of a queue pair. *)
Record qp_extra_t : Type := mk_extra { ex_td : option Z; ex_pd : Z }.
Record ep_objects : Type := mk_ep_objects { eo_qps : list Z; eo_extras : list qp_extra_t }.

(** Answers of the library for one queue pair: whether a thread domain and a parent domain
    can be allocated, whether the queue pair can be created and how much it can send
    inline. *)
Record qp_answers : Type := mk_answers { an_td : bool; an_pd : bool; an_qp : bool; an_max_inline : Z }.

Definition alloc_extra (context_pd : Z) (a : qp_answers) (v : verbs) : qp_extra_t * verbs :=
  if an_td a then
    let td := vb_next v in
    let v := mk_verbs (td + 1) ({[td]} ∪ vb_tds v) (vb_pds v) (vb_qps v) in
    if an_pd a then
      let pd := vb_next v in
      (mk_extra (Some td) pd, mk_verbs (pd + 1) (vb_tds v) ({[pd]} ∪ vb_pds v) (vb_qps v))
    else (mk_extra None context_pd, mk_verbs (vb_next v) (vb_tds v ∖ {[td]}) (vb_pds v) (vb_qps v))
  else (mk_extra None context_pd, v).
Fixpoint alloc_extras (context_pd : Z) (l : list qp_answers) (v : verbs) : list qp_extra_t * verbs :=
  match l with
  | [] => ([], v)
  | a :: l => let '(e, v) := alloc_extra context_pd a v in let '(es, v) := alloc_extras context_pd l v in (e :: es, v)
  end.
Fixpoint create_qps (max_inject_size : Z) (l : list qp_answers) : ST verbs (list Z) :=
  match l with
  | [] => mret []
  | a :: l =>
      assert_st (an_qp a) "Couldn't create QP" ;;
      v ← get_st ;
      modify (fun v => mk_verbs (vb_next v + 1) (vb_tds v) (vb_pds v) ({[vb_next v]} ∪ vb_qps v)) ;;
      assert_st (max_inject_size <=? an_max_inline a) "Specified inline size is too large" ;;
      rest ← create_qps max_inject_size l ;
      mret (vb_next v :: rest)
  end.
(** The constructor up to the exchange, with one answer for each rank. *)
Definition endpoint_create (per_qp : bool) (context_pd max_inject_size : Z) (l : list qp_answers) : ST verbs ep_objects := fun v =>
  let '(extras, v) := if per_qp then alloc_extras context_pd l v else ([], v) in
  (qps ← create_qps max_inject_size l ; mret (mk_ep_objects qps extras)) v.
(** The destructor. *)
Definition free_extra (v : verbs) (e : qp_extra_t) : verbs :=
  match ex_td e with
  | Some td => mk_verbs (vb_next v) (vb_tds v ∖ {[td]}) (vb_pds v ∖ {[ex_pd e]}) (vb_qps v)
  | None => v
  end.
Definition destroy_qp (v : verbs) (qp : Z) : verbs := mk_verbs (vb_next v) (vb_tds v) (vb_pds v) (vb_qps v ∖ {[qp]}).
Definition endpoint_destroy (e : ep_objects) (v : verbs) : verbs := foldl free_extra (foldl destroy_qp v (eo_qps e)) (eo_extras e).

Definition verbs_ok (v : verbs) : Prop := forall x, x ∈ vb_tds v \/ x ∈ vb_pds v \/ x ∈ vb_qps v -> x < vb_next v.
(** The domains that belong to an endpoint. *)
Definition own_tds (es : list qp_extra_t) : list Z := omap ex_td es.
Definition own_pds (es : list qp_extra_t) : list Z := omap (fun e => _ ← ex_td e ; Some (ex_pd e)) es.

(** From [v] to [v'] some numbers were given out and are alive as [tds], [pds], [qps]. *)
Record grown (v v' : verbs) (tds pds qps : list Z) : Prop := {
  gr_next : vb_next v <= vb_next v';
  gr_new : forall x, x ∈ tds \/ x ∈ pds \/ x ∈ qps -> vb_next v <= x < vb_next v';
  gr_tds : forall x, x ∈ vb_tds v' <-> x ∈ tds \/ x ∈ vb_tds v;
  gr_pds : forall x, x ∈ vb_pds v' <-> x ∈ pds \/ x ∈ vb_pds v;
  gr_qps : forall x, x ∈ vb_qps v' <-> x ∈ qps \/ x ∈ vb_qps v
}.
Lemma grown_refl v : grown v v [] [] [].
Proof. split; [lia| | | |]; intros x; rewrite ?elem_of_nil; try tauto. Qed.
Lemma grown_app v v' v'' t p q t' p' q' : grown v v' t p q -> grown v' v'' t' p' q' -> grown v v'' (t ++ t') (p ++ p') (q ++ q').
Proof.
  intros [H1 H2 H3 H4 H5] [G1 G2 G3 G4 G5]. split; [lia| | | |]; intros x; rewrite ?elem_of_app.
  - intros H. assert ((x ∈ t \/ x ∈ p \/ x ∈ q) \/ (x ∈ t' \/ x ∈ p' \/ x ∈ q')) as [Hx|Hx] by tauto; [apply H2 in Hx|apply G2 in Hx]; lia.
  - rewrite G3, H3. tauto.
  - rewrite G4, H4. tauto.
  - rewrite G5, H5. tauto.
Qed.
Lemma grown_ok v v' t p q : grown v v' t p q -> verbs_ok v -> verbs_ok v'.
Proof.
  intros [H1 H2 H3 H4 H5] Hv x. rewrite H3, H4, H5. intros H.
  assert ((x ∈ t \/ x ∈ p \/ x ∈ q) \/ (x ∈ vb_tds v \/ x ∈ vb_pds v \/ x ∈ vb_qps v)) as [Hx|Hx] by tauto; [apply H2 in Hx|apply Hv in Hx]; lia.
Qed.
Lemma alloc_extra_grown pd a v : verbs_ok v ->
  let '(e, v') := alloc_extra pd a v in grown v v' (own_tds [e]) (own_pds [e]) [].
Proof.
  intros Hv. unfold alloc_extra. destruct (an_td a); [|apply grown_refl]. destruct (an_pd a); cbn [vb_next vb_tds vb_pds vb_qps].
  - split; cbn [vb_next vb_tds vb_pds vb_qps own_tds own_pds omap list_omap ex_td ex_pd mbind option_bind]; [lia| | | |]; intros x;
      rewrite ?elem_of_cons, ?elem_of_nil, ?elem_of_union, ?elem_of_singleton; [lia|tauto|tauto|tauto].
  - split; cbn [vb_next vb_tds vb_pds vb_qps own_tds own_pds omap list_omap ex_td ex_pd mbind option_bind]; [lia| | | |]; intros x;
      rewrite ?elem_of_nil, ?elem_of_difference, ?elem_of_union, ?elem_of_singleton; [tauto| |tauto|tauto].
    split; [tauto|]. intros [[]|Hx]. split; [by right|]. intros ->. pose proof (Hv (vb_next v) (or_introl Hx)). lia.
Qed.
Lemma alloc_extras_grown pd l v : verbs_ok v ->
  let '(es, v') := alloc_extras pd l v in grown v v' (own_tds es) (own_pds es) [].
Proof.
  revert v. induction l as [|a l IH]; intros v Hv; cbn [alloc_extras]; [apply grown_refl|].
  pose proof (alloc_extra_grown pd a v Hv) as G. destruct (alloc_extra pd a v) as [e v1].
  specialize (IH v1 (grown_ok _ _ _ _ _ G Hv)). destruct (alloc_extras pd l v1) as [es v2].
  pose proof (grown_app _ _ _ _ _ _ _ _ _ G IH) as GG. unfold own_tds, own_pds in *. by rewrite <- !omap_app in GG.
Qed.
Lemma create_qps_grown inj l v qps v' : create_qps inj l v = Ok (qps, v') -> grown v v' [] [] qps.
Proof.
  revert v qps. induction l as [|a l IH]; intros v qps H; cbn [create_qps] in H; [injection H as <- <-; apply grown_refl|].
  apply st_bind_Ok in H as (u & v1 & Ha & H). unfold assert_st, lift in Ha. destruct (LCI_Assert _ _); [|done]. injection Ha as _ <-.
  apply st_bind_Ok in H as (v2 & v3 & E2 & H). injection E2 as <- <-. apply st_bind_Ok in H as (u2 & v4 & E4 & H). injection E4 as _ <-.
  apply st_bind_Ok in H as (u3 & v5 & Hb & H). unfold assert_st, lift in Hb. destruct (LCI_Assert _ _); [|done]. injection Hb as _ <-.
  apply st_bind_Ok in H as (rest & v6 & Hr & H). injection H as <- <-. apply IH in Hr.
  apply (grown_app v _ _ [] [] [vb_next v] [] [] rest) in Hr; [done|].
  split; cbn [vb_next vb_tds vb_pds vb_qps]; [lia| | | |]; intros x; rewrite ?elem_of_cons, ?elem_of_nil, ?elem_of_union, ?elem_of_singleton; [lia|tauto|tauto|tauto].
Qed.
Lemma destroy_qps_elem qps v x : (x ∈ vb_qps (foldl destroy_qp v qps) <-> x ∈ vb_qps v /\ x ∉ qps)
  /\ vb_tds (foldl destroy_qp v qps) = vb_tds v /\ vb_pds (foldl destroy_qp v qps) = vb_pds v.
Proof.
  revert v. induction qps as [|q qps IH]; intros v; cbn [foldl]; [rewrite elem_of_nil; tauto|].
  destruct (IH (destroy_qp v q)) as (H & -> & ->). rewrite H. unfold destroy_qp. cbn [vb_qps vb_tds vb_pds].
  rewrite elem_of_difference, elem_of_singleton, elem_of_cons. tauto.
Qed.
Lemma free_extras_elem es v x :
  (x ∈ vb_tds (foldl free_extra v es) <-> x ∈ vb_tds v /\ x ∉ own_tds es)
  /\ (x ∈ vb_pds (foldl free_extra v es) <-> x ∈ vb_pds v /\ x ∉ own_pds es)
  /\ vb_qps (foldl free_extra v es) = vb_qps v.
Proof.
  revert v. induction es as [|e es IH]; intros v; cbn [foldl]; [cbn; rewrite elem_of_nil; tauto|].
  destruct (IH (free_extra v e)) as (H1 & H2 & ->). rewrite H1, H2. unfold free_extra, own_tds, own_pds. cbn [omap list_omap].
  destruct (ex_td e) as [td|]; cbn [vb_qps vb_tds vb_pds mbind option_bind]; [|tauto].
  rewrite !elem_of_difference, !elem_of_singleton, !elem_of_cons. tauto.
Qed.

(** An endpoint gives back everything. Whichever thread domains and parent domains
    could be allocated, destroying an endpoint after its creation leaves the thread
    domains, protection domains and queue pairs that were alive before. *)
Theorem endpoint_gives_back per_qp pd inj l v e v' :
  verbs_ok v -> endpoint_create per_qp pd inj l v = Ok (e, v') ->
  let w := endpoint_destroy e v' in vb_tds w = vb_tds v /\ vb_pds w = vb_pds v /\ vb_qps w = vb_qps v.
Proof.
  intros Hv H. unfold endpoint_create in H.
  assert (G : exists v1, grown v v1 (own_tds (eo_extras e)) (own_pds (eo_extras e)) [] /\ create_qps inj l v1 = Ok (eo_qps e, v')).
  { destruct per_qp.
    - pose proof (alloc_extras_grown pd l v Hv) as G. destruct (alloc_extras pd l v) as [es v1]. exists v1.
      apply st_bind_Ok in H as (qps & v2 & H & E2). injection E2 as <- <-. by split.
    - exists v. apply st_bind_Ok in H as (qps & v2 & H & E2). injection E2 as <- <-. split; [apply grown_refl|done]. }
  destruct G as (v1 & G & Hq%create_qps_grown). pose proof (grown_app _ _ _ _ _ _ _ _ _ G Hq) as [_ Hnew Ht Hp Hqs].
  rewrite !app_nil_r in *. cbn [app] in *. unfold endpoint_destroy. cbn zeta.
  assert (D : forall x, (x ∈ vb_tds (foldl free_extra (foldl destroy_qp v' (eo_qps e)) (eo_extras e)) <-> x ∈ vb_tds v)
    /\ (x ∈ vb_pds (foldl free_extra (foldl destroy_qp v' (eo_qps e)) (eo_extras e)) <-> x ∈ vb_pds v)
    /\ (x ∈ vb_qps (foldl free_extra (foldl destroy_qp v' (eo_qps e)) (eo_extras e)) <-> x ∈ vb_qps v)).
  { intros x. destruct (free_extras_elem (eo_extras e) (foldl destroy_qp v' (eo_qps e)) x) as (H1 & H2 & ->).
    destruct (destroy_qps_elem (eo_qps e) v' x) as (H3 & H4 & H5). rewrite H1, H2, H3, H4, H5, Ht, Hp, Hqs. specialize (Hnew x). specialize (Hv x).
    assert (Hd : x ∈ own_tds (eo_extras e) \/ x ∈ own_pds (eo_extras e) \/ x ∈ eo_qps e -> x ∈ vb_tds v \/ x ∈ vb_pds v \/ x ∈ vb_qps v -> False)
      by (intros A B; apply Hnew in A; apply Hv in B; lia).
    split_and!; tauto. }
  split_and!; apply set_eq; apply D.
Qed.
Lemma endpoint_gives_back_witness :
  exists e v', endpoint_create true 1 64 [mk_answers true true true 64; mk_answers true false true 128] (mk_verbs 2 ∅ {[1]} ∅) = Ok (e, v')
    /\ vb_pds (endpoint_destroy e v') = {[1]}.
Proof.
  destruct (endpoint_create true 1 64 [mk_answers true true true 64; mk_answers true false true 128] (mk_verbs 2 ∅ {[1]} ∅)) as [[e v']|] eqn:E;
    [|vm_compute in E; discriminate E].
  exists e, v'. split; [reflexivity|]. refine (proj1 (proj2 (endpoint_gives_back true 1 64 _ _ e v' _ E))).
  intros x. cbn. rewrite !elem_of_empty, elem_of_singleton. intros [[]|[->|[]]]. reflexivity.
Defined.

(** ** Contexts and devices *)

Inductive odp_strategy_t : Type := odp_none | odp_explicit | odp_implicit.
#[export] Instance odp_strategy_eq_dec : EqDecision odp_strategy_t.
Proof. solve_decision. Defined.

Record context_attr : Type := mk_context_attr {
  ca_device_name : list Z; ca_odp : odp_strategy_t; ca_max_msg_size : Z; ca_gid_idx : Z; ca_force_gid_auto_select : bool
}.
(** What the library answers on the way: the devices, whether each call succeeds, the
    capabilities for on-demand paging, the port and its GIDs. *)
Record context_answers : Type := mk_context_answers {
  cs_devices : list ibv_device_t;
  cs_open : bool; cs_alloc_pd : bool; cs_query : bool; cs_query_ex : bool;
  cs_odp : bool; cs_odp_implicit : bool; cs_odp_mr : option Z;
  cs_port : option port_attr_t; cs_port_max_msg_sz : Z;
  cs_gid_table : list (roce_version_t * bool); cs_gids : Z -> option (list Z)
}.
Record net_context : Type := mk_net_context {
  nc_dev : nat; nc_port : Z; nc_attr : context_attr; nc_odp_mr : option Z; nc_gid : list Z; nc_support_putimm : bool
}.
Definition net_context_new (a : context_attr) (s : context_answers) : result net_context :=
  LCI_Assert (0 <? Z.of_nat (length (cs_devices s))) "Unable to find any IB devices." ;;
  '(dev, port) ← match select_best_device_port (cs_devices s) (ca_device_name a) with
                 | Some c => Ok c
                 | None => Err (AssertFailed "Cannot find available ibv device/port!")
                 end ;
  LCI_Assert (cs_open s) "Couldn't get context" ;;
  LCI_Assert (cs_alloc_pd s) "Couldn't allocate PD" ;;
  LCI_Assert (cs_query s) "Unable to query device" ;;
  LCI_Assert (cs_query_ex s) "Unable to query device for its extended features" ;;
  odp_mr ← (if bool_decide (ca_odp a = odp_implicit) then
              LCI_Assert (cs_odp s) "The device isn't ODP capable" ;;
              LCI_Assert (cs_odp_implicit s) "The device doesn't support implicit ODP" ;;
              LCI_Assert (bool_decide (is_Some (cs_odp_mr s))) "Couldn't register MR for ODP" ;;
              Ok (cs_odp_mr s)
            else Ok None) ;
  match cs_port s with
  | None => Err (AssertFailed "Unable to query port")
  | Some p =>
      LCI_Assert (negb (is_infiniband (po_link_layer p)) || negb (po_lid p =? 0)) "Couldn't get local LID" ;;
      let max_msg_size := if cs_port_max_msg_sz s <? ca_max_msg_size a then cs_port_max_msg_sz s else ca_max_msg_size a in
      let gid_idx := if (ca_gid_idx a <? 0) && (ca_force_gid_auto_select a || is_ethernet (po_link_layer p))
                     then select_best_gid_for_roce (cs_gid_table s) else ca_gid_idx a in
      gid ← (if 0 <=? gid_idx then
               match cs_gids s gid_idx with Some g => Ok g | None => Err (AssertFailed "can't read gid") end
             else Ok (replicate 16 0)) ;
      Ok (mk_net_context dev port
            (mk_context_attr (ca_device_name a) (ca_odp a) max_msg_size gid_idx (ca_force_gid_auto_select a)) odp_mr gid true)
  end.
(** What a context has settled: messages fit the port, and a RoCE port has an address. *)
Lemma net_context_settled a s c p : net_context_new a s = Ok c -> cs_port s = Some p ->
  ca_max_msg_size (nc_attr c) = Z.min (ca_max_msg_size a) (cs_port_max_msg_sz s)
  /\ (is_ethernet (po_link_layer p) = true -> exists g, cs_gids s (ca_gid_idx (nc_attr c)) = Some g /\ nc_gid c = g)
  /\ (0 <= ca_gid_idx a -> ca_gid_idx (nc_attr c) = ca_gid_idx a).
Proof.
  intros H Hp. unfold net_context_new in H. apply bind_Ok in H as (u0 & _ & H). apply bind_Ok in H as ([dev port] & _ & H).
  repeat (apply bind_Ok in H as (? & _ & H)). rewrite Hp in H. apply bind_Ok in H as (? & _ & H). cbv zeta in H.
  set (idx := if (ca_gid_idx a <? 0) && _ then _ else _) in H. apply bind_Ok in H as (g & Hg & H). injection H as <-.
  cbn [nc_attr ca_max_msg_size ca_gid_idx nc_gid].
  split; [destruct (Z.ltb_spec (cs_port_max_msg_sz s) (ca_max_msg_size a)); lia|]. split.
  - intros Hib. assert (0 <= idx) as Hidx.
    { unfold idx. rewrite Hib, orb_true_r, andb_true_r. destruct (Z.ltb_spec (ca_gid_idx a) 0); [|lia].
      unfold select_best_gid_for_roce. destruct (Z.leb_spec 0 (gid_loop (cs_gid_table s) 0 100 (-1))); lia. }
    rewrite (proj2 (Z.leb_le 0 idx)) in Hg by done. destruct (cs_gids s idx) as [g'|]; [|done]. injection Hg as <-. by exists g'.
  - intros Hi. unfold idx. by rewrite (proj2 (Z.ltb_ge (ca_gid_idx a) 0)).
Qed.

(** The limits of a device: sends, receives and completions. *)
Record device_limits : Type := mk_limits { dl_max_sends : Z; dl_max_recvs : Z; dl_max_cqes : Z }.
Definition adjust_limits (l : device_limits) (max_qp_wr max_srq_wr max_cqe : Z) : device_limits :=
  mk_limits (if u64 max_qp_wr <? dl_max_sends l then max_qp_wr else dl_max_sends l)
    (if u64 max_srq_wr <? dl_max_recvs l then max_srq_wr else dl_max_recvs l)
    (if u64 max_cqe <? dl_max_cqes l then max_cqe else dl_max_cqes l).

(** ** Registration *)

(** Live registrations of the library, and the shared one for implicit on-demand paging. *)
Record reg_state : Type := mk_reg { rg_next : Z; rg_live : gset Z }.
(** [ok]: the library can register; the result is the registration behind the handle. *)
Definition register_memory_impl (odp : odp_strategy_t) (odp_mr : Z) (ok : bool) : ST reg_state Z := fun s =>
  if bool_decide (odp = odp_implicit) then Ok (odp_mr, s)
  else if ok then Ok (rg_next s, mk_reg (rg_next s + 1) ({[rg_next s]} ∪ rg_live s))
  else Err (AssertFailed "Failed to register memory.").
Definition deregister_memory_impl (odp : odp_strategy_t) (mr : Z) (s : reg_state) : reg_state :=
  if bool_decide (odp = odp_implicit) then s else mk_reg (rg_next s) (rg_live s ∖ {[mr]}).
(** A registration is given back, and the shared one stays. *)
Lemma register_deregister odp shared ok s mr s' :
  (forall x, x ∈ rg_live s -> x < rg_next s) -> register_memory_impl odp shared ok s = Ok (mr, s') ->
  rg_live (deregister_memory_impl odp mr s') = rg_live s /\ (odp <> odp_implicit -> mr ∈ rg_live s' /\ mr ∉ rg_live s).
Proof.
  intros Hs. unfold register_memory_impl, deregister_memory_impl. case_bool_decide as Ho; [by intros [= <- <-]|].
  destruct ok; [|done]. intros [= <- <-]. cbn [rg_live]. assert (rg_next s ∉ rg_live s) by (intros Hx%Hs; lia). set_solver.
Qed.
