(* ===== verification/LctQueue.v ===== *)
(** * Array queues of LCT

    src/lct/data_structure/queue/: the lock-based circular buffer (queue_array.hpp) as a
    sequential object, and the two lock-free ones whose cells carry tags
    (queue_array_atomic_faa.hpp, queue_array_atomic_cas.hpp) with any number of threads,
    one atomic access at a time. *)
From stdpp Require Import base numbers functions list gmap strings relations.
From Stdlib Require Import ZArith Lia.
From S2P Require Import Prelude.

(** ** The circular buffer *)

Module Array.

Record queue_array_t : Type := mk_queue_array { top : nat; bot : nat; container : list Z }.
#[local] Abbreviation length_of q := (length (container q)).
Definition queue_array_new (capacity : nat) : queue_array_t := mk_queue_array 0 0 (replicate (capacity + 1) 0).
(** In a release build; the assertion of a debug build, that the new top is not the length,
    always holds. *)
Definition push (val : Z) (q : queue_array_t) : queue_array_t :=
  mk_queue_array ((top q + 1) mod length_of q) (bot q) (<[top q := val]> (container q)).
(** [locked]: the try-lock of the thread-safe queue fails. The null pointer is zero. *)
Definition pop (locked : bool) (q : queue_array_t) : Z * queue_array_t :=
  if locked then (0, q)
  else if (top q =? bot q)%nat then (0, q)
  else (default 0 (container q !! bot q), mk_queue_array (top q) ((bot q + 1) mod length_of q) (container q)).

(** The queue holds [l], the oldest first. *)
Record holds (capacity : nat) (q : queue_array_t) (l : list Z) : Prop := {
  ho_length : length_of q = (capacity + 1)%nat;
  ho_bot : (bot q < capacity + 1)%nat;
  ho_room : (length l <= capacity)%nat;
  ho_top : top q = ((bot q + length l) mod (capacity + 1))%nat;
  ho_cells : forall i v, l !! i = Some v -> container q !! ((bot q + i) mod (capacity + 1))%nat = Some v
}.
Lemma holds_new capacity : holds capacity (queue_array_new capacity) [].
Proof.
  split; [apply length_replicate|cbn; lia|cbn; lia| |done]. symmetry. apply Nat.mod_small. cbn. lia.
Qed.
Lemma mod_ne n a i j : (i < n)%nat -> (j < n)%nat -> i <> j -> ((a + i) mod n <> (a + j) mod n)%nat.
Proof.
  intros Hi Hj Hne E. apply Hne.
  assert (Hd : forall x y, (x <= y)%nat -> (y < x + n)%nat -> (x mod n = y mod n)%nat -> x = y).
  { clear. intros x y H1 H2 E. destruct (Nat.eq_dec n 0) as [->|]; [lia|].
    pose proof (Nat.div_mod_eq x n) as Ex. pose proof (Nat.div_mod_eq y n) as Ey. rewrite E in Ex.
    remember (y mod n)%nat as r. remember (x / n)%nat as a. remember (y / n)%nat as b. clear Heqr Heqa Heqb E.
    assert (a <= b)%nat by nia. assert (b <= a)%nat by nia. assert (a = b) by lia. subst a. lia. }
  destruct (Nat.le_gt_cases i j).
  - pose proof (Hd (a + i)%nat (a + j)%nat). lia.
  - pose proof (Hd (a + j)%nat (a + i)%nat). lia.
Qed.

(** With at most [capacity] elements the circular buffer is a first-in-first-out queue:
    it starts empty, a push appends, and a pop that gets the lock takes the oldest
    element or reports that there is none. *)
Theorem array_queue_fifo capacity :
  holds capacity (queue_array_new capacity) []
  /\ (forall q l v, holds capacity q l -> (length l < capacity)%nat -> holds capacity (push v q) (l ++ [v]))
  /\ (forall q l, holds capacity q l ->
       match l with
       | [] => pop false q = (0, q)
       | v :: l' => exists q', pop false q = (v, q') /\ holds capacity q' l'
       end)
  /\ (forall q, pop true q = (0, q)).
Proof.
  split_and!; [apply holds_new| | |done].
  - intros q l v [H1 H2 H3 H4 H5] Hlt. split; cbn [push bot top container].
    + by rewrite length_insert.
    + done.
    + rewrite length_app. cbn. lia.
    + rewrite H1, H4, length_app, Nat.Div0.add_mod_idemp_l. cbn. f_equal. lia.
    + intros i x Hi. rewrite H4. destruct (decide (i = length l)) as [->|Hne].
      * rewrite lookup_app_r, Nat.sub_diag in Hi by lia. injection Hi as <-. apply list_lookup_insert_eq. rewrite H1. apply Nat.mod_upper_bound. lia.
      * assert (i < length l)%nat by (apply lookup_lt_Some in Hi; rewrite length_app in Hi; cbn in Hi; lia).
        rewrite lookup_app_l in Hi by done. rewrite list_lookup_insert_ne; [by apply H5|]. apply mod_ne; lia.
  - intros q [|v l] [H1 H2 H3 H4 H5].
    + cbn [length] in *. rewrite Nat.add_0_r, Nat.mod_small in H4 by lia. unfold pop. by rewrite H4, Nat.eqb_refl.
    + cbn [length] in *. unfold pop. assert (top q <> bot q) as Hne.
      { rewrite H4. rewrite <- (Nat.mod_small (bot q) (capacity + 1)) at 2 by done. rewrite <- (Nat.add_0_r (bot q)) at 2. apply mod_ne; lia. }
      rewrite (proj2 (Nat.eqb_neq _ _)) by done. specialize (H5 0%nat v eq_refl) as H0. rewrite Nat.add_0_r, Nat.mod_small in H0 by done. rewrite H0.
      eexists. split; [done|]. split; cbn [bot top container].
      * done.
      * rewrite H1. apply Nat.mod_upper_bound. lia.
      * lia.
      * rewrite H1, H4, Nat.Div0.add_mod_idemp_l. f_equal. lia.
      * intros i x Hi. rewrite H1, Nat.Div0.add_mod_idemp_l. specialize (H5 (S i) x Hi). by replace (bot q + 1 + i)%nat with (bot q + S i)%nat by lia.
Qed.

(** A push into a full queue is not noticed: the queue then looks empty, and all its
    elements are lost. *)
Theorem array_overflow_empties capacity q l v :
  holds capacity q l -> length l = capacity -> pop false (push v q) = (0, push v q).
Proof.
  intros [H1 H2 _ H4 _] Hl. unfold pop. cbn [push bot top]. rewrite H1, H4, Hl, Nat.Div0.add_mod_idemp_l.
  replace (bot q + capacity + 1)%nat with (bot q + 1 * (capacity + 1))%nat by lia. rewrite Nat.Div0.mod_add, Nat.mod_small by done. by rewrite Nat.eqb_refl.
Qed.
End Array.

(** ** The queues with tagged cells *)

Module Tagged.

Record cell : Type := mk_cell { c_data : Z; c_tag : Z }.

(** Where a thread is. [PopCheck] has loaded [bot] and is about to load the tag; it belongs
    to the fetch-and-add queue or to the compare-and-swap queue, which share all other
    accesses of a push. [PopHeld], [PopGive]: the fetch-and-add queue before it loads the
    tag again and before it gives its position back. *)
Inductive qagent : Type :=
  | QIdle
  | PushData (v : Z) (p : nat)
  | PushTag (v : Z) (p : nat)
  | PopCheck (faa : bool) (b : nat)
  | PopCas (b : nat)
  | PopAdd
  | PopHeld (b : nat)
  | PopGive (b : nat)
  | PopRead (b : nat)
  | PopDone (r : Z).

(** [pushed] are the values in the order of their tickets; [popped] the positions that were
    read, with the values. *)
Record qsys : Type := mk_qsys {
  q_top : nat;
  q_bot : nat;
  q_cells : list cell;
  q_agents : nat -> qagent;
  pushed : list Z;
  popped : list (nat * Z)
}.

(** The constructors, for a capacity: tags that no position of the cell has. *)
Definition faa_cells (capacity : nat) : list cell :=
  (fun i => mk_cell 0 (u64 (Z.of_nat i - Z.of_nat (capacity + 1) + 1))) <$> seq 0 (capacity + 1).
Definition cas_cells (capacity : nat) : list cell := replicate (capacity + 1) (mk_cell 0 (u64 (-1))).
Definition qsys_new (cells : list cell) : qsys := mk_qsys 0 0 cells (fun _ => QIdle) [] [].

Section Steps.
(** When a push may start; the code has no such test, its callers must see to it. The
    counters, of 64 bits, stay below half of their range. *)
Variable room : qsys -> Prop.

Definition ready (a : qagent) : Prop := match a with QIdle | PopDone _ => True | _ => False end.
Definition idx (s : qsys) (p : nat) : nat := (p mod length (q_cells s))%nat.
Definition go (t : nat) (a : qagent) (s : qsys) : qsys :=
  mk_qsys (q_top s) (q_bot s) (q_cells s) (<[t := a]> (q_agents s)) (pushed s) (popped s).
Definition set_bot (b : nat) (s : qsys) : qsys := mk_qsys (q_top s) b (q_cells s) (q_agents s) (pushed s) (popped s).
Definition set_cell (p : nat) (f : cell -> cell) (s : qsys) : qsys :=
  mk_qsys (q_top s) (q_bot s) (alter f (idx s p) (q_cells s)) (q_agents s) (pushed s) (popped s).
Definition cell_at (s : qsys) (p : nat) : option cell := q_cells s !! idx s p.

Inductive qstep : qsys -> qsys -> Prop :=
  | q_push t v s :
      ready (q_agents s t) -> room s -> Z.of_nat (q_top s) < 2 ^ 63 ->
      qstep s (go t (PushData v (q_top s))
                (mk_qsys (S (q_top s)) (q_bot s) (q_cells s) (q_agents s) (pushed s ++ [v]) (popped s)))
  | q_data t v p s :
      q_agents s t = PushData v p ->
      qstep s (go t (PushTag v p) (set_cell p (fun c => mk_cell v (c_tag c)) s))
  | q_tag t v p s :
      q_agents s t = PushTag v p ->
      qstep s (go t QIdle (set_cell p (fun c => mk_cell (c_data c) (Z.of_nat p)) s))
  | q_pop t faa s :
      ready (q_agents s t) -> Z.of_nat (q_bot s) < 2 ^ 63 -> qstep s (go t (PopCheck faa (q_bot s)) s)
  | q_check t faa b c s :
      q_agents s t = PopCheck faa b -> cell_at s b = Some c ->
      qstep s (go t (if c_tag c =? Z.of_nat b then if faa then PopAdd else PopCas b else PopDone 0) s)
  | q_cas t b s :
      q_agents s t = PopCas b -> q_bot s = b -> qstep s (go t (PopRead b) (set_bot (b + 1) s))
  | q_cas_fails t b s : q_agents s t = PopCas b -> q_bot s <> b -> qstep s (go t (PopDone 0) s)
  | q_add t s :
      q_agents s t = PopAdd -> Z.of_nat (q_bot s) < 2 ^ 63 ->
      qstep s (go t (PopHeld (q_bot s)) (set_bot (q_bot s + 1) s))
  | q_held t b c s :
      q_agents s t = PopHeld b -> cell_at s b = Some c ->
      qstep s (go t (if c_tag c =? Z.of_nat b then PopRead b else PopGive b) s)
  | q_give t b s :
      q_agents s t = PopGive b -> q_bot s = (b + 1)%nat -> qstep s (go t (PopDone 0) (set_bot b s))
  | q_give_fails t b s : q_agents s t = PopGive b -> qstep s (go t (PopHeld b) s)
  | q_read t b c s :
      q_agents s t = PopRead b -> cell_at s b = Some c ->
      qstep s (go t (PopDone (c_data c))
                (mk_qsys (q_top s) (q_bot s) (q_cells s) (q_agents s) (pushed s) (popped s ++ [(b, c_data c)]))).
End Steps.

(** Room in the sense that keeps the queue correct: whoever reserved the cell's previous
    position has read it. *)
Definition reclaimed (s : qsys) : Prop :=
  (q_top s < length (q_cells s))%nat \/ (q_top s - length (q_cells s))%nat ∈ (popped s).*1.
(** Room in the sense of a capacity: fewer elements than that were pushed and not popped. *)
Definition below_capacity (s : qsys) : Prop := (length (pushed s) - length (popped s) < length (q_cells s) - 1)%nat.

#[export] Instance reclaimed_dec s : Decision (reclaimed s).
Proof. unfold reclaimed. apply _. Defined.
#[export] Instance below_capacity_dec s : Decision (below_capacity s).
Proof. unfold below_capacity. apply _. Defined.

(** ** Invariant *)

Definition pushing (a : qagent) : option nat := match a with PushData _ p | PushTag _ p => Some p | _ => None end.
Definition held (a : qagent) : option nat := match a with PopHeld b | PopGive b | PopRead b => Some b | _ => None end.
Definition published (s : qsys) (p : nat) : Prop :=
  exists c, cell_at s p = Some c /\ c_tag c = Z.of_nat p /\ pushed s !! p = Some (c_data c).

(** What holds of a thread. *)
Definition agent_ok (s : qsys) (a : qagent) : Prop :=
  match a with
  | PushData v p => pushed s !! p = Some v
  | PushTag v p => pushed s !! p = Some v /\ exists c, cell_at s p = Some c /\ c_data c = v
  | PopRead b => published s b
  | PopCheck _ b | PopHeld b | PopGive b => Z.of_nat b < 2 ^ 63
  | PopCas b => (b < q_top s)%nat /\ forall t, pushing (q_agents s t) <> Some b
  | _ => True
  end.

Record q_inv (n : nat) (s : qsys) : Prop := {
  qi_len : length (q_cells s) = n;
  qi_top : length (pushed s) = q_top s;
  qi_bound : Z.of_nat (q_top s) <= 2 ^ 63;
  qi_agents : forall t, agent_ok s (q_agents s t);
  qi_pushing : forall t p, pushing (q_agents s t) = Some p ->
    (p < q_top s)%nat /\ (p ∉ (popped s).*1) /\ forall c, cell_at s p = Some c -> c_tag c <> Z.of_nat p;
  qi_one_pusher : forall t t' p, pushing (q_agents s t) = Some p -> pushing (q_agents s t') = Some p -> t = t';
  qi_held : forall t p, held (q_agents s t) = Some p -> (p < q_bot s)%nat /\ p ∉ (popped s).*1;
  qi_one_holder : forall t t' p, held (q_agents s t) = Some p -> held (q_agents s t') = Some p -> t = t';
  qi_all : forall p, (p < q_top s)%nat -> (exists t, pushing (q_agents s t) = Some p) \/ p ∈ (popped s).*1 \/ published s p;
  qi_below : forall p, (p < q_bot s)%nat -> (exists t, held (q_agents s t) = Some p) \/ p ∈ (popped s).*1;
  qi_popped : forall p v, (p, v) ∈ popped s -> (p < q_bot s)%nat /\ pushed s !! p = Some v;
  qi_nodup : NoDup (popped s).*1;
  qi_reuse : forall p, (p < q_top s)%nat -> (n <= p)%nat -> (p - n)%nat ∈ (popped s).*1;
  qi_tags : forall p c, cell_at s p = Some c -> c_tag c = Z.of_nat p -> Z.of_nat p < 2 ^ 63 -> (p < q_top s)%nat
}.

Section Invariant.
Variable n : nat.
Hypothesis Hn : (0 < n)%nat.

(** An older position of the same cell was read. *)
Lemma older_popped s p q : q_inv n s -> (p < q)%nat -> (q < q_top s)%nat -> idx s p = idx s q -> p ∈ (popped s).*1.
Proof.
  intros I. unfold idx. rewrite (qi_len _ _ I). revert p. induction q as [q IH] using lt_wf_ind. intros p Hp Hq E.
  assert (Hk : (p + n <= q)%nat).
  { pose proof (Nat.div_mod_eq p n) as E1. pose proof (Nat.div_mod_eq q n) as E2. rewrite E in E1.
    remember (q mod n)%nat as r. remember (p / n)%nat as a. remember (q / n)%nat as b. clear -E1 E2 Hp. assert (a < b)%nat by nia. nia. }
  pose proof (qi_reuse _ _ I q Hq ltac:(lia)) as Hr. destruct (decide (p = q - n)%nat) as [->|Hne]; [done|].
  apply (IH (q - n)%nat); [lia|lia|lia|]. rewrite E. replace q with ((q - n) + 1 * n)%nat at 1 by lia. apply Nat.Div0.mod_add.
Qed.
(** Two positions of a cell, one of which is being pushed: the other one was read. *)
Lemma other_popped s p q t : q_inv n s -> pushing (q_agents s t) = Some p -> (q < q_top s)%nat -> q <> p -> idx s p = idx s q -> q ∈ (popped s).*1.
Proof.
  intros I Hp Hq Hne E. destruct (qi_pushing _ _ I t p Hp) as (Hlt & Hnp & _). destruct (Nat.lt_gt_cases p q) as [[H|H] _]; [by intros ->| |].
  - destruct Hnp. by eapply older_popped.
  - eapply older_popped; [done| |exact Hlt|]; done.
Qed.

Lemma cell_at_go s t a p : cell_at (go t a s) p = cell_at s p.
Proof. done. Qed.
Lemma cell_at_bot s b p : cell_at (set_bot b s) p = cell_at s p.
Proof. done. Qed.
Lemma cell_at_set s p f q : cell_at (set_cell p f s) q = if decide (idx s p = idx s q) then f <$> cell_at s q else cell_at s q.
Proof.
  unfold cell_at, set_cell, idx. cbn [q_cells]. rewrite length_alter. case_decide as E.
  - rewrite E. apply list_lookup_alter_eq.
  - by apply list_lookup_alter_ne.
Qed.
Lemma agents_go s t a t' : q_agents (go t a s) t' = if decide (t = t') then a else q_agents s t'.
Proof. unfold go. cbn [q_agents]. case_decide as E; [subst; apply fn_lookup_insert|by apply fn_lookup_insert_ne]. Qed.

(** A thread moves and no shared variable changes. *)
Lemma go_inv s t a : q_inv n s -> pushing a = pushing (q_agents s t) -> held a = held (q_agents s t) -> agent_ok s a -> q_inv n (go t a s).
Proof.
  intros [H1 H2 H3 H4 H5 H6 H7 H8 H9 H10 H11 H12 H13 H14] Ep Eh Ha.
  assert (Fp : forall t', pushing (q_agents (go t a s) t') = pushing (q_agents s t')) by (intros t'; rewrite agents_go; case_decide; by subst).
  assert (Fh : forall t', held (q_agents (go t a s) t') = held (q_agents s t')) by (intros t'; rewrite agents_go; case_decide; by subst).
  assert (Fa : forall a', agent_ok s a' -> agent_ok (go t a s) a').
  { intros []; cbn [agent_ok]; try done. intros [Hb Hno]. split; [done|]. intros t'. by rewrite Fp. }
  split; try done.
  - intros t'. rewrite agents_go. case_decide; [by apply Fa|apply Fa, H4].
  - intros t' p. rewrite Fp. apply H5.
  - intros t' t'' p. rewrite !Fp. apply H6.
  - intros t' p. rewrite Fh. apply H7.
  - intros t' t'' p. rewrite !Fh. apply H8.
  - intros p Hp. destruct (H9 p Hp) as [(t' & Ht)|H]; [left; exists t'; by rewrite Fp|by right].
  - intros p Hp. destruct (H10 p Hp) as [(t' & Ht)|H]; [left; exists t'; by rewrite Fh|by right].
Qed.

(** The positions of a cell and of a published element. *)
Lemma published_top s p : q_inv n s -> published s p -> (p < q_top s)%nat.
Proof. intros I (c & _ & _ & H). rewrite <- (qi_top _ _ I). by eapply lookup_lt_Some. Qed.
Lemma popped_top s p : q_inv n s -> p ∈ (popped s).*1 -> (p < q_bot s)%nat /\ (p < q_top s)%nat.
Proof.
  intros I H. apply list_elem_of_fmap in H as ([q v] & -> & H). apply (qi_popped _ _ I) in H as [H1 H2]. cbn. split; [done|].
  rewrite <- (qi_top _ _ I). by eapply lookup_lt_Some.
Qed.
(** A tag that is there belongs to an element that nobody is pushing any more. *)
Lemma tag_published s p c : q_inv n s -> cell_at s p = Some c -> c_tag c = Z.of_nat p -> Z.of_nat p < 2 ^ 63 ->
  (p < q_top s)%nat /\ (forall t, pushing (q_agents s t) <> Some p) /\ (p ∉ (popped s).*1 -> published s p).
Proof.
  intros I Hc Ht Hb. pose proof (qi_tags _ _ I p c Hc Ht Hb) as Hlt.
  assert (Hno : forall t, pushing (q_agents s t) <> Some p) by (intros t H; by apply (qi_pushing _ _ I t p H) in Hc).
  split_and!; [done|done|]. intros Hp. destruct (qi_all _ _ I p Hlt) as [(t & H)|[H|H]]; [by apply Hno in H|done|done].
Qed.
(** While a position is pushed, no published element that is still wanted shares its cell. *)
Lemma published_other s t p q : q_inv n s -> pushing (q_agents s t) = Some p -> published s q -> q ∉ (popped s).*1 -> idx s p <> idx s q.
Proof.
  intros I Hp Hq Hnp E. pose proof (published_top s q I Hq). destruct (decide (q = p)) as [->|Hne].
  - destruct Hq as (c & Hc & Ht & _). by apply (qi_pushing _ _ I t p Hp) in Hc.
  - apply Hnp. by eapply other_popped.
Qed.
Lemma read_unpopped s t b : q_inv n s -> q_agents s t = PopRead b -> published s b /\ b ∉ (popped s).*1.
Proof.
  intros I E. pose proof (qi_agents _ _ I t) as H. rewrite E in H. split; [done|]. apply (qi_held _ _ I t b). by rewrite E.
Qed.
Lemma no_ready a : ready a -> pushing a = None /\ held a = None.
Proof. by destruct a. Qed.
Lemma elem_popped_app (l : list (nat * Z)) b v p : p ∈ (l ++ [(b, v)]).*1 <-> p ∈ l.*1 \/ p = b.
Proof. rewrite fmap_app, elem_of_app. cbn. rewrite elem_of_cons, elem_of_nil. tauto. Qed.

Lemma push_inv s t v : q_inv n s -> ready (q_agents s t) -> reclaimed s -> Z.of_nat (q_top s) < 2 ^ 63 ->
  q_inv n (go t (PushData v (q_top s)) (mk_qsys (S (q_top s)) (q_bot s) (q_cells s) (q_agents s) (pushed s ++ [v]) (popped s))).
Proof.
  intros I Hr Hroom Hb. apply no_ready in Hr as [Hrp Hrh]. pose proof I as [H1 H2 H3 H4 H5 H6 H7 H8 H9 H10 H11 H12 H13 H14].
  set (s0 := mk_qsys _ _ _ _ _ _). set (s' := go t _ _).
  assert (Fl : forall p x, pushed s !! p = Some x -> pushed s' !! p = Some x) by (intros p x Hx; cbn; by apply lookup_app_l_Some).
  assert (Fpub : forall p, published s p -> published s' p) by (intros p (c & Hc & Ht & Hd); exists c; split_and!; [done|done|by apply Fl]).
  assert (Fp : forall t', pushing (q_agents s' t') = if decide (t = t') then Some (q_top s) else pushing (q_agents s t'))
    by (intros t'; unfold s'; rewrite agents_go; by case_decide).
  assert (Fh : forall t', held (q_agents s' t') = held (q_agents s t')) by (intros t'; unfold s'; rewrite agents_go; case_decide; by subst).
  assert (Hold : forall t' p, pushing (q_agents s t') = Some p -> t <> t') by (intros t' p Hp <-; congruence).
  split.
  - done.
  - cbn. rewrite length_app. cbn. lia.
  - cbn. lia.
  - intros t'. unfold s' at 2. rewrite agents_go. case_decide.
    + cbn. rewrite <- H2. rewrite lookup_app_r, Nat.sub_diag by lia. done.
    + specialize (H4 t'). change (q_agents s0 t') with (q_agents s t'). destruct (q_agents s t') as [| | | |b| | | | |]; cbn [agent_ok] in *; try done; try (by apply Fl); try (by apply Fpub).
      * destruct H4 as [Hv Hc]. split; [by apply Fl|done].
      * destruct H4 as [Hlt Hno]. split; [cbn; lia|]. intros t''. rewrite Fp. case_decide; [|done]. intros [= <-]. lia.
  - intros t' p. rewrite Fp. case_decide.
    + intros [= <-]. split_and!; [cbn; lia| |].
      * intros Hp. apply (popped_top s _ I) in Hp. lia.
      * intros c Hc Ht. pose proof (H14 _ c Hc Ht Hb). lia.
    + intros Hp. destruct (H5 t' p Hp) as (Hlt & Hrest). split; [cbn; lia|done].
  - intros t' t'' p. rewrite !Fp. do 2 case_decide; [congruence| | |apply H6].
    + intros [= <-] Hp. destruct (H5 _ _ Hp) as [Hlt _]. lia.
    + intros Hp [= <-]. destruct (H5 _ _ Hp) as [Hlt _]. lia.
  - intros t' p. rewrite Fh. apply H7.
  - intros t' t'' p. rewrite !Fh. apply H8.
  - intros p Hp. cbn in Hp. destruct (decide (p = q_top s)) as [->|Hne]; [left; exists t; rewrite Fp; by rewrite decide_True|].
    destruct (H9 p ltac:(lia)) as [(t' & Ht)|[H|H]]; [left; exists t'; rewrite Fp, decide_False; [done|by eapply Hold]|by right; left|right; right; by apply Fpub].
  - intros p Hp. destruct (H10 p Hp) as [(t' & Ht)|H]; [left; exists t'; by rewrite Fh|by right].
  - intros p x Hx. destruct (H11 p x Hx) as [Hp Hv]. split; [done|]. by apply Fl.
  - done.
  - intros p Hp Hnp. cbn in Hp. destruct (decide (p = q_top s)) as [->|Hne]; [|apply H13; lia].
    destruct Hroom as [H|H]; [lia|]. by rewrite H1 in H.
  - intros p c Hc Ht Hp. pose proof (H14 p c Hc Ht Hp). cbn. lia.
Qed.
(** A push changes its own cell and no element that is still wanted. *)
Lemma published_set s t p f q : q_inv n s -> pushing (q_agents s t) = Some p -> published s q -> q ∉ (popped s).*1 ->
  cell_at (set_cell p f s) q = cell_at s q.
Proof. intros I Hp Hq Hnp. rewrite cell_at_set, decide_False; [done|]. by eapply published_other. Qed.
Lemma set_cell_inv s t v p f a :
  q_inv n s -> pushing (q_agents s t) = Some p -> held a = None -> (pushing a = Some p \/ pushing a = None) ->
  (forall c, cell_at s p = Some c -> pushing a = Some p -> c_tag (f c) = c_tag c) ->
  (forall c, cell_at s p = Some c -> pushing a = None -> c_tag (f c) = Z.of_nat p /\ pushed s !! p = Some (c_data (f c))) ->
  (pushing a = Some p -> a = PushTag v p /\ pushed s !! p = Some v /\ forall c, c_data (f c) = v) -> (pushing a = None -> a = QIdle) ->
  q_inv n (go t a (set_cell p f s)).
Proof.
  intros I Hp Hh Hpa Hkeep Htag Hda Hid. pose proof I as [H1 H2 H3 H4 H5 H6 H7 H8 H9 H10 H11 H12 H13 H14].
  destruct (H5 t p Hp) as (Hlt & Hnp & Hnt). set (s' := go t a (set_cell p f s)).
  assert (Hha : held (q_agents s t) = None) by (by destruct (q_agents s t)).
  assert (Fp : forall t' q, pushing (q_agents s' t') = Some q -> pushing (q_agents s t') = Some q /\ (t = t' -> a = PushTag v p)).
  { intros t' q. unfold s'. rewrite agents_go. case_decide; [subst t'|done]. destruct Hpa as [Hpa|Hpa]; rewrite Hpa; intros [= <-]. split; [done|]. intros _. by apply Hda. }
  assert (Fh : forall t', held (q_agents s' t') = held (q_agents s t')) by (intros t'; unfold s'; rewrite agents_go; case_decide; [subst; congruence|done]).
  assert (Fc : forall q, cell_at s' q = if decide (idx s p = idx s q) then f <$> cell_at s q else cell_at s q) by (intros q; unfold s'; rewrite cell_at_go; apply cell_at_set).
  assert (Fpub : forall q, published s q -> q ∉ (popped s).*1 -> published s' q).
  { intros q Hq Hqp. destruct Hq as (c & Hc & Hrest) eqn:E. exists c. split; [|done]. unfold s'. rewrite cell_at_go, (published_set s t p); [done|done|done| |done]. by exists c. }
  assert (Hcell : is_Some (cell_at s p)).
  { unfold cell_at. apply lookup_lt_is_Some_2. unfold idx. apply Nat.mod_upper_bound. lia. }
  destruct Hcell as [c0 Hc0].
  assert (Hc0' : cell_at s' p = Some (f c0)) by (rewrite Fc, decide_True, Hc0 by done; done).
  assert (Hsame : forall t' q, t <> t' -> pushing (q_agents s t') = Some q -> idx s p <> idx s q).
  { intros t' q Hne Hq E. destruct (H5 t' q Hq) as (Hql & Hqp & _). destruct (decide (q = p)) as [->|Hqne]; [by apply Hne, (H6 t t' p)|].
    apply Hqp. by eapply (other_popped s p q t). }
  split; try done.
  - unfold s'. cbn. by rewrite length_alter.
  - intros t'. unfold s' at 2. rewrite agents_go. case_decide as Ht.
    + destruct Hpa as [Hpa|Hpa]; [|by rewrite (Hid Hpa)]. destruct (Hda Hpa) as (-> & Hv & Hf). cbn. split; [done|]. exists (f c0). by split.
    + specialize (H4 t'). change (q_agents (set_cell p f s) t') with (q_agents s t').
      destruct (q_agents s t') as [| |v' p'|fa b|b| |b|b|b|r] eqn:Ea; cbn [agent_ok] in *; try done.
      * destruct H4 as [Hv (c & Hc & Hd)]. split; [done|]. exists c. split; [|done]. rewrite Fc, decide_False; [done|]. apply (Hsame t'); [done|by rewrite Ea].
      * destruct H4 as [Hb Hno]. split; [done|]. intros t'' Hpu. by apply Fp in Hpu as [Hpu%Hno _].
      * destruct (read_unpopped s t' b I Ea). by apply Fpub.
  - intros t' q Hq. apply Fp in Hq as [Hq Ht]. destruct (H5 t' q Hq) as (Hql & Hqp & Hqt). split_and!; [done|done|]. intros c Hc.
    destruct (decide (t = t')) as [<-|Hne].
    + assert (q = p) as -> by congruence. rewrite Hc0' in Hc. injection Hc as <-. rewrite (Hkeep c0 Hc0); [by apply Hnt|]. by rewrite (Ht eq_refl).
    + rewrite Fc, decide_False in Hc by (by eapply Hsame). by apply Hqt.
  - intros t' t'' q Hq Hq'. apply Fp in Hq as [Hq _], Hq' as [Hq' _]. by eapply H6.
  - intros t' q. rewrite Fh. apply H7.
  - intros t' t'' q. rewrite !Fh. apply H8.
  - intros q Hq. destruct (decide (q ∈ (popped s).*1)) as [|Hqp]; [by right; left|]. destruct (H9 q Hq) as [(t' & Ht)|[H|H]]; [|done|right; right; by apply Fpub].
    destruct (decide (t = t')) as [<-|Hne]; [|left; exists t'; unfold s'; by rewrite agents_go, decide_False].
    assert (q = p) as -> by congruence. destruct Hpa as [Hpa|Hpa]; [left; exists t; unfold s'; by rewrite agents_go, decide_True|].
    right; right. exists (f c0). destruct (Htag c0 Hc0 Hpa). by split_and!.
  - intros q Hq. destruct (H10 q Hq) as [(t' & Ht)|H]; [left; exists t'; by rewrite Fh|by right].
  - intros q c Hc Ht Hq. rewrite Fc in Hc. case_decide as E; [|by eapply H14]. apply fmap_Some in Hc as (c' & Hc' & ->).
    assert (cell_at s p = Some c') as Hcp by (unfold cell_at in *; by rewrite E). destruct Hpa as [Hpa|Hpa].
    + rewrite (Hkeep c' Hcp Hpa) in Ht. by eapply H14.
    + destruct (Htag c' Hcp Hpa) as [E2 _]. rewrite E2 in Ht. assert (q = p) as -> by lia. exact Hlt.
Qed.
Lemma data_inv s t v p : q_inv n s -> q_agents s t = PushData v p -> q_inv n (go t (PushTag v p) (set_cell p (fun c => mk_cell v (c_tag c)) s)).
Proof.
  intros I E. pose proof (qi_agents _ _ I t) as Ha. rewrite E in Ha. cbn in Ha.
  apply (set_cell_inv s t v p); try done; [by rewrite E|by left].
Qed.
Lemma tag_inv s t v p : q_inv n s -> q_agents s t = PushTag v p -> q_inv n (go t QIdle (set_cell p (fun c => mk_cell (c_data c) (Z.of_nat p)) s)).
Proof.
  intros I E. pose proof (qi_agents _ _ I t) as Ha. rewrite E in Ha. destruct Ha as (Hv & c & Hc & Hd).
  apply (set_cell_inv s t v p); try done; [by rewrite E|by right|]. intros c' Hc' _. rewrite Hc in Hc'. injection Hc' as <-. cbn. by rewrite Hd.
Qed.
(** A pop reserves the next position. *)
Lemma reserve_inv s t a : q_inv n s -> pushing (q_agents s t) = None -> held (q_agents s t) = None ->
  pushing a = None -> held a = Some (q_bot s) -> agent_ok s a -> q_inv n (go t a (set_bot (q_bot s + 1) s)).
Proof.
  intros I Hp0 Hh0 Hp Hh Ha. pose proof I as [H1 H2 H3 H4 H5 H6 H7 H8 H9 H10 H11 H12 H13 H14]. set (s' := go t a _).
  assert (Fp : forall t', pushing (q_agents s' t') = pushing (q_agents s t')) by (intros t'; unfold s'; rewrite agents_go; case_decide; [subst; congruence|done]).
  assert (Fh : forall t', held (q_agents s' t') = if decide (t = t') then Some (q_bot s) else held (q_agents s t'))
    by (intros t'; unfold s'; rewrite agents_go; by case_decide).
  assert (Fa : forall a', agent_ok s a' -> agent_ok s' a').
  { intros []; cbn [agent_ok]; try done. intros [Hb Hno]. split; [done|]. intros t'. by rewrite Fp. }
  split; try done.
  - intros t'. unfold s' at 2. rewrite agents_go. case_decide; [by apply Fa|apply Fa, H4].
  - intros t' p. rewrite Fp. apply H5.
  - intros t' t'' p. rewrite !Fp. apply H6.
  - intros t' p. rewrite Fh. cbn. case_decide.
    + intros [= <-]. split; [lia|]. intros Hq. apply (popped_top s _ I) in Hq. lia.
    + intros Hq. destruct (H7 _ _ Hq). split; [lia|done].
  - intros t' t'' p. rewrite !Fh. do 2 case_decide; [congruence| | |apply H8].
    + intros [= <-] Hq. destruct (H7 _ _ Hq). lia.
    + intros Hq [= <-]. destruct (H7 _ _ Hq). lia.
  - intros p Hlt. destruct (H9 p Hlt) as [(t' & Ht)|H]; [left; exists t'; by rewrite Fp|by right].
  - intros p Hlt. cbn in Hlt. destruct (decide (p = q_bot s)) as [->|Hne]; [left; exists t; by rewrite Fh, decide_True|].
    destruct (H10 p ltac:(lia)) as [(t' & Ht)|H]; [left; exists t'; rewrite Fh, decide_False; [done|congruence]|by right].
  - intros p v Hv. destruct (H11 p v Hv). cbn. split; [lia|done].
Qed.
(** A pop gives the last reserved position back. *)
Lemma give_inv s t b : q_inv n s -> q_agents s t = PopGive b -> q_bot s = (b + 1)%nat -> q_inv n (go t (PopDone 0) (set_bot b s)).
Proof.
  intros I E Eb. pose proof I as [H1 H2 H3 H4 H5 H6 H7 H8 H9 H10 H11 H12 H13 H14]. set (s' := go t _ _).
  assert (Hb : held (q_agents s t) = Some b) by (by rewrite E). destruct (H7 _ _ Hb) as [_ Hbp].
  assert (Fp : forall t', pushing (q_agents s' t') = pushing (q_agents s t')) by (intros t'; unfold s'; rewrite agents_go; case_decide; [subst; by rewrite E|done]).
  assert (Fh : forall t', held (q_agents s' t') = if decide (t = t') then None else held (q_agents s t'))
    by (intros t'; unfold s'; rewrite agents_go; by case_decide).
  assert (Fa : forall a', agent_ok s a' -> agent_ok s' a').
  { intros []; cbn [agent_ok]; try done. intros [Hb' Hno]. split; [done|]. intros t'. by rewrite Fp. }
  assert (Hlt : forall p, (p < q_bot s)%nat -> p <> b -> (p < b)%nat) by lia.
  split; try done.
  - intros t'. unfold s' at 2. rewrite agents_go. case_decide; [done|apply Fa, H4].
  - intros t' p. rewrite Fp. apply H5.
  - intros t' t'' p. rewrite !Fp. apply H6.
  - intros t' p. rewrite Fh. case_decide as Ht; [done|]. intros Hq. destruct (H7 _ _ Hq) as [Hq1 Hq2]. split; [|done]. apply Hlt; [done|].
    intros ->. by apply Ht, (H8 t t' b).
  - intros t' t'' p. rewrite !Fh. do 2 case_decide; try done. apply H8.
  - intros p Hp. destruct (H9 p Hp) as [(t' & Ht)|H]; [left; exists t'; by rewrite Fp|by right].
  - intros p Hp. cbn in Hp. destruct (H10 p ltac:(lia)) as [(t' & Ht)|H]; [left; exists t'; rewrite Fh, decide_False; [done|]|by right].
    intros <-. rewrite Hb in Ht. injection Ht as ->. lia.
  - intros p v Hv. destruct (H11 p v Hv) as [Hp Hx]. split; [|done]. apply Hlt; [done|]. intros ->. apply Hbp. apply list_elem_of_fmap. by exists (b, v).
Qed.
Lemma read_inv s t b c : q_inv n s -> q_agents s t = PopRead b -> cell_at s b = Some c ->
  q_inv n (go t (PopDone (c_data c)) (mk_qsys (q_top s) (q_bot s) (q_cells s) (q_agents s) (pushed s) (popped s ++ [(b, c_data c)]))).
Proof.
  intros I E Hc. pose proof I as [H1 H2 H3 H4 H5 H6 H7 H8 H9 H10 H11 H12 H13 H14]. set (s' := go t _ _).
  destruct (read_unpopped s t b I E) as [Hpub Hbp]. pose proof Hpub as (c' & Hc' & Htag & Hd). rewrite Hc in Hc'. injection Hc' as <-.
  assert (Hb : held (q_agents s t) = Some b) by (by rewrite E).
  assert (Fp : forall t', pushing (q_agents s' t') = pushing (q_agents s t')) by (intros t'; unfold s'; rewrite agents_go; case_decide; [subst; by rewrite E|done]).
  assert (Fh : forall t', held (q_agents s' t') = if decide (t = t') then None else held (q_agents s t'))
    by (intros t'; unfold s'; rewrite agents_go; by case_decide).
  assert (Fa : forall a', agent_ok s a' -> agent_ok s' a').
  { intros []; cbn [agent_ok]; try done. intros [Hb' Hno]. split; [done|]. intros t'. by rewrite Fp. }
  assert (Fq : forall p, p ∈ (popped s').*1 <-> p ∈ (popped s).*1 \/ p = b) by (intros p; apply elem_popped_app).
  split; try done.
  - intros t'. unfold s' at 2. rewrite agents_go. case_decide; [done|apply Fa, H4].
  - intros t' p. rewrite Fp, Fq. intros Hp. destruct (H5 t' p Hp) as (Hl & Hnp & Ht). split_and!; [done| |done]. intros [Hx| ->]; [done|]. by apply (Ht c).
  - intros t' t'' p. rewrite !Fp. apply H6.
  - intros t' p. rewrite Fh, Fq. case_decide as Ht; [done|]. intros Hq. destruct (H7 _ _ Hq) as [Hq1 Hq2]. split; [done|]. intros [Hx| ->]; [done|].
    by apply Ht, (H8 t t' b).
  - intros t' t'' p. rewrite !Fh. do 2 case_decide; try done. apply H8.
  - intros p Hp. rewrite Fq. destruct (H9 p Hp) as [(t' & Ht)|[H|H]]; [left; exists t'; by rewrite Fp|by right; left; left|by right; right].
  - intros p Hp. rewrite Fq. destruct (H10 p Hp) as [(t' & Ht)|H]; [|by right; left]. destruct (decide (t = t')) as [<-|Hne].
    + rewrite Hb in Ht. injection Ht as <-. by right; right.
    + left. exists t'. by rewrite Fh, decide_False.
  - intros p v Hv. cbn in Hv. apply elem_of_app in Hv as [Hv|Hv]; [by apply H11|]. apply list_elem_of_In in Hv as [[= <- <-]|[]]. split; [|done]. by apply (H7 t b).
  - cbn. rewrite fmap_app. apply NoDup_app. split_and!; [done| |apply NoDup_singleton]. intros x Hx Hx'. apply list_elem_of_In in Hx' as [<-|[]]. done.
  - intros p Hp Hnp. rewrite Fq. left. by apply H13.
Qed.
Lemma qstep_inv s s' : q_inv n s -> qstep reclaimed s s' -> q_inv n s'.
Proof.
  intros I H. destruct H as [t v s Hr Hroom Hb|t v p s E|t v p s E|t faa s Hr Hb|t faa b c s E Hc|t b s E Eb|t b s E Eb|t s E Hb|t b c s E Hc|t b s E Eb|t b s E|t b c s E Hc].
  - by apply push_inv.
  - by apply data_inv.
  - by eapply tag_inv.
  - apply no_ready in Hr as [H1 H2]. by apply go_inv.
  - pose proof (qi_agents _ _ I t) as Ha. rewrite E in Ha. cbn in Ha. destruct (Z.eqb_spec (c_tag c) (Z.of_nat b)) as [Et|].
    + destruct (tag_published s b c I Hc Et Ha) as (Hl & Hno & _). apply go_inv; [done|by rewrite E; destruct faa|by rewrite E; destruct faa|by destruct faa].
    + apply go_inv; [done|by rewrite E|by rewrite E|done].
  - subst b. pose proof (qi_agents _ _ I t) as Ha. rewrite E in Ha. destruct Ha as [Hl Hno].
    apply reserve_inv; [done|by rewrite E|by rewrite E|done|done|]. cbn. destruct (qi_all _ _ I _ Hl) as [(t' & Ht)|[H|H]]; [by apply Hno in Ht| |done].
    apply (popped_top s _ I) in H. lia.
  - apply go_inv; [done|by rewrite E|by rewrite E|done].
  - by apply reserve_inv; [done|rewrite E|rewrite E|done|done|].
  - pose proof (qi_agents _ _ I t) as Ha. rewrite E in Ha. cbn in Ha.
    destruct (qi_held _ _ I t b) as [_ Hnp]; [by rewrite E|]. destruct (Z.eqb_spec (c_tag c) (Z.of_nat b)) as [Et|].
    + destruct (tag_published s b c I Hc Et Ha) as (_ & _ & Hpub). apply go_inv; [done|by rewrite E|by rewrite E|]. by apply Hpub.
    + apply go_inv; [done|by rewrite E|by rewrite E|done].
  - by apply give_inv.
  - pose proof (qi_agents _ _ I t) as Ha. rewrite E in Ha. apply go_inv; [done|by rewrite E|by rewrite E|done].
  - by apply read_inv.
Qed.
Lemma qrun_inv s s' : q_inv n s -> rtc (qstep reclaimed) s s' -> q_inv n s'.
Proof. intros I H. induction H; [done|]. eauto using qstep_inv. Qed.
Lemma new_inv cells : length cells = n ->
  (forall i c p, cells !! i = Some c -> (p mod n = i)%nat -> c_tag c = Z.of_nat p -> 2 ^ 63 <= Z.of_nat p) -> q_inv n (qsys_new cells).
Proof.
  intros Hl Ht. split; try done; try (intros; cbn in *; lia); [intros p v Hp; by apply not_elem_of_nil in Hp|constructor|]. intros p c Hc Htag Hb.
  unfold cell_at, idx in Hc. cbn [q_cells qsys_new] in Hc. rewrite Hl in Hc. pose proof (Ht _ c p Hc eq_refl Htag). lia.
Qed.
End Invariant.

Lemma faa_new_inv capacity : Z.of_nat capacity < 2 ^ 62 -> (0 < capacity)%nat -> q_inv (capacity + 1) (qsys_new (faa_cells capacity)).
Proof.
  intros Hc Hpos. apply new_inv; [lia|unfold faa_cells; by rewrite length_fmap, length_seq|]. intros i c p Hi Hp Ht. unfold faa_cells in Hi.
  rewrite list_lookup_fmap in Hi. apply fmap_Some in Hi as (k & Hk & ->). apply lookup_seq in Hk as [-> Hk]. cbn [c_tag Nat.add] in Ht.
  unfold u64 in Ht. destruct (decide (i = capacity)) as [->|Hne].
  - replace (Z.of_nat capacity - Z.of_nat (capacity + 1) + 1) with 0 in Ht by lia. rewrite Z.mod_0_l in Ht by lia. assert (p = 0%nat) as -> by lia.
    rewrite Nat.mod_small in Hp by lia. lia.
  - rewrite <- (Z.mod_add _ 1) in Ht by lia. rewrite Z.mod_small in Ht by lia. lia.
Qed.
Lemma cas_new_inv capacity : q_inv (capacity + 1) (qsys_new (cas_cells capacity)).
Proof.
  apply new_inv; [lia|apply length_replicate|]. intros i c p Hi _ Ht. apply lookup_replicate in Hi as [-> _]. cbn [c_tag] in Ht. change (u64 (-1)) with (2 ^ 64 - 1) in Ht. lia.
Qed.

(** What a queue guarantees in a state that threads reached. *)
Record queue_ok (s : qsys) : Prop := {
  ok_values : forall p v, (p, v) ∈ popped s -> pushed s !! p = Some v;
  ok_once : NoDup (popped s).*1;
  ok_quiet : (forall t, ready (q_agents s t)) ->
    (forall p, (p < q_bot s)%nat <-> p ∈ (popped s).*1)
    /\ (forall p, (q_bot s <= p < q_top s)%nat -> published s p) /\ (q_bot s <= q_top s)%nat
}.
Lemma q_inv_ok n s : q_inv n s -> queue_ok s.
Proof.
  intros I. split; [intros p v Hp; by apply (qi_popped _ _ I)|apply I|]. intros Hr.
  assert (Hp : forall p, (p < q_bot s)%nat <-> p ∈ (popped s).*1).
  { intros p. split; [|intros H; by apply (popped_top n s)]. intros H. destruct (qi_below _ _ I p H) as [(t & Ht)|H']; [|done].
    destruct (no_ready _ (Hr t)) as [_ E]. congruence. }
  split_and!; [done| |].
  - intros p [H1 H2]. destruct (qi_all _ _ I p H2) as [(t & Ht)|[H|H]]; [|apply Hp in H; lia|done].
    destruct (no_ready _ (Hr t)) as [E _]. congruence.
  - destruct (Nat.le_gt_cases (q_bot s) (q_top s)) as [|H]; [done|]. apply Hp in H. apply (popped_top n s _ I) in H. lia.
Qed.

(** C13: the fetch-and-add queue and the compare-and-swap queue are first-in-first-out, for any
    number of threads in any interleaving, as long as a push starts only when the
    previous element of its cell was read. The element popped at a position is the one
    pushed with that ticket, no position is popped twice, and when no operation is under
    way everything below [bot] was popped and everything from there to [top] can be. *)
Theorem tagged_queue_fifo capacity s :
  Z.of_nat capacity < 2 ^ 62 -> (0 < capacity)%nat ->
  rtc (qstep reclaimed) (qsys_new (faa_cells capacity)) s \/ rtc (qstep reclaimed) (qsys_new (cas_cells capacity)) s -> queue_ok s.
Proof.
  intros Hc Hpos [H|H]; eapply q_inv_ok, (qrun_inv (capacity + 1)); try exact H; try lia; [by apply faa_new_inv|apply cas_new_inv].
Qed.

(** ** Runs *)

(** A thread starts a push or a pop, or makes its next access. *)
Inductive qmove : Type := MPush (t : nat) (v : Z) | MPop (t : nat) (faa : bool) | MNext (t : nat).
Definition qexec (room : qsys -> bool) (m : qmove) (s : qsys) : option qsys :=
  match m with
  | MPush t v =>
      match q_agents s t with
      | QIdle | PopDone _ =>
          if room s && (Z.of_nat (q_top s) <? 2 ^ 63)
          then Some (go t (PushData v (q_top s)) (mk_qsys (S (q_top s)) (q_bot s) (q_cells s) (q_agents s) (pushed s ++ [v]) (popped s)))
          else None
      | _ => None
      end
  | MPop t faa =>
      match q_agents s t with
      | QIdle | PopDone _ => if Z.of_nat (q_bot s) <? 2 ^ 63 then Some (go t (PopCheck faa (q_bot s)) s) else None
      | _ => None
      end
  | MNext t =>
      match q_agents s t with
      | PushData v p => Some (go t (PushTag v p) (set_cell p (fun c => mk_cell v (c_tag c)) s))
      | PushTag v p => Some (go t QIdle (set_cell p (fun c => mk_cell (c_data c) (Z.of_nat p)) s))
      | PopCheck faa b =>
          c ← cell_at s b ; Some (go t (if c_tag c =? Z.of_nat b then if faa then PopAdd else PopCas b else PopDone 0) s)
      | PopCas b => Some (if decide (q_bot s = b) then go t (PopRead b) (set_bot (b + 1) s) else go t (PopDone 0) s)
      | PopAdd => if Z.of_nat (q_bot s) <? 2 ^ 63 then Some (go t (PopHeld (q_bot s)) (set_bot (q_bot s + 1) s)) else None
      | PopHeld b => c ← cell_at s b ; Some (go t (if c_tag c =? Z.of_nat b then PopRead b else PopGive b) s)
      | PopGive b => Some (if decide (q_bot s = b + 1)%nat then go t (PopDone 0) (set_bot b s) else go t (PopHeld b) s)
      | PopRead b =>
          c ← cell_at s b ;
          Some (go t (PopDone (c_data c))
                 (mk_qsys (q_top s) (q_bot s) (q_cells s) (q_agents s) (pushed s) (popped s ++ [(b, c_data c)])))
      | QIdle | PopDone _ => None
      end
  end.
Fixpoint qexec_all (room : qsys -> bool) (ms : list qmove) (s : qsys) : option qsys :=
  match ms with [] => Some s | m :: ms => s ← qexec room m s ; qexec_all room ms s end.

Lemma qexec_step room roomb m s s' : (forall s, roomb s = true -> room s) -> qexec roomb m s = Some s' -> qstep room s s'.
Proof.
  intros Hroom H. destruct m as [t v|t faa|t]; cbn [qexec] in H.
  - destruct (q_agents s t) eqn:E; try done; (destruct (roomb s && _) eqn:B; [|done]); apply andb_true_iff in B as [B1 B2%Z.ltb_lt]; injection H as <-;
      (apply q_push; [by rewrite E|by apply Hroom|done]).
  - destruct (q_agents s t) eqn:E; try done; (destruct (Z.ltb_spec (Z.of_nat (q_bot s)) (2 ^ 63)); [|done]); injection H as <-; (apply q_pop; [by rewrite E|done]).
  - destruct (q_agents s t) as [|v p|v p|faa b|b| |b|b|b|r] eqn:E; try done; try (injection H as <-).
    + by apply q_data.
    + by eapply q_tag.
    + apply bind_Some in H as (c & Hc & [= <-]). by apply q_check.
    + case_decide; [by apply q_cas|by eapply q_cas_fails].
    + destruct (Z.ltb_spec (Z.of_nat (q_bot s)) (2 ^ 63)); [|done]. injection H as <-. by apply q_add.
    + apply bind_Some in H as (c & Hc & [= <-]). by apply q_held.
    + case_decide; [by apply q_give|by apply q_give_fails].
    + apply bind_Some in H as (c & Hc & [= <-]). by apply q_read.
Qed.
Lemma qexec_run room roomb ms s s' : (forall s, roomb s = true -> room s) -> qexec_all roomb ms s = Some s' -> rtc (qstep room) s s'.
Proof.
  intros Hroom. revert s. induction ms as [|m ms IH]; intros s H; cbn [qexec_all] in H; [by injection H as <-|].
  apply bind_Some in H as (s1 & H1 & H). eapply rtc_l; [by eapply qexec_step|by apply IH].
Qed.
(** A push and a pop of one thread, without interruption. *)
Definition do_push (t : nat) (v : Z) : list qmove := [MPush t v; MNext t; MNext t].
Definition do_pop (t : nat) : list qmove := [MPop t true; MNext t; MNext t; MNext t; MNext t].

Lemma tagged_queue_fifo_witness :
  exists s, rtc (qstep reclaimed) (qsys_new (faa_cells 2)) s /\ popped s = [(0%nat, 10)] /\ queue_ok s.
Proof.
  destruct (qexec_all (fun s => bool_decide (reclaimed s)) (do_push 0 10 ++ do_push 0 11 ++ do_pop 1) (qsys_new (faa_cells 2))) as [s|] eqn:E;
    [|vm_compute in E; discriminate E].
  pose proof (qexec_run reclaimed _ _ _ _ (fun s => bool_decide_unpack (reclaimed s) ∘ Is_true_true_2 _) E) as R.
  exists s. split; [exact R|]. split; [vm_compute in E; injection E as <-; reflexivity|].
  apply (tagged_queue_fifo 2 s); [reflexivity|lia|left; exact R].
Defined.

(** A capacity is not enough: a pop that has reserved its position and did not read it yet
    does not keep later pushes from its cell. With room for two elements, the first is
    overwritten and its reader gets the fourth. *)
Theorem slow_pop_loses_element :
  exists s, rtc (qstep below_capacity) (qsys_new (faa_cells 2)) s
    /\ pushed s = [10; 11; 12; 13] /\ popped s = [(1%nat, 11); (2%nat, 12); (0%nat, 13)].
Proof.
  destruct (qexec_all (fun s => bool_decide (below_capacity s))
    (do_push 0 10 ++ do_push 0 11 ++ [MPop 1 true; MNext 1; MNext 1; MNext 1] ++ do_pop 2 ++ do_push 0 12 ++ do_pop 2
     ++ [MPush 0 13; MNext 0; MNext 1]) (qsys_new (faa_cells 2))) as [s|] eqn:E; [|vm_compute in E; discriminate E].
  exists s. split; [eapply qexec_run; [|exact E]; intros s0; apply bool_decide_eq_true_1|].
  vm_compute in E. injection E as <-. by split.
Qed.
End Tagged.
