(* ===== verification/Tbarrier.v ===== *)
(** * The thread barrier of LCT

    src/lct/tbarrier/tbarrier.cpp: threads that arrive at a reusable barrier and wait for
    their ticket to become old, one atomic access at a time. *)
From stdpp Require Import base numbers functions list strings relations.
From Stdlib Require Import ZArith Lia.
From S2P Require Import Prelude.

(** A thread that has left [k] barriers: outside; in [arrive] with its ticket, before the
    increment, before [waiting] is reset and before [step] is incremented; and waiting. *)
Inductive bthread : Type :=
  | TOut (k : Z)
  | TInc (k ticket : Z)
  | TReset (k ticket : Z)
  | TStep (k ticket : Z)
  | TWait (k ticket : Z).
Record barrier : Type := mk_barrier { waiting : Z; step : Z; threads : list bthread }.

Definition barrier_new (thread_num : nat) : result barrier :=
  LCI_Assert (0 <? Z.of_nat thread_num) "Error: thread_num cannot be 0." ;;
  Ok (mk_barrier 0 0 (replicate thread_num (TOut 0))).
Definition thread_num (b : barrier) : Z := Z.of_nat (length (threads b)).
Definition bmove (i : nat) (t : bthread) (waiting step : Z) (b : barrier) : barrier :=
  mk_barrier waiting step (<[i := t]> (threads b)).
(** [test]. *)
Definition test (ticket : Z) (b : barrier) : bool := negb (ticket =? step b).

(** The next access of a thread. *)
Definition bstep_of (i : nat) (t : bthread) (b : barrier) : option barrier :=
  match t with
  | TOut k => Some (bmove i (TInc k (step b)) (waiting b) (step b) b)
  | TInc k ticket =>
      let w := waiting b + 1 in
      Some (bmove i (if w =? thread_num b then TReset k ticket else TWait k ticket) w (step b) b)
  | TReset k ticket => Some (bmove i (TStep k ticket) 0 (step b) b)
  | TStep k ticket => Some (bmove i (TWait k ticket) (waiting b) (step b + 1) b)
  | TWait k ticket => if test ticket b then Some (bmove i (TOut (k + 1)) (waiting b) (step b) b) else None
  end.
Inductive bstep : barrier -> barrier -> Prop :=
  | bstep_i i t b b' : threads b !! i = Some t -> bstep_of i t b = Some b' -> bstep b b'.

(** Barriers a thread has left, and times it has arrived. *)
Definition left_count (t : bthread) : Z := match t with TOut k | TInc k _ | TReset k _ | TStep k _ | TWait k _ => k end.
Definition arrivals (t : bthread) : Z :=
  match t with TOut k | TInc k _ => k | TReset k _ | TStep k _ | TWait k _ => k + 1 end.

(** Whether a thread has something to do. *)
Definition can_go (b : barrier) (t : bthread) : bool := match t with TWait _ ticket => test ticket b | _ => true end.

(** ** Invariant *)

Definition thread_ok (r : Z) (t : bthread) : Prop :=
  match t with
  | TOut k => k = r
  | TInc k ticket | TReset k ticket | TStep k ticket => k = r /\ ticket = r
  | TWait k ticket => ticket = k /\ (k = r \/ k = r - 1)
  end.
(** Whether a thread has arrived in round [r]; whether it ends the round; whether it has
    reset [waiting]. *)
Definition arrived (r : Z) (t : bthread) : Z :=
  match t with TReset _ _ | TStep _ _ => 1 | TWait k _ => if k =? r then 1 else 0 | _ => 0 end.
Definition ending (t : bthread) : Z := match t with TReset _ _ | TStep _ _ => 1 | _ => 0 end.
Definition has_reset (t : bthread) : Z := match t with TStep _ _ => 1 | _ => 0 end.

Record b_inv (n : Z) (b : barrier) : Prop := {
  bi_num : thread_num b = n;
  bi_threads : forall i t, threads b !! i = Some t -> thread_ok (step b) t;
  bi_waiting : waiting b = if tally has_reset (threads b) =? 0 then tally (arrived (step b)) (threads b) else 0;
  bi_ending : tally ending (threads b) = if tally (arrived (step b)) (threads b) =? n then 1 else 0;
  bi_reset : tally has_reset (threads b) <= tally ending (threads b)
}.
Lemma arrived_range r t : 0 <= arrived r t <= 1.
Proof. destruct t; cbn; try lia. destruct (_ =? _); lia. Qed.
Lemma ending_range t : 0 <= ending t <= 1.
Proof. destruct t; cbn; lia. Qed.
Lemma has_reset_range t : 0 <= has_reset t <= 1.
Proof. destruct t; cbn; lia. Qed.
Lemma insert_ok (P : bthread -> Prop) (l : list bthread) (i : nat) t : (forall j t, l !! j = Some t -> P t) -> P t -> forall j t', <[i := t]> l !! j = Some t' -> P t'.
Proof.
  intros Hl Ht j t' H. destruct (decide (i = j)) as [<-|Hne].
  - apply list_lookup_insert_Some in H as [(_ & <- & _)|(Hne & _)]; [done|done].
  - rewrite list_lookup_insert_ne in H by done. by eapply Hl.
Qed.

Section Inv.
Variables (n : Z) (b : barrier) (i : nat) (t : bthread).
Hypothesis I : b_inv n b.
Hypothesis Hi : threads b !! i = Some t.

Lemma counts : 0 <= tally (arrived (step b)) (threads b) <= n /\ 0 <= tally has_reset (threads b)
  /\ arrived (step b) t <= tally (arrived (step b)) (threads b) /\ ending t <= tally ending (threads b) /\ has_reset t <= tally has_reset (threads b).
Proof.
  pose proof (tally_range (arrived (step b)) (threads b) (arrived_range _)) as H. rewrite <- (bi_num _ _ I). unfold thread_num.
  pose proof (tally_range has_reset (threads b) has_reset_range). split_and!; try lia;
    eapply tally_one; try exact Hi; [apply arrived_range|apply ending_range|apply has_reset_range].
Qed.
(** A move within the round. *)
Lemma bmove_inv t' w :
  thread_ok (step b) t' ->
  (let h := tally has_reset (threads b) - has_reset t + has_reset t' in
   let a := tally (arrived (step b)) (threads b) - arrived (step b) t + arrived (step b) t' in
   let e := tally ending (threads b) - ending t + ending t' in
   w = (if h =? 0 then a else 0) /\ e = (if a =? n then 1 else 0) /\ h <= e) ->
  b_inv n (bmove i t' w (step b) b).
Proof.
  intros Hok (H1 & H2 & H3). destruct I as [I1 I2 I3 I4 I5]. unfold bmove.
  split; cbn [waiting step threads]; rewrite ?(tally_insert _ _ _ _ _ Hi); try done.
  - unfold thread_num in *. cbn [threads]. by rewrite length_insert.
  - by apply insert_ok.
Qed.
(** The end of a round: everyone has arrived and waits. *)
Lemma all_wait k ticket : t = TStep k ticket -> forall j t', threads b !! j = Some t' -> i <> j -> t' = TWait (step b) (step b).
Proof.
  intros Et j t' Hj Hne. destruct I as [I1 I2 I3 I4 I5]. pose proof counts as (Ca & Ch & _ & Ce & _). rewrite Et in Ce. cbn [ending] in Ce.
  assert (Hfull : tally (arrived (step b)) (threads b) = Z.of_nat (length (threads b))).
  { fold (thread_num b). rewrite I1. destruct (Z.eqb_spec (tally (arrived (step b)) (threads b)) n); [done|]. lia. }
  pose proof (tally_full _ _ (arrived_range _) Hfull j t' Hj) as Ha. pose proof (I2 j t' Hj) as Hok.
  pose proof (tally_two ending _ i j _ _ ending_range Hi Hj Hne) as Hend. rewrite Et in Hend. cbn [ending] in Hend.
  assert (tally ending (threads b) <= 1) by (rewrite I4; by destruct (tally _ _ =? n)).
  destruct t' as [k'|k' tk|k' tk|k' tk|k' tk]; cbn [arrived ending thread_ok] in *; try lia.
  destruct (Z.eqb_spec k' (step b)); [|lia]. destruct Hok as [-> _]. by subst.
Qed.
End Inv.

Lemma bstep_inv n b b' : 0 < n -> b_inv n b -> bstep b b' -> b_inv n b'.
Proof.
  intros Hn I H. destruct H as [i t b b' Hi H]. pose proof (bi_threads _ _ I i t Hi) as Hok. pose proof (counts n b i t I Hi) as (Ca & Ch & Cta & Cte & Cth).
  pose proof (bi_num _ _ I) as Hnum. pose proof (bi_waiting _ _ I) as Hw. pose proof (bi_ending _ _ I) as He. pose proof (bi_reset _ _ I) as Hr.
  destruct t as [k|k tk|k tk|k tk|k tk]; cbn [bstep_of] in H.
  - injection H as <-. apply (bmove_inv n b i (TOut k) I Hi); cbn in *; [done|]. rewrite !Z.sub_0_r, !Z.add_0_r. done.
  - injection H as <-. cbn [arrived ending has_reset thread_ok] in *. rewrite Hnum. destruct Hok as [-> ->].
    destruct (Z.eqb_spec (tally (arrived (step b)) (threads b)) n) as [Ef|Ef].
    { exfalso. assert (Hz := tally_full _ (threads b) (arrived_range (step b))). unfold thread_num in Hnum. rewrite Hnum in Hz. specialize (Hz Ef i _ Hi). done. }
    assert (tally has_reset (threads b) = 0) as Eh by lia. rewrite Eh in *. cbn [Z.eqb] in Hw.
    destruct (Z.eqb_spec (waiting b + 1) n) as [E|E]; apply (bmove_inv n b i (TInc _ _) I Hi); cbn [arrived ending has_reset thread_ok]; try done.
    + cbv zeta. rewrite Eh. change (0 - 0 + 0 =? 0) with true. cbv iota. rewrite (proj2 (Z.eqb_eq (_ - 0 + 1) n)) by lia. lia.
    + by split; [|left].
    + rewrite Eh, (Z.eqb_refl (step b)). cbv zeta iota. change (0 - 0 + 0 =? 0) with true. cbv iota. rewrite (proj2 (Z.eqb_neq (_ - 0 + 1) n)) by lia. lia.
  - injection H as <-. cbn [arrived ending has_reset thread_ok] in *. destruct (Z.eqb_spec (tally (arrived (step b)) (threads b)) n) as [Ef|]; [|lia].
    apply (bmove_inv n b i (TReset k tk) I Hi); cbn [arrived ending has_reset thread_ok]; [done|]. cbv zeta.
    rewrite (proj2 (Z.eqb_neq _ 0)) by lia. rewrite (proj2 (Z.eqb_eq _ n)) by lia.
    assert (tally has_reset (threads b) <= 0); [|lia].
    apply Z.eq_le_incl, tally_zero. intros j t' Hj. destruct (decide (i = j)) as [<-|Hne]; [rewrite Hi in Hj; by injection Hj as <-|].
    pose proof (tally_two ending _ i j _ _ ending_range Hi Hj Hne) as Hend. cbn in Hend. destruct t'; cbn in *; lia.
  - injection H as <-. cbn [arrived ending has_reset thread_ok] in *. destruct Hok as [-> ->].
    assert (Hall := all_wait n b i (TStep _ _) I Hi _ _ eq_refl).
    assert (Hz : forall f : bthread -> Z, f (TWait (step b) (step b)) = 0 -> tally f (<[i := TWait (step b) (step b)]> (threads b)) = 0).
    { intros f Hf. apply tally_zero. intros j t' Hj. apply list_lookup_insert_Some in Hj as [(_ & <- & _)|(Hne & Hj)]; [done|]. by rewrite (Hall j t' Hj Hne). }
    unfold bmove. split; cbn [waiting step threads]; rewrite ?Hz; try done; try (cbn; by rewrite (proj2 (Z.eqb_neq _ _)) by lia).
    + unfold thread_num in *. cbn [threads]. by rewrite length_insert.
    + intros j t' Hj. apply list_lookup_insert_Some in Hj as [(_ & <- & _)|(Hne & Hj)]; [|rewrite (Hall j t' Hj Hne)]; cbn; lia.
    + rewrite Z.eqb_refl, Hw. rewrite (proj2 (Z.eqb_neq _ 0)); [done|]. lia.
    + by rewrite (proj2 (Z.eqb_neq 0 n)) by lia.
  - unfold test in H. destruct (Z.eqb_spec tk (step b)) as [|Hne]; [done|]. cbn [negb] in H. injection H as <-. cbn [thread_ok arrived ending has_reset] in *.
    destruct Hok as [-> [->| ->]]; [done|]. apply (bmove_inv n b i _ I Hi); cbn [arrived ending has_reset thread_ok]; [lia|]. cbv zeta.
    rewrite (proj2 (Z.eqb_neq (step b - 1) (step b))) by lia. rewrite !Z.sub_0_r, !Z.add_0_r. done.
Qed.
Lemma brun_inv n b b' : 0 < n -> b_inv n b -> rtc bstep b b' -> b_inv n b'.
Proof. intros Hn I H. induction H; [done|]. eauto using bstep_inv. Qed.
Lemma barrier_new_inv n b : barrier_new n = Ok b -> 0 < Z.of_nat n /\ b_inv (Z.of_nat n) b.
Proof.
  intros H. unfold barrier_new in H. apply bind_Ok in H as (u & Hn%LCI_Assert_Ok & H). injection H as <-. apply Z.ltb_lt in Hn. split; [done|].
  split; cbn [waiting step threads]; rewrite ?tally_replicate; cbn [has_reset arrived ending]; rewrite ?Z.mul_0_r; try done.
  - unfold thread_num. cbn. by rewrite length_replicate.
  - intros i t Ht. by apply lookup_replicate in Ht as [-> _].
  - by rewrite (proj2 (Z.eqb_neq 0 (Z.of_nat n))) by lia.
Qed.

(** C12: the barrier synchronizes and does not get stuck. A thread has left a barrier only
    if every thread has arrived at it, round after round and in every interleaving; and
    there is always a thread that can go on: not all of them wait for the current step. *)
Theorem tbarrier_synchronizes n b0 b :
  barrier_new n = Ok b0 -> rtc bstep b0 b ->
  (forall i j t u, threads b !! i = Some t -> threads b !! j = Some u -> left_count t <= arrivals u)
  /\ exists i t b', threads b !! i = Some t /\ bstep_of i t b = Some b'.
Proof.
  intros H0 H. destruct (barrier_new_inv n b0 H0) as [Hn I0]. pose proof (brun_inv _ _ _ Hn I0 H) as [I1 I2 I3 I4 I5]. split.
  - intros i j t u Ht Hu. apply I2 in Ht, Hu. destruct t, u; cbn in *; lia.
  - destruct (existsb (can_go b) (threads b)) eqn:E.
    + apply List.existsb_exists in E as (t & Ht & Hw). apply list_elem_of_In, list_elem_of_lookup in Ht as (i & Hi). exists i, t.
      destruct t as [| | | |k tk]; cbn [bstep_of can_go] in *; try (by eexists). rewrite Hw. by eexists.
    + exfalso. assert (Hw : forall i t, threads b !! i = Some t -> t = TWait (step b) (step b)).
      { intros i t Hi. assert (Hg : can_go b t = false).
        { apply not_true_iff_false. intros Hg. apply not_true_iff_false in E. apply E, List.existsb_exists. exists t. split; [|done].
          apply list_elem_of_In, list_elem_of_lookup. by exists i. }
        pose proof (I2 i t Hi) as Hok. destruct t as [| | | |k tk]; try done. cbn in Hg, Hok. unfold test in Hg.
        destruct (Z.eqb_spec tk (step b)) as [->|]; [|done]. by destruct Hok as [-> _]. }
      assert (He : tally ending (threads b) = 0) by (apply tally_zero; intros i t Hi; by rewrite (Hw i t Hi)).
      assert (Ha : tally (arrived (step b)) (threads b) = Z.of_nat n).
      { rewrite <- I1. unfold thread_num. clear -Hw. induction (threads b) as [|t l IH]; [done|]. rewrite tally_cons, (Hw 0%nat t eq_refl), IH.
        - cbn [arrived length]. rewrite Z.eqb_refl. lia.
        - intros i u Hu. by apply (Hw (S i)). }
      rewrite Ha, Z.eqb_refl in I4. lia.
Qed.

(** Two threads; the first has left a round and the second still waits to notice it. *)
Lemma tbarrier_synchronizes_witness :
  exists b0 b, barrier_new 2 = Ok b0 /\ rtc bstep b0 b /\ threads b = [TOut 1; TWait 0 0]
    /\ exists i t b', threads b !! i = Some t /\ bstep_of i t b = Some b'.
Proof.
  set (b0 := mk_barrier 0 0 [TOut 0; TOut 0]). set (b := mk_barrier 0 1 [TOut 1; TWait 0 0]).
  assert (R : rtc bstep b0 b).
  { eapply rtc_l; [apply (bstep_i 1 (TOut 0) b0 (mk_barrier 0 0 [TOut 0; TInc 0 0])); reflexivity|].
    eapply rtc_l; [apply (bstep_i 1 (TInc 0 0) _ (mk_barrier 1 0 [TOut 0; TWait 0 0])); reflexivity|].
    eapply rtc_l; [apply (bstep_i 0 (TOut 0) _ (mk_barrier 1 0 [TInc 0 0; TWait 0 0])); reflexivity|].
    eapply rtc_l; [apply (bstep_i 0 (TInc 0 0) _ (mk_barrier 2 0 [TReset 0 0; TWait 0 0])); reflexivity|].
    eapply rtc_l; [apply (bstep_i 0 (TReset 0 0) _ (mk_barrier 0 0 [TStep 0 0; TWait 0 0])); reflexivity|].
    eapply rtc_l; [apply (bstep_i 0 (TStep 0 0) _ (mk_barrier 0 1 [TWait 0 0; TWait 0 0])); reflexivity|].
    eapply rtc_l; [apply (bstep_i 0 (TWait 0 0) _ b); reflexivity|]. apply rtc_refl. }
  exists b0, b. split; [reflexivity|]. split; [exact R|]. split; [reflexivity|].
  exact (proj2 (tbarrier_synchronizes 2 b0 b eq_refl R)).
Defined.
