(* ===== verification/PmiTcp.v ===== *)
(** * The TCP rendezvous of LCT's process management: environment and wire format

    src/lct/pmi/pmi_wrapper_tcp.cpp: the variables that select and configure the
    rendezvous, sockets that take and give any number of bytes at a time, and messages on
    them. *)
From stdpp Require Import base numbers functions list gmap strings.
From Stdlib Require Import ZArith Lia.
From S2P Require Import Prelude Text.

(** ** The environment *)

Definition env_t : Type := string -> option (list Z).

(** [strtol] with base ten: the value and what is left; [None] if there is no number. *)
Definition strtol (l : list Z) : option (Z * list Z) :=
  let l := drop_while is_space l in
  let '(neg, l) := match l with 45 :: l => (true, l) | 43 :: l => (false, l) | _ => (false, l) end in
  match take_while is_dec_digit l with
  | [] => None
  | d => Some (if (neg : bool) then - read_digits 10 d else read_digits 10 d, drop_while is_dec_digit l)
  end.
Definition parse_int_no_fail (value : option (list Z)) (min_value max_value : Z) : option Z :=
  match value with
  | None | Some [] => None
  | Some l =>
      match strtol l with
      | Some (parsed, []) => if (parsed <? min_value) || (max_value <? parsed) then None else Some parsed
      | _ => None
      end
  end.
Definition parse_int (value : option (list Z)) (min_value max_value : Z) : result Z :=
  match value with
  | None | Some [] => Err (AssertFailed "Missing required environment variable")
  | _ => match parse_int_no_fail value min_value max_value with Some n => Ok n | None => Err (AssertFailed "Invalid integer") end
  end.
Definition parse_optional_int (value : option (list Z)) (default_value min_value max_value : Z) : result Z :=
  match value with None => Ok default_value | Some _ => parse_int value min_value max_value end.
Definition has_env_value (value : option (list Z)) : bool := match value with None | Some [] => false | Some _ => true end.

Record endpoint_spec_t : Type := mk_spec { es_source : string; es_addr_name : string; es_port_name : string }.
Definition k_endpoint_specs : list endpoint_spec_t :=
  [mk_spec "LCT" "LCT_MASTER_ADDR" "LCT_MASTER_PORT"; mk_spec "LCI" "LCI_MASTER_ADDR" "LCI_MASTER_PORT";
   mk_spec "MASTER" "MASTER_ADDR" "MASTER_PORT"].
(** The first pair whose variables are both set; its port must be one. *)
Fixpoint select_from (env : env_t) (specs : list endpoint_spec_t) : option (endpoint_spec_t * list Z * list Z) :=
  match specs with
  | [] => None
  | spec :: specs =>
      match env (es_addr_name spec), env (es_port_name spec) with
      | Some ((_ :: _) as addr), Some ((_ :: _) as port) =>
          match parse_int_no_fail (Some port) 1 65535 with Some _ => Some (spec, addr, port) | None => None end
      | _, _ => select_from env specs
      end
  end.
Definition select_endpoint (env : env_t) : option (endpoint_spec_t * list Z * list Z) := select_from env k_endpoint_specs.

Definition INT_MAX1 : Z := 2 ^ 31 - 2.
Definition rank_size_env_is_valid (env : env_t) : bool :=
  match parse_int_no_fail (env "RANK") 0 INT_MAX1, parse_int_no_fail (env "WORLD_SIZE") 1 INT_MAX1 with
  | Some rank, Some size => rank <? size
  | _, _ => false
  end.
(** [strtok_r] with the separators space, semicolon and comma. *)
Definition is_sep (c : Z) : bool := (c =? 32) || (c =? 59) || (c =? 44).
Fixpoint tokens (word : list Z) (l : list Z) : list (list Z) :=
  match l with
  | [] => match word with [] => [] | _ => [rev word] end
  | c :: l => if is_sep c then match word with [] => tokens [] l | _ => rev word :: tokens [] l end else tokens (c :: word) l
  end.
Definition env_requests_only_tcp_backend (env : env_t) : bool :=
  match env "LCT_PMI_BACKEND" with
  | None => false
  | Some l => match tokens [] l with [] => false | ws => forallb (fun w => bool_decide (w = chars "tcp")) ws end
  end.

Definition check_availability (env : env_t) : result bool :=
  if negb (has_env_value (env "RANK") && has_env_value (env "WORLD_SIZE")) then Ok false
  else
    let explicit_tcp := env_requests_only_tcp_backend env in
    if negb (rank_size_env_is_valid env) then
      LCI_Assert (negb explicit_tcp) "LCT_PMI_BACKEND=tcp requires valid RANK and WORLD_SIZE" ;; Ok false
    else
      let have_endpoint := bool_decide (is_Some (select_endpoint env)) in
      LCI_Assert (negb (explicit_tcp && negb have_endpoint)) "LCT_PMI_BACKEND=tcp requires a usable endpoint" ;; Ok have_endpoint.

Record tcp_env : Type := mk_tcp_env {
  te_rank : Z; te_size : Z; te_local_rank : Z; te_local_size : Z; te_master_addr : list Z; te_master_port : Z;
  te_source : string; te_timeout_sec : Z
}.
Definition parse_environment (env : env_t) : result tcp_env :=
  rank ← parse_int (env "RANK") 0 INT_MAX1 ;
  size ← parse_int (env "WORLD_SIZE") 1 INT_MAX1 ;
  LCI_Assert (negb (size <=? rank)) "Invalid TCP PMI rank" ;;
  local_rank ← parse_optional_int (env "LOCAL_RANK") (-1) 0 INT_MAX1 ;
  local_size ← parse_optional_int (env "LOCAL_WORLD_SIZE") (-1) 1 INT_MAX1 ;
  LCI_Assert (negb ((0 <=? local_rank) && (0 <=? local_size) && (local_size <=? local_rank))) "Invalid TCP PMI local rank" ;;
  match select_endpoint env with
  | None => Err (AssertFailed "LCT TCP PMI requires an explicit matched TCP rendezvous endpoint.")
  | Some (spec, addr, port) =>
      master_port ← parse_int (Some port) 1 65535 ;
      timeout ← parse_optional_int (env "LCT_PMI_TCP_TIMEOUT_SEC") 60 1 86400 ;
      Ok (mk_tcp_env rank size local_rank local_size addr master_port (es_source spec) timeout)
  end.

Lemma parse_int_ok value lo hi n : parse_int_no_fail value lo hi = Some n -> parse_int value lo hi = Ok n /\ lo <= n <= hi.
Proof.
  intros H. unfold parse_int. destruct value as [[|c l]|]; try done. rewrite H. split; [done|]. unfold parse_int_no_fail in H.
  destruct (strtol (c :: l)) as [[p [|]]|]; try done. destruct (Z.ltb_spec p lo), (Z.ltb_spec hi p); try done. cbn in H. injection H as <-. lia.
Qed.
Lemma select_from_spec env specs spec addr port : select_from env specs = Some (spec, addr, port) ->
  spec ∈ specs /\ env (es_addr_name spec) = Some addr /\ env (es_port_name spec) = Some port /\ is_Some (parse_int_no_fail (Some port) 1 65535).
Proof.
  induction specs as [|s specs IH]; intros H; [done|]. cbn [select_from] in H.
  assert (Hr : select_from env specs = Some (spec, addr, port) -> spec ∈ s :: specs /\ env (es_addr_name spec) = Some addr
    /\ env (es_port_name spec) = Some port /\ is_Some (parse_int_no_fail (Some port) 1 65535)).
  { intros H'. apply IH in H' as (? & ?). split; [by right|done]. }
  destruct (env (es_addr_name s)) as [[|a al]|] eqn:Ea; try (by apply Hr). destruct (env (es_port_name s)) as [[|p pl]|] eqn:Ep; try (by apply Hr).
  destruct (parse_int_no_fail (Some (p :: pl)) 1 65535) as [z|] eqn:Ez; [|done]. injection H as <- <- <-. split; [left|]. split_and!; [done|done|]. by exists z.
Qed.

(** What [check_availability] promises. If it says that the rendezvous can be used, and
    the variables that are only diagnostics or tuning are not set, the configuration that
    [initialize] reads is accepted, its rank is one of the job's, its port is a port, and
    its address and port come from the same pair of variables. *)
Theorem available_configures env :
  check_availability env = Ok true ->
  env "LOCAL_RANK" = None -> env "LOCAL_WORLD_SIZE" = None -> env "LCT_PMI_TCP_TIMEOUT_SEC" = None ->
  exists g spec port, parse_environment env = Ok g /\ 0 <= te_rank g < te_size g /\ 1 <= te_master_port g <= 65535
    /\ spec ∈ k_endpoint_specs /\ te_source g = es_source spec
    /\ env (es_addr_name spec) = Some (te_master_addr g) /\ env (es_port_name spec) = Some port
    /\ parse_int_no_fail (Some port) 1 65535 = Some (te_master_port g).
Proof.
  intros H Hl Hs Ht. unfold check_availability in H. destruct (negb (has_env_value _ && _)); [done|].
  destruct (rank_size_env_is_valid env) eqn:Ev; cbn [negb] in H; [|by apply bind_Ok in H as (? & _ & H)].
  apply bind_Ok in H as (? & _ & H). injection H as H%bool_decide_eq_true. destruct H as [[[spec addr] port] He].
  unfold rank_size_env_is_valid in Ev. destruct (parse_int_no_fail (env "RANK") 0 INT_MAX1) as [rank|] eqn:Er; [|done].
  destruct (parse_int_no_fail (env "WORLD_SIZE") 1 INT_MAX1) as [size|] eqn:Es; [|done]. apply Z.ltb_lt in Ev.
  apply parse_int_ok in Er as [Er ?], Es as [Es ?]. pose proof (select_from_spec _ _ _ _ _ He) as (Hin & Ha & Hp & p & Hport).
  pose proof (parse_int_ok _ _ _ _ Hport) as [Epo ?]. unfold parse_environment. rewrite Er, Es. cbn [mbind result_bind].
  rewrite (LCI_Assert_true (negb (size <=? rank))) by (rewrite (proj2 (Z.leb_gt size rank)); [done|lia]). rewrite Hl, Hs, Ht, He, Epo. cbn.
  eexists _, spec, port. split; [done|]. cbn. split_and!; try done; lia.
Qed.
Lemma available_configures_witness :
  exists g, parse_environment (fun x => if (x =? "RANK")%string then Some [49] else if (x =? "WORLD_SIZE")%string then Some [52]
              else if (x =? "MASTER_ADDR")%string then Some [104] else if (x =? "MASTER_PORT")%string then Some [57; 57] else None) = Ok g
    /\ 0 <= te_rank g < te_size g.
Proof.
  destruct (available_configures (fun x => if (x =? "RANK")%string then Some [49] else if (x =? "WORLD_SIZE")%string then Some [52]
              else if (x =? "MASTER_ADDR")%string then Some [104] else if (x =? "MASTER_PORT")%string then Some [57; 57] else None))
    as (g & spec & port & E & H & _); [reflexivity|reflexivity|reflexivity|reflexivity|]. exists g. exact (conj E H).
Defined.

(** ** Sockets *)

(** What a call of [send] or [read] answers after [poll]: a number of bytes, try again, or
    an error; a list that is used up is the timeout. *)
Inductive io_answer : Type := IoBytes (n : nat) | IoAgain | IoFail.

(** The bytes that went out and whether that is all of them. *)
Fixpoint write_all (answers : list io_answer) (data : list Z) : list Z * bool :=
  match data, answers with
  | [], _ => ([], true)
  | _, [] => ([], false)
  | _, IoBytes (S n) :: answers => let '(w, ok) := write_all answers (drop (S n) data) in (take (S n) data ++ w, ok)
  | _, IoAgain :: answers => write_all answers data
  | _, _ :: _ => ([], false)
  end.
(** A reader: the answers to come and the bytes that the peer has sent or will send before
    it closes. *)
Record reader : Type := mk_reader { rd_answers : list io_answer; rd_stream : list Z }.
Fixpoint read_loop (answers : list io_answer) (size : nat) (stream : list Z) : result (list Z * reader) :=
  match size, answers with
  | O, _ => Ok ([], mk_reader answers stream)
  | _, [] => Err (Thrown "socket read timed out")
  | _, IoBytes (S n) :: answers =>
      match stream with
      | [] => Err (Thrown "peer closed TCP rendezvous connection")
      | _ =>
          let k := Nat.min (S n) (Nat.min size (length stream)) in
          '(data, r) ← read_loop answers (size - k) (drop k stream) ; Ok (take k stream ++ data, r)
      end
  | _, IoAgain :: answers => read_loop answers size stream
  | _, IoBytes 0 :: _ => Err (Thrown "peer closed TCP rendezvous connection")
  | _, IoFail :: _ => Err (Thrown "socket read failed")
  end.
Definition read_all (size : nat) : ST reader (list Z) := fun r => read_loop (rd_answers r) size (rd_stream r).

Lemma write_all_prefix answers data : exists rest, data = (write_all answers data).1 ++ rest /\ ((write_all answers data).2 = true -> rest = []).
Proof.
  revert data. induction answers as [|a answers IH]; intros data; (destruct data as [|b data]; [by exists []|]); cbn [write_all]; [by exists (b :: data)|].
  destruct a as [[|n]| |]; try (by exists (b :: data)); [|apply IH].
  destruct (IH (drop (S n) (b :: data))) as (rest & E & H). destruct (write_all answers (drop (S n) (b :: data))) as [w ok]. exists rest. cbn [fst snd] in *.
  split; [|done]. rewrite <- app_assoc, <- E. by rewrite take_drop.
Qed.
Lemma read_loop_spec answers size stream data r : read_loop answers size stream = Ok (data, r) ->
  (size <= length stream)%nat /\ data = take size stream /\ rd_stream r = drop size stream.
Proof.
  revert size stream data. induction answers as [|a answers IH]; intros size stream data H; (destruct size as [|size]; [injection H as <- <-; split_and!; [lia|done|done]|]);
    cbn [read_loop] in H; [done|]. destruct a as [[|n]| |]; try done; [|by apply IH].
  destruct stream as [|b stream]; [done|]. set (k := Nat.min _ _) in H.
  assert (Hk : (1 <= k <= S size)%nat /\ (k <= length (b :: stream))%nat) by (subst k; cbn [length]; lia). clearbody k.
  apply bind_Ok in H as ([d r'] & H & E). assert (data = take k (b :: stream) ++ d) as -> by congruence. assert (r' = r) as -> by congruence. clear E.
  apply IH in H as (Hl & -> & Hr). rewrite length_drop in Hl. split; [lia|]. split; [|rewrite Hr, drop_drop; f_equal; lia].
  rewrite take_take_drop. f_equal. lia.
Qed.

(** ** Messages *)

Inductive msg_type_t : Type := MSG_HELLO | MSG_PUBLISH | MSG_BARRIER | MSG_FINALIZE | MSG_OK | MSG_VALUE | MSG_ERROR | MSG_OTHER (n : Z).
Definition msg_code (t : msg_type_t) : Z :=
  match t with
  | MSG_HELLO => 1 | MSG_PUBLISH => 2 | MSG_BARRIER => 4 | MSG_FINALIZE => 5 | MSG_OK => 100 | MSG_VALUE => 101 | MSG_ERROR => 102
  | MSG_OTHER n => n
  end.
Definition msg_of_code (n : Z) : msg_type_t :=
  if n =? 1 then MSG_HELLO else if n =? 2 then MSG_PUBLISH else if n =? 4 then MSG_BARRIER else if n =? 5 then MSG_FINALIZE
  else if n =? 100 then MSG_OK else if n =? 101 then MSG_VALUE else if n =? 102 then MSG_ERROR else MSG_OTHER n.
Record wire_msg_t : Type := mk_wire { wm_type : msg_type_t; wm_rank : Z; wm_aux : Z; wm_key : list Z; wm_value : list Z }.

Definition k_max_wire_string : Z := 4096.
(** [htonl] in memory. *)
Definition be32 (x : Z) : list Z := [x / 2 ^ 24 mod 256; x / 2 ^ 16 mod 256; x / 2 ^ 8 mod 256; x mod 256].
Definition of_be32 (b : list Z) : Z := foldl (fun acc c => acc * 256 + c) 0 b.
Definition msg_bytes (m : wire_msg_t) : list Z :=
  be32 (msg_code (wm_type m)) ++ be32 (u32 (wm_rank m)) ++ be32 (wm_aux m)
  ++ be32 (u32 (Z.of_nat (length (wm_key m)))) ++ be32 (u32 (Z.of_nat (length (wm_value m)))) ++ wm_key m ++ wm_value m.
(** One call of [write_all] for the header and one for each string that is not empty, with
    the answers of each. *)
Definition send_msg (a1 a2 a3 : list io_answer) (m : wire_msg_t) : result (list Z * bool) :=
  LCI_Assert ((Z.of_nat (length (wm_key m)) <=? k_max_wire_string) && (Z.of_nat (length (wm_value m)) <=? k_max_wire_string))
    "LCT TCP PMI wire message is too large" ;;
  let '(w1, ok1) := write_all a1 (take 20 (msg_bytes m)) in
  if negb ok1 then Ok (w1, false)
  else
    let '(w2, ok2) := write_all a2 (wm_key m) in
    if negb ok2 then Ok (w1 ++ w2, false)
    else let '(w3, ok3) := write_all a3 (wm_value m) in Ok (w1 ++ w2 ++ w3, ok3).
Definition recv_msg : ST reader wire_msg_t :=
  h ← read_all 20 ;
  let word i := of_be32 (take 4 (drop (4 * i) h)) in
  let key_len := word 3%nat in
  let value_len := word 4%nat in
  if (k_max_wire_string <? key_len) || (k_max_wire_string <? value_len)
  then fail_with (Thrown "TCP rendezvous peer sent an oversized message")
  else
    key ← read_all (Z.to_nat key_len) ;
    value ← read_all (Z.to_nat value_len) ;
    mret (mk_wire (msg_of_code (word 0%nat)) (i32 (word 1%nat)) (word 2%nat) key value).

Definition msg_ok (m : wire_msg_t) : Prop :=
  is_u32 (msg_code (wm_type m)) /\ msg_of_code (msg_code (wm_type m)) = wm_type m /\ - 2 ^ 31 <= wm_rank m < 2 ^ 31 /\ is_u32 (wm_aux m)
  /\ Z.of_nat (length (wm_key m)) <= k_max_wire_string /\ Z.of_nat (length (wm_value m)) <= k_max_wire_string.

Lemma of_be32_be32 x : is_u32 x -> of_be32 (be32 x) = x.
Proof.
  intros H. unfold is_u32 in H. unfold be32. cbn [of_be32 foldl]. change (2 ^ 8) with 256. change (2 ^ 16) with 65536. change (2 ^ 24) with 16777216.
  Z.to_euclidean_division_equations. lia.
Qed.
Lemma header_words a b c d e : is_u32 a -> is_u32 b -> is_u32 c -> is_u32 d -> is_u32 e ->
  let h := be32 a ++ be32 b ++ be32 c ++ be32 d ++ be32 e in
  length h = 20%nat /\ of_be32 (take 4 (drop (4 * 0) h)) = a /\ of_be32 (take 4 (drop (4 * 1) h)) = b /\ of_be32 (take 4 (drop (4 * 2) h)) = c
  /\ of_be32 (take 4 (drop (4 * 3) h)) = d /\ of_be32 (take 4 (drop (4 * 4) h)) = e.
Proof. intros Ha Hb Hc Hd He. cbn zeta. split; [done|]. split_and!; by apply of_be32_be32. Qed.

Lemma wire_bytes m a1 a2 a3 w ok :
  msg_ok m -> send_msg a1 a2 a3 m = Ok (w, ok) ->
  (exists rest, msg_bytes m = w ++ rest /\ (ok = true -> rest = []))
  /\ (ok = true -> forall answers rest m' r, recv_msg (mk_reader answers (w ++ rest)) = Ok (m', r) -> m' = m /\ rd_stream r = rest).
Proof.
  intros (Ht & Htc & Hr & Ha & Hk & Hv) H. unfold send_msg in H. apply bind_Ok in H as (u & _ & H).
  assert (Hlen : forall l : list Z, Z.of_nat (length l) <= k_max_wire_string -> u32 (Z.of_nat (length l)) = Z.of_nat (length l)).
  { intros l Hl. apply u32_id. unfold is_u32, k_max_wire_string in *. lia. }
  remember (be32 (msg_code (wm_type m)) ++ be32 (u32 (wm_rank m)) ++ be32 (wm_aux m) ++ be32 (Z.of_nat (length (wm_key m))) ++ be32 (Z.of_nat (length (wm_value m)))) as h eqn:Hdef.
  assert (Eb : msg_bytes m = h ++ wm_key m ++ wm_value m) by (unfold msg_bytes; rewrite Hdef, !Hlen by done; by rewrite <- !app_assoc).
  assert (Hh : length h = 20%nat) by (by rewrite Hdef).
  assert (take 20 (msg_bytes m) = h) as E20 by (rewrite Eb, <- Hh; apply take_app_length). rewrite E20 in H.
  assert (W : exists rest, msg_bytes m = w ++ rest /\ (ok = true -> rest = [])).
  { rewrite Eb. destruct (write_all_prefix a1 h) as (r1 & E1 & F1). destruct (write_all a1 h) as [w1 [|]]; cbn [fst snd negb] in *.
    2: { injection H as <- <-. exists (r1 ++ wm_key m ++ wm_value m). split; [|done]. by rewrite (app_assoc w1), <- E1. }
    rewrite (F1 eq_refl), app_nil_r in E1. subst w1. destruct (write_all_prefix a2 (wm_key m)) as (r2 & E2 & F2).
    destruct (write_all a2 (wm_key m)) as [w2 [|]]; cbn [fst snd negb] in *.
    2: { injection H as <- <-. exists (r2 ++ wm_value m). split; [|done]. rewrite <- app_assoc. f_equal. by rewrite (app_assoc w2), <- E2. }
    rewrite (F2 eq_refl), app_nil_r in E2. rewrite <- E2 in H. destruct (write_all_prefix a3 (wm_value m)) as (r3 & E3 & F3).
    destruct (write_all a3 (wm_value m)) as [w3 ok3]; cbn [fst snd] in *. injection H as <- <-. exists r3. split; [|done]. rewrite <- !app_assoc. by rewrite <- E3. }
  split; [done|]. intros ->. destruct W as (rest0 & E & F). rewrite (F eq_refl), app_nil_r in E. subst w. clear F rest0 H. intros answers rest m' r H. rewrite Eb in H.
  unfold recv_msg in H. apply st_bind_Ok in H as (h' & r1 & H1 & H). apply read_loop_spec in H1 as (_ & -> & Hs1). cbn [rd_stream] in *.
  assert (take 20 ((h ++ wm_key m ++ wm_value m) ++ rest) = h) as E1 by (rewrite <- app_assoc, <- Hh; apply take_app_length).
  assert (drop 20 ((h ++ wm_key m ++ wm_value m) ++ rest) = wm_key m ++ wm_value m ++ rest) as E2 by (rewrite <- !app_assoc, <- Hh; apply drop_app_length).
  rewrite E1 in H. rewrite E2 in Hs1. unfold k_max_wire_string in *.
  destruct (header_words (msg_code (wm_type m)) (u32 (wm_rank m)) (wm_aux m) (Z.of_nat (length (wm_key m))) (Z.of_nat (length (wm_value m)))) as (_ & W0 & W1 & W2 & W3 & W4);
    [done|apply u32_range|done|unfold is_u32; lia|unfold is_u32; lia|]. rewrite <- Hdef in W0, W1, W2, W3, W4. cbv zeta in H. rewrite W0, W1, W2, W3, W4 in H.
  rewrite (proj2 (orb_false_iff _ _)) in H by lia. rewrite !Nat2Z.id in H.
  apply st_bind_Ok in H as (k & r2 & H2 & H). apply read_loop_spec in H2 as (_ & -> & Hs2). rewrite Hs1, take_app_length in H. rewrite Hs1, drop_app_length in Hs2.
  apply st_bind_Ok in H as (v & r3 & H3 & H). apply read_loop_spec in H3 as (_ & -> & Hs3). rewrite Hs2, take_app_length in H. rewrite Hs2, drop_app_length in Hs3.
  injection H as <- <-. split; [|done]. destruct m as [t rk ax k v]. cbn in *. rewrite Htc. f_equal. by apply i32_u32.
Qed.
(** A socket that is slow and does not fail: it moves at least [n] times before time is up. *)
Definition moves (a : io_answer) : bool := match a with IoBytes (S _) => true | _ => false end.
Definition patient (n : nat) (l : list io_answer) : Prop :=
  Forall (fun a => a = IoAgain \/ moves a = true) l /\ (n <= length (filter (fun a => moves a = true) l))%nat.
Lemma patient_cons n a l : patient n (a :: l) ->
  (a = IoAgain /\ patient n l) \/ (exists k, a = IoBytes (S k) /\ patient (n - 1) l).
Proof.
  intros [F L]. apply Forall_cons in F as [[->|M] F].
  - left. split; [done|]. split; [done|]. by rewrite filter_cons_False in L.
  - right. destruct a as [[|k]| |]; try discriminate M. exists k. split; [done|]. split; [done|]. rewrite filter_cons_True in L by done. cbn in L. lia.
Qed.
Lemma patient_mono n k l : patient n l -> (k <= n)%nat -> patient k l.
Proof. intros [F L] H. split; [done|lia]. Qed.
Lemma patient_replicate n : patient n (replicate n (IoBytes 1)).
Proof.
  split; [apply Forall_replicate; by right|]. induction n as [|n IH]; [done|]. cbn [replicate]. rewrite filter_cons_True by done. cbn [length]. lia.
Qed.
Lemma write_all_total answers data : patient (length data) answers -> write_all answers data = (data, true).
Proof.
  revert data. induction answers as [|a answers IH]; intros [|b data] H; try done.
  - destruct H as [_ H]. cbn in H. lia.
  - apply patient_cons in H as [[-> H]|(k & -> & H)]; cbn [write_all]; [by rewrite IH|]. rewrite IH.
    + by rewrite take_drop.
    + eapply patient_mono; [exact H|]. rewrite length_drop. cbn [length]. lia.
Qed.
Lemma read_loop_total answers size stream n : (size <= length stream)%nat -> patient (size + n) answers ->
  exists answers', read_loop answers size stream = Ok (take size stream, mk_reader answers' (drop size stream)) /\ patient n answers'.
Proof.
  revert size stream n. induction answers as [|a answers IH]; intros [|size] stream n Hs H; try (by eexists).
  - destruct H as [_ H]. cbn in H. lia.
  - apply patient_cons in H as [[-> H]|(k & -> & H)]; cbn [read_loop]; [by apply IH|].
    destruct stream as [|b stream]; [cbn in Hs; lia|]. set (j := Nat.min _ _).
    assert (Hj : (1 <= j <= S size)%nat) by (subst j; cbn [length] in *; lia). clearbody j.
    destruct (IH (S size - j)%nat (drop j (b :: stream)) n) as (answers' & E & P); [rewrite length_drop; lia|eapply patient_mono; [exact H|lia]|].
    rewrite E. cbn [mbind result_bind]. exists answers'. split; [|done]. rewrite take_take_drop, drop_drop. do 4 f_equal; lia.
Qed.
Lemma msg_header m : msg_ok m -> exists h, msg_bytes m = h ++ wm_key m ++ wm_value m /\ length h = 20%nat
  /\ of_be32 (take 4 (drop (4 * 3) h)) = Z.of_nat (length (wm_key m)) /\ of_be32 (take 4 (drop (4 * 4) h)) = Z.of_nat (length (wm_value m)).
Proof.
  intros (Ht & _ & _ & Ha & Hk & Hv). unfold k_max_wire_string in *.
  destruct (header_words (msg_code (wm_type m)) (u32 (wm_rank m)) (wm_aux m) (Z.of_nat (length (wm_key m))) (Z.of_nat (length (wm_value m))))
    as (W & _ & _ & _ & W3 & W4); [done|apply u32_range|done|unfold is_u32; lia|unfold is_u32; lia|].
  eexists. split; [|split; [exact W|split; [exact W3|exact W4]]]. unfold msg_bytes.
  rewrite (u32_id (Z.of_nat (length (wm_key m)))), (u32_id (Z.of_nat (length (wm_value m)))) by (unfold is_u32; lia). by rewrite <- !app_assoc.
Qed.
Lemma recv_total m answers rest : msg_ok m -> patient (length (msg_bytes m)) answers ->
  exists m' r, recv_msg (mk_reader answers (msg_bytes m ++ rest)) = Ok (m', r).
Proof.
  intros Hm P. pose proof Hm as (_ & _ & _ & _ & Hk & Hv). destruct (msg_header m Hm) as (h & E & L & W3 & W4). rewrite E in P |- *. rewrite !length_app, L in P.
  destruct (read_loop_total answers 20 ((h ++ wm_key m ++ wm_value m) ++ rest) (length (wm_key m) + length (wm_value m)) ltac:(rewrite !length_app; lia) P)
    as (a1 & R1 & P1). rewrite <- !app_assoc, <- L, take_app_length, drop_app_length in R1.
  destruct (read_loop_total a1 (length (wm_key m)) (wm_key m ++ wm_value m ++ rest) (length (wm_value m)) ltac:(rewrite !length_app; lia) P1) as (a2 & R2 & P2).
  rewrite take_app_length, drop_app_length in R2.
  destruct (read_loop_total a2 (length (wm_value m)) (wm_value m ++ rest) 0 ltac:(rewrite length_app; lia) ltac:(by rewrite Nat.add_0_r)) as (a3 & R3 & _).
  rewrite take_app_length, drop_app_length in R3. unfold recv_msg. rewrite <- !app_assoc.
  assert (Q1 : read_all 20 (mk_reader answers (h ++ wm_key m ++ wm_value m ++ rest)) = Ok (h, mk_reader a1 (wm_key m ++ wm_value m ++ rest))).
  { unfold read_all. cbn [rd_answers rd_stream]. by rewrite <- L. }
  rewrite (st_bind_eq _ _ _ _ _ Q1). cbv zeta. rewrite W3, W4. unfold k_max_wire_string in *. rewrite (proj2 (orb_false_iff _ _)) by lia.
  cbv iota beta. rewrite !Nat2Z.id. rewrite (st_bind_eq (read_all _) _ (mk_reader a1 _) _ _ R2), (st_bind_eq (read_all _) _ (mk_reader a2 _) _ _ R3).
  by eexists _, _.
Qed.

(** C32: messages survive the stream, however the system splits the bytes. What goes out is always
    a part of the message from its start, and on a socket that keeps moving it is all of it;
    a receiver on such a socket returns that message and leaves what follows it; and no
    receiver returns anything else. *)
Theorem wire_roundtrip m :
  msg_ok m ->
  (forall a1 a2 a3, exists w ok rest, send_msg a1 a2 a3 m = Ok (w, ok) /\ msg_bytes m = w ++ rest /\ (ok = true -> rest = []))
  /\ (forall a1 a2 a3, patient 20 a1 -> patient (length (wm_key m)) a2 -> patient (length (wm_value m)) a3 -> send_msg a1 a2 a3 m = Ok (msg_bytes m, true))
  /\ (forall answers rest, patient (length (msg_bytes m)) answers ->
        exists answers', recv_msg (mk_reader answers (msg_bytes m ++ rest)) = Ok (m, mk_reader answers' rest))
  /\ (forall answers rest m' r, recv_msg (mk_reader answers (msg_bytes m ++ rest)) = Ok (m', r) -> m' = m /\ rd_stream r = rest).
Proof.
  intros Hm. pose proof Hm as (_ & _ & _ & _ & Hk & Hv). 
  assert (Hs : forall a1 a2 a3, exists w ok, send_msg a1 a2 a3 m = Ok (w, ok)).
  { intros a1 a2 a3. unfold send_msg. rewrite (proj2 (Z.leb_le _ _) Hk), (proj2 (Z.leb_le _ _) Hv). cbn [andb LCI_Assert mbind result_bind].
    destruct (write_all a1 _) as [w1 [|]]; [|by eexists _, _]. cbn [negb]. destruct (write_all a2 _) as [w2 [|]]; [|by eexists _, _]. cbn [negb].
    destruct (write_all a3 _) as [w3 ok3]. by eexists _, _. }
  assert (Ht : forall a1 a2 a3, patient 20 a1 -> patient (length (wm_key m)) a2 -> patient (length (wm_value m)) a3 -> send_msg a1 a2 a3 m = Ok (msg_bytes m, true)).
  { intros a1 a2 a3 P1 P2 P3. unfold send_msg. rewrite (proj2 (Z.leb_le _ _) Hk), (proj2 (Z.leb_le _ _) Hv). cbn [andb LCI_Assert mbind result_bind].
    rewrite !write_all_total by done. reflexivity. }
  split; [|split; [exact Ht|]].
  - intros a1 a2 a3. destruct (Hs a1 a2 a3) as (w & ok & E). destruct (wire_bytes _ _ _ _ _ _ Hm E) as [(rest & E1 & E2) _]. by exists w, ok, rest.
  - assert (Hr : forall answers rest m' r, recv_msg (mk_reader answers (msg_bytes m ++ rest)) = Ok (m', r) -> m' = m /\ rd_stream r = rest).
    { apply (wire_bytes _ (replicate 20 (IoBytes 1)) (replicate (length (wm_key m)) (IoBytes 1)) (replicate (length (wm_value m)) (IoBytes 1)) (msg_bytes m) true Hm);
        [|done]. apply Ht; apply patient_replicate. }
    split; [|exact Hr]. intros answers rest P.
    assert (T : exists m' r, recv_msg (mk_reader answers (msg_bytes m ++ rest)) = Ok (m', r)).
    2: { destruct T as (m' & [answers' rest'] & E). destruct (Hr _ _ _ _ E) as [-> E2]. cbn in E2. subst rest'. by exists answers'. }
    apply recv_total; [done|done].
Qed.
Lemma wire_roundtrip_witness :
  exists w answers', send_msg [IoBytes 7; IoAgain; IoBytes 13] [IoBytes 9] [IoBytes 1; IoBytes 1] (mk_wire MSG_PUBLISH 3 0 [107] [1; 2]) = Ok (w, true)
    /\ recv_msg (mk_reader (IoAgain :: replicate 30 (IoBytes 5)) (w ++ [9; 9])) = Ok (mk_wire MSG_PUBLISH 3 0 [107] [1; 2], mk_reader answers' [9; 9]).
Proof.
  destruct (wire_roundtrip (mk_wire MSG_PUBLISH 3 0 [107] [1; 2])) as (_ & _ & H & _).
  - unfold msg_ok, is_u32, k_max_wire_string. cbn. repeat split; lia.
  - destruct (H (IoAgain :: replicate 30 (IoBytes 5)) [9; 9]) as (answers' & E).
    + split; [apply Forall_cons; split; [by left|apply Forall_replicate; by right]|vm_compute; lia].
    + exists (msg_bytes (mk_wire MSG_PUBLISH 3 0 [107] [1; 2])), answers'. split; [reflexivity|exact E].
Defined.
