(* ===== verification/PmiFence.v ===== *)
(** * The TCP rendezvous of LCT's process management: publish, fence, get

    src/lct/pmi/pmi_wrapper_tcp.cpp: rank 0 and its clients between [initialize] and
    [finalize]. A barrier of a client sends its pending entries and a request and waits
    for a snapshot; the barrier of rank 0 takes messages from the clients that did not
    arrive yet until all have, and sends the snapshot to all of them. One step sends or
    receives one message; connections keep the order of their messages. *)
From stdpp Require Import base numbers functions list gmap strings relations.
From Stdlib Require Import ZArith Lia.
From S2P Require Import Prelude Text PmiTcp.

Abbreviation kv_map := (gmap (list Z) (list Z)).
(** Keys with the rank that published them. *)
Abbreviation snapshot := (gmap (nat * list Z) (list Z)).
Definition STRING_LIMIT : nat := 255.
Definition UINT32_MAX : Z := 2 ^ 32 - 1.

(** ** Joining *)

(** [accept_rank_clients] of a job of [nranks], from the greetings in the order the connections come in:
    the ranks of the clients. *)
Fixpoint accept_loop (nranks : nat) (hellos : list wire_msg_t) (seen clients : list nat) : result (list nat) :=
  if (nranks - 1 <=? length clients)%nat then Ok clients
  else
    match hellos with
    | [] => Err (AssertFailed "Timed out waiting for all ranks to join")
    | hello :: hellos =>
        match wm_type hello with
        | MSG_HELLO =>
            LCI_Assert ((0 <? wm_rank hello) && (wm_rank hello <? Z.of_nat nranks)) "Invalid TCP rendezvous hello" ;;
            let rank := Z.to_nat (wm_rank hello) in
            LCI_Assert (negb (bool_decide (rank ∈ seen))) "Duplicate TCP rendezvous rank" ;;
            accept_loop nranks hellos (rank :: seen) (clients ++ [rank])
        | _ => Err (AssertFailed "Invalid TCP rendezvous hello")
        end
    end.
Definition accept_rank_clients (nranks : nat) (hellos : list wire_msg_t) : result (list nat) := accept_loop nranks hellos [0%nat] [].

(** ** Messages of a barrier *)

Definition publish_msg (rank : nat) (kv : list Z * list Z) : wire_msg_t := mk_wire MSG_PUBLISH (Z.of_nat rank) 0 kv.1 kv.2.
Definition barrier_msg (rank : nat) : wire_msg_t := mk_wire MSG_BARRIER (Z.of_nat rank) 0 [] [].
Definition ok_msg (count : nat) : wire_msg_t := mk_wire MSG_OK 0 (Z.of_nat count) [] [].
Definition value_msg (e : (nat * list Z) * list Z) : wire_msg_t := mk_wire MSG_VALUE (Z.of_nat e.1.1) 0 e.1.2 e.2.
(** [nonzero_barrier]: what a client sends. *)
Definition barrier_msgs (rank : nat) (pending : kv_map) : list wire_msg_t :=
  (publish_msg rank <$> map_to_list pending) ++ [barrier_msg rank].
(** [send_snapshot]. *)
Definition snapshot_msgs (kvs : snapshot) : list wire_msg_t := ok_msg (size kvs) :: (value_msg <$> map_to_list kvs).

(** [apply_pending_publishes], for rank 0. *)
Definition apply_pending (pending : kv_map) (kvs : snapshot) : snapshot :=
  foldr (fun kv kvs => <[(0%nat, kv.1) := kv.2]> kvs) kvs (map_to_list pending).
Definition fits (m : wire_msg_t) : bool := (length (wm_key m) <? STRING_LIMIT)%nat && (length (wm_value m) <? STRING_LIMIT)%nat.
Definition store_remote_publish (client_rank : nat) (m : wire_msg_t) (kvs : snapshot) : result snapshot :=
  LCI_Assert (wm_rank m =? Z.of_nat client_rank) "publish with mismatched rank" ;;
  LCI_Assert (fits m) "publish key/value exceeds LCT_PMI_STRING_LIMIT" ;;
  Ok (<[(client_rank, wm_key m) := wm_value m]> kvs).
(** A message from the client of a rank during the barrier of rank 0: the snapshot and
    whether the rank has arrived. *)
Definition server_handle (client_rank : nat) (m : wire_msg_t) (kvs : snapshot) : result (snapshot * bool) :=
  match wm_type m with
  | MSG_PUBLISH => kvs' ← store_remote_publish client_rank m kvs; Ok (kvs', false)
  | MSG_BARRIER => LCI_Assert (wm_rank m =? Z.of_nat client_rank) "barrier with mismatched rank" ;; Ok (kvs, true)
  | MSG_FINALIZE => Err (AssertFailed "finalized before reaching the active barrier")
  | _ => Err (AssertFailed "unexpected request type during barrier")
  end.

(** Where a client is: outside a barrier, sending, waiting for the answer, and receiving so
    many more records. *)
Inductive client_pc : Type := CRun | CSend (todo : list wire_msg_t) | CWait | CRecv (count : nat) (got : snapshot).
Record client_t : Type := mk_client {
  cl_pending : kv_map; cl_kvs : snapshot; cl_pc : client_pc;
  (** The entries it took into its barriers so far. *)
  cl_hist : list kv_map
}.
(** The body of the loop of [recv_snapshot]. *)
Definition recv_record (nranks : nat) (m : wire_msg_t) (got : snapshot) : result snapshot :=
  match wm_type m with
  | MSG_ERROR => Err (AssertFailed "server error")
  | MSG_VALUE =>
      LCI_Assert ((0 <=? wm_rank m) && (wm_rank m <? Z.of_nat nranks)) "snapshot contains invalid rank" ;;
      LCI_Assert (fits m) "value exceeds LCT_PMI_STRING_LIMIT" ;;
      Ok (<[(Z.to_nat (wm_rank m), wm_key m) := wm_value m]> got)
  | _ => Err (AssertFailed "unexpected KVS snapshot record type")
  end.
(** The answer and the records that a client receives in a job of [nranks]. *)
Definition client_handle (nranks : nat) (m : wire_msg_t) (pc : client_pc) : result client_pc :=
  match pc with
  | CWait =>
      match wm_type m with
      | MSG_OK => Ok (CRecv (Z.to_nat (wm_aux m)) ∅)
      | MSG_ERROR => Err (AssertFailed "server error")
      | _ => Err (AssertFailed "unexpected response type")
      end
  | CRecv (S count) got => got' ← recv_record nranks m got; Ok (CRecv count got')
  | _ => Err (Undefined "receive outside a barrier")
  end.

(** ** The job *)

(** Where rank 0 is: outside a barrier, with the clients that arrived, and with the messages
    still to send to each client. *)
Inductive server_pc : Type := SRun | SLoop (arrived : nat -> bool) | SSend (todo : list (nat * wire_msg_t)).
(** Client [i] has rank [i + 1]. *)
Record job : Type := mk_job {
  sv_pending : kv_map; sv_kvs : snapshot; sv_pc : server_pc; sv_hist : list kv_map;
  clients : nat -> client_t;
  up : nat -> list wire_msg_t;
  down : nat -> list wire_msg_t
}.
Definition client_new : client_t := mk_client ∅ ∅ CRun [].
Definition job_new : job := mk_job ∅ ∅ SRun [] (fun _ => client_new) (fun _ => []) (fun _ => []).

Definition set_client (i : nat) (c : client_t) (s : job) : job :=
  mk_job (sv_pending s) (sv_kvs s) (sv_pc s) (sv_hist s) (<[i := c]> (clients s)) (up s) (down s).
Definition set_server (pending : kv_map) (kvs : snapshot) (pc : server_pc) (hist : list kv_map) (s : job) : job :=
  mk_job pending kvs pc hist (clients s) (up s) (down s).
Definition set_up (i : nat) (l : list wire_msg_t) (s : job) : job :=
  mk_job (sv_pending s) (sv_kvs s) (sv_pc s) (sv_hist s) (clients s) (<[i := l]> (up s)) (down s).
Definition set_down (i : nat) (l : list wire_msg_t) (s : job) : job :=
  mk_job (sv_pending s) (sv_kvs s) (sv_pc s) (sv_hist s) (clients s) (up s) (<[i := l]> (down s)).
Definition publishable (k v : list Z) : Prop := (length k < STRING_LIMIT)%nat /\ (length v < STRING_LIMIT)%nat.
Definition publish (key value : list Z) (pending : kv_map) : result kv_map :=
  LCI_Assert ((length key <? STRING_LIMIT)%nat && (length value <? STRING_LIMIT)%nat) "publish key/value exceeds LCT_PMI_STRING_LIMIT" ;;
  Ok (<[key := value]> pending).
Definition getname (nranks rank : nat) (key : list Z) (kvs : snapshot) : result (list Z) :=
  LCI_Assert (rank <? nranks)%nat "getname requested invalid rank" ;;
  LCI_Assert (length key <? STRING_LIMIT)%nat "getname key exceeds LCT_PMI_STRING_LIMIT" ;;
  match kvs !! (rank, key) with
  | None => Err (AssertFailed "was not found in the post-barrier KVS snapshot")
  | Some value => LCI_Assert (length value <? STRING_LIMIT)%nat "getname value exceeds LCT_PMI_STRING_LIMIT" ;; Ok value
  end.

Section Job.
(** The clients, and their ranks in the order they joined. *)
Variables (n : nat) (order : list nat).

Inductive job_step : job -> job -> Prop :=
  | j_publish0 k v pending s :
      sv_pc s = SRun -> publish k v (sv_pending s) = Ok pending ->
      job_step s (set_server pending (sv_kvs s) SRun (sv_hist s) s)
  | j_publish i k v pending s :
      (i < n)%nat -> cl_pc (clients s i) = CRun -> publish k v (cl_pending (clients s i)) = Ok pending ->
      job_step s (set_client i (mk_client pending (cl_kvs (clients s i)) CRun (cl_hist (clients s i))) s)
  | j_enter i s :
      (i < n)%nat -> cl_pc (clients s i) = CRun ->
      job_step s (let c := clients s i in
        set_client i (mk_client (cl_pending c) (cl_kvs c) (CSend (barrier_msgs (S i) (cl_pending c))) (cl_hist c ++ [cl_pending c])) s)
  | j_send i m todo s :
      (i < n)%nat -> cl_pc (clients s i) = CSend (m :: todo) ->
      job_step s (let c := clients s i in
        set_up i (up s i ++ [m]) (set_client i (mk_client (cl_pending c) (cl_kvs c) (CSend todo) (cl_hist c)) s))
  | j_sent i s :
      (i < n)%nat -> cl_pc (clients s i) = CSend [] ->
      job_step s (let c := clients s i in set_client i (mk_client (cl_pending c) (cl_kvs c) CWait (cl_hist c)) s)
  | j_recv i m rest pc s :
      (i < n)%nat -> down s i = m :: rest -> client_handle (S n) m (cl_pc (clients s i)) = Ok pc ->
      job_step s (let c := clients s i in
        set_down i rest (set_client i (mk_client (cl_pending c) (cl_kvs c) pc (cl_hist c)) s))
  | j_leave i got s :
      (i < n)%nat -> cl_pc (clients s i) = CRecv 0 got ->
      job_step s (set_client i (mk_client ∅ got CRun (cl_hist (clients s i))) s)
  | j_enter0 s :
      sv_pc s = SRun ->
      job_step s (set_server ∅ (apply_pending (sv_pending s) (sv_kvs s)) (SLoop (fun _ => false)) (sv_hist s ++ [sv_pending s]) s)
  | j_serve i m rest kvs a arrived s :
      (i < n)%nat -> sv_pc s = SLoop arrived -> arrived i = false -> up s i = m :: rest ->
      server_handle (S i) m (sv_kvs s) = Ok (kvs, a) ->
      job_step s (set_up i rest (set_server (sv_pending s) kvs (SLoop (<[i := a]> arrived)) (sv_hist s) s))
  | j_answer arrived s :
      sv_pc s = SLoop arrived -> (forall i, (i < n)%nat -> arrived i = true) -> Z.of_nat (size (sv_kvs s)) <= UINT32_MAX ->
      job_step s (set_server (sv_pending s) (sv_kvs s)
                    (SSend (concat ((fun rank => pair rank <$> snapshot_msgs (sv_kvs s)) <$> order))) (sv_hist s) s)
  | j_send0 i m todo s :
      sv_pc s = SSend ((S i, m) :: todo) ->
      job_step s (set_down i (down s i ++ [m]) (set_server (sv_pending s) (sv_kvs s) (SSend todo) (sv_hist s) s))
  | j_leave0 s : sv_pc s = SSend [] -> job_step s (set_server (sv_pending s) (sv_kvs s) SRun (sv_hist s) s).

(** ** What a snapshot holds *)

(** The entries a rank took into its barriers. *)
Definition hist_of (s : job) (rank : nat) : list kv_map := match rank with O => sv_hist s | S i => cl_hist (clients s i) end.
(** The last value that was published for a key before the [j]-th barrier. *)
Definition value_at (h : list kv_map) (j : nat) (k : list Z) : option (list Z) :=
  foldl (fun acc m => m !! k ∪ acc) None (take j h).
Definition represents (s : job) (kvs : snapshot) (j : nat) : Prop :=
  forall r k, kvs !! (r, k) = if (r <=? n)%nat then value_at (hist_of s r) j k else None.

Lemma value_at_app (h h' : list kv_map) (j : nat) (k : list Z) : (j <= length h)%nat -> value_at (h ++ h') j k = value_at h j k.
Proof. intros H. unfold value_at. by rewrite take_app_le. Qed.
Lemma value_at_S (h : list kv_map) (j : nat) (m : kv_map) (k : list Z) : h !! j = Some m -> value_at h (S j) k = m !! k ∪ value_at h j k.
Proof. intros H. unfold value_at. by rewrite (take_S_r _ _ m H), foldl_app. Qed.
Lemma value_at_in (h : list kv_map) (j : nat) (k v : list Z) : value_at h j k = Some v -> exists m, m ∈ h /\ m !! k = Some v.
Proof.
  revert v. induction j as [|j IH]; intros v H; [by unfold value_at in H; rewrite take_0 in H|].
  destruct (h !! j) as [m|] eqn:E.
  - rewrite (value_at_S _ _ _ _ E) in H. destruct (m !! k) as [v'|] eqn:F.
    + exists m. split; [by apply list_elem_of_lookup_2 in E|]. by destruct (value_at h j k); cbn in H; simplify_eq.
    + apply IH. by destruct (value_at h j k).
  - apply IH. unfold value_at in *. apply lookup_ge_None in E. by rewrite take_ge in H |- * by lia.
Qed.

(** The messages of a list that go to a rank. *)
Definition msgs_for (rank : nat) (todo : list (nat * wire_msg_t)) : list wire_msg_t :=
  (filter (fun p : nat * wire_msg_t => p.1 = rank) todo).*2.
Lemma msgs_for_pairs (rank r : nat) (l : list wire_msg_t) : msgs_for rank (pair r <$> l) = if bool_decide (r = rank) then l else [].
Proof.
  unfold msgs_for. induction l as [|m l IH]; [cbn; by case_bool_decide|]. rewrite fmap_cons.
  case_bool_decide as E; [rewrite filter_cons_True by done; by rewrite fmap_cons, IH|by rewrite filter_cons_False].
Qed.
Lemma msgs_for_app (rank : nat) (l l' : list (nat * wire_msg_t)) : msgs_for rank (l ++ l') = msgs_for rank l ++ msgs_for rank l'.
Proof. unfold msgs_for. by rewrite filter_app, fmap_app. Qed.
Lemma msgs_for_answer (rank : nat) (ranks : list nat) (l : list wire_msg_t) :
  NoDup ranks -> msgs_for rank (concat ((fun r => pair r <$> l) <$> ranks)) = if bool_decide (rank ∈ ranks) then l else [].
Proof.
  induction ranks as [|r ranks IH]; intros H; [by case_bool_decide; [set_solver|]|].
  rewrite fmap_cons. cbn [concat]. apply NoDup_cons in H as [H1 H2]. rewrite msgs_for_app, msgs_for_pairs, IH by done.
  repeat case_bool_decide; subst; rewrite ?app_nil_r; try done; set_solver.
Qed.

(** ** Where a client is in round [j] of the barriers *)

(** What rank 0 holds of a rank after [c] of its entries for barrier [j] came in. *)
Definition partial (h : list kv_map) (j : nat) (m : kv_map) (c : nat) (k : list Z) : option (list Z) :=
  (list_to_map (take c (map_to_list m)) : kv_map) !! k ∪ value_at h j k.
(** How far a client is in receiving a snapshot, of which [dm] is still to come. *)
Inductive receiving (kvs : snapshot) (dm : list wire_msg_t) : client_pc -> Prop :=
  | r_sent : dm = snapshot_msgs kvs -> receiving kvs dm (CSend [])
  | r_wait : dm = snapshot_msgs kvs -> receiving kvs dm CWait
  | r_recv p count got :
      (p + count = length (map_to_list kvs))%nat -> got = list_to_map (take p (map_to_list kvs)) ->
      dm = drop p (value_msg <$> map_to_list kvs) -> receiving kvs dm (CRecv count got).
(** A client that rank 0 does not count as arrived in round [j]: [u] is on its way to rank 0, [dm] to
    the client, and rank 0 holds the entries [view] of it. *)
Inductive client_at (R : snapshot -> nat -> Prop) (i j : nat) (view : list Z -> option (list Z)) (c : client_t) (u dm : list wire_msg_t) : Prop :=
  | at_run :
      cl_pc c = CRun -> length (cl_hist c) = j -> u = [] -> dm = [] -> R (cl_kvs c) j ->
      (forall k, view k = value_at (cl_hist c) j k) -> client_at R i j view c u dm
  | at_sending m todo count :
      cl_pc c = CSend todo \/ (cl_pc c = CWait /\ todo = []) -> length (cl_hist c) = S j -> cl_hist c !! j = Some m ->
      u ++ todo = drop count (barrier_msgs (S i) m) -> (count <= length (map_to_list m))%nat -> dm = [] ->
      (forall k, view k = partial (cl_hist c) j m count k) -> client_at R i j view c u dm
  | at_receiving kvs :
      receiving kvs dm (cl_pc c) -> length (cl_hist c) = j -> u = [] -> R kvs j -> Z.of_nat (size kvs) <= UINT32_MAX ->
      (forall k, view k = value_at (cl_hist c) j k) -> client_at R i j view c u dm.
(** One that has arrived. *)
Definition arrived_at (j : nat) (view : list Z -> option (list Z)) (c : client_t) (u dm : list wire_msg_t) : Prop :=
  (cl_pc c = CSend [] \/ cl_pc c = CWait) /\ length (cl_hist c) = S j /\ u = [] /\ dm = [] /\
  (forall k, view k = value_at (cl_hist c) (S j) k).
Definition slot_in (R : snapshot -> nat -> Prop) (arrived : bool) (i j : nat) (view : list Z -> option (list Z)) (c : client_t)
    (u dm : list wire_msg_t) : Prop :=
  if arrived then arrived_at j view c u dm else client_at R i j view c u dm.

Definition small (m : kv_map) : Prop := map_Forall publishable m.
Record job_inv (s : job) (j : nat) (arrived : nat -> bool) (todo : list (nat * wire_msg_t)) : Prop := {
  ji_pc : match sv_pc s with
          | SLoop a => a = arrived /\ todo = [] /\ length (sv_hist s) = S j
          | SRun => arrived = (fun _ => false) /\ todo = [] /\ length (sv_hist s) = j /\ represents s (sv_kvs s) j
          | SSend t => arrived = (fun _ => false) /\ todo = t /\ length (sv_hist s) = j /\ represents s (sv_kvs s) j
          end;
  ji_zero : forall k, sv_kvs s !! (0%nat, k) = value_at (sv_hist s) (length (sv_hist s)) k;
  ji_out : forall r k, (n < r)%nat -> sv_kvs s !! (r, k) = None;
  ji_slot : forall i, (i < n)%nat ->
    slot_in (represents s) (arrived i) i j (fun k => sv_kvs s !! (S i, k)) (clients s i) (up s i) (down s i ++ msgs_for (S i) todo);
  ji_small : forall r, (r <= n)%nat -> Forall small (hist_of s r);
  ji_todo : Forall (fun p : nat * wire_msg_t => p.1 <> 0%nat) todo;
  ji_pending0 : small (sv_pending s);
  ji_pending : forall i, (i < n)%nat -> small (cl_pending (clients s i))
}.

Lemma slot_rounds R a i j view c u dm : slot_in R a i j view c u dm -> (j <= length (cl_hist c))%nat.
Proof. unfold slot_in, arrived_at. destruct a; [intros H; naive_solver lia|]. intros []; lia. Qed.
Lemma inv_rounds s j a t : job_inv s j a t -> forall r, (r <= n)%nat -> (j <= length (hist_of s r))%nat.
Proof.
  intros I [|i] H; cbn.
  - pose proof (ji_pc _ _ _ _ I) as P. destruct (sv_pc s); naive_solver lia.
  - eapply slot_rounds, (ji_slot _ _ _ _ I). lia.
Qed.
Lemma slot_mono (R R' : snapshot -> nat -> Prop) a i j view c u dm :
  (forall kvs, R kvs j -> R' kvs j) -> slot_in R a i j view c u dm -> slot_in R' a i j view c u dm.
Proof. intros M. unfold slot_in. destruct a; [done|]. intros []; [eapply at_run|eapply at_sending|eapply at_receiving]; eauto. Qed.
Lemma slot_view R a i j (view view' : list Z -> option (list Z)) c u dm :
  (forall k, view' k = view k) -> slot_in R a i j view c u dm -> slot_in R a i j view' c u dm.
Proof.
  intros V. unfold slot_in, arrived_at. destruct a; [intros (?&?&?&?&F); repeat split; try done; intros k; by rewrite V|].
  intros []; [eapply at_run|eapply at_sending|eapply at_receiving]; eauto; intros k; rewrite V; auto.
Qed.
(** The rounds that all ranks have entered do not change. *)
Lemma represents_grow s s' kvs j :
  (forall r, (r <= n)%nat -> (j <= length (hist_of s r))%nat) -> (forall r, (r <= n)%nat -> exists l, hist_of s' r = hist_of s r ++ l) ->
  represents s kvs j -> represents s' kvs j.
Proof.
  intros L G H r k. rewrite H. destruct (r <=? n)%nat eqn:E; [|done]. apply Nat.leb_le in E.
  destruct (G r E) as [l ->]. by rewrite value_at_app by auto.
Qed.
(** Entries of ranks of the job, within the limits. *)
Definition all_small (kvs : snapshot) : Prop := map_Forall (fun rk v => (rk.1 <= n)%nat /\ publishable rk.2 v) kvs.
Lemma represents_small s j a t kvs : job_inv s j a t -> represents s kvs j -> all_small kvs.
Proof.
  intros I H [r k] v E. cbn. rewrite H in E. destruct (r <=? n)%nat eqn:F; [|done]. apply Nat.leb_le in F. split; [done|].
  apply value_at_in in E as (m & M & E). pose proof (ji_small _ _ _ _ I r F) as Sm. rewrite Forall_forall in Sm. exact (Sm m M k v E).
Qed.

(** ** Steps of a client *)

Definition client_changed (i : nat) (s s' : job) : Prop :=
  sv_pending s' = sv_pending s /\ sv_kvs s' = sv_kvs s /\ sv_pc s' = sv_pc s /\ sv_hist s' = sv_hist s /\
  forall i', i' <> i -> clients s' i' = clients s i' /\ up s' i' = up s i' /\ down s' i' = down s i'.

Lemma client_step_inv s s' j a t i :
  (i < n)%nat -> job_inv s j a t -> client_changed i s s' -> (exists l, cl_hist (clients s' i) = cl_hist (clients s i) ++ l) ->
  (forall R view mine, (forall kvs, R kvs j -> all_small kvs) -> slot_in R (a i) i j view (clients s i) (up s i) (down s i ++ mine) ->
     slot_in R (a i) i j view (clients s' i) (up s' i) (down s' i ++ mine)) ->
  Forall small (cl_hist (clients s' i)) -> small (cl_pending (clients s' i)) -> job_inv s' j a t.
Proof.
  intros Hi I (C1&C2&C3&C4&C5) G L F P.
  assert (GR : forall r, (r <= n)%nat -> exists l, hist_of s' r = hist_of s r ++ l).
  { intros [|r] _; cbn; [rewrite C4; by exists []; rewrite app_nil_r|]. destruct (decide (r = i)) as [->|E]; [done|].
    destruct (C5 _ E) as [-> _]. by exists []; rewrite app_nil_r. }
  assert (M : forall kvs, represents s kvs j -> represents s' kvs j) by (intros kvs; apply represents_grow; [by eapply inv_rounds|done]).
  split.
  - pose proof (ji_pc _ _ _ _ I) as Q. rewrite C3, C2, C4. destruct (sv_pc s); naive_solver.
  - intros k. rewrite C2, C4. apply (ji_zero _ _ _ _ I).
  - intros r k. rewrite C2. apply (ji_out _ _ _ _ I).
  - intros i' H'. rewrite C2. destruct (decide (i' = i)) as [->|E].
    + eapply slot_mono; [exact M|]. apply L; [intros kvs; by eapply represents_small|]. by apply (ji_slot _ _ _ _ I).
    + destruct (C5 _ E) as (->&->&->). eapply slot_mono; [exact M|]. by apply (ji_slot _ _ _ _ I).
  - intros [|r] Hr; cbn; [rewrite C4; apply (ji_small _ _ _ _ I 0%nat); lia|].
    destruct (decide (r = i)) as [->|E]; [done|]. destruct (C5 _ E) as [-> _]. by apply (ji_small _ _ _ _ I (S r)).
  - apply (ji_todo _ _ _ _ I).
  - rewrite C1. apply (ji_pending0 _ _ _ _ I).
  - intros i' H'. destruct (decide (i' = i)) as [->|E]; [done|]. destruct (C5 _ E) as [-> _]. by apply (ji_pending _ _ _ _ I).
Qed.

Lemma publish_small k v m m' : small m -> publish k v m = Ok m' -> small m'.
Proof.
  unfold publish. intros H E. apply bind_Ok in E as (u & E1 & E2). apply LCI_Assert_Ok in E1. injection E2 as <-.
  apply andb_prop in E1 as [E1 E2]. apply Nat.ltb_lt in E1, E2. by apply map_Forall_insert_2.
Qed.

Lemma list_to_map_take_S {K A} `{Countable K} (m : gmap K A) (p : nat) (kv : K * A) :
  map_to_list m !! p = Some kv ->
  (list_to_map (take (S p) (map_to_list m)) : gmap K A) = <[kv.1 := kv.2]> (list_to_map (take p (map_to_list m))).
Proof.
  intros E. rewrite (take_S_r _ _ kv E). destruct kv as [k x]. apply list_to_map_snoc.
  pose proof (NoDup_fst_map_to_list m) as N. rewrite <- (take_drop_middle _ _ _ E) in N. rewrite fmap_app, fmap_cons in N.
  apply NoDup_app in N as (_ & N & _). intros F. apply (N _ F). apply list_elem_of_here.
Qed.

Lemma publish_slot R a i j view c u dm pending :
  cl_pc c = CRun -> slot_in R a i j view c u dm -> slot_in R a i j view (mk_client pending (cl_kvs c) CRun (cl_hist c)) u dm.
Proof.
  intros E. unfold slot_in, arrived_at. destruct a; [rewrite E; naive_solver|].
  intros [|? ? ? [F|[F _]]|kvs V]; [by apply at_run|congruence|congruence|]. rewrite E in V. inversion V.
Qed.
Lemma enter_slot R a i j view c u dm :
  cl_pc c = CRun -> slot_in R a i j view c u dm ->
  slot_in R a i j view (mk_client (cl_pending c) (cl_kvs c) (CSend (barrier_msgs (S i) (cl_pending c))) (cl_hist c ++ [cl_pending c])) u dm.
Proof.
  intros E. unfold slot_in, arrived_at. destruct a; [rewrite E; naive_solver|].
  intros [_ L -> -> _ V|? ? ? [F|[F _]]|kvs V]; [|congruence|congruence|rewrite E in V; inversion V].
  apply (at_sending _ _ _ _ _ _ _ (cl_pending c) (barrier_msgs (S i) (cl_pending c)) 0); cbn; auto with lia.
  - rewrite length_app. cbn. lia.
  - rewrite lookup_app_r by lia. by rewrite L, Nat.sub_diag.
  - intros k. unfold partial. rewrite V, value_at_app by lia. rewrite take_0, list_to_map_nil, lookup_empty. by destruct (value_at _ _ _).
Qed.
Lemma send_slot R a i j view c u dm m todo :
  cl_pc c = CSend (m :: todo) -> slot_in R a i j view c u dm ->
  slot_in R a i j view (mk_client (cl_pending c) (cl_kvs c) (CSend todo) (cl_hist c)) (u ++ [m]) dm.
Proof.
  intros E. unfold slot_in, arrived_at. destruct a; [rewrite E; naive_solver|].
  intros [|x todo' count [F|[F _]] L H D|kvs V]; [congruence| |congruence|rewrite E in V; inversion V].
  assert (todo' = m :: todo) as -> by congruence.
  apply (at_sending _ _ _ _ _ _ _ x todo count); cbn; auto. by rewrite <- app_assoc.
Qed.
Lemma sent_slot R a i j view c u dm :
  cl_pc c = CSend [] -> slot_in R a i j view c u dm -> slot_in R a i j view (mk_client (cl_pending c) (cl_kvs c) CWait (cl_hist c)) u dm.
Proof.
  intros E. unfold slot_in, arrived_at. destruct a; [cbn; naive_solver|].
  intros [|x todo' count [F|[F _]] L H D|kvs V]; [congruence| |congruence|].
  - assert (todo' = []) as -> by congruence. apply (at_sending _ _ _ _ _ _ _ x [] count); cbn; auto.
  - apply (at_receiving _ _ _ _ _ _ _ kvs); cbn; auto. rewrite E in V. inversion V; subst. by apply r_wait.
Qed.
Lemma leave_slot R a i j view c u dm got :
  cl_pc c = CRecv 0 got -> slot_in R a i j view c u dm -> slot_in R a i j view (mk_client ∅ got CRun (cl_hist c)) u dm.
Proof.
  intros E. unfold slot_in, arrived_at. destruct a; [rewrite E; naive_solver|].
  intros [|? ? ? [F|[F _]]|kvs V]; [congruence|congruence|congruence|]. rewrite E in V. inversion V as [| |p ? ? P G D]; subst.
  rewrite Nat.add_0_r in P. subst p. apply at_run; cbn; auto.
  - by rewrite drop_ge by (rewrite length_fmap; lia).
  - by rewrite take_ge, list_to_map_to_list by lia.
Qed.

(** ** Messages that arrive *)

Lemma lookup_drop_cons {A} (l : list A) (p : nat) (x : A) (r : list A) : drop p l = x :: r -> l !! p = Some x /\ drop (S p) l = r.
Proof.
  intros E. split.
  - rewrite <- (Nat.add_0_r p), <- lookup_drop, E. done.
  - rewrite <- Nat.add_1_r, <- drop_drop, E. done.
Qed.
Lemma fits_true m : fits m = true <-> publishable (wm_key m) (wm_value m).
Proof. unfold fits, publishable. rewrite andb_true_iff, !Nat.ltb_lt. done. Qed.

Lemma recv_slot R a i j view c u m dm :
  (forall kvs, R kvs j -> all_small kvs) ->
  slot_in R a i j view c u (m :: dm) -> cl_pc c <> CSend [] ->
  exists pc, client_handle (S n) m (cl_pc c) = Ok pc /\ slot_in R a i j view (mk_client (cl_pending c) (cl_kvs c) pc (cl_hist c)) u dm.
Proof.
  intros K. unfold slot_in, arrived_at. destruct a; [naive_solver|]. intros [| |kvs V L -> HR B F] NS; [done|done|].
  inversion V as [D E|D E|p count got P G D E]; [by rewrite <- E in NS| |].
  - unfold snapshot_msgs in D. injection D as -> ->. eexists. split; [reflexivity|].
    apply (at_receiving _ _ _ _ _ _ _ kvs); cbn; auto. apply (r_recv _ _ 0); rewrite ?Nat2Z.id, ?drop_0, ?take_0, ?length_map_to_list; done.
  - symmetry in D. apply lookup_drop_cons in D as [D1 D2]. apply list_lookup_fmap_Some in D1 as ([[r k] v] & -> & D1).
    assert (p < length (map_to_list kvs))%nat by (eapply lookup_lt_Some; exact D1). destruct count as [|count]; [lia|].
    destruct (K _ HR (r, k) v) as [K1 K2]; [by apply elem_of_map_to_list, list_elem_of_lookup_2 with p|]. cbn in K1, K2.
    cbn [client_handle recv_record wm_type value_msg]. rewrite (proj2 (fits_true (value_msg (r, k, v))) K2).
    cbn [wm_rank value_msg fst snd]. rewrite (proj2 (Z.leb_le 0 (Z.of_nat r))), (proj2 (Z.ltb_lt (Z.of_nat r) (Z.of_nat (S n)))) by lia.
    cbn. eexists. split; [reflexivity|]. apply (at_receiving _ _ _ _ _ _ _ kvs); cbn; auto. apply (r_recv _ _ (S p)); [lia| |done].
    rewrite (list_to_map_take_S _ _ _ D1), Nat2Z.id, <- G. done.
Qed.

Lemma serve_slot (R : snapshot -> nat -> Prop) (i j : nat) (kvs : snapshot) (c : client_t) (m : wire_msg_t) (u dm : list wire_msg_t) :
  Forall small (cl_hist c) -> slot_in R false i j (fun k => kvs !! (S i, k)) c (m :: u) dm ->
  exists kvs' a, server_handle (S i) m kvs = Ok (kvs', a) /\ slot_in R a i j (fun k => kvs' !! (S i, k)) c u dm /\
    (forall r k, r <> S i -> kvs' !! (r, k) = kvs !! (r, k)).
Proof.
  intros Sm. cbn [slot_in]. intros [|x todo count P L H D C -> V|]; [done| |done].
  symmetry in D. unfold barrier_msgs in D. cbn in D. apply lookup_drop_cons in D as [D1 D2].
  destruct (decide (count = length (map_to_list x))) as [->|N].
  - rewrite lookup_app_r in D1 by (by rewrite length_fmap). rewrite length_fmap, Nat.sub_diag in D1. injection D1 as <-.
    rewrite drop_ge in D2 by (rewrite length_app, length_fmap; cbn; lia). symmetry in D2. apply app_nil in D2 as [-> ->].
    exists kvs, true. unfold server_handle. cbn [wm_type barrier_msg wm_rank]. rewrite Z.eqb_refl. split; [done|]. split; [|done].
    repeat split; [naive_solver|done|]. intros k. rewrite V. unfold partial. rewrite take_ge, list_to_map_to_list by lia.
    by rewrite (value_at_S _ _ _ _ H).
  - assert (Hc : (count < length (map_to_list x))%nat) by lia. rewrite lookup_app_l in D1 by (by rewrite length_fmap).
    apply list_lookup_fmap_Some in D1 as ([k v] & -> & D1).
    assert (K : publishable k v).
    { rewrite Forall_forall in Sm. apply (Sm x); [by eapply list_elem_of_lookup_2|]. by apply elem_of_map_to_list, list_elem_of_lookup_2 with count. }
    exists (<[(S i, k) := v]> kvs), false. unfold server_handle, store_remote_publish. cbn [wm_type publish_msg wm_rank wm_key wm_value fst snd].
    rewrite Z.eqb_refl, (proj2 (fits_true (publish_msg (S i) (k, v))) K). split; [done|].
    split; [|intros r k' Hr; apply lookup_insert_ne; congruence].
    apply (at_sending _ _ _ _ _ _ _ x todo (S count)); auto. intros k'. unfold partial.
    rewrite (list_to_map_take_S _ _ _ D1). cbn [fst snd]. destruct (decide (k' = k)) as [->|Nk].
    + rewrite !lookup_insert_eq. by destruct (value_at _ _ _).
    + rewrite !lookup_insert_ne by congruence. apply V.
Qed.

(** ** All steps *)

Hypothesis order_nodup : NoDup order.
Hypothesis order_nonzero : 0%nat ∉ order.
Hypothesis order_all : forall i, (i < n)%nat -> S i ∈ order.

Lemma apply_pending_lookup (l : list (list Z * list Z)) (kvs : snapshot) (r : nat) (k : list Z) :
  foldr (fun kv kvs => <[(0%nat, kv.1) := kv.2]> kvs) kvs l !! (r, k)
  = if decide (r = 0%nat) then (list_to_map l : kv_map) !! k ∪ kvs !! (r, k) else kvs !! (r, k).
Proof.
  induction l as [|[k' v] l IH]; cbn [foldr fst snd].
  - rewrite list_to_map_nil, lookup_empty. case_decide; [|done]. by destruct (kvs !! _).
  - rewrite list_to_map_cons. destruct (decide (r = 0%nat)) as [->|N]; [|rewrite lookup_insert_ne by congruence; by rewrite IH].
    destruct (decide (k' = k)) as [->|Nk].
    + rewrite !lookup_insert_eq. by destruct (kvs !! _).
    + rewrite !lookup_insert_ne by congruence. by rewrite IH.
Qed.

Lemma client_inv s s' j a t i :
  (i < n)%nat -> job_inv s j a t -> client_changed i s s' ->
  cl_hist (clients s' i) = cl_hist (clients s i) -> small (cl_pending (clients s' i)) ->
  (forall R view mine, (forall kvs, R kvs j -> all_small kvs) -> slot_in R (a i) i j view (clients s i) (up s i) (down s i ++ mine) ->
     slot_in R (a i) i j view (clients s' i) (up s' i) (down s' i ++ mine)) -> job_inv s' j a t.
Proof.
  intros Hi I C H P L. apply (client_step_inv s s' j a t i); auto.
  - exists []. by rewrite app_nil_r.
  - rewrite H. by apply (ji_small _ _ _ _ I (S i)).
Qed.

Lemma enter0_inv s j a t :
  sv_pc s = SRun -> job_inv s j a t ->
  job_inv (set_server ∅ (apply_pending (sv_pending s) (sv_kvs s)) (SLoop (fun _ => false)) (sv_hist s ++ [sv_pending s]) s) j a t.
Proof.
  intros E I. pose proof (ji_pc _ _ _ _ I) as P. rewrite E in P. destruct P as (-> & -> & L & RP).
  assert (LK : forall r k, apply_pending (sv_pending s) (sv_kvs s) !! (r, k)
    = if decide (r = 0%nat) then sv_pending s !! k ∪ sv_kvs s !! (r, k) else sv_kvs s !! (r, k)).
  { intros r k. unfold apply_pending. rewrite apply_pending_lookup. by rewrite list_to_map_to_list. }
  split; cbn [set_server sv_pending sv_kvs sv_pc sv_hist clients up down].
  - rewrite length_app. cbn. repeat split; lia.
  - intros k. rewrite LK. cbn. rewrite length_app. cbn. rewrite Nat.add_1_r, (value_at_S _ _ (sv_pending s)).
    + rewrite value_at_app by done. by rewrite (ji_zero _ _ _ _ I).
    + by rewrite lookup_app_r, Nat.sub_diag by done.
  - intros r k H. rewrite LK, decide_False by lia. by apply (ji_out _ _ _ _ I).
  - intros i Hi. eapply slot_view; [intros k; rewrite LK; reflexivity|]. eapply slot_mono; [|by apply (ji_slot _ _ _ _ I)].
    intros kvs. apply represents_grow; [by eapply inv_rounds|]. intros [|r] _; cbn; [by eexists|]. by exists []; rewrite app_nil_r.
  - intros [|r] H; cbn; [|by apply (ji_small _ _ _ _ I (S r))]. apply Forall_app. split; [apply (ji_small _ _ _ _ I 0%nat); lia|].
    constructor; [|done]. apply (ji_pending0 _ _ _ _ I).
  - constructor.
  - apply map_Forall_empty.
  - apply (ji_pending _ _ _ _ I).
Qed.

Lemma serve_inv s j a t i m rest kvs b arrived :
  (i < n)%nat -> sv_pc s = SLoop arrived -> arrived i = false -> up s i = m :: rest -> server_handle (S i) m (sv_kvs s) = Ok (kvs, b) ->
  job_inv s j a t -> job_inv (set_up i rest (set_server (sv_pending s) kvs (SLoop (<[i := b]> arrived)) (sv_hist s) s)) j (<[i := b]> arrived) t.
Proof.
  intros Hi E A U H I. pose proof (ji_pc _ _ _ _ I) as P. rewrite E in P. destruct P as (<- & -> & L).
  pose proof (ji_slot _ _ _ _ I i Hi) as Sl. rewrite A, U in Sl.
  apply serve_slot in Sl as (kvs' & b' & H' & Sl & O); [|by apply (ji_small _ _ _ _ I (S i))].
  assert (kvs' = kvs) as -> by congruence. assert (b' = b) as -> by congruence.
  split; cbn [set_up set_server sv_pending sv_kvs sv_pc sv_hist clients up down].
  - done.
  - intros k. rewrite O by done. apply (ji_zero _ _ _ _ I).
  - intros r k Hr. rewrite O by lia. by apply (ji_out _ _ _ _ I).
  - intros i' Hi'. destruct (decide (i' = i)) as [->|N]; [by rewrite !fn_lookup_insert|].
    rewrite !fn_lookup_insert_ne by done. eapply slot_view; [intros k; rewrite O by congruence; reflexivity|].
    by apply (ji_slot _ _ _ _ I).
  - apply (ji_small _ _ _ _ I).
  - constructor.
  - apply (ji_pending0 _ _ _ _ I).
  - apply (ji_pending _ _ _ _ I).
Qed.

Lemma answer_inv s j a t arrived :
  sv_pc s = SLoop arrived -> (forall i, (i < n)%nat -> arrived i = true) -> Z.of_nat (size (sv_kvs s)) <= UINT32_MAX -> job_inv s j a t ->
  let todo := concat ((fun rank => pair rank <$> snapshot_msgs (sv_kvs s)) <$> order) in
  job_inv (set_server (sv_pending s) (sv_kvs s) (SSend todo) (sv_hist s) s) (S j) (fun _ => false) todo.
Proof.
  intros E A B I todo. pose proof (ji_pc _ _ _ _ I) as P. rewrite E in P. destruct P as (<- & -> & L).
  assert (Sl : forall i, (i < n)%nat -> arrived_at j (fun k => sv_kvs s !! (S i, k)) (clients s i) (up s i) (down s i ++ [])).
  { intros i Hi. pose proof (ji_slot _ _ _ _ I i Hi) as Sl. by rewrite (A i Hi) in Sl. }
  assert (RP : represents s (sv_kvs s) (S j)).
  { intros r k. destruct (r <=? n)%nat eqn:Hr; [|apply (ji_out _ _ _ _ I); by apply Nat.leb_gt in Hr].
    apply Nat.leb_le in Hr. destruct r as [|i]; cbn; [by rewrite (ji_zero _ _ _ _ I), L|]. apply (Sl i). lia. }
  split; cbn [set_server sv_pending sv_kvs sv_pc sv_hist clients up down]; try apply I; try done.
  2: { apply Forall_concat, Forall_fmap, Forall_forall. intros r Hr.
       apply Forall_fmap, Forall_forall. intros x _ F. cbn in F. by subst r. }
  intros i Hi. destruct (Sl i Hi) as (PC & LH & -> & D & V). rewrite app_nil_r in D. rewrite D. cbn [app slot_in].
  unfold todo. rewrite msgs_for_answer, bool_decide_true by auto.
  apply (at_receiving _ _ _ _ _ _ _ (sv_kvs s)); auto. destruct PC as [-> | ->]; [by apply r_sent|by apply r_wait].
Qed.

Lemma send0_inv s j a t i m todo :
  sv_pc s = SSend ((S i, m) :: todo) -> job_inv s j a t ->
  job_inv (set_down i (down s i ++ [m]) (set_server (sv_pending s) (sv_kvs s) (SSend todo) (sv_hist s) s)) j a todo.
Proof.
  intros E I. pose proof (ji_pc _ _ _ _ I) as P. rewrite E in P. destruct P as (-> & -> & L & RP).
  split; cbn [set_down set_server sv_pending sv_kvs sv_pc sv_hist clients up down]; try apply I; try done.
  2: { pose proof (ji_todo _ _ _ _ I) as T. by apply Forall_cons in T as [_ T]. }
  intros i' Hi. pose proof (ji_slot _ _ _ _ I i' Hi) as Sl. unfold msgs_for in *. destruct (decide (i' = i)) as [->|N].
  - rewrite fn_lookup_insert. rewrite filter_cons_True, fmap_cons in Sl by done. by rewrite <- app_assoc.
  - rewrite fn_lookup_insert_ne by done. by rewrite filter_cons_False in Sl by (cbn; congruence).
Qed.

Local Ltac changed := repeat split; cbn; rewrite ?fn_lookup_insert_ne by done; done.
Local Ltac at_client I i := eapply (client_inv _ _ _ _ _ i); [done|exact I|changed|cbn; by rewrite fn_lookup_insert|cbn; rewrite fn_lookup_insert; cbn|
  intros R view mine HR; cbn; rewrite ?fn_lookup_insert; cbn].
Lemma job_step_inv s s' j a t : job_inv s j a t -> job_step s s' -> exists j' a' t', job_inv s' j' a' t'.
Proof.
  intros I St. destruct St as [k v p s E Pu|i k v p s Hi E Pu|i s Hi E|i m todo s Hi E|i s Hi E|i m rest pc s Hi D H|i got s Hi E|s E
    |i m rest kvs b arr s Hi E A U H|arr s E A B|i m todo s E|s E].
  - exists j, a, t. pose proof (ji_pc _ _ _ _ I) as P. rewrite E in P.
    split; cbn [set_server sv_pending sv_kvs sv_pc sv_hist clients up down]; try apply I; try done.
    eapply publish_small; [|done]. apply (ji_pending0 _ _ _ _ I).
  - exists j, a, t. at_client I i; [eapply publish_small; [|done]; by apply (ji_pending _ _ _ _ I)|by apply publish_slot].
  - exists j, a, t. apply (client_step_inv s _ _ _ _ i); [done|exact I|changed| | | |]; cbn; rewrite fn_lookup_insert; cbn.
    + by eexists.
    + intros R view mine _. by apply enter_slot.
    + apply Forall_app. split; [by apply (ji_small _ _ _ _ I (S i))|]. constructor; [|done]. by apply (ji_pending _ _ _ _ I).
    + by apply (ji_pending _ _ _ _ I).
  - exists j, a, t. at_client I i; [by apply (ji_pending _ _ _ _ I)|by apply send_slot].
  - exists j, a, t. at_client I i; [by apply (ji_pending _ _ _ _ I)|by apply sent_slot].
  - exists j, a, t. at_client I i; [by apply (ji_pending _ _ _ _ I)|]. rewrite D. intros Sl.
    apply recv_slot in Sl as (pc' & H' & Sl); [|done|by intros F; rewrite F in H]. by assert (pc' = pc) as -> by congruence.
  - exists j, a, t. at_client I i; [apply map_Forall_empty|by apply leave_slot].
  - exists j, a, t. by apply enter0_inv.
  - exists j, (<[i := b]> arr), t. by apply (serve_inv s j a t i m).
  - eexists _, _, _. by eapply answer_inv.
  - exists j, a, todo. by apply (send0_inv s j a t).
  - exists j, a, t. pose proof (ji_pc _ _ _ _ I) as P. rewrite E in P.
    split; cbn [set_server sv_pending sv_kvs sv_pc sv_hist clients up down]; try apply I; naive_solver.
Qed.
Lemma job_new_inv : job_inv job_new 0 (fun _ => false) [].
Proof.
  assert (RP : represents job_new ∅ 0) by (intros r k; rewrite lookup_empty; by case_match).
  split; cbn; try done.
  - intros i Hi. by apply at_run.
  - intros [|r] _; constructor.
Qed.
Lemma reachable_inv s : rtc job_step job_new s -> exists j a t, job_inv s j a t.
Proof.
  intros H. revert s H. apply rtc_ind_r; [by eexists _, _, _; apply job_new_inv|].
  intros s s' _ St (j & a & t & I). by eapply job_step_inv.
Qed.

(** ** What is read *)

Definition fenced (s : job) (kvs : snapshot) (j : nat) : Prop :=
  forall r, (r <= n)%nat -> (j <= length (hist_of s r))%nat /\
    forall key, (length key < STRING_LIMIT)%nat ->
      match value_at (hist_of s r) j key with
      | Some v => getname (S n) r key kvs = Ok v
      | None => getname (S n) r key kvs = Err (AssertFailed "was not found in the post-barrier KVS snapshot")
      end.
Lemma represents_fenced s j a t kvs : job_inv s j a t -> represents s kvs j -> fenced s kvs j.
Proof.
  intros I RP r Hr. split; [by eapply inv_rounds|]. intros key Hk. pose proof (RP r key) as E. rewrite (proj2 (Nat.leb_le r n) Hr) in E.
  unfold getname. rewrite (proj2 (Nat.ltb_lt r (S n))), (proj2 (Nat.ltb_lt (length key) STRING_LIMIT)), E by lia. cbn [LCI_Assert mbind result_bind].
  destruct (value_at _ _ _) as [v|] eqn:F; [|done].
  destruct (represents_small _ _ _ _ _ I RP (r, key) v E) as [_ [_ V]]. cbn in V. by rewrite (proj2 (Nat.ltb_lt (length v) STRING_LIMIT)).
Qed.
Lemma run_fenced s j a t i :
  job_inv s j a t -> (i < n)%nat -> cl_pc (clients s i) = CRun -> fenced s (cl_kvs (clients s i)) (length (cl_hist (clients s i))).
Proof.
  intros I Hi E. pose proof (ji_slot _ _ _ _ I i Hi) as Sl. unfold slot_in, arrived_at in Sl. destruct (a i); [naive_solver congruence|].
  destruct Sl as [_ -> _ _ RP _|? ? ? [F|[F _]]|kvs V]; [by eapply represents_fenced|congruence|congruence|].
  rewrite E in V. inversion V.
Qed.
Lemma server_fenced s j a t : job_inv s j a t -> sv_pc s = SRun -> fenced s (sv_kvs s) (length (sv_hist s)).
Proof.
  intros I E. pose proof (ji_pc _ _ _ _ I) as P. rewrite E in P. destruct P as (_ & _ & -> & RP). by eapply represents_fenced.
Qed.
Lemma client_accepts s j a t i m rest :
  job_inv s j a t -> (i < n)%nat -> down s i = m :: rest -> cl_pc (clients s i) <> CSend [] ->
  exists pc, client_handle (S n) m (cl_pc (clients s i)) = Ok pc.
Proof.
  intros I Hi D N. pose proof (ji_slot _ _ _ _ I i Hi) as Sl. rewrite D in Sl.
  apply recv_slot in Sl as (pc & H & _); [by exists pc|intros kvs; by eapply represents_small|done].
Qed.
Lemma server_accepts s j a t i m rest arrived :
  job_inv s j a t -> (i < n)%nat -> sv_pc s = SLoop arrived -> arrived i = false -> up s i = m :: rest ->
  exists kvs b, server_handle (S i) m (sv_kvs s) = Ok (kvs, b).
Proof.
  intros I Hi E A U. pose proof (ji_pc _ _ _ _ I) as P. rewrite E in P. destruct P as (<- & -> & _).
  pose proof (ji_slot _ _ _ _ I i Hi) as Sl. rewrite A, U in Sl.
  apply serve_slot in Sl as (kvs & b & H & _); [by exists kvs, b|by apply (ji_small _ _ _ _ I (S i))].
Qed.

(** A rank that does not wait for its program can take a step. *)
Lemma client_progress s j a t i arrived :
  job_inv s j a t -> (i < n)%nat -> sv_pc s = SLoop arrived -> arrived i = false -> cl_pc (clients s i) <> CRun -> exists s', job_step s s'.
Proof.
  intros I Hi E A N. pose proof (ji_pc _ _ _ _ I) as P. rewrite E in P. destruct P as (<- & -> & _).
  pose proof (ji_slot _ _ _ _ I i Hi) as Sl. rewrite A in Sl. cbn [slot_in msgs_for] in Sl.
  destruct (up s i) as [|m rest] eqn:U.
  2: { destruct (server_accepts _ _ _ _ _ _ _ _ I Hi E A U) as (kvs & b & H). eexists. by eapply j_serve. }
  destruct Sl as [C|x todo count C _ _ D F _ _|kvs V _ _ _ _ _]; [done| |].
  - cbn in D. destruct todo as [|m todo].
    + exfalso. apply (f_equal length) in D. rewrite length_drop in D. unfold barrier_msgs in D.
      rewrite length_app, length_fmap in D. cbn in D. lia.
    + destruct C as [C|[_ C]]; [|done]. eexists. by eapply j_send.
  - assert (RC : forall m rest, down s i ++ msgs_for (S i) [] = m :: rest -> cl_pc (clients s i) <> CSend [] -> exists s', job_step s s').
    { intros m rest D C. rewrite app_nil_r in D. destruct (client_accepts _ _ _ _ _ _ _ I Hi D C) as [pc H]. eexists. by eapply j_recv. }
    inversion V as [D C|D C|p count got L G D C].
    + eexists. by eapply j_sent.
    + eapply RC; [exact D|]. by rewrite <- C.
    + destruct count as [|count]; [eexists; by eapply j_leave|]. destruct (drop p (value_msg <$> map_to_list kvs)) as [|m rest] eqn:DR.
      * exfalso. apply (f_equal length) in DR. rewrite length_drop, length_fmap in DR. cbn in DR. lia.
      * eapply RC; [exact D|]. by rewrite <- C.
Qed.
Lemma all_or_one (f : nat -> bool) (m : nat) : (forall i, (i < m)%nat -> f i = true) \/ exists i, (i < m)%nat /\ f i = false.
Proof.
  induction m as [|m [IH|(i & Hi & IH)]]; [left; lia| |right; exists i; split; [lia|done]].
  destruct (f m) eqn:E; [|right; exists m; split; [lia|done]]. left. intros i Hi. destruct (decide (i = m)) as [->|]; [done|apply IH; lia].
Qed.
Lemma barrier_progress s j a t :
  job_inv s j a t -> Z.of_nat (size (sv_kvs s)) <= UINT32_MAX -> sv_pc s <> SRun ->
  (forall i, (i < n)%nat -> cl_pc (clients s i) <> CRun) ->
  exists s', job_step s s'.
Proof.
  intros I B N C.
  assert (Z : forall rank m todo, sv_pc s = SSend ((rank, m) :: todo) -> rank <> 0%nat).
  { intros rank m todo E. pose proof (ji_pc _ _ _ _ I) as P. rewrite E in P. destruct P as (_ & -> & _).
    pose proof (ji_todo _ _ _ _ I) as T. by apply Forall_cons in T as [T _]. }
  destruct (sv_pc s) as [|arrived|[|[[|i] m] todo]] eqn:E; [done| |eexists; by eapply j_leave0|by destruct (Z _ _ _ eq_refl)|eexists; by eapply j_send0].
  destruct (all_or_one arrived n) as [A|(i & Hi & A)]; [eexists; by eapply j_answer|]. apply (client_progress s j a t i arrived); auto.
Qed.
End Job.

Lemma accept_loop_spec nranks hellos seen clients order :
  (forall r, r ∈ seen <-> r = 0%nat \/ r ∈ clients) -> NoDup clients -> (forall r, r ∈ clients -> r ∈ seq 1 (nranks - 1)) ->
  (length clients <= nranks - 1)%nat -> accept_loop nranks hellos seen clients = Ok order -> order ≡ₚ seq 1 (nranks - 1).
Proof.
  revert seen clients. induction hellos as [|h hellos IH]; intros seen clients Hs N R L H; cbn in H;
    destruct (nranks - 1 <=? length clients)%nat eqn:E; try done.
  1,2: assert (clients = order) as -> by congruence; apply Nat.leb_le in E; apply submseteq_length_Permutation;
    [by apply NoDup_submseteq|rewrite length_seq; lia].
  destruct (wm_type h); try done. apply bind_Ok in H as (u1 & H1%LCI_Assert_Ok & H). apply bind_Ok in H as (u2 & H2%LCI_Assert_Ok & H).
  apply andb_prop in H1 as [H1%Z.ltb_lt H1'%Z.ltb_lt]. apply negb_true_iff, bool_decide_eq_false in H2. apply Nat.leb_gt in E.
  rewrite Hs in H2. apply IH in H; [done| | | |].
  - intros r. rewrite elem_of_cons, elem_of_app, list_elem_of_singleton, Hs. tauto.
  - apply NoDup_app. split; [done|]. split; [|apply NoDup_singleton]. intros r Hr ->%list_elem_of_singleton. tauto.
  - intros r. rewrite elem_of_app, list_elem_of_singleton. intros [Hr| ->]; [by apply R|]. apply elem_of_seq. lia.
  - rewrite length_app. cbn. lia.
Qed.
Lemma accepted_order n hellos order :
  accept_rank_clients (S n) hellos = Ok order -> NoDup order /\ (0%nat ∉ order) /\ forall i, (i < n)%nat -> S i ∈ order.
Proof.
  unfold accept_rank_clients. intros H. apply accept_loop_spec in H; cbn.
  - cbn in H. rewrite Nat.sub_0_r in H. rewrite H. split; [apply NoDup_seq|]. split; [rewrite elem_of_seq; lia|]. intros i Hi. rewrite H. apply elem_of_seq. lia.
  - intros r. rewrite list_elem_of_singleton. set_solver.
  - constructor.
  - set_solver.
  - lia.
Qed.

(** ** The fence *)

(** C10: The TCP rendezvous is a put, fence, get store. Whatever the ranks publish and however
    their messages interleave, a rank that is outside a barrier after [j] barriers reads, for
    every rank and key, the last value that rank published before its own [j]-th barrier, and
    the error of [getname] if there is none; all ranks have entered [j] barriers by then. No
    message of a barrier is refused by its receiver. *)
Theorem tcp_fence (n : nat) (hellos : list wire_msg_t) (order : list nat) (s : job) :
  accept_rank_clients (S n) hellos = Ok order -> rtc (job_step n order) job_new s ->
  (forall i, (i < n)%nat -> cl_pc (clients s i) = CRun -> fenced n s (cl_kvs (clients s i)) (length (cl_hist (clients s i)))) /\
  (sv_pc s = SRun -> fenced n s (sv_kvs s) (length (sv_hist s))) /\
  (forall i m rest, (i < n)%nat -> down s i = m :: rest -> cl_pc (clients s i) <> CSend [] ->
     exists pc, client_handle (S n) m (cl_pc (clients s i)) = Ok pc) /\
  (forall i m rest arrived, (i < n)%nat -> sv_pc s = SLoop arrived -> arrived i = false -> up s i = m :: rest ->
     exists kvs a, server_handle (S i) m (sv_kvs s) = Ok (kvs, a)).
Proof.
  intros (N & Z & O)%accepted_order H. destruct (reachable_inv n order N Z O s H) as (j & a & t & I).
  split; [intros; by eapply run_fenced|]. split; [intros; by eapply server_fenced|].
  split; intros; [by eapply client_accepts|by eapply server_accepts].
Qed.

(** No barrier of the TCP rendezvous gets stuck: while all ranks are inside one, some rank can
    send, receive, or leave. *)
Theorem tcp_fence_progress (n : nat) (hellos : list wire_msg_t) (order : list nat) (s : job) :
  accept_rank_clients (S n) hellos = Ok order -> rtc (job_step n order) job_new s -> Z.of_nat (size (sv_kvs s)) <= UINT32_MAX ->
  sv_pc s <> SRun -> (forall i, (i < n)%nat -> cl_pc (clients s i) <> CRun) -> exists s', job_step n order s s'.
Proof.
  intros (N & Z & O)%accepted_order H. destruct (reachable_inv n order N Z O s H) as (j & a & t & I).
  by apply (barrier_progress n order s j a t).
Qed.

(** *** What is on the connections *)

Definition client_msg (rank : nat) (m : wire_msg_t) : Prop :=
  msg_ok m /\ fits m = true /\ wm_rank m = Z.of_nat rank /\ (wm_type m = MSG_PUBLISH \/ wm_type m = MSG_BARRIER).
Definition server_msg (n : nat) (m : wire_msg_t) : Prop :=
  msg_ok m /\ fits m = true /\ (wm_type m = MSG_OK \/ (wm_type m = MSG_VALUE /\ 0 <= wm_rank m <= Z.of_nat n)).

Lemma fits_ok t rank aux k v : is_u32 (msg_code t) -> msg_of_code (msg_code t) = t -> - 2 ^ 31 <= rank < 2 ^ 31 -> is_u32 aux -> publishable k v ->
  msg_ok (mk_wire t rank aux k v) /\ fits (mk_wire t rank aux k v) = true.
Proof.
  intros T1 T2 Hr Ha [Hk Hv]. unfold msg_ok, k_max_wire_string, STRING_LIMIT in *. cbn [wm_type wm_rank wm_aux wm_key wm_value].
  split; [split_and!; try done; lia|]. by apply fits_true.
Qed.
Lemma barrier_msgs_typed r m : Z.of_nat r < 2 ^ 31 -> small m -> Forall (client_msg r) (barrier_msgs r m).
Proof.
  intros Hr Sm. unfold barrier_msgs. apply Forall_app. split.
  - apply Forall_fmap, Forall_forall. intros [k v] H. apply elem_of_map_to_list in H. unfold client_msg. cbn [compose publish_msg fst snd].
    destruct (fits_ok MSG_PUBLISH (Z.of_nat r) 0 k v) as [H1 H2]; try done; [lia|exact (Sm k v H)|]. split_and!; try done. by left.
  - apply Forall_singleton. unfold client_msg, barrier_msg. destruct (fits_ok MSG_BARRIER (Z.of_nat r) 0 [] []) as [H1 H2]; try done; [lia|unfold publishable, STRING_LIMIT; cbn; lia|].
    split_and!; try done. by right.
Qed.
Lemma value_msgs_typed n kvs : Z.of_nat n < 2 ^ 31 -> all_small n kvs -> Forall (server_msg n) (value_msg <$> map_to_list kvs).
Proof.
  intros Hn Sm. apply Forall_fmap, Forall_forall. intros [[r k] v] H. apply elem_of_map_to_list in H. destruct (Sm _ _ H) as [Hr Hp]. cbn in Hr, Hp.
  unfold server_msg, value_msg. cbn [compose fst snd]. destruct (fits_ok MSG_VALUE (Z.of_nat r) 0 k v) as [H1 H2]; try done; [lia|].
  split_and!; try done. right. cbn. split; [done|lia].
Qed.
Lemma snapshot_msgs_typed n kvs : Z.of_nat n < 2 ^ 31 -> Z.of_nat (size kvs) <= UINT32_MAX -> all_small n kvs -> Forall (server_msg n) (snapshot_msgs kvs).
Proof.
  intros Hn Hs Sm. unfold snapshot_msgs. apply Forall_cons. split; [|by apply value_msgs_typed]. unfold server_msg, ok_msg, UINT32_MAX in *.
  destruct (fits_ok MSG_OK 0 (Z.of_nat (size kvs)) [] []) as [H1 H2]; try done; [unfold is_u32; lia|unfold publishable, STRING_LIMIT; cbn; lia|].
  split_and!; try done. by left.
Qed.

(** C36: Every message on a connection of the TCP rendezvous is well formed: from a client only its
    own publications and barrier requests, from rank 0 only the answer and records of ranks of
    the job, all within the limits of the wire format, so that they survive it. *)
Theorem tcp_messages_typed (n : nat) (hellos : list wire_msg_t) (order : list nat) (s : job) (i : nat) :
  Z.of_nat n < 2 ^ 31 - 1 -> accept_rank_clients (S n) hellos = Ok order -> rtc (job_step n order) job_new s -> (i < n)%nat ->
  Forall (client_msg (S i)) (up s i) /\ Forall (server_msg n) (down s i).
Proof.
  intros Hn (N & Z & O)%accepted_order H Hi. destruct (reachable_inv n order N Z O s H) as (j & a & t & I).
  pose proof (ji_slot _ _ _ _ _ I i Hi) as Sl. unfold slot_in in Sl. destruct (a i).
  - destruct Sl as (_ & _ & -> & D & _). apply app_nil in D as [-> _]. done.
  - destruct Sl as [_ _ -> D _ _|m todo c _ _ M E _ D _|kvs V _ -> RP B _].
    + apply app_nil in D as [-> _]. done.
    + apply app_nil in D as [-> _]. split; [|done]. assert (F : Forall (client_msg (S i)) (up s i ++ todo)).
      { rewrite E. apply Forall_drop, barrier_msgs_typed; [lia|]. pose proof (ji_small _ _ _ _ _ I (S i) Hi) as Sm. rewrite Forall_forall in Sm.
        by eapply Sm, list_elem_of_lookup_2. }
      by apply Forall_app in F as [F _].
    + split; [done|]. pose proof (represents_small _ _ _ _ _ _ I RP) as Sm.
      assert (F : Forall (server_msg n) (down s i ++ msgs_for (S i) t)); [|by apply Forall_app in F as [F _]].
      inversion V as [D E|D E|p count got L G D E]; rewrite D.
      * apply snapshot_msgs_typed; [lia|done|done].
      * apply snapshot_msgs_typed; [lia|done|done].
      * apply Forall_drop, value_msgs_typed; [lia|done].
Qed.

(** *** Concrete runs *)

Inductive action : Type :=
  | APublish0 (k v : list Z) | APublish (i : nat) (k v : list Z) | AEnter (i : nat) | ASend (i : nat) | ASent (i : nat) | ARecv (i : nat)
  | ALeave (i : nat) | AEnter0 | AServe (i : nat) | AAnswer | ASend0 | ALeave0.
Definition job_exec (n : nat) (order : list nat) (x : action) (s : job) : option job :=
  match x with
  | APublish0 k v =>
      match sv_pc s, publish k v (sv_pending s) with SRun, Ok p => Some (set_server p (sv_kvs s) SRun (sv_hist s) s) | _, _ => None end
  | APublish i k v =>
      let c := clients s i in
      match cl_pc c, publish k v (cl_pending c) with
      | CRun, Ok p => if (i <? n)%nat then Some (set_client i (mk_client p (cl_kvs c) CRun (cl_hist c)) s) else None
      | _, _ => None
      end
  | AEnter i =>
      let c := clients s i in
      match cl_pc c with
      | CRun => if (i <? n)%nat then Some (set_client i (mk_client (cl_pending c) (cl_kvs c) (CSend (barrier_msgs (S i) (cl_pending c)))
                                                           (cl_hist c ++ [cl_pending c])) s) else None
      | _ => None
      end
  | ASend i =>
      let c := clients s i in
      match cl_pc c with
      | CSend (m :: todo) =>
          if (i <? n)%nat then Some (set_up i (up s i ++ [m]) (set_client i (mk_client (cl_pending c) (cl_kvs c) (CSend todo) (cl_hist c)) s)) else None
      | _ => None
      end
  | ASent i =>
      let c := clients s i in
      match cl_pc c with
      | CSend [] => if (i <? n)%nat then Some (set_client i (mk_client (cl_pending c) (cl_kvs c) CWait (cl_hist c)) s) else None
      | _ => None
      end
  | ARecv i =>
      let c := clients s i in
      match down s i with
      | m :: rest =>
          match client_handle (S n) m (cl_pc c) with
          | Ok pc => if (i <? n)%nat then Some (set_down i rest (set_client i (mk_client (cl_pending c) (cl_kvs c) pc (cl_hist c)) s)) else None
          | Err _ => None
          end
      | [] => None
      end
  | ALeave i =>
      match cl_pc (clients s i) with
      | CRecv 0 got => if (i <? n)%nat then Some (set_client i (mk_client ∅ got CRun (cl_hist (clients s i))) s) else None
      | _ => None
      end
  | AEnter0 =>
      match sv_pc s with
      | SRun => Some (set_server ∅ (apply_pending (sv_pending s) (sv_kvs s)) (SLoop (fun _ => false)) (sv_hist s ++ [sv_pending s]) s)
      | _ => None
      end
  | AServe i =>
      match sv_pc s, up s i with
      | SLoop arrived, m :: rest =>
          match server_handle (S i) m (sv_kvs s) with
          | Ok (kvs, a) =>
              if (i <? n)%nat && negb (arrived i)
              then Some (set_up i rest (set_server (sv_pending s) kvs (SLoop (<[i := a]> arrived)) (sv_hist s) s)) else None
          | Err _ => None
          end
      | _, _ => None
      end
  | AAnswer =>
      match sv_pc s with
      | SLoop arrived =>
          if forallb arrived (seq 0 n) && (Z.of_nat (size (sv_kvs s)) <=? UINT32_MAX)
          then Some (set_server (sv_pending s) (sv_kvs s)
                       (SSend (concat ((fun rank => pair rank <$> snapshot_msgs (sv_kvs s)) <$> order))) (sv_hist s) s)
          else None
      | _ => None
      end
  | ASend0 =>
      match sv_pc s with
      | SSend ((S i, m) :: todo) => Some (set_down i (down s i ++ [m]) (set_server (sv_pending s) (sv_kvs s) (SSend todo) (sv_hist s) s))
      | _ => None
      end
  | ALeave0 => match sv_pc s with SSend [] => Some (set_server (sv_pending s) (sv_kvs s) SRun (sv_hist s) s) | _ => None end
  end.
Fixpoint job_execs (n : nat) (order : list nat) (l : list action) (s : job) : option job :=
  match l with [] => Some s | x :: l => match job_exec n order x s with Some s => job_execs n order l s | None => None end end.

Lemma job_exec_step n order x s s' : job_exec n order x s = Some s' -> job_step n order s s'.
Proof.
  destruct x; cbn [job_exec]; intros H; repeat case_match; simplify_eq;
    repeat match goal with
           | H : andb _ _ = true |- _ => apply andb_prop in H as [? ?]
           | H : (_ <? _)%nat = true |- _ => apply Nat.ltb_lt in H
           | H : negb _ = true |- _ => apply negb_true_iff in H
           | H : (_ <=? _) = true |- _ => apply Z.leb_le in H
           end; try (by econstructor).
  eapply j_answer; [done| |done]. intros i Hi. rewrite forallb_forall in *. apply H, in_seq. lia.
Qed.
Lemma job_execs_run n order l s s' : job_execs n order l s = Some s' -> rtc (job_step n order) s s'.
Proof.
  revert s. induction l as [|x l IH]; intros s H; cbn in H; [by injection H as ->|].
  case_match eqn:E; [|done]. eapply rtc_l; [by eapply job_exec_step|by apply IH].
Qed.

Definition hello1 : wire_msg_t := mk_wire MSG_HELLO 1 0 [] [].
(** One client publishes and both ranks pass a barrier; rank 0 answers, and the client still has to read. *)
Definition run_sent : list action := [APublish 0 [107] [1; 2]; AEnter 0; ASend 0; AEnter0; AServe 0; ASend 0; ASent 0; AServe 0; AAnswer; ASend0; ASend0].
Definition run_done : list action := run_sent ++ [ALeave0; ARecv 0; ARecv 0; ALeave 0].
Definition after (l : list action) : job := default job_new (job_execs 1 [1%nat] l job_new).

Lemma tcp_fence_witness :
  getname 2 1 [107] (cl_kvs (clients (after run_done) 0)) = Ok [1; 2] /\ getname 2 1 [107] (sv_kvs (after run_done)) = Ok [1; 2].
Proof.
  assert (H : rtc (job_step 1 [1%nat]) job_new (after run_done)).
  { apply job_execs_run with run_done. unfold after. destruct (job_execs 1 [1%nat] run_done job_new) eqn:E; [done|]. vm_compute in E. done. }
  destruct (tcp_fence 1 [hello1] [1%nat] (after run_done) eq_refl H) as (C & V & _).
  split.
  - exact (proj2 (C 0%nat Nat.lt_0_1 ltac:(vm_compute; reflexivity) 1%nat ltac:(lia)) [107] ltac:(unfold STRING_LIMIT; cbn; lia)).
  - exact (proj2 (V ltac:(vm_compute; reflexivity) 1%nat ltac:(lia)) [107] ltac:(unfold STRING_LIMIT; cbn; lia)).
Defined.
Lemma tcp_fence_progress_witness : exists s', job_step 1 [1%nat] (after run_sent) s'.
Proof.
  apply (tcp_fence_progress 1 [hello1] [1%nat] (after run_sent)).
  - reflexivity.
  - apply job_execs_run with run_sent. unfold after. destruct (job_execs 1 [1%nat] run_sent job_new) eqn:E; [done|]. vm_compute in E. done.
  - vm_compute. discriminate.
  - vm_compute. discriminate.
  - intros [|i] Hi; [vm_compute; discriminate|lia].
Defined.
Lemma tcp_messages_typed_witness : Forall (client_msg 1) (up (after run_sent) 0) /\ Forall (server_msg 1) (down (after run_sent) 0).
Proof.
  apply (tcp_messages_typed 1 [hello1] [1%nat] (after run_sent) 0).
  - reflexivity.
  - reflexivity.
  - apply job_execs_run with run_sent. unfold after. destruct (job_execs 1 [1%nat] run_sent job_new) eqn:E; [done|]. vm_compute in E. done.
  - lia.
Defined.
