(* ===== verification/PmiFile.v ===== *)
(** * The file rendezvous of LCT's process management

    src/lct/pmi/pmi_wrapper_file.cpp: processes take their ranks from a shared file, pass
    barriers through another and publish in a third. What a process does while it holds the
    lock of a file is one step; so is a read without the lock. *)
From stdpp Require Import base numbers functions list gmap strings relations.
From Stdlib Require Import ZArith Lia.
From S2P Require Import Prelude Text PmiTcp.

(** ** Files *)

(** [read_file]: pieces of sixteen bytes, each turned into a string from a buffer of sixteen
    bytes; a full piece has no terminator. *)
Definition read_file (content : list Z) : result (list Z) :=
  if (length content <? 16)%nat then Ok content else Err (Undefined "string without a terminator").
(** [std::stoi]: the number at the start of a text; it throws if there is none or if it
    does not fit. *)
Definition stoi (l : list Z) : result Z :=
  match strtol l with
  | Some (n, _) => if (- 2 ^ 31 <=? n) && (n <? 2 ^ 31) then Ok n else Err (Thrown "stoi: out of range")
  | None => Err (Thrown "stoi: no conversion")
  end.
(** [find] of a character: what is before it and after it. *)
Fixpoint split_at (c : Z) (l : list Z) : option (list Z * list Z) :=
  match l with
  | [] => None
  | x :: l => if x =? c then Some ([], l) else match split_at c l with Some (a, b) => Some (x :: a, b) | None => None end
  end.

(** The rank that a process reads in the nranks file, and the content it leaves. *)
Definition take_rank (content : list Z) : result (Z * list Z) :=
  content ← read_file content ;
  match content with
  | [] => Ok (0, chars "1")
  | _ => rank ← stoi content ; Ok (rank, print_d (rank + 1))
  end.
(** Tag and count of the barrier file. *)
Definition read_barrier (content : list Z) : result (Z * Z) :=
  content ← read_file content ;
  match split_at 32 content with
  | None => Err (AssertFailed "Error reading file")
  | Some (a, b) => tag ← stoi a ; count ← stoi b ; Ok (tag, count)
  end.
Definition barrier_content (tag count : Z) : list Z := print_d tag ++ 32 :: print_d count.
(** [publish] appends a line. *)
Definition data_line (kv : list Z * list Z) : list Z := kv.1 ++ 32 :: kv.2 ++ [10].
(** [std::getline] until the file ends. *)
Fixpoint lines (line : list Z) (l : list Z) : list (list Z) :=
  match l with
  | [] => match line with [] => [] | _ => [rev line] end
  | c :: l => if c =? 10 then rev line :: lines [] l else lines (c :: line) l
  end.
(** [getname]: the value of the first line with the key. A value that fills the buffer leaves no
    room for its terminator. *)
Fixpoint search_lines (key : list Z) (ls : list (list Z)) : result (list Z) :=
  match ls with
  | [] => Err (AssertFailed "Key not found in file")
  | line :: ls =>
      match split_at 32 line with
      | None => Err (AssertFailed "Error reading line")
      | Some (k, v) =>
          if bool_decide (k = key) then if (length v <? 255)%nat then Ok v else Err (Undefined "value without a terminator")
          else search_lines key ls
      end
  end.
Definition getname (key data : list Z) : result (list Z) := search_lines key (lines [] data).

(** ** The processes of a job *)

(** Not started; with a rank, before everyone has one; outside a barrier, having left some;
    waiting for the tag to change. *)
Inductive fproc : Type := FNew | FAssigned (rank : Z) | FRun (rank left : Z) | FWait (rank left tag : Z).
Record fjob : Type := mk_fjob {
  fj_nranks : list Z; fj_barrier : list Z; fj_data : list Z; fj_procs : list fproc;
  (** What was published, in order. *)
  fj_published : list (list Z * list Z)
}.
Definition set_proc (p : nat) (x : fproc) (j : fjob) : fjob :=
  mk_fjob (fj_nranks j) (fj_barrier j) (fj_data j) (<[p := x]> (fj_procs j)) (fj_published j).
Definition set_nranks (c : list Z) (j : fjob) : fjob := mk_fjob c (fj_barrier j) (fj_data j) (fj_procs j) (fj_published j).
Definition set_barrier (c : list Z) (j : fjob) : fjob := mk_fjob (fj_nranks j) c (fj_data j) (fj_procs j) (fj_published j).
Definition rank_n (j : fjob) : Z := Z.of_nat (length (fj_procs j)).
(** Keys without blanks and line ends, values without line ends. *)
Definition plain (kv : list Z * list Z) : Prop := (32 ∉ kv.1) /\ (10 ∉ kv.1) /\ (10 ∉ kv.2) /\ (length kv.2 < 255)%nat.

Inductive fstep : fjob -> fjob -> Prop :=
  | f_assign p r c j :
      fj_procs j !! p = Some FNew -> take_rank (fj_nranks j) = Ok (r, c) -> r < rank_n j ->
      fstep j (set_nranks c (set_proc p (FAssigned r) j))
  | f_create p r j :
      fj_procs j !! p = Some (FAssigned r) -> r = rank_n j - 1 ->
      fstep j (mk_fjob (chars "0") (chars "0 0") [] (<[p := FRun r 0]> (fj_procs j)) [])
  | f_go p r j :
      fj_procs j !! p = Some (FAssigned r) -> r <> rank_n j - 1 -> read_file (fj_nranks j) = Ok (chars "0") ->
      fstep j (set_proc p (FRun r 0) j)
  | f_publish p r k kv j :
      fj_procs j !! p = Some (FRun r k) ->
      fstep j (mk_fjob (fj_nranks j) (fj_barrier j) (fj_data j ++ data_line kv) (fj_procs j) (fj_published j ++ [kv]))
  | f_last p r k tag count j :
      fj_procs j !! p = Some (FRun r k) -> read_barrier (fj_barrier j) = Ok (tag, count) -> count = rank_n j - 1 ->
      fstep j (set_barrier (barrier_content (tag + 1) 0) (set_proc p (FRun r (k + 1)) j))
  | f_arrive p r k tag count j :
      fj_procs j !! p = Some (FRun r k) -> read_barrier (fj_barrier j) = Ok (tag, count) -> count <> rank_n j - 1 ->
      fstep j (set_barrier (barrier_content tag (count + 1)) (set_proc p (FWait r k tag) j))
  | f_leave p r k tag new_tag count j :
      fj_procs j !! p = Some (FWait r k tag) -> read_barrier (fj_barrier j) = Ok (new_tag, count) -> new_tag <> tag ->
      fstep j (set_proc p (FRun r (k + 1)) j).
(** A directory that is new, or that an earlier job has left. *)
Definition fjob_new (n : nat) (old_barrier old_data : list Z) (fresh : bool) : fjob :=
  mk_fjob (if fresh then [] else chars "0") old_barrier old_data (replicate n FNew) [].

(** ** Numbers and lines in files *)

Lemma while_app p l rest : Forall (fun c => p c = true) l -> (forall c, head rest = Some c -> p c = false) ->
  take_while p (l ++ rest) = l /\ drop_while p (l ++ rest) = rest.
Proof.
  intros Hl Hr. induction Hl as [|c l Hc _ [IH1 IH2]].
  - destruct rest as [|c rest]; [done|]. cbn. by rewrite (Hr c eq_refl).
  - cbn. rewrite Hc. by rewrite IH1, IH2.
Qed.
Lemma strtol_print_d n rest : 0 <= n -> (forall c, head rest = Some c -> is_dec_digit c = false) -> strtol (print_d n ++ rest) = Some (n, rest).
Proof.
  intros Hn Hr. pose proof (print_d_digits n Hn) as Hd. pose proof (read_print_d n Hn) as Hv.
  assert (Hne : print_d n <> []).
  { unfold print_d. rewrite (proj2 (Z.ltb_ge n 0)) by done. apply digits_nonempty. }
  destruct (while_app is_dec_digit (print_d n) rest Hd Hr) as [E1 E2]. destruct (print_d n) as [|c l] eqn:E; [done|].
  apply Forall_cons in Hd as [Hc _]. unfold is_dec_digit in Hc. unfold strtol. change ((c :: l) ++ rest) with (c :: (l ++ rest)) in *.
  assert (Hs : drop_while is_space (c :: (l ++ rest)) = c :: (l ++ rest)) by (cbn; by replace (is_space c) with false by (unfold is_space; lia)).
  rewrite Hs. assert (Hcs : c = 48 \/ c = 49 \/ c = 50 \/ c = 51 \/ c = 52 \/ c = 53 \/ c = 54 \/ c = 55 \/ c = 56 \/ c = 57) by lia.
  clear Hs Hc. destruct Hcs as [Hc|[Hc|[Hc|[Hc|[Hc|[Hc|[Hc|[Hc|[Hc|Hc]]]]]]]]]; subst c; cbv beta iota; rewrite E1, E2; by rewrite Hv.
Qed.
Lemma stoi_print_d n : 0 <= n < 2 ^ 31 -> stoi (print_d n) = Ok n.
Proof.
  intros Hn. unfold stoi. rewrite <- (app_nil_r (print_d n)), strtol_print_d by (done || lia).
  by rewrite (proj2 (Z.leb_le _ _)), (proj2 (Z.ltb_lt _ _)) by lia.
Qed.
Lemma split_at_app c l r : c ∉ l -> split_at c (l ++ c :: r) = Some (l, r).
Proof.
  induction l as [|x l IH]; intros H; cbn.
  - by rewrite Z.eqb_refl.
  - apply not_elem_of_cons in H as [Hx H]. rewrite (proj2 (Z.eqb_neq x c)), IH by done. done.
Qed.
Lemma digits_not c l : is_dec_digit c = false -> Forall (fun c => is_dec_digit c = true) l -> c ∉ l.
Proof. intros Hc Hl H. rewrite Forall_forall in Hl. apply Hl in H. congruence. Qed.
Lemma read_barrier_content tag count : 0 <= tag < 2 ^ 31 -> 0 <= count < 2 ^ 31 -> (length (barrier_content tag count) < 16)%nat ->
  read_barrier (barrier_content tag count) = Ok (tag, count).
Proof.
  intros Ht Hc Hl. unfold read_barrier, read_file. rewrite (proj2 (Nat.ltb_lt _ _) Hl). cbn [mbind result_bind]. unfold barrier_content.
  rewrite split_at_app by (apply digits_not; [done|apply print_d_digits; lia]). by rewrite !stoi_print_d.
Qed.
Lemma lines_app line l rest : 10 ∉ l -> lines line (l ++ 10 :: rest) = (rev line ++ l) :: lines [] rest.
Proof.
  revert line. induction l as [|c l IH]; intros line H; cbn.
  - by rewrite app_nil_r.
  - apply not_elem_of_cons in H as [Hc H]. rewrite (proj2 (Z.eqb_neq c 10)), IH by done. cbn. by rewrite <- app_assoc.
Qed.
Definition text_line (kv : list Z * list Z) : list Z := kv.1 ++ 32 :: kv.2.
Lemma lines_data pub : Forall plain pub -> lines [] (concat (data_line <$> pub)) = text_line <$> pub.
Proof.
  induction pub as [|kv pub IH]; intros H; [done|]. apply Forall_cons in H as [(H1 & H2 & H3 & _) H]. rewrite fmap_cons. cbn [concat].
  unfold data_line at 1. replace ((kv.1 ++ 32 :: kv.2 ++ [10]) ++ concat (data_line <$> pub)) with ((kv.1 ++ 32 :: kv.2) ++ 10 :: concat (data_line <$> pub)).
  - rewrite lines_app.
    + by rewrite IH.
    + rewrite elem_of_app, elem_of_cons. intros [F|[F|F]]; [done|lia|done].
  - rewrite <- !app_assoc. cbn. by rewrite <- app_assoc.
Qed.
(** The first publication of a key. *)
Fixpoint first_value (key : list Z) (pub : list (list Z * list Z)) : option (list Z) :=
  match pub with [] => None | kv :: pub => if bool_decide (kv.1 = key) then Some kv.2 else first_value key pub end.
Lemma getname_first key pub : Forall plain pub ->
  getname key (concat (data_line <$> pub)) = match first_value key pub with Some v => Ok v | None => Err (AssertFailed "Key not found in file") end.
Proof.
  intros H. unfold getname. rewrite lines_data by done. induction H as [|kv pub (H1 & _ & _ & H4) _ IH]; [done|]. rewrite fmap_cons. cbn [search_lines first_value].
  unfold text_line at 1. rewrite split_at_app by done. case_bool_decide; [|done]. by rewrite (proj2 (Nat.ltb_lt _ _) H4).
Qed.

Lemma read_file_inv c c' : read_file c = Ok c' -> c' = c.
Proof. unfold read_file. destruct (_ <? _)%nat; [|done]. congruence. Qed.
Lemma stoi_inv n m : 0 <= n -> stoi (print_d n) = Ok m -> m = n.
Proof.
  intros Hn. unfold stoi. rewrite <- (app_nil_r (print_d n)), strtol_print_d by done. destruct (_ && _); [|done]. congruence.
Qed.
Lemma take_rank_inv c r l : 0 <= c -> take_rank (print_d c) = Ok (r, l) -> r = c /\ l = print_d (c + 1).
Proof.
  intros Hc. unfold take_rank. intros H. apply bind_Ok in H as (x & ->%read_file_inv & H).
  assert (Hne : print_d c <> []) by (unfold print_d; rewrite (proj2 (Z.ltb_ge c 0)) by done; apply digits_nonempty).
  destruct (print_d c) as [|y z] eqn:E; [done|]. rewrite <- E in H. apply bind_Ok in H as (m & H & F). apply stoi_inv in H; [|done].
  split; congruence.
Qed.
Lemma read_barrier_inv t c tag count : 0 <= t -> 0 <= c -> read_barrier (barrier_content t c) = Ok (tag, count) -> tag = t /\ count = c.
Proof.
  intros Ht Hc. unfold read_barrier. intros H. apply bind_Ok in H as (x & ->%read_file_inv & H). unfold barrier_content in H.
  rewrite split_at_app in H by (apply digits_not; [done|by apply print_d_digits]).
  apply bind_Ok in H as (m & H1 & H). apply bind_Ok in H as (m' & H2 & H). apply stoi_inv in H1, H2; [|done..]. split; congruence.
Qed.

(** ** Invariants *)

Definition rank_of (x : fproc) : option Z := match x with FNew => None | FAssigned r | FRun r _ | FWait r _ _ => Some r end.
Definition has_rank (x : fproc) : Z := match x with FNew => 0 | _ => 1 end.
Definition waits (t : Z) (x : fproc) : Z := match x with FWait _ _ tag => if tag =? t then 1 else 0 | _ => 0 end.
Definition distinct_ranks (l : list fproc) : Prop :=
  forall p q x y r, l !! p = Some x -> l !! q = Some y -> rank_of x = Some r -> rank_of y = Some r -> p = q.
Definition ranks_below (n : Z) (l : list fproc) : Prop := forall p x r, l !! p = Some x -> rank_of x = Some r -> 0 <= r < n.
(** Before the last process has set up the files, and after. *)
Definition starting (j : fjob) : Prop :=
  let c := tally has_rank (fj_procs j) in
  (fj_nranks j = print_d c \/ (c = 0 /\ fj_nranks j = []))
  /\ forall p x, fj_procs j !! p = Some x -> x = FNew \/ exists r, x = FAssigned r /\ 0 <= r < c.
Definition proc_ok (n t : Z) (x : fproc) : Prop :=
  match x with
  | FNew => False
  | FAssigned r => r <> n - 1 /\ t = 0
  | FRun _ k => k = t
  | FWait _ k tag => tag = k /\ (k = t \/ k + 1 = t)
  end.
Definition running (t : Z) (j : fjob) : Prop :=
  fj_nranks j = chars "0" /\ 0 <= t
  /\ fj_barrier j = barrier_content t (tally (waits t) (fj_procs j)) /\ tally (waits t) (fj_procs j) < rank_n j
  /\ (forall p x, fj_procs j !! p = Some x -> proc_ok (rank_n j) t x)
  /\ fj_data j = concat (data_line <$> fj_published j).
Record f_inv (n : nat) (j : fjob) : Prop := {
  fi_len : length (fj_procs j) = n;
  fi_distinct : distinct_ranks (fj_procs j);
  fi_range : ranks_below (Z.of_nat n) (fj_procs j);
  fi_phase : starting j \/ exists t, running t j
}.

Lemma has_rank_01 x : 0 <= has_rank x <= 1.
Proof. destruct x; cbn; lia. Qed.
Lemma waits_01 t x : 0 <= waits t x <= 1.
Proof. destruct x; cbn; try lia. destruct (_ =? _); lia. Qed.

(** A process that keeps its rank. *)
Lemma distinct_keep l p x y : l !! p = Some x -> rank_of y = rank_of x -> distinct_ranks l -> distinct_ranks (<[p := y]> l).
Proof.
  intros Hp Hr H a b u v r Ha Hb Hu Hv. apply list_lookup_insert_Some in Ha, Hb.
  destruct Ha as [(<- & <- & _)|[Ha1 Ha]], Hb as [(<- & <- & _)|[Hb1 Hb]]; try done.
  - eapply (H p b x v r); congruence.
  - eapply (H a p u x r); congruence.
  - by eapply (H a b u v r).
Qed.
Lemma below_keep n l p x y : l !! p = Some x -> rank_of y = rank_of x -> ranks_below n l -> ranks_below n (<[p := y]> l).
Proof.
  intros Hp E Hb q z r Hq Hr. apply list_lookup_insert_Some in Hq as [(_ & <- & _)|[_ Hq]]; [|by eapply Hb].
  rewrite E in Hr. by eapply (Hb p x).
Qed.
Lemma procs_insert (P Q : fproc -> Prop) (l : list fproc) (p : nat) (y : fproc) :
  (forall q x, l !! q = Some x -> P x) -> (forall q x, q <> p -> l !! q = Some x -> P x -> Q x) -> Q y ->
  forall q x, <[p := y]> l !! q = Some x -> Q x.
Proof.
  intros H H2 Hy q x Hq. apply list_lookup_insert_Some in Hq as [(<- & <- & _)|[Hne Hq]]; [done|]. apply (H2 q); try done. by eapply H.
Qed.
Lemma tally_compl {A} (f : A -> Z) l : tally (fun x => 1 - f x) l = Z.of_nat (length l) - tally f l.
Proof. induction l as [|a l IH]; [done|]. rewrite !tally_cons. cbn [length]. lia. Qed.
Lemma tally_below {A} (f : A -> Z) l : (forall a, 0 <= f a <= 1) -> tally f l < Z.of_nat (length l) -> exists i a, l !! i = Some a /\ f a = 0.
Proof.
  intros Hf. induction l as [|a l IH]; [cbn; lia|]. rewrite tally_cons. cbn [length]. intros H. pose proof (Hf a). destruct (Z.eq_dec (f a) 0) as [E|E].
  - by exists 0%nat, a.
  - destruct IH as (i & b & Hi & Hb); [lia|]. by exists (S i), b.
Qed.
(** All but one of the processes wait: the others than this one. *)
Lemma all_others_wait t l p x : tally (waits t) l = Z.of_nat (length l) - 1 -> l !! p = Some x -> waits t x = 0 ->
  forall q y, q <> p -> l !! q = Some y -> waits t y = 1.
Proof.
  intros Ht Hp Hx q y Hne Hq. destruct (Z.eq_dec (waits t y) 1) as [|Hy]; [done|]. exfalso. pose proof (waits_01 t y).
  pose proof (tally_compl (waits t) l) as Hc. pose proof (tally_two (fun x => 1 - waits t x) l p q x y ltac:(intros a; pose proof (waits_01 t a); lia) Hp Hq ltac:(done)).
  cbn beta in *. lia.
Qed.

Lemma assign_inv n j p r c : fj_procs j !! p = Some FNew -> take_rank (fj_nranks j) = Ok (r, c) -> f_inv n j ->
  f_inv n (set_nranks c (set_proc p (FAssigned r) j)) /\ 0 <= r < rank_n j.
Proof.
  intros Hp Hr [Hl Hd Hrg Hph]. destruct Hph as [[Hn Hs]|(t & _ & _ & _ & _ & Hs & _)]; [|by apply Hs in Hp].
  set (k := tally has_rank (fj_procs j)) in *. pose proof (tally_range has_rank (fj_procs j) has_rank_01) as Hk.
  assert (r = k /\ c = print_d (k + 1)) as [-> ->].
  { destruct Hn as [Hn|[Hk0 Hn]]; rewrite Hn in Hr; [apply take_rank_inv in Hr; [done|lia]|]. rewrite Hk0. vm_compute in Hr. injection Hr as <- <-. done. }
  assert (Hlt : k < rank_n j).
  { unfold rank_n. pose proof (tally_compl has_rank (fj_procs j)). pose proof (tally_one (fun x => 1 - has_rank x) _ p FNew ltac:(intros a; pose proof (has_rank_01 a); lia) Hp). cbn in *. lia. }
  split; [|split; [apply Hk|done]]. split; cbn [fj_procs set_nranks set_proc].
  - by rewrite length_insert.
  - intros a b u v r Ha Hb Hu Hv. apply list_lookup_insert_Some in Ha, Hb.
    destruct Ha as [(<- & <- & _)|[Ha1 Ha]], Hb as [(<- & <- & _)|[Hb1 Hb]]; try done.
    + apply Hs in Hb as [->|(r' & -> & Hr')]; [done|]. cbn in Hu, Hv. assert (r' = k) by congruence. lia.
    + apply Hs in Ha as [->|(r' & -> & Hr')]; [done|]. cbn in Hu, Hv. assert (r' = k) by congruence. lia.
    + by eapply (Hd a b u v r).
  - intros q x r Hq Hx. apply list_lookup_insert_Some in Hq as [(_ & <- & _)|[_ Hq]]; [|by eapply Hrg].
    injection Hx as <-. unfold rank_n in Hlt. rewrite Hl in Hlt. lia.
  - left. unfold starting. cbn [fj_procs fj_nranks set_nranks set_proc]. rewrite (tally_insert has_rank _ p FNew) by done. fold k. cbn [has_rank].
    replace (k - 0 + 1) with (k + 1) by lia. split; [by left|]. eapply procs_insert; [exact Hs| |right; exists k; split; [done|lia]].
    intros q x _ _ [->|(r' & -> & Hr')]; [by left|right]. exists r'. split; [done|lia].
Qed.
Lemma create_inv n j p r : fj_procs j !! p = Some (FAssigned r) -> r = rank_n j - 1 -> f_inv n j ->
  f_inv n (mk_fjob (chars "0") (chars "0 0") [] (<[p := FRun r 0]> (fj_procs j)) []).
Proof.
  intros Hp Hr [Hl Hd Hrg Hph]. destruct Hph as [[Hn Hs]|(t & _ & _ & _ & _ & Hs & _)]; [|apply Hs in Hp; destruct Hp as [Hp _]; lia].
  assert (Hfull : tally has_rank (fj_procs j) = Z.of_nat (length (fj_procs j))).
  { pose proof (Hs p _ Hp) as [|(r' & E & Hr')]; [done|]. assert (r' = r) as -> by congruence. pose proof (tally_range has_rank (fj_procs j) has_rank_01).
    unfold rank_n in Hr. lia. }
  assert (Hall : forall q x, fj_procs j !! q = Some x -> exists r', x = FAssigned r' /\ (q <> p -> r' <> r)).
  { intros q x Hq. pose proof (tally_full has_rank _ has_rank_01 Hfull q x Hq) as H1. destruct (Hs q x Hq) as [->|(r' & -> & _)]; [done|].
    exists r'. split; [done|]. intros Hne ->. apply Hne. by eapply (Hd q p _ _ r Hq Hp). }
  assert (Hz : tally (waits 0) (<[p := FRun r 0]> (fj_procs j)) = 0).
  { apply tally_zero. intros q x Hq. apply list_lookup_insert_Some in Hq as [(_ & <- & _)|[_ Hq]]; [done|]. by destruct (Hall q x Hq) as (r' & -> & _). }
  split; cbn [fj_procs]; [by rewrite length_insert|by eapply distinct_keep|by eapply below_keep|]. right. exists 0. unfold running, rank_n. cbn [fj_nranks fj_barrier fj_procs fj_data fj_published].
  rewrite Hz, length_insert. split_and!; try done.
  - apply lookup_lt_Some in Hp. lia.
  - intros q x Hq. apply list_lookup_insert_Some in Hq as [(<- & <- & _)|[Hne Hq]]; [done|]. destruct (Hall q x Hq) as (r' & -> & Hr'). cbn. split; [|done].
    unfold rank_n in Hr. rewrite <- Hr. apply Hr'. done.
Qed.
(** A step of one process while the job runs, with the barrier file after it. *)
Lemma running_step n j t t' p x y content : fj_procs j !! p = Some x -> rank_of y = rank_of x -> running t j -> f_inv n j ->
  content = barrier_content t' (tally (waits t') (<[p := y]> (fj_procs j))) -> tally (waits t') (<[p := y]> (fj_procs j)) < rank_n j -> 0 <= t' ->
  proc_ok (rank_n j) t' y -> (forall q z, q <> p -> fj_procs j !! q = Some z -> proc_ok (rank_n j) t' z) ->
  f_inv n (set_barrier content (set_proc p y j)).
Proof.
  intros Hp Hr (R1 & _ & _ & _ & _ & R6) [Hl Hd Hrg _] -> Hlt Ht Hy Hz.
  split; cbn [fj_procs set_barrier set_proc]; [by rewrite length_insert|by eapply distinct_keep|by eapply below_keep|]. right. exists t'. unfold running, rank_n.
  cbn [fj_nranks fj_barrier fj_procs fj_data fj_published set_barrier set_proc]. rewrite length_insert. split_and!; try done.
  intros q z Hq. apply list_lookup_insert_Some in Hq as [(<- & <- & _)|[Hne Hq]]; [done|]. by apply (Hz q).
Qed.
Lemma set_barrier_same j p y : set_proc p y j = set_barrier (fj_barrier j) (set_proc p y j).
Proof. done. Qed.
Lemma runs n j p x : f_inv n j -> fj_procs j !! p = Some x -> x <> FNew -> (forall r, x <> FAssigned r) -> exists t, running t j.
Proof. intros [_ _ _ [[_ Hs]|R]] Hp H1 H2; [|done]. destruct (Hs p x Hp) as [->|(r & -> & _)]; [done|by destruct (H2 r)]. Qed.

Lemma file_step_inv n j j' : f_inv n j -> fstep j j' -> f_inv n j'.
Proof.
  intros I St. destruct St as [p r c j Hp Hr _|p r j Hp Hr|p r j Hp Hr Hz|p r k kv j Hp|p r k tag count j Hp Hb Hc|p r k tag count j Hp Hb Hc|p r k tag t' count j Hp Hb Hc].
  - by eapply assign_inv.
  - by apply create_inv.
  - apply read_file_inv in Hz. pose proof I as [Hl Hd _ [[Hn Hs]|(t & R)]].
    + exfalso. pose proof (tally_one has_rank _ p _ has_rank_01 Hp) as H1. cbn in H1. destruct Hn as [Hn|[Hn _]]; [|lia].
      rewrite <- Hz in Hn. change (chars "0") with (print_d 0) in Hn. apply print_d_inj in Hn; [lia|lia|]. pose proof (tally_range has_rank (fj_procs j) has_rank_01). lia.
    + pose proof R as (_ & R2 & R3 & R4 & R5 & _). pose proof (R5 p _ Hp) as [_ ->]. rewrite set_barrier_same.
      apply (running_step n j 0 0 p (FAssigned r)); try done; try (rewrite (tally_insert _ _ p (FAssigned r)) by done; cbn; rewrite ?Z.add_0_r, ?Z.sub_0_r; done).
      intros q z _ Hq. by apply (R5 q).
  - destruct (runs n j p _ I Hp ltac:(done) ltac:(done)) as (t & R1 & R2 & R3 & R4 & R5 & R6). pose proof I as [Hl Hd Hrg _]. split; cbn [fj_procs]; [done|done|done|].
    right. exists t. unfold running, rank_n. cbn [fj_nranks fj_barrier fj_procs fj_data fj_published]. split_and!; try done.
    rewrite R6, fmap_app, concat_app. cbn. by rewrite app_nil_r.
  - destruct (runs n j p _ I Hp ltac:(done) ltac:(done)) as (t & R). pose proof R as (_ & R2 & R3 & R4 & R5 & _).
    pose proof (tally_range (waits t) (fj_procs j) (waits_01 t)) as Hw. rewrite R3 in Hb. apply read_barrier_inv in Hb as [-> ->]; [|done|lia].
    pose proof (R5 p _ Hp) as Hk. cbn in Hk. subst k. pose proof (all_others_wait t _ p _ Hc Hp ltac:(done)) as Ho.
    assert (Hz : tally (waits (t + 1)) (<[p := FRun r (t + 1)]> (fj_procs j)) = 0).
    { apply tally_zero. intros q x Hq. apply list_lookup_insert_Some in Hq as [(_ & <- & _)|[Hne Hq]]; [done|]. specialize (Ho q x ltac:(done) Hq).
      destruct x as [| | |r' k' tag']; try discriminate Ho. cbn in *. destruct (Z.eqb_spec tag' t); [|done]. by destruct (Z.eqb_spec tag' (t + 1)); [lia|]. }
    apply (running_step n j t (t + 1) p (FRun r t)); try done; rewrite ?Hz; try done; [lia|lia|].
    intros q z Hne Hq. specialize (Ho q z Hne Hq). pose proof (R5 q z Hq) as Hok. destruct z as [| | |r' k' tag']; try discriminate Ho. cbn in *.
    destruct (Z.eqb_spec tag' t); [|done]. destruct Hok as [-> _]. split; [done|]. right. lia.
  - destruct (runs n j p _ I Hp ltac:(done) ltac:(done)) as (t & R). pose proof R as (_ & R2 & R3 & R4 & R5 & _).
    pose proof (tally_range (waits t) (fj_procs j) (waits_01 t)) as Hw. rewrite R3 in Hb. apply read_barrier_inv in Hb as [-> ->]; [|done|lia].
    pose proof (R5 p _ Hp) as Hk. cbn in Hk. subst k.
    assert (Hz : tally (waits t) (<[p := FWait r t t]> (fj_procs j)) = tally (waits t) (fj_procs j) + 1).
    { rewrite (tally_insert _ _ p (FRun r t)) by done. cbn [waits]. rewrite Z.eqb_refl. lia. }
    apply (running_step n j t t p (FRun r t)); try done; rewrite ?Hz; try done; [lia|cbn; split; [done|by left]|]. intros q z _ Hq. by apply (R5 q).
  - destruct (runs n j p _ I Hp ltac:(done) ltac:(done)) as (t & R). pose proof R as (_ & R2 & R3 & R4 & R5 & _).
    pose proof (tally_range (waits t) (fj_procs j) (waits_01 t)) as Hw. rewrite R3 in Hb. apply read_barrier_inv in Hb as [-> ->]; [|done|lia].
    pose proof (R5 p _ Hp) as [-> Hk]. assert (Hz : tally (waits t) (<[p := FRun r (k + 1)]> (fj_procs j)) = tally (waits t) (fj_procs j)).
    { rewrite (tally_insert _ _ p (FWait r k k)) by done. cbn [waits]. rewrite (proj2 (Z.eqb_neq k t)) by done. lia. }
    rewrite set_barrier_same. apply (running_step n j t t p (FWait r k k)); try done; rewrite ?Hz; try done; [cbn; lia|]. intros q z _ Hq. by apply (R5 q).
Qed.
Lemma file_new_inv n b d fresh : f_inv n (fjob_new n b d fresh).
Proof.
  unfold fjob_new. split; cbn [fj_procs].
  - by rewrite length_replicate.
  - intros p q x y r Hp _ Hx. apply lookup_replicate in Hp as [-> _]. done.
  - intros p x r Hp Hx. apply lookup_replicate in Hp as [-> _]. done.
  - left. unfold starting. cbn [fj_procs fj_nranks]. rewrite tally_replicate. cbn [has_rank]. rewrite Z.mul_0_r. split.
    + destruct fresh; [by right|by left].
    + intros p x Hp. apply lookup_replicate in Hp as [-> _]. by left.
Qed.
Lemma file_run_inv n b d fresh j : rtc fstep (fjob_new n b d fresh) j -> f_inv n j.
Proof.
  intros H. remember (fjob_new n b d fresh) as j0 eqn:E. assert (I : f_inv n j0) by (subst; apply file_new_inv). clear E.
  induction H as [|j1 j2 j3 St _ IH]; [done|]. apply IH. by eapply file_step_inv.
Qed.

(** ** What the files provide *)

Definition barriers_left (x : fproc) : Z := match x with FRun _ k | FWait _ k _ => k | _ => 0 end.
Definition barriers_entered (x : fproc) : Z := match x with FRun _ k => k | FWait _ k _ => k + 1 | _ => 0 end.
Definition is_waiting (x : fproc) : Prop := match x with FWait _ _ _ => True | _ => False end.

(** C14: the file rendezvous, in every interleaving of its processes. Ranks are distinct and
    between zero and the number of ranks, and the check of the code never fails; no process
    leaves a barrier that another has not entered. When all processes wait in a barrier, one
    of them leaves, as long as the tag is an [int] and tag and count fill at most fifteen
    bytes of the file; beyond that the code cannot read the file. If no key that was
    published has a blank or a line end and no value has a line end or more than 254 bytes,
    which [publish] does not check, then [getname] gives the first value that was published
    for a key. *)
Theorem file_rendezvous n old_barrier old_data fresh j :
  rtc fstep (fjob_new n old_barrier old_data fresh) j ->
  distinct_ranks (fj_procs j) /\ ranks_below (rank_n j) (fj_procs j)
  /\ (forall p r c, fj_procs j !! p = Some FNew -> take_rank (fj_nranks j) = Ok (r, c) -> 0 <= r < rank_n j)
  /\ (forall p q x y, fj_procs j !! p = Some x -> fj_procs j !! q = Some y -> barriers_left x <= barriers_entered y)
  /\ ((0 < n)%nat -> Z.of_nat n < 2 ^ 31 -> (forall p x, fj_procs j !! p = Some x -> is_waiting x /\ barriers_entered x < 2 ^ 31) ->
      (length (fj_barrier j) < 16)%nat -> exists p r k tag, fj_procs j !! p = Some (FWait r k tag) /\ fstep j (set_proc p (FRun r (k + 1)) j))
  /\ (forall p r k key, fj_procs j !! p = Some (FRun r k) -> Forall plain (fj_published j) ->
        getname key (fj_data j) = match first_value key (fj_published j) with Some v => Ok v | None => Err (AssertFailed "Key not found in file") end).
Proof.
  intros H. pose proof (file_run_inv _ _ _ _ _ H) as I. split_and!.
  - apply I.
  - unfold rank_n. rewrite (fi_len _ _ I). apply I.
  - intros p r c Hp Hr. by eapply (assign_inv n j p r c).
  - intros p q x y Hp Hq. destruct I as [_ _ _ [[_ Hs]|(t & _ & R2 & _ & _ & R5 & _)]].
    + destruct (Hs p x Hp) as [->|(? & -> & _)], (Hs q y Hq) as [->|(? & -> & _)]; done.
    + apply R5 in Hp, Hq. destruct x, y; cbn in *; lia.
  - intros Hn Hn7 Hall Hlen. destruct (lookup_lt_is_Some_2 (fj_procs j) 0) as [x0 Hx0]; [by rewrite (fi_len _ _ I)|]. destruct (Hall _ _ Hx0) as [Hw0 _].
    destruct (runs n j 0 x0 I Hx0) as (t & R1 & R2 & R3 & R4 & R5 & _); [by intros ->|by intros r ->|].
    pose proof (tally_range (waits t) (fj_procs j) (waits_01 t)) as Hw. unfold rank_n in R4. rewrite (fi_len _ _ I) in *.
    destruct (tally_below (waits t) (fj_procs j) (waits_01 t)) as (p & x & Hp & Hx); [by rewrite (fi_len _ _ I)|].
    destruct (Hall _ _ Hp) as [Hwx Hb]. pose proof (R5 p _ Hp) as Hok. destruct x as [| | |r k tag]; try done. cbn in Hx, Hb, Hok.
    destruct (Z.eqb_spec tag t) as [|Hne]; [done|]. destruct Hok as [-> Hkt]. exists p, r, k, k. split; [done|].
    eapply f_leave; [exact Hp| |by apply not_eq_sym]. rewrite R3 in Hlen |- *. apply read_barrier_content; [lia|lia|done].
  - intros p r k key Hp Hpl. destruct (runs n j p _ I Hp ltac:(done) ltac:(done)) as (t & _ & _ & _ & _ & _ & ->). by apply getname_first.
Qed.

(** Two processes: one publishes, both pass a barrier. *)
Definition file_end : fjob :=
  mk_fjob (chars "0") (chars "1 0") [107; 32; 1; 2; 10] [FRun 0 1; FRun 1 1] [([107], [1; 2])].
Lemma file_end_run : rtc fstep (fjob_new 2 [] [] true) file_end.
Proof.
  eapply rtc_l; [apply (f_assign 0 0 (chars "1")); [reflexivity|reflexivity|vm_compute; reflexivity]|].
  eapply rtc_l; [apply (f_assign 1 1 (chars "2")); [reflexivity|vm_compute; reflexivity|vm_compute; reflexivity]|].
  eapply rtc_l; [apply (f_create 1 1); reflexivity|].
  eapply rtc_l; [apply (f_go 0 0); [reflexivity|vm_compute; discriminate|vm_compute; reflexivity]|].
  eapply rtc_l; [apply (f_publish 0 0 0 ([107], [1; 2])); reflexivity|].
  eapply rtc_l; [apply (f_arrive 0 0 0 0 0); [reflexivity|vm_compute; reflexivity|vm_compute; discriminate]|].
  eapply rtc_l; [apply (f_last 1 1 0 0 1); [reflexivity|vm_compute; reflexivity|vm_compute; reflexivity]|].
  eapply rtc_l; [apply (f_leave 0 0 0 0 1 0); [reflexivity|vm_compute; reflexivity|vm_compute; discriminate]|].
  apply rtc_refl.
Qed.
Lemma file_rendezvous_witness : getname [107] (fj_data file_end) = Ok [1; 2].
Proof.
  destruct (file_rendezvous 2 [] [] true file_end file_end_run) as (_ & _ & _ & _ & _ & H). apply (H 1%nat 1 1 [107] eq_refl).
  apply Forall_singleton. unfold plain. cbn. rewrite !not_elem_of_cons. repeat split; try lia; apply not_elem_of_nil.
Defined.
