(* ===== verification/PmiArchive.v ===== *)
(** * LCT's process management: choice of a backend, archives, one process, MPI

    src/lct/pmi/pmi_wrapper.cpp, src/lct/pmi/pmii_archive.hpp,
    src/lct/pmi/pmi_wrapper_local.cpp, src/lct/pmi/pmi_wrapper_mpi.cpp. MPI is a parameter. *)
From stdpp Require Import base numbers functions list gmap strings relations.
From Stdlib Require Import ZArith Lia.
From S2P Require Import Prelude Text PmiTcp.

(** ** Archives *)

Definition STRING_LIMIT : nat := 256.
(** Buffers of 256 bytes with the key and the value. *)
Record Archive_t : Type := mk_archive { ar_entries : list (list Z * list Z); ar_capacity : Z }.
Definition archive_init : Archive_t := mk_archive [] 8.
Definition ar_size (a : Archive_t) : Z := Z.of_nat (length (ar_entries a)).
(** The C string at the start of a buffer. *)
Definition cstring (b : list Z) : list Z := take_while (fun c => negb (c =? 0)) b.

Section Archive.
(** What fresh memory holds. *)
Variable junk : Z.
(** [strcpy] into a new buffer. *)
Definition dup (s : list Z) : result (list Z) :=
  if (length s <? STRING_LIMIT)%nat then Ok (s ++ 0 :: replicate (STRING_LIMIT - 1 - length s) junk)
  else Err (Undefined "strcpy past the end").
Definition archive_push (key value : list Z) (a : Archive_t) : result Archive_t :=
  let capacity := if ar_size a =? ar_capacity a then ar_capacity a * 2 else ar_capacity a in
  key_in ← dup key ;
  value_in ← dup value ;
  Ok (mk_archive (ar_entries a ++ [(key_in, value_in)]) capacity).
Fixpoint archive_find (key : list Z) (l : list (list Z * list Z)) : option (list Z) :=
  match l with
  | [] => None
  | e :: l => if bool_decide (cstring e.1 = key) then Some (cstring e.2) else archive_find key l
  end.
Definition archive_search (key : list Z) (a : Archive_t) : option (list Z) := archive_find key (ar_entries a).
Definition pmi_archive_clear (a : Archive_t) : Archive_t := mk_archive [] (ar_capacity a).

(** [getname] of one process and of MPI: a key that is not there is a null pointer. *)
Definition archive_getname (key : list Z) (a : Archive_t) : result (list Z) :=
  match archive_search key a with Some v => Ok v | None => Err (Undefined "strcpy from null") end.

(** What an archive stands for. *)
Definition is_text (s : list Z) : Prop := (0 ∉ s) /\ (length s < STRING_LIMIT)%nat.
Record archive_ok (a : Archive_t) (l : list (list Z * list Z)) : Prop := {
  ao_text : Forall (fun e => is_text e.1 /\ is_text e.2) l;
  ao_entries : (fun e => (cstring e.1, cstring e.2)) <$> ar_entries a = l;
  ao_buffers : Forall (fun e => length e.1 = STRING_LIMIT /\ length e.2 = STRING_LIMIT) (ar_entries a);
  ao_capacity : ar_size a <= ar_capacity a /\ 0 < ar_capacity a
}.
Fixpoint first_of (key : list Z) (l : list (list Z * list Z)) : option (list Z) :=
  match l with [] => None | e :: l => if bool_decide (e.1 = key) then Some e.2 else first_of key l end.

Lemma cstring_app s rest : 0 ∉ s -> cstring (s ++ 0 :: rest) = s.
Proof.
  unfold cstring. induction s as [|c s IH]; intros H; [done|]. apply not_elem_of_cons in H as [Hc H]. cbn.
  rewrite (proj2 (Z.eqb_neq c 0)) by done. cbn. by rewrite IH.
Qed.
Lemma dup_text s : is_text s -> exists b, dup s = Ok b /\ cstring b = s /\ length b = STRING_LIMIT.
Proof.
  intros [H0 Hl]. unfold dup. rewrite (proj2 (Nat.ltb_lt _ _) Hl). eexists. split; [done|]. split; [by apply cstring_app|].
  rewrite length_app. cbn [length]. rewrite length_replicate. lia.
Qed.
Lemma archive_push_ok key value a l : is_text key -> is_text value -> archive_ok a l ->
  exists a', archive_push key value a = Ok a' /\ archive_ok a' (l ++ [(key, value)]).
Proof.
  intros Hk Hv [A1 A2 A3 [A4 A5]]. unfold archive_push. destruct (dup_text key Hk) as (bk & -> & Ek & Lk), (dup_text value Hv) as (bv & -> & Ev & Lv).
  eexists. split; [done|]. split; cbn [ar_entries ar_capacity].
  - apply Forall_app. split; [done|]. by apply Forall_singleton.
  - rewrite fmap_app, A2, list_fmap_singleton. cbn [fst snd]. by rewrite Ek, Ev.
  - apply Forall_app. split; [done|]. by apply Forall_singleton.
  - unfold ar_size in *. cbn [ar_entries]. rewrite length_app. cbn [length]. destruct (Z.eqb_spec (Z.of_nat (length (ar_entries a))) (ar_capacity a)); lia.
Qed.
Lemma archive_search_ok key a l : archive_ok a l -> archive_search key a = first_of key l.
Proof.
  intros [_ A2 _ _]. unfold archive_search. rewrite <- A2. clear A2. induction (ar_entries a) as [|e es IH]; [done|]. rewrite fmap_cons. cbn [archive_find first_of fst snd].
  by rewrite IH.
Qed.
Lemma archive_init_ok : archive_ok archive_init [].
Proof. split; [constructor|done|constructor|]. unfold ar_size. cbn. lia. Qed.

Fixpoint push_all (l : list (list Z * list Z)) (a : Archive_t) : result Archive_t :=
  match l with [] => Ok a | (k, v) :: l => a ← archive_push k v a ; push_all l a end.
Lemma push_all_ok l a l0 : Forall (fun e => is_text e.1 /\ is_text e.2) l -> archive_ok a l0 -> exists a', push_all l a = Ok a' /\ archive_ok a' (l0 ++ l).
Proof.
  revert a l0. induction l as [|[k v] l IH]; intros a l0 H A; [exists a; by rewrite app_nil_r|]. apply Forall_cons in H as [[Hk Hv] H]. cbn [push_all].
  destruct (archive_push_ok k v a l0 Hk Hv A) as (a1 & -> & A1). cbn [mbind result_bind]. destruct (IH a1 _ H A1) as (a2 & -> & A2). exists a2.
  by rewrite <- app_assoc in A2.
Qed.

(** ** The barrier of MPI *)

(** The send buffer, the counts of all ranks in bytes, and where their data starts. *)
Definition src_buf (l : Archive_t) : list Z := concat ((fun e => e.1 ++ e.2) <$> ar_entries l).
Definition count_buf (counts : list Z) : list Z := (fun c => c * (Z.of_nat STRING_LIMIT * 2)) <$> counts.
Fixpoint displs_buf (current : Z) (counts : list Z) : list Z :=
  match counts with [] => [] | c :: counts => current :: displs_buf (current + c) counts end.
Definition slice (from len : nat) (b : list Z) : list Z := take len (drop from b).
(** Entry [i] of the receive buffer. *)
Definition entry_at (dst : list Z) (i : nat) : list Z * list Z :=
  (cstring (drop (2 * i * STRING_LIMIT) dst), cstring (drop ((2 * i + 1) * STRING_LIMIT) dst)).

(** What each rank contributes, its count, and what the ranks receive; the counts and displacements
    say where the parts of the ranks go. *)
Variable MPI_Allgather : list Z -> list Z.
Variable MPI_Allgatherv : list (list Z) -> list Z -> list Z -> list Z.
(** The barrier of a rank: its archives of new and of all entries, given the new entries of all
    ranks. The sizes in bytes are [int]s. *)
Definition mpi_barrier (locals : list Archive_t) (l_archive g_archive : Archive_t) : result (Archive_t * Archive_t) :=
  let counts := MPI_Allgather (ar_size <$> locals) in
  let total_count := foldr Z.add 0 counts in
  if 2 ^ 31 <=? total_count * Z.of_nat STRING_LIMIT * 2 then Err (Undefined "signed overflow") else
  let count_buf := count_buf counts in
  let displs := displs_buf 0 count_buf in
  let dst_buf := MPI_Allgatherv (src_buf <$> locals) count_buf displs in
  g_archive ← push_all (entry_at dst_buf <$> seq 0 (Z.to_nat total_count)) g_archive ;
  Ok (pmi_archive_clear l_archive, g_archive).

(** The documented behaviour of the two collectives: every rank gets what every rank gave, rank by
    rank; parts with the counts given, one after the other, are found at their displacements. *)
Definition allgather_law : Prop := forall l, MPI_Allgather l = l.
Definition allgatherv_law : Prop := forall sends counts displs,
  counts = (fun send => Z.of_nat (length send)) <$> sends ->
  (forall i d, displs !! i = Some d -> d = foldr Z.add 0 (take i counts)) ->
  forall i send d, sends !! i = Some send -> displs !! i = Some d ->
  slice (Z.to_nat d) (length send) (MPI_Allgatherv sends counts displs) = send.
Hypothesis allgather : allgather_law.
Hypothesis allgatherv : allgatherv_law.

Lemma drop_app_add {A} (l1 l2 : list A) n k : n = length l1 -> drop (n + k) (l1 ++ l2) = drop k l2.
Proof. intros ->. by rewrite <- drop_drop, drop_app_length. Qed.
Lemma cstring_take n d s : (length s < n)%nat -> cstring (take n d) = s -> (n <= length d)%nat -> cstring d = s.
Proof.
  revert n d. unfold cstring. induction s as [|c s IH]; intros n d Hn E Hd; (destruct n as [|n]; [cbn in Hn; lia|]); destruct d as [|x d]; cbn in *; try done; try lia.
  - by destruct (negb (x =? 0)).
  - destruct (negb (x =? 0)); [|done]. simplify_eq. f_equal. apply (IH n); [lia|done|lia].
Qed.
Lemma cstring_before b rest s : length b = STRING_LIMIT -> is_text s -> cstring b = s -> cstring (b ++ rest) = s.
Proof.
  intros Hb [_ Hs] E. apply (cstring_take STRING_LIMIT); [done| |rewrite length_app; lia]. rewrite <- Hb, take_app_length. done.
Qed.

Definition entry_ok (e : list Z * list Z) : Prop :=
  length e.1 = STRING_LIMIT /\ length e.2 = STRING_LIMIT /\ is_text (cstring e.1) /\ is_text (cstring e.2).
Lemma entry_at_next e d j : length e.1 = STRING_LIMIT -> length e.2 = STRING_LIMIT -> entry_at ((e.1 ++ e.2) ++ d) (S j) = entry_at d j.
Proof.
  intros H1 H2. assert (length (e.1 ++ e.2) = (2 * STRING_LIMIT)%nat) as H by (rewrite length_app; lia). unfold entry_at.
  replace (2 * S j * STRING_LIMIT)%nat with (2 * STRING_LIMIT + 2 * j * STRING_LIMIT)%nat by lia.
  replace ((2 * S j + 1) * STRING_LIMIT)%nat with (2 * STRING_LIMIT + (2 * j + 1) * STRING_LIMIT)%nat by lia.
  by rewrite !drop_app_add.
Qed.
Lemma entry_at_first e d : entry_ok e -> entry_at ((e.1 ++ e.2) ++ d) 0 = (cstring e.1, cstring e.2).
Proof.
  intros (H1 & H2 & T1 & T2). unfold entry_at. rewrite <- app_assoc.
  replace ((2 * 0 + 1) * STRING_LIMIT)%nat with (STRING_LIMIT + 0)%nat by lia. rewrite drop_app_add by done. replace (2 * 0 * STRING_LIMIT)%nat with 0%nat by lia. rewrite !drop_0.
  f_equal; by apply cstring_before.
Qed.
Lemma entries_read es rest : Forall entry_ok es ->
  entry_at (concat ((fun e => e.1 ++ e.2) <$> es) ++ rest) <$> seq 0 (length es) = (fun e => (cstring e.1, cstring e.2)) <$> es.
Proof.
  induction es as [|e es IH]; intros H; [done|]. apply Forall_cons in H as [He H]. rewrite fmap_cons. cbn [concat length seq]. rewrite !fmap_cons, <- app_assoc, entry_at_first by done. f_equal.
  rewrite <- (IH H), <- fmap_S_seq, <- list_fmap_compose. apply list_fmap_ext. intros i j _. destruct He as (H1 & H2 & _). cbn. by rewrite entry_at_next.
Qed.

(** Parts that lie one after the other. *)
Lemma slices_concat sends off dst :
  (forall i send, sends !! i = Some send -> slice (off + length (concat (take i sends))) (length send) dst = send) ->
  take (length (concat sends)) (drop off dst) = concat sends.
Proof.
  revert off. induction sends as [|x sends IH]; intros off H; [done|]. cbn [concat]. rewrite length_app, <- take_take_drop. f_equal.
  - specialize (H 0%nat x eq_refl). cbn in H. by rewrite Nat.add_0_r in H.
  - rewrite drop_drop. apply IH. intros i send Hi. specialize (H (S i) send Hi). cbn in H. rewrite length_app in H. by rewrite <- Nat.add_assoc.
Qed.
Lemma displs_lookup cur counts i c : counts !! i = Some c -> displs_buf cur counts !! i = Some (cur + foldr Z.add 0 (take i counts)).
Proof.
  revert cur i. induction counts as [|x counts IH]; intros cur [|i] H; try done; cbn in *; [f_equal; lia|]. rewrite (IH _ _ H). f_equal. lia.
Qed.
Lemma displs_length cur counts : length (displs_buf cur counts) = length counts.
Proof. revert cur. induction counts as [|x counts IH]; intros cur; [done|]. cbn. by rewrite IH. Qed.
Lemma displs_are_sums counts i d : displs_buf 0 counts !! i = Some d -> d = foldr Z.add 0 (take i counts).
Proof.
  intros H. pose proof (lookup_lt_Some _ _ _ H) as L. rewrite displs_length in L. apply lookup_lt_is_Some_2 in L as [c Hc].
  rewrite (displs_lookup 0 _ _ _ Hc) in H. by injection H as <-.
Qed.
Lemma src_buf_length a : Forall entry_ok (ar_entries a) -> Z.of_nat (length (src_buf a)) = ar_size a * (Z.of_nat STRING_LIMIT * 2).
Proof.
  unfold src_buf, ar_size. induction 1 as [|e es (H1 & H2 & _) H IH]; [done|]. rewrite fmap_cons. cbn [concat length]. rewrite !length_app. lia.
Qed.
Lemma bytes_before locals i : Forall (fun a => Forall entry_ok (ar_entries a)) locals ->
  foldr Z.add 0 (take i (count_buf (ar_size <$> locals))) = Z.of_nat (length (concat (take i (src_buf <$> locals)))).
Proof.
  intros H. revert i. induction H as [|a locals Ha H IH]; intros [|i]; try done. unfold count_buf in *. rewrite !fmap_cons. cbn [take foldr concat]. rewrite length_app, Nat2Z.inj_add, IH, src_buf_length by done. done.
Qed.
Lemma counts_are_lengths locals : Forall (fun a => Forall entry_ok (ar_entries a)) locals ->
  count_buf (ar_size <$> locals) = (fun send => Z.of_nat (length send)) <$> (src_buf <$> locals).
Proof. unfold count_buf. induction 1 as [|a locals Ha H IH]; [done|]. rewrite !fmap_cons, IH. f_equal. by rewrite src_buf_length. Qed.
Lemma concat_src_buf locals : concat (src_buf <$> locals) = concat ((fun e => e.1 ++ e.2) <$> concat (ar_entries <$> locals)).
Proof. induction locals as [|a locals IH]; [done|]. rewrite !fmap_cons. cbn [concat]. rewrite fmap_app, concat_app, <- IH. done. Qed.
Lemma total_entries locals : foldr Z.add 0 (ar_size <$> locals) = Z.of_nat (length (concat (ar_entries <$> locals))).
Proof. induction locals as [|a locals IH]; [done|]. rewrite !fmap_cons. cbn [foldr concat]. rewrite length_app, IH. unfold ar_size. lia. Qed.
Lemma archive_ok_entries a l : archive_ok a l -> Forall entry_ok (ar_entries a).
Proof.
  intros [A1 A2 A3 _]. rewrite <- A2, Forall_fmap in A1. rewrite Forall_forall in *. intros e He. specialize (A1 e He). specialize (A3 e He). cbn in A1. by destruct A1, A3.
Qed.
Lemma archives_entries locals ls : Forall2 archive_ok locals ls ->
  Forall (fun a => Forall entry_ok (ar_entries a)) locals /\ (fun e => (cstring e.1, cstring e.2)) <$> concat (ar_entries <$> locals) = concat ls.
Proof.
  induction 1 as [|a l locals ls A H [IH1 IH2]]; [done|]. split; [constructor; [by eapply archive_ok_entries|done]|].
  rewrite fmap_cons. cbn [concat]. rewrite fmap_app, IH2. by rewrite (ao_entries _ _ A).
Qed.
Lemma gathered locals : Forall (fun a => Forall entry_ok (ar_entries a)) locals ->
  exists rest, MPI_Allgatherv (src_buf <$> locals) (count_buf (ar_size <$> locals)) (displs_buf 0 (count_buf (ar_size <$> locals)))
    = concat (src_buf <$> locals) ++ rest.
Proof.
  intros H. set (dst := MPI_Allgatherv _ _ _). exists (drop (length (concat (src_buf <$> locals))) dst).
  rewrite <- (slices_concat (src_buf <$> locals) 0 dst) at 1; [by rewrite drop_0, take_drop|].
  intros i send Hi. assert (count_buf (ar_size <$> locals) = (fun send => Z.of_nat (length send)) <$> (src_buf <$> locals)) as Hc by (by apply counts_are_lengths).
  assert (count_buf (ar_size <$> locals) !! i = Some (Z.of_nat (length send))) as Hci by (by rewrite Hc, list_lookup_fmap, Hi).
  pose proof (allgatherv _ _ _ Hc (displs_are_sums _) i send _ Hi (displs_lookup 0 _ i _ Hci)) as E. rewrite bytes_before in E by done.
  by rewrite Z.add_0_l, Nat2Z.id in E.
Qed.
Lemma mpi_barrier_ok locals ls l_archive g_archive g : Forall2 archive_ok locals ls -> archive_ok g_archive g ->
  Z.of_nat (length (concat ls)) * 512 < 2 ^ 31 ->
  exists g', mpi_barrier locals l_archive g_archive = Ok (pmi_archive_clear l_archive, g') /\ archive_ok g' (g ++ concat ls).
Proof.
  intros H G Hn. apply archives_entries in H as [H E]. unfold mpi_barrier. rewrite allgather, total_entries.
  rewrite <- E, length_fmap in Hn. rewrite (proj2 (Z.leb_gt _ _)) by (change (Z.of_nat STRING_LIMIT) with 256; lia).
  destruct (gathered locals H) as [rest ->]. rewrite concat_src_buf, Nat2Z.id, entries_read by (by apply Forall_concat, Forall_fmap). rewrite E.
  destruct (push_all_ok (concat ls) g_archive g) as (g' & -> & G'); [|done|by exists g'].
  rewrite <- E, Forall_fmap. apply Forall_concat, Forall_fmap. eapply Forall_impl; [exact H|]. intros a Ha. cbn. eapply Forall_impl; [exact Ha|]. intros e (_ & _ & T). done.
Qed.
End Archive.

(** ** A job that uses MPI *)

Section Job.
Variable junk : Z.
Variable MPI_Allgather : list Z -> list Z.
Variable MPI_Allgatherv : list (list Z) -> list Z -> list Z -> list Z.

(** What the program does: a rank publishes an entry, or all ranks meet in the barrier. *)
Inductive mpi_op : Type := MPublish (r : nat) (key value : list Z) | MBarrier.
(** The archives of new entries and of all entries, for each rank. *)
Abbreviation mpi_job := (list (Archive_t * Archive_t)).
Definition mpi_initialize (n : nat) : mpi_job := replicate n (archive_init, archive_init).
Fixpoint barrier_all (locals : list Archive_t) (ranks : mpi_job) : result mpi_job :=
  match ranks with
  | [] => Ok []
  | (l, g) :: ranks =>
      x ← mpi_barrier junk MPI_Allgather MPI_Allgatherv locals l g ;
      ranks ← barrier_all locals ranks ;
      Ok (x :: ranks)
  end.
Definition mpi_step (o : mpi_op) (j : mpi_job) : result mpi_job :=
  match o with
  | MPublish r key value =>
      match j !! r with
      | Some (l, g) => l ← archive_push junk key value l ; Ok (<[r := (l, g)]> j)
      | None => Err (Undefined "no such rank")
      end
  | MBarrier => barrier_all (fst <$> j) j
  end.
Fixpoint mpi_run (os : list mpi_op) (j : mpi_job) : result mpi_job :=
  match os with [] => Ok j | o :: os => j ← mpi_step o j ; mpi_run os j end.
Definition mpi_getname (key : list Z) (r : nat) (j : mpi_job) : result (list Z) :=
  match j !! r with Some (_, g) => archive_getname key g | None => Err (Undefined "no such rank") end.

(** The contract: what each rank has published since the last barrier, and what all know. *)
Record board : Type := mk_board { bd_new : list (list (list Z * list Z)); bd_known : list (list Z * list Z) }.
Definition board_step (o : mpi_op) (b : board) : board :=
  match o with
  | MPublish r key value => mk_board (alter (fun l => l ++ [(key, value)]) r (bd_new b)) (bd_known b)
  | MBarrier => mk_board ((fun _ => []) <$> bd_new b) (bd_known b ++ concat (bd_new b))
  end.
Definition board_run (os : list mpi_op) (b : board) : board := foldl (fun b o => board_step o b) b os.
(** Texts that fit, ranks that exist, and less than 4194304 entries in a barrier. *)
Definition op_ok (n : nat) (b : board) (o : mpi_op) : Prop :=
  match o with
  | MPublish r key value => (r < n)%nat /\ is_text key /\ is_text value
  | MBarrier => Z.of_nat (length (concat (bd_new b))) * 512 < 2 ^ 31
  end.
Fixpoint ops_ok (n : nat) (b : board) (os : list mpi_op) : Prop :=
  match os with [] => True | o :: os => op_ok n b o /\ ops_ok n (board_step o b) os end.
Definition job_ok (j : mpi_job) (b : board) : Prop :=
  Forall2 (fun lg new => archive_ok lg.1 new /\ archive_ok lg.2 (bd_known b)) j (bd_new b).


Hypothesis allgather : allgather_law MPI_Allgather.
Hypothesis allgatherv : allgatherv_law MPI_Allgatherv.

Lemma pmi_archive_clear_ok a l : archive_ok a l -> archive_ok (pmi_archive_clear a) [].
Proof. intros [_ _ _ [_ A]]. split; [constructor|done|constructor|]. unfold ar_size. cbn. lia. Qed.
Lemma barrier_all_ok locals ls known ranks news : Forall2 archive_ok locals ls -> Z.of_nat (length (concat ls)) * 512 < 2 ^ 31 ->
  Forall2 (fun lg new => archive_ok lg.1 new /\ archive_ok lg.2 known) ranks news ->
  exists ranks', barrier_all locals ranks = Ok ranks' /\
    Forall2 (fun lg new => archive_ok lg.1 new /\ archive_ok lg.2 (known ++ concat ls)) ranks' ((fun _ => []) <$> news).
Proof.
  intros H Hn. induction 1 as [|[l g] new ranks news [Hl Hg] R (ranks' & E & IH)]; [by exists []|]. cbn [barrier_all].
  destruct (mpi_barrier_ok junk _ _ allgather allgatherv locals ls l g known H Hg Hn) as (g' & -> & G'). cbn [mbind result_bind]. rewrite E. eexists. split; [done|].
  rewrite fmap_cons. constructor; [|done]. split; [by eapply pmi_archive_clear_ok|done].
Qed.
Lemma alter_is_insert {A} (f : A -> A) (l : list A) i x : l !! i = Some x -> <[i := f x]> l = alter f i l.
Proof. revert i. induction l as [|y l IH]; intros [|i] H; try done; cbn in *; [by simplify_eq|]. f_equal. by apply IH. Qed.
Lemma mpi_step_ok o j b : job_ok j b -> op_ok (length j) b o -> exists j', mpi_step o j = Ok j' /\ job_ok j' (board_step o b) /\ length j' = length j.
Proof.
  intros J O. destruct o as [r key value|]; cbn [op_ok mpi_step board_step] in O |- *.
  - destruct O as (Hr & Hk & Hv). apply lookup_lt_is_Some_2 in Hr as [[l g] Hr]. rewrite Hr. destruct (Forall2_lookup_l _ _ _ _ _ J Hr) as (new & Hnew & Hl & Hg).
    destruct (archive_push_ok junk key value l new Hk Hv Hl) as (l' & -> & Hl'). eexists. split; [done|]. split; [|by rewrite length_insert].
    unfold job_ok. cbn. replace (alter _ r (bd_new b)) with (<[r := new ++ [(key, value)]]> (bd_new b)) by (by apply (alter_is_insert (fun l => l ++ [(key, value)]))).
    by apply Forall2_insert.
  - destruct (barrier_all_ok (fst <$> j) (bd_new b) (bd_known b) j (bd_new b)) as (j' & E & J'); [|done|done|].
    { apply Forall2_fmap_l. eapply Forall2_impl; [exact J|]. by intros x y [? _]. }
    exists j'. split; [done|]. split; [done|]. apply Forall2_length in J, J'. rewrite length_fmap in J'. lia.
Qed.
Lemma mpi_run_ok os j b : job_ok j b -> ops_ok (length j) b os -> exists j', mpi_run os j = Ok j' /\ job_ok j' (board_run os b) /\ length j' = length j.
Proof.
  revert j b. induction os as [|o os IH]; intros j b J O; [by exists j|]. cbn in O. destruct O as [O Os]. destruct (mpi_step_ok o j b J O) as (j1 & E1 & J1 & L1).
  cbn [mpi_run]. rewrite E1. cbn [mbind result_bind]. rewrite <- L1 in Os. destruct (IH j1 _ J1 Os) as (j2 & -> & J2 & L2). exists j2. split; [done|]. split; [exact J2|lia].
Qed.
Lemma mpi_initialize_ok n : job_ok (mpi_initialize n) (mk_board (replicate n []) []).
Proof. unfold job_ok, mpi_initialize. cbn. induction n as [|n IH]; [constructor|]. constructor; [|done]. split; apply archive_init_ok. Qed.
Lemma mpi_getname_ok key r j b : job_ok j b -> (r < length j)%nat ->
  mpi_getname key r j = match first_of key (bd_known b) with Some v => Ok v | None => Err (Undefined "strcpy from null") end.
Proof.
  intros J Hr. apply lookup_lt_is_Some_2 in Hr as [[l g] Hr]. unfold mpi_getname. rewrite Hr. destruct (Forall2_lookup_l _ _ _ _ _ J Hr) as (new & _ & _ & Hg).
  unfold archive_getname. by rewrite (archive_search_ok key g _ Hg).
Qed.

(** C15: the MPI backend of process management implements a shared board. In a job of [n] ranks, for
    every sequence in which the ranks publish entries and meet in the barrier, and every MPI whose
    two collectives do what MPI documents, the run does not fail, and what [getname] finds afterwards
    on any rank is the value of the first entry with that key among all entries published by all
    ranks before the last barrier (by barrier, then by rank, then in the order of publication); for
    a key not among them the backend copies from a null pointer. *)
Theorem mpi_board n os : ops_ok n (mk_board (replicate n []) []) os ->
  exists j, mpi_run os (mpi_initialize n) = Ok j /\
    forall r key, (r < n)%nat ->
    mpi_getname key r j = match first_of key (bd_known (board_run os (mk_board (replicate n []) []))) with
                          | Some v => Ok v | None => Err (Undefined "strcpy from null") end.
Proof.
  intros O. assert (length (mpi_initialize n) = n) as L by apply length_replicate. rewrite <- L in O at 1.
  destruct (mpi_run_ok os _ _ (mpi_initialize_ok n) O) as (j & E & J & Lj). exists j. split; [done|]. intros r key Hr. apply mpi_getname_ok; [done|lia].
Qed.
End Job.

(** The collectives of an MPI that puts the parts one after the other. *)
Lemma concat_allgatherv_law : allgatherv_law (fun sends _ _ => concat sends).
Proof.
  intros sends counts displs -> H i send d Hs Hd. rewrite (H i d Hd). clear H Hd. unfold slice. revert i Hs.
  induction sends as [|x sends IH]; intros [|i] Hs; try done; cbn in Hs; [simplify_eq; cbn; by rewrite drop_0, take_app_length|].
  rewrite fmap_cons. cbn [take foldr concat]. specialize (IH i Hs).
  assert (0 <= foldr Z.add 0 (take i ((fun send => Z.of_nat (length send)) <$> sends))) as P by (clear; revert i; induction sends as [|y sends IH]; intros [|i]; cbn; try lia; specialize (IH i); cbn in IH; lia).
  rewrite Z2Nat.inj_add, Nat2Z.id by lia. by rewrite drop_app_add.
Qed.
Lemma text_ok (s : list Z) : forallb (fun c => negb (c =? 0)) s = true -> (length s <? STRING_LIMIT)%nat = true -> is_text s.
Proof.
  intros H L. split; [|by apply Nat.ltb_lt]. intros Hin. by pose proof (proj1 (forallb_forall _ _) H 0 (proj1 (list_elem_of_In _ _) Hin)).
Qed.
Definition two_ranks : list mpi_op := [MPublish 1 (chars "a") (chars "x"); MPublish 0 (chars "a") (chars "y"); MPublish 1 (chars "b") (chars "z"); MBarrier].
Lemma mpi_board_witness : exists j, mpi_run 0 id (fun sends _ _ => concat sends) two_ranks (mpi_initialize 2) = Ok j /\
  mpi_getname (chars "a") 1 j = Ok (chars "y") /\ mpi_getname (chars "b") 0 j = Ok (chars "z").
Proof.
  destruct (mpi_board 0 id (fun sends _ _ => concat sends) (fun _ => eq_refl) concat_allgatherv_law 2 two_ranks) as (j & E & G).
  - cbn. repeat split; try lia; try (apply text_ok; reflexivity).
  - exists j. split; [exact E|]. split; [rewrite (G 1%nat); [reflexivity|lia]|rewrite (G 0%nat); [reflexivity|lia]].
Defined.

(** ** The choice of the backend *)

Inductive pmi_backend : Type := BLocal | BFile | BTcp | BPmi1 | BPmi2 | BPmix | BMpi.
#[export] Instance pmi_backend_eq_dec : EqDecision pmi_backend.
Proof. solve_decision. Defined.
Definition backend_names : list (string * pmi_backend) :=
  [("local", BLocal); ("file", BFile); ("tcp", BTcp); ("pmi1", BPmi1); ("pmi2", BPmi2); ("pmix", BPmix); ("mpi", BMpi)]%string.
Fixpoint backend_of (word : list Z) (names : list (string * pmi_backend)) : option pmi_backend :=
  match names with [] => None | (n, b) :: names => if bool_decide (word = chars n) then Some b else backend_of word names end.

(** [atoi] (of a number that fits an [int]) and the number of ranks of the file backend. *)
Definition atoi (l : list Z) : Z := match strtol l with Some (n, _) => n | None => 0 end.
Definition get_nranks_from_env (env : env_t) : Z :=
  match env "LCT_PMI_FILE_NRANKS", env "SLURM_NTASKS" with
  | Some l, _ => atoi l
  | None, Some l => atoi l
  | None, None => 0
  end.
Definition backend_available (env : env_t) (b : pmi_backend) : result bool :=
  match b with
  | BLocal | BMpi => Ok true
  | BFile => Ok (1 <? get_nranks_from_env env)
  | BTcp => check_availability env
  | BPmi1 | BPmi2 => Ok (bool_decide (is_Some (env "PMI_RANK")))
  | BPmix => Ok (bool_decide (is_Some (env "PMIX_RANK")))
  end.

Section Select.
(** The backends that are compiled in, and the list used without a setting. *)
Variables (pmi1 pmi2 pmix mpi : bool) (LCT_PMI_BACKEND_DEFAULT : list Z).
Definition backend_enabled (b : pmi_backend) : bool :=
  match b with BLocal | BFile | BTcp => true | BPmi1 => pmi1 | BPmi2 => pmi2 | BPmix => pmix | BMpi => mpi end.
Fixpoint select_backend (env : env_t) (words : list (list Z)) : result pmi_backend :=
  match words with
  | [] => Err (AssertFailed "Did not find valid PMI backend! Give up!")
  | word :: words =>
      match backend_of word backend_names with
      | None => Err (AssertFailed "Unknown env LCT_PMI_BACKEND")
      | Some b =>
          if backend_enabled b then
            available ← backend_available env b ;
            if available : bool then Ok b else select_backend env words
          else select_backend env words
      end
  end.
(** The count of initialisations and the backend in use. *)
Record pmi_state : Type := mk_pmi { lcti_pmi_init_count : Z; lcti_pmi_ops : option pmi_backend; pmi_up : bool }.
Definition LCT_pmi_initialize (env : env_t) (s : pmi_state) : result pmi_state :=
  if 0 <? lcti_pmi_init_count s then Ok (mk_pmi (lcti_pmi_init_count s + 1) (lcti_pmi_ops s) (pmi_up s))
  else
    let backends_str := match env "LCT_PMI_BACKEND" with None => LCT_PMI_BACKEND_DEFAULT | Some l => l end in
    b ← select_backend env (tokens [] backends_str) ;
    Ok (mk_pmi (lcti_pmi_init_count s + 1) (Some b) true).
Definition LCT_pmi_initialized (s : pmi_state) : bool := 0 <? lcti_pmi_init_count s.
Definition LCT_pmi_finalize (s : pmi_state) : pmi_state :=
  if lcti_pmi_init_count s <=? 0 then s
  else if 0 <? lcti_pmi_init_count s - 1 then mk_pmi (lcti_pmi_init_count s - 1) (lcti_pmi_ops s) (pmi_up s)
  else mk_pmi (lcti_pmi_init_count s - 1) (lcti_pmi_ops s) false.

(** Calls of a process: [true] initialises and [false] finalises. *)
Fixpoint pmi_calls (env : env_t) (calls : list bool) (s : pmi_state) : result pmi_state :=
  match calls with
  | [] => Ok s
  | true :: calls => s ← LCT_pmi_initialize env s ; pmi_calls env calls s
  | false :: calls => pmi_calls env calls (LCT_pmi_finalize s)
  end.
(** Initialisations without their finalisation; an unmatched finalisation counts for nothing. *)
Fixpoint open_calls (calls : list bool) (n : Z) : Z :=
  match calls with [] => n | true :: calls => open_calls calls (n + 1) | false :: calls => open_calls calls (Z.max 0 (n - 1)) end.

Definition skipped (env : env_t) (word : list Z) : Prop :=
  exists b, backend_of word backend_names = Some b /\ (backend_enabled b = false \/ backend_available env b = Ok false).
Lemma select_backend_Ok env words b : select_backend env words = Ok b ->
  exists before word after, words = before ++ word :: after /\ Forall (skipped env) before /\
    backend_of word backend_names = Some b /\ backend_enabled b = true /\ backend_available env b = Ok true.
Proof.
  induction words as [|word words IH]; intros H; [done|]. cbn [select_backend] in H. destruct (backend_of word backend_names) as [b'|] eqn:Eb; [|done].
  destruct (backend_enabled b') eqn:Ee; [apply bind_Ok in H as ([|] & Ea & H); [simplify_eq; by exists [], word, words|]|].
  all: destruct (IH H) as (before & w & after & -> & F & R); exists (word :: before), w, after; (split; [done|]); split; [|done]; constructor; [|done]; exists b'; auto.
Qed.
Definition pmi_inv (env : env_t) (n : Z) (s : pmi_state) : Prop :=
  lcti_pmi_init_count s = n /\ 0 <= n /\ pmi_up s = (0 <? n) /\
  (0 < n -> exists b, lcti_pmi_ops s = Some b /\
     select_backend env (tokens [] (match env "LCT_PMI_BACKEND" with None => LCT_PMI_BACKEND_DEFAULT | Some l => l end)) = Ok b).
Lemma pmi_calls_inv env calls n s s' : pmi_inv env n s -> pmi_calls env calls s = Ok s' -> pmi_inv env (open_calls calls n) s'.
Proof.
  revert n s. induction calls as [|[|] calls IH]; intros n s (<- & Hn & Hu & Hb) H; cbn [pmi_calls open_calls] in *; [by injection H as <-| |].
  - apply bind_Ok in H as (s1 & E & H). eapply IH; [|exact H]. unfold LCT_pmi_initialize in E. destruct (Z.ltb_spec 0 (lcti_pmi_init_count s)) as [L|L].
    + injection E as <-. split; [done|]. cbn. split; [lia|]. split; [rewrite Hu; symmetry; apply Z.ltb_lt; lia|auto].
    + apply bind_Ok in E as (b & Eb & E). injection E as <-. split; [done|]. cbn. split; [lia|]. split; [symmetry; apply Z.ltb_lt; lia|eauto].
  - eapply IH; [|exact H]. unfold LCT_pmi_finalize, pmi_inv. destruct (Z.leb_spec (lcti_pmi_init_count s) 0) as [L|L]; [|destruct (Z.ltb_spec 0 (lcti_pmi_init_count s - 1)) as [L1|L1]]; cbn.
    + rewrite Z.max_l by lia. replace (lcti_pmi_init_count s) with 0 in * by lia. split_and!; [done|lia|done|lia].
    + rewrite Z.max_r by lia. split_and!; [done|lia| |intros _; apply Hb; lia]. rewrite Hu. rewrite (proj2 (Z.ltb_lt _ _) L), (proj2 (Z.ltb_lt _ _) L1). done.
    + rewrite Z.max_r by lia. split_and!; [done|lia|symmetry; apply Z.ltb_ge; lia|lia].
Qed.

(** The process management is up exactly while an initialisation is not matched by a finalisation,
    and then uses the first backend of the list that is compiled in and available: the words before
    it are names of backends that are not. *)
Theorem pmi_up_while_used env calls s : pmi_calls env calls (mk_pmi 0 None false) = Ok s ->
  pmi_up s = LCT_pmi_initialized s /\ lcti_pmi_init_count s = open_calls calls 0 /\
  (LCT_pmi_initialized s = true -> exists b before word after,
     lcti_pmi_ops s = Some b /\
     tokens [] (match env "LCT_PMI_BACKEND" with None => LCT_PMI_BACKEND_DEFAULT | Some l => l end) = before ++ word :: after /\
     Forall (skipped env) before /\ backend_of word backend_names = Some b /\ backend_enabled b = true /\ backend_available env b = Ok true).
Proof.
  intros H. eapply (pmi_calls_inv env _ 0) in H as (E & Hn & Hu & Hb); [|split_and!; [done|lia|done|lia]]. unfold LCT_pmi_initialized. rewrite E. split; [done|]. split; [done|].
  intros U. apply Z.ltb_lt in U. destruct (Hb U) as (b & Eo & Es). destruct (select_backend_Ok _ _ _ Es) as (before & word & after & R). by exists b, before, word, after.
Qed.
End Select.
