(* ===== verification/OfiPost.v ===== *)
(** * The libfabric backend: posts, receives and completions

    src/src/network/ofi/backend_ofi_inline.hpp. The library is a parameter: what it makes
    of a request, and what its completion queue holds. *)
From stdpp Require Import base numbers functions list gmap strings.
From Stdlib Require Import ZArith Lia.
From S2P Require Import Prelude Bits Status Memory Net Endpoint Backlog.

(** Error numbers that the code tells apart. *)
Inductive fi_errno : Type := FI_EAGAIN | FI_EAVAIL | FI_EOTHER.
Inductive fi_call : Type := fi_sendmsg | fi_senddata | fi_writemsg | fi_writedata | fi_inject_writedata | fi_readmsg.
Inductive fi_flag : Type := FI_INJECT | FI_COMPLETION | FI_DELIVERY_COMPLETE | FI_REMOTE_CQ_DATA.
#[export] Instance fi_flag_eq_dec : EqDecision fi_flag.
Proof. solve_decision. Defined.

(** The arguments of a call: local buffer, descriptor, peer, remote address and key, data for
    the peer's completion, context and flags. [fi_inject_writedata] takes no context, and
    only the three calls with a message structure take flags. *)
Record fi_request : Type := mk_fi {
  fr_call : fi_call;
  fr_buffer : Z; fr_size : Z; fr_desc : option Z;
  fr_addr : Z;
  fr_remote : option (Z * Z);
  fr_data : Z;
  fr_context : option Z;
  fr_flags : list fi_flag
}.
Definition takes_flags (c : fi_call) : bool := match c with fi_sendmsg | fi_writemsg | fi_readmsg => true | _ => false end.

Definition LCI_NET_TRYLOCK_SEND : Z := 1.
Definition LCI_NET_TRYLOCK_RECV : Z := 2.
Definition LCI_NET_TRYLOCK_POLL : Z := 4.

Record ofi_device : Type := mk_ofi_device {
  od_my_rank : Z;
  od_peer_addrs : list Z;
  od_virt_addr : bool;
  od_use_cxi_writedata : bool;
  od_lock_mode : Z
}.
(** The library, and the contexts that were handed to [free_ctx_and_signal_comp]. *)
Record ofi_state (V : Type) : Type := mk_ofi { of_lib : V; of_retired : list Z }.
Arguments mk_ofi {V}.
Arguments of_lib {V}.
Arguments of_retired {V}.

Definition get_remote_addr (rmr : rmr_t) (offset : Z) (virt_addr : bool) : Z :=
  if virt_addr then u64 (rmr_base rmr + offset) else u64 (u64 (rmr_base rmr - rmr_mr_base rmr) + offset).

Section Post.
Context {V : Type}.
Variable dev : ofi_device.
(** Whether another thread holds the device's lock; descriptors of registrations; what the
    library answers to a request. *)
Variables (lock_taken : V -> bool) (fi_mr_desc : Z -> Z) (fi_submit : fi_request -> V -> option fi_errno * V).

Definition peer_addr (rank : Z) : result Z :=
  if rank <? 0 then Err (Undefined "peer_addrs")
  else match od_peer_addrs dev !! Z.to_nat rank with Some a => Ok a | None => Err (Undefined "peer_addrs") end.
Definition enters (mode : Z) (v : V) : bool := (Z.land (od_lock_mode dev) mode =? 0) || negb (lock_taken v).

(** The call between [LCI_OFI_CS_TRY_ENTER] and [LCI_OFI_CS_EXIT], and what is made of its answer. *)
Definition submit (success : errorcode_t) (after : ST (ofi_state V) unit) (r : fi_request) : ST (ofi_state V) errorcode_t :=
  v ← gets of_lib ;
  if negb (enters LCI_NET_TRYLOCK_SEND v) then mret ec_retry_lock
  else
    let '(ret, v) := fi_submit r v in
    modify (fun s => mk_ofi v (of_retired s)) ;;
    match ret with
    | None => after ;; mret success
    | Some FI_EAGAIN => mret ec_retry_nomem
    | Some _ => fail_with (AssertFailed "FI_SAFECALL_RET")
    end.
Definition nothing : ST (ofi_state V) unit := mret tt.
Definition cq_data (imm_data : Z) : Z := Z.lor (u64 (Z.shiftl (od_my_rank dev) 32)) imm_data.

Definition post_sends_impl (rank buffer size imm_data user_context : Z) : ST (ofi_state V) errorcode_t :=
  addr ← lift (peer_addr rank) ;
  submit ec_done nothing
    (mk_fi fi_sendmsg buffer size None addr None (cq_data imm_data) (Some user_context) [FI_INJECT; FI_COMPLETION; FI_REMOTE_CQ_DATA]).
Definition post_send_impl (rank buffer size mr imm_data user_context : Z) : ST (ofi_state V) errorcode_t :=
  addr ← lift (peer_addr rank) ;
  submit ec_posted nothing (mk_fi fi_senddata buffer size (Some (fi_mr_desc mr)) addr None (cq_data imm_data) (Some user_context) []).
Definition remote (rmr : rmr_t) (offset : Z) : option (Z * Z) := Some (get_remote_addr rmr offset (od_virt_addr dev), rmr_opaque_rkey rmr).
Definition post_puts_impl (rank buffer size offset : Z) (rmr : rmr_t) (user_context : Z) : ST (ofi_state V) errorcode_t :=
  addr ← lift (peer_addr rank) ;
  submit ec_done nothing
    (mk_fi fi_writemsg buffer size None addr (remote rmr offset) 0 (Some user_context) [FI_INJECT; FI_COMPLETION; FI_DELIVERY_COMPLETE]).
Definition post_put_impl (rank buffer size mr offset : Z) (rmr : rmr_t) (user_context : Z) : ST (ofi_state V) errorcode_t :=
  addr ← lift (peer_addr rank) ;
  submit ec_posted nothing
    (mk_fi fi_writemsg buffer size (Some (fi_mr_desc mr)) addr (remote rmr offset) 0 (Some user_context) [FI_COMPLETION; FI_DELIVERY_COMPLETE]).
Definition cxi_inject_writedata_workaround (rank buffer size offset : Z) (rmr : rmr_t) (imm_data user_context : Z) : ST (ofi_state V) errorcode_t :=
  addr ← lift (peer_addr rank) ;
  submit ec_done (if user_context =? 0 then nothing else modify (fun s => mk_ofi (of_lib s) (of_retired s ++ [user_context])))
    (mk_fi fi_inject_writedata buffer size None addr (remote rmr offset) imm_data None []).
Definition post_putImms_impl (rank buffer size offset : Z) (rmr : rmr_t) (imm_data user_context : Z) : ST (ofi_state V) errorcode_t :=
  if od_use_cxi_writedata dev then cxi_inject_writedata_workaround rank buffer size offset rmr imm_data user_context
  else
    addr ← lift (peer_addr rank) ;
    submit ec_done nothing
      (mk_fi fi_writemsg buffer size None addr (remote rmr offset) imm_data (Some user_context)
         [FI_INJECT; FI_COMPLETION; FI_DELIVERY_COMPLETE; FI_REMOTE_CQ_DATA]).
Definition cxi_writedata_workaround (rank buffer size mr offset : Z) (rmr : rmr_t) (imm_data user_context : Z) : ST (ofi_state V) errorcode_t :=
  addr ← lift (peer_addr rank) ;
  submit ec_posted nothing
    (mk_fi fi_writedata buffer size (Some (fi_mr_desc mr)) addr (remote rmr offset) imm_data (Some user_context) []).
Definition post_putImm_impl (rank buffer size mr offset : Z) (rmr : rmr_t) (imm_data user_context : Z) : ST (ofi_state V) errorcode_t :=
  if od_use_cxi_writedata dev then cxi_writedata_workaround rank buffer size mr offset rmr imm_data user_context
  else
    addr ← lift (peer_addr rank) ;
    submit ec_posted nothing
      (mk_fi fi_writemsg buffer size (Some (fi_mr_desc mr)) addr (remote rmr offset) imm_data (Some user_context)
         [FI_COMPLETION; FI_DELIVERY_COMPLETE; FI_REMOTE_CQ_DATA]).
Definition post_get_impl (rank buffer size mr offset : Z) (rmr : rmr_t) (user_context : Z) : ST (ofi_state V) errorcode_t :=
  addr ← lift (peer_addr rank) ;
  submit ec_posted nothing
    (mk_fi fi_readmsg buffer size (Some (fi_mr_desc mr)) addr (remote rmr offset) 0 (Some user_context) [FI_COMPLETION]).

(** The virtual call of an endpoint's operation; no post looks at its priority. *)
Definition ofi_post (o : net_op_t) : ST (ofi_state V) errorcode_t :=
  match no_op o with
  | bo_sends => post_sends_impl (no_rank o) (no_buffer o) (no_size o) (no_imm_data o) (no_user_context o)
  | bo_send => post_send_impl (no_rank o) (no_buffer o) (no_size o) (no_mr o) (no_imm_data o) (no_user_context o)
  | bo_puts => post_puts_impl (no_rank o) (no_buffer o) (no_size o) (no_offset o) (no_rmr o) (no_user_context o)
  | bo_put => post_put_impl (no_rank o) (no_buffer o) (no_size o) (no_mr o) (no_offset o) (no_rmr o) (no_user_context o)
  | bo_putImms => post_putImms_impl (no_rank o) (no_buffer o) (no_size o) (no_offset o) (no_rmr o) (no_imm_data o) (no_user_context o)
  | bo_putImm => post_putImm_impl (no_rank o) (no_buffer o) (no_size o) (no_mr o) (no_offset o) (no_rmr o) (no_imm_data o) (no_user_context o)
  | bo_get => post_get_impl (no_rank o) (no_buffer o) (no_size o) (no_mr o) (no_offset o) (no_rmr o) (no_user_context o)
  end.
(** As the backend of the endpoint model. A failed assertion ends the process, so that
    the code given for it reaches no caller. *)
Definition ofi_impl (o : net_op_t) (hp : bool) (m : memory) (b : ofi_state V) : errorcode_t * ofi_state V :=
  match ofi_post o b with Ok x => x | Err _ => (ec_retry_nomem, b) end.

(** ** What a post does *)

Definition is_send (k : backlog_op_t) : bool := match k with bo_sends | bo_send => true | _ => false end.
Definition has_imm (k : backlog_op_t) : bool := match k with bo_putImms | bo_putImm => true | _ => false end.
(** The request that describes an operation: the bytes, the peer, the place in the peer's
    memory, counted from its start or from the start of the region, and the data that the
    peer's completion carries. The library gets the operation's context, and is asked for a
    completion where the call has flags; only an injected write on CXI takes none. *)
Definition describes (o : net_op_t) (addr : Z) (r : fi_request) : Prop :=
  fr_buffer r = no_buffer o /\ fr_size r = no_size o /\ fr_addr r = addr
  /\ fr_context r = (if od_use_cxi_writedata dev && bool_decide (no_op o = bo_putImms) then None else Some (no_user_context o))
  /\ (takes_flags (fr_call r) = true -> FI_COMPLETION ∈ fr_flags r
       /\ (FI_INJECT ∈ fr_flags r <-> is_short (no_op o) = true)
       /\ (FI_REMOTE_CQ_DATA ∈ fr_flags r <-> is_send (no_op o) || has_imm (no_op o) = true))
  /\ fr_desc r = (if is_short (no_op o) then None else Some (fi_mr_desc (no_mr o)))
  /\ (if is_send (no_op o) then fr_remote r = None
      else exists a, fr_remote r = Some (a, rmr_opaque_rkey (no_rmr o))
        /\ u64 (a + if od_virt_addr dev then 0 else rmr_mr_base (no_rmr o)) = u64 (rmr_base (no_rmr o) + no_offset o))
  /\ fr_data r = (if is_send (no_op o) then cq_data (no_imm_data o) else if has_imm (no_op o) then no_imm_data o else 0)
  /\ (match fr_call r with
      | fi_sendmsg | fi_senddata => is_send (no_op o) = true
      | fi_readmsg => no_op o = bo_get
      | _ => is_send (no_op o) = false /\ no_op o <> bo_get
      end).

Lemma remote_describes rmr offset :
  exists a, remote rmr offset = Some (a, rmr_opaque_rkey rmr)
    /\ u64 (a + if od_virt_addr dev then 0 else rmr_mr_base rmr) = u64 (rmr_base rmr + offset).
Proof.
  eexists. split; [reflexivity|]. unfold get_remote_addr, u64. destruct (od_virt_addr dev).
  - rewrite Z.add_0_r. apply Z.mod_mod. lia.
  - rewrite Zplus_mod_idemp_l, <- Z.add_assoc, Zplus_mod_idemp_l. f_equal. lia.
Qed.
(** The context of an operation that the library was not given. *)
Definition retired_by (o : net_op_t) (r : fi_request) : list Z :=
  match fr_context r with Some _ => [] | None => if no_user_context o =? 0 then [] else [no_user_context o] end.
Definition success_of (o : net_op_t) : errorcode_t := if is_short (no_op o) then ec_done else ec_posted.

Lemma ofi_post_submit o addr (s : ofi_state V) :
  peer_addr (no_rank o) = Ok addr ->
  exists after r, ofi_post o s = submit (success_of o) after r s /\ describes o addr r
    /\ (forall s, after s = Ok (tt, mk_ofi (of_lib s) (of_retired s ++ retired_by o r))).
Proof.
  intros Ha. destruct o as [k rank buffer size mr offset rmr imm uctx].
  unfold ofi_post, post_sends_impl, post_send_impl, post_puts_impl, post_put_impl, post_putImms_impl, post_putImm_impl, post_get_impl,
    cxi_inject_writedata_workaround, cxi_writedata_workaround, success_of, describes in *.
  cbn [no_op no_rank no_buffer no_size no_mr no_offset no_rmr no_imm_data no_user_context] in *.
  assert (Hl : forall k : Z -> ST (ofi_state V) errorcode_t, (lift (peer_addr rank) ≫= k) s = k addr s).
  { intros f. unfold lift, mbind, st_bind. by rewrite Ha. }
  assert (Hn : forall s : ofi_state V, nothing s = Ok (tt, mk_ofi (of_lib s) (of_retired s ++ []))).
  { intros [v l]. cbn. by rewrite app_nil_r. }
  destruct (remote_describes rmr offset) as (a & Hr1 & Hr2).
  destruct k; cbn [is_short is_send has_imm]; try destruct (od_use_cxi_writedata dev); rewrite Hl; eexists _, _;
    (split; [reflexivity|]);
    (split; [cbn; rewrite ?Hr1; split_and!; try done; try (by exists a);
             intros _; split_and!; refine (bool_decide_unpack _ _); vm_compute; exact I|]); try exact Hn.
  intros [v l]. unfold retired_by. cbn. destruct (uctx =? 0); cbn; [by rewrite app_nil_r|done].
Qed.

(** The lock is taken by another thread; the library takes the request, has no room for it,
    or fails, which ends the process. *)
Inductive post_outcome (o : net_op_t) (r : fi_request) (s : ofi_state V) : result (errorcode_t * ofi_state V) -> Prop :=
  | outcome_locked : enters LCI_NET_TRYLOCK_SEND (of_lib s) = false -> post_outcome o r s (Ok (ec_retry_lock, s))
  | outcome_taken v :
      enters LCI_NET_TRYLOCK_SEND (of_lib s) = true -> fi_submit r (of_lib s) = (None, v) ->
      post_outcome o r s (Ok (success_of o, mk_ofi v (of_retired s ++ retired_by o r)))
  | outcome_refused v :
      enters LCI_NET_TRYLOCK_SEND (of_lib s) = true -> fi_submit r (of_lib s) = (Some FI_EAGAIN, v) ->
      post_outcome o r s (Ok (ec_retry_nomem, mk_ofi v (of_retired s)))
  | outcome_fails e v :
      enters LCI_NET_TRYLOCK_SEND (of_lib s) = true -> fi_submit r (of_lib s) = (Some e, v) -> e <> FI_EAGAIN ->
      post_outcome o r s (Err (AssertFailed "FI_SAFECALL_RET")).

(** C20: a post on a libfabric endpoint, whatever the library answers. It is one call with
    the request that describes the operation. If the library takes it, the post is done for
    the short operations and posted for the others, and the operation's context was either
    given to the library or, for an injected write on CXI, which takes none, completed at
    once: never both. Without the lock the library is not called, and if it has no room the
    post asks to retry: in both cases no context is completed. Any other error of the
    library ends the process. *)
Theorem ofi_post_hands_over o addr s :
  peer_addr (no_rank o) = Ok addr -> exists r, describes o addr r /\ post_outcome o r s (ofi_post o s).
Proof.
  intros Ha. destruct (ofi_post_submit o addr s Ha) as (after & r & -> & Hd & Hf). exists r. split; [done|].
  unfold submit. destruct s as [v l]. unfold gets. unfold mbind at 1, st_bind at 1. cbn [of_lib].
  destruct (enters LCI_NET_TRYLOCK_SEND v) eqn:El; cbn [negb]; [|by apply outcome_locked].
  destruct (fi_submit r v) as [ret v'] eqn:Er. unfold modify, mbind, st_bind. cbn [of_lib of_retired].
  destruct ret as [e|]; [destruct e|].
  - by apply (outcome_refused o r (mk_ofi v l)).
  - by eapply outcome_fails.
  - by eapply outcome_fails.
  - rewrite Hf. by apply (outcome_taken o r (mk_ofi v l)).
Qed.

Lemma submit_not_retry success after r (s : ofi_state V) e s' :
  submit success after r s = Ok (e, s') -> is_retry e = false -> e = success.
Proof.
  unfold submit. intros H Hr. apply st_bind_Ok in H as (v & s1 & _ & H). destruct (enters _ v); cbn [negb] in H; [|by injection H as <- _].
  destruct (fi_submit r v) as [ret v']. apply st_bind_Ok in H as (? & ? & _ & H). destruct ret as [[]|]; [by injection H as <- _|discriminate H|discriminate H|].
  apply st_bind_Ok in H as (? & ? & _ & H). by injection H as <- _.
Qed.
(** The libfabric backend keeps the contract of the endpoint model as well, whatever the
    library answers: what it says except retry is done for the short operations and posted
    for the others. *)
Theorem ofi_backend_codes : backend_codes ofi_impl.
Proof.
  intros o hp m s. cbn zeta. unfold ofi_impl. destruct (ofi_post o s) as [[e s']|f] eqn:E; cbn [fst]; [|done]. intros Hr.
  destruct (peer_addr (no_rank o)) as [addr|f] eqn:Ha.
  - destruct (ofi_post_submit o addr s Ha) as (after & r & E' & _). rewrite E in E'.
    rewrite (submit_not_retry _ _ _ _ _ _ (eq_sym E') Hr). unfold success_of. by destruct (is_short (no_op o)).
  - exfalso. unfold ofi_post, post_sends_impl, post_send_impl, post_puts_impl, post_put_impl, post_putImms_impl, post_putImm_impl, post_get_impl,
      cxi_inject_writedata_workaround, cxi_writedata_workaround, lift, mbind, st_bind in E. rewrite Ha in E.
    by destruct (no_op o), (od_use_cxi_writedata dev).
Qed.
End Post.

(** ** Receives *)

Section Recv.
Context {V : Type}.
Variables (dev : ofi_device) (lock_taken : V -> bool) (fi_mr_desc : Z -> Z).
(** Buffer, size, descriptor and context of a receive. *)
Variable fi_recv : Z -> Z -> Z -> Z -> V -> option fi_errno * V.

Definition post_recv_impl (buffer size mr user_context : Z) : ST V errorcode_t := fun v =>
  let mr_desc := fi_mr_desc mr in
  if negb (enters dev lock_taken LCI_NET_TRYLOCK_RECV v) then Ok (ec_retry_lock, v)
  else
    let '(ret, v) := fi_recv buffer size mr_desc user_context v in
    match ret with
    | None => Ok (ec_done, v)
    | Some FI_EAGAIN => Ok (ec_retry_nomem, v)
    | Some _ => Err (AssertFailed "FI_SAFECALL_RET")
    end.
(** The loop: receives posted and the last answer; [None] is the variable that no call has set. *)
Fixpoint post_recvs_loop (recvs : list (Z * Z)) (size mr_desc n_posted : Z) (error : option (option fi_errno)) (v : V) :
    Z * option (option fi_errno) * V :=
  match recvs with
  | [] => (n_posted, error, v)
  | (buffer, user_context) :: recvs =>
      let '(ret, v) := fi_recv buffer size mr_desc user_context v in
      match ret with
      | None => post_recvs_loop recvs size mr_desc (n_posted + 1) (Some ret) v
      | Some _ => (n_posted, Some ret, v)
      end
  end.
Definition post_recvs_impl (recvs : list (Z * Z)) (size mr : Z) : ST V Z := fun v =>
  let mr_desc := fi_mr_desc mr in
  if negb (enters dev lock_taken LCI_NET_TRYLOCK_RECV v) then Ok (0, v)
  else
    let '(n_posted, error, v) := post_recvs_loop recvs size mr_desc 0 None v in
    match error with
    | None => Err (Undefined "error is read before it is set")
    | Some None | Some (Some FI_EAGAIN) => Ok (n_posted, v)
    | Some _ => Err (AssertFailed "FI_SAFECALL")
    end.

(** The library's state after it took these receives one after the other. *)
Inductive takes (size mr_desc : Z) : list (Z * Z) -> V -> V -> Prop :=
  | takes_nil v : takes size mr_desc [] v v
  | takes_cons b u recvs v v' v'' :
      fi_recv b size mr_desc u v = (None, v') -> takes size mr_desc recvs v' v'' -> takes size mr_desc ((b, u) :: recvs) v v''.

Lemma post_recvs_loop_ok recvs size d n e v n' e' v' :
  post_recvs_loop recvs size d n e v = (n', e', v') ->
  exists k v1, (k <= length recvs)%nat /\ n' = n + Z.of_nat k /\ takes size d (take k recvs) v v1
    /\ (if decide (k = length recvs) then v' = v1 /\ (recvs <> [] -> e' = Some None) /\ (recvs = [] -> e' = e)
        else exists b u x, recvs !! k = Some (b, u) /\ fi_recv b size d u v1 = (Some x, v') /\ e' = Some (Some x)).
Proof.
  revert n e v. induction recvs as [|[b u] recvs IH]; intros n e v H; cbn [post_recvs_loop] in H.
  - injection H as <- <- <-. exists 0%nat, v. cbn. split_and!; [lia|lia|constructor|done].
  - destruct (fi_recv b size d u v) as [[x|] v2] eqn:E.
    + injection H as <- <- <-. exists 0%nat, v. cbn. split_and!; [lia|lia|constructor|]. by exists b, u, x.
    + destruct (IH _ _ _ H) as (k & v1 & Hk & -> & Ht & Hd). exists (S k), v1. cbn [length take]. split_and!; [lia|lia|by econstructor|].
      destruct (decide (k = length recvs)) as [->|Hne].
      * rewrite decide_True by done. destruct Hd as (-> & H1 & H2). split_and!; [done| |done]. intros _.
        destruct recvs as [|y recvs]; [by apply H2|by apply H1].
      * rewrite decide_False by lia. exact Hd.
Qed.
(** Receives posted in a batch: with the lock, the library has taken as many as the code
    says, the first ones and in order, and refused the next one if there is one. *)
Theorem ofi_recvs_in_order recvs size mr v :
  (forall b s d u v, (fi_recv b s d u v).1 = None \/ (fi_recv b s d u v).1 = Some FI_EAGAIN) ->
  recvs <> [] -> enters dev lock_taken LCI_NET_TRYLOCK_RECV v = true ->
  exists k v1 v', post_recvs_impl recvs size mr v = Ok (Z.of_nat k, v') /\ (k <= length recvs)%nat
    /\ takes size (fi_mr_desc mr) (take k recvs) v v1
    /\ (if decide (k = length recvs) then v' = v1
        else exists b u, recvs !! k = Some (b, u) /\ fi_recv b size (fi_mr_desc mr) u v1 = (Some FI_EAGAIN, v')).
Proof.
  intros Hc Hne Hl. unfold post_recvs_impl. rewrite Hl. cbn [negb].
  destruct (post_recvs_loop recvs size (fi_mr_desc mr) 0 None v) as [[n e] v'] eqn:E.
  destruct (post_recvs_loop_ok _ _ _ _ _ _ _ _ _ E) as (k & v1 & Hk & -> & Ht & Hd). exists k, v1, v'. rewrite Z.add_0_l.
  destruct (decide (k = length recvs)) as [->|Hn].
  - destruct Hd as (-> & He & _). rewrite He by done. done.
  - destruct Hd as (b & u & x & Hb & Hr & ->). pose proof (Hc b size (fi_mr_desc mr) u v1) as Hx. rewrite Hr in Hx. cbn in Hx.
    destruct Hx as [|Hx]; [done|]. injection Hx as ->. split_and!; [done|done|done|]. by exists b, u.
Qed.
End Recv.

(** ** Completions *)

Inductive cq_flag : Type := FI_RECV | FI_REMOTE_WRITE | FI_SEND | FI_WRITE | FI_READ.
#[export] Instance cq_flag_eq_dec : EqDecision cq_flag.
Proof. solve_decision. Defined.
Record cq_entry : Type := mk_cq_entry { ce_flags : list cq_flag; ce_op_context : Z; ce_len : Z; ce_data : Z }.
Definition has (f : cq_flag) (flags : list cq_flag) : bool := bool_decide (f ∈ flags).

Definition entry_status (e : cq_entry) : net_status_t :=
  let flags := ce_flags e in
  if has FI_RECV flags then
    mk_net_status op_RECV (i32 (Z.shiftr (ce_data e) 32)) (ce_op_context e) (ce_len e) (Z.land (ce_data e) (2 ^ 32 - 1))
  else if has FI_REMOTE_WRITE flags then mk_net_status op_REMOTE_WRITE 0 0 0 (u32 (ce_data e))
  else if has FI_SEND flags then mk_net_status op_SEND 0 (ce_op_context e) 0 0
  else if has FI_WRITE flags then mk_net_status op_WRITE 0 (ce_op_context e) 0 0
  else mk_net_status op_READ 0 (ce_op_context e) 0 0.
Definition error_status (flags : list cq_flag) (op_context : Z) : net_status_t :=
  let is_outgoing := (has FI_SEND flags || has FI_WRITE flags || has FI_READ flags) && negb (has FI_RECV flags || has FI_REMOTE_WRITE flags) in
  mk_net_status op_ERROR (-1) (if is_outgoing then op_context else 0) 0 0.

Section Poll.
Context {V : Type}.
Variables (dev : ofi_device) (lock_taken : V -> bool).
(** At most so many entries, or an error; the flags and the context of an error entry. *)
Variable fi_cq_read : nat -> V -> (fi_errno + list cq_entry) * V.
Variable fi_cq_readerr : V -> (fi_errno + list cq_flag * Z) * V.

Definition poll_comp_impl (max_polls : nat) (want : bool) : ST V (Z * list net_status_t) := fun v =>
  if negb (enters dev lock_taken LCI_NET_TRYLOCK_POLL v) then Ok (0, [], v)
  else
    match fi_cq_read max_polls v with
    | (inr (e :: entries), v) => Ok (Z.of_nat (length (e :: entries)), if want then entry_status <$> (e :: entries) else [], v)
    | (inl FI_EAGAIN, v) => Ok (0, [], v)
    | (inl FI_EAVAIL, v) =>
        match fi_cq_readerr v with
        | (inl FI_EAGAIN, v) => Ok (0, [], v)
        | (inl _, v) => Err (AssertFailed "fi_cq_readerr failed")
        | (inr (flags, op_context), v) => Ok (1, if want then [error_status flags op_context] else [], v)
        end
    | (_, v) => Err (AssertFailed "unexpected return error")
    end.
End Poll.

(** Which completion an entry stands for: of the five flags it has this one only. *)
Definition stands_for (f : cq_flag) (flags : list cq_flag) : Prop := forall g, g ∈ flags <-> g = f.
Definition opcode_of (f : cq_flag) : net_opcode_t :=
  match f with FI_RECV => op_RECV | FI_REMOTE_WRITE => op_REMOTE_WRITE | FI_SEND => op_SEND | FI_WRITE => op_WRITE | FI_READ => op_READ end.
Lemma has_stands f flags g : stands_for f flags -> has g flags = bool_decide (g = f).
Proof. intros H. unfold has. apply bool_decide_ext. apply H. Qed.

(** What a poll of a libfabric device reports: every entry of the completion queue once
    and in order, with the right opcode and, for operations of this process, their
    context; or one error, with the context of the failed operation only if it is one of
    this process. *)
Theorem ofi_poll_reports {V} dev (lock_taken : V -> bool) fi_cq_read fi_cq_readerr max_polls v :
  enters dev lock_taken LCI_NET_TRYLOCK_POLL v = true ->
  (forall entries v', fi_cq_read max_polls v = (inr entries, v') -> entries <> [] ->
     poll_comp_impl dev lock_taken fi_cq_read fi_cq_readerr max_polls true v = Ok (Z.of_nat (length entries), entry_status <$> entries, v'))
  /\ (forall e f, stands_for f (ce_flags e) ->
       ns_opcode (entry_status e) = opcode_of f /\ (f <> FI_REMOTE_WRITE -> ns_user_context (entry_status e) = ce_op_context e))
  /\ (forall v1 v' flags f c, fi_cq_read max_polls v = (inl FI_EAVAIL, v1) -> fi_cq_readerr v1 = (inr (flags, c), v') -> stands_for f flags ->
       exists st, poll_comp_impl dev lock_taken fi_cq_read fi_cq_readerr max_polls true v = Ok (1, [st], v') /\ ns_opcode st = op_ERROR
         /\ ns_user_context st = match f with FI_RECV | FI_REMOTE_WRITE => 0 | _ => c end).
Proof.
  intros Hl. unfold poll_comp_impl. rewrite Hl. cbn [negb]. split_and!.
  - intros entries v' -> Hne. by destruct entries.
  - intros e f Hf. unfold entry_status. rewrite !(has_stands f _ _ Hf). by destruct f.
  - intros v1 v' flags f c -> -> Hf. eexists. split; [reflexivity|]. split; [done|]. cbn. rewrite !(has_stands f _ _ Hf). by destruct f.
Qed.

Lemma cq_data_add dev imm : 0 <= od_my_rank dev < 2 ^ 31 -> is_u32 imm -> cq_data dev imm = od_my_rank dev * 2 ^ 32 + imm.
Proof.
  intros Hr Hi. unfold is_u32 in Hi. unfold cq_data, u64. rewrite Z.shiftl_mul_pow2, Z.mod_small by lia.
  assert (E : imm = imm mod 2 ^ 32) by (by rewrite Z.mod_small by lia).
  assert (Hz : Z.land (od_my_rank dev * 2 ^ 32) imm = 0).
  { apply Z.bits_inj'. intros k Hk. rewrite Z.land_spec, Z.bits_0. destruct (Z.lt_ge_cases k 32).
    - rewrite Z.mul_pow2_bits_low by done. done.
    - rewrite E, Z.mod_pow2_bits_high by lia. by rewrite andb_false_r. }
  by rewrite Z.add_nocarry_lxor, Z.lxor_lor.
Qed.
(** C33: Who sent a message. A provider that carries [k] bytes of completion data hands the
    receiver the sender's data modulo [2 ^ (8 k)]. The tag and handler bits always
    arrive; the rank arrives modulo [2 ^ (8 k - 32)]: whole with eight bytes, and as zero
    for every sender with the four bytes that the set-up of a context asks for. *)
Theorem ofi_sender_of_message dev imm k context len flags :
  0 <= od_my_rank dev < 2 ^ 31 -> is_u32 imm -> 4 <= k <= 8 -> FI_RECV ∈ flags ->
  entry_status (mk_cq_entry flags context len (cq_data dev imm mod 2 ^ (8 * k)))
  = mk_net_status op_RECV (od_my_rank dev mod 2 ^ (8 * k - 32)) context len imm.
Proof.
  intros Hr Hi Hk Hf. unfold entry_status, has. cbn [ce_flags ce_data ce_op_context ce_len]. rewrite bool_decide_true by done.
  rewrite cq_data_add by done. unfold is_u32 in Hi. set (r := od_my_rank dev) in *.
  assert (Hp : 2 ^ (8 * k) = 2 ^ 32 * 2 ^ (8 * k - 32)) by (rewrite <- Z.pow_add_r by lia; f_equal; lia).
  assert (Hpos : 0 < 2 ^ (8 * k - 32)) by (apply Z.pow_pos_nonneg; lia).
  assert (Hd : (r * 2 ^ 32 + imm) mod 2 ^ (8 * k) = (r mod 2 ^ (8 * k - 32)) * 2 ^ 32 + imm).
  { rewrite Hp. rewrite Z.rem_mul_r by lia.
    rewrite (Z.add_comm (r * 2 ^ 32)), Z.mod_add, Z.div_add, (Z.mod_small imm), (Z.div_small imm) by lia. rewrite Z.add_0_l. lia. }
  assert (Hb : 0 <= r mod 2 ^ (8 * k - 32) <= r) by (split; [apply Z.mod_pos_bound; lia|apply Z.mod_le; lia]).
  rewrite Hd. f_equal.
  - rewrite Z.shiftr_div_pow2, Z.div_add_l, (Z.div_small imm), Z.add_0_r by lia. unfold i32. rewrite Z.mod_small by lia. lia.
  - change (2 ^ 32 - 1) with (Z.ones 32). rewrite Z.land_ones, (Z.add_comm _ imm), Z.mod_add, Z.mod_small by lia. done.
Qed.

(** ** A library that records what it gets *)

Definition rec_submit (room : nat) (r : fi_request) (v : list fi_request) : option fi_errno * list fi_request :=
  if (length v <? room)%nat then (None, v ++ [r]) else (Some FI_EAGAIN, v).
Definition rec_recv (room : nat) (b s d u : Z) (v : list (Z * Z)) : option fi_errno * list (Z * Z) :=
  if (length v <? room)%nat then (None, v ++ [(b, u)]) else (Some FI_EAGAIN, v).
Definition rec_dev : ofi_device := mk_ofi_device 3 [500; 501; 502; 503] false true 7.
Definition rec_putImms : net_op_t := mk_op bo_putImms 1 4096 16 0 24 (mk_rmr 8192 8000 77) 5 99.

Lemma ofi_post_hands_over_witness :
  exists r, describes rec_dev Z.succ rec_putImms 501 r
    /\ post_outcome rec_dev (fun _ => false) (rec_submit 8) rec_putImms r (mk_ofi [] [])
         (ofi_post rec_dev (fun _ => false) Z.succ (rec_submit 8) rec_putImms (mk_ofi [] []))
    /\ exists s', ofi_post rec_dev (fun _ => false) Z.succ (rec_submit 8) rec_putImms (mk_ofi [] []) = Ok (ec_done, s') /\ of_retired s' = [99].
Proof.
  destruct (ofi_post_hands_over rec_dev (fun _ => false) Z.succ (rec_submit 8) rec_putImms 501 (mk_ofi [] []) eq_refl) as (r & Hd & H).
  exists r. split; [exact Hd|]. split; [exact H|]. eexists. split; [vm_compute; reflexivity|reflexivity].
Defined.
Lemma ofi_recvs_in_order_witness :
  exists v', post_recvs_impl rec_dev (fun _ => false) Z.succ (rec_recv 2) [(4096, 1); (8192, 2); (12288, 3)] 64 7 [] = Ok (2, v').
Proof.
  destruct (ofi_recvs_in_order rec_dev (fun _ => false) Z.succ (rec_recv 2) [(4096, 1); (8192, 2); (12288, 3)] 64 7 []) as (k & v1 & v' & E & _).
  - intros b s d u v. unfold rec_recv. destruct (length v <? 2)%nat; [left|right]; reflexivity.
  - discriminate.
  - reflexivity.
  - exists v'. pose proof (f_equal (fun r => match r with Ok (n, _) => n | Err _ => 0 end) E) as E2. change (2 = Z.of_nat k) in E2.
    rewrite <- E2 in E. exact E.
Defined.
Lemma ofi_poll_reports_witness :
  ns_opcode (entry_status (mk_cq_entry [FI_WRITE] 42 0 0)) = op_WRITE /\ ns_user_context (entry_status (mk_cq_entry [FI_WRITE] 42 0 0)) = 42.
Proof.
  destruct (ofi_poll_reports (V := unit) rec_dev (fun _ => false) (fun _ v => (inl FI_EAGAIN, v)) (fun v => (inl FI_EAGAIN, v)) 4 tt eq_refl)
    as (_ & H & _).
  destruct (H (mk_cq_entry [FI_WRITE] 42 0 0) FI_WRITE) as [H1 H2].
  - intros g. cbn. rewrite list_elem_of_singleton. reflexivity.
  - split; [exact H1|apply H2; discriminate].
Defined.
Lemma ofi_sender_of_message_witness :
  entry_status (mk_cq_entry [FI_RECV] 9 64 (cq_data rec_dev 1234 mod 2 ^ 64)) = mk_net_status op_RECV 3 9 64 1234
  /\ entry_status (mk_cq_entry [FI_RECV] 9 64 (cq_data rec_dev 1234 mod 2 ^ 32)) = mk_net_status op_RECV 0 9 64 1234.
Proof.
  split.
  - apply (ofi_sender_of_message rec_dev 1234 8 9 64 [FI_RECV]); [cbn; lia|unfold is_u32; lia|lia|apply list_elem_of_here].
  - apply (ofi_sender_of_message rec_dev 1234 4 9 64 [FI_RECV]); [cbn; lia|unfold is_u32; lia|lia|apply list_elem_of_here].
Defined.
