(* ===== verification/OfiSetup.v ===== *)
(** * The libfabric backend: set-up

    src/src/network/ofi/backend_ofi.cpp: the choice of a provider, the limits of a context,
    the exchange of addresses when a device is created, and registrations. *)
From stdpp Require Import base numbers functions list gmap strings.
From Stdlib Require Import ZArith Lia.
From S2P Require Import Prelude Bits Status Memory Net Text Bootstrap IbvSetup OfiPost.

(** ** Providers *)

(** What the code reads of a [struct fi_info]; [fi_domain_name] is [None] without domain
    attributes or without a name. *)
Record fi_info : Type := mk_info {
  fi_prov_name : string; fi_domain_name : option string;
  fi_cq_data_size : Z; fi_mr_key_size : Z; fi_inject_size : Z; fi_max_msg_size : Z;
  fi_mr_prov_key : bool; fi_mr_virt_addr : bool; fi_mr_endpoint : bool;
  fi_tx_size : Z; fi_rx_size : Z
}.
Definition matches_device_name (info : fi_info) (requested_device_name : string) : bool :=
  if bool_decide (requested_device_name = "") then true
  else match fi_domain_name info with Some name => bool_decide (requested_device_name = name) | None => false end.
Fixpoint select_loop (infos : list fi_info) (requested_device_name : string) (first_match : option fi_info) : option fi_info :=
  match infos with
  | [] => first_match
  | cur :: infos =>
      if negb (matches_device_name cur requested_device_name) then select_loop infos requested_device_name first_match
      else
        let first_match := match first_match with None => Some cur | _ => first_match end in
        if bool_decide (fi_prov_name cur = "cxi") then Some cur else select_loop infos requested_device_name first_match
  end.
Definition select_info (infos : list fi_info) (requested_device_name : string) : option fi_info :=
  select_loop infos requested_device_name None.

(** The first provider of the device that is CXI, or else the first of the device. *)
Definition usable (name : string) (infos : list fi_info) : list fi_info := filter (fun i => matches_device_name i name = true) infos.
Definition cxi_of (infos : list fi_info) : list fi_info := filter (fun i => fi_prov_name i = "cxi"%string) infos.
Lemma select_loop_spec infos name first :
  select_loop infos name first = match head (cxi_of (usable name infos)) with
    | Some i => Some i | None => match first with Some i => Some i | None => head (usable name infos) end end.
Proof.
  unfold usable, cxi_of. revert first. induction infos as [|cur infos IH]; intros first; [by destruct first|]. cbn [select_loop].
  destruct (matches_device_name cur name) eqn:E; cbn [negb].
  - rewrite (filter_cons_True _ cur) by done. case_bool_decide as C.
    + by rewrite filter_cons_True.
    + rewrite (filter_cons_False (fun i => fi_prov_name i = "cxi"%string)) by done. rewrite IH. by destruct first.
  - by rewrite (filter_cons_False _ cur) by (by rewrite E).
Qed.

(** ** Contexts *)

Record ofi_attr : Type := mk_ofi_attr {
  oa_provider_name : string; oa_device_name : string; oa_max_inject_size : Z; oa_max_msg_size : Z; oa_support_putimm : bool
}.
(** Whether [FI_CXI_ENABLE_WRITEDATA] asks for it and the library is recent enough. *)
Definition cxi_writedata_requested (attr : ofi_attr) (env : option string) (major minor : Z) : bool :=
  bool_decide (oa_provider_name attr = "cxi") && bool_decide (env = Some "1"%string) && ((2 <? major) || ((major =? 2) && (5 <=? minor))).
Definition support_putimm (info : fi_info) (requested : bool) (major minor : Z) : bool :=
  if bool_decide (fi_prov_name info = "cxi") then requested && (4 <=? fi_cq_data_size info) && fi_mr_prov_key info
  else if bool_decide (fi_prov_name info = "tcp") || String.prefix "tcp;" (fi_prov_name info)
  then negb ((major <? 1) || ((major =? 1) && (minor <? 12)))
  else true.
(** The constructor of a context. [infos] is what [fi_getinfo] returns for the hints, [None] for an
    error; [fabric_ok] whether [fi_fabric] succeeds. *)
Definition ofi_net_context (attr : ofi_attr) (env : option string) (major minor : Z) (infos : option (list fi_info)) (fabric_ok : bool) :
    result (fi_info * ofi_attr) :=
  let requested := cxi_writedata_requested attr env major minor in
  match infos with
  | None => Err (AssertFailed "Cannot find OFI device/domain")
  | Some all_infos =>
      match select_info all_infos (oa_device_name attr) with
      | None => Err (AssertFailed "Cannot find OFI device/domain")
      | Some info =>
          LCI_Assert (4 <=? fi_cq_data_size info) "cq_data_size is too small!" ;;
          LCI_Assert (fi_mr_key_size info <=? 8) "mr_key_size is too large!" ;;
          let max_inject := if fi_inject_size info <? oa_max_inject_size attr then fi_inject_size info else oa_max_inject_size attr in
          LCI_Assert fabric_ok "fi_fabric" ;;
          let max_msg := if fi_max_msg_size info <? oa_max_msg_size attr then fi_max_msg_size info else oa_max_msg_size attr in
          Ok (info, mk_ofi_attr (oa_provider_name attr) (oa_device_name attr) max_inject max_msg (support_putimm info requested major minor))
      end
  end.

(** The context of the libfabric backend: it uses the first CXI provider of the requested device,
    or else the first provider of it, and stays within what both the provider and the
    attributes allow; puts with immediate data are announced on CXI only if they were asked
    for and the provider chooses the keys. *)
Theorem ofi_context_settled attr env major minor infos fabric_ok info a :
  ofi_net_context attr env major minor (Some infos) fabric_ok = Ok (info, a) ->
  Some info = match head (cxi_of (usable (oa_device_name attr) infos)) with Some i => Some i | None => head (usable (oa_device_name attr) infos) end
  /\ matches_device_name info (oa_device_name attr) = true
  /\ oa_max_inject_size a = Z.min (fi_inject_size info) (oa_max_inject_size attr)
  /\ oa_max_msg_size a = Z.min (fi_max_msg_size info) (oa_max_msg_size attr)
  /\ (fi_prov_name info = "cxi"%string -> oa_support_putimm a = true -> env = Some "1"%string /\ fi_mr_prov_key info = true).
Proof.
  unfold ofi_net_context, select_info. rewrite select_loop_spec. intros H. set (sel := match head (cxi_of _) with Some i => _ | None => _ end) in *.
  assert (Hm : forall i, sel = Some i -> matches_device_name i (oa_device_name attr) = true).
  { assert (Hu : forall i, i ∈ usable (oa_device_name attr) infos -> matches_device_name i (oa_device_name attr) = true).
    { intros i Hi. by apply list_elem_of_filter in Hi as [Hi _]. }
    intros i Hi. apply Hu. subst sel. destruct (head (cxi_of _)) as [j|] eqn:E.
    - injection Hi as ->. apply head_Some_elem_of in E. by apply list_elem_of_filter in E as [_ E].
    - by apply head_Some_elem_of in Hi. }
  destruct sel as [i|]; [|done]. apply bind_Ok in H as (u1 & _ & H). apply bind_Ok in H as (u2 & _ & H). cbn zeta in H. apply bind_Ok in H as (u3 & _ & H).
  injection H as -> <-. cbn [oa_max_inject_size oa_max_msg_size oa_support_putimm]. split_and!; [done|by apply Hm| | |].
  - destruct (Z.ltb_spec (fi_inject_size info) (oa_max_inject_size attr)); lia.
  - destruct (Z.ltb_spec (fi_max_msg_size info) (oa_max_msg_size attr)); lia.
  - intros Hp. unfold support_putimm, cxi_writedata_requested. rewrite bool_decide_true by done. intros Hs.
    apply andb_prop in Hs as [Hs ->]. apply andb_prop in Hs as [Hs _]. apply andb_prop in Hs as [Hs _]. apply andb_prop in Hs as [_ Hs].
    by apply bool_decide_eq_true in Hs.
Qed.

(** ** Addresses of all ranks *)

Definition EP_ADDR_LEN : nat := 6.
Record ofi_data_t : Type := mk_ofi_data { ob_source_rank : Z; ob_uid : Z; ob_addr : list Z }.
(** Two words and the address. *)
Definition sizeof_ofi_data : nat := 56.
Definition ofi_image (d : ofi_data_t) : list Z := to_le32 (u32 (ob_source_rank d)) ++ to_le32 (u32 (ob_uid d)) ++ ob_addr d.
Definition ofi_of_image (b : list Z) : ofi_data_t := mk_ofi_data (i32 (le32 (take 4 b))) (i32 (le32 (take 4 (drop 4 b)))) (take (8 * EP_ADDR_LEN) (drop 8 b)).

(** [my_addr]: zeros, overwritten with what [fi_getname] writes, [addrlen] bytes at most. *)
Definition my_addr (addrlen : Z) (name : list Z) : list Z :=
  let written := take (Z.to_nat addrlen) name in written ++ replicate (8 * EP_ADDR_LEN - length written) 0.
Definition ofi_sendbuf (rank_n : nat) (rank uid : Z) (addr : list Z) : list Z :=
  concat (replicate rank_n (ofi_image (mk_ofi_data rank uid addr))).

(** The calls that open a device. *)
Inductive fi_setup_call : Type :=
  | fi_domain (info : fi_info) | fi_endpoint (info : fi_info) | fi_cq_open (size : Z) | fi_ep_bind_cq | fi_av_open | fi_ep_bind_av | fi_enable.
(** What the constructor has before the exchange. [op_info] is the context's provider, whose
    queue sizes it lowers for the devices to come as well. *)
Record ofi_opened : Type := mk_opened {
  op_info : fi_info; op_use_cxi_writedata : bool; op_max_sends : Z; op_max_recvs : Z; op_addr : list Z
}.
Definition set_sizes (tx rx : Z) (i : fi_info) : fi_info :=
  mk_info (fi_prov_name i) (fi_domain_name i) (fi_cq_data_size i) (fi_mr_key_size i) (fi_inject_size i) (fi_max_msg_size i)
    (fi_mr_prov_key i) (fi_mr_virt_addr i) (fi_mr_endpoint i) tx rx.

Section Addresses.
Context {V : Type}.
(** The error numbers of the calls that open a device; the length of its address; for a
    buffer of some length, the error number and the address; the number of addresses
    inserted and the handle of the address. *)
Variables (fi_setup : fi_setup_call -> V -> Z * V) (fi_getnamelen : V -> Z * V) (fi_getname : Z -> V -> Z * list Z * V).
Variable fi_av_insert : list Z -> V -> Z * Z * V.

Definition safecall (c : fi_setup_call) : ST V unit := fun v =>
  let '(err, v) := fi_setup c v in if err =? 0 then Ok (tt, v) else Err (AssertFailed "FI_SAFECALL").
Definition getnamelen : ST V Z := fun v => Ok (fi_getnamelen v).
Definition getname (addrlen : Z) : ST V (list Z) := fun v =>
  let '(err, name, v) := fi_getname addrlen v in if err =? 0 then Ok (name, v) else Err (AssertFailed "FI_SAFECALL").
(** The constructor of a device up to the exchange. *)
Definition ofi_device_open (info : fi_info) (a : ofi_attr) (max_sends max_recvs max_cqes : Z) : ST V ofi_opened :=
  let use_cxi_writedata := bool_decide (fi_prov_name info = "cxi") && oa_support_putimm a in
  safecall (fi_domain info) ;;
  let max_sends := if fi_tx_size info <? max_sends then fi_tx_size info else max_sends in
  let max_recvs := if fi_rx_size info <? max_recvs then fi_rx_size info else max_recvs in
  let info := set_sizes max_sends max_recvs info in
  safecall (fi_endpoint info) ;;
  safecall (fi_cq_open max_cqes) ;;
  safecall fi_ep_bind_cq ;;
  safecall fi_av_open ;;
  safecall fi_ep_bind_av ;;
  safecall fi_enable ;;
  addrlen ← getnamelen ;
  assert_st (addrlen <=? 8 * Z.of_nat EP_ADDR_LEN) "addrlen" ;;
  name ← getname addrlen ;
  mret (mk_opened info use_cxi_writedata max_sends max_recvs (my_addr addrlen name)).

Definition av_insert (a : list Z) : ST V (Z * Z) := fun v => Ok (fi_av_insert a v).
Fixpoint insert_addrs (uid i : Z) (datav : list ofi_data_t) : ST V (list Z) :=
  match datav with
  | [] => mret []
  | data :: datav =>
      assert_st (ob_source_rank data =? i) "Unexpected source rank" ;;
      assert_st (ob_uid data =? uid) "Unexpected uid" ;;
      r ← av_insert (ob_addr data) ;
      assert_st (r.1 =? 1) "fi_av_insert failed!" ;;
      rest ← insert_addrs uid (i + 1) datav ;
      mret (r.2 :: rest)
  end.
Definition ofi_connect (rank_n : nat) (uid : Z) (recvbuf : list Z) : ST V (list Z) :=
  insert_addrs uid 0 ((fun i => ofi_of_image (record sizeof_ofi_data i recvbuf)) <$> seq 0 rank_n).
(** The constructor of a device after the exchange. *)
Definition ofi_device_create (o : ofi_opened) (lock_mode : Z) (rank_n : nat) (rank uid : Z) (recvbuf : list Z) : ST V ofi_device :=
  peer_addrs ← ofi_connect rank_n uid recvbuf ;
  mret (mk_ofi_device rank peer_addrs (fi_mr_virt_addr (op_info o)) (op_use_cxi_writedata o) lock_mode).

(** What the opening leaves: the limits are the smaller ones, and the address fits. *)
Lemma ofi_device_open_ok info a max_sends max_recvs max_cqes v o v' :
  ofi_device_open info a max_sends max_recvs max_cqes v = Ok (o, v') ->
  op_max_sends o = Z.min (fi_tx_size info) max_sends /\ op_max_recvs o = Z.min (fi_rx_size info) max_recvs
  /\ op_info o = set_sizes (op_max_sends o) (op_max_recvs o) info /\ length (op_addr o) = (8 * EP_ADDR_LEN)%nat.
Proof.
  unfold ofi_device_open. cbn zeta. intros H. do 7 (apply st_bind_Ok in H as (? & ? & _ & H)).
  apply st_bind_Ok in H as (len & ? & _ & H). apply st_bind_Ok in H as (? & ? & Hl & H). apply st_bind_Ok in H as (name & ? & _ & H).
  injection H as <- _. cbn [op_info op_max_sends op_max_recvs op_addr]. split_and!; [| |done|].
  - destruct (Z.ltb_spec (fi_tx_size info) max_sends); lia.
  - destruct (Z.ltb_spec (fi_rx_size info) max_recvs); lia.
  - unfold assert_st, lift in Hl. destruct (Z.leb_spec len (8 * Z.of_nat EP_ADDR_LEN)); [|done].
    unfold my_addr. rewrite length_app, length_replicate, length_take. lia.
Qed.

(** The handles that the library gives for addresses, one after the other; [None] when it
    does not insert one. *)
Fixpoint handles (addrs : list (list Z)) (v : V) : option (list Z * V) :=
  match addrs with
  | [] => Some ([], v)
  | a :: addrs =>
      let '(n, h, v) := fi_av_insert a v in
      if n =? 1 then '(l, v) ← handles addrs v ; Some (h :: l, v) else None
  end.
Lemma handles_length addrs v l v' : handles addrs v = Some (l, v') -> length l = length addrs.
Proof.
  revert v l. induction addrs as [|a addrs IH]; intros v l H; cbn [handles] in H; [by injection H as <- _|].
  destruct (fi_av_insert a v) as [[n h] v1]. destruct (n =? 1); [|done]. apply bind_Some in H as ([l1 v2] & H1 & H).
  injection H as <- <-. cbn. by rewrite (IH _ _ H1).
Qed.
Lemma insert_addrs_eq uid i addrs v :
  insert_addrs uid (Z.of_nat i) (imap (fun k a => mk_ofi_data (Z.of_nat (i + k)) uid a) addrs) v
  = match handles addrs v with Some x => Ok x | None => Err (AssertFailed "fi_av_insert failed!") end.
Proof.
  revert i v. induction addrs as [|a addrs IH]; intros i v; [done|]. cbn [imap insert_addrs handles ob_source_rank ob_uid ob_addr].
  rewrite Nat.add_0_r, !Z.eqb_refl. unfold av_insert, assert_st, lift, mbind at 1 2 3 4 5, st_bind. cbn [LCI_Assert].
  destruct (fi_av_insert a v) as [[n h] v']. cbn [fst snd]. destruct (n =? 1); cbn [LCI_Assert]; [|done].
  replace (Z.of_nat i + 1) with (Z.of_nat (S i)) by lia.
  replace (imap _ addrs) with (imap (fun k a => mk_ofi_data (Z.of_nat (S i + k)) uid a) addrs).
  - rewrite IH. by destruct (handles addrs v') as [[]|].
  - apply imap_ext. intros k x _. cbn. do 2 f_equal. lia.
Qed.
End Addresses.

Lemma ofi_image_ok r uid a : length a = (8 * EP_ADDR_LEN)%nat -> Forall is_byte a ->
  length (ofi_image (mk_ofi_data r uid a)) = sizeof_ofi_data /\ Forall is_byte (ofi_image (mk_ofi_data r uid a)).
Proof.
  intros Hl Hb. unfold ofi_image. cbn [ob_source_rank ob_uid ob_addr]. split; [by rewrite !length_app, Hl|].
  rewrite !Forall_app. split_and!; [apply to_le32_bytes|apply to_le32_bytes|done].
Qed.
Lemma ofi_image_roundtrip r uid a : - 2 ^ 31 <= r < 2 ^ 31 -> - 2 ^ 31 <= uid < 2 ^ 31 -> length a = (8 * EP_ADDR_LEN)%nat ->
  ofi_of_image (ofi_image (mk_ofi_data r uid a)) = mk_ofi_data r uid a.
Proof.
  intros Hr Hu Ha. unfold ofi_of_image, ofi_image. cbn [app take drop ob_source_rank ob_uid ob_addr]. f_equal.
  - change (i32 (le32 (to_le32 (u32 r))) = r). rewrite le32_to_le32 by apply u32_range. by apply i32_u32.
  - change (i32 (le32 (to_le32 (u32 uid))) = uid). rewrite le32_to_le32 by apply u32_range. by apply i32_u32.
  - change (take (8 * EP_ADDR_LEN) a = a). by rewrite take_ge by lia.
Qed.

Section Exchange.
Variables (rank_n : nat) (round uid : Z) (addr : nat -> list Z).
Hypothesis Hround : 0 <= round.
Hypothesis Hn : Z.of_nat rank_n < 2 ^ 31.
Hypothesis Huid : - 2 ^ 31 <= uid < 2 ^ 31.
Hypothesis Haddr : forall r, (r < rank_n)%nat -> length (addr r) = (8 * EP_ADDR_LEN)%nat /\ Forall is_byte (addr r).

Definition sent (r : nat) : list Z := ofi_sendbuf rank_n (Z.of_nat r) uid (addr r).
Lemma sent_ok r : (r < rank_n)%nat -> length (sent r) = (rank_n * sizeof_ofi_data)%nat /\ Forall is_byte (sent r).
Proof.
  intros Hr. destruct (Haddr r Hr) as [P1 P2]. destruct (ofi_image_ok (Z.of_nat r) uid (addr r) P1 P2) as [I1 I2].
  unfold sent, ofi_sendbuf. split.
  - clear - I1. induction rank_n as [|k IH]; [done|]. cbn [replicate concat]. by rewrite length_app, IH, I1.
  - apply Forall_concat, Forall_replicate. exact I2.
Qed.
Lemma sent_record r i : (r < rank_n)%nat -> (i < rank_n)%nat ->
  record sizeof_ofi_data i (sent r) = ofi_image (mk_ofi_data (Z.of_nat r) uid (addr r)).
Proof.
  intros Hr Hi. destruct (Haddr r Hr) as [P1 P2]. destruct (ofi_image_ok (Z.of_nat r) uid (addr r) P1 P2) as [I1 _]. unfold sent, ofi_sendbuf.
  rewrite record_concat by (try (apply Forall_replicate; exact I1); by rewrite length_replicate). by rewrite lookup_replicate_2.
Qed.
Lemma connect_sent {V} (fi_av_insert : list Z -> V -> Z * Z * V) me v : (me < rank_n)%nat ->
  ofi_connect fi_av_insert rank_n uid (concat ((fun i => record sizeof_ofi_data me (sent i)) <$> seq 0 rank_n)) v
  = match handles fi_av_insert (addr <$> seq 0 rank_n) v with Some x => Ok x | None => Err (AssertFailed "fi_av_insert failed!") end.
Proof.
  intros Hme. unfold ofi_connect. rewrite <- insert_addrs_eq with (uid := uid) (i := 0%nat). f_equal.
  apply list_eq. intros i. rewrite list_lookup_fmap, list_lookup_imap, list_lookup_fmap. destruct (decide (i < rank_n)%nat) as [Hi|Hi].
  - rewrite lookup_seq_lt by done. cbn [fmap option_fmap option_map]. f_equal. rewrite Nat.add_0_l. rewrite record_concat.
    + rewrite list_lookup_fmap, lookup_seq_lt by done. cbn [fmap option_fmap option_map default]. rewrite Nat.add_0_l, sent_record by done.
      apply ofi_image_roundtrip; [lia|done|]. by apply Haddr.
    + apply Forall_forall. intros x Hx. apply list_elem_of_fmap in Hx as (r & -> & Hr%elem_of_seq). rewrite sent_record by lia.
      apply ofi_image_ok; apply Haddr; lia.
    + by rewrite length_fmap, length_seq.
  - rewrite lookup_seq_ge by lia. done.
Qed.
End Exchange.

Section Create.
Context {V : Type}.
Variables (fi_setup : fi_setup_call -> V -> Z * V) (fi_getnamelen : V -> Z * V) (fi_getname : Z -> V -> Z * list Z * V).
Variable fi_av_insert : list Z -> V -> Z * Z * V.
(** What each rank asks for, what its library is like before and after the opening, and what
    the opening gives. *)
Variables (rank_n : nat) (round uid : Z) (info : nat -> fi_info) (a : nat -> ofi_attr) (lock_mode max_sends max_recvs max_cqes : nat -> Z).
Variables (v0 v1 : nat -> V) (opened : nat -> ofi_opened).

(** C21: the devices of all ranks. Suppose that every rank opened its device, which fails
    if one of the calls of the library does or an address is too long; its limits are then
    the smaller of the provider's and the requested ones, and the provider's are lowered to
    them. When all ranks have published their records, in any order, every rank reads them
    back and inserts the addresses of all ranks, its own included, in order. If the library
    refuses one, the constructor fails; otherwise the device sends to each rank at the
    handle that the library gave for that rank's address. *)
Theorem ofi_addresses_exchanged :
  0 <= round -> Z.of_nat rank_n < 2 ^ 31 -> - 2 ^ 31 <= uid < 2 ^ 31 ->
  (forall r, (r < rank_n)%nat ->
     ofi_device_open fi_setup fi_getnamelen fi_getname (info r) (a r) (max_sends r) (max_recvs r) (max_cqes r) (v0 r) = Ok (opened r, v1 r)
     /\ Forall is_byte (op_addr (opened r))) ->
  exists puts_of : nat -> list (list Z * list Z),
    (forall r, (r < rank_n)%nat ->
       alltoall_publish round rank_n (Z.of_nat r) sizeof_ofi_data (ofi_sendbuf rank_n (Z.of_nat r) uid (op_addr (opened r))) = Ok (puts_of r))
    /\ forall kvs puts me, puts ≡ₚ concat (puts_of <$> seq 0 rank_n) -> (me < rank_n)%nat ->
         (op_max_sends (opened me) = Z.min (fi_tx_size (info me)) (max_sends me)
          /\ op_max_recvs (opened me) = Z.min (fi_rx_size (info me)) (max_recvs me)
          /\ op_info (opened me) = set_sizes (op_max_sends (opened me)) (op_max_recvs (opened me)) (info me))
         /\ exists recvbuf, alltoall_read (publish_all kvs puts) round rank_n (Z.of_nat me) sizeof_ofi_data = Ok recvbuf
           /\ let create := ofi_device_create fi_av_insert (opened me) (lock_mode me) rank_n (Z.of_nat me) uid recvbuf (v1 me) in
              match handles fi_av_insert ((fun r => op_addr (opened r)) <$> seq 0 rank_n) (v1 me) with
              | None => create = Err (AssertFailed "fi_av_insert failed!")
              | Some (hs, v') => exists dev, create = Ok (dev, v')
                  /\ forall r, (r < rank_n)%nat -> exists h, hs !! r = Some h /\ peer_addr dev (Z.of_nat r) = Ok h
              end.
Proof.
  intros Hround Hn Huid Hopen. set (addr r := op_addr (opened r)).
  assert (Haddr : forall r, (r < rank_n)%nat -> length (addr r) = (8 * EP_ADDR_LEN)%nat /\ Forall is_byte (addr r)).
  { intros r Hr. destruct (Hopen r Hr) as [Ho Hb]. by destruct (ofi_device_open_ok _ _ _ _ _ _ _ _ _ _ _ Ho) as (_ & _ & _ & ?). }
  destruct (exchange_ok round rank_n sizeof_ofi_data (sent rank_n uid addr) Hround) as (puts_of & Hp & Hr);
    [done|intros r Hr; by apply (sent_ok rank_n uid addr)|].
  exists puts_of. split; [exact Hp|]. intros kvs puts me Hputs Hme. destruct (Hopen me Hme) as [Ho _].
  destruct (ofi_device_open_ok _ _ _ _ _ _ _ _ _ _ _ Ho) as (? & ? & ? & _). split; [done|].
  eexists. split; [by apply Hr|]. cbn zeta. unfold ofi_device_create, mbind, st_bind. rewrite (connect_sent rank_n uid addr Hn Huid Haddr) by done.
  destruct (handles fi_av_insert (addr <$> seq 0 rank_n) (v1 me)) as [[hs v']|] eqn:E; [|done]. eexists. split; [reflexivity|].
  intros r Hi. destruct (lookup_lt_is_Some_2 hs r) as [h Hh]; [by rewrite (handles_length _ _ _ _ _ E), length_fmap, length_seq|].
  exists h. split; [done|]. unfold peer_addr. cbn [od_peer_addrs]. rewrite (proj2 (Z.ltb_ge (Z.of_nat r) 0)), Nat2Z.id by lia. by rewrite Hh.
Qed.
End Create.

(** ** Registrations *)

(** What was asked of the library for a registration: the key, and whether the region was bound
    to the endpoint and enabled. *)
Record ofi_mr_req : Type := mk_mr_req { mq_buffer : Z; mq_size : Z; mq_requested_key : Z; mq_bound : bool }.
Definition register_memory_impl (info : fi_info) (buffer size : Z) (g_next_rdma_key : Z) : ofi_mr_req * Z :=
  let '(rdma_key, next) := if fi_mr_prov_key info then (0, g_next_rdma_key) else (g_next_rdma_key, u64 (g_next_rdma_key + 1)) in
  (mk_mr_req buffer size rdma_key (fi_mr_endpoint info), next).
Fixpoint register_all (info : fi_info) (l : list (Z * Z)) (next : Z) : list ofi_mr_req :=
  match l with
  | [] => []
  | (buffer, size) :: l => let '(r, next) := register_memory_impl info buffer size next in r :: register_all info l next
  end.
(** Where the application has to choose the keys of its registrations, no two registrations
    of a process ask for the same one. *)
Theorem ofi_keys_distinct info l next :
  fi_mr_prov_key info = false -> 0 <= next -> next + Z.of_nat (length l) <= 2 ^ 64 -> NoDup (mq_requested_key <$> register_all info l next).
Proof.
  intros Hp H0 Hl. assert (H : mq_requested_key <$> register_all info l next = (fun k => next + Z.of_nat k) <$> seq 0 (length l)).
  { revert next H0 Hl. induction l as [|[b s] l IH]; intros next H0 Hl; [done|]. cbn [register_all length] in *. unfold register_memory_impl. rewrite Hp.
    rewrite !fmap_cons. cbn [seq fmap list_fmap mq_requested_key]. f_equal; [lia|]. destruct l as [|x l]; [done|]. cbn [length] in *.
    assert (E : u64 (next + 1) = next + 1) by (unfold u64; rewrite Z.mod_small by lia; done). rewrite E, IH by lia.
    rewrite <- fmap_S_seq, <- list_fmap_compose. apply list_fmap_ext. intros i k _. cbn. lia. }
  rewrite H. apply NoDup_fmap_2_strong; [|apply NoDup_seq]. intros x y _ _ E. lia.
Qed.

(** ** Witnesses *)

Definition tcp_info : fi_info := mk_info "tcp" (Some "eth0"%string) 8 8 64 4096 false true false 128 128.
Definition cxi_info : fi_info := mk_info "cxi" (Some "cxi0"%string) 4 8 192 1048576 true false true 256 256.
Lemma ofi_context_settled_witness :
  exists a, ofi_net_context (mk_ofi_attr "cxi" "" 256 65536 false) (Some "1"%string) 2 5 (Some [tcp_info; cxi_info]) true = Ok (cxi_info, a)
    /\ oa_max_inject_size a = 192.
Proof.
  eexists. split; [reflexivity|].
  exact (proj1 (proj2 (proj2 (ofi_context_settled (mk_ofi_attr "cxi" "" 256 65536 false) (Some "1"%string) 2 5 [tcp_info; cxi_info] true cxi_info _ eq_refl)))).
Defined.
Definition count_av (a : list Z) (v : Z) : Z * Z * Z := (1, v, v + 1).
(** A library without errors, whose handles count up. *)
Definition count_opened (r : nat) : ofi_opened :=
  mk_opened (set_sizes 64 128 tcp_info) false 64 128 (my_addr 3 (if (r =? 0)%nat then [1; 2; 3] else [4; 5; 6])).
Definition count_name (len v : Z) : Z * list Z * Z := (0, if v =? 0 then [1; 2; 3] else [4; 5; 6], v).
Lemma ofi_addresses_exchanged_witness :
  exists puts recvbuf, alltoall_read (publish_all ∅ puts) 0 2 1 sizeof_ofi_data = Ok recvbuf
    /\ exists dev v', ofi_device_create count_av (count_opened 1) 7 2 1 5 recvbuf 700 = Ok (dev, v') /\ peer_addr dev 1 = Ok 701.
Proof.
  destruct (ofi_addresses_exchanged (fun _ v => (0, v)) (fun v => (3, v)) count_name count_av 2 0 5 (fun _ => tcp_info)
    (fun _ => mk_ofi_attr "" "" 64 4096 true) (fun _ => 7) (fun _ => 64) (fun _ => 256) (fun _ => 1024)
    (fun r => if (r =? 0)%nat then 0 else 700) (fun r => if (r =? 0)%nat then 0 else 700) count_opened) as (puts_of & _ & H).
  - lia.
  - lia.
  - lia.
  - intros [|[|r]] Hr; [| |exfalso; lia].
    + split; [vm_compute; reflexivity|refine (bool_decide_unpack _ _); vm_compute; exact I].
    + split; [vm_compute; reflexivity|refine (bool_decide_unpack _ _); vm_compute; exact I].
  - destruct (H ∅ (puts_of 0%nat ++ puts_of 1%nat) 1%nat) as (_ & recvbuf & E1 & E2).
    + cbn. by rewrite app_nil_r.
    + lia.
    + exists (puts_of 0%nat ++ puts_of 1%nat), recvbuf. split; [exact E1|]. destruct E2 as (dev & E2 & E3).
      exists dev, 702. split; [exact E2|]. destruct (E3 1%nat) as (h & E & Hp); [lia|]. change (peer_addr dev 1 = Ok h) in Hp. rewrite Hp.
      vm_compute in E. injection E as <-. reflexivity.
Defined.
Lemma ofi_keys_distinct_witness : NoDup (mq_requested_key <$> register_all tcp_info [(4096, 10); (8192, 20); (4096, 10)] 7).
Proof. apply (ofi_keys_distinct tcp_info [(4096, 10); (8192, 20); (4096, 10)] 7); [reflexivity|lia|cbn; lia]. Defined.
